(* ===== verification/_CoqProject ===== *)
-Q . S2P
Prelude.v
GoErrors.v
Circuit.v
Scheduler.v
Preflight.v
GoStrings.v
GoStrconv.v
GoTime.v
GoNet.v
GoUtf8.v
GoSort.v
GoCrypto.v
GoFloats.v
QueryCache.v
EmbedClient.v
LeaseQueue.v
Repair.v
WorkerPool.v
QueryScope.v
SearchResults.v
SearchService.v
Authority.v
Pagination.v
ReportMeta.v
Inventory.v
InventoryPages.v
Graph.v
SavedViews.v
Annotations.v
Entities.v
Auth.v
GraphTree.v
GraphPages.v
EtlHealth.v
HealthMonitor.v
Readiness.v
Upstream.v
Operations.v
Config.v
App.v
SqlGroup.v
Investigation.v
Network.v
Dq.v
RecordContext.v
Pair.v
GoDuration.v
Http.v
Handlers.v
GraphWalk.v
GoFlag.v
PgPool.v
RepairCommand.v
Retrieval.v
TextBuilder.v
