(* ===== verification/Prelude.v ===== *)
(** * A verification library for Atheros Search

    Atheros Search (src/atheros-search, Go) answers hybrid semantic and keyword
    searches over wireless and proxy observations, keeps their embeddings up to
    date through a durable job queue, and serves the identity graph of the
    console.  This library translates its core into executable definitions and
    proves what makes each part correct.  Go names are kept; file names below
    are relative to src/atheros-search/internal.

    ** Parts and how they meet

    - Embedding access (embed/).  A search or a worker asks for vectors through
      layers: the query cache ([QueryCache.CachedEmbed]), the laned admission
      scheduler ([Scheduler]), the circuit breaker of a lane ([Circuit.call]) and
      the HTTP client ([EmbedClient.Embed]).  A preflight gate ([Preflight])
      tells the worker whether to claim at all.
    - Embedding work (worker/).  [LeaseQueue] is the job table: claims under a
      fencing token, completion, failure, deferral, recovery.  [WorkerPool] is
      one batch of a worker against the queue, the gate and an embedding client.
    - Search (queryscope/, search/).  [QueryScope] is the filter in SQL,
      [SearchResults] the filter in memory and the fusion of rankings,
      [SearchService] the search itself, with the fallback from semantic to
      keyword results, and the filter suggestions.  The statements it searches
      with are an interface there and [Retrieval] implements it over the tables.
    - Maintenance of the queue (app/repair/): [Repair] runs the operator's
      actions and the proxy repair campaigns against the tables of [LeaseQueue],
      and [RepairCommand] is the command around it: its arguments, the pool that
      [PgPool] opens, the gate on the schema, its reports and exit code.
    - Access (auth/, transport): [Auth] decides whether a bearer token may call
      and keeps the signing keys; [SavedViews] are per-owner stored requests.
    - Asset review (assets/): [Annotations] and [Entities]; proxy authorities are
      normalised by [Authority] before they are embedded or grouped.
    - Reports (reportmeta/, reporting/inventory_*.go): [ReportMeta] describes what
      was measured, [Inventory] and [InventoryPages] answer for the devices.
      [Investigation] answers for an anchor over a window of retained evidence,
      [Network] for access points and their rosters, [Pair] for one merge
      candidate; they share the pages of [Pagination], the graph rows of [Graph]
      and the SQL grouping of [SqlGroup].
    - One record (search/record_context.go, scoped_explain.go): [RecordContext]
      finds the record in the scope of [QueryScope] and gathers its activity, the
      investigation around it and the state of its embeddings; the explanations
      take the scores of [SearchService].
    - Data quality (dedup/): [Dq] is the client of the manager that runs the
      processors, every operation being a sequence of requests in one scope.
    - Graph (reporting/).  [Graph] is the data and the normal form of requests,
      [GraphTree] the presentation forest, [GraphPages] the queries, pages,
      cursors and answers, [GraphWalk] the root of a hierarchy and the walk from it.
    - Health (etlhealth/, db/, health/, operations/).  [EtlHealth] takes a snapshot
      of the tables of [LeaseQueue] and others, [HealthMonitor] caches and
      refreshes it for many callers, [Operations] turns it into the pipeline and
      source reports, [Upstream] shares the readers of the two upstream services,
      and [Readiness] is the database gate of startup and of /readyz.
    - The process (config/, app/).  [Config] reads and checks the environment;
      [App] builds the parts from it, starts and stops them, and publishes the
      live status of the gate and the breakers that [HealthMonitor] merges in.

    - Transports (transport/).  [Http] and [Handlers] are the HTTP layer: a handler
      is a program that decodes its request, calls one service and writes the
      reply, run against services that answer anything; [Auth] guards the routes.

    ** Files

    - Prelude (this file): int64 wrap-around, time, reachability over a step
      relation, the arithmetic automation.
    - GoErrors: error values, errors.Is and errors.As along wrap chains, the
      application errors (embed/unavailable.go, embed/budget.go, apperror).
    - GoStrings, GoStrconv, GoTime, GoUtf8, GoNet, GoSort, GoCrypto, GoFloats: the
      standard library pieces used: strings on bytes with ASCII case and space,
      decimal and hexadecimal integers, UTF-8 decoding, IP addresses and their
      text, stable sorting by a [less] function with the [WeakOrder] laws,
      RFC 3339 times, SHA-256 and hex, IEEE floats.
    - Circuit (embed/circuit.go): breaker state, admission, outcome recording,
      and the interleavings of calls as a step relation.  The breaker invariant,
      admission while open, tripping, the backoff schedule, neutral outcomes,
      and the single half-open probe, with the straggler that breaks it.
    - Scheduler (embed/scheduler.go): the two channels and counters as a step
      relation over any callers: bounds, no starvation of interactive calls, and
      the return of every permit.
    - Preflight (embed/preflight.go): the gate follows the last check, and the
      waits between checks.
    - QueryCache (embed/cache.go): map and recency list agree and stay within
      capacity, eviction of the least recently used, the cached client.
    - EmbedClient (embed/client.go, tokens.go, vector.go, lanes.go): chunking
      partitions the tokens, packing cuts the chunks in order within the budget,
      answers are matched to inputs by index, batching is invisible to the
      caller, and HTTP failures are classified.  The tokenizer, the transport and
      JSON decoding are parameters.
    - LeaseQueue (worker/lease.go, scope.go): the tables as finite maps, one
      definition per statement; claims, fencing, completion in one transaction,
      the outcomes of a lease, recovery.
    - Repair (app/repair/): the operator's actions and a campaign page by page;
      leases survive them, and a campaign visits each job at most once.
    - GoFlag, PgPool, RepairCommand (cmd/embedding-job-repair, app/repair/repair.go,
      db/pool.go): command-line flags; the checks behind an open pool; a command
      that writes only when every guard held, and the report of the statuses.
    - WorkerPool (worker/worker.go): a batch over an oracle world that supplies
      clocks, backend answers and the steps of other processes; every claimed
      job is settled, oversized inputs are isolated, an unavailable backend
      defers, and grouping loses no job.
    - QueryScope (queryscope/scope.go): LIKE escaping matches literally, the SQL
      fragment binds its arguments in order, and the meaning of its clauses.
    - SearchResults (search/types.go, filters.go, fusion.go): the SQL scope and
      the in-memory filter agree, and fusion is deterministic.
    - SearchService (search/service.go, dense.go, sparse.go, fallback.go,
      suggest.go): what a successful search returns, and the exact degradation
      of a hybrid search to a keyword search.
    - Retrieval (search/sparse.go, dense.go, result_scan.go): the statements over
      documents and embeddings; what is shown is stored and in scope, with a
      vector of its present text if it was found by one, and a keyword search
      leaves out only what does not outrank its full answer.
    - TextBuilder (search/text_builder.go): the texts that describe records, and
      that clamping keeps the first words.
    - SavedViews (savedviews/): views belong to their owner; create, update,
      delete and list keep the stored views valid.
    - Annotations (assets/annotations.go, merge.go): revisions and the audit
      trail of annotations, with the race of two first annotations, and merge
      decisions.
    - Entities (assets/entities.go): the pages of asset choices cover them.
    - Auth (auth/auth.go): token verification, roles, and the key cache.
    - Authority (queryscope/authority.go): the normal form of a proxy authority and
      the registrable domain.
    - ReportMeta, Inventory, InventoryPages (reportmeta/, reporting/inventory_*.go):
      the inventory of devices; its fetch loop against the rows it stands for,
      pages that cover it, totals, closed graphs, and the table.
    - Pagination, Graph, GraphTree, GraphPages (reporting/pagination.go, graph_*.go): the
      presentation forest spans the page, and following the page cursors covers
      the graph.
    - GraphWalk (reporting/graph_hierarchy_queries.go): the walk reaches exactly the
      component of its root, closest first under the cap, and a hierarchical
      answer is the forest over it.
    - SqlGroup: GROUP BY, DISTINCT, ORDER BY with LIMIT and the places of NULL, sums
      over groups, extrema and averages over lists of rows, shared by the reports.
    - Investigation (reporting/investigation_*.go, record_evidence.go): requests, the
      scope of the evidence, roster, evidence pages and links; links join listed
      devices, pages cover the evidence, and similarity links are exactly the
      pairs that share two windows and two sensors.
    - Network (reporting/network.go): pages of access points and of rosters cover
      them, an overview counts its roster, the graph with its hints is closed.
    - Pair (reporting/pair.go): a merge candidate with its devices.
    - RecordContext (search/record_context.go, scoped_explain.go, service.go): buckets
      partition the activity, corroboration and current content are what they
      are said to be, and a context stays within its request.
    - Dq (dedup/): requests sent in order as a monad, with a judgement that every
      request is in scope; a session of any operations, replay after a read,
      access after the metadata, and assets without credentials.
    - GoDuration: durations, truth values and integers in the texts of requests.
    - Http (transport/httpapi/http.go, transport/grpcapi/): programs of calls, replies,
      the statuses of errors, parameters, authorization, CORS, gRPC codes.
    - Handlers (transport/httpapi/): every route; who may cause which call, what
      bounds it, that failures are not shown, that query parameters do not depend
      on the order of Go's maps, that streamed results are the plain ones, and
      that both transports agree.
    - EtlHealth, HealthMonitor (etlhealth/health.go): every gauge of a snapshot, the
      ranking of the embedding dependency, and that a completed document counts
      as covered; one refresh at a time over any interleaving of callers, and no
      caller left waiting.
    - Readiness (db/pool.go, health/ready.go): session checks, the wait for the
      schema with the error that explains it, the readiness check.
    - Operations (operations/operations.go): reports made of a fixed vocabulary, and
      a source that is covered exactly when its documents have vectors.
    - Upstream (operations/upstream.go): one fetch at a time shared by its callers,
      and rates that compare two snapshots of one instance without wrap-around.
    - Config (config/): which environments [Load] accepts, for every setting.
    - App (app/app.go): an accepted configuration is used as it is, a run leaves
      nothing open however it ends, the published status of a lane is the truth
      about its next call, and the gauges agree with it.

    ** Conventions

    A mutex makes a method one atomic step; what runs between locked sections is
    interleaved by step relations or an oracle.  Integers are [Z], with [wrap64]
    where a product or sum can leave the range of int64.  Time is an instant in
    nanoseconds, Go's zero time being 0.  A database statement is a function of
    the tables it reads, in one transaction; connection failures are the [inr]
    answer of the statements that can fail in the model (search retrieval,
    queue completion, investigations, record context, merge candidates) and are
    left out elsewhere (graph queries, the network report).  What the code
    calls and this repository does not contain is a [Class] or a section
    parameter: the tokenizer and transport, JSON and base64 ([GraphJSON],
    [CursorCodec] with its laws [CursorLaws]), the retrieval statements
    ([SearchService.Retrieval]; text search and vector operators, [SearchEngine]),
    the PostgreSQL driver and certificates ([PostgresDriver]), map iteration order ([iterates]), UUID and vector parsing in
    SQL ([RepairEnv]), JSON of views, tokens and entity cursors ([ViewEnv],
    [JWTJSON], [EntityCodec] with [EntityCodecLaws]), punycode with the public
    suffix list ([IDNA] with [IDNALaws]), the inner product of stored vectors
    ([VectorOps]), the JSON of upstream answers ([OpsJSON] with [OpsJSONLaws]), and
    net/url, viper and the syntax of floats ([ConfigStd]), the JSON and URLs of
    the data-quality client ([DqStd]) and of stored token lists ([RecordJSON]),
    the JSON of the HTTP layer ([HttpJSON]) and the gateway that matches patterns.

    ** Fuel

    Recursion that is not structural carries fuel, and a theorem says how much
    is enough: chunk packing (one turn per chunk, [pack_requests]), the worker's
    isolation loop (one turn per job, [embed_group_isolates_oversized]), the
    graph walks (one turn per node, [presentation_forest], [walk_loop_spec]), the client that
    follows page cursors (one page per node and edge, [pages_cover_graph]), UTF-8
    decoding and durations (one turn per byte), hexadecimal text (16 digits of 64 bits) and
    IPv6 text (8 groups).

    ** Not modelled

    Metrics, tracing, logging, the main of the server and the browser console, which
    keep no state that another part reads or are other languages.  Listeners and
    their shutdown beyond the order of [App].  Of the modelled files: query
    logging, the conversion of results to protobuf, the log level and the metric
    observers of [Run].  A vector or text index is taken to answer exactly.  Case
    mapping and white space are those of ASCII. *)

From stdpp Require Export base list gmap strings fin_maps sorting.
From Stdlib Require Export ZArith Lia.

(** ** Machine integers and time *)

Declare Scope go_scope.
Delimit Scope go_scope with go.
#[global] Open Scope Z_scope.

(** Two's complement int64 wrap-around: Go's [int], [int64] and
    [time.Duration] on the 64-bit targets the service is built for. *)
Definition wrap64 (z : Z) : Z := (z + 2 ^ 63) mod 2 ^ 64 - 2 ^ 63.

Definition int64_range (z : Z) : Prop := - 2 ^ 63 <= z < 2 ^ 63.

Notation "x *w y" := (wrap64 (x * y)) (at level 40, left associativity) : go_scope.
Notation "x +w y" := (wrap64 (x + y)) (at level 50, left associativity) : go_scope.
Notation "x -w y" := (wrap64 (x - y)) (at level 50, left associativity) : go_scope.

(** A call that fails with an error ends its caller with that error. *)
Definition sum_bind {A B E} (x : A + E) (f : A -> B + E) : B + E :=
  match x with inl a => f a | inr e => inr e end.

Notation "'let!' x ':=' a 'in' b" := (sum_bind a (fun x => b))
  (at level 200, x name, a at level 100, b at level 200) : go_scope.

(** [time.Time] is the instant in nanoseconds since Go's zero Time, so
    [IsZero] is a comparison with 0 and [Before]/[After]/[Equal] are the
    comparisons of [Z]; [time.Duration] is an int64 count of nanoseconds. *)
Notation time := Z (only parsing).
Notation duration := Z (only parsing).
Definition time_zero : time := 0.
Definition IsZero (t : time) : bool := t =? 0.
Definition Nanosecond : duration := 1.
Definition Millisecond : duration := 1000000.
Definition Second : duration := 1000000000.
Definition Minute : duration := 60 * Second.
Definition Hour : duration := 60 * Minute.

(** ** Reflexive transitive closure of a step relation *)

Section steps.
Context {S : Type} (step : S -> S -> Prop).

Inductive steps : S -> S -> Prop :=
| steps_refl s : steps s s
| steps_next s s' s'' : steps s s' -> step s' s'' -> steps s s''.

Lemma steps_trans s s' s'' : steps s s' -> steps s' s'' -> steps s s''.
Proof. intros H1 H2. induction H2; [done|]. eapply steps_next; [|eassumption]; auto. Qed.

Lemma steps_one s s' : step s s' -> steps s s'.
Proof. intros H. eapply steps_next; [apply steps_refl|done]. Qed.

(** Rule induction: an invariant of the initial state that every step
    preserves holds of every reachable state. *)
Lemma steps_invariant (I : S -> Prop) s s' :
  (forall a b, I a -> step a b -> I b) -> I s -> steps s s' -> I s'.
Proof. intros Hp Hi Hs. induction Hs; eauto. Qed.
End steps.

Create HintDb go.
#[export] Hint Constructors steps : go.
#[export] Hint Resolve steps_one : go.

(** ** Automation shared by the components *)

(** Turn boolean integer tests into linear arithmetic hypotheses. *)
Ltac reflect_Z :=
  repeat match goal with
  | H : (_ <? _) = true |- _ => apply Z.ltb_lt in H
  | H : (_ <? _) = false |- _ => apply Z.ltb_ge in H
  | H : (_ <=? _) = true |- _ => apply Z.leb_le in H
  | H : (_ <=? _) = false |- _ => apply Z.leb_gt in H
  | H : (_ =? _) = true |- _ => apply Z.eqb_eq in H
  | H : (_ =? _) = false |- _ => apply Z.eqb_neq in H
  | H : negb _ = true |- _ => apply negb_true_iff in H
  | H : negb _ = false |- _ => apply negb_false_iff in H
  | H : andb _ _ = true |- _ => apply andb_true_iff in H; destruct H
  | H : orb _ _ = false |- _ => apply orb_false_iff in H; destruct H
  end.

(** Split every [if]/[match] scrutinee of the goal, then reflect. *)
Ltac split_ifs :=
  repeat (case_match; simplify_eq/=); reflect_Z.

Ltac zarith := unfold int64_range, wrap64, Minute, Hour, Second, Millisecond, Nanosecond in *; lia.

Lemma sum_bind_inl {A B E} (x : A + E) (f : A -> B + E) b :
  sum_bind x f = inl b <-> exists a, x = inl a /\ f a = inl b.
Proof. destruct x; simpl; naive_solver. Qed.

Lemma forallb_map {A B} (f : A -> B) p l : forallb p (map f l) = forallb (fun x => p (f x)) l.
Proof. induction l as [|x l IH]; [done|]. simpl. by rewrite IH. Qed.

Lemma forallb_weaken {A} (p q : A -> bool) l :
  forallb p l = true -> (forall x, p x = true -> q x = true) -> forallb q l = true.
Proof. rewrite !forallb_forall. auto. Qed.

Lemma existsb_none {A} (p q : A -> bool) l :
  forallb p l = true -> (forall x, p x = true -> q x = false) -> existsb q l = false.
Proof.
  intros H Hpq. induction l as [|x l IH]; [done|]. cbn [forallb existsb] in *. apply andb_true_iff in H as [Hx Hl].
  by rewrite (Hpq x Hx), IH.
Qed.

(** ** Integer lemmas *)

Lemma wrap64_id z : int64_range z -> wrap64 z = z.
Proof. unfold int64_range, wrap64. intros. rewrite Z.mod_small; lia. Qed.

Lemma wrap64_range z : int64_range (wrap64 z).
Proof.
  unfold int64_range, wrap64.
  pose proof (Z.mod_pos_bound (z + 2 ^ 63) (2 ^ 64)). lia.
Qed.

#[export] Hint Resolve wrap64_range : go.

(** ** Selections of lists *)

Lemma existsb_absent {A} (p : A -> bool) l : (forall x, x ∈ l -> p x = false) -> existsb p l = false.
Proof.
  intros H. induction l as [|x l IH]; [done|]. cbn [existsb]. rewrite (H x) by by left. apply IH. intros y Hy. apply H. by right.
Qed.

Lemma filter_andb {A} (P Q : A -> bool) l : List.filter (fun x => P x && Q x) l = List.filter Q (List.filter P l).
Proof. induction l as [|x l IH]; [done|]. simpl. destruct (P x); simpl; [|done]. destruct (Q x); by rewrite IH. Qed.

Lemma filter_elem {A} (p : A -> bool) l x : x ∈ List.filter p l <-> x ∈ l /\ p x = true.
Proof. by rewrite !list_elem_of_In, filter_In. Qed.

Lemma filter_sublist {A} (P : A -> bool) (l : list A) : List.filter P l `sublist_of` l.
Proof. induction l as [|x l IH]; simpl; [done|]. destruct (P x); by constructor. Qed.

Lemma filter_ext_elem {A} (P Q : A -> bool) l :
  (forall x, x ∈ l -> P x = Q x) -> List.filter P l = List.filter Q l.
Proof.
  induction l as [|x l IH]; intros H; simpl; [done|]. rewrite (H x) by by left. rewrite IH; [done|].
  intros y Hy. apply H. by right.
Qed.

Lemma filter_none {A} (P : A -> bool) l : (forall x, x ∈ l -> P x = false) -> List.filter P l = [].
Proof.
  induction l as [|x l IH]; intros H; simpl; [done|]. rewrite (H x) by by left. apply IH. intros y Hy. apply H. by right.
Qed.
