(* ===== verification/GoErrors.v ===== *)
(** * Go error values: wrapping, [errors.Is] and [errors.As]

    The error types of internal/embed (budget.go, unavailable.go, circuit.go)
    and the wrapping that [fmt.Errorf] with one [%w] performs. *)

From S2P Require Import Prelude.

(** The sentinel values the program compares against. *)
Inductive sentinel :=
| ErrOversizedInput
| errChunkBudget
| ErrBackendUnavailable
| ErrCapacityExhausted
| ErrInvalidResponse
| ErrCircuitOpen
| ErrInvalidRequest
| ErrNoLanes
| Canceled          (* context.Canceled *)
| DeadlineExceeded  (* context.DeadlineExceeded *)
| ErrNoRows.        (* sql.ErrNoRows *)

#[export] Instance sentinel_eq_dec : EqDecision sentinel.
Proof. solve_decision. Defined.

(** An error value. [Opaque] is an [errors.New] or a [fmt.Errorf] without
    [%w]; [Wrapf] is a [fmt.Errorf] with one [%w], whose text is [msg]. *)
Inductive error :=
| Sentinel (s : sentinel)
| Opaque (msg : string)
| Wrapf (msg : string) (cause : error)
| OversizedInputError (Index : Z) (Cause : option error)
| BackendUnavailableError (RetryAt : time) (Cause : option error)
| CapacityCause (cause : error).

(** [errors.New] texts of the sentinels. *)
Definition sentinel_text (s : sentinel) : string :=
  match s with
  | ErrOversizedInput => "embedding source exceeds chunk budget"
  | errChunkBudget => "embedding source chunk budget exceeded"
  | ErrBackendUnavailable => "embedding backend unavailable"
  | ErrCapacityExhausted => "embedding capacity exhausted"
  | ErrInvalidResponse => "embedding backend returned an invalid response"
  | ErrCircuitOpen => "embedding circuit open"
  | ErrInvalidRequest => "embedding request rejected"
  | ErrNoLanes => "embedding lanes are not configured"
  | Canceled => "context canceled"
  | DeadlineExceeded => "context deadline exceeded"
  | ErrNoRows => "sql: no rows in result set"
  end.

(** The [Error] methods. *)
Fixpoint Error (e : error) : string :=
  match e with
  | Sentinel s => sentinel_text s
  | Opaque msg => msg
  | Wrapf msg _ => msg
  | OversizedInputError _ c =>
      match c with
      | None => sentinel_text ErrOversizedInput
      | Some c => sentinel_text ErrOversizedInput +:+ ": " +:+ Error c
      end
  | BackendUnavailableError _ c =>
      match c with
      | None => sentinel_text ErrBackendUnavailable
      | Some c => sentinel_text ErrBackendUnavailable +:+ ": " +:+ Error c
      end
  | CapacityCause c => sentinel_text ErrCapacityExhausted +:+ ": " +:+ Error c
  end.

(** [errors.Is err target] for a sentinel target: identity, then the value's
    own [Is] method, then the unwrapped cause. *)
Fixpoint errors_Is (e : error) (target : sentinel) : bool :=
  match e with
  | Sentinel s => bool_decide (s = target)
  | Opaque _ => false
  | Wrapf _ c => errors_Is c target
  | OversizedInputError _ c =>
      bool_decide (target = ErrOversizedInput) ||
      match c with Some c => errors_Is c target | None => false end
  | BackendUnavailableError _ c =>
      bool_decide (target = ErrBackendUnavailable) ||
      match c with Some c => errors_Is c target | None => false end
  | CapacityCause c =>
      bool_decide (target = ErrCapacityExhausted) || errors_Is c target
  end.

(** [errors.As] into a [*BackendUnavailableError]: unavailable.go RetryTime. *)
Fixpoint RetryTime (e : error) : option time :=
  match e with
  | Sentinel _ | Opaque _ => None
  | Wrapf _ c => RetryTime c
  | OversizedInputError _ c =>
      match c with Some c => RetryTime c | None => None end
  | BackendUnavailableError at_ _ => Some at_
  | CapacityCause c => RetryTime c
  end.

(** [errors.As] into a [*OversizedInputError]: the index of the input. *)
Fixpoint As_OversizedInput (e : error) : option Z :=
  match e with
  | Sentinel _ | Opaque _ => None
  | Wrapf _ c => As_OversizedInput c
  | OversizedInputError i _ => Some i
  | BackendUnavailableError _ c =>
      match c with Some c => As_OversizedInput c | None => None end
  | CapacityCause c => As_OversizedInput c
  end.

(** unavailable.go capacityError. *)
Definition capacityError (cause : option error) : error :=
  let cause := match cause with
               | None => Sentinel ErrCapacityExhausted
               | Some c => c
               end in
  BackendUnavailableError time_zero (Some (CapacityCause cause)).

(** circuit.go invalidRequest: [fmt.Errorf("%w: %s", ErrInvalidRequest, ...)]. *)
Definition invalidRequest (detail : string) : error :=
  Wrapf (sentinel_text ErrInvalidRequest +:+ ": " +:+ detail)
        (Sentinel ErrInvalidRequest).

(** ** Application errors (internal/apperror) *)

Inductive error_kind := ErrNotFound | ErrConflict | ErrForbidden | ErrUnavailable | ErrCapacity.

(** [Validation] is Validationf, [AppError] New with another kind. *)
Inductive app_error :=
| Validation (msg : string)
| AppError (Kind : error_kind) (Message : string)
| UnavailableError (Code : string) (RetryAt : time) (Message : string)
| Plain (err : error).

(** An error that is passed on as it is. *)
Definition plain {A} (r : A + error) : A + app_error := match r with inl a => inl a | inr e => inr (Plain e) end.

(** ** Lemmas *)

Lemma invalidRequest_Is detail s :
  errors_Is (invalidRequest detail) s = bool_decide (s = ErrInvalidRequest).
Proof. simpl. apply bool_decide_ext. intuition. Qed.

Lemma capacityError_Is cause :
  errors_Is (capacityError cause) ErrCapacityExhausted = true /\
  errors_Is (capacityError cause) ErrBackendUnavailable = true.
Proof. destruct cause; simpl; auto. Qed.

Lemma RetryTime_Is e t :
  RetryTime e = Some t -> errors_Is e ErrBackendUnavailable = true.
Proof.
  revert e. fix IH 1. intros [s|m|m c|i [c|]|a [c|]|c]; simpl; intros H;
    simplify_eq; try done; rewrite (IH c H); try done; by rewrite orb_true_r.
Qed.
