(* ===== verification/Circuit.v ===== *)
(** * The embedding lane circuit breaker (internal/embed/circuit.go)

    [Circuit] is the breaker record; every method is a function of the breaker
    and the clock reading the method makes.  [sys_step] interleaves calls that
    are admitted, in flight and recorded, which is how [LaneClient.call] uses
    the breaker from many goroutines. *)

From S2P Require Import Prelude GoErrors.

Inductive CircuitState := CircuitClosed | CircuitOpen | CircuitHalfOpen.

#[export] Instance CircuitState_eq_dec : EqDecision CircuitState.
Proof. solve_decision. Defined.

Definition DefaultCircuitFailureMax : Z := 3.
Definition DefaultCircuitBaseBackoff : duration := 10 * Second.
Definition DefaultCircuitMaxBackoff : duration := 2 * Minute.

Record CircuitSnapshot := {
  Snap_State : CircuitState;
  Snap_Failures : Z;
  Snap_RetryAt : time;
  Snap_LastCheckAt : time;
  Snap_LastSuccessAt : time;
  Snap_LastFailureAt : time;
}.

Record Circuit := {
  FailureMax : Z;
  BaseBackoff : duration;
  MaxBackoff : duration;
  state : CircuitState;
  failures : Z;
  backoff : duration;
  openedUntil : time;
  probing : bool;
  lastCheckAt : time;
  lastSuccess : time;
  lastFailure : time;
}.

Definition NewCircuit : Circuit := {|
  FailureMax := DefaultCircuitFailureMax;
  BaseBackoff := DefaultCircuitBaseBackoff;
  MaxBackoff := DefaultCircuitMaxBackoff;
  state := CircuitClosed; failures := 0; backoff := 0;
  openedUntil := time_zero; probing := false;
  lastCheckAt := time_zero; lastSuccess := time_zero; lastFailure := time_zero;
|}.

Definition failureMaxLocked (c : Circuit) : Z :=
  if 0 <? FailureMax c then FailureMax c else DefaultCircuitFailureMax.

Definition baseBackoffLocked (c : Circuit) : duration :=
  if 0 <? BaseBackoff c then BaseBackoff c else DefaultCircuitBaseBackoff.

(** The [max] local of nextBackoffLocked after its two corrections. *)
Definition maxBackoff (c : Circuit) : duration :=
  let base := baseBackoffLocked c in
  let max := if MaxBackoff c <=? 0 then DefaultCircuitMaxBackoff else MaxBackoff c in
  if max <? base then base else max.

Definition nextBackoffLocked (c : Circuit) : duration :=
  let base := baseBackoffLocked c in
  let max := maxBackoff c in
  let next := (backoff c *w 2)%go in
  let next := if next <=? base then (base *w 2)%go else next in
  if max <? next then max else next.

Definition set_state (c : Circuit) (s : CircuitState) (p : bool) : Circuit := {|
  FailureMax := FailureMax c; BaseBackoff := BaseBackoff c; MaxBackoff := MaxBackoff c;
  state := s; failures := failures c; backoff := backoff c;
  openedUntil := openedUntil c; probing := p;
  lastCheckAt := lastCheckAt c; lastSuccess := lastSuccess c;
  lastFailure := lastFailure c |}.

Definition set_lastCheckAt (c : Circuit) (t : time) : Circuit := {|
  FailureMax := FailureMax c; BaseBackoff := BaseBackoff c; MaxBackoff := MaxBackoff c;
  state := state c; failures := failures c; backoff := backoff c;
  openedUntil := openedUntil c; probing := probing c;
  lastCheckAt := t; lastSuccess := lastSuccess c; lastFailure := lastFailure c |}.

(** advanceLocked: an elapsed open window becomes half-open. *)
Definition advanceLocked (now : time) (c : Circuit) : Circuit :=
  if bool_decide (state c = CircuitOpen) && negb (IsZero (openedUntil c))
     && negb (now <? openedUntil c)
  then set_state c CircuitHalfOpen false
  else c.

Definition retryAtLocked (c : Circuit) : time :=
  if bool_decide (state c = CircuitOpen) then openedUntil c else time_zero.

Definition State (now : time) (c : Circuit) : Circuit * CircuitState :=
  let c := advanceLocked now c in (c, state c).

Definition Snapshot (now : time) (c : Circuit) : Circuit * CircuitSnapshot :=
  let c := advanceLocked now c in
  (c, {| Snap_State := state c; Snap_Failures := failures c;
         Snap_RetryAt := retryAtLocked c; Snap_LastCheckAt := lastCheckAt c;
         Snap_LastSuccessAt := lastSuccess c; Snap_LastFailureAt := lastFailure c |}).

(** The three results of circuit_admit: retryAt, admitted, probe. *)
Record admission := { retryAt : time; admitted : bool; probe : bool }.

Definition circuit_admit (now : time) (c : Circuit) : Circuit * admission :=
  let c := advanceLocked now c in
  match state c with
  | CircuitOpen =>
      (c, {| retryAt := openedUntil c; admitted := false; probe := false |})
  | CircuitHalfOpen =>
      if probing c
      then (c, {| retryAt := openedUntil c; admitted := false; probe := false |})
      else (set_state c (state c) true,
            {| retryAt := time_zero; admitted := true; probe := true |})
  | CircuitClosed =>
      (c, {| retryAt := time_zero; admitted := true; probe := false |})
  end.

Definition markCheck (now : time) (c : Circuit) : Circuit := set_lastCheckAt c now.

(** [ctxErr] is [ctx.Err()], [None] when the context is nil or still live. *)
Definition IsCircuitFailure (ctxErr : option error) (err : option error) : bool :=
  match err with
  | None => false
  | Some err =>
      if errors_Is err ErrOversizedInput then false
      else if errors_Is err ErrInvalidRequest then false
      else if errors_Is err ErrCircuitOpen then false
      else if errors_Is err Canceled then false
      else match ctxErr with Some _ => false | None => true end
  end.

Definition record_success (now : time) (c : Circuit) : Circuit := {|
  FailureMax := FailureMax c; BaseBackoff := BaseBackoff c; MaxBackoff := MaxBackoff c;
  state := CircuitClosed; failures := 0; backoff := 0;
  openedUntil := time_zero; probing := false;
  lastCheckAt := now; lastSuccess := now; lastFailure := lastFailure c |}.

Definition record_failure (now : time) (c : Circuit) : Circuit :=
  let c1 := {|
    FailureMax := FailureMax c; BaseBackoff := BaseBackoff c; MaxBackoff := MaxBackoff c;
    state := state c; failures := (failures c +w 1)%go; backoff := backoff c;
    openedUntil := openedUntil c; probing := probing c;
    lastCheckAt := now; lastSuccess := lastSuccess c; lastFailure := now |} in
  if bool_decide (state c1 = CircuitHalfOpen) || (failureMaxLocked c1 <=? failures c1)
  then
    let bo := if backoff c1 <=? 0 then baseBackoffLocked c1 else backoff c1 in
    let c2 := {|
      FailureMax := FailureMax c1; BaseBackoff := BaseBackoff c1; MaxBackoff := MaxBackoff c1;
      state := CircuitOpen; failures := failures c1; backoff := bo;
      openedUntil := now + bo; probing := false;
      lastCheckAt := lastCheckAt c1; lastSuccess := lastSuccess c1;
      lastFailure := lastFailure c1 |} in
    {| FailureMax := FailureMax c2; BaseBackoff := BaseBackoff c2; MaxBackoff := MaxBackoff c2;
       state := state c2; failures := failures c2; backoff := nextBackoffLocked c2;
       openedUntil := openedUntil c2; probing := probing c2;
       lastCheckAt := lastCheckAt c2; lastSuccess := lastSuccess c2;
       lastFailure := lastFailure c2 |}
  else c1.

(** record: the new breaker and whether the outcome was neutral. *)
Definition record (now : time) (ctxErr err : option error) (c : Circuit) : Circuit * bool :=
  match err with
  | None => (record_success now c, false)
  | Some _ =>
      if negb (IsCircuitFailure ctxErr err) then (c, true)
      else (record_failure now c, false)
  end.

Definition releaseProbe (c : Circuit) : Circuit :=
  if bool_decide (state c = CircuitHalfOpen) then set_state c (state c) false else c.

(** The part of LaneClient.call before the backend is reached. *)
Definition call_begin (now : time) (c : Circuit) : Circuit * (error + bool) :=
  let '(c, a) := circuit_admit now c in
  if negb (admitted a)
  then (c, inl (BackendUnavailableError (retryAt a) (Some (Sentinel ErrCircuitOpen))))
  else (markCheck now c, inr (probe a)).

(** The part of LaneClient.call after the backend answered. *)
Definition call_end (now : time) (ctxErr err : option error) (c : Circuit) : Circuit :=
  let '(c, neutral) := record now ctxErr err c in
  if neutral then releaseProbe c else c.

(** LaneClient.call with no call of the same lane overlapping it: [fn] is the
    backend's answer, [t1] and [t2] the clock before and after it. [None] is a
    LaneClient whose Circuit is nil. *)
Definition call {V : Type} (t1 t2 : time) (ctxErr : option error) (fn : V + error)
    (c : option Circuit) : option Circuit * (V + error) :=
  match c with
  | None => (None, fn)
  | Some c =>
      match call_begin t1 c with
      | (c, inl e) => (Some c, inr e)
      | (c, inr _) =>
          let err := match fn with inl _ => None | inr e => Some e end in
          (Some (call_end t2 ctxErr err c), fn)
      end
  end.

(** ** Concurrent callers of one breaker *)

(** [inflight] holds, for each admitted call that has not been recorded, whether
    it was admitted as the half-open probe. *)
Record sys := { circ : Circuit; clock : time; inflight : list bool }.

Inductive sys_step : sys -> sys -> Prop :=
| step_tick s t :
    clock s <= t ->
    sys_step s {| circ := circ s; clock := t; inflight := inflight s |}
| step_admit s c b :
    call_begin (clock s) (circ s) = (c, inr b) ->
    sys_step s {| circ := c; clock := clock s; inflight := b :: inflight s |}
| step_reject s c e :
    call_begin (clock s) (circ s) = (c, inl e) ->
    sys_step s {| circ := c; clock := clock s; inflight := inflight s |}
| step_snapshot s :
    sys_step s {| circ := fst (Snapshot (clock s) (circ s)); clock := clock s;
                  inflight := inflight s |}
| step_finish s pre b post ctxErr err :
    inflight s = pre ++ b :: post ->
    sys_step s {| circ := call_end (clock s) ctxErr err (circ s); clock := clock s;
                  inflight := pre ++ post |}.

Definition sys_init (t : time) (c : Circuit) : sys :=
  {| circ := c; clock := t; inflight := [] |}.

(** What every reachable breaker satisfies at clock [now]. *)
Record circuit_wf (now : time) (c : Circuit) : Prop := {
  wf_closed : state c = CircuitClosed ->
    0 <= failures c < failureMaxLocked c /\ backoff c = 0 /\
    openedUntil c = time_zero /\ probing c = false;
  wf_open : state c <> CircuitClosed ->
    baseBackoffLocked c <= backoff c <= maxBackoff c /\
    0 < openedUntil c <= now + maxBackoff c;
  wf_probing : probing c = true -> state c = CircuitHalfOpen;
  wf_half : state c = CircuitHalfOpen -> openedUntil c <= now;
}.

(** The backoff configuration the invariant needs: doubling the base backoff
    and the cap stays inside int64. *)
Definition config_ok (c : Circuit) : Prop :=
  baseBackoffLocked c < 2 ^ 62 /\ maxBackoff c < 2 ^ 62 /\
  failureMaxLocked c < 2 ^ 63.

(** A call of the lane that starts and fails at [t] with a live context. *)
Definition fail_call (c : Circuit) (te : time * error) : Circuit :=
  match call (V := unit) te.1 te.1 None (inr te.2) (Some c) with
  | (Some c, _) => c
  | (None, _) => c
  end.

(** A failing half-open probe [d] after the open window elapsed. *)
Definition probe_fail (e : error) (c : Circuit) (d : duration) : Circuit :=
  fail_call c (openedUntil c + d, e).

(** A breaker as NewCircuit builds it, with any configuration. *)
Definition fresh (c : Circuit) : Prop :=
  state c = CircuitClosed /\ failures c = 0 /\ backoff c = 0 /\
  openedUntil c = time_zero /\ probing c = false.

(** A step that does not close the breaker. *)
Definition unclosed_step (s s' : sys) : Prop :=
  sys_step s s' /\ state (circ s') <> CircuitClosed.

(** ** Lemmas *)

Lemma base_positive c : 0 < baseBackoffLocked c.
Proof. unfold baseBackoffLocked, DefaultCircuitBaseBackoff. split_ifs; zarith. Qed.

Lemma base_le_max c : baseBackoffLocked c <= maxBackoff c.
Proof. unfold maxBackoff. split_ifs; lia. Qed.

Lemma failureMax_positive c : 0 < failureMaxLocked c.
Proof. unfold failureMaxLocked, DefaultCircuitFailureMax. split_ifs; lia. Qed.

#[export] Hint Resolve base_positive base_le_max failureMax_positive : go.

(** The configuration-dependent bounds do not look at the mutable fields. *)
Record same_config (c c' : Circuit) : Prop := {
  sc_fmax : FailureMax c' = FailureMax c;
  sc_base : BaseBackoff c' = BaseBackoff c;
  sc_max : MaxBackoff c' = MaxBackoff c;
}.

#[export] Instance same_config_equiv : Equivalence same_config.
Proof.
  split; [done| |].
  - intros ?? []. by split.
  - intros ??? [] []. split; congruence.
Qed.

Lemma same_config_bounds c c' :
  same_config c c' ->
  failureMaxLocked c' = failureMaxLocked c /\
  baseBackoffLocked c' = baseBackoffLocked c /\ maxBackoff c' = maxBackoff c.
Proof.
  intros [H1 H2 H3]. unfold maxBackoff, failureMaxLocked, baseBackoffLocked.
  by rewrite H1, H2, H3.
Qed.

Lemma config_ok_same c c' : same_config c c' -> config_ok c -> config_ok c'.
Proof.
  intros H. destruct (same_config_bounds _ _ H) as (E1 & E2 & E3).
  unfold config_ok. by rewrite E1, E2, E3.
Qed.

Lemma nextBackoff_closed_form c :
  config_ok c -> 0 < backoff c -> baseBackoffLocked c <= backoff c <= maxBackoff c ->
  nextBackoffLocked c = Z.min (backoff c * 2) (maxBackoff c).
Proof.
  intros (H1 & H2 & _) Hp Hb. unfold nextBackoffLocked.
  pose proof (base_positive c).
  rewrite !wrap64_id by zarith. split_ifs; lia.
Qed.

Lemma advance_config now c : same_config c (advanceLocked now c).
Proof. unfold advanceLocked. case_match; done. Qed.

Lemma call_end_config now ctxErr err c : same_config c (call_end now ctxErr err c).
Proof.
  unfold call_end, record, record_failure, releaseProbe, set_state.
  split_ifs; done.
Qed.

Lemma call_begin_config now c : same_config c (fst (call_begin now c)).
Proof.
  unfold call_begin, circuit_admit. pose proof (advance_config now c) as H.
  destruct H. repeat (case_match; simplify_eq/=); split; simpl; congruence.
Qed.

Lemma advance_wf now c : circuit_wf now c -> circuit_wf now (advanceLocked now c).
Proof.
  intros [Hc Ho Hp Hh]. unfold advanceLocked.
  destruct (bool_decide _) eqn:E1; [|done]. apply bool_decide_eq_true in E1.
  destruct (negb (IsZero _)); [|done]. destruct (negb _) eqn:E; [|done]. simpl.
  apply negb_true_iff, Z.ltb_ge in E.
  split; simpl; try done. intros _.
  unfold baseBackoffLocked, maxBackoff in *. apply Ho. by rewrite E1.
Qed.

Lemma wf_later t t' c : t <= t' -> circuit_wf t c -> circuit_wf t' c.
Proof.
  intros Ht [Hc Ho Hp Hh]. split; [done| |done|].
  - intros H. specialize (Ho H). lia.
  - intros H. specialize (Hh H). lia.
Qed.

Lemma call_begin_wf now c : circuit_wf now c -> circuit_wf now (fst (call_begin now c)).
Proof.
  intros H%advance_wf. unfold call_begin, circuit_admit. revert H.
  generalize (advanceLocked now c). clear c. intros c [Hc Ho Hp Hh].
  destruct (state c) eqn:Es; simpl.
  - by split; simpl; rewrite ?Es.
  - by split; rewrite ?Es.
  - destruct (probing c) eqn:Ep; simpl; split; simpl; rewrite ?Es, ?Ep; done.
Qed.

Lemma record_failure_wf now c :
  0 < now -> config_ok c -> circuit_wf now c -> circuit_wf now (record_failure now c).
Proof.
  intros Hnow Hcfg [Hc Ho Hp Hh]. unfold record_failure. cbn [state failures backoff].
  pose proof (base_positive c) as Hbp. pose proof (base_le_max c) as Hbm.
  destruct (bool_decide _ || _) eqn:Etrip.
  - set (bo := if backoff c <=? 0 then _ else _).
    assert (Hbo : baseBackoffLocked c <= bo <= maxBackoff c).
    { subst bo. change (baseBackoffLocked _) with (baseBackoffLocked c).
      destruct (decide (state c = CircuitClosed)) as [E|E].
      - destruct (Hc E) as (_ & Hb0 & _). rewrite Hb0. simpl. lia.
      - destruct (Ho E) as (Hb & _). destruct (Z.leb_spec (backoff c) 0); [lia|done]. }
    split; simpl; try done. intros _.
    split; [|change (maxBackoff _) with (maxBackoff c); lia].
    match goal with |- _ <= nextBackoffLocked ?d <= _ => set (c2 := d) end.
    assert (Hsc : same_config c c2) by done.
    destruct (same_config_bounds _ _ Hsc) as (_ & E1 & E2).
    rewrite (nextBackoff_closed_form c2), E2; [|by eapply config_ok_same|simpl; lia|simpl].
    + change (baseBackoffLocked _) with (baseBackoffLocked c).
      change (maxBackoff _) with (maxBackoff c). simpl. lia.
    + change (baseBackoffLocked _) with (baseBackoffLocked c).
      change (maxBackoff _) with (maxBackoff c). lia.
  - apply orb_false_iff in Etrip as [E1 E2]. apply Z.leb_gt in E2.
    apply bool_decide_eq_false in E1. simpl in *.
    change (failureMaxLocked _) with (failureMaxLocked c) in E2.
    split; simpl; try done. intros E. destruct (Hc E) as (Hf & Hrest).
    split; [|done]. destruct Hcfg as (_ & _ & Hfm).
    rewrite wrap64_id in * by zarith.
    change (failureMaxLocked _) with (failureMaxLocked c). lia.
Qed.

Lemma releaseProbe_wf now c : circuit_wf now c -> circuit_wf now (releaseProbe c).
Proof.
  intros [Hc Ho Hp Hh]. unfold releaseProbe. case_bool_decide as E; [|done].
  split; simpl; rewrite ?E; try done; intros _; [|by apply Hh].
  change (baseBackoffLocked _) with (baseBackoffLocked c).
  change (maxBackoff _) with (maxBackoff c). apply Ho. by rewrite E.
Qed.

Lemma call_end_wf now ctxErr err c :
  0 < now -> config_ok c -> circuit_wf now c ->
  circuit_wf now (call_end now ctxErr err c).
Proof.
  intros Hn Hcfg H. unfold call_end, record.
  destruct err as [e|].
  - destruct (negb _); [by apply releaseProbe_wf|by apply record_failure_wf].
  - split; simpl; try done. intros _. pose proof (failureMax_positive c) as Hf.
    change (failureMaxLocked _) with (failureMaxLocked c). lia.
Qed.

Definition sys_inv (s : sys) : Prop :=
  0 < clock s /\ config_ok (circ s) /\ circuit_wf (clock s) (circ s).

Lemma sys_inv_step s s' : sys_inv s -> sys_step s s' -> sys_inv s'.
Proof.
  intros (Hn & Hcfg & Hwf) Hs.
  destruct Hs as [s t Ht|s c b Hb|s c e Hb|s|s pre b post ctxErr err Hin];
    unfold sys_inv in *; simpl in *.
  - split_and!; [lia|done|by eapply wf_later].
  - pose proof (call_begin_wf _ _ Hwf) as H. pose proof (call_begin_config (clock s) (circ s)) as H'.
    rewrite Hb in *. split_and!; [done| |done]. by eapply config_ok_same.
  - pose proof (call_begin_wf _ _ Hwf) as H. pose proof (call_begin_config (clock s) (circ s)) as H'.
    rewrite Hb in *. split_and!; [done| |done]. by eapply config_ok_same.
  - split_and!; [done| |by apply advance_wf]. eapply config_ok_same; [apply advance_config|done].
  - split_and!; [done| |by apply call_end_wf]. eapply config_ok_same; [apply call_end_config|done].
Qed.

Lemma sys_init_inv t c :
  0 < t -> config_ok c -> fresh c -> sys_inv (sys_init t c).
Proof.
  intros Ht Hc (Es & Ef & Eb & Eo & Ep). split_and!; [done|done|]. split; simpl; rewrite ?Es, ?Ep; try done.
  intros _. pose proof (failureMax_positive c). rewrite Ef. split_and!; [lia|lia|done|done|done].
Qed.

Lemma call_closed now c : state c = CircuitClosed ->
  call_begin now c = (markCheck now c, inr false).
Proof.
  intros E. unfold call_begin, circuit_admit, advanceLocked. rewrite E. simpl. by rewrite E.
Qed.

Lemma call_elapsed now c :
  state c = CircuitOpen -> 0 < openedUntil c <= now ->
  call_begin now c = (markCheck now (set_state c CircuitHalfOpen true), inr true).
Proof.
  intros E Ht. unfold call_begin, circuit_admit, advanceLocked, IsZero. rewrite E.
  rewrite bool_decide_eq_true_2 by done.
  destruct (Z.eqb_spec (openedUntil c) 0); [lia|].
  destruct (Z.ltb_spec now (openedUntil c)); [lia|]. done.
Qed.

Lemma call_open now c :
  state c = CircuitOpen -> now < openedUntil c ->
  call_begin now c =
  (c, inl (BackendUnavailableError (openedUntil c) (Some (Sentinel ErrCircuitOpen)))).
Proof.
  intros E Ht. unfold call_begin, circuit_admit, advanceLocked. rewrite E.
  destruct (Z.ltb_spec now (openedUntil c)); [|lia].
  rewrite andb_false_r. simpl. by rewrite E.
Qed.

Lemma call_probing now c :
  state c = CircuitHalfOpen -> probing c = true ->
  call_begin now c =
  (c, inl (BackendUnavailableError (openedUntil c) (Some (Sentinel ErrCircuitOpen)))).
Proof.
  intros E Ep. unfold call_begin, circuit_admit, advanceLocked. rewrite E. simpl.
  by rewrite E, Ep.
Qed.

Lemma IsCircuitFailure_some ctxErr err :
  IsCircuitFailure ctxErr err = true -> exists e, err = Some e /\ ctxErr = None.
Proof. unfold IsCircuitFailure. destruct err; [|done]. repeat case_match; eauto; done. Qed.

Lemma call_end_failure now e c :
  IsCircuitFailure None (Some e) = true -> call_end now None (Some e) c = record_failure now c.
Proof. intros H. unfold call_end, record. by rewrite H. Qed.

(** A call that fails while the breaker is closed and below the threshold. *)
Lemma fail_call_below t e c :
  IsCircuitFailure None (Some e) = true -> state c = CircuitClosed ->
  0 <= failures c -> failures c + 1 < failureMaxLocked c < 2 ^ 63 ->
  state (fail_call c (t, e)) = CircuitClosed /\
  failures (fail_call c (t, e)) = failures c + 1 /\
  backoff (fail_call c (t, e)) = backoff c.
Proof.
  intros He Es Hf Hm. unfold fail_call, call. simpl. rewrite call_closed by done.
  rewrite call_end_failure by done. unfold record_failure. simpl. rewrite Es. simpl.
  change (failureMaxLocked _) with (failureMaxLocked c).
  rewrite wrap64_id by zarith.
  destruct (Z.leb_spec (failureMaxLocked c) (failures c + 1)); [lia|]. done.
Qed.

(** The failing call that reaches the threshold opens the breaker. *)
Lemma fail_call_trip t e c :
  IsCircuitFailure None (Some e) = true -> state c = CircuitClosed -> backoff c = 0 ->
  0 <= failures c -> failures c + 1 = failureMaxLocked c -> config_ok c ->
  let c' := fail_call c (t, e) in
  state c' = CircuitOpen /\ openedUntil c' = t + baseBackoffLocked c /\
  lastFailure c' = t /\
  backoff c' = Z.min (baseBackoffLocked c * 2) (maxBackoff c) /\ same_config c c'.
Proof.
  intros He Es Eb Hf Hm Hcfg. unfold fail_call, call. simpl. rewrite call_closed by done.
  rewrite call_end_failure by done. unfold record_failure. simpl. rewrite Es. simpl.
  change (failureMaxLocked _) with (failureMaxLocked c).
  destruct Hcfg as (H1 & H2 & H3).
  rewrite wrap64_id by zarith. rewrite Hm.
  rewrite Z.leb_refl. simpl. rewrite Eb. simpl.
  change (baseBackoffLocked _) with (baseBackoffLocked c).
  split_and!; try done. pose proof (base_positive c). pose proof (base_le_max c).
  match goal with |- nextBackoffLocked ?d = _ =>
    rewrite (nextBackoff_closed_form d) by (simpl; try done;
      change (baseBackoffLocked d) with (baseBackoffLocked c);
      change (maxBackoff d) with (maxBackoff c); lia) end.
  done.
Qed.

(** A failing probe doubles the reopen delay up to the cap. *)
Lemma probe_fail_step e c d :
  IsCircuitFailure None (Some e) = true -> state c = CircuitOpen -> 0 < openedUntil c ->
  0 <= d -> config_ok c -> baseBackoffLocked c <= backoff c <= maxBackoff c ->
  let c' := probe_fail e c d in
  state c' = CircuitOpen /\ openedUntil c' = lastFailure c' + backoff c /\
  openedUntil c < openedUntil c' /\
  backoff c' = Z.min (backoff c * 2) (maxBackoff c) /\ same_config c c'.
Proof.
  intros He Es Ho Hd Hcfg Hb. unfold probe_fail, fail_call, call. simpl.
  rewrite call_elapsed by (try done; lia). rewrite call_end_failure by done.
  unfold record_failure. simpl. pose proof (base_positive c).
  destruct (Z.leb_spec (backoff c) 0); [lia|].
  split_and!; try done; [lia|].
  match goal with |- nextBackoffLocked ?d = _ =>
    rewrite (nextBackoff_closed_form d) by (simpl; try done;
      change (baseBackoffLocked d) with (baseBackoffLocked c);
      change (maxBackoff d) with (maxBackoff c); lia) end.
  done.
Qed.

Lemma fold_fail_below l c :
  Forall (fun te => IsCircuitFailure None (Some te.2) = true) l ->
  state c = CircuitClosed -> backoff c = 0 -> 0 <= failures c ->
  failures c + Z.of_nat (length l) < failureMaxLocked c < 2 ^ 63 ->
  let c' := fold_left fail_call l c in
  state c' = CircuitClosed /\ failures c' = failures c + Z.of_nat (length l) /\
  backoff c' = 0 /\ same_config c c'.
Proof.
  revert c. induction l as [|[t e] l IH]; intros c Hl Es Eb Hf Hm; simpl in *.
  { split_and!; [done|lia|done|done]. }
  apply Forall_cons in Hl as [He Hl].
  destruct (fail_call_below t e c) as (E1 & E2 & E3); [done..|lia|].
  assert (Hsc : same_config c (fail_call c (t, e))).
  { unfold fail_call, call. simpl. rewrite call_closed by done.
    etransitivity; [|apply call_end_config]. done. }
  destruct (same_config_bounds _ _ Hsc) as (Em & _).
  destruct (IH (fail_call c (t, e))) as (F1 & F2 & F3 & F4);
    [done|done|congruence|lia|rewrite Em, E2; lia|].
  split_and!; [done|lia|done|by etransitivity].
Qed.

(** The breaker after [FailureMax - 1] failing calls and then one more. *)
Lemma fold_fail_trip c l t e :
  fresh c -> config_ok c ->
  Forall (fun te => IsCircuitFailure None (Some te.2) = true) l ->
  IsCircuitFailure None (Some e) = true ->
  Z.of_nat (length l) + 1 = failureMaxLocked c ->
  let c1 := fold_left fail_call l c in
  let c2 := fold_left fail_call (l ++ [(t, e)]) c in
  state c1 = CircuitClosed /\ state c2 = CircuitOpen /\
  openedUntil c2 = t + baseBackoffLocked c /\ lastFailure c2 = t /\
  backoff c2 = Z.min (baseBackoffLocked c * 2) (maxBackoff c) /\ same_config c c2.
Proof.
  intros (Es & Ef & Eb & _) Hcfg Hl He Hlen. pose proof (proj2 (proj2 Hcfg)).
  destruct (fold_fail_below l c) as (F1 & F2 & F3 & F4); [done..|lia|lia|].
  destruct (same_config_bounds _ _ F4) as (G1 & G2 & G3).
  rewrite fold_left_app. simpl.
  destruct (fail_call_trip t e (fold_left fail_call l c)) as (T1 & T2 & T3 & T4 & T5);
    [done..|lia|lia|by eapply config_ok_same|].
  rewrite T2, T4, G2, G3. split_and!; try done. by etransitivity.
Qed.

Lemma fold_probe_fail e ds c k :
  IsCircuitFailure None (Some e) = true -> state c = CircuitOpen -> 0 < openedUntil c ->
  Forall (fun d => 0 <= d) ds -> config_ok c -> 0 <= k ->
  openedUntil c = lastFailure c + Z.min (baseBackoffLocked c * 2 ^ k) (maxBackoff c) ->
  backoff c = Z.min (baseBackoffLocked c * 2 ^ (k + 1)) (maxBackoff c) ->
  let c' := fold_left (probe_fail e) ds c in
  state c' = CircuitOpen /\
  openedUntil c' = lastFailure c' +
    Z.min (baseBackoffLocked c * 2 ^ (k + Z.of_nat (length ds))) (maxBackoff c).
Proof.
  intros He. revert c k. induction ds as [|d ds IH]; intros c k Es Ho Hd Hcfg Hk Eo Eb; simpl.
  { by rewrite Z.add_0_r. }
  apply Forall_cons in Hd as [Hd Hds].
  pose proof (base_positive c) as Hbp. pose proof (base_le_max c) as Hbm.
  assert (Hpow : 1 <= 2 ^ k) by (pose proof (Z.pow_pos_nonneg 2 k); lia).
  assert (Hpow' : 2 ^ (k + 1) = 2 * 2 ^ k) by (rewrite Z.pow_add_r by lia; lia).
  assert (Hpow'' : 2 ^ (k + 1 + 1) = 2 * 2 ^ (k + 1)) by (rewrite (Z.pow_add_r 2 (k + 1)) by lia; lia).
  destruct (probe_fail_step e c d) as (F1 & F2 & F3 & F4 & F5); try done.
  { rewrite Eb. split; [|lia]. apply Z.min_glb; [nia|done]. }
  destruct (same_config_bounds _ _ F5) as (_ & Gb & Gm).
  specialize (IH (probe_fail e c d) (k + 1)). rewrite Gb, Gm in IH.
  replace (k + Z.of_nat (S (length ds))) with (k + 1 + Z.of_nat (length ds)) by lia.
  apply IH; try done; try lia. by eapply config_ok_same.
Qed.

(** The states of a breaker that has been open since its calls drained. *)
Definition drained_inv (s : sys) : Prop :=
  state (circ s) <> CircuitClosed /\
  (inflight s = [] /\ probing (circ s) = false \/
   inflight s = [true] /\ state (circ s) = CircuitHalfOpen /\ probing (circ s) = true).

Lemma advance_probing now c :
  state c = CircuitHalfOpen -> advanceLocked now c = c.
Proof. intros E. unfold advanceLocked. by rewrite E. Qed.

Lemma advance_not_probing now c :
  probing c = false -> probing (advanceLocked now c) = false.
Proof. unfold advanceLocked. by case_match. Qed.

Lemma advance_unclosed now c :
  state c <> CircuitClosed -> state (advanceLocked now c) <> CircuitClosed.
Proof. unfold advanceLocked. by case_match. Qed.

Lemma drained_step s s' : drained_inv s -> unclosed_step s s' -> drained_inv s'.
Proof.
  intros [Hne Hi] [Hs Hne']. split; [done|].
  destruct Hs as [s t Ht|s c b Hb|s c e Hb|s|s pre b post ctxErr err Hin]; simpl in *.
  - done.
  - destruct Hi as [[-> Hp]|(-> & Hh & Hp)].
    + right. unfold call_begin, circuit_admit in Hb.
      destruct (state (advanceLocked (clock s) (circ s))) eqn:E; simplify_eq/=.
      destruct (probing (advanceLocked _ _)); by simplify_eq/=.
    + rewrite call_probing in Hb by done. simplify_eq.
  - destruct Hi as [[-> Hp]|(-> & Hh & Hp)].
    + left. split; [done|]. unfold call_begin, circuit_admit in Hb.
      repeat case_match; simplify_eq/=; eauto using advance_not_probing.
    + right. rewrite call_probing in Hb by done. by simplify_eq.
  - destruct Hi as [[-> Hp]|(-> & Hh & Hp)].
    + left. eauto using advance_not_probing.
    + right. by rewrite advance_probing.
  - destruct Hi as [[Hi Hp]|(Hi & Hh & Hp)]; rewrite Hi in Hin; [by destruct pre|].
    destruct pre as [|? pre]; simplify_eq/=; [|by destruct pre].
    left. split; [done|]. unfold call_end, record, record_failure, releaseProbe in *.
    destruct err; simpl in *; [|done]. destruct (negb _); rewrite Hh; done.
Qed.

(** ** Properties *)

(** C11. Whatever the interleaving of admitted, rejected, observed and finished
    calls, a breaker built by NewCircuit with any int64-safe configuration stays
    well formed: closed means fewer consecutive failures than FailureMax and no
    pending backoff, open means the next backoff lies between the base and the
    cap and the retry time is at most the cap away, and the probe slot is held
    only while half-open. *)
Theorem breaker_invariant t c s :
  0 < t -> config_ok c -> fresh c -> steps sys_step (sys_init t c) s ->
  circuit_wf (clock s) (circ s).
Proof.
  intros Ht Hc Hf Hs.
  apply (steps_invariant sys_step sys_inv _ _ sys_inv_step (sys_init_inv _ _ Ht Hc Hf) Hs).
Qed.

Lemma breaker_invariant_witness :
  circuit_wf 1 (circ {| circ := markCheck 1 NewCircuit; clock := 1; inflight := [false] |}).
Proof.
  refine (breaker_invariant 1 NewCircuit
            {| circ := markCheck 1 NewCircuit; clock := 1; inflight := [false] |} _ _ _ _).
  - lia.
  - unfold config_ok. vm_compute. intuition congruence.
  - by vm_compute.
  - apply steps_one. apply (step_admit (sys_init 1 NewCircuit)). by vm_compute.
Defined.

(** Before the open window elapses a call is rejected with
    BackendUnavailableError carrying that window's end and the breaker does not
    change, whatever the backend would have answered; once it has elapsed the
    next call is the half-open probe, and a second call that arrives while the
    probe is out is rejected. *)
Theorem open_window_admission {V} now t2 ctxErr (fn : V + error) c :
  state c = CircuitOpen -> 0 < openedUntil c ->
  (now < openedUntil c ->
     call now t2 ctxErr fn (Some c) =
     (Some c, inr (BackendUnavailableError (openedUntil c) (Some (Sentinel ErrCircuitOpen))))) /\
  (openedUntil c <= now -> exists c',
     call_begin now c = (c', inr true) /\ state c' = CircuitHalfOpen /\
     forall now', call_begin now' c' =
       (c', inl (BackendUnavailableError (openedUntil c') (Some (Sentinel ErrCircuitOpen))))).
Proof.
  intros Es Ho. split; intros Ht.
  - unfold call. by rewrite call_open.
  - eexists. rewrite call_elapsed by done. split_and!; [done|done|].
    intros now'. by apply call_probing.
Qed.

Definition open_example : Circuit :=
  fold_left fail_call [(1, Opaque "a"); (2, Opaque "b"); (3, Opaque "c")] NewCircuit.

Lemma open_window_admission_witness :
  call 4 5 None (inl tt) (Some open_example) =
  (Some open_example,
   inr (BackendUnavailableError (3 + DefaultCircuitBaseBackoff) (Some (Sentinel ErrCircuitOpen)))).
Proof.
  refine (proj1 (open_window_admission 4 5 None (inl tt) open_example _ _) _);
    by vm_compute.
Defined.

(** FailureMax consecutive failing calls, and no fewer, open a closed
    breaker, with the retry time one base backoff after the last failure. *)
Theorem failures_trip_breaker c l t e :
  fresh c -> config_ok c ->
  Forall (fun te => IsCircuitFailure None (Some te.2) = true) l ->
  IsCircuitFailure None (Some e) = true ->
  Z.of_nat (length l) + 1 = failureMaxLocked c ->
  state (fold_left fail_call l c) = CircuitClosed /\
  state (fold_left fail_call (l ++ [(t, e)]) c) = CircuitOpen /\
  openedUntil (fold_left fail_call (l ++ [(t, e)]) c) = t + baseBackoffLocked c.
Proof.
  intros Hf Hcfg Hl He Hlen.
  by destruct (fold_fail_trip c l t e) as (T0 & T1 & T2 & _).
Qed.

Lemma failures_trip_breaker_witness :
  openedUntil (fold_left fail_call ([(1, Opaque "a"); (2, Opaque "b")] ++ [(7, Opaque "c")])
                 NewCircuit) = 7 + baseBackoffLocked NewCircuit.
Proof.
  refine (proj2 (proj2 (failures_trip_breaker NewCircuit
            [(1, Opaque "a"); (2, Opaque "b")] 7 (Opaque "c") _ _ _ _ _))).
  - by vm_compute.
  - unfold config_ok. vm_compute. intuition congruence.
  - by repeat constructor.
  - done.
  - done.
Defined.

(** The reopen delay doubles with every failing half-open probe and is
    capped: after the trip and [k] failed probes, at whatever times they fail,
    the breaker is open for min(base * 2^k, max) from its last failure. *)
Theorem probe_backoff_schedule c l t e p ds :
  fresh c -> config_ok c ->
  Forall (fun te => IsCircuitFailure None (Some te.2) = true) l ->
  IsCircuitFailure None (Some e) = true -> IsCircuitFailure None (Some p) = true ->
  Z.of_nat (length l) + 1 = failureMaxLocked c -> 0 < t -> Forall (fun d => 0 <= d) ds ->
  let c' := fold_left (probe_fail p) ds (fold_left fail_call (l ++ [(t, e)]) c) in
  state c' = CircuitOpen /\
  openedUntil c' - lastFailure c' =
    Z.min (baseBackoffLocked c * 2 ^ Z.of_nat (length ds)) (maxBackoff c).
Proof.
  intros Hf Hcfg Hl He Hp Hlen Ht Hds.
  destruct (fold_fail_trip c l t e) as (_ & T1 & T2 & T3 & T4 & T5); [done..|].
  destruct (same_config_bounds _ _ T5) as (K1 & K2 & K3).
  pose proof (base_positive c) as Hb. pose proof (base_le_max c) as Hm.
  destruct (fold_probe_fail p ds (fold_left fail_call (l ++ [(t, e)]) c) 0)
    as (R1 & R2); rewrite ?K2, ?K3; try done.
  - rewrite T2. lia.
  - by eapply config_ok_same.
  - rewrite T2, T3. lia.
  - rewrite K2, K3 in R2. split; [done|]. rewrite R2, Z.add_0_l. lia.
Qed.

Lemma probe_backoff_schedule_witness :
  let c' := fold_left (probe_fail (Opaque "p")) [0; 5; 1; 0; 9]
              (fold_left fail_call ([(1, Opaque "a"); (2, Opaque "b")] ++ [(7, Opaque "c")])
                 NewCircuit) in
  state c' = CircuitOpen /\ openedUntil c' - lastFailure c' =
  Z.min (baseBackoffLocked NewCircuit * 2 ^ Z.of_nat (length [0; 5; 1; 0; 9]))
        (maxBackoff NewCircuit).
Proof.
  refine (probe_backoff_schedule NewCircuit [(1, Opaque "a"); (2, Opaque "b")] 7
            (Opaque "c") (Opaque "p") [0; 5; 1; 0; 9] _ _ _ _ _ _ _ _).
  - by vm_compute.
  - unfold config_ok. vm_compute. intuition congruence.
  - by repeat constructor.
  - done.
  - done.
  - done.
  - lia.
  - repeat constructor; lia.
Defined.

(** Oversized inputs, rejected requests, circuit-open rejections, caller
    cancellation and any failure under a dead caller context never move the
    breaker: its state, failure count, backoff and retry time stay, and only a
    half-open probe slot is handed back. *)
Theorem neutral_outcome_keeps_breaker now ctxErr e c :
  errors_Is e ErrOversizedInput = true \/ errors_Is e ErrInvalidRequest = true \/
  errors_Is e ErrCircuitOpen = true \/ errors_Is e Canceled = true \/ is_Some ctxErr ->
  call_end now ctxErr (Some e) c = releaseProbe c /\
  state (releaseProbe c) = state c /\ failures (releaseProbe c) = failures c /\
  backoff (releaseProbe c) = backoff c /\ openedUntil (releaseProbe c) = openedUntil c.
Proof.
  intros H. split.
  - unfold call_end, record.
    assert (IsCircuitFailure ctxErr (Some e) = false) as ->; [|done].
    unfold IsCircuitFailure.
    destruct H as [->|[->|[->|[->|[? ->]]]]]; repeat case_match; done.
  - unfold releaseProbe. case_bool_decide; done.
Qed.

Lemma neutral_outcome_keeps_breaker_witness :
  call_end 9 None (Some (capacityError (Some (Sentinel Canceled)))) open_example
  = releaseProbe open_example.
Proof.
  refine (proj1 (neutral_outcome_keeps_breaker 9 None
            (capacityError (Some (Sentinel Canceled))) open_example _)).
  right. right. right. left. by vm_compute.
Defined.

(** Once the calls admitted before the trip have drained, at most one call
    is in flight until the breaker closes again, and it is the half-open probe. *)
Theorem half_open_single_call s s' :
  state (circ s) <> CircuitClosed -> inflight s = [] -> probing (circ s) = false ->
  steps unclosed_step s s' ->
  inflight s' = [] \/ (inflight s' = [true] /\ state (circ s') = CircuitHalfOpen).
Proof.
  intros Hne Hi Hp Hs.
  assert (Hinv : drained_inv s) by (split; auto).
  destruct (steps_invariant unclosed_step drained_inv s s' drained_step Hinv Hs)
    as [_ [[? ?]|(? & ? & ?)]]; auto.
Qed.

Lemma half_open_single_call_witness :
  inflight (sys_init 4 open_example) = [] \/
  (inflight (sys_init 4 open_example) = [true] /\
   state (circ (sys_init 4 open_example)) = CircuitHalfOpen).
Proof.
  refine (half_open_single_call (sys_init 4 open_example) (sys_init 4 open_example) _ _ _ _);
    [by vm_compute|done|by vm_compute|constructor].
Defined.

(** Without that drain the single-probe promise fails: a call admitted while
    the breaker was closed that ends neutrally (its caller cancelled) after the
    breaker became half-open releases the probe slot another call holds, so two
    probes are in flight at once. *)
Theorem straggler_releases_probe :
  exists s, steps sys_step (sys_init 1 NewCircuit) s /\
    state (circ s) = CircuitHalfOpen /\ inflight s = [true; true].
Proof.
  pose (fail := fun c => call_end 1 None (Some (Opaque "backend failed")) c).
  pose (adm := fun t c => fst (call_begin t c)).
  pose (c4 := adm 1 (adm 1 (adm 1 (adm 1 NewCircuit)))).
  pose (c7 := fail (fail (fail c4))).
  pose (t := 1 + DefaultCircuitBaseBackoff).
  pose (c8 := adm t c7).
  pose (c9 := call_end t None (Some (Sentinel Canceled)) c8).
  exists {| circ := adm t c9; clock := t; inflight := [true; true] |}.
  split; [|split; by vm_compute].
  eapply steps_next; [|apply (step_admit {| circ := c9; clock := t; inflight := [true] |});
    by vm_compute].
  eapply steps_next; [|apply (step_finish {| circ := c8; clock := t; inflight := [true; false] |}
    [true] false [] None (Some (Sentinel Canceled))); by vm_compute].
  eapply steps_next; [|apply (step_admit {| circ := c7; clock := t; inflight := [false] |});
    by vm_compute].
  eapply steps_next; [|apply (step_tick {| circ := c7; clock := 1; inflight := [false] |} t);
    by vm_compute].
  eapply steps_next; [|apply (step_finish {| circ := fail (fail c4); clock := 1;
    inflight := [false; false] |} [] false [false] None (Some (Opaque "backend failed")));
    by vm_compute].
  eapply steps_next; [|apply (step_finish {| circ := fail c4; clock := 1;
    inflight := [false; false; false] |} [] false [false; false] None
    (Some (Opaque "backend failed"))); by vm_compute].
  eapply steps_next; [|apply (step_finish {| circ := c4; clock := 1;
    inflight := [false; false; false; false] |} [] false [false; false; false] None
    (Some (Opaque "backend failed"))); by vm_compute].
  assert (Hadm : forall k c, steps sys_step (sys_init 1 NewCircuit)
             {| circ := c; clock := 1; inflight := repeat false k |} ->
             snd (call_begin 1 c) = inr false ->
             steps sys_step (sys_init 1 NewCircuit)
               {| circ := adm 1 c; clock := 1; inflight := repeat false (S k) |}).
  { intros k c Hs Hb. eapply steps_next; [exact Hs|].
    apply (step_admit {| circ := c; clock := 1; inflight := repeat false k |}).
    unfold adm. simpl. rewrite <- Hb. apply surjective_pairing. }
  apply (Hadm 3%nat); [|by vm_compute]. apply (Hadm 2%nat); [|by vm_compute].
  apply (Hadm 1%nat); [|by vm_compute]. apply (Hadm 0%nat); [|by vm_compute].
  apply steps_refl.
Qed.
