(* ===== verification/Scheduler.v ===== *)
(** * Backend slot admission (internal/embed/scheduler.go)

    The two buffered channels are their occupancy counts against a capacity.
    Acquire and the release function are split where the Go code blocks or takes
    the mutex, so the interleaving of callers is the interleaving of events. *)

From S2P Require Import Prelude.

Inductive Lane := LaneInteractive | LaneWorker.

#[export] Instance Lane_eq_dec : EqDecision Lane.
Proof. solve_decision. Defined.

Definition DefaultQueryReservedSlots : Z := 1.

(** WithLane/LaneFromContext: a context carries at most one lane, and anything
    that is not the worker lane is interactive. *)
Definition WithLane (lane : Lane) : option Lane :=
  Some (if decide (lane = LaneWorker) then LaneWorker else LaneInteractive).

Definition LaneFromContext (ctxLane : option Lane) : Lane :=
  match ctxLane with Some lane => lane | None => LaneInteractive end.

(** The per-lane counters guarded by the mutex ([inUse] and [waiters] maps). *)
Record laneCount := { interactiveN : Z; workerN : Z }.

Definition laneCount0 : laneCount := {| interactiveN := 0; workerN := 0 |}.

Definition lane_get (c : laneCount) (l : Lane) : Z :=
  match l with LaneInteractive => interactiveN c | LaneWorker => workerN c end.

Definition lane_add (c : laneCount) (l : Lane) (d : Z) : laneCount :=
  match l with
  | LaneInteractive => {| interactiveN := interactiveN c + d; workerN := workerN c |}
  | LaneWorker => {| interactiveN := interactiveN c; workerN := workerN c + d |}
  end.

(** [if m[lane] > 0 { m[lane]-- }] *)
Definition lane_dec (c : laneCount) (l : Lane) : laneCount :=
  if 0 <? lane_get c l then lane_add c l (-1) else c.

Record Scheduler := {
  total : Z;
  reserved : Z;
  workerMax : Z;
  slots : Z;         (* messages in the [slots] channel, capacity [total] *)
  workerSlots : Z;   (* messages in [workerSlots], capacity [total - reserved] *)
  inUse : laneCount;
  waiters : laneCount;
}.

Definition NewScheduler (total reserved : Z) : Scheduler :=
  let total := if total <? 1 then 1 else total in
  let reserved := if reserved <? 0 then 0 else reserved in
  let reserved := if total <=? reserved then total - 1 else reserved in
  {| total := total; reserved := reserved; workerMax := total - reserved;
     slots := 0; workerSlots := 0; inUse := laneCount0; waiters := laneCount0 |}.

Definition InUse (s : Scheduler) (l : Lane) : Z := lane_get (inUse s) l.
Definition Waiting (s : Scheduler) (l : Lane) : Z := lane_get (waiters s) l.

Definition set_slots (s : Scheduler) (n w : Z) : Scheduler :=
  {| total := total s; reserved := reserved s; workerMax := workerMax s;
     slots := n; workerSlots := w; inUse := inUse s; waiters := waiters s |}.

Definition beginWait (s : Scheduler) (l : Lane) : Scheduler :=
  {| total := total s; reserved := reserved s; workerMax := workerMax s;
     slots := slots s; workerSlots := workerSlots s; inUse := inUse s;
     waiters := lane_add (waiters s) l 1 |}.

Definition endWait (s : Scheduler) (l : Lane) (canceled : bool) : Scheduler :=
  {| total := total s; reserved := reserved s; workerMax := workerMax s;
     slots := slots s; workerSlots := workerSlots s;
     inUse := if canceled then inUse s else lane_add (inUse s) l 1;
     waiters := lane_dec (waiters s) l |}.

Definition dec_inUse (s : Scheduler) (l : Lane) : Scheduler :=
  {| total := total s; reserved := reserved s; workerMax := workerMax s;
     slots := slots s; workerSlots := workerSlots s;
     inUse := lane_dec (inUse s) l; waiters := waiters s |}.

(** Where a caller is inside Acquire or its release function. *)
Inductive pc :=
| WaitWorkerSlot   (* first select of a worker *)
| WaitSlot         (* second select *)
| GotSlot          (* slot sent, endWait(false) not yet run *)
| Holding          (* Acquire returned the release func *)
| Releasing        (* [<-s.slots] done *)
| ReleasedSlots    (* [<-s.workerSlots] done, counter not yet updated *)
| Released         (* the once body ran *)
| Canceling        (* ctx.Done won, endWait(true) not yet run *)
| Canceled.        (* Acquire returned ctx.Err() *)

#[export] Instance pc_eq_dec : EqDecision pc.
Proof. solve_decision. Defined.

Record sched_sys := { sched : Scheduler; callers : list (Lane * pc) }.

(** One atomic event; events name the caller by its index. *)
Inductive event :=
| EvAcquire (l : Lane)   (* Acquire entered: beginWait *)
| EvTakeWorker (i : nat) (* workerSlots <- {} *)
| EvTakeSlot (i : nat)   (* slots <- {} *)
| EvDone (i : nat)       (* <-ctx.Done() *)
| EvEndWait (i : nat)
| EvRelease (i : nat)    (* the release func is called: once.Do, <-s.slots *)
| EvFreeWorker (i : nat) (* <-s.workerSlots *)
| EvDecInUse (i : nat).

Definition move (s : sched_sys) (i : nat) (sch : Scheduler) (l : Lane) (p : pc) : sched_sys :=
  {| sched := sch; callers := <[i := (l, p)]> (callers s) |}.

(** [None]: the event is not enabled (a blocked channel operation). *)
Definition sched_step (ev : event) (s : sched_sys) : option sched_sys :=
  let sch := sched s in
  match ev with
  | EvAcquire l =>
      Some {| sched := beginWait sch l;
              callers := callers s ++
                [(l, if decide (l = LaneWorker) then WaitWorkerSlot else WaitSlot)] |}
  | EvTakeWorker i =>
      match callers s !! i with
      | Some (l, WaitWorkerSlot) =>
          if workerSlots sch <? total sch - reserved sch
          then Some (move s i (set_slots sch (slots sch) (workerSlots sch + 1)) l WaitSlot)
          else None
      | _ => None
      end
  | EvTakeSlot i =>
      match callers s !! i with
      | Some (l, WaitSlot) =>
          if slots sch <? total sch
          then Some (move s i (set_slots sch (slots sch + 1) (workerSlots sch)) l GotSlot)
          else None
      | _ => None
      end
  | EvDone i =>
      match callers s !! i with
      | Some (l, WaitWorkerSlot) => Some (move s i sch l Canceling)
      | Some (LaneWorker, WaitSlot) =>
          if 0 <? workerSlots sch
          then Some (move s i (set_slots sch (slots sch) (workerSlots sch - 1))
                       LaneWorker Canceling)
          else None
      | Some (LaneInteractive, WaitSlot) => Some (move s i sch LaneInteractive Canceling)
      | _ => None
      end
  | EvEndWait i =>
      match callers s !! i with
      | Some (l, GotSlot) => Some (move s i (endWait sch l false) l Holding)
      | Some (l, Canceling) => Some (move s i (endWait sch l true) l Canceled)
      | _ => None
      end
  | EvRelease i =>
      match callers s !! i with
      | Some (l, Holding) =>
          if 0 <? slots sch
          then Some (move s i (set_slots sch (slots sch - 1) (workerSlots sch)) l
                       (if decide (l = LaneWorker) then Releasing else ReleasedSlots))
          else None
      | Some (l, Released) => Some s
      | _ => None
      end
  | EvFreeWorker i =>
      match callers s !! i with
      | Some (l, Releasing) =>
          if 0 <? workerSlots sch
          then Some (move s i (set_slots sch (slots sch) (workerSlots sch - 1)) l ReleasedSlots)
          else None
      | _ => None
      end
  | EvDecInUse i =>
      match callers s !! i with
      | Some (l, ReleasedSlots) => Some (move s i (dec_inUse sch l) l Released)
      | _ => None
      end
  end.

Definition sched_run (evs : list event) (s : sched_sys) : option sched_sys :=
  foldl (fun s ev => s ≫= sched_step ev) (Some s) evs.

Definition sched_init (total reserved : Z) : sched_sys :=
  {| sched := NewScheduler total reserved; callers := [] |}.

Definition sched_trans (s s' : sched_sys) : Prop := exists ev, sched_step ev s = Some s'.

(** Which callers hold a backend slot, a worker permit, count as in use, wait. *)
Definition holds_slot (c : Lane * pc) : bool :=
  bool_decide (c.2 = GotSlot \/ c.2 = Holding).
Definition holds_worker (c : Lane * pc) : bool :=
  bool_decide (c.1 = LaneWorker /\ c.2 <> WaitWorkerSlot /\ c.2 <> ReleasedSlots /\
               c.2 <> Released /\ c.2 <> Canceling /\ c.2 <> Canceled).
Definition counted_inUse (l : Lane) (c : Lane * pc) : bool :=
  bool_decide (c.1 = l /\ (c.2 = Holding \/ c.2 = Releasing \/ c.2 = ReleasedSlots)).
Definition counted_wait (l : Lane) (c : Lane * pc) : bool :=
  bool_decide (c.1 = l /\ (c.2 = WaitWorkerSlot \/ c.2 = WaitSlot \/ c.2 = GotSlot \/
                           c.2 = Canceling)).
Definition finished (c : Lane * pc) : bool :=
  bool_decide (c.2 = Released \/ c.2 = Canceled).

Definition b2z (b : bool) : Z := if b then 1 else 0.

Fixpoint count {A} (p : A -> bool) (l : list A) : Z :=
  match l with [] => 0 | x :: l => b2z (p x) + count p l end.

Record sched_inv (s : sched_sys) : Prop := {
  inv_conf : 0 <= reserved (sched s) < total (sched s);
  inv_max : workerMax (sched s) = total (sched s) - reserved (sched s);
  inv_slots : slots (sched s) = count holds_slot (callers s);
  inv_worker : workerSlots (sched s) = count holds_worker (callers s);
  inv_slots_cap : slots (sched s) <= total (sched s);
  inv_worker_cap : workerSlots (sched s) <= workerMax (sched s);
  inv_inUse l : InUse (sched s) l = count (counted_inUse l) (callers s);
  inv_wait l : Waiting (sched s) l = count (counted_wait l) (callers s);
  inv_pc : Forall (fun c => c.1 = LaneInteractive ->
             c.2 <> WaitWorkerSlot /\ c.2 <> Releasing) (callers s);
}.

(** ** Lemmas *)

Lemma count_app {A} (p : A -> bool) l1 l2 : count p (l1 ++ l2) = count p l1 + count p l2.
Proof. induction l1; simpl; lia. Qed.

Lemma count_nonneg {A} (p : A -> bool) l : 0 <= count p l.
Proof. induction l as [|x l IH]; simpl; [lia|]. destruct (p x); simpl; lia. Qed.

Lemma count_insert {A} (p : A -> bool) l (i : nat) x y :
  l !! i = Some x -> count p (<[i := y]> l) = count p l - b2z (p x) + b2z (p y).
Proof.
  revert i. induction l as [|z l IH]; intros [|i] H; simplify_eq/=; [lia|].
  rewrite (IH i H). lia.
Qed.

Lemma count_le {A} (p q : A -> bool) l :
  (forall x, p x = true -> q x = true) -> count p l <= count q l.
Proof.
  intros H. induction l as [|x l IH]; simpl; [lia|].
  pose proof (H x). destruct (p x), (q x); simpl in *; intuition; lia.
Qed.

Lemma count_pos {A} (p : A -> bool) l i x : l !! i = Some x -> p x = true -> 0 < count p l.
Proof.
  revert i. induction l as [|z l IH]; intros [|i] H Hp; simplify_eq/=.
  - rewrite Hp. pose proof (count_nonneg p l). simpl. lia.
  - pose proof (IH i H Hp). destruct (p z); simpl; lia.
Qed.

Lemma count_zero {A} (p : A -> bool) l : Forall (fun x => p x = false) l -> count p l = 0.
Proof. induction 1 as [|x l Hx _ IH]; simpl; [done|]. rewrite Hx, IH. done. Qed.

Lemma count_split {A} (p q r : A -> bool) l :
  (forall x, p x = true -> q x = true \/ r x = true) -> count p l <= count q l + count r l.
Proof.
  intros H. induction l as [|x l IH]; simpl; [lia|].
  pose proof (H x). destruct (p x), (q x), (r x); simpl in *; intuition; lia.
Qed.

Lemma lane_get_add c l l' d :
  lane_get (lane_add c l d) l' = lane_get c l' + (if decide (l = l') then d else 0).
Proof. destruct l, l'; simpl; lia. Qed.

Lemma lane_get_dec c l l' :
  0 < lane_get c l ->
  lane_get (lane_dec c l) l' = lane_get c l' - (if decide (l = l') then 1 else 0).
Proof.
  intros H. unfold lane_dec. apply Z.ltb_lt in H as ->. rewrite lane_get_add.
  destruct (decide _); lia.
Qed.

Lemma NewScheduler_conf total0 reserved0 :
  0 <= reserved (NewScheduler total0 reserved0) < total (NewScheduler total0 reserved0).
Proof. unfold NewScheduler. simpl. split_ifs; lia. Qed.

Lemma sched_init_inv total0 reserved0 : sched_inv (sched_init total0 reserved0).
Proof.
  pose proof (NewScheduler_conf total0 reserved0) as H.
  split; simpl in *; try done; try lia; by intros [].
Qed.

(** A caller moves from [x] to [y]; the counters absorb the difference. *)
Lemma move_inv s i sch l p p' :
  sched_inv s -> callers s !! i = Some (l, p) ->
  total sch = total (sched s) -> reserved sch = reserved (sched s) ->
  workerMax sch = workerMax (sched s) ->
  slots sch = slots (sched s) - b2z (holds_slot (l, p)) + b2z (holds_slot (l, p')) ->
  workerSlots sch =
    workerSlots (sched s) - b2z (holds_worker (l, p)) + b2z (holds_worker (l, p')) ->
  slots sch <= total sch -> workerSlots sch <= workerMax sch ->
  (forall l', InUse sch l' = InUse (sched s) l' -
     b2z (counted_inUse l' (l, p)) + b2z (counted_inUse l' (l, p'))) ->
  (forall l', Waiting sch l' = Waiting (sched s) l' -
     b2z (counted_wait l' (l, p)) + b2z (counted_wait l' (l, p'))) ->
  (l = LaneInteractive -> p' <> WaitWorkerSlot /\ p' <> Releasing) ->
  sched_inv (move s i sch l p').
Proof.
  intros [] Hi Ht Hr Hm Hs Hw Hsc Hwc Hu Hq Hp.
  split; simpl; try congruence; try (intros l').
  - by rewrite (count_insert _ _ _ _ _ Hi), Hs, inv_slots0.
  - by rewrite (count_insert _ _ _ _ _ Hi), Hw, inv_worker0.
  - by rewrite (count_insert _ _ _ _ _ Hi), Hu, inv_inUse0.
  - by rewrite (count_insert _ _ _ _ _ Hi), Hq, inv_wait0.
  - apply Forall_insert; [done|]. simpl. done.
Qed.

Ltac sched_lanes :=
  repeat match goal with l : Lane |- _ => destruct l end; simpl; try lia; try done.

Lemma sched_step_inv ev s s' : sched_inv s -> sched_step ev s = Some s' -> sched_inv s'.
Proof.
  intros Hinv Hs. pose proof Hinv as []. unfold sched_step in Hs.
  destruct ev as [l|i|i|i|i|i|i|i].
  - simplify_eq. split; simpl; try done.
    + rewrite count_app. destruct l; simpl; lia.
    + rewrite count_app. destruct l; simpl; lia.
    + intros l'. rewrite count_app. specialize (inv_inUse0 l'). unfold InUse in *.
      destruct l, l'; simpl in *; lia.
    + intros l'. rewrite count_app. specialize (inv_wait0 l'). unfold Waiting in *.
      simpl. rewrite lane_get_add, inv_wait0. destruct l, l'; simpl; lia.
    + apply Forall_app. split; [done|]. constructor; [|done]. by destruct l.
  - destruct (callers s !! i) as [[l []]|] eqn:Hi; simplify_eq. case_match; simplify_eq.
    reflect_Z. pose proof (Forall_lookup_1 _ _ _ _ inv_pc0 Hi) as Hl. simpl in Hl.
    destruct l; [by destruct Hl|].
    eapply move_inv; eauto; simpl; try done; try lia; intros []; simpl; unfold InUse, Waiting; simpl; lia.
  - destruct (callers s !! i) as [[l []]|] eqn:Hi; simplify_eq. case_match; simplify_eq.
    reflect_Z. eapply move_inv; eauto; simpl; try done; try lia; try intros l';
      unfold InUse, Waiting; sched_lanes.
  - destruct (callers s !! i) as [[l []]|] eqn:Hi; simplify_eq.
    + pose proof (Forall_lookup_1 _ _ _ _ inv_pc0 Hi) as Hl. simpl in Hl.
      destruct l; simplify_eq; [by destruct Hl|].
      eapply move_inv; eauto; simpl; try done; try lia; intros []; simpl; lia.
    + destruct l; [|case_match]; simplify_eq; reflect_Z;
        eapply move_inv; eauto; simpl; try done; try lia; intros []; unfold InUse, Waiting; simpl; lia.
    + by destruct l.
    + by destruct l.
    + by destruct l.
    + by destruct l.
    + by destruct l.
    + by destruct l.
    + by destruct l.
  - destruct (callers s !! i) as [[l []]|] eqn:Hi; simplify_eq;
      (assert (0 < lane_get (waiters (sched s)) l) as Hw
         by (change (0 < Waiting (sched s) l); rewrite inv_wait0;
             eapply count_pos; [exact Hi|by destruct l]));
      (eapply move_inv; eauto; simpl; try done; try (by destruct l; simpl; lia);
       try (intros l'; unfold InUse, Waiting; simpl;
            rewrite ?(lane_get_dec _ _ _ Hw), ?lane_get_add; by destruct l, l'; simpl; lia)).
  - destruct (callers s !! i) as [[l []]|] eqn:Hi; simplify_eq; [|done].
    case_match; simplify_eq. reflect_Z.
    eapply move_inv; eauto; simpl; try done; try lia; try intros l';
      unfold InUse, Waiting; sched_lanes.
  - destruct (callers s !! i) as [[l []]|] eqn:Hi; simplify_eq. case_match; simplify_eq.
    reflect_Z. pose proof (Forall_lookup_1 _ _ _ _ inv_pc0 Hi) as Hl. simpl in Hl.
    destruct l; [by destruct Hl|].
    eapply move_inv; eauto; simpl; try done; try lia; intros []; unfold InUse, Waiting; simpl; lia.
  - destruct (callers s !! i) as [[l []]|] eqn:Hi; simplify_eq.
    assert (0 < lane_get (inUse (sched s)) l) as Hw.
    { change (0 < InUse (sched s) l). rewrite inv_inUse0. eapply count_pos; [exact Hi|].
      by destruct l. }
    eapply move_inv; eauto; simpl; try done; try (by destruct l; simpl; lia);
      intros l'; unfold InUse, Waiting; simpl; rewrite ?(lane_get_dec _ _ _ Hw);
      destruct l, l'; simpl; lia.
Qed.

Lemma sched_reachable_inv t r s :
  steps sched_trans (sched_init t r) s -> sched_inv s.
Proof.
  apply steps_invariant; [|apply sched_init_inv]. intros a b Ha [ev Hev].
  by eapply sched_step_inv.
Qed.

Lemma sched_run_steps evs s s' : sched_run evs s = Some s' -> steps sched_trans s s'.
Proof.
  unfold sched_run. revert s'. induction evs as [|ev evs IH] using rev_ind; simpl; intros s' H.
  { simplify_eq. constructor. }
  rewrite foldl_app in H. simpl in H. apply bind_Some in H as (s1 & H1 & H2).
  eapply steps_next; [by apply IH|by exists ev].
Qed.

Lemma sched_run_default evs s :
  is_Some (sched_run evs s) -> steps sched_trans s (default s (sched_run evs s)).
Proof. intros [s' Hs]. rewrite Hs. by eapply sched_run_steps. Qed.

Definition interactive_slot (c : Lane * pc) : bool :=
  holds_slot c && bool_decide (c.1 = LaneInteractive).

Lemma holds_slot_split c :
  holds_slot c = true -> holds_worker c = true \/ interactive_slot c = true.
Proof. destruct c as [[] []]; vm_compute; intuition congruence. Qed.

Lemma finished_count (p : Lane * pc -> bool) cs :
  (forall c, finished c = true -> p c = false) ->
  Forall (fun c => finished c = true) cs -> count p cs = 0.
Proof. intros Hp H. apply count_zero. eapply Forall_impl; [exact H|]. simpl. auto. Qed.

(** The events that run a held release function to its end. *)
Definition release_events (l : Lane) (i : nat) : list event :=
  match l with
  | LaneInteractive => [EvRelease i; EvDecInUse i]
  | LaneWorker => [EvRelease i; EvFreeWorker i; EvDecInUse i]
  end.

(** ** Properties *)

(** C13. However callers interleave, the channels stay within capacity, they
    and the per-lane counters count exactly the callers that hold or wait for a
    permit, and at most [total - reserved] workers hold one. *)
Theorem scheduler_invariant t r s :
  steps sched_trans (sched_init t r) s -> sched_inv s.
Proof. apply sched_reachable_inv. Qed.

Lemma scheduler_invariant_witness :
  sched_inv (default (sched_init 2 1)
    (sched_run [EvAcquire LaneWorker; EvAcquire LaneInteractive; EvTakeWorker 0;
                EvTakeSlot 0; EvTakeSlot 1; EvEndWait 1; EvEndWait 0] (sched_init 2 1))).
Proof. apply (scheduler_invariant 2 1). apply sched_run_default. by eexists; vm_compute. Defined.

(** The reserved slots are never taken by bulk workers: as long as fewer
    interactive calls than [reserved] hold a slot, an interactive caller that
    waits can take one at once, whatever the worker backlog. *)
Theorem interactive_never_starved t r s i :
  steps sched_trans (sched_init t r) s ->
  callers s !! i = Some (LaneInteractive, WaitSlot) ->
  count interactive_slot (callers s) < reserved (sched s) ->
  is_Some (sched_step (EvTakeSlot i) s).
Proof.
  intros [] % sched_reachable_inv Hi Hc. simpl. rewrite Hi.
  pose proof (count_split holds_slot holds_worker interactive_slot (callers s) holds_slot_split).
  destruct (Z.ltb_spec (slots (sched s)) (total (sched s))); [by eexists|lia].
Qed.

Lemma interactive_never_starved_witness :
  is_Some (sched_step (EvTakeSlot 2) (default (sched_init 2 1)
    (sched_run [EvAcquire LaneWorker; EvAcquire LaneWorker; EvAcquire LaneInteractive;
                EvTakeWorker 0; EvTakeSlot 0; EvEndWait 0] (sched_init 2 1)))).
Proof.
  apply (interactive_never_starved 2 1); [|done|done].
  apply sched_run_default. by eexists; vm_compute.
Defined.

(** Permits are conserved: a caller that holds a slot can always run its
    release function to the end without blocking, calling it again changes
    nothing, and once every caller has been released or cancelled no permit, in-use
    count or waiter is left behind. *)
Theorem permits_returned t r s :
  steps sched_trans (sched_init t r) s ->
  (forall i l, callers s !! i = Some (l, Holding) -> exists s',
     sched_run (release_events l i) s = Some s' /\
     callers s' = <[i := (l, Released)]> (callers s) /\
     slots (sched s') = slots (sched s) - 1 /\ sched_step (EvRelease i) s' = Some s') /\
  (Forall (fun c => finished c = true) (callers s) ->
     slots (sched s) = 0 /\ workerSlots (sched s) = 0 /\
     forall l, InUse (sched s) l = 0 /\ Waiting (sched s) l = 0).
Proof.
  intros [] % sched_reachable_inv. split.
  - intros i l Hi. pose proof (lookup_lt_Some _ _ _ Hi) as Hlt.
    assert (0 < slots (sched s)) as Hs%Z.ltb_lt.
    { rewrite inv_slots0. eapply count_pos; [exact Hi|done]. }
    unfold sched_run, release_events. destruct l; simpl; rewrite Hi, Hs; simpl.
    + rewrite list_lookup_insert_eq by done. simpl. eexists. split; [done|]. simpl.
      rewrite list_insert_insert_eq. split_and!; [done|done|].
      by rewrite list_lookup_insert_eq.
    + assert (0 < workerSlots (sched s)) as Hw%Z.ltb_lt.
      { rewrite inv_worker0. eapply count_pos; [exact Hi|done]. }
      rewrite list_lookup_insert_eq by done. rewrite Hw. simpl.
      rewrite list_lookup_insert_eq by (rewrite length_insert; done). simpl.
      eexists. split; [done|]. simpl. rewrite !list_insert_insert_eq.
      split_and!; [done|done|]. by rewrite list_lookup_insert_eq.
  - intros Hf. rewrite inv_slots0, inv_worker0.
    split_and!; [| |intros l; rewrite inv_inUse0, inv_wait0; split];
      apply finished_count; try done; intros [l' []]; try done; intros _;
      destruct l'; try destruct l; done.
Qed.

Lemma permits_returned_witness :
  slots (sched (default (sched_init 2 1)
    (sched_run [EvAcquire LaneWorker; EvAcquire LaneInteractive; EvTakeWorker 0; EvDone 0;
                EvTakeSlot 1; EvEndWait 1; EvEndWait 0; EvRelease 1; EvDecInUse 1; EvRelease 1]
       (sched_init 2 1)))) = 0.
Proof.
  refine (proj1 (proj2 (permits_returned 2 1 _ _) _)).
  - apply sched_run_default. by eexists; vm_compute.
  - by repeat constructor.
Defined.
