(* ===== verification/Preflight.v ===== *)
(** * The semantic preflight gate (internal/embed/preflight.go)

    [runOnce] takes the outcome of the tokenizer check and the clock; a run of
    the background loop is a list of such outcomes. *)

From S2P Require Import Prelude GoErrors.

Inductive PreflightState :=
| PreflightPending | PreflightCompatible | PreflightIncompatible | PreflightDisabled.

#[export] Instance PreflightState_eq_dec : EqDecision PreflightState.
Proof. solve_decision. Defined.

Definition PreflightCheckTimeout : duration := 15 * Second.
Definition PreflightRetryInterval : duration := 5 * Second.
Definition PreflightMaxRetryInterval : duration := Minute.
Definition PreflightSuccessInterval : duration := Minute.

Record PreflightSnapshot := {
  PSnap_State : PreflightState;
  PSnap_LastCheckAt : time;
  PSnap_LastSuccessAt : time;
}.

(** [hasCheck] is [p.check != nil]. *)
Record Preflight := {
  hasCheck : bool;
  pstate : PreflightState;
  plastCheckAt : time;
  plastSuccessAt : time;
  checkInterval : duration;
  successEvery : duration;
  maxInterval : duration;
  nextDelay : duration;
}.

Definition NewPreflight (check : bool) : Preflight := {|
  hasCheck := check;
  pstate := if check then PreflightPending else PreflightDisabled;
  plastCheckAt := time_zero; plastSuccessAt := time_zero;
  checkInterval := PreflightRetryInterval;
  successEvery := PreflightSuccessInterval;
  maxInterval := PreflightMaxRetryInterval;
  nextDelay := 0;
|}.

Definition Ready (p : Preflight) : bool := bool_decide (pstate p = PreflightCompatible).

Definition PreflightSnapshotOf (p : Preflight) : PreflightSnapshot := {|
  PSnap_State := pstate p; PSnap_LastCheckAt := plastCheckAt p;
  PSnap_LastSuccessAt := plastSuccessAt p |}.

Definition successInterval (p : Preflight) : duration :=
  if 0 <? successEvery p then successEvery p else PreflightSuccessInterval.

(** The corrected [base] and [max] locals of nextBackoffLocked. *)
Definition pf_base (p : Preflight) : duration :=
  if checkInterval p <=? 0 then PreflightRetryInterval else checkInterval p.

Definition pf_max (p : Preflight) : duration :=
  let max := if maxInterval p <=? 0 then PreflightMaxRetryInterval else maxInterval p in
  if max <? pf_base p then pf_base p else max.

Definition pf_nextBackoffLocked (p : Preflight) : duration :=
  if nextDelay p <? pf_base p then pf_base p
  else
    let next := (nextDelay p *w 2)%go in
    if pf_max p <? next then pf_max p else next.

(** runOnce under the lock: the new gate, the value returned, and the state the
    transition observer is told when the published state changed. *)
Definition runOnce (now : time) (err : option error) (p : Preflight)
    : Preflight * bool * option PreflightState :=
  let previous := pstate p in
  let p' :=
    match err with
    | None => {|
        hasCheck := hasCheck p; pstate := PreflightCompatible;
        plastCheckAt := now; plastSuccessAt := now;
        checkInterval := checkInterval p; successEvery := successEvery p;
        maxInterval := maxInterval p; nextDelay := successInterval p |}
    | Some _ => {|
        hasCheck := hasCheck p; pstate := PreflightIncompatible;
        plastCheckAt := now; plastSuccessAt := plastSuccessAt p;
        checkInterval := checkInterval p; successEvery := successEvery p;
        maxInterval := maxInterval p; nextDelay := pf_nextBackoffLocked p |}
    end in
  (p', bool_decide (err = None),
   if decide (previous = pstate p') then None else Some (pstate p')).

Definition nextSleep (p : Preflight) : duration :=
  if bool_decide (pstate p = PreflightCompatible) then successInterval p else nextDelay p.

(** Run, for the checks that complete before its context is cancelled: the
    gate, the sleeps it takes after each check and the transitions it reports.
    A gate without a check function returns at once. *)
Fixpoint Run_checks (p : Preflight) (checks : list (time * option error))
    : Preflight * list duration * list PreflightState :=
  match checks with
  | [] => (p, [], [])
  | (now, err) :: rest =>
      let '(p1, _, tr) := runOnce now err p in
      let '(p2, sleeps, trs) := Run_checks p1 rest in
      (p2, nextSleep p1 :: sleeps, option_list tr ++ trs)
  end.

Definition Run (p : Preflight) (checks : list (time * option error))
    : Preflight * list duration * list PreflightState :=
  if negb (hasCheck p) then (p, [], []) else Run_checks p checks.

(** The gate after a list of checks. *)
Definition after_checks (p : Preflight) (checks : list (time * option error)) : Preflight :=
  fold_left (fun p c => fst (fst (runOnce (fst c) (snd c) p))) checks p.

(** ** Lemmas *)

Lemma Run_checks_state p checks : fst (fst (Run_checks p checks)) = after_checks p checks.
Proof.
  revert p. induction checks as [|[now err] rest IH]; intros p; [done|].
  unfold after_checks. cbn [Run_checks fold_left fst snd].
  destruct (runOnce now err p) as [[p1 ok] tr]. specialize (IH p1).
  destruct (Run_checks p1 rest) as [[p2 sleeps] trs]. exact IH.
Qed.

Lemma pf_bounds p : 0 < pf_base p <= pf_max p.
Proof.
  unfold pf_max, pf_base, PreflightRetryInterval, PreflightMaxRetryInterval.
  split_ifs; zarith.
Qed.

Definition same_intervals (p q : Preflight) : Prop :=
  checkInterval q = checkInterval p /\ maxInterval q = maxInterval p /\
  successEvery q = successEvery p.

Lemma same_intervals_bounds p q :
  same_intervals p q ->
  pf_base q = pf_base p /\ pf_max q = pf_max p /\ successInterval q = successInterval p.
Proof.
  intros (H1 & H2 & H3). unfold pf_max, pf_base, successInterval. by rewrite H1, H2, H3.
Qed.

Lemma runOnce_intervals now err p : same_intervals p (fst (fst (runOnce now err p))).
Proof. by destruct err. Qed.

(** A failing check after the gate has waited [d]: [d] doubles up to the cap. *)
Lemma runOnce_fail_delay now e p :
  pf_max p < 2 ^ 62 -> pf_base p <= nextDelay p <= pf_max p ->
  let q := fst (fst (runOnce now (Some e) p)) in
  nextSleep q = Z.min (nextDelay p * 2) (pf_max p) /\
  nextDelay q = Z.min (nextDelay p * 2) (pf_max p).
Proof.
  intros Hm Hd. pose proof (pf_bounds p). simpl. unfold nextSleep. simpl.
  unfold pf_nextBackoffLocked. rewrite wrap64_id by zarith. split_ifs; lia.
Qed.

Lemma after_checks_fail_delay p (checks : list (time * error)) k :
  pf_max p < 2 ^ 62 -> 0 <= k ->
  nextDelay p = Z.min (pf_base p * 2 ^ k) (pf_max p) -> pstate p = PreflightIncompatible ->
  let q := after_checks p ((fun c => (c.1, Some c.2)) <$> checks) in
  nextSleep q = Z.min (pf_base p * 2 ^ (k + Z.of_nat (length checks))) (pf_max p).
Proof.
  revert p k. induction checks as [|[now e] rest IH]; intros p k Hm Hk Hd Hs.
  { simpl. unfold nextSleep. rewrite Hs, Z.add_0_r. done. }
  pose proof (pf_bounds p) as Hb.
  assert (Hpow : 1 <= 2 ^ k) by (pose proof (Z.pow_pos_nonneg 2 k); lia).
  assert (Hpow' : 2 ^ (k + 1) = 2 * 2 ^ k) by (rewrite Z.pow_add_r by lia; lia).
  destruct (runOnce_fail_delay now e p) as [H1 H2]; [done| |].
  { rewrite Hd. split; [|lia]. apply Z.min_glb; [nia|lia]. }
  destruct (same_intervals_bounds _ _ (runOnce_intervals now (Some e) p)) as (E1 & E2 & _).
  cbn [fmap list_fmap after_checks fold_left fst snd length].
  specialize (IH (fst (fst (runOnce now (Some e) p))) (k + 1)).
  rewrite E1, E2 in IH. unfold after_checks in IH.
  replace (k + Z.of_nat (S (length rest))) with (k + 1 + Z.of_nat (length rest)) by lia.
  apply IH; try done; lia.
Qed.

(** ** Properties *)

(** Workers may claim exactly when the last completed check succeeded: a
    fresh gate and every failed check keep it shut, whatever came before, and a
    gate without a backend never opens. *)
Theorem gate_follows_last_check p checks now err :
  Ready (NewPreflight true) = false /\
  Ready (after_checks p (checks ++ [(now, err)])) = bool_decide (err = None) /\
  plastCheckAt (after_checks p (checks ++ [(now, err)])) = now /\
  Run (NewPreflight false) (checks ++ [(now, err)]) = (NewPreflight false, [], []) /\
  Ready (NewPreflight false) = false.
Proof.
  unfold after_checks. rewrite fold_left_app. simpl.
  split_and!; try done; by destruct err.
Qed.

(** While checks keep failing from the start, the delay before the next one
    doubles from the base up to the cap: after [n + 1] failures it is
    min(base * 2^n, max). *)
Theorem preflight_backoff p now e checks :
  nextDelay p = 0 -> pf_max p < 2 ^ 62 ->
  nextSleep (after_checks p ((now, Some e) :: ((fun c => (c.1, Some c.2)) <$> checks))) =
  Z.min (pf_base p * 2 ^ Z.of_nat (length checks)) (pf_max p).
Proof.
  intros H0 Hm. pose proof (pf_bounds p) as Hb.
  destruct (same_intervals_bounds _ _ (runOnce_intervals now (Some e) p)) as (E1 & E2 & _).
  pose proof (after_checks_fail_delay (fst (fst (runOnce now (Some e) p))) checks 0) as H.
  rewrite E1, E2 in H. apply H; try done; try lia.
  simpl. unfold pf_nextBackoffLocked. rewrite H0.
  destruct (Z.ltb_spec 0 (pf_base p)); lia.
Qed.

Lemma preflight_backoff_witness :
  nextSleep (after_checks (NewPreflight true)
    ((1, Some (Opaque "down")) ::
     ((fun c => (c.1, Some c.2)) <$> [(2, Opaque "down"); (3, Opaque "down")]))) =
  Z.min (PreflightRetryInterval * 2 ^ 2) PreflightMaxRetryInterval.
Proof.
  apply (preflight_backoff (NewPreflight true) 1 (Opaque "down")
           [(2, Opaque "down"); (3, Opaque "down")]); [done|by vm_compute].
Defined.

(** The first retry after a backend that was healthy fails does not start
    at the retry interval: the delay doubles the success interval instead, so
    with the production settings it is a whole PreflightMaxRetryInterval. *)
Theorem first_retry_after_success p t1 t2 e :
  pf_max p < 2 ^ 62 -> pf_base p <= successInterval p < 2 ^ 62 ->
  nextSleep (after_checks p [(t1, None); (t2, Some e)]) =
  Z.min (successInterval p * 2) (pf_max p).
Proof.
  intros Hm Hs. pose proof (pf_bounds p). simpl. unfold nextSleep. simpl.
  unfold pf_nextBackoffLocked.
  change (pf_base _) with (pf_base p). change (pf_max _) with (pf_max p). simpl.
  rewrite wrap64_id by zarith. split_ifs; lia.
Qed.

Lemma first_retry_after_success_witness :
  nextSleep (after_checks (NewPreflight true) [(1, None); (2, Some (Opaque "down"))]) =
  PreflightMaxRetryInterval.
Proof. apply (first_retry_after_success (NewPreflight true)); vm_compute; intuition congruence. Defined.
