(* ===== verification/GoStrings.v ===== *)
(** * The string operations of package strings the program uses

    A Go string is its bytes.  Case mapping and white space are modelled on
    ASCII; bytes of multi-byte runes are neither cased nor white space. *)

From S2P Require Import Prelude.
From stdpp Require Export pretty.
From Stdlib Require Export Strings.Ascii.
#[global] Open Scope string_scope.
#[global] Open Scope Z_scope.
#[global] Open Scope list_scope.

Notation code c := (Z.of_nat (nat_of_ascii c)).

Definition in_range (lo hi : Z) (c : ascii) : bool := (lo <=? code c) && (code c <=? hi).

(** unicode.IsSpace on ASCII: tab, newline, vertical tab, form feed, carriage
    return and space. *)
Definition is_space (c : ascii) : bool := in_range 9 13 c || (code c =? 32).
Definition is_digit (c : ascii) : bool := in_range 48 57 c.
Definition is_lower (c : ascii) : bool := in_range 97 122 c.
Definition is_upper (c : ascii) : bool := in_range 65 90 c.
Definition is_letter (c : ascii) : bool := is_lower c || is_upper c.
Definition is_control (c : ascii) : bool := in_range 0 31 c || (code c =? 127).

Definition lower_ascii (c : ascii) : ascii :=
  if is_upper c then ascii_of_nat (nat_of_ascii c + 32) else c.

Fixpoint map_string (f : ascii -> ascii) (s : string) : string :=
  match s with EmptyString => "" | String c s => String (f c) (map_string f s) end.

Definition ToLower (s : string) : string := map_string lower_ascii s.

Definition EqualFold (s t : string) : bool := String.eqb (ToLower s) (ToLower t).

Definition bytes (s : string) : list ascii := String.list_ascii_of_string s.
Definition of_bytes (l : list ascii) : string := String.string_of_list_ascii l.
Definition len (s : string) : Z := Z.of_nat (String.length s).

Fixpoint drop_while {A} (p : A -> bool) (l : list A) : list A :=
  match l with
  | [] => []
  | x :: l' => if p x then drop_while p l' else l
  end.

(** Strip the elements satisfying [p] at both ends. *)
Definition strip {A} (p : A -> bool) (l : list A) : list A :=
  rev (drop_while p (rev (drop_while p l))).

Definition TrimFunc (p : ascii -> bool) (s : string) : string := of_bytes (strip p (bytes s)).
Definition TrimSpace (s : string) : string := TrimFunc is_space s.

Definition in_set (cutset : string) (c : ascii) : bool :=
  existsb (Ascii.eqb c) (bytes cutset).

(** strings.Trim with an ASCII cutset. *)
Definition Trim (s cutset : string) : string := TrimFunc (in_set cutset) s.

Definition TrimRight (s cutset : string) : string :=
  of_bytes (rev (drop_while (in_set cutset) (rev (bytes s)))).

Definition HasPrefix (s p : string) : bool := String.prefix p s.

Definition TrimPrefix (s p : string) : string :=
  if HasPrefix s p then String.substring (String.length p) (String.length s) s else s.

Definition HasSuffix (s suf : string) : bool :=
  HasPrefix (of_bytes (rev (bytes s))) (of_bytes (rev (bytes suf))).

Definition TrimSuffix (s suf : string) : string :=
  if HasSuffix s suf
  then String.substring 0 (String.length s - String.length suf) s else s.

Fixpoint Contains (s sub : string) : bool :=
  HasPrefix s sub || match s with EmptyString => false | String _ s => Contains s sub end.

Definition ContainsAny (s cutset : string) : bool := existsb (in_set cutset) (bytes s).
Definition ContainsFunc (p : ascii -> bool) (s : string) : bool := existsb p (bytes s).

Fixpoint IndexByte (s : string) (c : ascii) : option nat :=
  match s with
  | EmptyString => None
  | String d s => if Ascii.eqb c d then Some 0%nat else S <$> IndexByte s c
  end.

Fixpoint CountByte (s : string) (c : ascii) : Z :=
  match s with
  | EmptyString => 0
  | String d s => (if Ascii.eqb c d then 1 else 0) + CountByte s c
  end.

(** The parts of [s] before and after its first byte [c]; strings.Cut. *)
Fixpoint Cut (s : string) (c : ascii) : string * string * bool :=
  match s with
  | EmptyString => ("", "", false)
  | String d s =>
      if Ascii.eqb c d then ("", s, true)
      else let '(a, b, ok) := Cut s c in (String d a, b, ok)
  end.

(** strings.Split on a one-byte separator, on the bytes still to come. *)
Fixpoint Split (s : string) (c : ascii) : list string :=
  match s with
  | EmptyString => [""]
  | String d s =>
      if Ascii.eqb c d then "" :: Split s c
      else match Split s c with
           | [] => [String d ""]
           | x :: xs => String d x :: xs
           end
  end.

Fixpoint Join (l : list string) (sep : string) : string :=
  match l with
  | [] => ""
  | [x] => x
  | x :: xs => x +:+ sep +:+ Join xs sep
  end.

(** strings.Fields: the maximal runs of non-space bytes. *)
Fixpoint fields_aux (s : string) (cur : string) : list string :=
  match s with
  | EmptyString => if decide (cur = "") then [] else [cur]
  | String c s =>
      if is_space c
      then if decide (cur = "") then fields_aux s "" else cur :: fields_aux s ""
      else fields_aux s (cur +:+ String c "")
  end.

Definition Fields (s : string) : list string := fields_aux s "".

(** strings.ReplaceAll of a one-byte pattern. *)
Fixpoint ReplaceAll (s : string) (c : ascii) (r : string) : string :=
  match s with
  | EmptyString => ""
  | String d s => (if Ascii.eqb c d then r else String d "") +:+ ReplaceAll s c r
  end.

Definition Itoa (n : Z) : string := pretty n.

(** strconv.Quote, the verb %q: the quote, the backslash and control characters
    are escaped. *)
Definition hex_digit (n : nat) : ascii :=
  ascii_of_nat (if Nat.ltb n 10 then 48 + n else 87 + n).

Definition backslashed (c : ascii) : string := String (ascii_of_nat 92) (String c "").

Definition quote_char (c : ascii) : string :=
  let n := nat_of_ascii c in
  if (code c =? 34) || (code c =? 92) then backslashed c
  else if in_range 7 13 c then backslashed (nth (n - 7) (bytes "abtnvfr") c)
  else if is_control c
  then backslashed "x" +:+ String (hex_digit (n / 16)) (String (hex_digit (n mod 16)) "")
  else String c "".

Definition Quote (s : string) : string :=
  let q := String (ascii_of_nat 34) "" in
  q +:+ foldr (fun c acc => quote_char c +:+ acc) "" (bytes s) +:+ q.

(** Byte-wise order of strings, Go's [<]. *)
Definition str_ltb (s t : string) : bool := String.ltb s t.

Definition is_empty (s : string) : bool := String.eqb s "".

(** ** Lemmas *)

Lemma bytes_of_bytes l : bytes (of_bytes l) = l.
Proof. apply String.list_ascii_of_string_of_list_ascii. Qed.

Lemma of_bytes_bytes s : of_bytes (bytes s) = s.
Proof. apply String.string_of_list_ascii_of_string. Qed.

Lemma is_empty_true s : is_empty s = true <-> s = "".
Proof. apply String.eqb_eq. Qed.

Lemma is_empty_false s : is_empty s = false <-> s <> "".
Proof. unfold is_empty. apply String.eqb_neq. Qed.

Lemma lower_ascii_idem c : lower_ascii (lower_ascii c) = lower_ascii c.
Proof. by destruct c as [[] [] [] [] [] [] [] []]; vm_compute. Qed.

Lemma lower_ascii_space c : is_space (lower_ascii c) = is_space c.
Proof. by destruct c as [[] [] [] [] [] [] [] []]; vm_compute. Qed.

Lemma map_string_bytes f s : bytes (map_string f s) = map f (bytes s).
Proof. induction s as [|c s IH]; simpl; [done|]. unfold bytes in *. simpl. by f_equal. Qed.

Lemma map_string_of_bytes f l : map_string f (of_bytes l) = of_bytes (map f l).
Proof. induction l as [|c l IH]; simpl; [done|]. unfold of_bytes in *. simpl. by f_equal. Qed.

Lemma ToLower_idem s : ToLower (ToLower s) = ToLower s.
Proof.
  unfold ToLower. induction s as [|c s IH]; simpl; [done|]. by rewrite IH, lower_ascii_idem.
Qed.

Lemma drop_while_map {A} (p : A -> bool) (f : A -> A) l :
  (forall x, p (f x) = p x) -> drop_while p (map f l) = map f (drop_while p l).
Proof. intros H. induction l as [|x l IH]; simpl; [done|]. rewrite H. by case_match. Qed.

Lemma strip_map {A} (p : A -> bool) (f : A -> A) l :
  (forall x, p (f x) = p x) -> strip p (map f l) = map f (strip p l).
Proof.
  intros H. unfold strip.
  rewrite drop_while_map, <- map_rev, drop_while_map, <- map_rev by done. done.
Qed.

Lemma ToLower_TrimSpace s : ToLower (TrimSpace s) = TrimSpace (ToLower s).
Proof.
  unfold ToLower, TrimSpace, TrimFunc. rewrite map_string_of_bytes, map_string_bytes.
  by rewrite strip_map by apply lower_ascii_space.
Qed.

Lemma drop_while_idem {A} (p : A -> bool) l : drop_while p (drop_while p l) = drop_while p l.
Proof. induction l as [|x l IH]; simpl; [done|]. destruct (p x) eqn:E; [done|]. simpl. by rewrite E. Qed.

Lemma drop_while_suffix {A} (p : A -> bool) l : exists k, l = k ++ drop_while p l /\ forallb p k = true.
Proof.
  induction l as [|x l [k [IH Hk]]]; simpl; [by exists []|]. destruct (p x) eqn:E.
  - exists (x :: k). simpl. by rewrite <- IH, E.
  - by exists [].
Qed.

Lemma drop_while_app_stop {A} (p : A -> bool) x l : p x = false -> drop_while p (x :: l) = x :: l.
Proof. intros H. simpl. by rewrite H. Qed.

(** Dropping at the end does not expose a new element at the front. *)
Lemma drop_while_rev_front {A} (p : A -> bool) l :
  drop_while p (rev (drop_while p (rev (drop_while p l)))) =
  rev (drop_while p (rev (drop_while p l))).
Proof.
  remember (drop_while p l) as m eqn:Em.
  assert (Hm : drop_while p m = m) by (subst; apply drop_while_idem). clear Em l.
  destruct (drop_while_suffix p (rev m)) as (k & Hk & _).
  assert (Hm' : m = rev (drop_while p (rev m)) ++ rev k).
  { rewrite <- rev_app_distr, <- Hk. by rewrite rev_involutive. }
  destruct (rev (drop_while p (rev m))) as [|x r]; [done|].
  rewrite Hm' in Hm. simpl in Hm |- *. destruct (p x) eqn:E; [|done].
  exfalso. destruct (drop_while_suffix p (r ++ rev k)) as (k' & Hk' & _).
  rewrite Hm in Hk'. apply (f_equal length) in Hk'. rewrite !length_app in Hk'. simpl in Hk'. rewrite length_app in Hk'. lia.
Qed.

Lemma strip_idem {A} (p : A -> bool) l : strip p (strip p l) = strip p l.
Proof.
  assert (H : drop_while p (strip p l) = strip p l) by apply drop_while_rev_front.
  unfold strip at 1. rewrite H. unfold strip.
  by rewrite rev_involutive, drop_while_idem.
Qed.

Lemma TrimSpace_idem s : TrimSpace (TrimSpace s) = TrimSpace s.
Proof. unfold TrimSpace, TrimFunc. by rewrite bytes_of_bytes, strip_idem. Qed.

#[export] Hint Rewrite ToLower_idem TrimSpace_idem : go_strings.

Lemma EqualFold_spec s t : EqualFold s t = true <-> ToLower s = ToLower t.
Proof. apply String.eqb_eq. Qed.

Lemma HasPrefix_bytes s v : HasPrefix s v = true <-> exists rest, bytes s = bytes v ++ rest.
Proof.
  unfold HasPrefix. revert s. induction v as [|c v IH]; intros s; simpl; [split; [eauto|by destruct s]|].
  destruct s as [|d s]; simpl.
  { split; [done|]. by intros [rest ?]. }
  destruct (ascii_dec c d) as [->|Hne].
  - rewrite IH. unfold bytes. simpl. split; intros [rest E]; exists rest; [by rewrite E|by injection E as E].
  - split; [done|]. intros [rest E]. unfold bytes in E. simpl in E. congruence.
Qed.

Lemma substring_take n s : bytes (String.substring 0 n s) = take n (bytes s).
Proof.
  revert n. induction s as [|c s IH]; intros [|n]; try done. cbn [String.substring bytes String.list_ascii_of_string].
  change (c :: bytes (String.substring 0 n s) = c :: take n (bytes s)). by rewrite IH.
Qed.

(** What remains after a suffix is trimmed is a prefix. *)
Lemma TrimSuffix_prefix s suf : exists n, bytes (TrimSuffix s suf) = take n (bytes s).
Proof.
  unfold TrimSuffix. destruct (HasSuffix s suf); [eexists; apply substring_take|].
  exists (length (bytes s)). symmetry. by apply take_ge.
Qed.

Lemma TrimSuffix_forallb p s suf : forallb p (bytes s) = true -> forallb p (bytes (TrimSuffix s suf)) = true.
Proof.
  destruct (TrimSuffix_prefix s suf) as [n ->]. rewrite !forallb_forall. intros H c Hc. apply H.
  apply list_elem_of_In in Hc. apply list_elem_of_In. by apply (subseteq_take n).
Qed.

Lemma append_assoc (a b c : string) : a +:+ b +:+ c = (a +:+ b) +:+ c.
Proof. induction a as [|x a IH]; simpl; [done|]. unfold String.append in *. by f_equal. Qed.

Lemma append_nil_r s : s +:+ "" = s.
Proof. induction s as [|c s IH]; [done|]. change (String c (s +:+ "") = String c s). by rewrite IH. Qed.

Lemma bytes_append s t : bytes (s +:+ t) = bytes s ++ bytes t.
Proof. induction s as [|c s IH]; simpl; [done|]. by rewrite <-IH. Qed.

Lemma bytes_inj s t : bytes s = bytes t -> s = t.
Proof. intros E. by rewrite <-(of_bytes_bytes s), E, of_bytes_bytes. Qed.

Lemma length_bytes s : length (bytes s) = String.length s.
Proof. induction s as [|c s IH]; [done|]. simpl. by rewrite IH. Qed.

Lemma append_length s t : String.length (s +:+ t) = (String.length s + String.length t)%nat.
Proof. by rewrite <-!length_bytes, bytes_append, length_app. Qed.

(** Concatenations with parts of one length. *)
Lemma append_inj_front a b s t : String.length a = String.length b -> a +:+ s = b +:+ t -> a = b /\ s = t.
Proof.
  intros Hl E. apply (f_equal bytes) in E. rewrite !bytes_append in E.
  apply app_inj_1 in E as [Ha Hs]; [|by rewrite !length_bytes]. split; by apply bytes_inj.
Qed.

Lemma append_inj_back a b s t : String.length s = String.length t -> a +:+ s = b +:+ t -> a = b /\ s = t.
Proof.
  intros Hl E. apply (f_equal bytes) in E. rewrite !bytes_append in E.
  apply app_inj_2 in E as [Ha Hs]; [|by rewrite !length_bytes]. split; by apply bytes_inj.
Qed.

#[export] Instance append_inj (p : string) : Inj (=) (=) (String.append p).
Proof. intros s t E. by destruct (append_inj_front p p s t eq_refl E). Qed.

Lemma substring_append (p r : string) n :
  (String.length r <= n)%nat -> String.substring (String.length p) n (p +:+ r) = r.
Proof.
  intros Hn. induction p as [|c p IHp]; [|done]. cbn [String.length]. change ("" +:+ r) with r.
  revert n Hn. induction r as [|c r IHr]; intros [|n] Hn; cbn [String.length String.substring] in *; try done; [lia|].
  f_equal. apply IHr. lia.
Qed.

Lemma TrimPrefix_spec s p : HasPrefix s p = true -> s = p +:+ TrimPrefix s p.
Proof.
  intros Hp. unfold TrimPrefix. rewrite Hp. apply HasPrefix_bytes in Hp as [rest Hr].
  assert (E : s = p +:+ of_bytes rest).
  { rewrite <-(of_bytes_bytes s), Hr, <-(of_bytes_bytes (p +:+ _)), bytes_append. by rewrite bytes_of_bytes. }
  rewrite E at 1. f_equal. rewrite E, substring_append; [done|].
  generalize (of_bytes rest). clear. intros r. induction p as [|c p IH]; [exact (le_n _)|exact (le_S _ _ IH)].
Qed.

Lemma ToLower_fixed s : forallb (fun c => Ascii.eqb (lower_ascii c) c) (bytes s) = true -> ToLower s = s.
Proof.
  unfold ToLower. induction s as [|c s IH]; [done|]. simpl. intros [E%Ascii.eqb_eq Hs]%andb_true_iff.
  by rewrite E, IH.
Qed.

Lemma drop_while_nil {A} (p : A -> bool) l : drop_while p l = [] <-> forallb p l = true.
Proof.
  induction l as [|x l IH]; [done|]. simpl. destruct (p x); [by rewrite IH|done].
Qed.

Lemma strip_nil {A} (p : A -> bool) l : strip p l = [] <-> forallb p l = true.
Proof.
  unfold strip. split.
  - intros H. apply (f_equal (@rev A)) in H. rewrite rev_involutive in H. simpl in H.
    apply drop_while_nil in H. destruct (drop_while_suffix p l) as (k & E & Hk).
    rewrite E, forallb_app, Hk. simpl. rewrite forallb_forall in H |- *. intros x Hx. apply H. by apply in_rev in Hx.
  - intros H. by rewrite (proj2 (drop_while_nil p l) H).
Qed.

Lemma Trim_empty s cutset : is_empty (Trim s cutset) = forallb (in_set cutset) (bytes s).
Proof.
  apply eq_true_iff_eq. rewrite is_empty_true. unfold Trim, TrimFunc. rewrite <-strip_nil. split.
  - intros E. apply (f_equal bytes) in E. by rewrite bytes_of_bytes in E.
  - by intros ->.
Qed.

Lemma Contains_byte s c : Contains s (String c "") = existsb (Ascii.eqb c) (bytes s).
Proof.
  induction s as [|d s IH]; [done|]. simpl. rewrite IH. unfold HasPrefix. simpl.
  destruct (ascii_dec c d) as [->|Hne].
  - rewrite Ascii.eqb_refl. by destruct s.
  - apply Ascii.eqb_neq in Hne. by rewrite Hne.
Qed.

Lemma CountByte_none s c : existsb (Ascii.eqb c) (bytes s) = false -> CountByte s c = 0.
Proof.
  induction s as [|d s IH]; [done|]. simpl. intros [-> H]%orb_false_iff. by rewrite IH.
Qed.

Lemma CountByte_app s t c : CountByte (s +:+ t) c = CountByte s c + CountByte t c.
Proof. induction s as [|d s IH]; [done|]. simpl. rewrite IH. lia. Qed.

Lemma Cut_at s t c : existsb (Ascii.eqb c) (bytes s) = false -> Cut (s +:+ String c t) c = (s, t, true).
Proof.
  induction s as [|d s IH]; simpl.
  - intros _. by rewrite Ascii.eqb_refl.
  - intros [-> H]%orb_false_iff. by rewrite IH.
Qed.

Lemma len_bytes s : len s = Z.of_nat (length (bytes s)).
Proof. unfold len. f_equal. by induction s as [|c s IH]; simpl; [|rewrite IH]. Qed.

(** ** Texts of countable data

    A text for every value of a countable type, read back exactly: what the
    witnesses use where the program uses JSON. *)

Fixpoint text_of_pos (p : positive) : string :=
  match p with
  | xH => "e"
  | xO p => String "o" (text_of_pos p)
  | xI p => String "i" (text_of_pos p)
  end.

Fixpoint pos_of_text (s : string) : option positive :=
  match s with
  | "e" => Some xH
  | String "o" s => xO <$> pos_of_text s
  | String "i" s => xI <$> pos_of_text s
  | _ => None
  end.

Lemma pos_of_text_of_pos p : pos_of_text (text_of_pos p) = Some p.
Proof. induction p as [p IH|p IH|]; [| |done]; simpl; rewrite IH; by destruct p. Qed.

Definition text_of `{Countable A} (a : A) : string := text_of_pos (encode a).
Definition of_text `{Countable A} (s : string) : option A := pos_of_text s ≫= decode.

Lemma of_text_text_of `{Countable A} (a : A) : of_text (text_of a) = Some a.
Proof. unfold of_text, text_of. rewrite pos_of_text_of_pos. apply decode_encode. Qed.

Lemma text_of_nonempty `{Countable A} (a : A) : text_of a <> "".
Proof. unfold text_of. by destruct (encode a). Qed.
