(* ===== verification/GoStrconv.v ===== *)
(** * Numbers as text (strconv): printing and parsing *)

From S2P Require Import Prelude GoStrings.

(** ** Decimal *)

(** strconv.ParseInt in base 10. *)
Fixpoint parse_digits (acc : Z) (l : list ascii) : option Z :=
  match l with
  | [] => Some acc
  | c :: l => if is_digit c then parse_digits (acc * 10 + (code c - 48)) l else None
  end.

Definition ParseInt64 (s : string) : option Z :=
  let '(neg, digits) := match bytes s with
                        | c :: l => if code c =? 45 then (true, l) else if code c =? 43 then (false, l)
                                    else (false, c :: l)
                        | [] => (false, [])
                        end in
  match digits with
  | [] => None
  | _ => match parse_digits 0 digits with
         | Some n => let n := if (neg : bool) then - n else n in
                     if (- 2 ^ 63 <=? n) && (n <? 2 ^ 63) then Some n else None
         | None => None
         end
  end.

(** ** Hexadecimal *)

(** strconv.FormatUint in base 16; [fuel] digits are enough. *)
Fixpoint format_hex (fuel : nat) (n : Z) (acc : list ascii) : list ascii :=
  match fuel with
  | O => acc
  | S fuel =>
      let acc := hex_digit (Z.to_nat (n mod 16)) :: acc in
      if n <? 16 then acc else format_hex fuel (n / 16) acc
  end.

Definition FormatHex (n : Z) : string := of_bytes (format_hex 16 n []).

Definition hex_value (c : ascii) : option Z :=
  if is_digit c then Some (code c - 48)
  else if in_range 97 102 c then Some (code c - 97 + 10)
  else if in_range 65 70 c then Some (code c - 65 + 10)
  else None.

(** hex.DecodeString *)
Fixpoint hex_decode (l : list ascii) : option (list Z) :=
  match l with
  | [] => Some []
  | a :: b :: l =>
      match hex_value a, hex_value b, hex_decode l with
      | Some x, Some y, Some r => Some (x * 16 + y :: r)
      | _, _, _ => None
      end
  | [_] => None
  end.

Definition hex_number (ds : list Z) : Z := foldl (fun acc d => acc * 16 + d) 0 ds.

(** ** Lemmas on decimal numbers *)

(** The number that a list of decimal digits denotes. *)
Definition decimal (acc : Z) (l : list ascii) : Z := foldl (fun acc c => acc * 10 + (code c - 48)) acc l.

Lemma parse_digits_decimal acc l :
  forallb is_digit l = true -> parse_digits acc l = Some (decimal acc l).
Proof.
  revert acc. induction l as [|c l IH]; intros acc; [done|]. cbn [forallb parse_digits]. intros [-> Hl]%andb_true_iff.
  by rewrite IH.
Qed.

Lemma pretty_N_char_digit d :
  (d < 10)%N -> is_digit (pretty_N_char d) = true /\ code (pretty_N_char d) - 48 = Z.of_N d.
Proof.
  intros H. assert (d = 0 \/ d = 1 \/ d = 2 \/ d = 3 \/ d = 4 \/ d = 5 \/ d = 6 \/ d = 7 \/ d = 8 \/ d = 9)%N as Hd by lia.
  by repeat destruct Hd as [-> | Hd]; [..|subst d].
Qed.

Lemma pretty_N_go_decimal (x : N) s :
  exists ds, bytes (pretty_N_go x s) = ds ++ bytes s /\ forallb is_digit ds = true /\ decimal 0 ds = Z.of_N x /\
    ((0 < x)%N -> ds <> []) /\ forall k, (x < 10 ^ N.of_nat k)%N -> (length ds <= k)%nat.
Proof.
  revert s. induction (N.lt_wf_0 x) as [x _ IH]; intros s.
  destruct (decide (x = 0%N)) as [->|Hx].
  { exists []. split_and!; [done..|intros k _; simpl; lia]. }
  rewrite pretty_N_go_step by lia.
  pose proof (N.mod_lt x 10 ltac:(lia)) as Hm. pose proof (N.div_mod' x 10) as Hdm.
  destruct (pretty_N_char_digit (x mod 10) Hm) as [Hdig Hcode].
  destruct (IH (x / 10)%N ltac:(apply N.div_lt; lia) (String (pretty_N_char (x mod 10)) s)) as (ds & E & Hds & Hv & _ & Hk).
  exists (ds ++ [pretty_N_char (x mod 10)]). split_and!.
  - rewrite E, <-app_assoc. done.
  - rewrite forallb_app, Hds. simpl. by rewrite Hdig.
  - unfold decimal in *. rewrite foldl_app. cbn [foldl]. rewrite Hv, Hcode. lia.
  - intros _. by destruct ds.
  - intros [|k] Hlt; [simpl in Hlt; lia|]. rewrite length_app. cbn [length].
    assert (length ds <= k)%nat; [|lia]. apply Hk. rewrite Nat2N.inj_succ, N.pow_succ_r in Hlt by lia.
    apply N.Div0.div_lt_upper_bound. lia.
Qed.

(** The text of a natural number: its digits, at least one, without a sign. *)
Lemma Itoa_digits n :
  0 <= n ->
  forallb is_digit (bytes (Itoa n)) = true /\ decimal 0 (bytes (Itoa n)) = n /\ bytes (Itoa n) <> [] /\
  forall k, (0 < k)%nat -> n < 10 ^ Z.of_nat k -> (length (bytes (Itoa n)) <= k)%nat.
Proof.
  intros Hn. destruct n as [|p|p]; [|clear Hn|lia].
  { by split_and!. }
  assert (E : Itoa (Z.pos p) = pretty_N_go (N.pos p) "").
  { unfold Itoa, pretty, pretty_Z, pretty, pretty_positive, pretty, pretty_N. by rewrite decide_False. }
  rewrite E. destruct (pretty_N_go_decimal (N.pos p) "") as (ds & -> & Hd & Hv & Hne & Hk).
  rewrite app_nil_r. split_and!; [done|done|by apply Hne|]. intros k _ Hlt. apply Hk.
  apply N2Z.inj_lt. rewrite N2Z.inj_pow, nat_N_Z. done.
Qed.

Lemma is_digit_code c : is_digit c = true -> 48 <= code c <= 57.
Proof. unfold is_digit, in_range. intros H. reflect_Z. lia. Qed.

(** A printed natural number is read back. *)
Lemma ParseInt64_Itoa n : 0 <= n < 2 ^ 63 -> ParseInt64 (Itoa n) = Some n.
Proof.
  intros Hn. destruct (Itoa_digits n ltac:(lia)) as (Hd & Hv & Hne & _). unfold ParseInt64.
  destruct (bytes (Itoa n)) as [|c l]; [done|]. pose proof Hd as Hc. cbn [forallb] in Hc.
  apply andb_true_iff in Hc as [Hc _]. apply is_digit_code in Hc.
  rewrite (proj2 (Z.eqb_neq _ 45)), (proj2 (Z.eqb_neq _ 43)) by lia.
  rewrite parse_digits_decimal, Hv by done.
  rewrite (proj2 (Z.leb_le _ n)), (proj2 (Z.ltb_lt n _)) by lia. done.
Qed.

(** ** Lemmas on hexadecimal numbers *)

Notation nibble d := (0 <= d < 16).

Lemma hex_value_digit d : nibble d -> hex_value (hex_digit (Z.to_nat d)) = Some d.
Proof.
  intros H. assert (Hd : d ∈ seqZ 0 16) by (apply elem_of_seqZ; lia). clear H. revert d Hd.
  apply Forall_forall. repeat constructor.
Qed.

Definition hex_digits (ds : list Z) : list ascii := (fun d => hex_digit (Z.to_nat d)) <$> ds.

Lemma hex_number_snoc ds d : hex_number (ds ++ [d]) = hex_number ds * 16 + d.
Proof. unfold hex_number. by rewrite foldl_app. Qed.

(** What [format_hex] prints: the base 16 digits of the number. *)
Lemma format_hex_spec fuel n acc :
  0 <= n < 16 ^ Z.of_nat fuel -> (0 < fuel)%nat ->
  exists ds, format_hex fuel n acc = hex_digits ds ++ acc /\ Forall (fun d => nibble d) ds /\ hex_number ds = n /\
    ds <> [] /\ forall k, (0 < k)%nat -> n < 16 ^ Z.of_nat k -> (length ds <= k)%nat.
Proof.
  revert n acc. induction fuel as [|fuel IH]; intros n acc Hn Hf; [lia|].
  cbn [format_hex]. pose proof (Z.mod_pos_bound n 16 ltac:(lia)) as Hm. destruct (Z.ltb_spec n 16).
  - exists [n mod 16]. rewrite Z.mod_small in * by lia. split_and!; [done|by apply Forall_singleton|done|done|intros k Hk _; simpl; lia].
  - rewrite Nat2Z.inj_succ, Z.pow_succ_r in Hn by lia.
    assert (Hq : 1 <= n / 16 < 16 ^ Z.of_nat fuel).
    { split; [apply Z.div_le_lower_bound; lia|apply Z.div_lt_upper_bound; lia]. }
    destruct (IH (n / 16) (hex_digit (Z.to_nat (n mod 16)) :: acc)) as (ds & -> & Hds & Hv & Hne & Hk); [lia|destruct fuel; [simpl in Hq; lia|lia]|].
    exists (ds ++ [n mod 16]). split_and!.
    + unfold hex_digits. by rewrite fmap_app, <-app_assoc.
    + apply Forall_app. split; [done|]. by apply Forall_singleton.
    + rewrite hex_number_snoc, Hv. pose proof (Z.div_mod n 16). lia.
    + by destruct ds.
    + intros [|[|k]] Hk0 Hlt; [lia|simpl in Hlt; lia|]. rewrite length_app. cbn [length].
      rewrite Nat2Z.inj_succ, Z.pow_succ_r in Hlt by lia.
      assert (length ds <= S k)%nat; [|lia]. apply Hk; [lia|]. apply Z.div_lt_upper_bound; lia.
Qed.

