(* ===== verification/GoTime.v ===== *)
(** * Time as text (time.Format and time.Parse with RFC 3339 layouts)

    Instants are formatted in UTC, in the proleptic Gregorian calendar.  Parsing
    is the strict grammar of RFC 3339; the leniencies of the general parser (a
    decimal comma, hours of one digit) are not modelled. *)

From S2P Require Import Prelude GoStrings GoStrconv.

(** ** Calendar *)

(** Days are counted from 1 March of year 0; Go's zero time is 306 days later. *)
Definition zero_day : Z := 306.

(** The year (starting in March), month and day of a day number. *)
Definition civil_of_days (z : Z) : Z * Z * Z :=
  let era := z / 146097 in
  let doe := z mod 146097 in
  let yoe := (doe - doe / 1460 + doe / 36524 - doe / 146096) / 365 in
  let doy := doe - (365 * yoe + yoe / 4 - yoe / 100) in
  let mp := (5 * doy + 2) / 153 in
  let d := doy - (153 * mp + 2) / 5 + 1 in
  let m := if mp <? 10 then mp + 3 else mp - 9 in
  (yoe + era * 400 + (if m <=? 2 then 1 else 0), m, d).

Definition days_of_civil (y m d : Z) : Z :=
  let y := if m <=? 2 then y - 1 else y in
  let era := y / 400 in
  let yoe := y mod 400 in
  let doy := (153 * (if 2 <? m then m - 3 else m + 9) + 2) / 5 + d - 1 in
  let doe := yoe * 365 + yoe / 4 - yoe / 100 + doy in
  era * 146097 + doe.

Definition is_leap (y : Z) : bool := (y mod 4 =? 0) && (negb (y mod 100 =? 0) || (y mod 400 =? 0)).

Definition daysIn (m y : Z) : Z :=
  if m =? 2 then (if is_leap y then 29 else 28)
  else if (m =? 4) || (m =? 6) || (m =? 9) || (m =? 11) then 30 else 31.

Definition Day : Z := 24 * Hour.

(** ** Format *)

Definition digit_char (d : Z) : ascii := ascii_of_nat (48 + Z.to_nat d).

(** The last [k] decimal digits of [n]. *)
Fixpoint fixed_digits (k : nat) (n : Z) : list ascii :=
  match k with
  | O => []
  | S k => fixed_digits k (n / 10) ++ [digit_char (n mod 10)]
  end.

Definition year_digits (y : Z) : list ascii :=
  if y <? 0 then "-"%char :: (if - y <? 10000 then fixed_digits 4 (- y) else bytes (Itoa (- y)))
  else if y <? 10000 then fixed_digits 4 y else bytes (Itoa y).

(** Nanoseconds without the trailing zeros, and nothing for none. *)
Definition fraction (ns : Z) : list ascii :=
  if ns =? 0 then [] else "."%char :: rev (drop_while (Ascii.eqb "0") (rev (fixed_digits 9 ns))).

Definition date_time (t : time) : list ascii :=
  let '(y, m, d) := civil_of_days (t / Day + zero_day) in
  let s := t mod Day / Second in
  year_digits y ++ ["-"%char] ++ fixed_digits 2 m ++ ["-"%char] ++ fixed_digits 2 d ++ ["T"%char]
  ++ fixed_digits 2 (s / 3600) ++ [":"%char] ++ fixed_digits 2 (s / 60 mod 60) ++ [":"%char]
  ++ fixed_digits 2 (s mod 60).

(** UTC().Format(time.RFC3339Nano) and UTC().Format(time.RFC3339) *)
Definition FormatRFC3339Nano (t : time) : string := of_bytes (date_time t ++ fraction (t mod Second) ++ ["Z"%char]).
Definition FormatRFC3339 (t : time) : string := of_bytes (date_time t ++ ["Z"%char]).

(** ** Parse *)

(** A number of [k] digits within bounds at the front of the text. *)
Definition number_at (k : nat) (lo hi : Z) (l : list ascii) : option (Z * list ascii) :=
  if (length (take k l) =? k)%nat && forallb is_digit (take k l) then
    let n := decimal 0 (take k l) in
    if (lo <=? n) && (n <=? hi) then Some (n, drop k l) else None
  else None.

Definition char_at (c : ascii) (l : list ascii) : option (list ascii) :=
  match l with x :: l => if Ascii.eqb x c then Some l else None | [] => None end.

Fixpoint span_digits (l : list ascii) : list ascii * list ascii :=
  match l with
  | c :: l' => if is_digit c then let '(ds, rest) := span_digits l' in (c :: ds, rest) else ([], l)
  | [] => ([], [])
  end.

(** The first nine digits of a fraction, as nanoseconds. *)
Definition nanoseconds (ds : list ascii) : Z :=
  decimal 0 (take 9 ds) * 10 ^ (9 - Z.of_nat (length (take 9 ds))).

Definition fraction_at (l : list ascii) : Z * list ascii :=
  match l with
  | "."%char :: l' => match span_digits l' with
                      | ([], _) => (0, l)
                      | (ds, rest) => (nanoseconds ds, rest)
                      end
  | _ => (0, l)
  end.

(** The seconds east of UTC. *)
Definition zone_at (l : list ascii) : option Z :=
  match l with
  | ["Z"%char] => Some 0
  | sign :: l =>
      if Ascii.eqb sign "+" || Ascii.eqb sign "-" then
        '(h, l) ← number_at 2 0 23 l; l ← char_at ":" l; '(m, l) ← number_at 2 0 59 l;
        match l with
        | [] => Some ((if Ascii.eqb sign "-" then -1 else 1) * ((h * 60 + m) * 60))
        | _ => None
        end
      else None
  | [] => None
  end.

(** time.Parse with time.RFC3339 or time.RFC3339Nano *)
Definition ParseRFC3339 (s : string) : option time :=
  '(y, l) ← number_at 4 0 9999 (bytes s); l ← char_at "-" l;
  '(m, l) ← number_at 2 1 12 l; l ← char_at "-" l;
  '(d, l) ← number_at 2 1 (daysIn m y) l; l ← char_at "T" l;
  '(hh, l) ← number_at 2 0 23 l; l ← char_at ":" l;
  '(mm, l) ← number_at 2 0 59 l; l ← char_at ":" l;
  '(ss, l) ← number_at 2 0 59 l;
  let '(ns, l) := fraction_at l in
  zone ← zone_at l;
  Some ((days_of_civil y m d - zero_day) * Day + (hh * 3600 + mm * 60 + ss - zone) * Second + ns).

(** ** The calendar round trip *)

(** A day of the 400-year era: its year, and its day in the year that starts in
    March; the 366th day exists in leap years only. *)
Lemma era_year doe :
  0 <= doe < 146097 ->
  let yoe := (doe - doe / 1460 + doe / 36524 - doe / 146096) / 365 in
  let doy := doe - (365 * yoe + yoe / 4 - yoe / 100) in
  0 <= yoe < 400 /\ 0 <= doy <= 365 /\ (doy = 365 -> yoe mod 4 = 3 /\ (yoe mod 100 <> 99 \/ yoe = 399)).
Proof. intros H. cbv zeta. Z.to_euclidean_division_equations. lia. Qed.

(** A day of the year that starts in March: its month and its day. *)
Lemma year_month doy :
  0 <= doy <= 365 ->
  let mp := (5 * doy + 2) / 153 in
  let d := doy - (153 * mp + 2) / 5 + 1 in
  0 <= mp <= 11 /\ 1 <= d <= 31 /\ (mp = 1 \/ mp = 3 \/ mp = 6 \/ mp = 8 -> d <= 30) /\
  (mp = 11 -> d <= 29 /\ (d = 29 -> doy = 365)).
Proof. intros H. cbv zeta. Z.to_euclidean_division_equations. lia. Qed.

Lemma is_leap_march yoe era :
  yoe mod 4 = 3 -> yoe mod 100 <> 99 \/ yoe = 399 -> 0 <= yoe < 400 -> is_leap (yoe + era * 400 + 1) = true.
Proof.
  intros H4 H100 Hy. unfold is_leap. apply andb_true_iff. split; [apply Z.eqb_eq|apply orb_true_iff].
  - Z.to_euclidean_division_equations. lia.
  - destruct H100 as [H|H]; [left; apply negb_true_iff, Z.eqb_neq|right; apply Z.eqb_eq];
      Z.to_euclidean_division_equations; lia.
Qed.

(** A day number is that of its date, which is a date of the calendar. *)
Lemma civil_roundtrip z y m d :
  civil_of_days z = (y, m, d) ->
  days_of_civil y m d = z /\ 1 <= m <= 12 /\ 1 <= d <= daysIn m y.
Proof.
  unfold civil_of_days, days_of_civil.
  pose proof (Z.mod_pos_bound z 146097 ltac:(lia)) as Hb. pose proof (Z.div_mod z 146097 ltac:(lia)) as Hz.
  pose proof (era_year (z mod 146097) Hb) as He. cbv zeta in He. cbv zeta.
  set (doe := z mod 146097) in *. set (era := z / 146097) in *.
  set (yoe := (doe - doe / 1460 + doe / 36524 - doe / 146096) / 365) in *.
  set (doy := doe - (365 * yoe + yoe / 4 - yoe / 100)) in *. destruct He as (Hy & Hd & Hleap).
  pose proof (year_month doy Hd) as Hm. cbv zeta in Hm.
  set (mp := (5 * doy + 2) / 153) in *. set (day := doy - (153 * mp + 2) / 5 + 1) in *.
  destruct Hm as (Hmp & Hday & H30 & Hfeb).
  assert (Hdoe : doe = yoe * 365 + yoe / 4 - yoe / 100 + doy) by (unfold doy; lia).
  assert (Hdoy : doy = (153 * mp + 2) / 5 + day - 1) by (unfold day; lia).
  clearbody doe era day. clear Hb. intros [= <- <- <-].
  destruct (Z.ltb_spec mp 10) as [Hlt|Hge].
  - rewrite (proj2 (Z.leb_gt (mp + 3) 2)) by lia. rewrite (proj2 (Z.ltb_lt 2 (mp + 3))) by lia.
    replace (yoe + era * 400 + 0) with (yoe + era * 400) by lia.
    rewrite Z.div_add, Z.mod_add, (Z.div_small yoe), (Z.mod_small yoe) by lia.
    replace (mp + 3 - 3) with mp by lia. split; [lia|split; [lia|]]. unfold daysIn.
    rewrite (proj2 (Z.eqb_neq (mp + 3) 2)) by lia. split; [lia|].
    destruct (_ || _) eqn:E; [|lia]. apply H30. rewrite !orb_true_iff, !Z.eqb_eq in E. lia.
  - rewrite (proj2 (Z.leb_le (mp - 9) 2)) by lia. rewrite (proj2 (Z.ltb_ge 2 (mp - 9))) by lia.
    replace (yoe + era * 400 + 1 - 1) with (yoe + era * 400) by lia.
    rewrite Z.div_add, Z.mod_add, (Z.div_small yoe), (Z.mod_small yoe) by lia.
    replace (mp - 9 + 9) with mp by lia. split; [lia|split; [lia|]]. unfold daysIn.
    destruct (Z.eqb_spec (mp - 9) 2) as [E|E].
    + destruct (Hfeb ltac:(lia)) as [Hd29 Hd365]. split; [lia|]. destruct (is_leap _) eqn:El; [lia|].
      destruct (Z.eq_dec day 29) as [Ed|]; [|lia]. exfalso. destruct (Hleap (Hd365 Ed)) as [H4 H100].
      by rewrite is_leap_march in El.
    + split; [lia|]. rewrite (proj2 (Z.eqb_neq _ 4)), (proj2 (Z.eqb_neq _ 6)), (proj2 (Z.eqb_neq _ 9)), (proj2 (Z.eqb_neq _ 11)) by lia.
      simpl. lia.
Qed.

(** ** The text round trip *)

Lemma digit_char_spec d : 0 <= d < 10 -> is_digit (digit_char d) = true /\ code (digit_char d) = 48 + d.
Proof.
  intros H. assert (d = 0 \/ d = 1 \/ d = 2 \/ d = 3 \/ d = 4 \/ d = 5 \/ d = 6 \/ d = 7 \/ d = 8 \/ d = 9) as Hd by lia.
  by repeat destruct Hd as [-> | Hd]; [..|subst d].
Qed.

Lemma fixed_digits_spec k n :
  0 <= n -> length (fixed_digits k n) = k /\ forallb is_digit (fixed_digits k n) = true /\
  decimal 0 (fixed_digits k n) = n mod 10 ^ Z.of_nat k.
Proof.
  revert n. induction k as [|k IH]; intros n Hn; [by rewrite Z.mod_1_r|]. cbn [fixed_digits].
  destruct (IH (n / 10)) as (Hl & Hd & Hv); [by apply Z.div_pos|].
  destruct (digit_char_spec (n mod 10)) as [Hc1 Hc2]; [by apply Z.mod_pos_bound|]. split_and!.
  - rewrite length_app, Hl. cbn [length]. lia.
  - rewrite forallb_app, Hd. cbn [forallb andb]. by rewrite Hc1.
  - unfold decimal in *. rewrite foldl_app, Hv. cbn [foldl]. rewrite Hc2.
    rewrite Nat2Z.inj_succ, Z.pow_succ_r, Z.rem_mul_r by lia. lia.
Qed.

(** A number of [k] digits is read back. *)
Lemma number_at_fixed k lo hi n rest :
  0 <= n < 10 ^ Z.of_nat k -> lo <= n <= hi -> number_at k lo hi (fixed_digits k n ++ rest) = Some (n, rest).
Proof.
  intros Hn Hb. destruct (fixed_digits_spec k n) as (Hl & Hd & Hv); [lia|]. unfold number_at.
  rewrite take_app_length', drop_app_length', Hl, Nat.eqb_refl, Hd, Hv by done. cbn [andb].
  rewrite Z.mod_small by lia. rewrite (proj2 (Z.leb_le lo n)), (proj2 (Z.leb_le n hi)) by lia. done.
Qed.

Lemma char_at_cons c rest : char_at c (c :: rest) = Some rest.
Proof. simpl. by rewrite Ascii.eqb_refl. Qed.

Lemma span_digits_app ds c rest :
  forallb is_digit ds = true -> is_digit c = false -> span_digits (ds ++ c :: rest) = (ds, c :: rest).
Proof.
  induction ds as [|d ds IH]; simpl; [by intros _ ->|]. intros [-> Hd]%andb_true_iff Hc. by rewrite IH.
Qed.

(** Trailing zeros do not change a fraction. *)
Lemma decimal_zeros n k : decimal n (replicate k "0"%char) = n * 10 ^ Z.of_nat k.
Proof.
  revert n. induction k as [|k IH]; intros n; [simpl; lia|]. unfold decimal in *. cbn [replicate foldl]. rewrite IH.
  rewrite Nat2Z.inj_succ, Z.pow_succ_r by lia. change (code "0") with 48. lia.
Qed.

Lemma drop_zeros l : exists k, l = replicate k "0"%char ++ drop_while (Ascii.eqb "0") l.
Proof.
  destruct (drop_while_suffix (Ascii.eqb "0") l) as (z & E & Hz). exists (length z). rewrite E at 1. f_equal.
  clear E. induction z as [|c z IH]; [done|]. cbn [forallb] in Hz.
  apply andb_true_iff in Hz as [<-%Ascii.eqb_eq Hz]. cbn [length replicate]. by rewrite <-IH.
Qed.

Lemma fraction_roundtrip ns rest :
  0 <= ns < Second -> (forall c l, rest = c :: l -> is_digit c = false /\ c <> "."%char) -> rest <> [] ->
  fraction_at (fraction ns ++ rest) = (ns, rest).
Proof.
  intros Hn Hrest Hne. unfold fraction. destruct rest as [|r rest]; [done|]. destruct (Hrest r rest eq_refl) as [Hr Hdot].
  destruct (Z.eqb_spec ns 0) as [->|Hnz].
  { cbn [app]. unfold fraction_at. destruct r as [[] [] [] [] [] [] [] []]; done. }
  destruct (fixed_digits_spec 9 ns) as (Hl & Hd & Hv); [lia|].
  set (ds := fixed_digits 9 ns) in *. destruct (drop_zeros (rev ds)) as [k Ek].
  set (kept := drop_while (Ascii.eqb "0") (rev ds)) in *.
  assert (E : ds = rev kept ++ replicate k "0"%char).
  { rewrite <-(rev_involutive ds), Ek, rev_app_distr. f_equal. rewrite rev_alt.
    apply reverse_replicate. }
  rewrite Z.mod_small in Hv by (change (10 ^ Z.of_nat 9) with Second; lia).
  rewrite E in Hd, Hv, Hl. rewrite forallb_app in Hd. apply andb_true_iff in Hd as [Hd _].
  rewrite length_app, length_replicate in Hl.
  unfold decimal in Hv. rewrite foldl_app in Hv. fold (decimal 0 (rev kept)) in Hv.
  fold (decimal (decimal 0 (rev kept)) (replicate k "0"%char)) in Hv. rewrite decimal_zeros in Hv.
  cbn [app]. unfold fraction_at. rewrite span_digits_app by done.
  destruct (rev kept) as [|c l] eqn:Ekept; [cbn [decimal foldl] in Hv; lia|].
  unfold nanoseconds. rewrite take_ge by lia. rewrite <-Hv. do 3 f_equal. lia.
Qed.

(** The first instant of year 0 and of year 10000. *)
Definition year_0 : time := -366 * Day.
Definition year_10000 : time := 3652059 * Day.

Lemma civil_year_range z y m d :
  civil_of_days z = (y, m, d) -> -60 <= z < 3652365 -> 0 <= y <= 9999.
Proof.
  unfold civil_of_days. intros [= <- <- <-] Hz.
  set (doe := z mod 146097). pose proof (Z.mod_pos_bound z 146097 ltac:(lia)) as Hb. fold doe in Hb.
  pose proof (Z.div_mod z 146097 ltac:(lia)) as Hdm. fold doe in Hdm.
  pose proof (era_year doe Hb) as He. cbv zeta in He.
  set (yoe := (doe - doe / 1460 + doe / 36524 - doe / 146096) / 365) in *.
  set (doy := doe - (365 * yoe + yoe / 4 - yoe / 100)) in *. destruct He as (Hy & Hd & _).
  assert (Hdoe : doe = yoe * 365 + yoe / 4 - yoe / 100 + doy) by (unfold doy; lia). clearbody doy yoe doe.
  set (mp := (5 * doy + 2) / 153). assert (Hmp : 0 <= mp <= 11 /\ (306 <= doy <-> 10 <= mp)) by (unfold mp; Z.to_euclidean_division_equations; lia).
  clearbody mp. assert (-1 <= z / 146097 <= 24) by (Z.to_euclidean_division_equations; lia).
  destruct (Z.ltb_spec mp 10); [rewrite (proj2 (Z.leb_gt (mp + 3) 2)) by lia|rewrite (proj2 (Z.leb_le (mp - 9) 2)) by lia];
    Z.to_euclidean_division_equations; lia.
Qed.

(** An instant of the years 0 to 9999 is read back from its text. *)
Lemma ParseRFC3339_format t :
  year_0 <= t < year_10000 -> ParseRFC3339 (FormatRFC3339Nano t) = Some t.
Proof.
  intros Ht. unfold ParseRFC3339, FormatRFC3339Nano. rewrite bytes_of_bytes. unfold date_time.
  destruct (civil_of_days (t / Day + zero_day)) as [[y m] d] eqn:Ec.
  destruct (civil_roundtrip _ _ _ _ Ec) as (Hz & Hm & Hd).
  assert (Hy : 0 <= y <= 9999).
  { eapply civil_year_range; [exact Ec|]. unfold year_0, year_10000, zero_day in *.
    assert (-366 <= t / Day) by (apply Z.div_le_lower_bound; [done|lia]).
    assert (t / Day < 3652059) by (apply Z.div_lt_upper_bound; [done|lia]). lia. }
  assert (H31 : daysIn m y <= 31) by (unfold daysIn; split_ifs; lia).
  assert (Hyd : year_digits y = fixed_digits 4 y).
  { unfold year_digits. by rewrite (proj2 (Z.ltb_ge y 0)), (proj2 (Z.ltb_lt y 10000)) by lia. }
  set (s := t mod Day / Second).
  assert (Hs : 0 <= s < 86400).
  { unfold s. pose proof (Z.mod_pos_bound t Day ltac:(done)).
    split; [apply Z.div_pos; [lia|done]|]. apply Z.div_lt_upper_bound; [done|].
    unfold Day, Hour, Minute, Second in *. lia. }
  assert (Hh : 0 <= s / 3600 <= 23) by (Z.to_euclidean_division_equations; lia).
  pose proof (Z.mod_pos_bound (s / 60) 60 ltac:(lia)) as Hmin. pose proof (Z.mod_pos_bound s 60 ltac:(lia)) as Hsec.
  rewrite Hyd, <-!app_assoc.
  rewrite (number_at_fixed 4) by (simpl; lia). cbn [mbind option_bind app]. rewrite char_at_cons. cbn [mbind option_bind].
  rewrite (number_at_fixed 2) by (simpl; lia). cbn [mbind option_bind app]. rewrite char_at_cons. cbn [mbind option_bind].
  rewrite (number_at_fixed 2) by (simpl; lia). cbn [mbind option_bind app]. rewrite char_at_cons. cbn [mbind option_bind].
  rewrite (number_at_fixed 2) by (simpl; lia). cbn [mbind option_bind app]. rewrite char_at_cons. cbn [mbind option_bind].
  rewrite (number_at_fixed 2) by (simpl; lia). cbn [mbind option_bind app]. rewrite char_at_cons. cbn [mbind option_bind].
  rewrite (number_at_fixed 2) by (simpl; lia). cbn [mbind option_bind].
  rewrite fraction_roundtrip; [|by apply Z.mod_pos_bound| |done].
  2:{ intros c l [= <- <-]. done. }
  cbn [zone_at mbind option_bind]. f_equal. rewrite Hz.
  assert (Hsum : s / 3600 * 3600 + s / 60 mod 60 * 60 + s mod 60 = s) by (Z.to_euclidean_division_equations; lia).
  rewrite Hsum. unfold s, zero_day.
  pose proof (Z.div_mod t Day ltac:(done)). pose proof (Z.div_mod (t mod Day) Second ltac:(done)).
  assert (Emod : (t mod Day) mod Second = t mod Second).
  { unfold Day. change (24 * Hour) with (Second * 86400). rewrite Z.rem_mul_r by done.
    rewrite Z.mul_comm, Z.mod_add, Z.mod_mod by done. done. }
  lia.
Qed.

Example format_zero : FormatRFC3339Nano 0 = "0001-01-01T00:00:00Z".
Proof. vm_compute. reflexivity. Qed.
Example format_some : FormatRFC3339Nano (63902347200000000000 + 1500000) = "2025-12-26T12:00:00.0015Z".
Proof. vm_compute. reflexivity. Qed.

(** ** Differences of instants *)

(** [t.Sub(u)]: the difference, saturated to an int64 of nanoseconds;
    [time.Since(u)] is [Sub now u]. *)
Definition Sub (t u : time) : duration := Z.max (- 2 ^ 63) (Z.min (2 ^ 63 - 1) (t - u)).

Lemma Sub_gt t u d : - 2 ^ 63 <= d < 2 ^ 63 - 1 -> (d <? Sub t u) = (d <? t - u).
Proof. intros H. unfold Sub. apply eq_bool_prop_intro. rewrite !Is_true_true, !Z.ltb_lt. lia. Qed.

Lemma Sub_le t u d : - 2 ^ 63 <= d < 2 ^ 63 - 1 -> (Sub t u <=? d) = (t - u <=? d).
Proof. intros H. rewrite !Z.leb_antisym. by rewrite Sub_gt. Qed.

(** ** time.Duration *)

(** The [k] decimal digits of [v] after a point, without trailing zeros. *)
Definition duration_fraction (k : nat) (v : Z) : list ascii :=
  match rev (drop_while (Ascii.eqb "0") (rev (fixed_digits k v))) with
  | [] => []
  | ds => "."%char :: ds
  end.

(** The micro sign in UTF-8. *)
Definition micro : list ascii := [ascii_of_nat 194; ascii_of_nat 181].

(** Duration.String *)
Definition Duration_String (d : duration) : string :=
  let u := Z.abs d in
  let text :=
    if u <? Second then
      if u =? 0 then bytes "0s"
      else if u <? 1000 then bytes (Itoa u) ++ bytes "ns"
      else if u <? Millisecond
      then bytes (Itoa (u / 1000)) ++ duration_fraction 3 (u mod 1000) ++ micro ++ bytes "s"
      else bytes (Itoa (u / Millisecond)) ++ duration_fraction 6 (u mod Millisecond) ++ bytes "ms"
    else
      let s := u / Second in
      let m := s / 60 in
      let h := m / 60 in
      (if 0 <? h then bytes (Itoa h) ++ bytes "h" else [])
      ++ (if 0 <? m then bytes (Itoa (m mod 60)) ++ bytes "m" else [])
      ++ bytes (Itoa (s mod 60)) ++ duration_fraction 9 (u mod Second) ++ bytes "s" in
  of_bytes (if d <? 0 then "-"%char :: text else text).
