(* ===== verification/GoNet.v ===== *)
(** * IP addresses (net/netip): parsing and printing

    [ParseAddr] on text without a zone, on bytes: an IPv4 address is its four
    octets, an IPv6 address its eight 16-bit groups. *)

From S2P Require Import Prelude GoStrings GoStrconv.

(** ** IPv4 *)

(** parseIPv4Fields: the octets still to come after [fields], the value and the
    digits of the current one. *)
Fixpoint ipv4_fields (fields : list Z) (val digits : Z) (l : list ascii) : option (list Z) :=
  match l with
  | [] => if Z.of_nat (length fields) <? 3 then None else Some (fields ++ [val])
  | c :: l' =>
      if is_digit c then
        if (digits =? 1) && (val =? 0) then None
        else
          let val := val * 10 + (code c - 48) in
          if 255 <? val then None else ipv4_fields fields val (digits + 1) l'
      else if Ascii.eqb c "."%char then
        if (digits =? 0) || match l' with [] => true | _ => false end then None
        else if Z.of_nat (length fields) =? 3 then None
        else ipv4_fields (fields ++ [val]) 0 0 l'
      else None
  end.

Definition parse_ipv4 (l : list ascii) : option (list Z) := ipv4_fields [] 0 0 l.

(** ** IPv6 *)

Definition starts_with (c : ascii) (l : list ascii) : bool :=
  match l with d :: _ => Ascii.eqb c d | [] => false end.

(** The hexadecimal digits in front, their value, and what follows. *)
Fixpoint span_hex (l : list ascii) : list Z * list ascii :=
  match l with
  | c :: l' => match hex_value c with
               | Some d => let '(ds, rest) := span_hex l' in (d :: ds, rest)
               | None => ([], l)
               end
  | [] => ([], [])
  end.

(** The loop of parseIPv6: [n] groups may still come; the groups so far, the
    place of the ellipsis among them, and the text left when the loop ends. *)
Fixpoint ipv6_groups (n : nat) (groups : list Z) (ellipsis : option nat) (l : list ascii)
    : option (list Z * option nat * list ascii) :=
  match n with
  | O => Some (groups, ellipsis, l)
  | S n' =>
      let '(ds, rest) := span_hex l in
      if (4 <? length ds)%nat || (length ds =? 0)%nat then None
      else if starts_with "." rest then
          if negb (bool_decide (is_Some ellipsis)) && negb (length groups =? 6)%nat then None
          else if (n <? 2)%nat then None
          else match parse_ipv4 l with
               | Some [a; b; c; d] => Some (groups ++ [a * 256 + b; c * 256 + d], ellipsis, [])
               | _ => None
               end
      else
          let groups := groups ++ [hex_number ds] in
          match rest with
          | [] => Some (groups, ellipsis, [])
          | c :: rest =>
              if negb (Ascii.eqb c ":"%char) then None
              else match rest with
              | [] => None
              | c :: rest' =>
                  if Ascii.eqb c ":"%char then
                    match ellipsis with
                    | Some _ => None
                    | None => match rest' with
                              | [] => Some (groups, Some (length groups), [])
                              | _ => ipv6_groups n' groups (Some (length groups)) rest'
                              end
                    end
                  else ipv6_groups n' groups ellipsis rest
              end
          end
  end.

(** The ellipsis stands for the zero groups that are missing, at least one. *)
Definition expand_groups (r : option (list Z * option nat * list ascii)) : option (list Z) :=
  match r with
  | Some (groups, ellipsis, []) =>
      if (length groups <? 8)%nat
      then match ellipsis with
           | Some e => Some (take e groups ++ replicate (8 - length groups) 0 ++ drop e groups)
           | None => None
           end
      else match ellipsis with Some _ => None | None => Some groups end
  | _ => None
  end.

Definition parse_ipv6 (l : list ascii) : option (list Z) :=
  match l with
  | ":"%char :: ":"%char :: [] => Some (replicate 8 0)
  | ":"%char :: ":"%char :: l => expand_groups (ipv6_groups 8 [] (Some 0%nat) l)
  | _ => expand_groups (ipv6_groups 8 [] None l)
  end.

Inductive Addr := IPv4 (octets : list Z) | IPv6 (groups : list Z).

#[export] Instance Addr_eq_dec : EqDecision Addr.
Proof. solve_decision. Defined.

(** netip.ParseAddr: the first dot or colon tells the family. *)
Fixpoint addr_family (l : list ascii) : option bool :=
  match l with
  | [] => None
  | c :: l => if Ascii.eqb c "."%char then Some true
              else if Ascii.eqb c ":"%char then Some false
              else if Ascii.eqb c "%"%char then None
              else addr_family l
  end.

Definition ParseAddr (s : string) : option Addr :=
  match addr_family (bytes s) with
  | Some true => IPv4 <$> parse_ipv4 (bytes s)
  | Some false => IPv6 <$> parse_ipv6 (bytes s)
  | None => None
  end.

(** Addr.String of an IPv4 address. *)
Definition ipv4_string (octets : list Z) : string := Join (Itoa <$> octets) ".".

(** ** Hexadecimal groups *)

(** The digits end where the text goes on with another byte. *)
Definition hex_stops (l : list ascii) : Prop := match l with [] => True | c :: _ => hex_value c = None end.

Lemma span_hex_digits ds rest :
  Forall (fun d => nibble d) ds -> hex_stops rest -> span_hex (hex_digits ds ++ rest) = (ds, rest).
Proof.
  intros Hds Hr. induction Hds as [|d ds Hd Hds IH].
  - destruct rest as [|c rest]; [done|]. simpl in *. by rewrite Hr.
  - change (hex_digits (d :: ds) ++ rest) with (hex_digit (Z.to_nat d) :: (hex_digits ds ++ rest)).
    cbn [span_hex]. by rewrite hex_value_digit, IH.
Qed.

Definition group_ok (g : Z) : Prop := 0 <= g < 65536.
Definition hex_bytes (g : Z) : list ascii := bytes (FormatHex g).

(** Printed groups are lower-case hexadecimal digits. *)
Lemma hex_bytes_charset g :
  group_ok g -> forallb (fun c => is_digit c || in_range 97 102 c) (hex_bytes g) = true /\ (length (hex_bytes g) <= 4)%nat.
Proof.
  intros Hg. unfold hex_bytes, FormatHex. rewrite bytes_of_bytes. unfold group_ok in Hg.
  destruct (format_hex_spec 16 g []) as (ds & -> & Hds & _ & _ & Hk); [lia|lia|]. rewrite app_nil_r. split.
  - apply forallb_forall. intros c (d & -> & Hd)%list_elem_of_In%list_elem_of_fmap.
    rewrite Forall_forall in Hds. specialize (Hds d Hd). clear -Hds.
    assert (Hin : d ∈ seqZ 0 16) by (apply elem_of_seqZ; lia). clear Hds. revert d Hin.
    apply Forall_forall. repeat constructor.
  - unfold hex_digits. rewrite length_fmap. apply Hk; [lia|]. change (16 ^ Z.of_nat 4) with 65536. lia.
Qed.

(** A printed group is read back, up to the byte that ends it. *)
Lemma span_group g rest :
  group_ok g -> hex_stops rest ->
  exists ds, span_hex (hex_bytes g ++ rest) = (ds, rest) /\ hex_number ds = g /\ (1 <= length ds <= 4)%nat.
Proof.
  intros Hg Hr. unfold hex_bytes, FormatHex. rewrite bytes_of_bytes.
  destruct (format_hex_spec 16 g []) as (ds & -> & Hds & Hv & Hne & Hk); [unfold group_ok in Hg; lia|lia|].
  exists ds. rewrite app_nil_r, span_hex_digits by done. split_and!; try done; [by destruct ds; simpl; [|lia]|].
  apply Hk; [lia|]. unfold group_ok in Hg. lia.
Qed.

(** ** Groups *)

Fixpoint join_groups (gs : list Z) : list ascii :=
  match gs with
  | [] => []
  | [g] => hex_bytes g
  | g :: gs => hex_bytes g ++ ":"%char :: join_groups gs
  end.

Lemma bytes_Join_groups gs : bytes (Join (FormatHex <$> gs) ":") = join_groups gs.
Proof.
  induction gs as [|g gs IH]; [done|]. destruct gs as [|g' gs]; [done|].
  cbn [fmap list_fmap join_groups Join] in *. by rewrite !bytes_append, IH.
Qed.

Lemma hex_bytes_head g : group_ok g -> exists c l, hex_bytes g = c :: l /\ is_Some (hex_value c).
Proof.
  intros Hg. destruct (span_group g [] Hg I) as (ds & Hs & _ & Hl & _). rewrite app_nil_r in Hs.
  destruct (hex_bytes g) as [|c l]; [simpl in Hs; by injection Hs as <-; simpl in Hl; lia|].
  exists c, l. split; [done|]. simpl in Hs. destruct (hex_value c); [by eexists|]. injection Hs as <- _. simpl in Hl. lia.
Qed.

Lemma join_groups_head g gs : Forall group_ok (g :: gs) -> exists c l, join_groups (g :: gs) = c :: l /\ is_Some (hex_value c).
Proof.
  intros [Hg _]%Forall_cons. destruct (hex_bytes_head g Hg) as (c & l & E & Hc).
  destruct gs; simpl; rewrite E; eauto.
Qed.

(** One printed group at the end of the text. *)
Lemma ipv6_groups_end n groups ellipsis g :
  group_ok g -> ipv6_groups (S n) groups ellipsis (hex_bytes g) = Some (groups ++ [g], ellipsis, []).
Proof.
  intros Hg. destruct (span_group g [] Hg I) as (ds & Hs & Hv & Hl). rewrite app_nil_r in Hs.
  cbn [ipv6_groups]. rewrite Hs, Hv.
  rewrite (proj2 (Nat.ltb_ge 4 _)) by lia. by rewrite (proj2 (Nat.eqb_neq (length ds) 0)) by lia.
Qed.

(** One printed group, a colon, and a text that goes on with a digit. *)
Lemma ipv6_groups_next n groups ellipsis g c l :
  group_ok g -> is_Some (hex_value c) ->
  ipv6_groups (S n) groups ellipsis (hex_bytes g ++ ":"%char :: c :: l)
  = ipv6_groups n (groups ++ [g]) ellipsis (c :: l).
Proof.
  intros Hg [v Hc]. destruct (span_group g (":"%char :: c :: l) Hg eq_refl) as (ds & Hs & Hv & Hl).
  cbn [ipv6_groups]. rewrite Hs, Hv.
  rewrite (proj2 (Nat.ltb_ge 4 _)) by lia. rewrite (proj2 (Nat.eqb_neq (length ds) 0)) by lia. simpl.
  destruct (Ascii.eqb_spec c ":"%char) as [->|]; [done|done].
Qed.

(** One printed group and an ellipsis. *)
Lemma ipv6_groups_ellipsis n groups g l :
  group_ok g ->
  ipv6_groups (S n) groups None (hex_bytes g ++ ":"%char :: ":"%char :: l)
  = match l with
    | [] => Some (groups ++ [g], Some (length (groups ++ [g])), [])
    | _ => ipv6_groups n (groups ++ [g]) (Some (length (groups ++ [g]))) l
    end.
Proof.
  intros Hg. destruct (span_group g (":"%char :: ":"%char :: l) Hg eq_refl) as (ds & Hs & Hv & Hl).
  cbn [ipv6_groups]. rewrite Hs, Hv.
  rewrite (proj2 (Nat.ltb_ge 4 _)) by lia. by rewrite (proj2 (Nat.eqb_neq (length ds) 0)) by lia.
Qed.

(** Printed groups are read back. *)
Lemma ipv6_groups_join gs n groups ellipsis :
  Forall group_ok gs -> gs <> [] -> (length gs <= n)%nat ->
  ipv6_groups n groups ellipsis (join_groups gs) = Some (groups ++ gs, ellipsis, []).
Proof.
  revert n groups. induction gs as [|g gs IH]; intros n groups Hok Hne Hl; [done|].
  destruct n as [|n]; [simpl in Hl; lia|]. pose proof Hok as [Hg Hgs]%Forall_cons.
  destruct gs as [|g' gs]; [by apply ipv6_groups_end|].
  destruct (join_groups_head g' gs Hgs) as (c & l & E & Hc).
  change (join_groups (g :: g' :: gs)) with (hex_bytes g ++ ":"%char :: join_groups (g' :: gs)).
  rewrite E, ipv6_groups_next by done. rewrite <-E, IH; [by rewrite <-app_assoc|done|done|simpl in *; lia].
Qed.

(** And on both sides of an ellipsis. *)
Lemma ipv6_groups_split gs1 gs2 n groups :
  Forall group_ok gs1 -> Forall group_ok gs2 -> gs1 <> [] -> (length gs1 + length gs2 <= n)%nat ->
  ipv6_groups n groups None (join_groups gs1 ++ ":"%char :: ":"%char :: join_groups gs2)
  = Some (groups ++ gs1 ++ gs2, Some (length groups + length gs1)%nat, []).
Proof.
  revert n groups. induction gs1 as [|g gs1 IH]; intros n groups H1 H2 Hne Hl; [done|].
  destruct n as [|n]; [simpl in Hl; lia|]. pose proof H1 as [Hg Hgs]%Forall_cons.
  destruct gs1 as [|g' gs1].
  - cbn [join_groups]. rewrite ipv6_groups_ellipsis by done. rewrite length_app. simpl. destruct gs2 as [|g2 gs2]; [done|].
    destruct (join_groups_head g2 gs2 H2) as (c & l & E & _). rewrite E.
    rewrite <-E, ipv6_groups_join; [by rewrite <-app_assoc|done|done|simpl in *; lia].
  - destruct (join_groups_head g' gs1 Hgs) as (c & l & E & Hc).
    change (join_groups (g :: g' :: gs1)) with (hex_bytes g ++ ":"%char :: join_groups (g' :: gs1)).
    rewrite <-app_assoc. cbn [app]. rewrite E. cbn [app]. rewrite ipv6_groups_next by done.
    change (c :: l ++ ":"%char :: ":"%char :: join_groups gs2) with ((c :: l) ++ ":"%char :: ":"%char :: join_groups gs2).
    rewrite <-E, IH; [|done|done|done|simpl in *; lia]. rewrite length_app, <-app_assoc. simpl. by rewrite <-(Nat.add_assoc (length groups) 1).
Qed.

(** ** Round trips *)

Lemma parse_ipv6_plain gs :
  Forall group_ok gs -> length gs = 8%nat -> parse_ipv6 (join_groups gs) = Some gs.
Proof.
  intros Hok Hl. destruct gs as [|g gs]; [done|].
  destruct (join_groups_head g gs Hok) as (c & l & E & [v Hc]).
  assert (Hp : parse_ipv6 (c :: l) = expand_groups (ipv6_groups 8 [] None (c :: l))).
  { unfold parse_ipv6. destruct (Ascii.eqb_spec c ":"%char) as [->|Hne]; [done|].
    destruct c as [[] [] [] [] [] [] [] []]; done. }
  rewrite E, Hp, <-E, ipv6_groups_join; [|done|done|lia]. cbn [app expand_groups]. by rewrite Hl.
Qed.

(** [gs1::gs2] stands for the groups with the zeros that are missing between. *)
Lemma parse_ipv6_ellipsis gs1 gs2 :
  Forall group_ok gs1 -> Forall group_ok gs2 -> (length gs1 + length gs2 < 8)%nat ->
  parse_ipv6 (join_groups gs1 ++ ":"%char :: ":"%char :: join_groups gs2)
  = Some (gs1 ++ replicate (8 - (length gs1 + length gs2)) 0 ++ gs2).
Proof.
  intros H1 H2 Hl. destruct gs1 as [|g gs1].
  - cbn [join_groups app]. destruct gs2 as [|g2 gs2]; [done|].
    destruct (join_groups_head g2 gs2 H2) as (c & l & E & _). rewrite E. cbn [parse_ipv6]. rewrite <-E.
    rewrite ipv6_groups_join; [|done|done|simpl in *; lia]. cbn [app expand_groups]. simpl in Hl.
    rewrite (proj2 (Nat.ltb_lt _ 8)) by (simpl; lia). done.
  - destruct (join_groups_head g gs1 H1) as (c & l & E & [v Hc]).
    assert (Hp : forall l, parse_ipv6 (c :: l) = expand_groups (ipv6_groups 8 [] None (c :: l))).
    { intros l'. unfold parse_ipv6. destruct (Ascii.eqb_spec c ":"%char) as [->|Hne]; [done|].
      destruct c as [[] [] [] [] [] [] [] []]; done. }
    rewrite E. cbn [app]. rewrite Hp.
    change (c :: l ++ ":"%char :: ":"%char :: join_groups gs2) with ((c :: l) ++ ":"%char :: ":"%char :: join_groups gs2).
    rewrite <-E, ipv6_groups_split; [|done|done|done|lia]. rewrite app_nil_l. cbn [expand_groups].
    rewrite length_app, (proj2 (Nat.ltb_lt _ 8)) by lia. cbn [length Nat.add].
    rewrite (take_app_length' (g :: gs1)), (drop_app_length' (g :: gs1)) by done. done.
Qed.

(** ** IPv4 *)

Definition octet_ok (n : Z) : Prop := 0 <= n < 256.

Lemma ipv4_fields_digit fields val digits c rest :
  is_digit c = true -> (digits = 1 -> val <> 0) -> val * 10 + (code c - 48) <= 255 ->
  ipv4_fields fields val digits (c :: rest) = ipv4_fields fields (val * 10 + (code c - 48)) (digits + 1) rest.
Proof.
  intros Hc Hz Hv. cbn [ipv4_fields]. rewrite Hc.
  destruct (Z.eqb_spec digits 1) as [Hd|]; [destruct (Z.eqb_spec val 0) as [Hval|]; [by destruct (Hz Hd)|]|];
    simpl; by rewrite (proj2 (Z.ltb_ge 255 _)) by lia.
Qed.

(** The decimal digits of an octet, without a leading zero. *)
Definition octet_text (n : Z) (l : list ascii) : bool :=
  forallb is_digit l &&
  match l with
  | [a] => code a - 48 =? n
  | [a; b] => (1 <=? code a - 48) && ((code a - 48) * 10 + (code b - 48) =? n)
  | [a; b; c] => (1 <=? code a - 48) && (((code a - 48) * 10 + (code b - 48)) * 10 + (code c - 48) =? n)
  | _ => false
  end.

Lemma octet_text_Itoa n : octet_ok n -> octet_text n (bytes (Itoa n)) = true.
Proof.
  intros Hn. assert (Hin : n ∈ seqZ 0 256) by (apply elem_of_seqZ; unfold octet_ok in Hn; lia).
  assert (H : forallb (fun n => octet_text n (bytes (Itoa n))) (seqZ 0 256) = true) by (vm_compute; reflexivity).
  rewrite forallb_forall in H. by apply H, list_elem_of_In.
Qed.

(** A printed octet is consumed whole, whatever follows. *)
Lemma ipv4_fields_octet fields n rest :
  octet_ok n ->
  exists digits, 1 <= digits /\
    ipv4_fields fields 0 0 (bytes (Itoa n) ++ rest) = ipv4_fields fields n digits rest.
Proof.
  intros Hn. pose proof (octet_text_Itoa n Hn) as H. unfold octet_ok in Hn. unfold octet_text in H.
  apply andb_true_iff in H as [Hd H].
  destruct (bytes (Itoa n)) as [|a [|b [|c [|]]]]; try done; cbn [forallb] in Hd; reflect_Z;
    repeat match goal with H : is_digit _ = true |- _ => pose proof (is_digit_code _ H); revert H end; intros; cbn [app].
  - exists 1. split; [lia|]. rewrite ipv4_fields_digit by (done || lia). f_equal; lia.
  - exists 2. split; [lia|]. rewrite !ipv4_fields_digit by (done || lia). f_equal; lia.
  - exists 3. split; [lia|]. rewrite !ipv4_fields_digit by (done || lia). f_equal; lia.
Qed.

(** A printed octet, a dot and more text. *)
Lemma ipv4_fields_dot fields n rest :
  octet_ok n -> (length fields < 3)%nat -> rest <> [] ->
  ipv4_fields fields 0 0 (bytes (Itoa n) ++ "."%char :: rest) = ipv4_fields (fields ++ [n]) 0 0 rest.
Proof.
  intros Hn Hl Hr. destruct (ipv4_fields_octet fields n ("."%char :: rest) Hn) as (digits & Hd & ->).
  cbn [ipv4_fields]. change (is_digit ".") with false. change (Ascii.eqb "." ".") with true. cbn match.
  rewrite (proj2 (Z.eqb_neq digits 0)) by lia. destruct rest as [|c rest]; [done|]. cbn [orb].
  by rewrite (proj2 (Z.eqb_neq _ 3)) by lia.
Qed.

Lemma octet_nonempty n rest : octet_ok n -> bytes (Itoa n) ++ rest <> [].
Proof. intros Hn. pose proof (octet_text_Itoa n Hn) as H. by destruct (bytes (Itoa n)). Qed.

Lemma ipv4_string_bytes a b c d :
  bytes (ipv4_string [a; b; c; d])
  = bytes (Itoa a) ++ "."%char :: bytes (Itoa b) ++ "."%char :: bytes (Itoa c) ++ "."%char :: bytes (Itoa d).
Proof. unfold ipv4_string. csimpl. by rewrite !bytes_append. Qed.

(** A printed IPv4 address is read back. *)
Lemma parse_ipv4_string a b c d :
  Forall octet_ok [a; b; c; d] -> parse_ipv4 (bytes (ipv4_string [a; b; c; d])) = Some [a; b; c; d].
Proof.
  rewrite !Forall_cons. intros (Ha & Hb & Hc & Hd & _). rewrite ipv4_string_bytes. unfold parse_ipv4.
  rewrite !ipv4_fields_dot by (done || (simpl; lia) || by apply octet_nonempty || (rewrite <-(app_nil_r (bytes (Itoa d))); by apply octet_nonempty)).
  destruct (ipv4_fields_octet [a; b; c] d [] Hd) as (digits & Hd1 & E). rewrite app_nil_r in E. simpl. by rewrite E.
Qed.

(** ** Families *)

Lemma addr_family_skip l rest :
  forallb (fun c => negb (in_set ".:%" c)) l = true -> addr_family (l ++ rest) = addr_family rest.
Proof.
  induction l as [|c l IH]; [done|]. cbn [forallb app addr_family]. intros [Hc Hl]%andb_true_iff.
  rewrite (IH Hl). destruct (Ascii.eqb_spec c "."%char) as [->|]; [done|].
  destruct (Ascii.eqb_spec c ":"%char) as [->|]; [done|]. by destruct (Ascii.eqb_spec c "%"%char) as [->|].
Qed.

(** A text that parses as IPv4 consists of digits and dots. *)
Lemma ipv4_fields_charset fields val digits l r :
  ipv4_fields fields val digits l = Some r -> forallb (fun c => is_digit c || Ascii.eqb c ".") l = true.
Proof.
  revert fields val digits. induction l as [|c l IH]; intros fields val digits; [done|].
  cbn [ipv4_fields forallb]. destruct (is_digit c); simpl.
  - destruct (_ && _); [done|]. destruct (255 <? _); [done|]. apply IH.
  - destruct (Ascii.eqb c "."); [|done]. destruct (_ || _); [done|]. destruct (_ =? 3); [done|]. apply IH.
Qed.

(** ** What the parsers return *)

Lemma ipv4_fields_range fields val digits l r :
  Forall octet_ok fields -> octet_ok val -> (length fields <= 3)%nat ->
  ipv4_fields fields val digits l = Some r -> Forall octet_ok r /\ length r = 4%nat.
Proof.
  revert fields val digits. induction l as [|c l IH]; intros fields val digits Hf Hv Hl; cbn [ipv4_fields].
  - destruct (Z.ltb_spec (Z.of_nat (length fields)) 3); [done|]. intros [= <-]. split.
    + apply Forall_app. by split; [|apply Forall_singleton].
    + rewrite length_app. simpl. lia.
  - destruct (is_digit c) eqn:Ec.
    + destruct (_ && _); [done|]. destruct (Z.ltb_spec 255 (val * 10 + (code c - 48))); [done|].
      apply is_digit_code in Ec. apply IH; [done| |done]. unfold octet_ok in *. lia.
    + destruct (Ascii.eqb c "."); [|done]. destruct (_ || _); [done|].
      destruct (Z.eqb_spec (Z.of_nat (length fields)) 3); [done|]. apply IH.
      * apply Forall_app. by split; [|apply Forall_singleton].
      * unfold octet_ok. lia.
      * rewrite length_app. simpl. lia.
Qed.

Lemma parse_ipv4_range l r : parse_ipv4 l = Some r -> Forall octet_ok r /\ length r = 4%nat.
Proof. apply ipv4_fields_range; [constructor|unfold octet_ok; lia|simpl; lia]. Qed.

Lemma hex_value_nibble c d : hex_value c = Some d -> nibble d.
Proof. unfold hex_value, is_digit, in_range. intros H. split_ifs; lia. Qed.

Lemma span_hex_nibbles l : Forall (fun d => nibble d) (span_hex l).1.
Proof.
  induction l as [|c l IH]; [constructor|]. cbn [span_hex]. destruct (hex_value c) as [d|] eqn:E; [|constructor].
  destruct (span_hex l). constructor; [by eapply hex_value_nibble|done].
Qed.

Lemma hex_number_range ds : Forall (fun d => nibble d) ds -> 0 <= hex_number ds < 16 ^ Z.of_nat (length ds).
Proof.
  induction ds as [|d ds IH] using rev_ind; [done|]. intros [Hds [Hd _]%Forall_cons]%Forall_app.
  replace (length (ds ++ [d])) with (S (length ds)) by (rewrite length_app; simpl; lia).
  rewrite hex_number_snoc, Nat2Z.inj_succ, Z.pow_succ_r by lia. specialize (IH Hds). lia.
Qed.

Lemma ipv6_groups_range n groups ellipsis l r e rest :
  Forall group_ok groups -> (n + length groups = 8)%nat ->
  ipv6_groups n groups ellipsis l = Some (r, e, rest) -> Forall group_ok r /\ (length r <= 8)%nat.
Proof.
  revert groups ellipsis l. induction n as [|n IH]; intros groups ellipsis l Hg Hn; cbn [ipv6_groups].
  { intros [= <- _ _]. split; [done|lia]. }
  destruct (span_hex l) as [ds rest0] eqn:Es.
  pose proof (hex_number_range ds) as Hr. pose proof (span_hex_nibbles l) as Hd. rewrite Es in Hd. specialize (Hr Hd).
  destruct (_ || _)%nat eqn:El; [done|]. apply orb_false_iff in El as [El _]. apply Nat.ltb_ge in El.
  assert (Hgr : Forall group_ok (groups ++ [hex_number ds]) /\ (n + length (groups ++ [hex_number ds]) = 8)%nat).
  { split; [apply Forall_app; split; [done|]; apply Forall_singleton|rewrite length_app; simpl; lia].
    unfold group_ok. pose proof (Z.pow_le_mono_r 16 (Z.of_nat (length ds)) 4 ltac:(lia) ltac:(lia)) as Hp.
    change (16 ^ 4) with 65536 in Hp. lia. }
  destruct Hgr as [Hgr Hlen].
  assert (Hdone : forall e' rest', Some (groups ++ [hex_number ds], e', rest') = Some (r, e, rest) ->
    Forall group_ok r /\ (length r <= 8)%nat) by (intros ? ? [= <- _ _]; split; [done|lia]).
  destruct (starts_with "." rest0).
  - destruct (_ && _); [done|]. destruct (Nat.ltb_spec (S n) 2); [done|].
    destruct (parse_ipv4 l) as [[|a [|b [|c [|d [|]]]]]|] eqn:Ep; try done. intros [= <- _ _].
    apply parse_ipv4_range in Ep as [Ho _]. rewrite !Forall_cons in Ho. unfold octet_ok in Ho.
    destruct Ho as (Ha & Hb & Hc & Hdd & _). split; [|rewrite length_app; simpl; lia].
    apply Forall_app. split; [done|]. rewrite !Forall_cons. unfold group_ok. split_and!; try done; lia.
  - destruct rest0 as [|c rest0]; [apply Hdone|]. destruct (negb _); [done|].
    destruct rest0 as [|c' rest0]; [done|]. destruct (Ascii.eqb c' ":"); [|by apply IH].
    destruct ellipsis; [done|]. destruct rest0; [apply Hdone|by apply IH].
Qed.

Lemma expand_groups_range r gs :
  (forall groups e rest, r = Some (groups, e, rest) -> Forall group_ok groups /\ (length groups <= 8)%nat) ->
  expand_groups r = Some gs -> Forall group_ok gs /\ length gs = 8%nat.
Proof.
  intros Hr. destruct r as [[[groups e] [|]]|]; try done. destruct (Hr _ _ _ eq_refl) as [Hg Hl].
  cbn [expand_groups]. destruct (Nat.ltb_spec (length groups) 8); destruct e as [e|]; try done; intros [= <-]; [|split; [done|lia]].
  rewrite !Forall_app, !length_app, length_replicate, length_take, length_drop.
  split; [|lia]. split_and!; [by apply Forall_take| |by apply Forall_drop].
  apply Forall_replicate. unfold group_ok. lia.
Qed.

Lemma parse_ipv6_range l gs : parse_ipv6 l = Some gs -> Forall group_ok gs /\ length gs = 8%nat.
Proof.
  assert (Hz : forall gs, Some (replicate 8 0) = Some gs -> Forall group_ok gs /\ length gs = 8%nat).
  { intros gs' [= <-]. split; [|done]. apply (Forall_replicate _ 8 0). unfold group_ok. lia. }
  assert (He : forall e l gs, expand_groups (ipv6_groups 8 [] e l) = Some gs -> Forall group_ok gs /\ length gs = 8%nat).
  { intros e l' gs'. apply expand_groups_range. intros groups e' rest. by apply ipv6_groups_range. }
  unfold parse_ipv6. repeat case_match; eauto.
Qed.

(** ** net.ParseIP *)

(** The IPv4 address that an IPv6 address maps, if any: ::ffff:0:0/96. *)
Definition To4 (a : Addr) : option (list Z) :=
  match a with
  | IPv4 octets => Some octets
  | IPv6 [0; 0; 0; 0; 0; 65535; g6; g7] => Some [g6 / 256; g6 mod 256; g7 / 256; g7 mod 256]
  | IPv6 _ => None
  end.

(** An address without a zone is what netip.ParseAddr accepts here. *)
Definition ParseIP (s : string) : option Addr := ParseAddr s.

Definition IsLoopback (a : Addr) : bool :=
  match To4 a with
  | Some octets => match octets with o :: _ => o =? 127 | [] => false end
  | None => bool_decide (a = IPv6 [0; 0; 0; 0; 0; 0; 0; 1])
  end.

Definition IsUnspecified (a : Addr) : bool :=
  bool_decide (a = IPv6 [0; 0; 0; 0; 0; 0; 0; 0]) || bool_decide (To4 a = Some [0; 0; 0; 0]).
