(* ===== verification/GoUtf8.v ===== *)
(** * UTF-8 (unicode/utf8): runes of a byte string, their count and validity *)

From S2P Require Import Prelude GoStrings.

Definition continuation (c : ascii) : bool := in_range 128 191 c.

(** The first rune of a byte list: whether it is valid, and its width; an
    invalid byte is a rune of width 1. *)
Definition rune_next (l : list ascii) : bool * nat :=
  match l with
  | [] => (true, 0%nat)
  | c :: l =>
      if code c <? 128 then (true, 1%nat)
      else if in_range 194 223 c then
        match l with
        | c1 :: _ => if continuation c1 then (true, 2%nat) else (false, 1%nat)
        | _ => (false, 1%nat)
        end
      else if in_range 224 239 c then
        match l with
        | c1 :: c2 :: _ =>
            if in_range (if code c =? 224 then 160 else 128) (if code c =? 237 then 159 else 191) c1
               && continuation c2
            then (true, 3%nat) else (false, 1%nat)
        | _ => (false, 1%nat)
        end
      else if in_range 240 244 c then
        match l with
        | c1 :: c2 :: c3 :: _ =>
            if in_range (if code c =? 240 then 144 else 128) (if code c =? 244 then 143 else 191) c1
               && continuation c2 && continuation c3
            then (true, 4%nat) else (false, 1%nat)
        | _ => (false, 1%nat)
        end
      else (false, 1%nat)
  end.

(** The runes of a string in order; one turn per byte is enough. *)
Fixpoint runes_fuel (fuel : nat) (l : list ascii) : list (bool * list ascii) :=
  match fuel, l with
  | S fuel, _ :: _ =>
      let '(ok, w) := rune_next l in (ok, take w l) :: runes_fuel fuel (drop w l)
  | _, _ => []
  end.

Definition runes (s : string) : list (bool * list ascii) :=
  let l := bytes s in runes_fuel (length l) l.

Definition RuneCountInString (s : string) : Z := Z.of_nat (length (runes s)).
Definition ValidString (s : string) : bool := forallb fst (runes s).

(** The code point of a rune; an invalid byte is U+FFFD. *)
Definition rune_value (r : bool * list ascii) : Z :=
  match r with
  | (true, [a]) => code a
  | (true, [a; b]) => (code a - 192) * 64 + (code b - 128)
  | (true, [a; b; c]) => ((code a - 224) * 64 + (code b - 128)) * 64 + (code c - 128)
  | (true, [a; b; c; d]) =>
      (((code a - 240) * 64 + (code b - 128)) * 64 + (code c - 128)) * 64 + (code d - 128)
  | _ => 65533
  end.

(** strings.IndexFunc(s, p) >= 0 *)
Definition ContainsRune (p : Z -> bool) (s : string) : bool := existsb (fun r => p (rune_value r)) (runes s).

(** unicode.IsControl and unicode.IsSpace. *)
Definition IsControl (r : Z) : bool := (r <=? 31) || ((127 <=? r) && (r <=? 159)).

Definition IsSpace (r : Z) : bool :=
  ((9 <=? r) && (r <=? 13))
  || existsb (Z.eqb r) [32; 133; 160; 5760; 8232; 8233; 8239; 8287; 12288]
  || ((8192 <=? r) && (r <=? 8202)).

(** ** Lemmas *)

Lemma rune_next_width c l : (1 <= snd (rune_next (c :: l)) <= length (c :: l))%nat.
Proof. unfold rune_next. repeat case_match; simpl; lia. Qed.

Lemma join_cons {A} (l : list A) ls : mjoin (l :: ls) = l ++ mjoin ls.
Proof. done. Qed.

(** The runes split the bytes. *)
Lemma runes_concat s : mjoin (snd <$> runes s) = bytes s.
Proof.
  unfold runes. generalize (bytes s) as l. intros l.
  assert (H : forall fuel l, (length l <= fuel)%nat -> mjoin (snd <$> runes_fuel fuel l) = l); [|by apply H].
  clear l. induction fuel as [|fuel IH]; intros [|c l] Hl; simpl in Hl; try done; [lia|].
  cbn [runes_fuel]. pose proof (rune_next_width c l) as Hw. destruct (rune_next (c :: l)) as [ok w].
  cbn [snd] in Hw. rewrite fmap_cons, join_cons. cbn [snd]. rewrite IH; [apply take_drop|].
  rewrite length_drop. simpl in *. lia.
Qed.

Lemma runes_nonempty s ok r : (ok, r) ∈ runes s -> (1 <= length r)%nat.
Proof.
  unfold runes. generalize (length (bytes s)) as fuel. generalize (bytes s) as l. intros l fuel.
  revert l. induction fuel as [|fuel IH]; intros [|c l]; cbn [runes_fuel]; try by intros ?%elem_of_nil.
  pose proof (rune_next_width c l) as Hw. destruct (rune_next (c :: l)) as [ok' w].
  intros [Heq|Hin]%elem_of_cons; [|by eapply IH]. injection Heq as -> ->.
  rewrite length_take. simpl in *. lia.
Qed.

(** A string has at most as many runes as bytes. *)
Lemma RuneCountInString_le s : 0 <= RuneCountInString s <= len s.
Proof.
  unfold RuneCountInString, len. split; [lia|].
  assert (E : String.length s = length (bytes s)).
  { unfold bytes. induction s; simpl; [done|]. by f_equal. }
  rewrite E, <-runes_concat. pose proof (runes_nonempty s) as Hne.
  induction (runes s) as [|[ok r] l IH]; [simpl; lia|].
  rewrite fmap_cons, join_cons, length_app. cbn [snd length].
  pose proof (Hne ok r (list_elem_of_here _ _)).
  assert (Z.of_nat (length l) <= Z.of_nat (length (mjoin (snd <$> l)))); [|lia].
  apply IH. intros ok' r' Hin. apply (Hne ok'). by right.
Qed.

(** ASCII text is its own runes. *)
Lemma runes_ascii s :
  forallb (fun c => code c <? 128) (bytes s) = true -> runes s = (fun c => (true, [c])) <$> bytes s.
Proof.
  unfold runes. generalize (bytes s). intros l. induction l as [|c l IH]; [done|].
  cbn [forallb]. intros [Hc Hl]%andb_true_iff. specialize (IH Hl). cbn zeta in *.
  cbn [length runes_fuel rune_next]. rewrite Hc. cbn [take drop].
  rewrite drop_0. by rewrite IH.
Qed.

Lemma ValidString_ascii s : forallb (fun c => code c <? 128) (bytes s) = true -> ValidString s = true.
Proof. intros H. unfold ValidString. rewrite runes_ascii by done. clear H. by induction (bytes s). Qed.

Lemma ContainsRune_ascii p s :
  forallb (fun c => code c <? 128) (bytes s) = true -> ContainsRune p s = existsb (fun c => p (code c)) (bytes s).
Proof.
  intros H. unfold ContainsRune. rewrite runes_ascii by done. clear H. induction (bytes s) as [|c l IH]; [done|].
  csimpl. by rewrite IH.
Qed.
