(* ===== verification/GoSort.v ===== *)
(** * Sorting: package sort, SQL [ORDER BY], and the orders they use

    [sort_by less] is the stable sort of a slice for a [less] function; with an
    order that is total on the keys it is also what sort.Slice and [ORDER BY]
    produce. *)

From S2P Require Import Prelude GoStrings.
From Stdlib Require Import Sorted.

(** A strict weak order given as Go's [less] function. *)
Class WeakOrder {A} (less : A -> A -> bool) : Prop := {
  less_irrefl a : less a a = false;
  less_asym a b : less a b = true -> less b a = false;
  ngt_trans a b c : less b a = false -> less c b = false -> less c a = false;
}.

(** Rows with distinct keys are determined by their keys. *)
Lemma NoDup_key_inj {A K} (key : A -> K) l a b :
  NoDup (key <$> l) -> a ∈ l -> b ∈ l -> key a = key b -> a = b.
Proof.
  intros Hnd [i Hi]%list_elem_of_lookup [j Hj]%list_elem_of_lookup E.
  assert (i = j) as ->; [|congruence].
  apply (NoDup_lookup _ i j (key a) Hnd); rewrite list_lookup_fmap; [by rewrite Hi|by rewrite Hj, E].
Qed.

Section sorting.
Context {A : Type} (less : A -> A -> bool).

(** Insert [x] in front of the first element that is not below it. *)
Fixpoint insert_by (x : A) (l : list A) : list A :=
  match l with
  | [] => [x]
  | y :: l' => if less y x then y :: insert_by x l' else x :: l
  end.

Definition sort_by (l : list A) : list A := foldr insert_by [] l.

(** [a] may stand before [b]. *)
Definition before (a b : A) : Prop := less b a = false.

Lemma insert_by_perm x l : insert_by x l ≡ₚ x :: l.
Proof.
  induction l as [|y l IH]; simpl; [done|]. destruct (less y x); [|done].
  rewrite IH. apply Permutation_swap.
Qed.

Lemma sort_by_perm l : sort_by l ≡ₚ l.
Proof. induction l as [|x l IH]; simpl; [done|]. by rewrite insert_by_perm, IH. Qed.

Lemma sort_by_length l : length (sort_by l) = length l.
Proof. apply Permutation_length, sort_by_perm. Qed.

Lemma sort_by_elem l x : x ∈ sort_by l <-> x ∈ l.
Proof. by rewrite sort_by_perm. Qed.

(** Elements the order does not separate from [x] keep their places. *)
Lemma insert_by_filter (P : A -> bool) x l :
  P x = false -> List.filter P (insert_by x l) = List.filter P l.
Proof.
  intros Hx. induction l as [|y l IH]; simpl; [by rewrite Hx|].
  destruct (less y x); simpl; [by rewrite IH|by rewrite Hx].
Qed.

(** Two orders that agree on the elements sort them the same way. *)
Lemma insert_by_subset x l y : y ∈ insert_by x l <-> y = x \/ y ∈ l.
Proof. rewrite insert_by_perm. apply elem_of_cons. Qed.

Context `{!WeakOrder less}.

Lemma before_total a b : before a b \/ before b a.
Proof. unfold before. destruct (less b a) eqn:E; [right|by left]. by apply less_asym. Qed.

Lemma insert_by_sorted x l : StronglySorted before l -> StronglySorted before (insert_by x l).
Proof.
  induction 1 as [|y l Hl IH Hy]; simpl; [by repeat constructor|].
  destruct (less y x) eqn:E.
  - constructor; [done|]. rewrite insert_by_perm. constructor; [by apply less_asym|done].
  - constructor; [by constructor|]. constructor; [done|].
    eapply Forall_impl; [exact Hy|]. intros z Hz. unfold before in *. by eapply ngt_trans.
Qed.

Lemma sort_by_sorted l : StronglySorted before (sort_by l).
Proof. induction l; simpl; [constructor|by apply insert_by_sorted]. Qed.

(** A sorted list of elements that the order separates is determined by its
    elements, so a sort by a key without ties has one result. *)
Lemma sorted_unique l1 l2 :
  StronglySorted before l1 -> StronglySorted before l2 -> l1 ≡ₚ l2 ->
  (forall a b, a ∈ l1 -> b ∈ l1 -> before a b -> before b a -> a = b) -> l1 = l2.
Proof.
  revert l2. induction l1 as [|x l1 IH]; intros l2 H1 H2 Hp Hu.
  { by apply Permutation_nil in Hp. }
  destruct l2 as [|y l2]; [by apply Permutation_sym, Permutation_nil in Hp|].
  apply StronglySorted_inv in H1 as [H1 Hx]. apply StronglySorted_inv in H2 as [H2 Hy].
  rewrite Forall_forall in Hx, Hy.
  assert (x = y) as ->.
  { assert (Hxy : x ∈ y :: l2) by (rewrite <-Hp; left).
    assert (Hyx : y ∈ x :: l1) by (rewrite Hp; left).
    apply elem_of_cons in Hxy as [?|Hxy]; [done|]. apply elem_of_cons in Hyx as [?|Hyx]; [done|].
    apply Hu; [by left|by right|by apply Hx|by apply Hy]. }
  f_equal. apply Permutation_cons_inv in Hp. apply IH; try done.
  intros a b Ha Hb. apply Hu; by right.
Qed.

Lemma sort_by_unique l1 l2 :
  l1 ≡ₚ l2 -> (forall a b, a ∈ l1 -> b ∈ l1 -> before a b -> before b a -> a = b) ->
  sort_by l1 = sort_by l2.
Proof.
  intros Hp Hu. apply sorted_unique; try apply sort_by_sorted.
  - by rewrite !sort_by_perm.
  - intros a b. rewrite !sort_by_elem. apply Hu.
Qed.

(** Keyset pagination: when the order separates the elements, those greater than
    the [i]-th of the sorted list are exactly the ones after it. *)
Lemma sort_by_after l i x :
  NoDup l -> (forall a b, a ∈ l -> b ∈ l -> before a b -> before b a -> a = b) ->
  sort_by l !! i = Some x -> List.filter (less x) (sort_by l) = drop (S i) (sort_by l).
Proof.
  intros Hnd Hu Hi. pose proof (sort_by_sorted l) as Hs.
  assert (Hk : NoDup (sort_by l)) by (by rewrite sort_by_perm).
  assert (Hin : forall a, a ∈ sort_by l -> a ∈ l) by (intros a; apply sort_by_elem).
  rewrite <-(take_drop_middle _ _ _ Hi) in Hs, Hk, Hin |- *. apply lookup_lt_Some in Hi.
  assert (Hl : length (take i (sort_by l)) = i) by (rewrite length_take; lia).
  set (l1 := take i (sort_by l)) in *. clearbody l1. set (l2 := drop (S i) (sort_by l)) in *. clearbody l2.
  rewrite <-Hl. replace (drop (S (length l1)) (l1 ++ x :: l2)) with l2
    by (rewrite drop_app_ge by lia; by replace (S (length l1) - length l1)%nat with 1%nat by lia).
  apply StronglySorted_app in Hs as (Hcross & _ & Hs2). apply StronglySorted_inv in Hs2 as [_ Hx].
  apply NoDup_app in Hk as (_ & _ & Hk). apply NoDup_cons in Hk as [Hxn _]. rewrite Forall_forall in Hx.
  rewrite List.filter_app. cbn [List.filter]. rewrite less_irrefl.
  replace (List.filter (less x) l1) with (@nil A).
  - simpl. apply List.forallb_filter_id, List.forallb_forall. intros y Hy%list_elem_of_In.
    destruct (less x y) eqn:E; [done|]. destruct Hxn. rewrite (Hu x y); [done|..].
    + apply Hin. set_solver.
    + apply Hin. set_solver.
    + by apply Hx.
    + done.
  - symmetry. clear -Hcross. induction l1 as [|y l1 IH]; [done|]. cbn [List.filter].
    assert (H := Hcross y x ltac:(by left) ltac:(by left)). unfold before in H. rewrite H.
    apply IH. intros a b Ha Hb. apply Hcross; [by right|done].
Qed.

(** Selecting and sorting commute. *)
Lemma insert_by_select (P : A -> bool) x l :
  StronglySorted before l -> P x = true -> List.filter P (insert_by x l) = insert_by x (List.filter P l).
Proof.
  intros Hs Hx. induction Hs as [|y l Hs IH Hy]; [simpl; by rewrite Hx|]. cbn [insert_by List.filter].
  destruct (less y x) eqn:E; cbn [List.filter].
  - rewrite IH. destruct (P y); [|done]. cbn [insert_by]. by rewrite E.
  - rewrite Hx. destruct (P y); [cbn [insert_by]; by rewrite E|].
    assert (Hf : Forall (before x) (List.filter P l)).
    { apply Forall_forall. intros z Hz%list_elem_of_In. apply List.filter_In in Hz as [Hz%list_elem_of_In _].
      rewrite Forall_forall in Hy. unfold before in *. eapply ngt_trans; [exact E|by apply Hy]. }
    destruct Hf as [|z l' Hz _]; [done|]. cbn [insert_by]. unfold before in Hz. by rewrite Hz.
Qed.

Lemma sort_by_filter (P : A -> bool) l : sort_by (List.filter P l) = List.filter P (sort_by l).
Proof.
  induction l as [|x l IH]; [done|]. change (sort_by (x :: l)) with (insert_by x (sort_by l)). cbn [List.filter].
  destruct (P x) eqn:E; [|by rewrite insert_by_filter].
  rewrite insert_by_select by (done || apply sort_by_sorted). by rewrite <-IH.
Qed.

(** A prefix of the sorted list is before the rest. *)
Lemma sort_by_take_before l n a b :
  a ∈ take n (sort_by l) -> b ∈ drop n (sort_by l) -> before a b.
Proof.
  pose proof (sort_by_sorted l) as Hs. rewrite <-(take_drop n) in Hs.
  apply StronglySorted_app in Hs as [Hs _]. auto.
Qed.
End sorting.

Lemma insert_by_ext {A} (less less' : A -> A -> bool) x l :
  (forall y, y ∈ l -> less y x = less' y x) -> insert_by less x l = insert_by less' x l.
Proof.
  induction l as [|y l IH]; intros H; simpl; [done|]. rewrite (H y) by by left.
  destruct (less' y x); [|done]. f_equal. apply IH. intros z Hz. apply H. by right.
Qed.

Lemma sort_by_ext {A} (less less' : A -> A -> bool) l :
  (forall x y, x ∈ l -> y ∈ l -> less x y = less' x y) -> sort_by less l = sort_by less' l.
Proof.
  induction l as [|x l IH]; intros H; simpl; [done|].
  rewrite IH by (intros; apply H; by right). apply insert_by_ext.
  intros y Hy. apply sort_by_elem in Hy. apply H; [by right|by left].
Qed.

(** ** String order *)

Lemma ascii_compare_spec a b :
  Ascii.compare a b = N.compare (N_of_ascii a) (N_of_ascii b).
Proof. done. Qed.

Lemma string_compare_refl s : String.compare s s = Eq.
Proof.
  induction s as [|a s IH]; simpl; [done|]. by rewrite ascii_compare_spec, N.compare_refl.
Qed.

Lemma string_compare_lt_trans a b c :
  String.compare a b = Lt -> String.compare b c = Lt -> String.compare a c = Lt.
Proof.
  revert b c. induction a as [|x a IH]; intros [|y b] [|z c]; simpl; try done.
  rewrite !ascii_compare_spec.
  destruct (N.compare_spec (N_of_ascii x) (N_of_ascii y)) as [E1|E1|E1],
    (N.compare_spec (N_of_ascii y) (N_of_ascii z)) as [E2|E2|E2]; try done;
    destruct (N.compare_spec (N_of_ascii x) (N_of_ascii z)) as [E3|E3|E3]; try lia; eauto.
Qed.

Lemma str_ltb_irrefl s : str_ltb s s = false.
Proof. unfold str_ltb, String.ltb. by rewrite string_compare_refl. Qed.

Lemma str_ltb_true a b : str_ltb a b = true <-> String.compare a b = Lt.
Proof. unfold str_ltb, String.ltb. by destruct (String.compare a b). Qed.

Lemma str_ltb_trans a b c : str_ltb a b = true -> str_ltb b c = true -> str_ltb a c = true.
Proof. rewrite !str_ltb_true. apply string_compare_lt_trans. Qed.

Lemma str_ltb_total a b : str_ltb a b = false -> str_ltb b a = false -> a = b.
Proof.
  unfold str_ltb, String.ltb. rewrite (String.compare_antisym b a).
  destruct (String.compare a b) eqn:E; simpl; try done. intros _ _.
  by apply String.compare_eq_iff.
Qed.

#[export] Instance str_ltb_order : WeakOrder str_ltb.
Proof.
  split.
  - apply str_ltb_irrefl.
  - intros a b H. destruct (str_ltb b a) eqn:E; [|done].
    pose proof (str_ltb_trans a b a H E) as H'. by rewrite str_ltb_irrefl in H'.
  - intros a b c H1 H2. destruct (str_ltb c a) eqn:E; [|done].
    destruct (str_ltb a b) eqn:E1.
    + pose proof (str_ltb_trans _ _ _ E E1). congruence.
    + pose proof (str_ltb_total a b E1 H1) as ->. congruence.
Qed.

(** [ORDER BY flag DESC] *)
Definition bool_desc (a b : bool) : bool := a && negb b.

#[export] Instance bool_desc_order : WeakOrder bool_desc.
Proof. split; intros; repeat match goal with b : bool |- _ => destruct b end; done. Qed.

#[export] Instance Z_ltb_order : WeakOrder Z.ltb.
Proof. split; intros; reflect_Z; try apply Z.ltb_ge; try lia. Qed.

(** Lexicographic order on two keys. *)
Definition less_then {A K1 K2} (k1 : A -> K1) (less1 : K1 -> K1 -> bool)
    (k2 : A -> K2) (less2 : K2 -> K2 -> bool) (a b : A) : bool :=
  if less1 (k1 a) (k1 b) then true
  else if less1 (k1 b) (k1 a) then false
  else less2 (k2 a) (k2 b).

#[export] Instance less_then_order {A K1 K2} (k1 : A -> K1) less1 (k2 : A -> K2) less2 :
  WeakOrder less1 -> WeakOrder less2 -> WeakOrder (less_then k1 less1 k2 less2).
Proof.
  intros H1 H2. unfold less_then. split.
  - intros a. by rewrite !less_irrefl.
  - intros a b. destruct (less1 (k1 a) (k1 b)) eqn:E1.
    + by rewrite (less_asym _ _ E1).
    + destruct (less1 (k1 b) (k1 a)); [done|]. apply less_asym.
  - intros a b c.
    destruct (less1 (k1 b) (k1 a)) eqn:Eba; [done|].
    destruct (less1 (k1 c) (k1 b)) eqn:Ecb; [done|].
    rewrite (ngt_trans _ _ _ Eba Ecb).
    destruct (less1 (k1 a) (k1 c)) eqn:Eac; [done|].
    destruct (less1 (k1 a) (k1 b)) eqn:Eab.
    { by rewrite (ngt_trans _ _ _ Ecb Eac) in Eab. }
    destruct (less1 (k1 b) (k1 c)) eqn:Ebc.
    { by rewrite (ngt_trans _ _ _ Eac Eba) in Ebc. }
    intros. by eapply ngt_trans.
Qed.

Definition less_on {A K} (key : A -> K) (less : K -> K -> bool) (a b : A) : bool :=
  less (key a) (key b).

#[export] Instance less_on_order {A K} (key : A -> K) less :
  WeakOrder less -> WeakOrder (less_on key less).
Proof.
  unfold less_on. intros H. split; intros.
  - apply less_irrefl.
  - by apply less_asym.
  - by eapply ngt_trans.
Qed.

(** Descending order. *)
Definition flip_less {A} (less : A -> A -> bool) (a b : A) : bool := less b a.

#[export] Instance flip_less_order {A} (less : A -> A -> bool) :
  WeakOrder less -> WeakOrder (flip_less less).
Proof.
  unfold flip_less. intros H. split; intros.
  - apply less_irrefl.
  - by apply less_asym.
  - by eapply ngt_trans.
Qed.

(** sort.Strings *)
Definition sort_strings (l : list string) : list string := sort_by str_ltb l.

Lemma sort_strings_unique l1 l2 : l1 ≡ₚ l2 -> sort_strings l1 = sort_strings l2.
Proof.
  intros Hp. apply sort_by_unique; [apply _|done|]. intros a b _ _. unfold before.
  intros. symmetry. by apply str_ltb_total.
Qed.

#[export] Typeclasses Opaque less_then less_on flip_less str_ltb Z.ltb bool_desc.
