(* ===== verification/GoCrypto.v ===== *)
(** * crypto/sha256 and encoding/hex

    FIPS 180-4 SHA-256 on byte lists, with 32-bit words as integers. *)

From S2P Require Import Prelude GoStrings.

Definition w32 (z : Z) : Z := z mod 2 ^ 32.
Definition rotr (x n : Z) : Z := w32 (Z.lor (Z.shiftr x n) (Z.shiftl x (32 - n))).
Definition not32 (x : Z) : Z := 2 ^ 32 - 1 - x.

(** The constants are derived as the standard derives them: the first 32 bits
    of the fractional parts of the square and cube roots of the first primes. *)
Definition prime_test (n : Z) : bool :=
  forallb (fun d => negb (n mod (2 + Z.of_nat d) =? 0)) (seq 0 (Z.to_nat (n - 2))).

Definition primes_below (n : nat) : list Z :=
  filter (fun p => prime_test p = true) ((fun k => 2 + Z.of_nat k) <$> seq 0 (n - 2)).

(** The integer cube root of [n], bit by bit from bit [k] down. *)
Fixpoint cube_root_from (k : nat) (root n : Z) : Z :=
  let with_bit := root + 2 ^ Z.of_nat k in
  let root := if with_bit ^ 3 <=? n then with_bit else root in
  match k with O => root | S k => cube_root_from k root n end.

Definition sha_K : list Z := Eval vm_compute in
  (fun p => w32 (cube_root_from 36 0 (p * 2 ^ 96))) <$> primes_below 312.

Definition sha_H0 : list Z := Eval vm_compute in
  (fun p => w32 (Z.sqrt (p * 2 ^ 64))) <$> primes_below 20.

(** [n] bytes of [z], most significant first. *)
Fixpoint be_bytes (n : nat) (z : Z) : list Z :=
  match n with
  | O => []
  | S n => (z / 256 ^ Z.of_nat n) mod 256 :: be_bytes n z
  end.

Definition be_word (l : list Z) : Z := fold_left (fun a b => a * 256 + b) l 0.

Definition sha_pad (m : list Z) : list Z :=
  let n := Z.of_nat (length m) in
  m ++ 128 :: repeat 0 (Z.to_nat ((55 - n) mod 64)) ++ be_bytes 8 (n * 8).

(** Split into chunks of [k] elements. *)
Fixpoint chunks_of {A} (fuel k : nat) (l : list A) : list (list A) :=
  match fuel, l with
  | S fuel, _ :: _ => take k l :: chunks_of fuel k (drop k l)
  | _, _ => []
  end.

(** The message schedule, newest word first. *)
Fixpoint sha_extend (n : nat) (w : list Z) : list Z :=
  match n with
  | O => w
  | S n =>
      let at_ k := nth k w 0 in
      let s0 := Z.lxor (Z.lxor (rotr (at_ 14%nat) 7) (rotr (at_ 14%nat) 18))
                       (Z.shiftr (at_ 14%nat) 3) in
      let s1 := Z.lxor (Z.lxor (rotr (at_ 1%nat) 17) (rotr (at_ 1%nat) 19))
                       (Z.shiftr (at_ 1%nat) 10) in
      sha_extend n (w32 (at_ 15%nat + s0 + at_ 6%nat + s1) :: w)
  end.

Definition sha_round (st : list Z) (kw : Z * Z) : list Z :=
  match st with
  | [a; b; c; d; e; f; g; h] =>
      let S1 := Z.lxor (Z.lxor (rotr e 6) (rotr e 11)) (rotr e 25) in
      let ch := Z.lxor (Z.land e f) (Z.land (not32 e) g) in
      let t1 := w32 (h + S1 + ch + fst kw + snd kw) in
      let S0 := Z.lxor (Z.lxor (rotr a 2) (rotr a 13)) (rotr a 22) in
      let maj := Z.lxor (Z.lxor (Z.land a b) (Z.land a c)) (Z.land b c) in
      [w32 (t1 + S0 + maj); a; b; c; w32 (d + t1); e; f; g]
  | _ => st
  end.

Definition sha_block (st : list Z) (block : list Z) : list Z :=
  let w := rev (sha_extend 48 (rev (be_word <$> chunks_of 16 4 block))) in
  zip_with (fun x y => w32 (x + y)) st (fold_left sha_round (zip sha_K w) st).

Definition sha256 (m : list Z) : list Z :=
  let p := sha_pad m in
  fold_left sha_block (chunks_of (length p) 64 p) sha_H0 ≫= be_bytes 4.

Definition hex_digit (d : Z) : ascii :=
  ascii_of_nat (Z.to_nat (if d <? 10 then 48 + d else 87 + d)).

(** hex.EncodeToString *)
Definition hex (l : list Z) : string :=
  of_bytes (l ≫= fun b => [hex_digit (b / 16); hex_digit (b mod 16)]).

Definition byte_values (s : string) : list Z := (fun c => code c) <$> bytes s.

(** The lower-case hexadecimal SHA-256 digest of a string. *)
Definition sha256Hex (s : string) : string := hex (sha256 (byte_values s)).

Example sha256_abc :
  sha256Hex "abc" = "ba7816bf8f01cfea414140de5dae2223b00361a396177a9cb410ff61f20015ad".
Proof. vm_compute. reflexivity. Qed.

Example sha256_empty :
  sha256Hex "" = "e3b0c44298fc1c149afbf4c8996fb92427ae41e4649b934ca495991b7852b855".
Proof. vm_compute. reflexivity. Qed.
