(* ===== verification/GoFloats.v ===== *)
(** * IEEE 754 arithmetic for float32 and float64

    Corelib's [SpecFloat] is the executable specification of IEEE arithmetic
    with round-to-nearest-even, at any precision: 24/128 is float32, 53/1024 is
    float64.  There is one NaN. *)

From S2P Require Import Prelude GoSort.
From Stdlib Require Export Floats.SpecFloat.

Notation float32 := spec_float (only parsing).
Notation float64 := spec_float (only parsing).

Definition f32_add : float32 -> float32 -> float32 := SFadd 24 128.
Definition f32_mul : float32 -> float32 -> float32 := SFmul 24 128.
Definition f32_div : float32 -> float32 -> float32 := SFdiv 24 128.
Definition f64_add : float64 -> float64 -> float64 := SFadd 53 1024.
Definition f64_sub : float64 -> float64 -> float64 := SFsub 53 1024.
Definition f64_mul : float64 -> float64 -> float64 := SFmul 53 1024.
Definition f64_div : float64 -> float64 -> float64 := SFdiv 53 1024.

(** Conversion of an integer, and rounding of a float64 to float32; a float32
    is a float64 as it is. *)
Definition f32_of_Z (z : Z) : float32 := binary_normalize 24 128 z 0 false.
Definition f64_of_Z (z : Z) : float64 := binary_normalize 53 1024 z 0 false.

Definition f32_of_f64 (x : float64) : float32 :=
  match x with
  | S754_finite s m e => binary_normalize 24 128 (cond_Zopp s (Zpos m)) e s
  | _ => x
  end.

Definition f64_of_f32 (x : float32) : float64 :=
  match x with
  | S754_finite s m e => binary_normalize 53 1024 (cond_Zopp s (Zpos m)) e s
  | _ => x
  end.

Definition f_zero : spec_float := S754_zero false.

Definition is_nan (x : spec_float) : bool := match x with S754_nan => true | _ => false end.
Definition is_inf (x : spec_float) : bool := match x with S754_infinity _ => true | _ => false end.

Definition f_eqb : spec_float -> spec_float -> bool := SFeqb.
Definition f_ltb : spec_float -> spec_float -> bool := SFltb.
(** [x > y] *)
Definition f_gtb (x y : spec_float) : bool := SFltb y x.

Example f32_third_sum :
  f32_add (f32_div (f32_of_Z 1) (f32_of_Z 3)) (f32_div (f32_of_Z 1) (f32_of_Z 3)) =
  f32_div (f32_of_Z 2) (f32_of_Z 3).
Proof. vm_compute. reflexivity. Qed.

(** ** The order of the non-NaN values

    Comparison as a lexicographic order on three integers: the class of the
    value (infinities, signs, zero), the signed exponent, the signed mantissa. *)

Definition sf_class (x : spec_float) : Z :=
  match x with
  | S754_infinity true => -2
  | S754_finite true _ _ => -1
  | S754_zero _ | S754_nan => 0
  | S754_finite false _ _ => 1
  | S754_infinity false => 2
  end.

Definition sf_exponent (x : spec_float) : Z :=
  match x with S754_finite s _ e => if s then - e else e | _ => 0 end.

Definition sf_mantissa (x : spec_float) : Z :=
  match x with S754_finite s m _ => if s then Z.neg m else Z.pos m | _ => 0 end.

Definition sf_less : spec_float -> spec_float -> bool :=
  less_then sf_class Z.ltb id (less_then sf_exponent Z.ltb sf_mantissa Z.ltb).

#[export] Instance sf_less_order : WeakOrder sf_less.
Proof. apply less_then_order; [apply Z_ltb_order|]. apply less_then_order; apply Z_ltb_order. Qed.

#[export] Typeclasses Opaque sf_less.

(** On values that are not NaN, [<] is that order, and [==] its ties. *)
Lemma f_ltb_less x y : is_nan x = false -> is_nan y = false -> f_ltb x y = sf_less x y.
Proof.
  intros Hx Hy. unfold f_ltb, SFltb, sf_less, less_then, id.
  destruct x as [sx|sx| |sx mx ex], y as [sy|sy| |sy my ey]; try done;
    destruct sx, sy; try done; simpl;
    destruct (Z.compare_spec ex ey) as [->|He|He]; rewrite ?Z.ltb_irrefl;
    repeat match goal with
    | |- context [?a <? ?b] => destruct (Z.ltb_spec a b); try lia
    end; try done; fold (Pos.compare mx my); destruct (Pos.compare_spec mx my); try lia; try done.
Qed.

(** ** Values between 0 and 1 *)

Definition is_float64 (x : float64) : Prop := valid_binary 53 1024 x = true.

(** Zero, or [m * 2 ^ e] that is not above 1. *)
Definition unit_value (x : float64) : Prop :=
  match x with
  | S754_zero _ => True
  | S754_finite false m e => e <= 0 /\ Z.pos m <= 2 ^ (- e)
  | _ => False
  end.

Lemma digits2_pos_bounds m : 2 ^ (Z.pos (digits2_pos m) - 1) <= Z.pos m < 2 ^ Z.pos (digits2_pos m).
Proof.
  induction m as [m IH|m IH|]; cbn [digits2_pos]; [| |done]; rewrite Pos2Z.inj_succ;
    replace (Z.succ (Z.pos (digits2_pos m)) - 1) with (Z.succ (Z.pos (digits2_pos m) - 1)) by lia;
    rewrite !Z.pow_succ_r by lia; lia.
Qed.

(** The mantissa of a float64 has 53 bits, unless the exponent is the least. *)
Lemma float64_mantissa s m e : is_float64 (S754_finite s m e) -> Z.pos m < 2 ^ 53 /\ (-1074 < e -> 2 ^ 52 <= Z.pos m).
Proof.
  unfold is_float64, valid_binary, bounded, canonical_mantissa, fexp, emin. rewrite andb_true_iff, Z.eqb_eq.
  intros [H _]. pose proof (digits2_pos_bounds m) as [H1 H2]. split.
  - eapply Z.lt_le_trans; [exact H2|]. apply Z.pow_le_mono_r; lia.
  - intros He. eapply Z.le_trans; [|exact H1]. apply Z.pow_le_mono_r; lia.
Qed.

(** Neither below 0 nor above 1: not a number, or between them. *)
Lemma between_zero_one x :
  is_float64 x -> (f_ltb x f_zero = false /\ f_gtb x (f64_of_Z 1) = false <-> x = S754_nan \/ unit_value x).
Proof.
  intros Hx. assert (E : f64_of_Z 1 = S754_finite false (2 ^ 52) (-52)) by (vm_compute; reflexivity). rewrite E. clear E.
  unfold f_ltb, f_gtb, SFltb. destruct x as [[]|[]| |[] m e]; cbn [SFcompare f_zero unit_value]; try (intuition congruence).
  apply float64_mantissa in Hx as [H1 H2].
  enough ((e < -52 \/ e = -52 /\ Z.pos m <= 2 ^ 52) <-> e <= 0 /\ Z.pos m <= 2 ^ (- e)) as H.
  { destruct (Z.compare_spec (-52) e) as [<-|He|He].
    - fold (Pos.compare (2 ^ 52) m). destruct (Pos.compare_spec (2 ^ 52) m); split; intros; try done; intuition (try congruence; try lia).
    - split; [intros [_ ?]; done|]. intros [?|?]; [done|]. lia.
    - split; [intros _; right; apply H; lia|done]. }
  split.
  - intros [He|[-> Hm]]; [|done]. split; [lia|]. apply Z.lt_le_incl. eapply Z.lt_le_trans; [exact H1|]. apply Z.pow_le_mono_r; lia.
  - intros [He Hm]. destruct (Z.lt_trichotomy e (-52)) as [?|[->|He']]; [by left|by right|exfalso].
    specialize (H2 ltac:(lia)). assert (2 ^ (- e) <= 2 ^ 51) by (apply Z.pow_le_mono_r; lia).
    assert (2 ^ 51 < 2 ^ 52) by lia. lia.
Qed.

Lemma f_eqb_ties x y : is_nan x = false -> is_nan y = false ->
  f_eqb x y = negb (f_ltb x y) && negb (f_ltb y x).
Proof.
  intros Hx Hy. unfold f_eqb, f_ltb, SFeqb, SFltb.
  destruct x as [sx|sx| |sx mx ex], y as [sy|sy| |sy my ey]; try done;
    destruct sx, sy; try done; simpl;
    destruct (Z.compare_spec ex ey) as [->|He|He]; rewrite ?Z.compare_refl;
    try (rewrite (proj2 (Z.compare_lt_iff ex ey)) by lia);
    try (rewrite (proj2 (Z.compare_gt_iff ey ex)) by lia);
    try (rewrite (proj2 (Z.compare_gt_iff ex ey)) by lia);
    try (rewrite (proj2 (Z.compare_lt_iff ey ex)) by lia); try done;
    fold (Pos.compare mx my); fold (Pos.compare my mx);
    rewrite (Pos.compare_antisym mx my); by destruct (Pos.compare mx my).
Qed.
