(* ===== verification/QueryCache.v ===== *)
(** * The query embedding cache (internal/embed/cache.go)

    [order] is the container/list, front first, each element with its identity;
    [items] maps a cache key to the identity of its element, as the Go map holds
    the element pointer. *)

From S2P Require Import Prelude GoErrors GoStrings GoCrypto GoFloats Scheduler.

Record cachedVector := {
  ckey : string;
  vector : list float32;
  expiresAt : time;
  ckind : string;
}.

Record QueryCache := {
  capacity : Z;
  ttl : duration;
  items : gmap string nat;
  order : list (nat * cachedVector);
  generation : gmap string Z;
  nextElem : nat;   (* the next list element identity *)
}.

Definition NewQueryCache (capacity : Z) (ttl : duration) : QueryCache :=
  {| capacity := capacity; ttl := ttl; items := ∅; order := []; generation := ∅;
     nextElem := 0 |}.

(** The zero byte that separates the parts of a key. *)
Definition nul : string := String (ascii_of_nat 0) "".

Definition CacheKey (text kind : string) (generation : Z) : string :=
  sha256Hex (text +:+ nul +:+ kind +:+ nul +:+ Itoa generation).

Definition gen_of (c : QueryCache) (kind : string) : Z := default 0 (generation c !! kind).

Definition set_store (c : QueryCache) (m : gmap string nat)
    (l : list (nat * cachedVector)) (n : nat) : QueryCache :=
  {| capacity := capacity c; ttl := ttl c; items := m; order := l;
     generation := generation c; nextElem := n |}.

(** order.Remove / MoveToFront / the value of an element. *)
Definition list_remove (id : nat) (l : list (nat * cachedVector)) : list (nat * cachedVector) :=
  filter (fun e => e.1 <> id) l.

Definition elem_value (id : nat) (l : list (nat * cachedVector)) : option cachedVector :=
  snd <$> head (filter (fun e => e.1 = id) l).

Definition list_move_front (id : nat) (v : cachedVector) (l : list (nat * cachedVector))
    : list (nat * cachedVector) := (id, v) :: list_remove id l.

Definition Get (now : time) (c : QueryCache) (text kind : string)
    : QueryCache * option (list float32) :=
  let key := CacheKey text kind (gen_of c kind) in
  match items c !! key with
  | None => (c, None)
  | Some id =>
      match elem_value id (order c) with
      | None => (c, None)
      | Some item =>
          if expiresAt item <? now
          then (set_store c (delete key (items c)) (list_remove id (order c)) (nextElem c), None)
          else (set_store c (items c) (list_move_front id item (order c)) (nextElem c),
                Some (vector item))
      end
  end.

(** The loop [for len(c.items) > c.capacity] on the order, back first. *)
Fixpoint evict (capacity : Z) (m : gmap string nat) (back : list (nat * cachedVector))
    : gmap string nat * list (nat * cachedVector) :=
  match back with
  | [] => (m, [])
  | (id, item) :: back' =>
      if capacity <? Z.of_nat (size m)
      then evict capacity (delete (ckey item) m) back'
      else (m, back)
  end.

Definition Put (now : time) (c : QueryCache) (text kind : string) (v : list float32)
    : QueryCache :=
  let key := CacheKey text kind (gen_of c kind) in
  let item := {| ckey := key; vector := v; expiresAt := now + ttl c; ckind := kind |} in
  match items c !! key with
  | Some id => set_store c (items c) (list_move_front id item (order c)) (nextElem c)
  | None =>
      let m := <[key := nextElem c]> (items c) in
      let l := (nextElem c, item) :: order c in
      let '(m, back) := evict (capacity c) m (reverse l) in
      set_store c m (reverse back) (S (nextElem c))
  end.

(** [c.generation[kind]++] on a uint64. *)
Definition InvalidateKind (c : QueryCache) (kind : string) : QueryCache :=
  {| capacity := capacity c; ttl := ttl c; items := items c; order := order c;
     generation := <[kind := (gen_of c kind + 1) mod 2 ^ 64]> (generation c);
     nextElem := nextElem c |}.

(** CachedClient.Embed: [inner] is what the wrapped client answers for the
    texts; the result is the cache, the answer, and whether the inner client was
    called.  [t1] and [t2] are the clock at the Get and the Put. *)
Definition CachedEmbed (t1 t2 : time) (Namespace : string) (ctxLane : option Lane)
    (texts : list string) (kind : string) (inner : list (list float32) + error)
    (c : QueryCache) : QueryCache * (list (list float32) + error) * bool :=
  match texts with
  | [text] =>
      if bool_decide (LaneFromContext ctxLane = LaneWorker) then (c, inner, true)
      else
        let cacheText := Namespace +:+ nul +:+ text in
        match Get t1 c cacheText kind with
        | (c, Some vec) => (c, inl [vec], false)
        | (c, None) =>
            match inner with
            | inr err => (c, inr err, true)
            | inl vectors =>
                match vectors with
                | [v] => (Put t2 c cacheText kind v, inl vectors, true)
                | _ => (c, inl vectors, true)
                end
            end
        end
  | _ => (c, inner, true)
  end.

(** The map and the list describe the same entries. *)
Record cache_wf (c : QueryCache) : Prop := {
  cw_ids : NoDup (order c).*1;
  cw_fresh : Forall (fun e => (e.1 < nextElem c)%nat) (order c);
  cw_items k id : items c !! k = Some id <->
                  exists v, (id, v) ∈ order c /\ ckey v = k;
}.

Inductive cache_op :=
| OpGet (now : time) (text kind : string)
| OpPut (now : time) (text kind : string) (v : list float32)
| OpInvalidate (kind : string).

Definition cache_step (c : QueryCache) (op : cache_op) : QueryCache :=
  match op with
  | OpGet now text kind => fst (Get now c text kind)
  | OpPut now text kind v => Put now c text kind v
  | OpInvalidate kind => InvalidateKind c kind
  end.

(** ** Lemmas *)

Lemma list_remove_ids id l : (list_remove id l).*1 = filter (fun i => i <> id) l.*1.
Proof.
  unfold list_remove. induction l as [|e l IH]; [done|]. rewrite filter_cons, fmap_cons, filter_cons.
  case_decide; simpl; [by f_equal|done].
Qed.

Lemma list_remove_elem id l e : e ∈ list_remove id l <-> e ∈ l /\ e.1 <> id.
Proof. unfold list_remove. rewrite list_elem_of_filter. tauto. Qed.

Lemma list_remove_fresh id l : id ∉ l.*1 -> list_remove id l = l.
Proof.
  intros H. unfold list_remove. induction l as [|e l IH]; [done|].
  rewrite fmap_cons, not_elem_of_cons in H. destruct H as [H1 H2].
  rewrite filter_cons, decide_True by congruence. by rewrite IH.
Qed.

Lemma nodup_fst_inj (l : list (nat * cachedVector)) id v v' :
  NoDup l.*1 -> (id, v) ∈ l -> (id, v') ∈ l -> v = v'.
Proof.
  induction l as [|e l IH]; intros Hnd H1 H2; [by apply elem_of_nil in H1|].
  rewrite fmap_cons, NoDup_cons in Hnd. destruct Hnd as [Hn Hnd].
  rewrite !elem_of_cons in *.
  destruct H1 as [H1|H1], H2 as [H2|H2]; [congruence| | |by apply IH].
  - exfalso. apply Hn. rewrite <- H1. simpl. apply list_elem_of_fmap. by exists (id, v').
  - exfalso. apply Hn. rewrite <- H2. simpl. apply list_elem_of_fmap. by exists (id, v).
Qed.

Lemma elem_value_spec id l v :
  NoDup l.*1 -> (id, v) ∈ l -> elem_value id l = Some v.
Proof.
  unfold elem_value. induction l as [|e l IH]; intros Hnd H; [by apply elem_of_nil in H|].
  rewrite fmap_cons, NoDup_cons in Hnd. destruct Hnd as [Hn Hnd].
  rewrite filter_cons. apply elem_of_cons in H as [<-|H]; [by rewrite decide_True|].
  rewrite decide_False; [by apply IH|]. intros E. apply Hn. rewrite E.
  apply list_elem_of_fmap. by exists (id, v).
Qed.

Lemma cw_lookup c k id :
  cache_wf c -> items c !! k = Some id ->
  exists v, (id, v) ∈ order c /\ ckey v = k /\ elem_value id (order c) = Some v.
Proof.
  intros [Hnd _ Hi] H. apply Hi in H as (v & Hv & Hk). exists v.
  split_and!; [done|done|by apply elem_value_spec].
Qed.

(** Moving an element to the front, its value possibly replaced. *)
Lemma move_front_wf c k id v :
  cache_wf c -> items c !! k = Some id -> ckey v = k ->
  cache_wf (set_store c (items c) (list_move_front id v (order c)) (nextElem c)).
Proof.
  intros Hwf H Hk. destruct (cw_lookup _ _ _ Hwf H) as (v0 & Hv0 & Hk0 & _).
  pose proof Hwf as [Hnd Hf Hi]. split; unfold list_move_front; simpl.
  - constructor; rewrite list_remove_ids; [|by apply NoDup_filter].
    rewrite list_elem_of_filter. by intros [? _].
  - constructor; [by eapply (Forall_forall _ _) in Hf; [|exact Hv0]|].
    apply Forall_forall. intros e [He _]%list_remove_elem. by eapply Forall_forall in Hf.
  - intros k' id'. rewrite Hi. split.
    + intros (w & Hw & Hkw). destruct (decide (id' = id)) as [->|Hne].
      * exists v. split; [left|]. rewrite <- Hkw, Hk, <- Hk0.
        f_equal. by eapply nodup_fst_inj.
      * exists w. split; [|done]. right. by apply list_remove_elem.
    + intros (w & [E|Hw]%elem_of_cons & Hkw).
      * simplify_eq. exists v0. split; [done|congruence].
      * apply list_remove_elem in Hw as [Hw _]. eauto.
Qed.

(** Dropping the element of a key from both sides. *)
Lemma remove_wf m l n id v (cap : Z) (t : duration) g :
  let c := {| capacity := cap; ttl := t; items := m; order := l; generation := g;
              nextElem := n |} in
  cache_wf c -> (id, v) ∈ l ->
  cache_wf {| capacity := cap; ttl := t; items := delete (ckey v) m;
              order := list_remove id l; generation := g; nextElem := n |}.
Proof.
  intros c [Hnd Hf Hi] Hv. simpl in *.
  assert (Hm : m !! ckey v = Some id) by (apply Hi; eauto).
  split; simpl.
  - rewrite list_remove_ids. by apply NoDup_filter.
  - apply Forall_forall. intros e [He _]%list_remove_elem. by eapply Forall_forall in Hf.
  - intros k id'. rewrite lookup_delete_Some, Hi. split.
    + intros (Hne & w & Hw & Hkw). exists w. split; [|done]. apply list_remove_elem.
      split; [done|]. simpl. intros ->. apply Hne. rewrite <- Hkw. f_equal.
      by eapply nodup_fst_inj.
    + intros (w & [Hw Hne]%list_remove_elem & Hkw). simpl in Hne. split; [|by eauto].
      intros Hkv. apply Hne. assert (m !! k = Some id') as H' by (apply Hi; eauto).
      rewrite <- Hkv, Hm in H'. congruence.
Qed.

Lemma Get_wf now c text kind : cache_wf c -> cache_wf (fst (Get now c text kind)).
Proof.
  intros Hwf. unfold Get. destruct (items c !! _) as [id|] eqn:E; [|done].
  destruct (cw_lookup _ _ _ Hwf E) as (v & Hv & Hk & ->).
  case_match; simpl; [|by eapply move_front_wf].
  rewrite <- Hk. destruct c. by apply (remove_wf _ _ _ id v).
Qed.

Lemma list_remove_last id v l :
  NoDup (reverse ((id, v) :: l)).*1 ->
  list_remove id (reverse ((id, v) :: l)) = reverse l.
Proof.
  rewrite reverse_cons, fmap_app. intros (Hnd & Hdis & _)%NoDup_app.
  unfold list_remove. rewrite filter_app.
  rewrite filter_cons_False by (simpl; tauto). rewrite filter_nil, app_nil_r.
  apply list_remove_fresh. intros H. apply (Hdis id H). simpl. by left.
Qed.

(** Evicting keeps the two views together and never grows them; a capacity that
    is not negative is respected. *)
Lemma evict_wf cap t g n m back :
  let mk m back := {| capacity := cap; ttl := t; items := m; order := reverse back;
                      generation := g; nextElem := n |} in
  cache_wf (mk m back) ->
  let '(m', back') := evict cap m back in
  cache_wf (mk m' back') /\ back' `suffix_of` back /\ (back' <> [] -> Z.of_nat (size m') <= cap).
Proof.
  intros mk. revert m. induction back as [|[id v] back IH]; intros m Hwf; simpl; [done|].
  destruct (Z.ltb_spec cap (Z.of_nat (size m))) as [Hlt|Hle].
  - assert (Hwf' : cache_wf (mk (delete (ckey v) m) back)).
    { unfold mk. rewrite <- (list_remove_last id v back) by apply Hwf.
      apply remove_wf; [exact Hwf|]. apply elem_of_reverse. by left. }
    specialize (IH _ Hwf'). destruct (evict _ _ back) as [m' back'].
    destruct IH as (H1 & H2 & H3). split_and!; [done| |done]. by apply suffix_cons_r.
  - split_and!; [done|done|]. intros _. lia.
Qed.

Lemma wf_empty_order c : cache_wf c -> order c = [] -> items c = ∅.
Proof.
  intros [_ _ Hi] E. apply map_eq. intros k. rewrite lookup_empty.
  destruct (items c !! k) as [id|] eqn:H; [|done].
  apply Hi in H as (v & Hv & _). rewrite E in Hv. by apply elem_of_nil in Hv.
Qed.

Lemma put_insert_wf c text kind v now :
  cache_wf c -> items c !! CacheKey text kind (gen_of c kind) = None ->
  let key := CacheKey text kind (gen_of c kind) in
  let item := {| ckey := key; vector := v; expiresAt := now + ttl c; ckind := kind |} in
  cache_wf {| capacity := capacity c; ttl := ttl c; items := <[key := nextElem c]> (items c);
              order := (nextElem c, item) :: order c; generation := generation c;
              nextElem := S (nextElem c) |}.
Proof.
  intros [Hnd Hf Hi] Hnone key item. split; simpl.
  - constructor; [|done]. intros (e & He & Hin)%list_elem_of_fmap.
    eapply Forall_forall in Hf; [|exact Hin]. simpl in *. lia.
  - constructor; [simpl; lia|]. eapply Forall_impl; [exact Hf|]. simpl. lia.
  - intros k id. rewrite lookup_insert_Some, Hi. split.
    + intros [[<- <-]|(Hne & w & Hw & Hk)].
      * exists item. split; [left|done].
      * exists w. split; [by right|done].
    + intros (w & [E|Hw]%elem_of_cons & Hk); [simplify_eq; by left|].
      right. split; [|by eauto]. intros Hkk. fold key in Hnone.
      assert (items c !! k = Some id) as H by (apply Hi; eauto). congruence.
Qed.

Lemma put_evict c text kind v now m' back' :
  cache_wf c -> items c !! CacheKey text kind (gen_of c kind) = None ->
  let key := CacheKey text kind (gen_of c kind) in
  let item := {| ckey := key; vector := v; expiresAt := now + ttl c; ckind := kind |} in
  evict (capacity c) (<[key := nextElem c]> (items c))
        (reverse ((nextElem c, item) :: order c)) = (m', back') ->
  cache_wf {| capacity := capacity c; ttl := ttl c; items := m'; order := reverse back';
              generation := generation c; nextElem := S (nextElem c) |} /\
  (back' <> [] -> Z.of_nat (size m') <= capacity c).
Proof.
  intros Hwf E key item Hev.
  pose proof (evict_wf (capacity c) (ttl c) (generation c) (S (nextElem c))
    (<[key := nextElem c]> (items c)) (reverse ((nextElem c, item) :: order c))) as H.
  cbv beta zeta in H. rewrite reverse_involutive, Hev in H.
  destruct (H (put_insert_wf c text kind v now Hwf E)) as (H1 & _ & H3). done.
Qed.

Lemma Put_wf now c text kind v : cache_wf c -> cache_wf (Put now c text kind v).
Proof.
  intros Hwf. unfold Put. destruct (items c !! _) as [id|] eqn:E.
  - by eapply move_front_wf.
  - destruct (evict _ _ _) as [m' back'] eqn:Hev. by eapply put_evict in Hev as [? _].
Qed.

Lemma InvalidateKind_wf c kind : cache_wf c -> cache_wf (InvalidateKind c kind).
Proof. by intros []. Qed.

Lemma cache_step_wf c op : cache_wf c -> cache_wf (cache_step c op).
Proof. destruct op; simpl; [apply Get_wf|apply Put_wf|apply InvalidateKind_wf]. Qed.

Definition cache_bounded (c : QueryCache) : Prop := Z.of_nat (size (items c)) <= capacity c.

Lemma Get_bounded now c text kind :
  cache_bounded c -> cache_bounded (fst (Get now c text kind)).
Proof.
  unfold cache_bounded, Get. intros H. repeat case_match; simpl; try done.
  rewrite map_size_delete. unfold id; repeat case_match; lia.
Qed.

Lemma Put_bounded now c text kind v :
  0 <= capacity c -> cache_wf c -> cache_bounded c ->
  cache_bounded (Put now c text kind v).
Proof.
  intros Hc Hwf Hb. unfold Put. destruct (items c !! _) as [id|] eqn:E; [done|].
  destruct (evict _ _ _) as [m' back'] eqn:Hev.
  eapply put_evict in Hev as [H1 H3]; [|done|done].
  unfold cache_bounded. simpl. destruct back' as [|e back']; [|by apply H3].
  apply wf_empty_order in H1; [|done]. simpl in H1. rewrite H1, map_size_empty. done.
Qed.

Lemma cache_step_capacity c op : capacity (cache_step c op) = capacity c.
Proof.
  destruct op; simpl; [unfold Get; by repeat case_match| |done].
  unfold Put. repeat case_match; done.
Qed.

Lemma cache_reachable cap t ops :
  0 <= cap -> let c := fold_left cache_step ops (NewQueryCache cap t) in
  cache_wf c /\ cache_bounded c /\ capacity c = cap.
Proof.
  intros Hcap. simpl. induction ops as [|op ops IH] using rev_ind; simpl.
  - split_and!; [|by unfold cache_bounded; simpl; rewrite map_size_empty|done].
    split; simpl; [constructor|constructor|]. intros k id. rewrite lookup_empty.
    split; [done|]. intros (v & Hv & _). by apply elem_of_nil in Hv.
  - rewrite fold_left_app. simpl. destruct IH as (H1 & H2 & H3).
    split_and!; [by apply cache_step_wf| |by rewrite cache_step_capacity].
    destruct op; simpl; [by apply Get_bounded|apply Put_bounded; by rewrite ?H3|done].
Qed.

(** The front element survives an eviction that has room for one. *)
Lemma evict_keeps cap t g n m back e :
  1 <= cap ->
  cache_wf {| capacity := cap; ttl := t; items := m; order := reverse (back ++ [e]);
              generation := g; nextElem := n |} ->
  exists back', snd (evict cap m (back ++ [e])) = back' ++ [e] /\ back' `suffix_of` back.
Proof.
  intros Hcap. revert m. induction back as [|[id v] back IH]; intros m Hwf; simpl.
  - destruct e as [id v].
    assert (m = {[ckey v := id]}) as ->.
    { apply map_eq. intros k. destruct Hwf as [_ _ Hi]. simpl in Hi.
      destruct (m !! k) as [i|] eqn:H.
      - apply Hi in H as (w & Hw & Hk). apply list_elem_of_singleton in Hw. simplify_eq.
        by rewrite lookup_singleton_eq.
      - symmetry. apply lookup_singleton_None. intros <-.
        assert (m !! ckey v = Some id) as H'; [|congruence].
        apply Hi. exists v. split; [by apply list_elem_of_singleton|done]. }
    rewrite map_size_singleton. destruct (Z.ltb_spec cap (Z.of_nat 1)); [lia|].
    exists []. split; [done|]. done.
  - destruct (Z.ltb_spec cap (Z.of_nat (size m))).
    + destruct (IH (delete (ckey v) m)) as (b & Hb & Hs).
      * pose proof (remove_wf m _ n id v cap t g Hwf) as H'.
        rewrite <- (list_remove_last id v (back ++ [e])) by apply Hwf. apply H'.
        apply elem_of_reverse. by left.
      * exists b. split; [done|]. by apply suffix_cons_r.
    + exists ((id, v) :: back). done.
Qed.

Lemma head_filter_front id v l : elem_value id ((id, v) :: l) = Some v.
Proof. unfold elem_value. by rewrite filter_cons, decide_True. Qed.

Lemma Put_front now c text kind v :
  cache_wf c -> 1 <= capacity c ->
  exists id item rest, order (Put now c text kind v) = (id, item) :: rest /\
    ckey item = CacheKey text kind (gen_of c kind) /\
    (items c !! CacheKey text kind (gen_of c kind) = None -> rest `prefix_of` order c) /\
    vector item = v /\ expiresAt item = now + ttl c.
Proof.
  intros Hwf Hcap. unfold Put.
  set (item := {| ckey := _; vector := v; expiresAt := _; ckind := kind |}).
  destruct (items c !! _) as [id|] eqn:E.
  - exists id, item, (list_remove id (order c)). split_and!; done.
  - pose proof (put_insert_wf c text kind v now Hwf E) as Hwf'. fold item in Hwf'.
    rewrite reverse_cons.
    destruct (evict_keeps (capacity c) (ttl c) (generation c) (S (nextElem c))
      (<[CacheKey text kind (gen_of c kind) := nextElem c]> (items c)) (reverse (order c))
      (nextElem c, item)) as (b & Hb & [k Hs]); [done| |].
    { by rewrite <- reverse_cons, reverse_involutive. }
    destruct (evict _ _ _) as [m' back']. simpl in Hb. subst back'.
    exists (nextElem c), item, (reverse b). simpl.
    assert (reverse b `prefix_of` order c) as Hp.
    { exists (reverse k). rewrite <- reverse_app, <- Hs. by rewrite reverse_involutive. }
    split_and!; try done. by rewrite reverse_app.
Qed.

Lemma Put_gen now c text kind v kind' : gen_of (Put now c text kind v) kind' = gen_of c kind'.
Proof. unfold Put. repeat case_match; done. Qed.

Lemma Put_Get now now' c text kind v :
  cache_wf c -> 1 <= capacity c -> now' <= now + ttl c ->
  snd (Get now' (Put now c text kind v) text kind) = Some v.
Proof.
  intros Hwf Hcap Ht.
  destruct (Put_front now c text kind v Hwf Hcap) as (id & item & rest & Ho & Hk & _ & Hv & He).
  pose proof (Put_wf now c text kind v Hwf) as [_ _ Hi].
  unfold Get. rewrite Put_gen.
  assert (items (Put now c text kind v) !! CacheKey text kind (gen_of c kind) = Some id) as ->.
  { apply Hi. exists item. rewrite Ho. split; [left|done]. }
  rewrite Ho, head_filter_front, He.
  destruct (Z.ltb_spec (now + ttl c) now'); [lia|]. simpl. by rewrite Hv.
Qed.

(** ** Properties *)

(** C16. After any sequence of lookups, stores and invalidations the map and the
    recency list describe the same entries, their element identities are
    distinct, and the cache holds at most [capacity] entries. *)
Theorem cache_invariant cap t ops :
  0 <= cap -> let c := fold_left cache_step ops (NewQueryCache cap t) in
  cache_wf c /\ Z.of_nat (size (items c)) <= cap.
Proof.
  intros H. destruct (cache_reachable cap t ops H) as (H1 & H2 & H3).
  unfold cache_bounded in H2. rewrite H3 in H2. done.
Qed.

Lemma cache_invariant_witness :
  cache_wf (fold_left cache_step
    [OpPut 1 "a" "event" []; OpPut 2 "b" "event" []; OpGet 3 "a" "event"; OpInvalidate "event"]
    (NewQueryCache 1 Minute)).
Proof. apply (cache_invariant 1 Minute). lia. Defined.

(** A new entry displaces only least recently used ones: after a Put of an
    absent key the recency list is the new entry followed by a prefix (the most
    recently used part) of the previous list, and a Get within the ttl returns
    the stored vector. *)
Theorem put_evicts_lru now now' c text kind v :
  cache_wf c -> 1 <= capacity c -> now' <= now + ttl c ->
  items c !! CacheKey text kind (gen_of c kind) = None ->
  snd (Get now' (Put now c text kind v) text kind) = Some v /\
  exists e rest, order (Put now c text kind v) = e :: rest /\ rest `prefix_of` order c /\
                 ckey e.2 = CacheKey text kind (gen_of c kind).
Proof.
  intros Hwf Hc Ht Hn. split; [by apply Put_Get|].
  destruct (Put_front now c text kind v Hwf Hc) as (id & item & rest & Ho & Hk & Hp & _).
  exists (id, item), rest. auto.
Qed.

Lemma put_evicts_lru_witness :
  snd (Get 2 (Put 1 (NewQueryCache 1 Minute) "a" "event" [f_zero]) "a" "event") = Some [f_zero].
Proof.
  refine (proj1 (put_evicts_lru 1 2 (NewQueryCache 1 Minute) "a" "event" [f_zero] _ _ _ _)).
  - apply (cache_reachable 1 Minute []). lia.
  - done.
  - by vm_compute.
  - done.
Defined.

(** A single interactive text that the backend embedded is answered from
    the cache until its ttl passes, without calling the backend again; worker
    calls and batches always reach the backend and leave the cache alone; a
    backend error is returned and stores nothing. *)
Theorem cached_embed_contract t1 t2 t3 t4 ns text kind v inner' c :
  cache_wf c -> 1 <= capacity c -> t3 <= t2 + ttl c ->
  snd (Get t1 c (ns +:+ nul +:+ text) kind) = None ->
  let c1 := fst (fst (CachedEmbed t1 t2 ns None [text] kind (inl [v]) c)) in
  snd (fst (CachedEmbed t3 t4 ns None [text] kind inner' c1)) = inl [v] /\
  snd (CachedEmbed t3 t4 ns None [text] kind inner' c1) = false /\
  (forall texts inner, CachedEmbed t1 t2 ns (Some LaneWorker) texts kind inner c =
                       (c, inner, true)) /\
  (forall e, CachedEmbed t1 t2 ns None [text] kind (inr e) c =
             (fst (Get t1 c (ns +:+ nul +:+ text) kind), inr e, true)).
Proof.
  intros Hwf Hc Ht Hmiss. pose proof (Get_wf t1 c (ns +:+ nul +:+ text) kind Hwf) as Hwf'.
  assert (capacity (fst (Get t1 c (ns +:+ nul +:+ text) kind)) = capacity c /\
          ttl (fst (Get t1 c (ns +:+ nul +:+ text) kind)) = ttl c) as [E1 E2]
    by (unfold Get; by repeat case_match).
  unfold CachedEmbed. simpl.
  destruct (Get t1 c (ns +:+ nul +:+ text) kind) as [c' o]. simpl in *. subst o. simpl.
  assert (snd (Get t3 (Put t2 c' (ns +:+ nul +:+ text) kind v) (ns +:+ nul +:+ text) kind) = Some v)
    as Hg by (apply Put_Get; [done|lia|lia]).
  destruct (Get t3 _ _ _) as [c'' o]. simpl in *. subst o.
  split_and!; try done. intros [|? []] inner; done.
Qed.

Lemma cached_embed_contract_witness :
  snd (CachedEmbed 2 2 "ns" None ["q"] "event" (inr (Opaque "down"))
    (fst (fst (CachedEmbed 1 1 "ns" None ["q"] "event" (inl [[f_zero]])
       (NewQueryCache 4 Minute))))) = false.
Proof.
  refine (proj1 (proj2 (cached_embed_contract 1 1 2 2 "ns" "q" "event" [f_zero]
            (inr (Opaque "down")) (NewQueryCache 4 Minute) _ _ _ _))).
  - apply (cache_reachable 4 Minute []). lia.
  - done.
  - by vm_compute.
  - done.
Defined.
