(* ===== verification/EmbedClient.v ===== *)
(** * The embedding HTTP client (internal/embed/tokens.go, client.go, vector.go)

    The backend is llama.cpp: its tokenizer is a [Tokenizer] instance, its HTTP
    replies are parameters.  Goroutine pools are runs of a function on indexes
    whose completion order is a parameter; only the first error to complete and
    the caller's context can show in the result. *)

From S2P Require Import Prelude GoErrors GoStrings GoFloats Scheduler Circuit.

Definition DefaultMaxTokens : Z := 512.
Definition ChunkTokenLimit : Z := 480.
Definition RequestTokenLimit : Z := 4096.
Definition RequestPackTokenLimit : Z := 512.
Definition DefaultRequestConcurrency : Z := 4.
Definition DefaultTokenizerConcurrency : Z := 8.

(** The backend's /tokenize and /detokenize endpoints. *)
Class Tokenizer := {
  Tokenize : string -> list Z + error;
  Detokenize : list Z -> string + error;
}.

Record TokenChunk := { Text : string; TokenCount : Z }.

(** ** Bounded fan-out *)

Fixpoint first_error {A} (sched : list nat) (fn : nat -> A + error) : option error :=
  match sched with
  | [] => None
  | i :: sched => match fn i with inr e => Some e | inl _ => first_error sched fn end
  end.

Fixpoint collect {A} (fn : nat -> A + error) (idx : list nat) : list A :=
  match idx with
  | [] => []
  | i :: idx => match fn i with inl a => a :: collect fn idx | inr _ => collect fn idx end
  end.

(** runBounded: [sched] is the order in which the bodies that ran completed;
    [ctxErr] is the caller context after the wait.  Results are written by
    index. *)
Definition runBounded {A} (ctxErr : option error) (sched : list nat) (total : nat)
    (fn : nat -> A + error) : list A + error :=
  match total with
  | O => inl []
  | _ =>
      match first_error sched fn with
      | Some e => inr e
      | None =>
          match ctxErr with
          | Some e => inr e
          | None => inl (collect fn (seq 0 total))
          end
      end
  end.

(** ** Chunking (tokens.go) *)

Definition ceil_div (n d : Z) : Z := (n + d - 1) / d.

(** tokens[start:end] of chunk [index]. *)
Definition token_range (tokens : list Z) (index : nat) : list Z :=
  take (Z.to_nat ChunkTokenLimit) (drop (index * Z.to_nat ChunkTokenLimit) tokens).

Section chunking.
Context {T : Tokenizer}.

Definition chunkOne (ctxErr : option error) (sched : list nat) (text : string)
    (maxChunks : Z) : list TokenChunk + error :=
  match Tokenize text with
  | inr err => inr (Wrapf ("tokenize embedding source: " +:+ Error err) err)
  | inl tokens =>
      if bool_decide (tokens = []) then
        if negb (is_empty (TrimSpace text))
        then inr (Opaque "tokenize embedding source: no tokens for non-empty text")
        else inl [{| Text := text; TokenCount := 0 |}]
      else
        let chunkCount := ceil_div (Z.of_nat (length tokens)) ChunkTokenLimit in
        if (0 <? maxChunks) && (maxChunks <? chunkCount)
        then inr (Wrapf (sentinel_text errChunkBudget +:+ ": source tokenizes to "
                         +:+ Itoa chunkCount +:+ " chunks, budget is " +:+ Itoa maxChunks)
                        (Sentinel errChunkBudget))
        else
          runBounded ctxErr sched (Z.to_nat chunkCount) (fun index =>
            let range := token_range tokens index in
            match Detokenize range with
            | inr err =>
                let start := Z.of_nat index * ChunkTokenLimit in
                inr (Wrapf ("detokenize embedding source tokens " +:+ Itoa start +:+ ":"
                            +:+ Itoa (start + Z.of_nat (length range)) +:+ ": "
                            +:+ Error err) err)
            | inl content =>
                inl {| Text := content; TokenCount := Z.of_nat (length range) |}
            end)
  end.

(** ChunkTexts: [isched i] is the completion order inside text [i]. *)
Definition ChunkTexts (ctxErr : option error) (sched : list nat) (isched : nat -> list nat)
    (texts : list string) (maxChunks : Z) : list (list TokenChunk) + error :=
  runBounded ctxErr sched (length texts) (fun index =>
    match chunkOne ctxErr (isched index) (default "" (texts !! index)) maxChunks with
    | inl chunks => inl chunks
    | inr err =>
        if errors_Is err errChunkBudget
        then inr (OversizedInputError (Z.of_nat index) (Some err))
        else inr err
    end).

Definition ChunkText (ctxErr : option error) (sched : list nat) (isched : nat -> list nat)
    (text : string) : list TokenChunk + error :=
  match ChunkTexts ctxErr sched isched [text] 0 with
  | inr err => inr err
  | inl chunked => inl (default [] (chunked !! 0%nat))
  end.
End chunking.

(** ** Vectors (vector.go, meanVectors) *)

Fixpoint vector_norm (v : list float32) (norm : float64) : option float64 :=
  match v with
  | [] => Some norm
  | x :: v =>
      let x := f64_of_f32 x in
      if is_nan x || is_inf x then None else vector_norm v (f64_add norm (f64_mul x x))
  end.

(** ValidateVector: [None] is a nil error. *)
Definition ValidateVector (v : list float32) (dimensions : Z) : option error :=
  if negb (Z.of_nat (length v) =? dimensions)
  then Some (Opaque ("embedding has " +:+ Itoa (Z.of_nat (length v))
                     +:+ " dimensions, expected " +:+ Itoa dimensions))
  else
    match vector_norm v f_zero with
    | None => Some (Opaque "embedding contains non-finite values")
    | Some norm =>
        if f_eqb norm f_zero || is_inf norm || is_nan norm
        then Some (Opaque "embedding has unusable norm")
        else None
    end.

(** [mean[i] += vec[i]] for the indexes both have. *)
Fixpoint add_into (mean vec : list float32) : list float32 :=
  match mean, vec with
  | m :: mean, x :: vec => f32_add m x :: add_into mean vec
  | _, _ => mean
  end.

Definition meanVectors (chunkVectors : list (list float32)) (dimensions : Z) : list float32 :=
  match chunkVectors with
  | [v] => v
  | _ =>
      let sum := fold_left add_into chunkVectors (repeat f_zero (Z.to_nat dimensions)) in
      (fun x => f32_div x (f32_of_Z (Z.of_nat (length chunkVectors)))) <$> sum
  end.

(** ** Requests (client.go) *)

Record HTTPClient := {
  PrefixOwner : string;
  BaseURL : string;
  Model : string;
  Dimensions : Z;
  PackTokenLimit : Z;
  TokenizerConcurrency : Z;
  MaxChunksPerInput : Z;
}.

Definition NewHTTPClient (baseURL model : string) (dimensions : Z) : HTTPClient := {|
  PrefixOwner := ""; BaseURL := TrimRight baseURL "/"; Model := model;
  Dimensions := dimensions; PackTokenLimit := RequestPackTokenLimit;
  TokenizerConcurrency := DefaultTokenizerConcurrency; MaxChunksPerInput := 0 |}.

Definition packTokenLimit (c : HTTPClient) : Z :=
  if 0 <? PackTokenLimit c then PackTokenLimit c else RequestPackTokenLimit.

Definition tokenizerConcurrency (c : HTTPClient) : Z :=
  if 0 <? TokenizerConcurrency c then TokenizerConcurrency c else DefaultTokenizerConcurrency.

Record embeddingsItem := { Embedding : list float32; Index : option Z }.
Record embeddingsResponse := {
  Data : list embeddingsItem;
  Embeddings : list (list float32);
}.

(** What the transport hands to postJSON. *)
Inductive http_reply (A : Type) :=
| BuildError (err : error)             (* http.NewRequestWithContext failed *)
| DoError (err : error)                (* Client.Do failed *)
| Reply (StatusCode : Z) (Status : string) (body : string + error)
        (decoded : A + error).         (* json.Decode of the body *)
Arguments BuildError {A}. Arguments DoError {A}. Arguments Reply {A}.

(** utf8.RuneStart: not a continuation byte. *)
Definition RuneStart (c : ascii) : bool := negb (Z.land (code c) 192 =? 128).

(** The loop of responseErrorText that backs up to a rune boundary. *)
Fixpoint back_to_rune (message : string) (i : nat) : nat :=
  match i with
  | O => O
  | S i' =>
      match String.get i message with
      | Some c => if RuneStart c then i else back_to_rune message i'
      | None => i
      end
  end.

(** responseErrorText: [json_error] is the text of the body's error member, if
    the body is JSON that has one. *)
Definition responseErrorText (json_error : string -> option string) (body : string) : string :=
  let message := match json_error body with Some m => m | None => TrimSpace body end in
  if 2048 <? len message
  then String.substring 0 (back_to_rune message 2048) message
  else message.

Definition postJSON {A} (json_error : string -> option string) (c : HTTPClient)
    (reply : http_reply A) : A + error :=
  if is_empty (BaseURL c) then inr (invalidRequest "embedding backend URL is empty")
  else
    match reply with
    | BuildError err => inr (invalidRequest ("build embedding request: " +:+ Error err))
    | DoError err => inr (BackendUnavailableError time_zero (Some err))
    | Reply status statusText body decoded =>
        if (status <? 200) || (300 <=? status) then
          match body with
          | inr readErr =>
              inr (BackendUnavailableError time_zero
                (Some (Wrapf ("embedding backend returned " +:+ statusText
                              +:+ "; read response body: " +:+ Error readErr) readErr)))
          | inl responseBody =>
              let message := responseErrorText json_error responseBody in
              let text := "embedding backend returned " +:+ statusText
                          +:+ (if is_empty message then "" else ": " +:+ message) in
              if (500 <=? status) || (status =? 429)
              then inr (BackendUnavailableError time_zero (Some (Opaque text)))
              else inr (Wrapf (sentinel_text ErrInvalidRequest +:+ ": " +:+ text)
                              (Sentinel ErrInvalidRequest))
          end
        else
          match decoded with
          | inl a => inl a
          | inr err =>
              inr (BackendUnavailableError time_zero
                (Some (Wrapf (sentinel_text ErrInvalidResponse +:+ ": decode response: "
                              +:+ Error err) (Sentinel ErrInvalidResponse))))
          end
    end.

Definition invalidResponse (detail : string) : error :=
  BackendUnavailableError time_zero
    (Some (Wrapf (sentinel_text ErrInvalidResponse +:+ ": " +:+ detail)
                 (Sentinel ErrInvalidResponse))).

(** The association loop of embedOnce: [vectors] is filled by index and [seen]
    marks the filled places. *)
Fixpoint associate (indexed : bool) (i : nat) (data : list embeddingsItem)
    (seen : list bool) (vectors : list (list float32)) : list (list float32) + error :=
  match data with
  | [] => inl vectors
  | item :: data =>
      if negb (Bool.eqb (bool_decide (is_Some (Index item))) indexed)
      then inr (invalidResponse "mixed indexed and unindexed embeddings")
      else
        let index := match Index item with Some n => n | None => Z.of_nat i end in
        if (index <? 0) || (Z.of_nat (length vectors) <=? index)
           || default false (seen !! Z.to_nat index)
        then inr (invalidResponse "duplicate or out-of-range embedding index")
        else associate indexed (S i) data (<[Z.to_nat index := true]> seen)
               (<[Z.to_nat index := Embedding item]> vectors)
  end.

Fixpoint validate_all (i : nat) (vectors : list (list float32)) (dimensions : Z)
    : option error :=
  match vectors with
  | [] => None
  | v :: vectors =>
      match ValidateVector v dimensions with
      | Some err => Some (invalidResponse ("embedding " +:+ Itoa (Z.of_nat i) +:+ ": " +:+ Error err))
      | None => validate_all (S i) vectors dimensions
      end
  end.

(** embedOnce after postJSON answered. *)
Definition embedOnce (c : HTTPClient) (inputs : list string)
    (posted : embeddingsResponse + error) : list (list float32) + error :=
  match posted with
  | inr err => inr err
  | inl parsed =>
      let vectors :=
        match Embeddings parsed, Data parsed with
        | [], d :: data =>
            associate (bool_decide (is_Some (Index d))) 0 (d :: data)
              (repeat false (length (d :: data))) (repeat [] (length (d :: data)))
        | embs, _ => inl embs
        end in
      match vectors with
      | inr err => inr err
      | inl vectors =>
          if negb (Nat.eqb (length vectors) (length inputs))
          then inr (invalidResponse ("returned " +:+ Itoa (Z.of_nat (length vectors))
                      +:+ " vectors for " +:+ Itoa (Z.of_nat (length inputs)) +:+ " inputs"))
          else
            match validate_all 0 vectors (Dimensions c) with
            | Some err => inr err
            | None => inl vectors
            end
      end
  end.

(** The inner packing loop of embedInputs, from [end > start]: extends the open
    batch (reversed) that holds [count] tokens. *)
Fixpoint extend_batch (packLimit count : Z) (batch : list TokenChunk) (rest : list TokenChunk)
    : (list TokenChunk * list TokenChunk) + error :=
  match rest with
  | [] => inl (rev batch, [])
  | x :: rest' =>
      if RequestTokenLimit <? TokenCount x
      then inr (invalidRequest ("embedding chunk has " +:+ Itoa (TokenCount x)
                  +:+ " content tokens, limit is " +:+ Itoa RequestTokenLimit))
      else if negb (bool_decide (batch = [])) && (packLimit <? count + TokenCount x)
      then inl (rev batch, rest)
      else extend_batch packLimit (count + TokenCount x) (x :: batch) rest'
  end.

(** The outer loop; every batch takes at least one chunk, so [length inputs]
    iterations suffice. *)
Fixpoint pack (fuel : nat) (packLimit : Z) (inputs : list TokenChunk)
    : list (list TokenChunk) + error :=
  match fuel, inputs with
  | _, [] => inl []
  | O, _ => inl []
  | S fuel, _ =>
      match extend_batch packLimit 0 [] inputs with
      | inr err => inr err
      | inl (batch, rest) =>
          match pack fuel packLimit rest with
          | inr err => inr err
          | inl batches => inl (batch :: batches)
          end
      end
  end.

Definition pack_inputs (packLimit : Z) (inputs : list TokenChunk)
    : list (list TokenChunk) + error := pack (length inputs) packLimit inputs.

(** embedInputs: [acquire i] is the scheduler's answer for batch [i], [post]
    the backend's reply to a batch, [sched] the completion order. *)
Definition embedInputs (c : HTTPClient) (ctxErr : option error) (sched : list nat)
    (acquire : nat -> option error) (post : list string -> embeddingsResponse + error)
    (inputs : list TokenChunk) : list (list float32) + error :=
  match inputs with
  | [] => inl []
  | _ =>
      match pack_inputs (packTokenLimit c) inputs with
      | inr err => inr err
      | inl batches =>
          match runBounded ctxErr sched (length batches) (fun index =>
            match acquire index with
            | Some err => inr (capacityError (Some err))
            | None =>
                let texts := Text <$> default [] (batches !! index) in
                embedOnce c texts (post texts)
            end) with
          | inr err => inr err
          | inl results => inl (concat results)
          end
      end
  end.

(** The task-prefix stripping loop of Embed; every round removes at least the
    colon, so the length of the text bounds the rounds. *)
Fixpoint strip_task_prefix (fuel : nat) (text : string) : string :=
  match fuel with
  | O => text
  | S fuel =>
      if HasPrefix text "search_query:" || HasPrefix text "search_document:"
      then strip_task_prefix fuel (TrimSpace (snd (fst (Cut text ":"%char))))
      else text
  end.

Definition clean_text (text : string) : string :=
  strip_task_prefix (String.length text) (TrimSpace text).

Fixpoint clean_texts (texts : list string) : list string + error :=
  match texts with
  | [] => inl []
  | t :: texts =>
      let t := clean_text t in
      if is_empty t then inr (invalidRequest "empty embedding input")
      else match clean_texts texts with inr e => inr e | inl l => inl (t :: l) end
  end.

Section embed.
Context {T : Tokenizer}.

(** The client-owned prefix: recount every prefixed chunk with the tokenizer. *)
Fixpoint prefix_chunks (prefix : string) (chunks : list TokenChunk)
    : list TokenChunk + error :=
  match chunks with
  | [] => inl []
  | ch :: chunks =>
      let effective := prefix +:+ Text ch in
      match Tokenize effective with
      | inr err => inr err
      | inl tokens =>
          if DefaultMaxTokens - 2 <? Z.of_nat (length tokens)
          then inr (invalidRequest "prefixed embedding chunk exceeds model context")
          else
            match prefix_chunks prefix chunks with
            | inr err => inr err
            | inl l =>
                inl ({| Text := effective; TokenCount := Z.of_nat (length tokens) |} :: l)
            end
      end
  end.

Fixpoint prefix_all (prefix : string) (chunked : list (list TokenChunk))
    : list (list TokenChunk) + error :=
  match chunked with
  | [] => inl []
  | chunks :: chunked =>
      match prefix_chunks prefix chunks with
      | inr err => inr err
      | inl chunks =>
          match prefix_all prefix chunked with
          | inr err => inr err
          | inl l => inl (chunks :: l)
          end
      end
  end.

(** vectors[offsets[i]:offsets[i+1]] pooled and validated, text by text. *)
Fixpoint pool (dimensions : Z) (i : nat) (chunked : list (list TokenChunk))
    (vectors : list (list float32)) : list (list float32) + error :=
  match chunked with
  | [] => inl []
  | chunks :: chunked =>
      let mean := meanVectors (take (length chunks) vectors) dimensions in
      match ValidateVector mean dimensions with
      | Some err => inr (invalidRequest ("pooled embedding input " +:+ Itoa (Z.of_nat i)
                           +:+ ": " +:+ Error err))
      | None =>
          match pool dimensions (S i) chunked (drop (length chunks) vectors) with
          | inr err => inr err
          | inl l => inl (mean :: l)
          end
      end
  end.

Definition lane_prefix (lane : Lane) : string :=
  match lane with
  | LaneWorker => "search_document: "
  | LaneInteractive => "search_query: "
  end.

(** The part of Embed before embedInputs: the chunks to send, text by text. *)
Definition Embed_prepare (c : HTTPClient) (ctxErr : option error) (ctxLane : option Lane)
    (sched : list nat) (isched : nat -> list nat) (texts : list string)
    : list (list TokenChunk) + error :=
  if is_empty (BaseURL c) then inr (invalidRequest "embedding backend URL is empty")
  else if negb (is_empty (PrefixOwner c)) && negb (String.eqb (PrefixOwner c) "legacy")
          && negb (String.eqb (PrefixOwner c) "client")
  then inr (invalidRequest "unsupported task prefix owner")
  else
    let modern := String.eqb (PrefixOwner c) "client" in
    match (if modern then clean_texts texts else inl texts) with
    | inr err => inr err
    | inl texts =>
        match ChunkTexts ctxErr sched isched texts (MaxChunksPerInput c) with
        | inr err => inr err
        | inl chunked =>
            if modern then prefix_all (lane_prefix (LaneFromContext ctxLane)) chunked
            else inl chunked
        end
    end.

Definition Embed (c : HTTPClient) (ctxErr : option error) (ctxLane : option Lane)
    (sched bsched : list nat) (isched : nat -> list nat) (acquire : nat -> option error)
    (post : list string -> embeddingsResponse + error) (texts : list string)
    : list (list float32) + error :=
  match Embed_prepare c ctxErr ctxLane sched isched texts with
  | inr err => inr err
  | inl chunked =>
      match embedInputs c ctxErr bsched acquire post (concat chunked) with
      | inr err => inr err
      | inl vectors => pool (Dimensions c) 0 chunked vectors
      end
  end.

(** ValidateTokenizer: [None] is a nil error. *)
Definition ValidateTokenizer : option error :=
  match Tokenize "atheros-search tokenizer readiness" with
  | inr err => Some (Wrapf ("validate llama.cpp /tokenize: " +:+ Error err) err)
  | inl tokens =>
      if bool_decide (tokens = [])
      then Some (Opaque "validate llama.cpp /tokenize: returned no tokens")
      else
        match Detokenize tokens with
        | inr err => Some (Wrapf ("validate llama.cpp /detokenize: " +:+ Error err) err)
        | inl text =>
            if is_empty text
            then Some (Opaque "validate llama.cpp /detokenize: returned empty content")
            else
              match Tokenize text with
              | inr err =>
                  Some (Wrapf ("validate llama.cpp tokenizer round trip: " +:+ Error err) err)
              | inl verified =>
                  if negb (Nat.eqb (length verified) (length tokens))
                  then Some (Opaque ("validate llama.cpp tokenizer round trip: got "
                         +:+ Itoa (Z.of_nat (length verified))
                         +:+ " tokens after detokenize, expected "
                         +:+ Itoa (Z.of_nat (length tokens))))
                  else if negb (bool_decide (verified = tokens))
                  then Some (Opaque "validate llama.cpp tokenizer round trip: token identities changed after detokenize")
                  else None
              end
        end
  end.
End embed.

(** NoopClient.Embed. *)
Definition NoopClient_Embed (Dimensions : Z) (texts : list string) : list (list float32) :=
  (fun _ => repeat f_zero (Z.to_nat Dimensions)) <$> texts.

(** ** Lane dispatch (lanes.go) *)

Section laned.
Context {LaneClient : Type}.

Record LanedClient := { Interactive : option LaneClient; Worker : option LaneClient }.

Definition NewLanedClient (NewLaneClient : Lane -> LaneClient) : LanedClient := {|
  Interactive := Some (NewLaneClient LaneInteractive);
  Worker := Some (NewLaneClient LaneWorker) |}.

(** LanedClient.Lane; [None] is the nil receiver and the nil result. *)
Definition LanedClient_Lane (c : option LanedClient) (lane : Lane) : option LaneClient :=
  match c with
  | None => None
  | Some c =>
      match lane, Worker c with
      | LaneWorker, Some w => Some w
      | _, _ => Interactive c
      end
  end.

Definition LanedClient_Embed {R} (c : option LanedClient) (ctxLane : option Lane)
    (embed : LaneClient -> R + error) : R + error :=
  match LanedClient_Lane c (LaneFromContext ctxLane) with
  | None => inr (Sentinel ErrNoLanes)
  | Some client => embed client
  end.

Definition LanedClient_Health (c : option LanedClient) (health : LaneClient -> option error)
    : option error :=
  match LanedClient_Lane c LaneInteractive with
  | None => Some (Sentinel ErrNoLanes)
  | Some client => health client
  end.
End laned.
Arguments LanedClient : clear implicits.

(** ** Bounded fan-out: lemmas *)

(** Every body ran, in some order. *)
Definition complete (sched : list nat) (total : nat) : Prop := sched ≡ₚ seq 0 total.

Lemma first_error_None {A} sched (fn : nat -> A + error) :
  first_error sched fn = None <-> forall i, i ∈ sched -> exists a, fn i = inl a.
Proof.
  induction sched as [|j sched IH]; simpl; [split; [intros _ i Hi; inversion Hi|done]|].
  destruct (fn j) eqn:E.
  - rewrite IH. setoid_rewrite elem_of_cons. naive_solver.
  - split; [done|]. intros H. destruct (H j) as [a Ha]; [by left|congruence].
Qed.

Lemma first_error_Some {A} sched (fn : nat -> A + error) e :
  first_error sched fn = Some e -> exists i, i ∈ sched /\ fn i = inr e.
Proof.
  induction sched as [|j sched IH]; simpl; [done|]. setoid_rewrite elem_of_cons.
  destruct (fn j) eqn:E; naive_solver.
Qed.

Lemma collect_lookup {A} (fn : nat -> A + error) n k :
  (forall i, (k <= i < k + n)%nat -> exists a, fn i = inl a) ->
  length (collect fn (seq k n)) = n /\
  forall i, (i < n)%nat -> exists a, collect fn (seq k n) !! i = Some a /\ fn (k + i)%nat = inl a.
Proof.
  revert k. induction n as [|n IH]; intros k H; simpl; [split; [done|lia]|].
  destruct (H k) as [a Ha]; [lia|]. rewrite Ha. simpl.
  destruct (IH (S k)) as [IH1 IH2]; [intros i Hi; apply H; lia|].
  split; [by rewrite IH1|]. intros [|i] Hi; simpl.
  - exists a. by rewrite Nat.add_0_r.
  - destruct (IH2 i) as (b & Hb & Hf); [lia|]. exists b. split; [done|].
    by rewrite <-Nat.add_succ_comm.
Qed.

(** A fan-out whose bodies all ran succeeds exactly when they all did, with
    the results in index order whatever the completion order. *)
Lemma runBounded_complete {A} sched total (fn : nat -> A + error) out :
  complete sched total ->
  runBounded None sched total fn = inl out <->
  length out = total /\ forall i, (i < total)%nat -> exists a, out !! i = Some a /\ fn i = inl a.
Proof.
  intros Hs. unfold runBounded.
  destruct total as [|total].
  { split; [intros [= <-]; split; [done|lia]|]. intros [Hl _]. by destruct out. }
  destruct (first_error sched fn) as [e|] eqn:E.
  - split; [done|]. intros [_ H]. apply first_error_Some in E as (i & Hi & He).
    rewrite Hs, elem_of_seq in Hi. destruct (H i) as (a & _ & Ha); [lia|congruence].
  - rewrite first_error_None in E.
    assert (HE : forall i, (0 <= i < 0 + S total)%nat -> exists a, fn i = inl a).
    { intros i Hi. apply E. rewrite Hs, elem_of_seq. lia. }
    destruct (collect_lookup fn (S total) 0 HE) as [Hl Hc]. split.
    + intros [= <-]. split; [done|]. intros i Hi. destruct (Hc i Hi) as (a & ? & ?). eauto.
    + intros [Hl' H']. f_equal. apply list_eq_same_length with (n := S total); [done|done|].
      intros i x y Hi Hx Hy. destruct (Hc i Hi) as (a & Ha & Hfa).
      destruct (H' i Hi) as (b & Hb & Hfb). simpl in Hfa. congruence.
Qed.

Lemma runBounded_error {A} ctxErr sched total (fn : nat -> A + error) e :
  complete sched total ->
  runBounded ctxErr sched total fn = inr e ->
  (exists i, (i < total)%nat /\ fn i = inr e) \/ ctxErr = Some e.
Proof.
  intros Hs. unfold runBounded. destruct total; [done|].
  destruct (first_error sched fn) eqn:E; [|destruct ctxErr; [|done]; intros [= ->]; auto].
  intros [= ->]. apply first_error_Some in E as (i & Hi & He).
  rewrite Hs, elem_of_seq in Hi. left. exists i. split; [lia|done].
Qed.

(** ** Chunking: the token ranges *)

Definition chunk_limit : nat := Z.to_nat ChunkTokenLimit.

Definition token_ranges (tokens : list Z) : list (list Z) :=
  token_range tokens <$> seq 0 (Z.to_nat (ceil_div (Z.of_nat (length tokens)) ChunkTokenLimit)).

Lemma concat_ranges tokens n k :
  concat ((fun i => token_range tokens i) <$> seq k n)
  = take (n * chunk_limit) (drop (k * chunk_limit) tokens).
Proof.
  revert k. induction n as [|n IH]; intros k; [done|].
  rewrite <-cons_seq, fmap_cons. simpl concat. rewrite IH. unfold token_range.
  fold chunk_limit.
  replace (S k * chunk_limit)%nat with (k * chunk_limit + chunk_limit)%nat by lia.
  replace (S n * chunk_limit)%nat with (chunk_limit + n * chunk_limit)%nat by lia.
  by rewrite <-drop_drop, take_take_drop.
Qed.

Lemma ceil_div_spec n d : 0 < d -> 0 < n -> (ceil_div n d - 1) * d < n <= ceil_div n d * d.
Proof.
  intros Hd Hn. unfold ceil_div.
  pose proof (Z.div_mod (n + d - 1) d ltac:(lia)).
  pose proof (Z.mod_pos_bound (n + d - 1) d Hd). nia.
Qed.

(** The ranges partition the tokens into full chunks and one remainder. *)
Lemma token_ranges_spec tokens :
  tokens <> [] ->
  concat (token_ranges tokens) = tokens /\
  (forall i r, token_ranges tokens !! i = Some r ->
     1 <= Z.of_nat (length r) <= ChunkTokenLimit /\
     (S i < length (token_ranges tokens) -> Z.of_nat (length r) = ChunkTokenLimit)%nat) /\
  Z.of_nat (length (token_ranges tokens)) = ceil_div (Z.of_nat (length tokens)) ChunkTokenLimit.
Proof.
  intros Hne. set (n := Z.of_nat (length tokens)).
  assert (Hn : 0 < n) by (destruct tokens; [done|unfold n; simpl; lia]).
  pose proof (ceil_div_spec n ChunkTokenLimit ltac:(done) Hn) as Hc.
  assert (Hpos : 0 < ceil_div n ChunkTokenLimit) by (unfold ChunkTokenLimit in *; lia).
  split; [|split].
  - unfold token_ranges. rewrite concat_ranges. simpl drop.
    apply take_ge. fold n. unfold chunk_limit, ChunkTokenLimit in *. lia.
  - intros i r Hr. unfold token_ranges in *. fold n in Hr |- *.
    rewrite length_fmap, length_seq.
    apply list_lookup_fmap_Some in Hr as (j & -> & Hj).
    apply lookup_seq in Hj as [-> Hj]. unfold token_range.
    rewrite length_take, length_drop. unfold ChunkTokenLimit in *. lia.
  - unfold token_ranges. rewrite length_fmap, length_seq. fold n. lia.
Qed.

Section chunk_lemmas.
Context {T : Tokenizer}.

(** What one chunk of a source is: the backend's text for its token range. *)
Definition chunk_of_range (range : list Z) (chunk : TokenChunk) : Prop :=
  Detokenize range = inl (Text chunk) /\ TokenCount chunk = Z.of_nat (length range).

(** The chunks of one source under a chunk budget. *)
Definition chunks_of (maxChunks : Z) (text : string) (chunks : list TokenChunk) : Prop :=
  exists tokens, Tokenize text = inl tokens /\
  if bool_decide (tokens = [])
  then TrimSpace text = "" /\ chunks = [{| Text := text; TokenCount := 0 |}]
  else (0 < maxChunks -> Z.of_nat (length (token_ranges tokens)) <= maxChunks) /\
       Forall2 chunk_of_range (token_ranges tokens) chunks.

(** The bodies of the inner fan-out all ran. *)
Definition chunk_schedule (sched : list nat) (text : string) : Prop :=
  forall tokens, Tokenize text = inl tokens -> complete sched (length (token_ranges tokens)).

Lemma length_token_ranges tokens :
  length (token_ranges tokens) = Z.to_nat (ceil_div (Z.of_nat (length tokens)) ChunkTokenLimit).
Proof. unfold token_ranges. by rewrite length_fmap, length_seq. Qed.

Lemma lookup_token_ranges tokens i :
  (i < length (token_ranges tokens))%nat -> token_ranges tokens !! i = Some (token_range tokens i).
Proof.
  rewrite length_token_ranges. intros Hi. unfold token_ranges.
  rewrite list_lookup_fmap, lookup_seq_lt by done. done.
Qed.

Lemma chunkOne_spec sched text maxChunks chunks :
  chunk_schedule sched text ->
  chunkOne None sched text maxChunks = inl chunks <-> chunks_of maxChunks text chunks.
Proof.
  intros Hs. unfold chunkOne, chunks_of, chunk_schedule in *.
  destruct (Tokenize text) as [tokens|err] eqn:Et; [|naive_solver].
  specialize (Hs tokens eq_refl).
  destruct (decide (tokens = [])) as [->|Hne].
  { simpl. destruct (is_empty (TrimSpace text)) eqn:He; simpl; split.
    - intros [= <-]. apply is_empty_true in He. exists []. done.
    - intros (? & [= <-] & H). rewrite bool_decide_true in H by done. by destruct H as [_ ->].
    - done.
    - intros (? & [= <-] & H). rewrite bool_decide_true in H by done. destruct H as [H _].
      apply is_empty_true in H. congruence. }
  rewrite bool_decide_false by done.
  assert (Hlen : ceil_div (Z.of_nat (length tokens)) ChunkTokenLimit
                 = Z.of_nat (length (token_ranges tokens))).
  { symmetry. by apply token_ranges_spec. }
  rewrite Hlen, Nat2Z.id.
  destruct ((0 <? maxChunks) && (maxChunks <? Z.of_nat (length (token_ranges tokens)))) eqn:Eb.
  { split; [done|]. intros (? & [= <-] & H). rewrite bool_decide_false in H by done.
    destruct H as [H _]. reflect_Z. lia. }
  rewrite runBounded_complete by done. split.
  - intros [Hl Hc]. exists tokens. split; [done|]. rewrite bool_decide_false by done.
    split; [intros ?; apply andb_false_iff in Eb as [Eb|Eb]; reflect_Z; lia|].
    apply Forall2_same_length_lookup_2; [by rewrite Hl|].
    intros i r c Hr Hc'. apply lookup_lt_Some in Hr as Hi. destruct (Hc i Hi) as (c' & Hc'' & Hf).
    rewrite lookup_token_ranges in Hr by done. simplify_eq.
    destruct (Detokenize _) eqn:Ed; [|done]. unfold chunk_of_range. by simplify_eq/=.
  - intros (? & [= <-] & H). rewrite bool_decide_false in H by done. destruct H as [_ H].
    split; [symmetry; by apply Forall2_length in H|]. intros i Hi.
    pose proof (lookup_token_ranges tokens i Hi) as Hr.
    destruct (Forall2_lookup_l _ _ _ _ _ H Hr) as (c & Hc & Hd & Ht).
    exists c. split; [done|]. rewrite Hd. destruct c; simpl in *; by subst.
Qed.

Lemma ChunkTexts_spec sched isched texts maxChunks out :
  complete sched (length texts) ->
  (forall i text, texts !! i = Some text -> chunk_schedule (isched i) text) ->
  ChunkTexts None sched isched texts maxChunks = inl out <->
  Forall2 (chunks_of maxChunks) texts out.
Proof.
  intros Hs Hi. unfold ChunkTexts. rewrite runBounded_complete by done.
  rewrite Forall2_same_length_lookup. split.
  - intros [Hl H]. split; [done|]. intros i text chunks Ht Hc.
    apply lookup_lt_Some in Ht as Hlt. destruct (H i Hlt) as (a & Ha & Hf).
    rewrite Ht in Hf. simpl in Hf. simplify_eq.
    destruct (chunkOne _ _ _ _) eqn:E; [|by repeat case_match].
    simplify_eq. by apply chunkOne_spec in E; [|eauto].
  - intros [Hl H]. split; [done|]. intros i Hlt.
    destruct (lookup_lt_is_Some_2 texts i Hlt) as [text Ht].
    destruct (lookup_lt_is_Some_2 out i) as [chunks Hc]; [lia|].
    exists chunks. split; [done|]. rewrite Ht. simpl.
    assert (E : chunkOne None (isched i) text maxChunks = inl chunks)
      by (apply chunkOne_spec; eauto).
    by rewrite E.
Qed.

(** Chunking.  Whatever order the goroutines finish in, ChunkTexts succeeds
    exactly when every source has its chunks within the budget, and then the
    token ranges behind the chunks of a source rebuild the source's tokens,
    every chunk holds between 1 and 480 tokens, every chunk but the last is
    full, and their number is within the budget. *)
Theorem chunk_texts_partition sched isched texts maxChunks out :
  complete sched (length texts) ->
  (forall i text, texts !! i = Some text -> chunk_schedule (isched i) text) ->
  (ChunkTexts None sched isched texts maxChunks = inl out <->
   Forall2 (chunks_of maxChunks) texts out) /\
  (ChunkTexts None sched isched texts maxChunks = inl out ->
   forall i text chunks tokens,
     texts !! i = Some text -> out !! i = Some chunks ->
     Tokenize text = inl tokens -> tokens <> [] ->
     exists ranges,
       concat ranges = tokens /\ Forall2 chunk_of_range ranges chunks /\
       Forall (fun c => 1 <= TokenCount c <= ChunkTokenLimit) chunks /\
       (forall j c, chunks !! j = Some c -> (S j < length chunks)%nat ->
          TokenCount c = ChunkTokenLimit) /\
       (0 < maxChunks -> Z.of_nat (length chunks) <= maxChunks)).
Proof.
  intros Hs Hi. pose proof (ChunkTexts_spec sched isched texts maxChunks out Hs Hi) as Hspec.
  split; [done|]. rewrite Hspec. intros H i text chunks tokens Ht Hc Htok Hne.
  destruct (Forall2_lookup_lr _ _ _ _ _ _ H Ht Hc) as (tokens' & Htok' & Hch). assert (tokens' = tokens) as -> by congruence.
  rewrite bool_decide_false in Hch by done. destruct Hch as [Hb Hch].
  destruct (token_ranges_spec tokens Hne) as (Hcat & Hr & _).
  pose proof (Forall2_length _ _ _ Hch) as Hlen.
  exists (token_ranges tokens). rewrite <-Hlen. split; [done|]. split; [done|].
  assert (Hrange : forall j c, chunks !! j = Some c ->
    exists r, token_ranges tokens !! j = Some r /\ TokenCount c = Z.of_nat (length r)).
  { intros j c Hj. destruct (Forall2_lookup_r _ _ _ _ _ Hch Hj) as (r & ? & _ & ?). eauto. }
  split; [|split; [|done]].
  - apply Forall_lookup. intros j c Hj. destruct (Hrange j c Hj) as (r & Hj' & ->).
    by apply (Hr j).
  - intros j c Hj Hlt. destruct (Hrange j c Hj) as (r & Hj' & ->). by apply (Hr j).
Qed.

(** An oversized source is reported with the index of a text whose chunk count
    is over the budget. *)
Lemma ChunkTexts_oversized sched isched texts maxChunks err i :
  complete sched (length texts) ->
  ChunkTexts None sched isched texts maxChunks = inr err ->
  (forall text e, Tokenize text = inr e -> As_OversizedInput e = None) ->
  (forall r e, Detokenize r = inr e -> As_OversizedInput e = None /\ errors_Is e errChunkBudget = false) ->
  (forall text e, Tokenize text = inr e -> errors_Is e errChunkBudget = false) ->
  (forall i text, texts !! i = Some text -> chunk_schedule (isched i) text) ->
  As_OversizedInput err = Some i ->
  exists text tokens,
    texts !! Z.to_nat i = Some text /\ Tokenize text = inl tokens /\ 0 < maxChunks /\
    maxChunks < ceil_div (Z.of_nat (length tokens)) ChunkTokenLimit.
Proof.
  intros Hs Hf Ht1 Hd Ht2 Hi Has. unfold ChunkTexts in Hf.
  apply runBounded_error in Hf as [(k & Hk & Hf)|]; [|done|done].
  destruct (lookup_lt_is_Some_2 texts k Hk) as [text Ht]. rewrite Ht in Hf. simpl in Hf.
  specialize (Hi k text Ht). unfold chunk_schedule in Hi. unfold chunkOne in Hf.
  destruct (Tokenize text) as [tokens|e] eqn:Et; simpl in Hf.
  2:{ rewrite (Ht2 _ _ Et) in Hf. simplify_eq/=. rewrite (Ht1 _ _ Et) in Has. done. }
  specialize (Hi tokens eq_refl). case_bool_decide.
  { by destruct (negb _); simplify_eq/=. }
  destruct ((0 <? maxChunks) && _) eqn:Eb; simpl in Hf.
  { simplify_eq/=. reflect_Z. exists text, tokens. by rewrite Nat2Z.id. }
  destruct (runBounded _ _ _ _) as [|e] eqn:Er; [done|].
  rewrite <-length_token_ranges in Er.
  apply runBounded_error in Er as [(j & _ & Hj)|]; [|done|done].
  destruct (Detokenize _) as [|e'] eqn:Ed; simplify_eq/=.
  destruct (Hd _ _ Ed) as [Hd1 Hd2]. rewrite Hd2 in Hf. simplify_eq/=.
Qed.
End chunk_lemmas.

(** ** Request packing *)

Definition tokens_in (batch : list TokenChunk) : Z := foldr Z.add 0 (TokenCount <$> batch).

Definition fits_request (c : TokenChunk) : Prop := TokenCount c <= RequestTokenLimit.

(** Consecutive batches could not have been one request. *)
Definition full_before (packLimit : Z) (b : list TokenChunk) (next : list TokenChunk) : Prop :=
  match next with
  | [] => True
  | x :: _ => packLimit < tokens_in b + TokenCount x
  end.

Lemma tokens_in_app a b : tokens_in (a ++ b) = tokens_in a + tokens_in b.
Proof. unfold tokens_in. rewrite fmap_app. induction a as [|x a IH]; csimpl; [done|]. rewrite IH. lia. Qed.

Lemma rev_nonempty {A} (l : list A) : l <> [] -> rev l <> [].
Proof. intros H E. apply H. rewrite <-(rev_involutive l), E. done. Qed.

Lemma extend_batch_ok packLimit rest batch b r :
  extend_batch packLimit (tokens_in (rev batch)) batch rest = inl (b, r) ->
  (tokens_in (rev batch) <= packLimit \/ length batch = 1%nat \/ batch = []) ->
  b ++ r = rev batch ++ rest /\ (batch ++ rest <> [] -> b <> []) /\
  (tokens_in b <= packLimit \/ length b = 1%nat \/ b = []) /\
  full_before packLimit b r /\
  exists taken, b = rev batch ++ taken /\ Forall fits_request taken.
Proof.
  revert batch. induction rest as [|x rest IH]; intros batch; cbn [extend_batch].
  - intros [= <- <-] Hb. repeat split; try done.
    + rewrite app_nil_r. apply rev_nonempty.
    + rewrite length_rev. destruct Hb as [|[|]]; [auto|auto|]. subst. auto.
    + exists []. by rewrite app_nil_r.
  - destruct (RequestTokenLimit <? TokenCount x) eqn:Ef; [done|].
    destruct (negb _ && _) eqn:E.
    + intros [= <- <-] Hb. apply andb_true_iff in E as [E1 E2].
      apply negb_true_iff, bool_decide_eq_false in E1. reflect_Z. repeat split; try done.
      * intros _. by apply rev_nonempty.
      * rewrite length_rev. destruct Hb as [|[|]]; [auto|auto|done].
      * exists []. by rewrite app_nil_r.
    + replace (tokens_in (rev batch) + TokenCount x) with (tokens_in (rev (x :: batch)))
        by (cbn [rev]; rewrite tokens_in_app; unfold tokens_in; simpl; lia).
      intros H Hb. apply IH in H as (Hc & Hn & Hl & Hf & taken & Hr & Hfit).
      * repeat split; try done; try (simpl in Hc; rewrite <-app_assoc in Hc; done).
        -- intros _. apply Hn. by destruct batch.
        -- exists (x :: taken). split; [|constructor; [unfold fits_request; reflect_Z; lia|done]].
           rewrite Hr. simpl. by rewrite <-app_assoc.
      * apply andb_false_iff in E as [E|E].
        -- apply negb_false_iff, bool_decide_eq_true in E. subst. right. left. done.
        -- reflect_Z. left. cbn [rev]. rewrite tokens_in_app.
           replace (tokens_in [x]) with (TokenCount x) by (unfold tokens_in; simpl; lia). lia.
Qed.

Lemma extend_batch_error packLimit count batch rest :
  (exists e, extend_batch packLimit count batch rest = inr e) ->
  exists x, x ∈ rest /\ ~ fits_request x.
Proof.
  revert count batch. induction rest as [|x rest IH]; intros count batch [e H]; [done|].
  cbn [extend_batch] in H. destruct (RequestTokenLimit <? TokenCount x) eqn:Ef.
  { exists x. split; [by left|]. unfold fits_request. reflect_Z. lia. }
  destruct (negb _ && _); [done|]. edestruct IH as (y & Hy & Hn); [by eauto|].
  exists y. split; [by right|done].
Qed.

(** The greedy batches of a list of chunks. *)
Definition packed (packLimit : Z) (inputs : list TokenChunk) (batches : list (list TokenChunk)) : Prop :=
  concat batches = inputs /\
  Forall fits_request inputs /\
  Forall (fun b => b <> [] /\ (tokens_in b <= packLimit \/ length b = 1%nat)) batches /\
  (forall i b next, batches !! i = Some b -> batches !! S i = Some next ->
     full_before packLimit b next).

Lemma extend_batch_fresh packLimit inputs b r :
  extend_batch packLimit 0 [] inputs = inl (b, r) ->
  b ++ r = inputs /\ (inputs <> [] -> b <> []) /\
  (tokens_in b <= packLimit \/ length b = 1%nat \/ b = []) /\
  full_before packLimit b r /\ Forall fits_request b.
Proof.
  intros H. change 0 with (tokens_in (rev [])) in H.
  apply extend_batch_ok in H as (H1 & H2 & H3 & H4 & taken & -> & H5); [|auto].
  repeat split; auto.
Qed.

Lemma pack_spec packLimit fuel inputs :
  (length inputs <= fuel)%nat ->
  match pack fuel packLimit inputs with
  | inl batches => packed packLimit inputs batches
  | inr _ => exists x, x ∈ inputs /\ ~ fits_request x
  end.
Proof.
  revert inputs. induction fuel as [|fuel IH]; intros inputs Hf.
  { destruct inputs; simpl in *; [|lia]. by repeat constructor. }
  destruct inputs as [|x inputs]; [by repeat constructor|].
  cbn [pack]. destruct (extend_batch _ _ _ _) as [[b r]|e] eqn:E.
  2:{ apply (extend_batch_error packLimit 0 []). eauto. }
  apply extend_batch_fresh in E as (H1 & H2 & H3 & H4 & H5).
  assert (Hb : b <> []) by auto. rewrite <-H1 in *.
  assert (Hr : (length r <= fuel)%nat).
  { apply (f_equal length) in H1. rewrite length_app in H1. simpl in H1, Hf.
    destruct b; [done|]. rewrite length_app in Hf. simpl in *. lia. }
  specialize (IH r Hr). destruct (pack fuel packLimit r) as [batches|e].
  - destruct IH as (I1 & I2 & I3 & I4). repeat split.
    + simpl. by rewrite I1.
    + by apply Forall_app.
    + constructor; [split; [done|tauto]|done].
    + intros [|i] b' next; simpl; [|by apply I4]. intros [= <-] Hn.
      destruct batches as [|b2 batches]; [done|]. simplify_eq/=.
      inversion I3 as [|? ? [Hne _] _]; subst. unfold full_before in *.
      by destruct next.
  - destruct IH as (y & Hy & Hn). exists y. split; [apply elem_of_app; by right|done].
Qed.

(** Request packing.  The packing loop of embedInputs ends and either names
    a chunk over the hard request limit, or cuts the chunks, in order and
    without loss, into non-empty requests within the packing budget (a single
    chunk may exceed it), each of which the next chunk would have overfilled. *)
Theorem pack_requests packLimit inputs :
  match pack_inputs packLimit inputs with
  | inl batches => packed packLimit inputs batches
  | inr _ => exists x, x ∈ inputs /\ ~ fits_request x
  end.
Proof. apply pack_spec. done. Qed.

(** ** Associating vectors with inputs *)

Definition item_at (items : list embeddingsItem) (k : nat) (v : list float32) : Prop :=
  exists item, item ∈ items /\ Index item = Some (Z.of_nat k) /\ Embedding item = v.

(** The indexes of a fully indexed response are those of its items. *)
Definition indexes (items : list embeddingsItem) : list (option Z) := Index <$> items.

Definition full_index (items : list embeddingsItem) : Prop :=
  indexes items ≡ₚ (fun k => Some (Z.of_nat k)) <$> seq 0 (length items).

Lemma associate_length indexed i items seen vectors vs :
  associate indexed i items seen vectors = inl vs -> length vs = length vectors.
Proof.
  revert i seen vectors. induction items as [|it items IH]; intros i seen vectors; simpl.
  - by intros [= ->].
  - repeat case_match; try done; intros Ha; apply IH in Ha; by rewrite length_insert in Ha.
Qed.

(** [seen] marks exactly the places that are filled, and an accepted loop fills
    every remaining item's own place once. *)
Lemma associate_indexed i items seen vectors vs :
  length seen = length vectors ->
  associate true i items seen vectors = inl vs <->
  length vs = length vectors /\ NoDup (indexes items) /\
  (forall it, it ∈ items -> exists k, Index it = Some (Z.of_nat k) /\
     seen !! k = Some false /\ vs !! k = Some (Embedding it)) /\
  (forall k, Some (Z.of_nat k) ∉ indexes items -> vs !! k = vectors !! k).
Proof.
  revert i seen vectors. induction items as [|it items IH]; intros i seen vectors Hlen; simpl.
  { split.
    - intros [= ->]. repeat split; [constructor|by intros ? []%elem_of_nil].
    - intros (Hl & _ & _ & H). f_equal. apply list_eq. intros k. symmetry. apply H. by intros []%elem_of_nil. }
  destruct (Index it) as [n|] eqn:En; simpl.
  2:{ split; [done|]. intros (_ & _ & H & _). destruct (H it) as (k & ? & _); [by left|congruence]. }
  destruct ((n <? 0) || _ || _) eqn:Eb.
  { split; [done|]. intros (Hl & _ & H & _). destruct (H it) as (k & Hk & Hs & Hv); [by left|].
    assert (n = Z.of_nat k) as -> by congruence. apply lookup_lt_Some in Hv as Hlt.
    rewrite Nat2Z.id, Hs in Eb. simpl in Eb. rewrite orb_false_r in Eb.
    apply orb_true_iff in Eb as [Eb|Eb]; reflect_Z; lia. }
  reflect_Z. destruct (Z_of_nat_complete n) as [k ->]; [lia|]. rewrite Nat2Z.id in *.
  destruct (lookup_lt_is_Some_2 seen k) as [b Hb]; [lia|]. rewrite Hb in *. simpl in *. subst b.
  rewrite IH by (by rewrite !length_insert). rewrite length_insert. unfold indexes. simpl.
  rewrite NoDup_cons. fold (indexes items). split.
  - intros (Hl & Hnd & Hit & Hrest).
    assert (Hk : Some (Z.of_nat k) ∉ indexes items).
    { intros Hin. apply list_elem_of_fmap in Hin as (it' & Hix & Hin').
      destruct (Hit it' Hin') as (k' & Hk' & Hs' & _).
      assert (k' = k) as -> by (assert (Some (Z.of_nat k') = Some (Z.of_nat k)) by congruence; naive_solver lia).
      rewrite list_lookup_insert_eq in Hs' by lia. done. }
    split; [done|]. split; [by split|]. split.
    + intros it' [->|Hin]%elem_of_cons.
      * exists k. split; [done|]. split; [done|]. rewrite Hrest by congruence.
        by rewrite list_lookup_insert_eq by lia.
      * destruct (Hit it' Hin) as (k' & ? & Hs & ?). exists k'. split; [done|]. split; [|done].
        destruct (decide (k' = k)) as [->|]; [by rewrite list_lookup_insert_eq in Hs by lia|].
        by rewrite list_lookup_insert_ne in Hs by done.
    + intros k' Hk'. rewrite elem_of_cons in Hk'. rewrite Hrest by tauto.
      apply list_lookup_insert_ne. intros ->. apply Hk'. by left.
  - intros (Hl & [Hk Hnd] & Hit & Hrest).
    split; [done|]. split; [done|]. split.
    + intros it' Hin. destruct (Hit it') as (k' & Hi' & Hs & Hv); [by right|].
      exists k'. split; [done|]. split; [|done]. rewrite list_lookup_insert_ne; [done|].
      intros ->. apply Hk. rewrite <-Hi'. by apply list_elem_of_fmap_2.
    + intros k' Hk'. destruct (decide (k' = k)) as [->|Hne].
      * rewrite list_lookup_insert_eq by lia. destruct (Hit it) as (k'' & Hi' & _ & Hv); [by left|].
        assert (k'' = k) as -> by (rewrite En in Hi'; naive_solver lia). done.
      * rewrite list_lookup_insert_ne by done. apply Hrest. rewrite elem_of_cons.
        intros [E|]; [|done]. apply Hne. naive_solver lia.
Qed.

Lemma lookup_repeat {A} (x : A) n k : (k < n)%nat -> repeat x n !! k = Some x.
Proof. revert k. induction n; intros [|k] Hk; simpl; try lia; [done|]. apply IHn. lia. Qed.

Lemma validate_all_None i vectors dimensions :
  validate_all i vectors dimensions = None
  <-> Forall (fun v => ValidateVector v dimensions = None) vectors.
Proof.
  revert i. induction vectors as [|v vectors IH]; intros i; simpl; [by split|].
  rewrite Forall_cons. destruct (ValidateVector v dimensions); [naive_solver|].
  rewrite IH. naive_solver.
Qed.

Lemma full_index_NoDup items : full_index items -> NoDup (indexes items).
Proof.
  unfold full_index. intros H. rewrite H. apply NoDup_fmap; [intros ?? ?; naive_solver lia|]. apply NoDup_seq.
Qed.

Lemma full_index_of_range items :
  NoDup (indexes items) ->
  (forall it, it ∈ items -> exists k, Index it = Some (Z.of_nat k) /\ (k < length items)%nat) ->
  full_index items.
Proof.
  intros Hnd Hit. unfold full_index. apply submseteq_length_Permutation.
  - apply NoDup_submseteq; [done|]. intros x Hx. apply list_elem_of_fmap in Hx as (it & -> & Hin).
    destruct (Hit it Hin) as (k & -> & Hk). apply list_elem_of_fmap. exists k. split; [done|]. apply elem_of_seq. lia.
  - unfold indexes. rewrite !length_fmap, length_seq. done.
Qed.

Lemma full_index_lookup items it :
  full_index items -> it ∈ items ->
  exists k, Index it = Some (Z.of_nat k) /\ (k < length items)%nat.
Proof.
  intros Hf Hin. assert (Hx : Index it ∈ indexes items) by by apply list_elem_of_fmap_2.
  unfold full_index in Hf. rewrite Hf in Hx. apply list_elem_of_fmap in Hx as (k & -> & Hk).
  apply elem_of_seq in Hk. exists k. split; [done|lia].
Qed.

Lemma full_index_elem items k :
  full_index items -> (k < length items)%nat ->
  exists it, it ∈ items /\ Index it = Some (Z.of_nat k).
Proof.
  intros Hf Hk. assert (Hx : Some (Z.of_nat k) ∈ indexes items).
  { unfold full_index in Hf. rewrite Hf. apply list_elem_of_fmap. exists k. split; [done|]. apply elem_of_seq. lia. }
  apply list_elem_of_fmap in Hx as (it & Hi & ?). by exists it.
Qed.

Lemma associate_fresh items vs :
  associate true 0 items (repeat false (length items)) (repeat [] (length items)) = inl vs <->
  length vs = length items /\ full_index items /\
  (forall it k, it ∈ items -> Index it = Some (Z.of_nat k) -> vs !! k = Some (Embedding it)).
Proof.
  rewrite associate_indexed by (by rewrite !repeat_length). rewrite repeat_length. split.
  - intros (Hl & Hnd & Hit & _). split; [done|]. split.
    + apply full_index_of_range; [done|]. intros it Hin. destruct (Hit it Hin) as (k & ? & _ & Hv).
      exists k. split; [done|]. apply lookup_lt_Some in Hv. lia.
    + intros it k Hin Hk. destruct (Hit it Hin) as (k' & ? & _ & ?).
      assert (k = k') as -> by naive_solver lia. done.
  - intros (Hl & Hf & Hit). split; [done|]. split; [by apply full_index_NoDup|]. split.
    + intros it Hin. destruct (full_index_lookup _ _ Hf Hin) as (k & Hk & Hlt).
      exists k. split; [done|]. split; [|by apply Hit].
      by apply lookup_repeat.
    + intros k Hk. rewrite !lookup_ge_None_2; [done|rewrite repeat_length|rewrite Hl];
        destruct (decide (k < length items)%nat) as [Hlt|]; try lia;
        destruct (full_index_elem items k Hf Hlt) as (it & Hin & Hi);
        destruct Hk; rewrite <-Hi; by apply list_elem_of_fmap_2.
Qed.

Definition indexed_response (items : list embeddingsItem) : embeddingsResponse :=
  {| Data := items; Embeddings := [] |}.

Lemma embedOnce_indexed c inputs it0 items vs :
  is_Some (Index it0) ->
  embedOnce c inputs (inl (indexed_response (it0 :: items))) = inl vs <->
  length vs = length inputs /\ length inputs = length (it0 :: items) /\
  full_index (it0 :: items) /\
  (forall it k, it ∈ it0 :: items -> Index it = Some (Z.of_nat k) -> vs !! k = Some (Embedding it)) /\
  Forall (fun v => ValidateVector v (Dimensions c) = None) vs.
Proof.
  intros Hi. cbn [embedOnce indexed_response Embeddings Data]. rewrite bool_decide_true by done.
  pose proof (associate_fresh (it0 :: items)) as Hs.
  destruct (associate _ _ _ _ _) as [vs'|e]; [|split; [done|]].
  2:{ intros (Hl & Hl' & Hf & Hv & _). exfalso. destruct (Hs vs) as [_ Hs']. discriminate Hs'.
      split; [congruence|done]. }
  destruct (Hs vs') as [Hs' _]. specialize (Hs' eq_refl) as (Hl & Hf & Hv). split.
  - destruct (Nat.eqb_spec (length vs') (length inputs)) as [Heq|]; simpl; [|done].
    destruct (validate_all 0 vs' (Dimensions c)) eqn:Ev; [done|]. intros [= <-].
    apply validate_all_None in Ev. split; [done|]. split; [simpl in *; lia|]. done.
  - intros (Hl1 & Hl2 & _ & Hv2 & Hall). destruct (Hs vs) as [_ Hs2].
    assert (E : @inl (list (list float32)) error vs' = inl vs) by (apply Hs2; split; [congruence|done]).
    injection E as ->. rewrite (proj2 (Nat.eqb_eq _ _)) by done. simpl.
    by rewrite (proj2 (validate_all_None 0 vs (Dimensions c))).
Qed.

(** Index association.  A response whose items carry indexes is accepted
    exactly when the indexes are those of the inputs, each once, and every
    vector is usable; each input then gets the vector of the item with its
    index, so the order of the response array does not matter. *)
Theorem embed_once_index_association c inputs it0 items vs :
  is_Some (Index it0) ->
  (embedOnce c inputs (inl (indexed_response (it0 :: items))) = inl vs <->
   length vs = length inputs /\ length inputs = length (it0 :: items) /\
   full_index (it0 :: items) /\
   (forall it k, it ∈ it0 :: items -> Index it = Some (Z.of_nat k) -> vs !! k = Some (Embedding it)) /\
   Forall (fun v => ValidateVector v (Dimensions c) = None) vs) /\
  (embedOnce c inputs (inl (indexed_response (it0 :: items))) = inl vs ->
   forall items', items' ≡ₚ it0 :: items ->
     embedOnce c inputs (inl (indexed_response items')) = inl vs).
Proof.
  intros Hi. split; [by apply embedOnce_indexed|]. intros H items' Hp.
  apply embedOnce_indexed in H as (H1 & H2 & H3 & H4 & H5); [|done].
  assert (Hf' : full_index items').
  { unfold full_index, indexes in *. rewrite (Permutation_length Hp), <-H3. by rewrite Hp. }
  destruct items' as [|it0' items']; [by apply Permutation_nil in Hp|].
  apply embedOnce_indexed.
  { destruct (full_index_lookup _ it0' Hf') as (k & -> & _); [by left|done]. }
  split; [done|]. split; [by rewrite Hp|]. split; [done|]. split; [|done].
  intros it k Hin. rewrite Hp in Hin. by apply H4.
Qed.

(** ** Batching is transparent *)

(** A backend that embeds each input by itself: the order of the inputs and the
    way they are cut into requests cannot matter to it. *)
Record pointwise (dimensions : Z) (vec : string -> list float32)
    (post : list string -> embeddingsResponse + error) : Prop := {
  pointwise_post l : post l = inl {| Data := []; Embeddings := vec <$> l |};
  pointwise_valid t : ValidateVector (vec t) dimensions = None;
}.

Definition chunk_vectors (vec : string -> list float32) (chunks : list TokenChunk)
    : list (list float32) := (fun ch => vec (Text ch)) <$> chunks.

Lemma chunk_vectors_texts vec chunks : vec <$> (Text <$> chunks) = chunk_vectors vec chunks.
Proof. unfold chunk_vectors. by rewrite <-list_fmap_compose. Qed.

Lemma chunk_vectors_app vec a b :
  chunk_vectors vec (a ++ b) = chunk_vectors vec a ++ chunk_vectors vec b.
Proof. apply fmap_app. Qed.

Lemma length_chunk_vectors vec a : length (chunk_vectors vec a) = length a.
Proof. apply length_fmap. Qed.

(** The result without batching: each text is the mean of its chunks' vectors. *)
Fixpoint pooled (dimensions : Z) (vec : string -> list float32) (i : nat)
    (chunked : list (list TokenChunk)) : list (list float32) + error :=
  match chunked with
  | [] => inl []
  | chunks :: chunked =>
      let mean := meanVectors (chunk_vectors vec chunks) dimensions in
      match ValidateVector mean dimensions with
      | Some err => inr (invalidRequest ("pooled embedding input " +:+ Itoa (Z.of_nat i)
                           +:+ ": " +:+ Error err))
      | None =>
          match pooled dimensions vec (S i) chunked with
          | inr err => inr err
          | inl l => inl (mean :: l)
          end
      end
  end.

Lemma embedOnce_pointwise c vec post l :
  pointwise (Dimensions c) vec post -> embedOnce c l (post l) = inl (vec <$> l).
Proof.
  intros [Hp Hv]. rewrite Hp. cbn [embedOnce Embeddings Data].
  assert (E : match vec <$> l with
              | [] => inl []
              | embs => @inl (list (list float32)) error embs end = inl (vec <$> l)) by by destruct l.
  destruct (vec <$> l) as [|v vs] eqn:Ev; cbv iota;
    rewrite <-Ev, length_fmap, Nat.eqb_refl; simpl;
    rewrite (proj2 (validate_all_None 0 _ (Dimensions c))); try done;
    apply Forall_fmap, Forall_true; intros x; apply Hv.
Qed.

Lemma embedInputs_pointwise c vec post acquire bsched inputs :
  pointwise (Dimensions c) vec post ->
  (forall i, acquire i = None) ->
  Forall fits_request inputs ->
  (forall batches, pack_inputs (packTokenLimit c) inputs = inl batches ->
     complete bsched (length batches)) ->
  embedInputs c None bsched acquire post inputs = inl (chunk_vectors vec inputs).
Proof.
  intros Hp Ha Hfit Hs. destruct inputs as [|x inputs]; [done|].
  set (l := x :: inputs) in *. unfold embedInputs. fold l. change (match l with [] => _ | _ => ?b end) with b.
  pose proof (pack_requests (packTokenLimit c) l) as Hpack.
  destruct (pack_inputs _ l) as [batches|e].
  2:{ destruct Hpack as (y & Hy & Hn). rewrite Forall_forall in Hfit. by destruct Hn; apply Hfit. }
  destruct Hpack as (Hcat & _ & _ & _). specialize (Hs batches eq_refl).
  rewrite (proj2 (runBounded_complete bsched (length batches) _
    (chunk_vectors vec <$> batches) Hs)).
  - rewrite <-Hcat. f_equal. clear. induction batches as [|b bs IH]; csimpl; [done|].
    unfold chunk_vectors in *. by rewrite IH, fmap_app.
  - rewrite length_fmap. split; [done|]. intros i Hi.
    destruct (lookup_lt_is_Some_2 batches i Hi) as [b Hb].
    eexists. split; [rewrite list_lookup_fmap, Hb; done|]. rewrite Ha, Hb. simpl.
    by rewrite (embedOnce_pointwise c vec), chunk_vectors_texts.
Qed.

Lemma pool_pooled dimensions vec i chunked :
  pool dimensions i chunked (chunk_vectors vec (concat chunked)) = pooled dimensions vec i chunked.
Proof.
  revert i. induction chunked as [|ch chunked IH]; intros i; [done|]. cbn [pool pooled concat].
  rewrite chunk_vectors_app, take_app_length', drop_app_length' by by rewrite length_chunk_vectors.
  by rewrite IH.
Qed.

Section transparent.
Context {T : Tokenizer}.

Lemma chunks_fit_request maxChunks text chunks :
  chunks_of maxChunks text chunks -> Forall fits_request chunks.
Proof.
  intros (tokens & _ & H). case_bool_decide as Hne.
  { destruct H as [_ ->]. repeat constructor. unfold fits_request, RequestTokenLimit. simpl. lia. }
  destruct H as [_ H]. apply Forall_lookup. intros i c Hc.
  destruct (Forall2_lookup_r _ _ _ _ _ H Hc) as (r & Hr & _ & Ht).
  destruct (token_ranges_spec tokens Hne) as (_ & Hr' & _). destruct (Hr' i r Hr) as [Hl _].
  unfold fits_request, RequestTokenLimit, ChunkTokenLimit in *. lia.
Qed.

Lemma prefix_chunks_fit prefix chunks out :
  prefix_chunks prefix chunks = inl out -> Forall fits_request out.
Proof.
  revert out. induction chunks as [|ch chunks IH]; intros out; cbn [prefix_chunks].
  { intros [= <-]. constructor. }
  destruct (Tokenize _) as [tokens|]; [|done].
  destruct (_ <? _) eqn:E; [done|]. destruct (prefix_chunks prefix chunks); [|done].
  intros [= <-]. reflect_Z. constructor; [|auto].
  unfold fits_request, RequestTokenLimit, DefaultMaxTokens in *. simpl. lia.
Qed.

Lemma prefix_all_fit prefix chunked out :
  prefix_all prefix chunked = inl out -> Forall (Forall fits_request) out.
Proof.
  revert out. induction chunked as [|chunks chunked IH]; intros out; cbn [prefix_all].
  { intros [= <-]. constructor. }
  destruct (prefix_chunks prefix chunks) eqn:E; [|done].
  destruct (prefix_all prefix chunked); [|done].
  intros [= <-]. constructor; [by eapply prefix_chunks_fit|auto].
Qed.

(** The texts that are chunked. *)
Definition effective_texts (c : HTTPClient) (texts : list string) : list string + error :=
  if String.eqb (PrefixOwner c) "client" then clean_texts texts else inl texts.

(** Every fan-out of the preparation ran all of its bodies. *)
Definition prepare_schedules (c : HTTPClient) (sched : list nat) (isched : nat -> list nat)
    (texts : list string) : Prop :=
  complete sched (length texts) /\
  forall texts' i text,
    effective_texts c texts = inl texts' -> texts' !! i = Some text -> chunk_schedule (isched i) text.

Lemma clean_texts_length texts l : clean_texts texts = inl l -> length l = length texts.
Proof.
  revert l. induction texts as [|t texts IH]; intros l; cbn [clean_texts]; [by intros [= <-]|].
  destruct (is_empty _); [done|]. destruct (clean_texts texts); [|done].
  intros [= <-]. simpl. by rewrite (IH l0).
Qed.

Lemma prepare_fits c ctxLane sched isched texts chunked :
  prepare_schedules c sched isched texts ->
  Embed_prepare c None ctxLane sched isched texts = inl chunked ->
  Forall (Forall fits_request) chunked.
Proof.
  intros [Hs Hi]. unfold Embed_prepare, effective_texts in *. destruct (is_empty _); [done|].
  destruct (_ && negb (String.eqb _ "client")); [done|].
  destruct (String.eqb (PrefixOwner c) "client").
  - destruct (clean_texts texts) as [l|] eqn:El; [|done].
    destruct (ChunkTexts _ _ _ _ _); [|done]. apply prefix_all_fit.
  - destruct (ChunkTexts _ _ _ _ _) eqn:E; [|done]. intros [= <-].
    apply ChunkTexts_spec in E; [|done|eauto]. clear -E.
    induction E; constructor; eauto using chunks_fit_request.
Qed.

(** C18. Batching is transparent.  With a backend that embeds every input by
    itself, Embed answers the mean of each text's own chunk vectors, whatever
    the packing budget, the grouping into requests and the order in which
    chunks and requests finish. *)
Theorem embed_batching_transparent c ctxLane sched bsched isched acquire post vec texts chunked :
  prepare_schedules c sched isched texts ->
  Embed_prepare c None ctxLane sched isched texts = inl chunked ->
  pointwise (Dimensions c) vec post ->
  (forall i, acquire i = None) ->
  (forall batches, pack_inputs (packTokenLimit c) (concat chunked) = inl batches ->
     complete bsched (length batches)) ->
  Embed c None ctxLane sched bsched isched acquire post texts
  = pooled (Dimensions c) vec 0 chunked.
Proof.
  intros Hs He Hp Ha Hb. unfold Embed. rewrite He.
  rewrite (embedInputs_pointwise c vec post acquire bsched) by
    (try done; apply Forall_concat; by eapply prepare_fits).
  apply pool_pooled.
Qed.
End transparent.

(** ** Error classification *)

(** A transport error that is none of the outcomes the breaker ignores. *)
Definition transport_fault (err : error) : bool :=
  negb (errors_Is err ErrOversizedInput || errors_Is err ErrInvalidRequest
        || errors_Is err ErrCircuitOpen || errors_Is err GoErrors.Canceled).

(** The replies that say the backend is unhealthy. *)
Definition backend_fault {A} (reply : http_reply A) : bool :=
  match reply with
  | BuildError _ => false
  | DoError err => transport_fault err
  | Reply status _ body decoded =>
      if (200 <=? status) && (status <? 300) then
        match decoded with inl _ => false | inr _ => true end
      else
        match body with
        | inr readErr => transport_fault readErr
        | inl _ => (500 <=? status) || (status =? 429)
        end
  end.

(** Error classification.  A request succeeds exactly on a 2xx reply that
    decodes; any failure counts against the circuit breaker exactly when the
    backend is at fault: a transport or body-read fault, a 5xx, a 429 or an
    undecodable 2xx.  Every other status, and a request that could not be
    built, is a rejected request that leaves the breaker alone. *)
Theorem post_json_classification {A} json_error c (reply : http_reply A) :
  BaseURL c <> "" ->
  match postJSON json_error c reply with
  | inl a => exists status text body,
      reply = Reply status text body (inl a) /\ 200 <= status < 300
  | inr err =>
      IsCircuitFailure None (Some err) = backend_fault reply /\
      (backend_fault reply = true -> errors_Is err ErrBackendUnavailable = true)
  end.
Proof.
  intros Hu. unfold postJSON.
  destruct (is_empty (BaseURL c)) eqn:E; [by apply is_empty_true in E|].
  destruct reply as [err|err|status text body decoded]; [done| |].
  { cbn [backend_fault]. unfold transport_fault, IsCircuitFailure. simpl.
    destruct (errors_Is err ErrOversizedInput), (errors_Is err ErrInvalidRequest),
      (errors_Is err ErrCircuitOpen), (errors_Is err GoErrors.Canceled); done. }
  cbn [backend_fault].
  destruct (Z.ltb_spec status 200), (Z.leb_spec 200 status), (Z.leb_spec 300 status),
    (Z.ltb_spec status 300); try lia; cbn [negb andb orb];
    try (destruct decoded as [a|err]; [exists status, text, body; split; [done|lia]|done]).
  all: destruct body as [responseBody|readErr].
  all: try (unfold transport_fault, IsCircuitFailure; simpl;
    destruct (errors_Is readErr ErrOversizedInput), (errors_Is readErr ErrInvalidRequest),
      (errors_Is readErr ErrCircuitOpen), (errors_Is readErr GoErrors.Canceled); done).
  all: destruct (500 <=? status), (status =? 429); done.
Qed.

(** ** Witnesses: a tokenizer with one token per byte *)

Definition byte_codes (s : string) : list Z := (fun ch => code ch) <$> bytes s.

Definition byte_tokenizer : Tokenizer := {|
  Tokenize s := inl (byte_codes s);
  Detokenize tokens := inl (of_bytes ((fun z => ascii_of_nat (Z.to_nat z)) <$> tokens));
|}.

Definition sample_text : string := of_bytes (repeat "x"%char 500).

Definition sample_sched (i : nat) : list nat := match i with O => [0%nat] | _ => [1%nat; 0%nat] end.

Lemma sample_schedule (i : nat) text :
  ["ab"; sample_text] !! i = Some text -> chunk_schedule (T := byte_tokenizer) (sample_sched i) text.
Proof.
  intros H tokens Ht. destruct i as [|[|i]]; [| |done]; injection H as <-; injection Ht as <-.
  - apply Permutation_refl.
  - assert (E : length (token_ranges (byte_codes sample_text)) = 2%nat) by (vm_compute; reflexivity).
    rewrite E. apply Permutation_swap.
Qed.

Lemma chunk_texts_partition_witness :
  exists chunks,
    ChunkTexts (T := byte_tokenizer) None [1%nat; 0%nat] sample_sched ["ab"; sample_text] 2
    = inl [[{| Text := "ab"; TokenCount := 2 |}]; chunks] /\
    exists ranges, concat ranges = byte_codes sample_text /\
      Forall2 (chunk_of_range (T := byte_tokenizer)) ranges chunks /\
      Forall (fun c => 1 <= TokenCount c <= ChunkTokenLimit) chunks /\
      (forall j c, chunks !! j = Some c -> (S j < length chunks)%nat -> TokenCount c = ChunkTokenLimit) /\
      (0 < 2 -> Z.of_nat (length chunks) <= 2).
Proof.
  eexists [_; _]. split; [vm_compute; reflexivity|].
  eapply (proj2 (chunk_texts_partition (T := byte_tokenizer) [1%nat; 0%nat] sample_sched ["ab"; sample_text] 2 _
    (Permutation_swap _ _ _) sample_schedule)) with (i := 1%nat);
    [vm_compute; reflexivity|reflexivity|reflexivity|reflexivity|vm_compute; discriminate].
Defined.

Definition sample_client : HTTPClient := NewHTTPClient "http://embed/" "m" 1.

Definition sample_items : list embeddingsItem :=
  [{| Embedding := [f32_of_Z 2]; Index := Some 1 |}; {| Embedding := [f32_of_Z 3]; Index := Some 0 |}].

Lemma embed_once_index_association_witness :
  full_index sample_items /\
  embedOnce sample_client ["a"; "b"] (inl (indexed_response sample_items))
  = inl [[f32_of_Z 3]; [f32_of_Z 2]].
Proof.
  assert (H : embedOnce sample_client ["a"; "b"] (inl (indexed_response sample_items))
              = inl [[f32_of_Z 3]; [f32_of_Z 2]]) by (vm_compute; reflexivity).
  split; [|exact H].
  destruct (embed_once_index_association sample_client ["a"; "b"]
    {| Embedding := [f32_of_Z 2]; Index := Some 1 |}
    [{| Embedding := [f32_of_Z 3]; Index := Some 0 |}] [[f32_of_Z 3]; [f32_of_Z 2]])
    as [H1 _]; [by eexists|].
  apply H1 in H. apply H.
Defined.

(** A backend whose vector depends on the text. *)
Definition sample_vec (t : string) : list float32 :=
  [f32_of_Z (1 + Z.modulo (len t) 2)].

Lemma sample_pointwise :
  pointwise 1 sample_vec (fun l => inl {| Data := []; Embeddings := sample_vec <$> l |}).
Proof.
  split; [done|]. intros t. unfold sample_vec.
  destruct (Z.mod_pos_bound (len t) 2 ltac:(lia)).
  assert (len t mod 2 = 0 \/ len t mod 2 = 1) as [->| ->] by lia; vm_compute; reflexivity.
Qed.

Definition sample_chunked : list (list TokenChunk) :=
  [[{| Text := "ab"; TokenCount := 2 |}];
   [{| Text := of_bytes (repeat "x"%char 480); TokenCount := 480 |};
    {| Text := of_bytes (repeat "x"%char 20); TokenCount := 20 |}]].

Definition sample_packing_client : HTTPClient := {|
  PrefixOwner := ""; BaseURL := "http://embed"; Model := "m"; Dimensions := 1;
  PackTokenLimit := 490; TokenizerConcurrency := 8; MaxChunksPerInput := 0 |}.

Lemma embed_batching_transparent_witness :
  Embed (T := byte_tokenizer) sample_packing_client None None [1%nat; 0%nat] [1%nat; 0%nat] sample_sched
    (fun _ => None) (fun l => inl {| Data := []; Embeddings := sample_vec <$> l |})
    ["ab"; sample_text]
  = inl [[f32_of_Z 1]; [f32_of_Z 1]].
Proof.
  rewrite (embed_batching_transparent (T := byte_tokenizer) sample_packing_client None
    [1%nat; 0%nat] [1%nat; 0%nat] sample_sched (fun _ => None) _ sample_vec _ sample_chunked).
  - vm_compute. reflexivity.
  - split; [apply Permutation_swap|]. intros texts' i text [= <-]. apply sample_schedule.
  - vm_compute. reflexivity.
  - apply sample_pointwise.
  - done.
  - intros batches Hb. vm_compute in Hb. injection Hb as <-. apply Permutation_swap.
Defined.

Lemma post_json_classification_witness :
  BaseURL sample_client <> "" /\
  IsCircuitFailure None (Some (BackendUnavailableError time_zero
    (Some (Opaque "embedding backend returned 503 Service Unavailable")))) = true.
Proof.
  split; [done|].
  exact (proj1 (post_json_classification (A := unit) (fun _ => None) sample_client
    (Reply 503 "503 Service Unavailable" (inl "") (inl ())) ltac:(done))).
Defined.
