(* ===== verification/LeaseQueue.v ===== *)
(** * The durable embedding job queue (internal/worker/lease.go, scope.go)

    The tables are finite maps; each SQL statement is a function of the state.
    [now] is CURRENT_TIMESTAMP (the start of the transaction) and [clock] is
    clock_timestamp() when the statement runs.  A statement locks the rows it
    changes until its transaction ends, so every operation below is one step. *)

From S2P Require Import Prelude GoErrors GoStrings GoCrypto GoFloats GoSort EmbedClient.

(** ** Rows *)

Inductive job_status := Pending | Leased | Completed | Failed | Cancelled.

#[export] Instance job_status_eq_dec : EqDecision job_status.
Proof. solve_decision. Defined.

(** A row of embedding_jobs, keyed by job_id. *)
Record job_row := {
  r_document_id : string;
  r_embedding_kind : string;
  r_embedding_model : string;
  r_content_sha256 : string;
  r_input_revision : string;
  r_priority : Z;
  r_max_attempts : Z;
  status : job_status;
  owner_id : option string;
  lease_token : option string;
  lease_fence : Z;
  lease_expires_at : option time;
  attempt_count : Z;
  next_attempt_at : time;
  last_error : option string;
  completed_at : option time;
  updated_at : time;
}.

(** A row of search_documents, keyed by document_id. *)
Record doc_row := {
  normalized_text : string;
  d_status : string;
  normalized_sha256 : string;
  d_input_revision : string;
  source_kind : string;
}.

Record vector_row := { v_content_sha256 : string; v_embedding : list float32; embedded_at : time }.

(** The database: [embeddings] by (document, kind, model, revision), the
    per-kind vector tables by (table, document, model, revision). *)
Record db := {
  jobs : gmap string job_row;
  documents : gmap string doc_row;
  embeddings : gmap (string * string * string * string) vector_row;
  vectors : gmap (string * string * string * string) vector_row;
}.

Definition set_jobs (d : db) (m : gmap string job_row) : db :=
  {| jobs := m; documents := documents d; embeddings := embeddings d; vectors := vectors d |}.

(** What a worker remembers of a claimed row. *)
Record Job := {
  InputRevision : string;
  JobID : string;
  DocumentID : string;
  EmbeddingKind : string;
  EmbeddingModel : string;
  ContentSHA256 : string;
  NormalizedText : string;
  Priority : Z;
  LeaseToken : string;
  LeaseFence : Z;
}.

Record JobScope := { SourceKinds : list string; ScopeModel : string; ScopeInputRevision : string }.

(** ** Helpers (scope.go) *)

(** The source kinds travel as JSON text and are decoded by the statement. *)
Definition scopeArgs (scopes : list JobScope) : list string * string * string :=
  let scope := match scopes with
               | [] => {| SourceKinds := []; ScopeModel := ""; ScopeInputRevision := "legacy_unknown" |}
               | s :: _ => s
               end in
  let revision := if is_empty (ScopeInputRevision scope) then "legacy_unknown"
                  else ScopeInputRevision scope in
  (SourceKinds scope, ScopeModel scope, revision).

Definition textChecksum (text : string) : string := sha256Hex text.

Definition one_of (s : string) (l : list string) : bool := existsb (String.eqb s) l.

Lemma one_of_elem k l : one_of k l = true <-> k ∈ l.
Proof.
  unfold one_of. rewrite existsb_exists. split.
  - intros (x & Hx & ->%String.eqb_eq). by apply list_elem_of_In.
  - intros Hx. exists k. split; [by apply list_elem_of_In|apply String.eqb_refl].
Qed.

Definition embeddingKindForSource (kind : string) : string :=
  if one_of kind ["event"; "proxy_event"; "proxy_blocked_host_window"; "proxy_flow"] then "event"
  else if one_of kind ["device"; "device_profile"; "ap_profile"; "identity_summary"] then "device"
  else if one_of kind ["behaviour_window"; "observation_window"] then "behaviour"
  else if String.eqb kind "frame_sequence" then "sequence"
  else "invalid".

Definition normalizeEmbeddingKind (kind : string) : string + error :=
  if String.eqb kind "event" then inl "event"
  else if String.eqb kind "device" then inl "device"
  else if one_of kind ["behaviour"; "behavior"; "behaviour_window"; "behavior_window"]
  then inl "behaviour"
  else if one_of kind ["sequence"; "frame_sequence"] then inl "sequence"
  else inr (Opaque ("unknown embedding kind: " +:+ kind)).

Definition vectorTableForKind (kind : string) : string + error :=
  if String.eqb kind "event" then inl "search_vectors_event"
  else if String.eqb kind "device" then inl "search_vectors_device"
  else if String.eqb kind "behaviour" then inl "search_vectors_behaviour"
  else if String.eqb kind "sequence" then inl "search_vectors_sequence"
  else inr (Opaque ("unknown embedding kind: " +:+ kind)).

(** The scope predicate shared by the claim and the recovery statements. *)
Definition in_scope (d : db) (scope : list string * string * string) (r : job_row) : bool :=
  let '(kinds, model, revision) := scope in
  (is_empty model || String.eqb (r_embedding_model r) model)
  && String.eqb (r_input_revision r) revision
  && (bool_decide (kinds = [])
      || match documents d !! r_document_id r with
         | Some doc => one_of (source_kind doc) kinds
         | None => false
         end).

(** ** Fenced row updates *)

(** [status = 'leased' AND lease_token = $t AND lease_fence = $f AND
     lease_expires_at > clock_timestamp()] *)
Definition held (clock : time) (token : string) (fence : Z) (r : job_row) : bool :=
  bool_decide (status r = Leased)
  && bool_decide (lease_token r = Some token)
  && (lease_fence r =? fence)
  && match lease_expires_at r with Some e => clock <? e | None => false end.

Definition lease_lost (jobID : string) : error :=
  Opaque ("lease lost for job " +:+ jobID +:+ ": no matching lease token or lease expired").

Definition update_held (d : db) (clock : time) (jobID token : string) (fence : Z)
    (f : job_row -> job_row) : db + error :=
  match jobs d !! jobID with
  | Some r =>
      if held clock token fence r then inl (set_jobs d (<[jobID := f r]> (jobs d)))
      else inr (lease_lost jobID)
  | None => inr (lease_lost jobID)
  end.

(** The columns every release of a lease writes. *)
Definition release_row (r : job_row) (st : job_status) (err : option string) (attempts : Z)
    (next : time) (completed : option time) (now : time) : job_row := {|
  r_document_id := r_document_id r; r_embedding_kind := r_embedding_kind r;
  r_embedding_model := r_embedding_model r; r_content_sha256 := r_content_sha256 r;
  r_input_revision := r_input_revision r; r_priority := r_priority r;
  r_max_attempts := r_max_attempts r;
  status := st; owner_id := None; lease_token := None; lease_fence := lease_fence r;
  lease_expires_at := None; attempt_count := attempts; next_attempt_at := next;
  last_error := err; completed_at := completed; updated_at := now |}.

Definition cancelled_row (now : time) (errMsg : string) (r : job_row) : job_row :=
  release_row r Cancelled (Some errMsg) (attempt_count r) now (completed_at r) now.

Definition completed_row (now : time) (r : job_row) : job_row :=
  release_row r Completed (last_error r) (attempt_count r) (next_attempt_at r) (Some now) now.

(** [LEAST(POWER(2, attempt_count), 300) * INTERVAL '1 second'] *)
Definition retry_backoff (attempts : Z) : duration := Z.min (2 ^ attempts) 300 * Second.

Definition exhausted (r : job_row) : bool := r_max_attempts r <=? attempt_count r.

Definition failed_row (now : time) (errMsg : string) (r : job_row) : job_row :=
  release_row r (if exhausted r then Failed else Pending) (Some errMsg) (attempt_count r)
    (now + retry_backoff (attempt_count r)) (completed_at r) now.

Definition permanently_failed_row (now : time) (errMsg : string) (r : job_row) : job_row :=
  release_row r Failed (Some errMsg) (attempt_count r) now (completed_at r) now.

Definition deferred_row (now : time) (retryAt : time) (r : job_row) : job_row :=
  release_row r Pending (last_error r) (Z.max (attempt_count r - 1) 0) retryAt (completed_at r) now.

Definition renewed_row (now : time) (expires : time) (r : job_row) : job_row := {|
  r_document_id := r_document_id r; r_embedding_kind := r_embedding_kind r;
  r_embedding_model := r_embedding_model r; r_content_sha256 := r_content_sha256 r;
  r_input_revision := r_input_revision r; r_priority := r_priority r;
  r_max_attempts := r_max_attempts r;
  status := status r; owner_id := owner_id r; lease_token := lease_token r;
  lease_fence := lease_fence r; lease_expires_at := Some expires;
  attempt_count := attempt_count r; next_attempt_at := next_attempt_at r;
  last_error := last_error r; completed_at := completed_at r; updated_at := now |}.

Definition cancelJob (now clock : time) (d : db) (jobID token : string) (fence : Z) (errMsg : string)
    : db + error := update_held d clock jobID token fence (cancelled_row now errMsg).

Definition completeJob (now clock : time) (d : db) (jobID token : string) (fence : Z)
    : db + error := update_held d clock jobID token fence (completed_row now).

Definition failJob (now clock : time) (d : db) (jobID token : string) (fence : Z) (errMsg : string)
    : db + error := update_held d clock jobID token fence (failed_row now errMsg).

Definition failJobPermanently (now clock : time) (d : db) (jobID token : string) (fence : Z)
    (errMsg : string) : db + error :=
  update_held d clock jobID token fence (permanently_failed_row now errMsg).

Definition deferJob (now clock : time) (d : db) (jobID token : string) (fence : Z) (retryAt : time)
    : db + error := update_held d clock jobID token fence (deferred_row now retryAt).

(** renewJobLease reports whether the lease was still held. *)
Definition renewJobLease (now clock : time) (d : db) (job : Job) (expires : time) : db * bool :=
  match update_held d clock (JobID job) (LeaseToken job) (LeaseFence job) (renewed_row now expires) with
  | inl d => (d, true)
  | inr _ => (d, false)
  end.

(** ** Recovery *)

Definition expired (now : time) (r : job_row) : bool :=
  bool_decide (status r = Leased)
  && match lease_expires_at r with Some e => e <=? now | None => false end.

Definition expiry (r : job_row) : Z := default 0 (lease_expires_at r).

(** [ORDER BY lease_expires_at, job_id] *)
Definition recovery_order : string * job_row -> string * job_row -> bool :=
  less_then (fun c => expiry (snd c)) Z.ltb fst str_ltb.

Definition recovered_row (now : time) (r : job_row) : job_row :=
  release_row r (if exhausted r then Failed else Pending)
    (Some (if exhausted r then "embedding lease expired; retries exhausted"
           else "embedding lease expired; returned to pending"))
    (attempt_count r) (now + retry_backoff (attempt_count r)) (completed_at r) now.

(** FOR UPDATE SKIP LOCKED LIMIT: the first [limit] selected rows, in order, of
    those no other transaction has locked. *)
Definition select_rows (order : string * job_row -> string * job_row -> bool)
    (locked : gset string) (limit : Z) (p : job_row -> bool) (m : gmap string job_row)
    : list (string * job_row) :=
  take (Z.to_nat limit)
    (sort_by order
      (List.filter (fun c => negb (bool_decide (fst c ∈ locked)) && p (snd c)) (map_to_list m))).

(** UPDATE ... FROM selected: apply [f] to the selected rows. *)
Definition update_rows (f : string -> job_row -> job_row) (selected : list (string * job_row))
    (m : gmap string job_row) : gmap string job_row :=
  foldr (fun c m => <[fst c := f (fst c) (snd c)]> m) m selected.

Definition recoverExpiredLeases (now : time) (locked : gset string) (d : db) (limit : Z)
    (scopes : list JobScope) : db * Z :=
  let selected := select_rows recovery_order locked limit
    (fun r => expired now r && in_scope d (scopeArgs scopes) r) (jobs d) in
  (set_jobs d (update_rows (fun _ => recovered_row now) selected (jobs d)),
   Z.of_nat (length selected)).

(** ** Claiming *)

Definition claimable (now : time) (r : job_row) : bool :=
  bool_decide (status r = Pending) && (next_attempt_at r <=? now)
  && (attempt_count r <? r_max_attempts r).

(** [ORDER BY priority ASC, next_attempt_at ASC, job_id ASC] *)
Definition claim_order : string * job_row -> string * job_row -> bool :=
  less_then (fun c => r_priority (snd c)) Z.ltb id
    (less_then (fun c => next_attempt_at (snd c)) Z.ltb fst str_ltb).

Definition leased_row (now : time) (owner token : string) (expires : time) (r : job_row) : job_row := {|
  r_document_id := r_document_id r; r_embedding_kind := r_embedding_kind r;
  r_embedding_model := r_embedding_model r; r_content_sha256 := r_content_sha256 r;
  r_input_revision := r_input_revision r; r_priority := r_priority r;
  r_max_attempts := r_max_attempts r;
  status := Leased; owner_id := Some owner; lease_token := Some token;
  lease_fence := lease_fence r + 1; lease_expires_at := Some expires;
  attempt_count := attempt_count r + 1; next_attempt_at := next_attempt_at r;
  last_error := last_error r; completed_at := completed_at r; updated_at := now |}.

(** The RETURNING columns of a claimed row, scanned into a Job. *)
Definition job_of (id : string) (r : job_row) : Job := {|
  InputRevision := r_input_revision r; JobID := id; DocumentID := r_document_id r;
  EmbeddingKind := r_embedding_kind r; EmbeddingModel := r_embedding_model r;
  ContentSHA256 := r_content_sha256 r; NormalizedText := ""; Priority := r_priority r;
  LeaseToken := default "" (lease_token r); LeaseFence := lease_fence r |}.

Definition with_text (j : Job) (text : string) : Job := {|
  InputRevision := InputRevision j; JobID := JobID j; DocumentID := DocumentID j;
  EmbeddingKind := EmbeddingKind j; EmbeddingModel := EmbeddingModel j;
  ContentSHA256 := ContentSHA256 j; NormalizedText := text; Priority := Priority j;
  LeaseToken := LeaseToken j; LeaseFence := LeaseFence j |}.

(** The document still is the input the job was created for. *)
Definition input_current (doc : doc_row) (j : Job) : bool :=
  String.eqb (normalized_sha256 doc) (ContentSHA256 j)
  && String.eqb (textChecksum (normalized_text doc)) (normalized_sha256 doc)
  && String.eqb (d_input_revision doc) (InputRevision j)
  && String.eqb (embeddingKindForSource (source_kind doc)) (EmbeddingKind j).

(** Why a claimed job cannot be embedded, if so. *)
Definition cancel_reason (doc : option doc_row) (j : Job) : option string :=
  match doc with
  | None => Some "document missing; embedding job cancelled"
  | Some doc =>
      if negb (String.eqb (d_status doc) "active")
      then Some ("document status " +:+ d_status doc +:+ "; embedding job cancelled")
      else if negb (input_current doc j)
      then Some "document input checksum or revision changed"
      else None
  end.

(** The loop of claimJobs over the claimed rows; [clock j] is the wall clock
    when the statement for job [j] runs. *)
Fixpoint attachDocuments (now : time) (clock : string -> time) (d : db) (claimed : list Job)
    : (db * list Job * Z) + error :=
  match claimed with
  | [] => inl (d, [], 0)
  | j :: claimed =>
      let doc := documents d !! DocumentID j in
      match cancel_reason doc j with
      | Some reason =>
          match cancelJob now (clock (JobID j)) d (JobID j) (LeaseToken j) (LeaseFence j) reason with
          | inr err => inr err
          | inl d =>
              match attachDocuments now clock d claimed with
              | inr err => inr err
              | inl (d, ready, cancelled) => inl (d, ready, cancelled + 1)
              end
          end
      | None =>
          match attachDocuments now clock d claimed with
          | inr err => inr err
          | inl (d, ready, cancelled) =>
              inl (d, with_text j (match doc with Some doc => normalized_text doc | None => "" end)
                        :: ready, cancelled)
          end
      end
  end.

(** [uuid] is gen_random_uuid per row; [returning] the order of RETURNING. *)
Definition claimJobs (now : time) (clock : string -> time) (uuid : string -> string)
    (returning : list Job -> list Job) (locked : gset string) (d : db)
    (ownerID : string) (limit : Z) (leaseExpiresAt : time) (scopes : list JobScope)
    : (db * list Job * Z) + error :=
  let selected := select_rows claim_order locked limit
    (fun r => claimable now r && in_scope d (scopeArgs scopes) r) (jobs d) in
  let lease := fun id => leased_row now ownerID (uuid id) leaseExpiresAt in
  let claimed := returning ((fun c => job_of (fst c) (lease (fst c) (snd c))) <$> selected) in
  attachDocuments now clock (set_jobs d (update_rows lease selected (jobs d))) claimed.

(** ** Completion *)

Definition job_revision (j : Job) : string :=
  if is_empty (InputRevision j) then "legacy_unknown" else InputRevision j.

(** guardCompletion: [None] is a nil error. *)
Definition guardCompletion (clock : time) (d : db) (j : Job) : option error :=
  match documents d !! DocumentID j with
  | Some doc =>
      if negb (String.eqb (d_status doc) "active")
      then Some (Wrapf ("current embedding document unavailable: " +:+ sentinel_text ErrNoRows)
                       (Sentinel ErrNoRows))
      else if negb (String.eqb (normalized_sha256 doc) (ContentSHA256 j))
           || negb (String.eqb (textChecksum (normalized_text doc)) (normalized_sha256 doc))
           || negb (String.eqb (job_revision j) (d_input_revision doc))
           || negb (String.eqb (embeddingKindForSource (source_kind doc)) (EmbeddingKind j))
      then Some (Opaque "embedding document input changed")
      else
        match jobs d !! JobID j with
        | Some r =>
            if String.eqb (r_document_id r) (DocumentID j)
               && String.eqb (r_content_sha256 r) (ContentSHA256 j)
               && String.eqb (r_embedding_model r) (EmbeddingModel j)
               && String.eqb (r_input_revision r) (job_revision j)
               && held clock (LeaseToken j) (LeaseFence j) r
               && String.eqb (r_embedding_kind r) (EmbeddingKind j)
            then None
            else Some (Wrapf ("lease lost or embedding input changed: " +:+ sentinel_text ErrNoRows)
                             (Sentinel ErrNoRows))
        | None => Some (Wrapf ("lease lost or embedding input changed: " +:+ sentinel_text ErrNoRows)
                              (Sentinel ErrNoRows))
        end
  | None => Some (Wrapf ("current embedding document unavailable: " +:+ sentinel_text ErrNoRows)
                        (Sentinel ErrNoRows))
  end.

Definition insertVector (now : time) (d : db)
    (documentID embeddingKind embeddingModel contentSHA256 : string)
    (embedding : list float32) (inputRevision : string) : db + error :=
  match ValidateVector embedding 768 with
  | Some err => inr err
  | None =>
      let revision := if is_empty inputRevision then "legacy_unknown" else inputRevision in
      match vectorTableForKind embeddingKind with
      | inr err => inr err
      | inl vectorTable =>
          let row := {| v_content_sha256 := contentSHA256; v_embedding := embedding; embedded_at := now |} in
          inl {| jobs := jobs d; documents := documents d;
                 embeddings := <[(documentID, embeddingKind, embeddingModel, revision) := row]> (embeddings d);
                 vectors := <[(vectorTable, documentID, embeddingModel, revision) := row]> (vectors d) |}
      end
  end.

(** The statements of one completion, in the order storeCompletions runs them.
    guardCompletion and completeJob each read the clock: [guarded] and then
    [clock].  The guard locks the job row and takes the document's advisory lock,
    so only time passes between them. *)
Definition complete_one (now guarded clock : time) (d : db) (j : Job) (vector : list float32) : db + error :=
  match guardCompletion guarded d j with
  | Some err => inr err
  | None =>
      match normalizeEmbeddingKind (EmbeddingKind j) with
      | inr err => inr err
      | inl kind =>
          match insertVector now d (DocumentID j) kind (EmbeddingModel j) (ContentSHA256 j)
                  vector (InputRevision j) with
          | inr err => inr err
          | inl d => completeJob now clock d (JobID j) (LeaseToken j) (LeaseFence j)
          end
      end
  end.

(** ** Heartbeats *)

Record heartbeat_row := { worker_type : string; last_seen_at : time; metadata : string }.

(** The conflict branch leaves worker_type alone. *)
Definition upsertHeartbeat (now : time) (m : gmap string heartbeat_row)
    (workerID workerType meta : string) : gmap string heartbeat_row :=
  let meta := if is_empty meta then "{}" else meta in
  <[workerID :=
      {| worker_type := match m !! workerID with Some h => worker_type h | None => workerType end;
         last_seen_at := now; metadata := meta |}]> m.

(** ** The queue as a transition system *)

(** A freshly enqueued row. *)
Definition fresh_row (r : job_row) : Prop :=
  status r = Pending /\ owner_id r = None /\ lease_token r = None /\ lease_expires_at r = None /\
  lease_fence r = 0 /\ attempt_count r = 0 /\ 0 < r_max_attempts r.

Inductive queue_step : db -> db -> Prop :=
| step_claim now clock uuid returning locked d owner limit expires scopes d' ready cancelled :
    (forall l, returning l ≡ₚ l) ->
    claimJobs now clock uuid returning locked d owner limit expires scopes
    = inl (d', ready, cancelled) ->
    queue_step d d'
| step_complete now guarded clock d j v d' :
    complete_one now guarded clock d j v = inl d' -> queue_step d d'
| step_fail now clock d id token fence msg d' :
    failJob now clock d id token fence msg = inl d' -> queue_step d d'
| step_fail_permanently now clock d id token fence msg d' :
    failJobPermanently now clock d id token fence msg = inl d' -> queue_step d d'
| step_defer now clock d id token fence t d' :
    deferJob now clock d id token fence t = inl d' -> queue_step d d'
| step_renew now clock d j expires : queue_step d (fst (renewJobLease now clock d j expires))
| step_recover now locked d limit scopes :
    queue_step d (fst (recoverExpiredLeases now locked d limit scopes))
| step_documents d docs : (* other writers of search_documents *)
    queue_step d {| jobs := jobs d; documents := docs; embeddings := embeddings d; vectors := vectors d |}
| step_enqueue d id r :
    jobs d !! id = None -> fresh_row r -> queue_step d (set_jobs d (<[id := r]> (jobs d))).

(** ** Selection *)

Section select.
Context (order : string * job_row -> string * job_row -> bool) `{!WeakOrder order}.
Context (locked : gset string) (limit : Z) (p : job_row -> bool) (m : gmap string job_row).

Definition eligible (id : string) (r : job_row) : Prop :=
  m !! id = Some r /\ id ∉ locked /\ p r = true.

Let rows := List.filter (fun c => negb (bool_decide (fst c ∈ locked)) && p (snd c)) (map_to_list m).

Lemma eligible_rows id r : (id, r) ∈ rows <-> eligible id r.
Proof.
  unfold rows, eligible. rewrite list_elem_of_In, filter_In, <-list_elem_of_In, elem_of_map_to_list.
  simpl. rewrite andb_true_iff, negb_true_iff, bool_decide_eq_false. tauto.
Qed.

Lemma rows_NoDup : NoDup (fst <$> rows).
Proof.
  unfold rows. pose proof (NoDup_fst_map_to_list m) as H. induction (map_to_list m) as [|c l IH]; [done|].
  simpl in H. apply NoDup_cons in H as [Hn Hd]. simpl. case_match; [|auto].
  simpl. apply NoDup_cons. split; [|auto]. intros Hin. apply Hn.
  apply list_elem_of_fmap in Hin as (c' & -> & Hin). apply list_elem_of_fmap_2.
  apply list_elem_of_In, filter_In in Hin as [Hin _]. by apply list_elem_of_In.
Qed.

(** The selected rows are eligible and distinct, at most [limit], and every
    eligible row left out is after all of them, which are [limit] many. *)
Lemma select_rows_spec :
  let selected := select_rows order locked limit p m in
  (forall id r, (id, r) ∈ selected -> eligible id r) /\
  NoDup (fst <$> selected) /\
  (length selected <= Z.to_nat limit)%nat /\
  (forall id r, eligible id r -> (id, r) ∉ selected ->
     length selected = Z.to_nat limit /\
     forall c, c ∈ selected -> before order c (id, r)).
Proof.
  intros selected. unfold selected, select_rows. fold rows.
  pose proof (sort_by_perm order rows) as Hp.
  split; [|split; [|split]].
  - intros id r Hin. apply elem_of_take in Hin as (i & Hi & _).
    apply list_elem_of_lookup_2 in Hi. rewrite Hp in Hi. by apply eligible_rows.
  - rewrite fmap_take. eapply sublist_NoDup; [|apply sublist_take]. rewrite Hp. apply rows_NoDup.
  - apply firstn_le_length.
  - intros id r He Hn. apply eligible_rows in He. rewrite <-Hp in He.
    rewrite <-(take_drop (Z.to_nat limit)) in He. apply elem_of_app in He as [?|He]; [done|].
    split.
    + rewrite length_take. apply list_elem_of_lookup_1 in He as [i Hi]. apply lookup_lt_Some in Hi.
      rewrite length_drop in Hi. lia.
    + intros c Hc. by eapply sort_by_take_before.
Qed.

Lemma select_rows_lookup id r :
  (id, r) ∈ select_rows order locked limit p m -> m !! id = Some r.
Proof. intros H. by apply select_rows_spec in H as (? & _). Qed.
End select.

Lemma update_rows_in f (sel : list (string * job_row)) m id r :
  NoDup (fst <$> sel) -> (id, r) ∈ sel -> update_rows f sel m !! id = Some (f id r).
Proof.
  induction sel as [|[k q] sel IH]; intros Hnd Hin; [by apply elem_of_nil in Hin|].
  simpl in Hnd. apply NoDup_cons in Hnd as [Hk Hnd]. simpl.
  apply elem_of_cons in Hin as [[= -> ->]|Hin]; [by rewrite lookup_insert_eq|].
  rewrite lookup_insert_ne; [by apply IH|]. intros ->. apply Hk.
  change id with (fst (id, r)). by apply list_elem_of_fmap_2.
Qed.

Lemma update_rows_out f (sel : list (string * job_row)) m id :
  id ∉ fst <$> sel -> update_rows f sel m !! id = m !! id.
Proof.
  induction sel as [|[k q] sel IH]; intros Hn; [done|]. simpl in *.
  rewrite not_elem_of_cons in Hn. destruct Hn. rewrite lookup_insert_ne by done. by apply IH.
Qed.

(** A statement over selected rows changes each row by [f] or not at all. *)
Lemma update_rows_cases order `{!WeakOrder order} locked limit p m f id :
  let sel := select_rows order locked limit p m in
  (exists r, (id, r) ∈ sel /\ m !! id = Some r /\ p r = true /\ id ∉ locked /\
     update_rows f sel m !! id = Some (f id r)) \/
  (id ∉ fst <$> sel /\ update_rows f sel m !! id = m !! id).
Proof.
  intros sel. destruct (select_rows_spec order locked limit p m) as (H1 & H2 & _). fold sel in H1, H2.
  destruct (decide (id ∈ fst <$> sel)) as [Hin|Hn]; [left|right; split; [done|by apply update_rows_out]].
  apply list_elem_of_fmap in Hin as ([id' r] & -> & Hin). exists r. simpl.
  destruct (H1 _ _ Hin) as (? & ? & ?). split_and!; try done. by apply update_rows_in.
Qed.

(** ** Row changes *)

(** What a release leaves of a lease. *)
Definition released (r r' : job_row) : Prop :=
  status r' <> Leased /\ owner_id r' = None /\ lease_token r' = None /\ lease_expires_at r' = None /\
  lease_fence r' = lease_fence r /\ r_max_attempts r' = r_max_attempts r /\
  (attempt_count r' = attempt_count r /\ (status r' = Pending -> exhausted r = false)
   \/ attempt_count r' = Z.max (attempt_count r - 1) 0).

Inductive row_change : option job_row -> option job_row -> Prop :=
| rc_claim r now owner token expires :
    status r = Pending -> attempt_count r < r_max_attempts r ->
    row_change (Some r) (Some (leased_row now owner token expires r))
| rc_release r r' : status r = Leased -> released r r' -> row_change (Some r) (Some r')
| rc_renew r now expires : status r = Leased -> row_change (Some r) (Some (renewed_row now expires r))
| rc_enqueue r : fresh_row r -> row_change None (Some r).

Definition row_changes : option job_row -> option job_row -> Prop := rtc row_change.

Lemma held_leased clock token fence r : held clock token fence r = true -> status r = Leased.
Proof. unfold held. rewrite !andb_true_iff, !bool_decide_eq_true. tauto. Qed.

Lemma held_fence clock token fence r : held clock token fence r = true -> lease_fence r = fence.
Proof. unfold held. rewrite !andb_true_iff, Z.eqb_eq. tauto. Qed.

Lemma update_held_changes d clock jobID token fence f d' id :
  (forall r, status r = Leased -> row_change (Some r) (Some (f r))) ->
  update_held d clock jobID token fence f = inl d' ->
  row_changes (jobs d !! id) (jobs d' !! id).
Proof.
  intros Hf. unfold update_held. destruct (jobs d !! jobID) as [r|] eqn:E; [|done].
  destruct (held clock token fence r) eqn:Eh; [|done]. intros [= <-]. simpl.
  destruct (decide (jobID = id)) as [->|Hne].
  - rewrite E, lookup_insert_eq. apply rtc_once, Hf. by eapply held_leased.
  - rewrite lookup_insert_ne by done. apply rtc_refl.
Qed.

Lemma release_released r st err next completed now attempts :
  st <> Leased -> (attempts = attempt_count r /\ (st = Pending -> exhausted r = false)
                   \/ attempts = Z.max (attempt_count r - 1) 0) ->
  released r (release_row r st err attempts next completed now).
Proof. intros. unfold released. simpl. tauto. Qed.

Lemma retry_status r : (if exhausted r then Failed else Pending) <> Leased /\
  ((if exhausted r then Failed else Pending) = Pending -> exhausted r = false).
Proof. by destruct (exhausted r). Qed.

Ltac release_change :=
  intros; apply rc_release; [done|]; apply release_released;
  [try done; apply retry_status|first [left; split; [done|first [done|apply retry_status]]|by right]].

Lemma cancelled_change now msg r : status r = Leased -> row_change (Some r) (Some (cancelled_row now msg r)).
Proof. unfold cancelled_row. release_change. Qed.
Lemma completed_change now r : status r = Leased -> row_change (Some r) (Some (completed_row now r)).
Proof. unfold completed_row. release_change. Qed.
Lemma failed_change now msg r : status r = Leased -> row_change (Some r) (Some (failed_row now msg r)).
Proof. unfold failed_row. release_change. Qed.
Lemma permanently_failed_change now msg r :
  status r = Leased -> row_change (Some r) (Some (permanently_failed_row now msg r)).
Proof. unfold permanently_failed_row. release_change. Qed.
Lemma deferred_change now t r : status r = Leased -> row_change (Some r) (Some (deferred_row now t r)).
Proof. unfold deferred_row. release_change. Qed.
Lemma recovered_change now r : status r = Leased -> row_change (Some r) (Some (recovered_row now r)).
Proof. unfold recovered_row. release_change. Qed.

Create HintDb queue.
#[export] Hint Resolve cancelled_change completed_change failed_change permanently_failed_change
  deferred_change recovered_change rc_renew : queue.

Lemma attachDocuments_changes now clock d claimed d' ready n id :
  attachDocuments now clock d claimed = inl (d', ready, n) ->
  row_changes (jobs d !! id) (jobs d' !! id).
Proof.
  revert d ready n. induction claimed as [|j claimed IH]; intros d ready n; cbn [attachDocuments].
  { intros [= <- _ _]. apply rtc_refl. }
  destruct (cancel_reason _ j).
  - unfold cancelJob. destruct (update_held d _ _ _ _ _) as [d1|] eqn:E1; [|done].
    destruct (attachDocuments now clock d1 claimed) as [[[d2 ready2] n2]|] eqn:E2; [|done].
    intros [= -> _ _]. etrans; [eapply update_held_changes; [|exact E1]; auto with queue|eauto].
  - destruct (attachDocuments now clock d claimed) as [[[d2 ready2] n2]|] eqn:E2; [|done].
    intros [= -> _ _]. eauto.
Qed.

#[export] Typeclasses Opaque claim_order recovery_order.
#[export] Instance claim_order_weak : WeakOrder claim_order.
Proof.
  apply less_then_order; [apply Z_ltb_order|].
  apply less_then_order; [apply Z_ltb_order|apply str_ltb_order].
Qed.
#[export] Instance recovery_order_weak : WeakOrder recovery_order.
Proof. apply less_then_order; [apply Z_ltb_order|apply str_ltb_order]. Qed.

Lemma claimable_spec now r :
  claimable now r = true <->
  status r = Pending /\ next_attempt_at r <= now /\ attempt_count r < r_max_attempts r.
Proof.
  unfold claimable. rewrite !andb_true_iff, bool_decide_eq_true, Z.leb_le, Z.ltb_lt. tauto.
Qed.

Lemma lease_rows_changes d sel now owner uuid expires locked limit scope id :
  sel = select_rows claim_order locked limit (fun r => claimable now r && in_scope d scope r) (jobs d) ->
  row_changes (jobs d !! id)
    (update_rows (fun id => leased_row now owner (uuid id) expires) sel (jobs d) !! id).
Proof.
  intros ->. destruct (update_rows_cases claim_order locked limit
    (fun r => claimable now r && in_scope d scope r) (jobs d)
    (fun id => leased_row now owner (uuid id) expires) id) as [(r & _ & Hr & Hp & _ & ->)|[_ ->]].
  - rewrite Hr. apply andb_true_iff in Hp as [Hp _]. apply claimable_spec in Hp as (? & _ & ?).
    by apply rtc_once, rc_claim.
  - apply rtc_refl.
Qed.

Lemma insertVector_jobs now d doc kind model sha v rev d' :
  insertVector now d doc kind model sha v rev = inl d' ->
  jobs d' = jobs d /\ documents d' = documents d.
Proof.
  unfold insertVector. destruct (ValidateVector v 768); [done|].
  destruct (vectorTableForKind kind); [|done]. by intros [= <-].
Qed.

Lemma complete_one_inv now guarded clock d j v d' :
  complete_one now guarded clock d j v = inl d' ->
  exists kind d1, guardCompletion guarded d j = None /\
    normalizeEmbeddingKind (EmbeddingKind j) = inl kind /\
    insertVector now d (DocumentID j) kind (EmbeddingModel j) (ContentSHA256 j) v (InputRevision j)
    = inl d1 /\
    completeJob now clock d1 (JobID j) (LeaseToken j) (LeaseFence j) = inl d'.
Proof.
  unfold complete_one. destruct (guardCompletion guarded d j); [done|].
  destruct (normalizeEmbeddingKind _) as [kind|]; [|done].
  destruct (insertVector _ _ _ _ _ _ _ _) as [d1|] eqn:E; [|done].
  intros H. exists kind, d1. done.
Qed.

Lemma update_held_step d clock jobID token fence f d' id :
  (forall r, status r = Leased -> row_change (Some r) (Some (f r))) ->
  update_held d clock jobID token fence f = inl d' -> row_changes (jobs d !! id) (jobs d' !! id).
Proof. apply update_held_changes. Qed.

(** Every step of the queue changes each row as the row changes allow. *)
Lemma queue_step_changes d d' id : queue_step d d' -> row_changes (jobs d !! id) (jobs d' !! id).
Proof.
  destruct 1 as [now clock uuid ret locked d owner limit expires scopes d' ready n Hret H
    |now guarded clock d j v d' H|now clock d jid tok f msg d' H|now clock d jid tok f msg d' H
    |now clock d jid tok f t d' H|now clock d j expires|now locked d limit scopes|d docs|d jid r Hn Hf].
  - unfold claimJobs in H. etrans; [|by eapply attachDocuments_changes].
    cbn [jobs set_jobs]. eapply lease_rows_changes. reflexivity.
  - apply complete_one_inv in H as (kind & d1 & _ & _ & Hi & Hc).
    apply insertVector_jobs in Hi as [<- _]. eapply update_held_changes; [|exact Hc]. auto with queue.
  - eapply update_held_changes; [|exact H]. auto with queue.
  - eapply update_held_changes; [|exact H]. auto with queue.
  - eapply update_held_changes; [|exact H]. auto with queue.
  - unfold renewJobLease. destruct (update_held d _ _ _ _ _) eqn:E; [|apply rtc_refl].
    eapply update_held_changes; [|exact E]. auto with queue.
  - cbn [fst recoverExpiredLeases jobs set_jobs].
    destruct (update_rows_cases recovery_order locked limit
      (fun r => expired now r && in_scope d (scopeArgs scopes) r) (jobs d)
      (fun _ => recovered_row now) id) as [(r & _ & Hr & Hp & _ & ->)|[_ ->]]; [|apply rtc_refl].
    rewrite Hr. apply rtc_once, recovered_change.
    unfold expired in Hp. rewrite !andb_true_iff, bool_decide_eq_true in Hp. tauto.
  - apply rtc_refl.
  - simpl. destruct (decide (jid = id)) as [->|Hne].
    + rewrite Hn, lookup_insert_eq. by apply rtc_once, rc_enqueue.
    + rewrite lookup_insert_ne by done. apply rtc_refl.
Qed.

Lemma queue_steps_changes d d' id : steps queue_step d d' -> row_changes (jobs d !! id) (jobs d' !! id).
Proof.
  induction 1 as [|d d1 d2 _ IH H]; [apply rtc_refl|]. etrans; [exact IH|by apply queue_step_changes].
Qed.

(** A property every row change preserves holds after any steps. *)
Lemma row_changes_invariant (I : option job_row -> Prop) o o' :
  (forall a b, I a -> row_change a b -> I b) -> I o -> row_changes o o' -> I o'.
Proof. intros Hp Hi Hs. induction Hs; eauto. Qed.

(** ** Well-formed rows *)

Record row_wf (r : job_row) : Prop := {
  wf_owner : is_Some (owner_id r) <-> status r = Leased;
  wf_token : is_Some (lease_token r) <-> status r = Leased;
  wf_expiry : is_Some (lease_expires_at r) <-> status r = Leased;
  wf_attempts : 0 <= attempt_count r <= r_max_attempts r;
  wf_pending : status r = Pending -> attempt_count r < r_max_attempts r;
  wf_leased : status r = Leased -> 1 <= attempt_count r;
  wf_fence : 0 <= lease_fence r /\ (status r = Leased -> 1 <= lease_fence r);
}.

Lemma row_change_wf o o' :
  (forall r, o = Some r -> row_wf r) -> row_change o o' -> forall r, o' = Some r -> row_wf r.
Proof.
  intros Ho Hc. destruct Hc as [r now owner token expires Hs Ha|r r' Hs Hrel|r now expires Hs|r Hf];
    intros q [= <-].
  - destruct (Ho r eq_refl). split; simpl; try (split; eauto); try done; try lia.
  - destruct (Ho r eq_refl) as [_ _ _ H1 H2 H3 H4].
    destruct Hrel as (Hn & Eo & Et & Ee & Ef & Em & Ha).
    specialize (H3 Hs). destruct H4 as [H4 _].
    split; rewrite ?Eo, ?Et, ?Ee, ?Em, ?Ef; try (split; [by intros []|done]); try done; try lia.
    intros Hp. destruct Ha as [[-> Hx]| ->]; [|lia]. specialize (Hx Hp).
    unfold exhausted in Hx. reflect_Z. lia.
  - destruct (Ho r eq_refl). split; simpl; try done; split; eauto.
  - destruct Hf as (Es & Eo & Et & Ee & Ef & Ea & Em).
    split; rewrite ?Es, ?Eo, ?Et, ?Ee, ?Ef, ?Ea; try (split; [by intros []|done]); try done; try lia.
Qed.

Definition db_wf (d : db) : Prop := map_Forall (fun _ => row_wf) (jobs d).

Lemma queue_steps_wf d d' : db_wf d -> steps queue_step d d' -> db_wf d'.
Proof.
  intros Hd Hs id r Hr. pose proof (queue_steps_changes d d' id Hs) as Hc. rewrite Hr in Hc.
  assert (H : forall r', Some r = Some r' -> row_wf r'); [|by apply H].
  revert Hc. apply (row_changes_invariant (fun o => forall r', o = Some r' -> row_wf r')).
  - intros a b. apply row_change_wf.
  - intros r' Hr'. by apply (Hd id).
Qed.

(** ** Fencing *)

(** The lease with fence [f] on this row is over. *)
Definition lease_over (f : Z) (o : option job_row) : Prop :=
  exists r, o = Some r /\ (f < lease_fence r \/ lease_fence r = f /\ status r <> Leased).

Lemma lease_over_change f o o' : lease_over f o -> row_change o o' -> lease_over f o'.
Proof.
  intros (r & -> & Hr) Hc. inversion Hc as [? ? ? ? ? Hs|? r' Hs Hrel|? ? ? Hs|]; subst;
    eexists; (split; [done|]); simpl.
  - left. lia.
  - destruct Hrel as (Hn & _ & _ & _ & -> & _). destruct Hr as [|[-> _]]; [by left|by right].
  - destruct Hr as [|[_ Hn]]; [by left|done].
Qed.

Lemma lease_over_steps f d d' id :
  lease_over f (jobs d !! id) -> steps queue_step d d' -> lease_over f (jobs d' !! id).
Proof.
  intros H Hs.
  apply (row_changes_invariant (lease_over f) (jobs d !! id)); [|exact H|by apply queue_steps_changes].
  intros a b. apply lease_over_change.
Qed.

Lemma update_held_over d clock id token f g :
  lease_over f (jobs d !! id) -> update_held d clock id token f g = inr (lease_lost id).
Proof.
  intros (r & Hr & Ho). unfold update_held. rewrite Hr.
  destruct (held clock token f r) eqn:E; [|done]. exfalso.
  pose proof (held_leased _ _ _ _ E). pose proof (held_fence _ _ _ _ E). destruct Ho as [|[]]; [lia|done].
Qed.

Lemma fence_mono o o' f :
  row_changes o o' -> (exists r, o = Some r /\ f <= lease_fence r) ->
  exists r, o' = Some r /\ f <= lease_fence r.
Proof.
  intros Hs H.
  apply (row_changes_invariant (fun o => exists r, o = Some r /\ f <= lease_fence r) o o');
    [|exact H|exact Hs].
  intros a b (r & -> & Hf) Hc. inversion Hc as [| ? ? ? Hrel| |]; subst; eexists; (split; [done|]); simpl; try lia.
  destruct Hrel as (_ & _ & _ & _ & -> & _). done.
Qed.

(** No operation of the holder of [j] is accepted any more: it changes nothing. *)
Definition fenced_out (d : db) (j : Job) : Prop :=
  forall now guarded clock msg t v,
    let lost := inr (lease_lost (JobID j)) in
    cancelJob now clock d (JobID j) (LeaseToken j) (LeaseFence j) msg = lost /\
    completeJob now clock d (JobID j) (LeaseToken j) (LeaseFence j) = lost /\
    failJob now clock d (JobID j) (LeaseToken j) (LeaseFence j) msg = lost /\
    failJobPermanently now clock d (JobID j) (LeaseToken j) (LeaseFence j) msg = lost /\
    deferJob now clock d (JobID j) (LeaseToken j) (LeaseFence j) t = lost /\
    renewJobLease now clock d j t = (d, false) /\
    exists err, complete_one now guarded clock d j v = inr err.

Lemma lease_over_fenced_out d j : lease_over (LeaseFence j) (jobs d !! JobID j) -> fenced_out d j.
Proof.
  intros H now guarded clock msg t v lost. split_and!; try (by apply update_held_over).
  - unfold renewJobLease. by rewrite update_held_over.
  - destruct (complete_one now guarded clock d j v) as [d'|err] eqn:E; [|eauto].
    apply complete_one_inv in E as (kind & d1 & _ & _ & Hi & Hc).
    apply insertVector_jobs in Hi as [Hj _]. unfold completeJob in Hc.
    rewrite update_held_over in Hc; [done|]. by rewrite Hj.
Qed.

(** ** Claims *)

Definition ready_job (d : db) (j : Job) : option Job :=
  match documents d !! DocumentID j with
  | Some doc => match cancel_reason (Some doc) j with
                | None => Some (with_text j (normalized_text doc))
                | Some _ => None
                end
  | None => None
  end.

Lemma update_held_other d clock id token f g d' k :
  update_held d clock id token f g = inl d' -> k <> id -> jobs d' !! k = jobs d !! k.
Proof.
  unfold update_held. destruct (jobs d !! id); [|done]. destruct (held _ _ _ _); [|done].
  intros [= <-] Hk. simpl. by rewrite lookup_insert_ne.
Qed.

Lemma update_held_documents d clock id token f g d' :
  update_held d clock id token f g = inl d' ->
  documents d' = documents d /\ embeddings d' = embeddings d /\ vectors d' = vectors d.
Proof.
  unfold update_held. destruct (jobs d !! id); [|done]. destruct (held _ _ _ _); [|done].
  by intros [= <-].
Qed.

Lemma update_held_ok d clock id token f g r :
  jobs d !! id = Some r -> held clock token f r = true ->
  update_held d clock id token f g = inl (set_jobs d (<[id := g r]> (jobs d))).
Proof. intros Hr Hh. unfold update_held. by rewrite Hr, Hh. Qed.

(** A claimed job's row is leased to it. *)
Definition leased_to (clock : time) (d : db) (j : Job) : Prop :=
  exists r, jobs d !! JobID j = Some r /\ held clock (LeaseToken j) (LeaseFence j) r = true.

Lemma attachDocuments_total now clock d claimed :
  NoDup (JobID <$> claimed) ->
  (forall j, j ∈ claimed -> leased_to (clock (JobID j)) d j) ->
  exists d',
    attachDocuments now clock d claimed
    = inl (d', omap (ready_job d) claimed,
           Z.of_nat (length claimed) - Z.of_nat (length (omap (ready_job d) claimed))) /\
    documents d' = documents d /\ embeddings d' = embeddings d /\ vectors d' = vectors d /\
    (forall id, id ∉ JobID <$> claimed -> jobs d' !! id = jobs d !! id) /\
    (forall j, j ∈ claimed -> exists r, jobs d !! JobID j = Some r /\
       jobs d' !! JobID j =
       Some (match cancel_reason (documents d !! DocumentID j) j with
             | Some reason => cancelled_row now reason r
             | None => r
             end)).
Proof.
  revert d. induction claimed as [|j claimed IH]; intros d Hnd Hl; cbn [attachDocuments].
  { exists d. split_and!; try done. by intros j Hj%elem_of_nil. }
  csimpl in Hnd. apply NoDup_cons in Hnd as [Hj Hnd].
  destruct (Hl j) as (r & Hr & Hh); [by left|].
  destruct (cancel_reason (documents d !! DocumentID j) j) as [reason|] eqn:Ec.
  - unfold cancelJob. rewrite (update_held_ok _ _ _ _ _ _ r Hr Hh).
    set (d1 := set_jobs d _). destruct (IH d1 Hnd) as (d' & -> & E1 & E2 & E3 & Ho & Hi).
    { intros j' Hj'. destruct (Hl j') as (r' & Hr' & Hh'); [by right|].
      exists r'. split; [|done]. unfold d1. simpl. rewrite lookup_insert_ne; [done|].
      intros E. apply Hj. rewrite E. by apply list_elem_of_fmap_2. }
    exists d'. assert (Hx : ready_job d j = None).
    { unfold ready_job. destruct (documents d !! DocumentID j); [by rewrite Ec|done]. }
    simpl. rewrite Hx. change (ready_job d1) with (ready_job d). split_and!; try done.
    + f_equal. f_equal. unfold omap. lia.
    + intros id Hid. rewrite not_elem_of_cons in Hid. destruct Hid as [Hne Hid].
      rewrite Ho by done. unfold d1. simpl. by rewrite lookup_insert_ne.
    + intros j' [->|Hj']%elem_of_cons.
      * exists r. split; [done|]. rewrite Ec, Ho by done. unfold d1. simpl. by rewrite lookup_insert_eq.
      * destruct (Hi j' Hj') as (r' & Hr' & E). unfold d1 in Hr'. simpl in Hr'.
        rewrite lookup_insert_ne in Hr'; [by exists r'|].
        intros E'. apply Hj. rewrite E'. by apply list_elem_of_fmap_2.
  - destruct (IH d Hnd) as (d' & -> & E1 & E2 & E3 & Ho & Hi); [intros; apply Hl; by right|].
    exists d'. assert (Hx : ready_job d j
      = Some (with_text j match documents d !! DocumentID j with Some doc => normalized_text doc | None => "" end)).
    { unfold ready_job. destruct (documents d !! DocumentID j); [by rewrite Ec|done]. }
    simpl. rewrite Hx. split_and!; try done.
    + simpl. f_equal. f_equal. unfold omap. lia.
    + intros id Hid. rewrite not_elem_of_cons in Hid. apply Ho. tauto.
    + intros j' [->|Hj']%elem_of_cons; [|by apply Hi].
      exists r. split; [done|]. rewrite Ec, Ho by done. done.
Qed.

Section claims.
Context (now : time) (clock : string -> time) (uuid : string -> string)
  (returning : list Job -> list Job) (locked : gset string) (d : db)
  (ownerID : string) (limit : Z) (leaseExpiresAt : time) (scopes : list JobScope).
Context (Hret : forall l, returning l ≡ₚ l).

Definition claim_selected : list (string * job_row) :=
  select_rows claim_order locked limit
    (fun r => claimable now r && in_scope d (scopeArgs scopes) r) (jobs d).

Definition claim_leased (id : string) (r : job_row) : job_row :=
  leased_row now ownerID (uuid id) leaseExpiresAt r.

Definition claim_db : db := set_jobs d (update_rows claim_leased claim_selected (jobs d)).

Definition claim_jobs : list Job :=
  returning ((fun c => job_of (fst c) (claim_leased (fst c) (snd c))) <$> claim_selected).

Lemma claimJobs_unfold :
  claimJobs now clock uuid returning locked d ownerID limit leaseExpiresAt scopes
  = attachDocuments now clock claim_db claim_jobs.
Proof. done. Qed.

Lemma claim_selected_spec :
  (forall id r, (id, r) ∈ claim_selected ->
     jobs d !! id = Some r /\ id ∉ locked /\ status r = Pending /\ next_attempt_at r <= now /\
     attempt_count r < r_max_attempts r /\ in_scope d (scopeArgs scopes) r = true) /\
  NoDup (fst <$> claim_selected).
Proof using Type.
  destruct (select_rows_spec claim_order locked limit
    (fun r => claimable now r && in_scope d (scopeArgs scopes) r) (jobs d)) as (H1 & H2 & _).
  split; [|exact H2]. intros id r Hin. destruct (H1 id r Hin) as (? & ? & Hp).
  apply andb_true_iff in Hp as [Hp ?]. apply claimable_spec in Hp as (? & ? & ?).
  by split_and!.
Qed.

Lemma claim_jobs_elem j :
  j ∈ claim_jobs <-> exists id r, (id, r) ∈ claim_selected /\ j = job_of id (claim_leased id r).
Proof.
  unfold claim_jobs. rewrite Hret, list_elem_of_fmap. split.
  - intros ([id r] & -> & Hin). eauto.
  - intros (id & r & Hin & ->). by exists (id, r).
Qed.

Lemma claim_jobs_NoDup : NoDup (JobID <$> claim_jobs).
Proof.
  unfold claim_jobs. rewrite Hret, <-list_fmap_compose.
  apply claim_selected_spec.
Qed.

Lemma claim_db_row id r :
  (id, r) ∈ claim_selected -> jobs claim_db !! id = Some (claim_leased id r).
Proof. intros H. simpl. apply update_rows_in; [apply claim_selected_spec|done]. Qed.

Lemma claim_jobs_held j :
  (clock (JobID j) < leaseExpiresAt) -> j ∈ claim_jobs -> leased_to (clock (JobID j)) claim_db j.
Proof.
  intros Hc (id & r & Hin & ->) % claim_jobs_elem. exists (claim_leased id r).
  split; [by apply claim_db_row|]. unfold held. simpl in *.
  rewrite !bool_decide_true, Z.eqb_refl by done. by apply Z.ltb_lt.
Qed.

Lemma attachDocuments_ready_from e claimed e' ready n j :
  attachDocuments now clock e claimed = inl (e', ready, n) -> j ∈ ready ->
  exists j0 text, j0 ∈ claimed /\ j = with_text j0 text.
Proof.
  revert e e' ready n. induction claimed as [|j0 claimed IH]; intros e e' ready n; cbn [attachDocuments].
  { intros [= _ <- _] Hin. by apply elem_of_nil in Hin. }
  destruct (cancel_reason _ j0).
  - destruct (cancelJob _ _ _ _ _ _) as [e1|]; [|done].
    destruct (attachDocuments _ _ e1 _) as [[[e2 ready2] n2]|] eqn:E; [|done].
    intros [= _ <- _] Hin. destruct (IH _ _ _ _ E Hin) as (j1 & t & ? & ->). exists j1, t.
    split; [by right|done].
  - destruct (attachDocuments _ _ e claimed) as [[[e2 ready2] n2]|] eqn:E; [|done].
    intros [= _ <- _] [->|Hin]%elem_of_cons; [eexists j0, _; split; [by left|done]|].
    destruct (IH _ _ _ _ E Hin) as (j1 & t & ? & ->). exists j1, t. split; [by right|done].
Qed.

(** A ready job holds the next fence of a row that was pending. *)
Lemma claim_fence d' ready n j :
  claimJobs now clock uuid returning locked d ownerID limit leaseExpiresAt scopes
  = inl (d', ready, n) -> j ∈ ready ->
  (exists r, jobs d !! JobID j = Some r /\ status r = Pending /\ LeaseFence j = lease_fence r + 1) /\
  (exists r, jobs d' !! JobID j = Some r /\ LeaseFence j <= lease_fence r).
Proof.
  rewrite claimJobs_unfold. intros Ha Hin.
  destruct (attachDocuments_ready_from _ _ _ _ _ _ Ha Hin) as (j0 & t & Hj0 & ->).
  apply claim_jobs_elem in Hj0 as (id & r & Hs & ->). simpl.
  split.
  - exists r. destruct claim_selected_spec as [H _]. destruct (H id r Hs) as (? & _ & ? & _). done.
  - eapply fence_mono; [by eapply attachDocuments_changes|].
    exists (claim_leased id r). split; [by apply claim_db_row|]. simpl. lia.
Qed.
End claims.

(** ** Properties *)

(** C15. Queue invariant.  Whatever claims, completions, failures, deferrals,
    renewals, recoveries, enqueues and document changes happen, in any order, a
    job has an owner, a token and an expiry exactly while it is leased, its
    attempts stay within its maximum, a pending job always has an attempt left,
    and fences are never negative. *)
Theorem queue_invariant d d' : db_wf d -> steps queue_step d d' -> db_wf d'.
Proof. apply queue_steps_wf. Qed.

(** C1. Fencing.  When a job is claimed again, the new lease has a larger fence,
    and from then on, after any further steps, every operation with the old
    lease is rejected and changes nothing: cancel, complete, fail, defer,
    renew and the whole completion transaction. *)
Theorem claims_are_fenced
    now1 clock1 uuid1 ret1 locked1 d1 owner1 limit1 expires1 scopes1 d1' ready1 n1 a
    now2 clock2 uuid2 ret2 locked2 d2 owner2 limit2 expires2 scopes2 d2' ready2 n2 b d3 :
  (forall l, ret1 l ≡ₚ l) -> (forall l, ret2 l ≡ₚ l) ->
  claimJobs now1 clock1 uuid1 ret1 locked1 d1 owner1 limit1 expires1 scopes1 = inl (d1', ready1, n1) ->
  a ∈ ready1 ->
  steps queue_step d1' d2 ->
  claimJobs now2 clock2 uuid2 ret2 locked2 d2 owner2 limit2 expires2 scopes2 = inl (d2', ready2, n2) ->
  b ∈ ready2 -> JobID b = JobID a ->
  steps queue_step d2' d3 ->
  LeaseFence a < LeaseFence b /\ fenced_out d3 a.
Proof.
  intros Hr1 Hr2 H1 Ha Hs H2 Hb Eid Hs3.
  destruct (claim_fence _ _ _ _ _ _ _ _ _ _ Hr1 _ _ _ _ H1 Ha) as [_ Hf1].
  destruct (claim_fence _ _ _ _ _ _ _ _ _ _ Hr2 _ _ _ _ H2 Hb) as [(r & Hr & _ & Hf) Hf2].
  pose proof (fence_mono _ _ _ (queue_steps_changes _ _ (JobID a) Hs) Hf1) as (r' & Hr' & Hle).
  rewrite Eid in Hr, Hf2. rewrite Hr in Hr'. injection Hr' as <-.
  assert (Hlt : LeaseFence a < LeaseFence b) by lia. split; [done|].
  apply lease_over_fenced_out. eapply lease_over_steps; [|exact Hs3].
  destruct Hf2 as (r2 & Hr2' & Hle2). exists r2. split; [done|]. left. lia.
Qed.

(** What a claim of [selected] leaves: the jobs [ready] to embed. *)
Record claim_result (now : time) (owner : string) (uuid : string -> string) (locked : gset string)
    (d : db) (limit : Z) (expires : time) (scopes : list JobScope)
    (selected : list (string * job_row)) (d' : db) (ready : list Job) : Prop := {
  claim_bounded : (length selected <= Z.to_nat limit)%nat;
  claim_eligible id r :
    (id, r) ∈ selected ->
    jobs d !! id = Some r /\ id ∉ locked /\ status r = Pending /\ next_attempt_at r <= now /\
    attempt_count r < r_max_attempts r /\ in_scope d (scopeArgs scopes) r = true;
  claim_first id r :
    jobs d !! id = Some r -> id ∉ locked -> claimable now r = true ->
    in_scope d (scopeArgs scopes) r = true -> (id, r) ∉ selected ->
    length selected = Z.to_nat limit /\ forall c, c ∈ selected -> before claim_order c (id, r);
  claim_ready j :
    j ∈ ready -> exists r doc,
      (JobID j, r) ∈ selected /\ jobs d' !! JobID j = Some (leased_row now owner (uuid (JobID j)) expires r) /\
      LeaseFence j = lease_fence r + 1 /\ LeaseToken j = uuid (JobID j) /\
      documents d !! DocumentID j = Some doc /\ d_status doc = "active" /\
      NormalizedText j = normalized_text doc /\ textChecksum (NormalizedText j) = ContentSHA256 j;
  claim_distinct : NoDup (JobID <$> ready);
  claim_cancelled id r :
    (id, r) ∈ selected -> id ∉ JobID <$> ready -> exists reason,
      jobs d' !! id = Some (cancelled_row now reason (leased_row now owner (uuid id) expires r));
  claim_frame id : id ∉ fst <$> selected -> jobs d' !! id = jobs d !! id;
}.

Lemma ready_ids d js : JobID <$> omap (ready_job d) js `sublist_of` JobID <$> js.
Proof.
  induction js as [|j js IH]; csimpl; [done|]. destruct (ready_job d j) as [j'|] eqn:E; csimpl.
  - unfold ready_job in E. destruct (documents d !! _); [|done].
    destruct (cancel_reason _ j); [done|]. injection E as <-. by apply sublist_skip.
  - by apply sublist_cons.
Qed.

Lemma claimJobs_spec now clock uuid returning locked d owner limit expires scopes :
  (forall l, returning l ≡ₚ l) -> (forall id, clock id < expires) ->
  let selected := claim_selected now locked d limit scopes in
  exists d' ready,
    claimJobs now clock uuid returning locked d owner limit expires scopes
    = inl (d', ready, Z.of_nat (length selected) - Z.of_nat (length ready)) /\
    claim_result now owner uuid locked d limit expires scopes selected d' ready.
Proof.
  intros Hret Hclock selected.
  destruct (claim_selected_spec now locked d limit scopes) as [Hsel Hnd].
  pose proof (claim_jobs_NoDup now uuid returning locked d owner limit expires scopes Hret) as Hnd'.
  destruct (attachDocuments_total now clock
    (claim_db now uuid locked d owner limit expires scopes)
    (claim_jobs now uuid returning locked d owner limit expires scopes) Hnd')
    as (d' & Ha & _ & _ & _ & Ho & Hi).
  { intros j Hj. eapply claim_jobs_held; eauto. }
  set (cj := claim_jobs _ _ _ _ _ _ _ _ _) in *. set (cd := claim_db _ _ _ _ _ _ _ _) in *.
  assert (Hlen : length cj = length selected).
  { unfold cj, claim_jobs. rewrite (Permutation_length (Hret _)). apply length_fmap. }
  assert (Hcd : documents cd = documents d) by done.
  assert (Hdb : forall id r, (id, r) ∈ selected ->
    jobs cd !! id = Some (claim_leased now uuid owner expires id r)).
  { intros id r Hin. by eapply claim_db_row. }
  assert (Hout : forall id, id ∉ fst <$> selected -> jobs cd !! id = jobs d !! id).
  { intros id Hn. by apply update_rows_out. }
  change (attachDocuments now clock cd cj) with
    (claimJobs now clock uuid returning locked d owner limit expires scopes) in Ha.
  rewrite Hlen in Ha. clearbody cd.
  exists d', (omap (ready_job cd) cj). split; [exact Ha|].
  split; [apply firstn_le_length|exact Hsel|..].
  - intros id r Hr Hl Hc Hs Hn.
    eapply (select_rows_spec claim_order locked limit _ (jobs d)); [|exact Hn].
    unfold eligible. by rewrite Hc, Hs.
  - intros j Hj. apply list_elem_of_omap in Hj as (j0 & Hj0 & Hready).
    pose proof Hj0 as Hin. apply claim_jobs_elem in Hin as (id & r & Hs & E); [|done].
    destruct (Hi j0 Hj0) as (r' & Hr' & Hrow).
    unfold ready_job in Hready. rewrite Hcd in Hready.
    destruct (documents d !! DocumentID j0) as [doc|] eqn:Ed; [|done].
    rewrite Hcd, Ed in Hrow.
    destruct (cancel_reason (Some doc) j0) eqn:Ec; [done|]. injection Hready as <-.
    exists r, doc. assert (Eid : JobID j0 = id) by by rewrite E.
    rewrite Eid, (Hdb _ _ Hs) in Hr'. injection Hr' as <-.
    simpl. rewrite Eid. rewrite E in *. simpl in *. split_and!; try done.
    + unfold cancel_reason in Ec. by destruct (String.eqb_spec (d_status doc) "active").
    + unfold cancel_reason in Ec. destruct (negb (String.eqb (d_status doc) "active")); [done|].
      destruct (input_current doc _) eqn:Ei; [|done]. unfold input_current in Ei. simpl in Ei.
      rewrite !andb_true_iff, !String.eqb_eq in Ei. destruct Ei as [[[E1 E2] _] _]. congruence.
  - eapply sublist_NoDup; [exact Hnd'|apply ready_ids].
  - intros id r Hs Hn. set (j0 := job_of id (claim_leased now uuid owner expires id r)).
    assert (Hj0 : j0 ∈ cj) by (apply claim_jobs_elem; eauto).
    destruct (Hi j0 Hj0) as (r' & Hr' & Hrow).
    change (JobID j0) with id in Hr'. rewrite (Hdb _ _ Hs) in Hr'. injection Hr' as <-.
    rewrite Hcd in Hrow. destruct (cancel_reason (documents d !! DocumentID j0) j0) as [reason|] eqn:Ec.
    { exists reason. change (JobID j0) with id in Hrow. rewrite Hrow. done. }
    exfalso. apply Hn. apply list_elem_of_fmap.
    destruct (documents d !! DocumentID j0) as [doc|] eqn:Ed; [|done].
    exists (with_text j0 (normalized_text doc)). split; [done|].
    apply list_elem_of_omap. exists j0. split; [done|]. unfold ready_job. by rewrite Hcd, Ed, Ec.
  - intros id Hid. rewrite Ho; [by apply Hout|].
    intros Hin. apply list_elem_of_fmap in Hin as (j & -> & Hj).
      apply claim_jobs_elem in Hj as (id & r & Hs & ->); [|done]. apply Hid. simpl.
      change id with (fst (id, r)). by apply list_elem_of_fmap_2.
Qed.

(** Claiming.  A claim transaction that finishes before its own lease
    expires never fails.  It leases at most [limit] rows, all pending, due,
    within their attempts, in scope and unlocked, and leaves out an eligible row
    only when it took [limit] rows that precede it by priority, due time and id.
    The jobs it returns carry the current text of an active document whose
    checksum, revision and kind are the job's, with a fresh fence; the other
    rows it took are cancelled, and no other row changes. *)
Theorem claim_contract now clock uuid returning locked d owner limit expires scopes :
  (forall l, returning l ≡ₚ l) -> (forall id, clock id < expires) ->
  let selected := claim_selected now locked d limit scopes in
  exists d' ready,
    claimJobs now clock uuid returning locked d owner limit expires scopes
    = inl (d', ready, Z.of_nat (length selected) - Z.of_nat (length ready)) /\
    claim_result now owner uuid locked d limit expires scopes selected d' ready.
Proof. apply claimJobs_spec. Qed.

(** ** Completion, release and recovery *)

(** The job is leased to its holder, and its document is active with the text,
    the revision and the kind it was claimed with. *)
Definition completable (clock : time) (d : db) (j : Job) : Prop :=
  exists doc r,
    documents d !! DocumentID j = Some doc /\ d_status doc = "active" /\
    normalized_sha256 doc = ContentSHA256 j /\
    textChecksum (normalized_text doc) = ContentSHA256 j /\
    d_input_revision doc = job_revision j /\
    embeddingKindForSource (source_kind doc) = EmbeddingKind j /\
    jobs d !! JobID j = Some r /\ held clock (LeaseToken j) (LeaseFence j) r = true /\
    r_document_id r = DocumentID j /\ r_content_sha256 r = ContentSHA256 j /\
    r_embedding_model r = EmbeddingModel j /\ r_input_revision r = job_revision j /\
    r_embedding_kind r = EmbeddingKind j.

Lemma guardCompletion_None clock d j : guardCompletion clock d j = None <-> completable clock d j.
Proof.
  unfold guardCompletion, completable. destruct (documents d !! DocumentID j) as [doc|]; [|naive_solver].
  destruct (String.eqb_spec (d_status doc) "active") as [Ea|Ea]; simpl; [|naive_solver].
  destruct (String.eqb_spec (normalized_sha256 doc) (ContentSHA256 j)) as [Es|Es]; simpl; [|naive_solver].
  destruct (String.eqb_spec (textChecksum (normalized_text doc)) (normalized_sha256 doc)) as [Et|Et];
    simpl; [|split; [done|]; intros (? & ? & [= <-] & ?); naive_solver congruence].
  destruct (String.eqb_spec (job_revision j) (d_input_revision doc)) as [Er|Er]; simpl; [|naive_solver].
  destruct (String.eqb_spec (embeddingKindForSource (source_kind doc)) (EmbeddingKind j)) as [Ek|Ek];
    simpl; [|naive_solver].
  destruct (jobs d !! JobID j) as [r|]; [|naive_solver].
  destruct (_ && _) eqn:E.
  - rewrite !andb_true_iff, !String.eqb_eq in E. destruct E as [[[[[? ?] ?] ?] ?] ?].
    split; [intros _|done]. exists doc, r. split_and!; congruence.
  - split; [done|]. intros (doc' & r' & [= <-] & _ & _ & _ & _ & _ & [= <-] & Hh & ? & ? & ? & ? & ?).
    rewrite Hh in E. repeat (rewrite (proj2 (String.eqb_eq _ _)) in E by congruence). done.
Qed.

(** The vector tables after an embedding was stored under a kind. *)
Definition stored (d : db) (j : Job) (kind : string) (row : vector_row) : Prop :=
  embeddings d !! (DocumentID j, kind, EmbeddingModel j, job_revision j) = Some row /\
  exists vectorTable, vectorTableForKind kind = inl vectorTable /\
    vectors d !! (vectorTable, DocumentID j, EmbeddingModel j, job_revision j) = Some row.

(** What a completion transaction did, by its outcome. *)
Definition completion_outcome (now guarded clock : time) (d : db) (j : Job) (v : list float32)
    (result : db + error) : Prop :=
  match result with
  | inl d' =>
      completable guarded d j /\ completable clock d j /\ ValidateVector v 768 = None /\
      exists kind r,
        normalizeEmbeddingKind (EmbeddingKind j) = inl kind /\
        stored d' j kind {| v_content_sha256 := ContentSHA256 j; v_embedding := v; embedded_at := now |} /\
        jobs d !! JobID j = Some r /\ jobs d' = <[JobID j := completed_row now r]> (jobs d) /\
        documents d' = documents d
  | inr _ =>
      completable guarded d j -> completable clock d j -> ValidateVector v 768 = None ->
      exists err, normalizeEmbeddingKind (EmbeddingKind j) = inr err
  end.

Lemma completable_later guarded clock d j :
  completable guarded d j ->
  completable clock d j <->
  exists r, jobs d !! JobID j = Some r /\ held clock (LeaseToken j) (LeaseFence j) r = true.
Proof. unfold completable. intros (doc & r & H). naive_solver. Qed.

Lemma complete_one_outcome now guarded clock d j v :
  completion_outcome now guarded clock d j v (complete_one now guarded clock d j v).
Proof.
  unfold completion_outcome, complete_one. destruct (guardCompletion guarded d j) eqn:Eg.
  { intros Hc%guardCompletion_None. congruence. }
  destruct (normalizeEmbeddingKind (EmbeddingKind j)) as [kind|err] eqn:Ek; [|eauto].
  pose proof (proj1 (guardCompletion_None _ _ _) Eg) as Hcomp.
  pose proof (completable_later guarded clock d j Hcomp) as Hlater.
  assert (Ht : exists t, vectorTableForKind kind = inl t).
  { unfold normalizeEmbeddingKind in Ek. repeat case_match; simplify_eq; by eexists. }
  destruct Ht as [t Ht]. unfold insertVector. rewrite Ht.
  destruct (ValidateVector v 768); [done|]. fold (job_revision j).
  unfold completeJob, update_held. cbn [jobs].
  destruct (jobs d !! JobID j) as [r|] eqn:Hr; [|by intros _ (r & ? & _)%Hlater].
  destruct (held clock (LeaseToken j) (LeaseFence j) r) eqn:Hh;
    [|by intros _ (r' & [= <-] & ?)%Hlater; congruence].
  split; [done|]. split; [apply Hlater; eauto|]. split; [done|].
  exists kind, r. split; [done|]. split; [|done].
  unfold stored. simpl. rewrite lookup_insert_eq. split; [done|].
  exists t. by rewrite Ht, lookup_insert_eq.
Qed.

(** C8. Completion.  The statements of a completion transaction succeed only
    when the lease was held at both clock reads, the guard's and the final
    update's, and the document was active with the very text the job was claimed
    with; they then store the vector in both tables and complete exactly that
    job.  With a valid vector and a known kind these conditions also suffice; a
    lease that expires between the two reads makes the transaction fail. *)
Theorem completion_atomic now guarded clock d j v :
  match complete_one now guarded clock d j v with
  | inl d' =>
      completable guarded d j /\ completable clock d j /\ ValidateVector v 768 = None /\
      exists kind r,
        normalizeEmbeddingKind (EmbeddingKind j) = inl kind /\
        stored d' j kind {| v_content_sha256 := ContentSHA256 j; v_embedding := v; embedded_at := now |} /\
        jobs d !! JobID j = Some r /\ jobs d' = <[JobID j := completed_row now r]> (jobs d) /\
        documents d' = documents d
  | inr _ =>
      completable guarded d j -> completable clock d j -> ValidateVector v 768 = None ->
      exists err, normalizeEmbeddingKind (EmbeddingKind j) = inr err
  end.
Proof. apply complete_one_outcome. Qed.

(** An operation releases the lease on [id] and leaves a row with [P]. *)
Definition releases (d : db) (id : string) (result : db + error) (P : job_row -> Prop) : Prop :=
  exists r r', jobs d !! id = Some r /\ released r r' /\ P r' /\
    result = inl (set_jobs d (<[id := r']> (jobs d))).

Lemma releases_intro d clock id token fence f r P :
  jobs d !! id = Some r -> held clock token fence r = true -> released r (f r) -> P (f r) ->
  releases d id (update_held d clock id token fence f) P.
Proof. intros Hr Hh Hrel HP. exists r, (f r). by rewrite (update_held_ok _ _ _ _ _ _ r). Qed.

(** What becomes of a lease.  While the lease of a claim is running, its
    holder can release it in five ways, each of which clears the lease and keeps
    the fence: deferral makes the job pending at the retry time with the
    attempt given back; a failure makes it pending after min(2^attempts, 300)
    seconds, or failed when that was the last attempt; a permanent failure and
    a cancellation end it; completion completes it with its attempts kept. *)
Theorem lease_outcomes d id r now0 owner token expires now clock retryAt msg :
  jobs d !! id = Some (leased_row now0 owner token expires r) ->
  clock < expires -> 0 <= attempt_count r ->
  let fence := lease_fence r + 1 in
  let attempts := attempt_count r + 1 in
  releases d id (deferJob now clock d id token fence retryAt)
    (fun r' => status r' = Pending /\ attempt_count r' = attempt_count r /\ next_attempt_at r' = retryAt) /\
  releases d id (failJob now clock d id token fence msg)
    (fun r' => status r' = (if r_max_attempts r <=? attempts then Failed else Pending) /\
               attempt_count r' = attempts /\ last_error r' = Some msg /\
               next_attempt_at r' = now + Z.min (2 ^ attempts) 300 * Second) /\
  releases d id (failJobPermanently now clock d id token fence msg)
    (fun r' => status r' = Failed /\ last_error r' = Some msg) /\
  releases d id (cancelJob now clock d id token fence msg)
    (fun r' => status r' = Cancelled /\ last_error r' = Some msg) /\
  releases d id (completeJob now clock d id token fence)
    (fun r' => status r' = Completed /\ completed_at r' = Some now).
Proof.
  intros Hr Hc Ha fence attempts.
  assert (Hh : held clock token fence (leased_row now0 owner token expires r) = true).
  { unfold held. simpl. rewrite !bool_decide_true, Z.eqb_refl by done. by apply Z.ltb_lt. }
  assert (Hrel : forall st err att next completed, st <> Leased ->
    (att = attempts /\ (st = Pending -> exhausted (leased_row now0 owner token expires r) = false)
     \/ att = attempt_count r) ->
    released (leased_row now0 owner token expires r)
      (release_row (leased_row now0 owner token expires r) st err att next completed now)).
  { intros st err att next completed Hst Hatt. apply release_released; [done|].
    simpl. destruct Hatt as [?| ->]; [by left|right; lia]. }
  split_and!; eapply releases_intro; try done; try (apply Hrel; [done|]); try (by left); simpl.
  - right. lia.
  - split_and!; [done|lia|done].
  - apply Hrel; [apply retry_status|]. left. split; [done|]. apply retry_status.
Qed.

(** Recovery.  Recovering expired leases releases only leases whose expiry
    has passed, at most [limit] of them, earliest first; when it released fewer
    than [limit], no unlocked lease of its scope is left expired. *)
Theorem recovery_contract now locked d limit scopes :
  let '(d', n) := recoverExpiredLeases now locked d limit scopes in
  0 <= n <= Z.max limit 0 /\
  (forall id, jobs d' !! id = jobs d !! id \/
     exists r, jobs d !! id = Some r /\ expired now r = true /\ id ∉ locked /\
       in_scope d (scopeArgs scopes) r = true /\ jobs d' !! id = Some (recovered_row now r)) /\
  (n < limit -> forall id r, jobs d' !! id = Some r -> id ∉ locked ->
     in_scope d (scopeArgs scopes) r = true -> expired now r = false).
Proof.
  unfold recoverExpiredLeases. cbn [jobs set_jobs].
  set (p := fun r => expired now r && in_scope d (scopeArgs scopes) r).
  destruct (select_rows_spec recovery_order locked limit p (jobs d)) as (H1 & H2 & H3 & H4).
  pose proof (update_rows_cases recovery_order locked limit p (jobs d) (fun _ => recovered_row now)) as Hu.
  split; [lia|]. split.
  - intros id. destruct (Hu id) as [(r & _ & Hr & Hp & Hl & ->)|[_ ->]]; [right|by left].
    apply andb_true_iff in Hp as [? ?]. by exists r.
  - intros Hn id r Hr Hl Hs. destruct (expired now r) eqn:Ee; [|done]. exfalso.
    destruct (Hu id) as [(r0 & _ & _ & _ & _ & E)|[Hout E]]; rewrite E in Hr.
    + injection Hr as <-. unfold expired in Ee. simpl in Ee. by destruct (exhausted r0).
    + destruct (H4 id r) as [Hlen _].
      * unfold eligible, p. by rewrite Ee, Hs.
      * intros Hin. apply Hout. change id with (fst (id, r)). by apply list_elem_of_fmap_2.
      * lia.
Qed.

(** ** Witnesses *)

Definition sample_doc : doc_row := {|
  normalized_text := "hello"; d_status := "active";
  normalized_sha256 := textChecksum "hello"; d_input_revision := "legacy_unknown";
  source_kind := "proxy_event" |}.

Definition sample_row : job_row := {|
  r_document_id := "d1"; r_embedding_kind := "event"; r_embedding_model := "m";
  r_content_sha256 := textChecksum "hello"; r_input_revision := "legacy_unknown";
  r_priority := 5; r_max_attempts := 3;
  status := Pending; owner_id := None; lease_token := None; lease_fence := 0;
  lease_expires_at := None; attempt_count := 0; next_attempt_at := 0;
  last_error := None; completed_at := None; updated_at := 0 |}.

Definition sample_db : db := {|
  jobs := {["j1" := sample_row]}; documents := {["d1" := sample_doc]};
  embeddings := ∅; vectors := ∅ |}.

Definition sample_claim (now : time) (d : db) : (db * list Job * Z) + error :=
  claimJobs now (fun _ => now) (fun id => "token-" +:+ id +:+ Itoa now) id ∅ d "w" 10 (now + Minute) [].

Definition claimed_db (c : (db * list Job * Z) + error) : db :=
  match c with inl (d, _, _) => d | inr _ => sample_db end.

Definition claimed_job (c : (db * list Job * Z) + error) : Job :=
  match c with
  | inl (_, j :: _, _) => j
  | _ => job_of "" sample_row
  end.

(** Claimed, left to expire, recovered after a minute, and claimed again. *)
Definition first_claim := sample_claim 1 sample_db.
Definition recovered_db : db :=
  fst (recoverExpiredLeases (2 * Minute) ∅ (claimed_db first_claim) 10 []).
Definition second_claim := sample_claim (3 * Minute) recovered_db.

Lemma sample_db_wf : db_wf sample_db.
Proof.
  unfold db_wf, sample_db. simpl. apply map_Forall_singleton.
  split; simpl; try lia; try (split; [by intros []|done]); done.
Qed.

Lemma sample_steps : steps queue_step sample_db recovered_db.
Proof.
  eapply steps_next; [apply steps_one|apply step_recover].
  apply (step_claim 1 (fun _ => 1) (fun id => "token-" +:+ id +:+ Itoa 1) id ∅ sample_db "w" 10
    (1 + Minute) [] (claimed_db first_claim) [claimed_job first_claim] 0); [done|].
  vm_compute. reflexivity.
Qed.

Lemma queue_invariant_witness : db_wf recovered_db.
Proof. apply (queue_invariant sample_db); [apply sample_db_wf|apply sample_steps]. Defined.

Lemma claims_are_fenced_witness :
  LeaseFence (claimed_job first_claim) = 1 /\
  fenced_out (claimed_db second_claim) (claimed_job first_claim).
Proof.
  split; [vm_compute; reflexivity|].
  eapply (claims_are_fenced 1 (fun _ => 1) (fun id => "token-" +:+ id +:+ Itoa 1) id ∅ sample_db "w" 10
    (1 + Minute) [] (claimed_db first_claim) [claimed_job first_claim] 0 (claimed_job first_claim)
    (3 * Minute) (fun _ => 3 * Minute) (fun id => "token-" +:+ id +:+ Itoa (3 * Minute)) id ∅
    recovered_db "w" 10 (3 * Minute + Minute) [] (claimed_db second_claim)
    [claimed_job second_claim] 0 (claimed_job second_claim)).
  - done.
  - done.
  - vm_compute. reflexivity.
  - by left.
  - apply steps_one, step_recover.
  - vm_compute. reflexivity.
  - by left.
  - vm_compute. reflexivity.
  - apply steps_refl.
Defined.

Lemma claim_contract_witness :
  exists d' ready,
    sample_claim 1 sample_db = inl (d', ready, 0) /\
    Forall (fun j => textChecksum (NormalizedText j) = ContentSHA256 j) ready.
Proof.
  destruct (claim_contract 1 (fun _ => 1) (fun id => "token-" +:+ id +:+ Itoa 1) id ∅ sample_db "w" 10
    (1 + Minute) [] (fun l => reflexivity l) (fun _ => eq_refl))
    as (d' & ready & Hc & Hr).
  exists d', ready. split.
  - unfold sample_claim. rewrite Hc. f_equal. f_equal.
    assert (E : Z.of_nat (length ready) = 1).
    { vm_compute in Hc. injection Hc as _ <- _. reflexivity. }
    rewrite E. vm_compute. reflexivity.
  - apply Forall_forall. intros j Hj. destruct (claim_ready _ _ _ _ _ _ _ _ _ _ _ Hr j Hj) as (_ & _ & _ & _ & _ & _ & _ & _ & _ & E). exact E.
Defined.

(** The lease of the claim, taken at 1 for a minute, runs out between the guard
    and the update. *)
Lemma completion_atomic_witness :
  exists err,
    complete_one 2 Minute (1 + Minute) (claimed_db first_claim) (claimed_job first_claim)
      (f32_of_Z 1 :: repeat f_zero 767) = inr err.
Proof.
  destruct (complete_one 2 Minute (1 + Minute) (claimed_db first_claim) (claimed_job first_claim)
    (f32_of_Z 1 :: repeat f_zero 767)) as [d'|err] eqn:E; [|eauto].
  pose proof (completion_atomic 2 Minute (1 + Minute) (claimed_db first_claim) (claimed_job first_claim)
    (f32_of_Z 1 :: repeat f_zero 767)) as H.
  rewrite E in H. destruct H as (_ & Hc & _). apply guardCompletion_None in Hc.
  vm_compute in Hc. discriminate.
Defined.

Lemma lease_outcomes_witness :
  releases (claimed_db first_claim) "j1"
    (failJob 2 2 (claimed_db first_claim) "j1" (LeaseToken (claimed_job first_claim)) 1 "boom")
    (fun r => status r = Pending /\ attempt_count r = 1 /\ last_error r = Some "boom" /\
              next_attempt_at r = 2 + Z.min (2 ^ 1) 300 * Second).
Proof.
  assert (Hr : jobs (claimed_db first_claim) !! "j1"
    = Some (leased_row 1 "w" (LeaseToken (claimed_job first_claim)) (1 + Minute) sample_row)).
  { vm_compute. reflexivity. }
  assert (Hc : 2 < 1 + Minute) by (vm_compute; reflexivity).
  assert (Ha : 0 <= attempt_count sample_row) by (vm_compute; discriminate).
  exact (proj1 (proj2 (lease_outcomes _ _ _ _ _ _ _ 2 2 9 "boom" Hr Hc Ha))).
Defined.
