(* ===== verification/Repair.v ===== *)
(** * Job repair (internal/app/repair: repair.go, scoped.go)

    The operator's repairs of the job queue of [LeaseQueue]: the four bounded
    statements of repair.go, their dispatch, and the campaigns of scoped.go,
    which walk the jobs of one scope page by page from a stored cursor.  The
    tables a campaign adds are in [repair_db].  [client_now] is the clock of the
    command, [now] CURRENT_TIMESTAMP, [clock] clock_timestamp(). *)

From S2P Require Import Prelude GoErrors GoStrings GoSort GoCrypto GoFloats EmbedClient LeaseQueue.

(** ** repair.go: the bounded statements *)

Definition proxy_kinds : list string := ["proxy_event"; "proxy_blocked_host_window"; "proxy_flow"].

(** [ORDER BY job.job_id] *)
Definition id_order : string * job_row -> string * job_row -> bool := less_on fst str_ltb.

(** The join with an active document that is not a proxy record. *)
Definition retryable_document (d : db) (r : job_row) : bool :=
  match documents d !! r_document_id r with
  | Some doc => String.eqb (d_status doc) "active" && negb (one_of (source_kind doc) proxy_kinds)
  | None => false
  end.

Definition stale_target (cutoff : time) (d : db) (r : job_row) : bool :=
  bool_decide (status r = Leased)
  && match lease_expires_at r with Some e => e <? cutoff | None => false end
  && (attempt_count r <? r_max_attempts r) && retryable_document d r.

Definition failed_target (d : db) (r : job_row) : bool :=
  bool_decide (status r = Failed) && (attempt_count r <? r_max_attempts r) && retryable_document d r.

Definition open_job (r : job_row) : bool :=
  bool_decide (status r = Pending) || bool_decide (status r = Leased).

Definition superseded_target (d : db) (r : job_row) : bool :=
  match documents d !! r_document_id r with
  | Some doc => negb (String.eqb (d_status doc) "active") && open_job r
  | None => false
  end.

Definition orphaned_target (d : db) (r : job_row) : bool :=
  open_job r && bool_decide (documents d !! r_document_id r = None).

(** The row a reset or a retry writes. *)
Definition requeued_row (now : time) (r : job_row) : job_row :=
  release_row r Pending (last_error r) (attempt_count r) now (completed_at r) now.

Definition resetStaleJobs (client_now now : time) (locked : gset string) (d : db)
    (staleThreshold : duration) (limit : Z) : db * Z :=
  let cutoff := client_now + wrap64 (- staleThreshold) in
  let targets := select_rows id_order locked limit (stale_target cutoff d) (jobs d) in
  (set_jobs d (update_rows (fun _ => requeued_row now) targets (jobs d)),
   Z.of_nat (length targets)).

Definition retryFailedJobs (now : time) (locked : gset string) (d : db) (limit : Z) : db * Z :=
  let targets := select_rows id_order locked limit (failed_target d) (jobs d) in
  (set_jobs d (update_rows (fun _ => requeued_row now) targets (jobs d)),
   Z.of_nat (length targets)).

(** An UPDATE of the rows with the target ids, as they are when it reaches
    them: the target query of the two cancellations takes no lock. *)
Definition update_ids (f : job_row -> job_row) (ids : list string) (m : gmap string job_row)
    : gmap string job_row :=
  foldr (fun id m => match m !! id with Some r => <[id := f r]> m | None => m end) m ids.

Definition rows_matching (p : job_row -> bool) (m : gmap string job_row) : Z :=
  Z.of_nat (length (List.filter (fun c => p (snd c)) (map_to_list m))).

(** The two cancellations: [snapshot] is the database the targets are read
    from, [d] the one they are written to; [dryRun] only counts. *)
Definition cancel_jobs (target : db -> job_row -> bool) (msg : string) (now : time)
    (snapshot d : db) (limit : Z) (dryRun : bool) : db * Z :=
  if dryRun then (d, rows_matching (target snapshot) (jobs snapshot))
  else
    let targets := fst <$> select_rows id_order ∅ limit (target snapshot) (jobs snapshot) in
    (set_jobs d (update_ids (cancelled_row now msg) targets (jobs d)),
     Z.of_nat (length (List.filter (fun id => bool_decide (is_Some (jobs d !! id))) targets))).

Definition cancelSupersededJobs : time -> db -> db -> Z -> bool -> db * Z :=
  cancel_jobs superseded_target "document not active; embedding job cancelled".

Definition cancelOrphanedJobs : time -> db -> db -> Z -> bool -> db * Z :=
  cancel_jobs orphaned_target "document missing; embedding job cancelled".

(** The dispatch of Run on the legacy actions; [None] is another action. *)
Definition Run_action (client_now now : time) (locked : gset string) (snapshot d : db)
    (action : string) (staleMinutes limit : Z) (dryRun : bool) : option ((db * Z) + error) :=
  let failed msg := Some (inr (Opaque ("action " +:+ action +:+ " failed: " +:+ msg))) in
  if String.eqb action "reset-stale" then
    if (staleMinutes <=? 0) || (limit <=? 0)
    then failed "stale-minutes and limit must be greater than zero"
    else Some (inl (resetStaleJobs client_now now locked d (wrap64 (staleMinutes * Minute)) limit))
  else if String.eqb action "retry-failed" then
    if limit <=? 0 then failed "limit must be greater than zero"
    else Some (inl (retryFailedJobs now locked d limit))
  else if String.eqb action "cancel-superseded" then
    if limit <=? 0 then failed "limit must be greater than zero"
    else Some (inl (cancelSupersededJobs now snapshot d limit dryRun))
  else if String.eqb action "cancel-orphaned" then
    if limit <=? 0 then failed "limit must be greater than zero"
    else Some (inl (cancelOrphanedJobs now snapshot d limit dryRun))
  else None.

(** ** scoped.go: campaigns *)

Record Scope := {
  CampaignID : string;
  CreatedBefore : time;
  Kinds : list string;
  Model : string;
  ScInputRevision : string;
  AfterJobID : string;
  Limit : Z;
  ReviewedJobID : string;
  ReviewedAt : time;
  QueueReserve : Z;
}.

Definition is_proxy_kind (kind : string) : bool := one_of kind proxy_kinds.

(** [None] is a nil error. *)
Definition validate (s : Scope) : option error :=
  if (Limit s <? 1) || (1000 <? Limit s) || is_empty (Model s) || is_empty (ScInputRevision s)
     || bool_decide (Kinds s = [])
  then Some (Opaque "scoped repair requires kinds, model, input revision and limit 1..1000")
  else if negb (forallb is_proxy_kind (Kinds s))
  then Some (Opaque "scoped proxy repair has an unsupported kind")
  else if negb (String.eqb (TrimSpace (AfterJobID s)) (AfterJobID s))
  then Some (Opaque "invalid repair cursor")
  else if IsZero (CreatedBefore s)
  then Some (Opaque "scoped repair requires a frozen created-before cutoff")
  else if negb (is_empty (ReviewedJobID s))
          && (IsZero (ReviewedAt s) || (QueueReserve s <=? 0) || negb (is_empty (AfterJobID s)))
  then Some (Opaque "reviewed failure repair requires reviewed-at and a positive queue reserve without a cursor")
  else None.

Record Page := {
  Scanned : Z;
  CompletedMissingVector : Z;
  ReviewedFailure : Z;
  Retried : Z;
  PageAfterJobID : string;
}.

Record progress_row := {
  scope_sha256 : string;
  after_job_id : option string;
  scanned : Z;
  finished_at : option time;
  progress_updated_at : time;
}.

Record receipt := {
  receipt_job_id : string;
  previous_status : job_status;
  receipt_attempt_count : Z;
  previous_error : option string;
  reason : string;
}.

(** The job database and the tables of the campaigns; [policy] is the current
    row of proxy_preparation_policy: pending_high_water and expires_at. *)
Record repair_db := {
  queue : db;
  progress : gmap string progress_row;
  receipts : list receipt;
  policy : option (Z * time);
}.

(** What PostgreSQL and encoding/json do for a campaign: the uuid cast (to its
    canonical text), pgvector's operators, and the JSON text of a scope. *)
Class RepairEnv := {
  parse_uuid : string -> option string;
  nonzero_vector : list float32 -> bool;               (* v <#> v < 0 *)
  same_vector_text : list float32 -> list float32 -> bool;
  scope_json : list string -> Scope -> string;
}.

Section campaigns.
Context {Env : RepairEnv} (created_at : string -> time).

(** [time.Time] of the reviewed row, if a failure was reviewed. *)
Definition reviewed_at (s : Scope) : option time :=
  if is_empty (ReviewedJobID s) then None else Some (ReviewedAt s).

(** The document has its vector, the same in both tables, and it is not zero. *)
Definition has_current_vector (d : db) (r : job_row) : bool :=
  match embeddings d !! (r_document_id r, "event", r_embedding_model r, r_input_revision r),
        vectors d !! ("search_vectors_event", r_document_id r, r_embedding_model r, r_input_revision r) with
  | Some unified, Some per_kind =>
      String.eqb (v_content_sha256 per_kind) (v_content_sha256 unified)
      && same_vector_text (v_embedding per_kind) (v_embedding unified)
      && String.eqb (v_content_sha256 unified) (r_content_sha256 r)
      && nonzero_vector (v_embedding unified)
  | _, _ => false
  end.

(** The CASE of the page query, and of the statement that retries a job. *)
Definition retry_eligible (d : db) (reviewed : option time) (r : job_row) : bool :=
  match documents d !! r_document_id r with
  | Some doc =>
      match reviewed with
      | None => bool_decide (status r = Completed)
      | Some t => bool_decide (status r = Failed) && (updated_at r =? t)
      end
      && (attempt_count r <? r_max_attempts r)
      && String.eqb (d_status doc) "active"
      && String.eqb (normalized_sha256 doc) (r_content_sha256 r)
      && String.eqb (d_input_revision doc) (r_input_revision r)
      && String.eqb (normalized_sha256 doc) (textChecksum (normalized_text doc))
      && negb (has_current_vector d r)
  | None => false
  end.

(** The jobs of a scope, whatever the cursor. *)
Definition scope_row (s : Scope) (only : option string) (d : db) (id : string) (r : job_row) : bool :=
  match documents d !! r_document_id r with
  | Some doc => one_of (source_kind doc) (Kinds s)
  | None => false
  end
  && String.eqb (r_embedding_model r) (Model s)
  && String.eqb (r_input_revision r) (ScInputRevision s)
  && String.eqb (r_embedding_kind r) "event"
  && (created_at id <? CreatedBefore s)
  && match only with Some id' => String.eqb id id' | None => true end.

Definition past (after : option string) (id : string) : bool :=
  match after with Some a => str_ltb a id | None => true end.

(** The page query: the first [Limit] jobs of the scope past the cursor. *)
Definition page_rows (s : Scope) (only after : option string) (d : db) : list (string * job_row) :=
  take (Z.to_nat (Limit s))
    (sort_by id_order
      (List.filter (fun c => scope_row s only d (fst c) (snd c) && past after (fst c))
        (map_to_list (jobs d)))).

Definition retried_row (clock : time) (reviewed : option time) (r : job_row) : job_row := {|
  r_document_id := r_document_id r; r_embedding_kind := r_embedding_kind r;
  r_embedding_model := r_embedding_model r; r_content_sha256 := r_content_sha256 r;
  r_input_revision := r_input_revision r;
  r_priority := match reviewed with None => r_priority r | Some _ => 2147483647 end;
  r_max_attempts := r_max_attempts r;
  status := Pending; owner_id := owner_id r; lease_token := lease_token r;
  lease_fence := lease_fence r; lease_expires_at := lease_expires_at r;
  attempt_count := attempt_count r; next_attempt_at := clock;
  last_error := last_error r; completed_at := None; updated_at := clock |}.

Definition receipt_of (id : string) (reviewed : option time) (r : job_row) : receipt := {|
  receipt_job_id := id; previous_status := status r; receipt_attempt_count := attempt_count r;
  previous_error := last_error r;
  reason := match reviewed with
            | None => "completed_missing_current_vector"
            | Some _ => "reviewed_failed_job"
            end |}.

Definition set_queue (s : repair_db) (d : db) (rs : list receipt) : repair_db :=
  {| queue := d; progress := progress s; receipts := rs; policy := policy s |}.

Definition set_progress (s : repair_db) (p : gmap string progress_row) : repair_db :=
  {| queue := queue s; progress := p; receipts := receipts s; policy := policy s |}.

(** One retry statement: it repeats the condition on the current row. *)
Definition retry_one (clock : time) (reviewed : option time) (s : repair_db) (id : string)
    : repair_db * Z :=
  match jobs (queue s) !! id with
  | Some r =>
      if retry_eligible (queue s) reviewed r
      then (set_queue s (set_jobs (queue s) (<[id := retried_row clock reviewed r]> (jobs (queue s))))
              (receipts s ++ [receipt_of id reviewed r]), 1)
      else (s, 0)
  | None => (s, 0)
  end.

(** The loop over the ids of the page; [others id] is what other transactions
    commit before the statement for [id] runs. *)
Fixpoint retry_all (clock : time) (others : string -> db -> db) (reviewed : option time)
    (s : repair_db) (ids : list string) : repair_db * Z :=
  match ids with
  | [] => (s, 0)
  | id :: ids =>
      let s := set_queue s (others id (queue s)) (receipts s) in
      let '(s, n) := retry_one clock reviewed s id in
      let '(s, m) := retry_all clock others reviewed s ids in
      (s, n + m)
  end.

(** The bounded count of open proxy jobs. *)
Definition proxy_backlog (d : db) (highWater : Z) : Z :=
  Z.min highWater (rows_matching (fun r => open_job r &&
    match documents d !! r_document_id r with
    | Some doc => one_of (source_kind doc) proxy_kinds
    | None => false
    end) (jobs d)).

Definition scopeHash (s : Scope) : string := sha256Hex (scope_json (sort_strings (Kinds s)) s).

(** [INSERT ... ON CONFLICT DO NOTHING] into embedding_repair_progress. *)
Definition open_campaign (now : time) (s : repair_db) (sc : Scope) : progress_row :=
  match progress s !! CampaignID sc with
  | Some p => p
  | None => {| scope_sha256 := scopeHash sc; after_job_id := None; scanned := 0;
               finished_at := None; progress_updated_at := now |}
  end.

(** [row["after_job_id"]] as the cursor of the page, if it is a uuid. *)
Definition cursor_of (after : string) : option string + error :=
  if is_empty after then inl None
  else match parse_uuid after with
       | Some a => inl (Some a)
       | None => inr (Opaque ("invalid input syntax for type uuid: " +:+ Quote after))
       end.

Definition page_of (reviewed : option time) (d : db) (rows : list (string * job_row)) : Page :=
  let eligible := Z.of_nat (length (List.filter (fun c => retry_eligible d reviewed (snd c)) rows)) in
  {| Scanned := Z.of_nat (length rows);
     CompletedMissingVector := match reviewed with None => eligible | Some _ => 0 end;
     ReviewedFailure := match reviewed with None => 0 | Some _ => eligible end;
     Retried := 0;
     PageAfterJobID := match last rows with Some c => fst c | None => "" end |}.

(** The second half of an applied page: headroom, retries, progress. *)
Definition apply_page (now clock : time) (others : string -> db -> db) (sc : Scope)
    (s : repair_db) (p : progress_row) (after : string) (rows : list (string * job_row))
    : (repair_db * Page) + error :=
  let reviewed := reviewed_at sc in
  let page := page_of reviewed (queue s) rows in
  let ids := fst <$> List.filter (fun c => retry_eligible (queue s) reviewed (snd c)) rows in
  match policy s with
  | Some (highWater, expires_at) =>
      if negb (clock <? expires_at)
      then inr (Opaque "current Octopus queue policy unavailable: sql: no rows in result set")
      else
        let pending := proxy_backlog (queue s) highWater in
        if (0 <? Z.of_nat (length ids)) && (highWater - pending - QueueReserve sc <? Z.of_nat (length ids))
        then inr (Opaque "proxy queue headroom insufficient; retry the same page after workers drain")
        else
          let '(s', n) := retry_all clock others reviewed s ids in
          let last_id := if is_empty (PageAfterJobID page) then after else PageAfterJobID page in
          let p' := {| scope_sha256 := scope_sha256 p;
                       after_job_id := if is_empty last_id then None else Some last_id;
                       scanned := scanned p + Scanned page;
                       finished_at := if Scanned page =? 0 then Some clock else None;
                       progress_updated_at := clock |} in
          inl (set_progress s' (<[CampaignID sc := p']> (progress s')),
               {| Scanned := Scanned page; CompletedMissingVector := CompletedMissingVector page;
                  ReviewedFailure := ReviewedFailure page; Retried := n; PageAfterJobID := last_id |})
  | None => inr (Opaque "current Octopus queue policy unavailable: sql: no rows in result set")
  end.

(** repairProxyPage: an error rolls the transaction back. *)
Definition repairProxyPage (now clock : time) (others : string -> db -> db) (s : repair_db)
    (sc : Scope) (apply : bool) : (repair_db * Page) + error :=
  match validate sc with
  | Some err => inr err
  | None =>
      if apply && (is_empty (TrimSpace (CampaignID sc)) || (128 <? len (CampaignID sc)))
      then inr (Opaque "applied proxy repair requires a campaign-id of at most 128 characters")
      else
        let p := open_campaign now s sc in
        let stored := default "" (after_job_id p) in
        if apply && (negb (String.eqb (scope_sha256 p) (scopeHash sc))
                     || negb (is_empty (AfterJobID sc)) && negb (String.eqb (AfterJobID sc) stored))
        then inr (Opaque "repair campaign scope or cursor mismatch")
        else
          let after := if apply then stored else AfterJobID sc in
          match cursor_of after, cursor_of (ReviewedJobID sc) with
          | inl cursor, inl only =>
              let rows := page_rows sc only cursor (queue s) in
              if apply then apply_page now clock others sc s p after rows
              else inl (s, page_of (reviewed_at sc) (queue s) rows)
          | inr err, _ | _, inr err => inr err
          end
  end.
End campaigns.

(** ** The bounded statements *)

(** What a repair statement promises: at most [limit] rows change, those of
    the lowest job ids among the unlocked targets, each to the stated row; with
    fewer than [limit] changed no unlocked target is left. *)
Record repairs (target : job_row -> bool) (row : job_row -> job_row) (locked : gset string)
    (limit : Z) (d d' : db) (n : Z) : Prop := {
  repairs_tables :
    documents d' = documents d /\ embeddings d' = embeddings d /\ vectors d' = vectors d;
  repairs_rows : exists ids,
    NoDup ids /\ n = Z.of_nat (length ids) /\ n <= limit /\
    (forall id, id ∈ ids -> exists r, jobs d !! id = Some r /\ target r = true /\ id ∉ locked /\
       jobs d' !! id = Some (row r)) /\
    (forall id, id ∉ ids -> jobs d' !! id = jobs d !! id) /\
    (forall id id' r', id ∈ ids -> id' ∉ ids -> jobs d !! id' = Some r' -> target r' = true ->
       id' ∉ locked -> str_ltb id' id = false);
  repairs_drained : n < limit -> forall id r,
    jobs d' !! id = Some r -> id ∉ locked -> target r = false;
}.

#[export] Instance id_order_weak : WeakOrder id_order.
Proof. apply less_on_order, str_ltb_order. Qed.

Lemma repairs_intro target row locked limit d :
  0 <= limit -> (forall r, target (row r) = false) ->
  let targets := select_rows id_order locked limit target (jobs d) in
  repairs target row locked limit d (set_jobs d (update_rows (fun _ => row) targets (jobs d)))
    (Z.of_nat (length targets)).
Proof.
  intros Hl Hrow targets.
  destruct (select_rows_spec id_order locked limit target (jobs d)) as (H1 & H2 & H3 & H4).
  fold targets in H1, H2, H3, H4.
  pose proof (update_rows_cases id_order locked limit target (jobs d) (fun _ => row)) as Hu.
  fold targets in Hu. split; [done| |].
  - exists (fst <$> targets). rewrite length_fmap. split_and!; try done; try lia.
    + intros id Hin. destruct (Hu id) as [(r & _ & ? & ? & ? & ?)|[]]; [by exists r|done].
    + intros id Hn. destruct (Hu id) as [(r & Hin & _)|[_ ?]]; [|done].
      contradict Hn. change id with (fst (id, r)). by apply list_elem_of_fmap_2.
    + intros id id' r' Hin Hn Hr Ht Hk. apply list_elem_of_fmap in Hin as (c & -> & Hin).
      destruct (H4 id' r') as [_ Hb]; [done| |by apply (Hb c)].
      intros Hin'. apply Hn. change id' with (fst (id', r')). by apply list_elem_of_fmap_2.
  - intros Hn id r Hr Hk. simpl in Hr.
    destruct (Hu id) as [(r0 & _ & _ & _ & _ & E)|[Hout E]]; rewrite E in Hr; [by simplify_eq|].
    destruct (target r) eqn:Et; [|done]. exfalso.
    destruct (H4 id r) as [Hlen _]; [done| |lia].
    intros Hin. apply Hout. change id with (fst (id, r)). by apply list_elem_of_fmap_2.
Qed.

Lemma update_ids_cons f id ids m :
  update_ids f (id :: ids) m
  = match update_ids f ids m !! id with
    | Some r => <[id := f r]> (update_ids f ids m)
    | None => update_ids f ids m
    end.
Proof. done. Qed.

(** With no change in between, updating by id updates the selected rows. *)
Lemma update_ids_rows f (sel : list (string * job_row)) m :
  NoDup (fst <$> sel) -> (forall id r, (id, r) ∈ sel -> m !! id = Some r) ->
  update_ids f (fst <$> sel) m = update_rows (fun _ => f) sel m.
Proof.
  induction sel as [|[id r] sel IH]; intros Hnd Hm; [done|].
  rewrite fmap_cons in *. apply NoDup_cons in Hnd as [Hn Hnd].
  rewrite update_ids_cons, IH; [|done|intros; apply Hm; by right].
  rewrite update_rows_out by done. cbn [fst]. by rewrite (Hm id r (list_elem_of_here _ _)).
Qed.

Lemma update_ids_lookup f ids m id :
  NoDup ids -> update_ids f ids m !! id = (if decide (id ∈ ids) then f <$> m !! id else m !! id).
Proof.
  induction ids as [|k ids IH]; intros Hnd; [done|].
  apply NoDup_cons in Hnd as [Hk Hnd]. specialize (IH Hnd). rewrite update_ids_cons.
  assert (Ek : update_ids f ids m !! k = m !! k).
  { clear -Hk Hnd. induction ids as [|j ids IH]; [done|]. apply not_elem_of_cons in Hk as [? Hk].
    apply NoDup_cons in Hnd as [_ Hnd]. rewrite update_ids_cons.
    case_match; [rewrite lookup_insert_ne by done|]; auto. }
  rewrite Ek. destruct (decide (id = k)) as [->|Hne].
  - rewrite decide_True by left. destruct (m !! k) eqn:E; [by rewrite lookup_insert_eq|].
    by rewrite Ek.
  - assert (E : (if decide (id ∈ k :: ids) then f <$> m !! id else m !! id)
              = (if decide (id ∈ ids) then f <$> m !! id else m !! id)).
    { repeat case_decide; try done; set_solver. }
    rewrite E, <-IH. destruct (m !! k); [|done]. by rewrite lookup_insert_ne.
Qed.

Lemma requeued_not_target now cutoff d r :
  stale_target cutoff d (requeued_row now r) = false /\ failed_target d (requeued_row now r) = false.
Proof. done. Qed.

Lemma cancelled_not_target now msg d r :
  superseded_target d (cancelled_row now msg r) = false /\ orphaned_target d (cancelled_row now msg r) = false.
Proof. unfold superseded_target. simpl. split; [case_match; [apply andb_false_r|]|]; done. Qed.

Lemma cancel_jobs_repairs target msg now d limit :
  0 <= limit -> (forall r, target d (cancelled_row now msg r) = false) ->
  exists d' n, cancel_jobs target msg now d d limit false = (d', n) /\
    repairs (target d) (cancelled_row now msg) ∅ limit d d' n.
Proof.
  intros Hl Hrow. unfold cancel_jobs.
  destruct (select_rows_spec id_order ∅ limit (target d) (jobs d)) as (H1 & H2 & _).
  set (sel := select_rows id_order ∅ limit (target d) (jobs d)) in *.
  assert (Hm : forall id r, (id, r) ∈ sel -> jobs d !! id = Some r) by (intros id r Hin; by apply H1).
  do 2 eexists. split; [done|]. rewrite update_ids_rows by done.
  assert (El : List.filter (fun id => bool_decide (is_Some (jobs d !! id))) (fst <$> sel) = fst <$> sel).
  { clear -Hm. induction sel as [|[id r] sel IH]; [done|]. simpl.
    rewrite (Hm id r) by left. rewrite bool_decide_true by done. f_equal. apply IH.
    intros; apply Hm; by right. }
  rewrite El, length_fmap. by apply repairs_intro.
Qed.

(** The repair statements.  With a positive limit and threshold each legacy
    action does what its name says, on rows nobody else holds: a reset returns
    stale leases that have attempts left to the queue, a retry the failed jobs
    that have attempts left, both only for active documents that are not proxy
    records; the cancellations end the open jobs of inactive and of missing
    documents.  Attempts and the last error of a requeued job are kept.  A dry
    run counts the targets and writes nothing. *)
Theorem repair_contract client_now now locked d minutes limit :
  0 < limit -> 0 < minutes -> minutes * Minute < 2 ^ 63 ->
  let run action dry := Run_action client_now now locked d d action minutes limit dry in
  let cutoff := client_now - minutes * Minute in
  let inactive := "document not active; embedding job cancelled" in
  let missing := "document missing; embedding job cancelled" in
  (forall dry, exists d' n, run "reset-stale" dry = Some (inl (d', n)) /\
     repairs (stale_target cutoff d) (requeued_row now) locked limit d d' n) /\
  (forall dry, exists d' n, run "retry-failed" dry = Some (inl (d', n)) /\
     repairs (failed_target d) (requeued_row now) locked limit d d' n) /\
  (exists d' n, run "cancel-superseded" false = Some (inl (d', n)) /\
     repairs (superseded_target d) (cancelled_row now inactive) ∅ limit d d' n) /\
  (exists d' n, run "cancel-orphaned" false = Some (inl (d', n)) /\
     repairs (orphaned_target d) (cancelled_row now missing) ∅ limit d d' n) /\
  run "cancel-superseded" true = Some (inl (d, rows_matching (superseded_target d) (jobs d))) /\
  run "cancel-orphaned" true = Some (inl (d, rows_matching (orphaned_target d) (jobs d))).
Proof.
  intros Hl Hm Hr run cutoff inactive missing. unfold run, Run_action. simpl.
  rewrite (proj2 (Z.leb_gt limit 0)) by done. rewrite (proj2 (Z.leb_gt minutes 0)) by done. simpl.
  assert (Ec : client_now + wrap64 (- wrap64 (minutes * Minute)) = cutoff).
  { rewrite (wrap64_id (minutes * Minute)) by zarith. rewrite wrap64_id by zarith. unfold cutoff. lia. }
  split_and!; try done.
  - intros _. unfold resetStaleJobs. rewrite Ec. do 2 eexists. split; [done|].
    apply repairs_intro; [lia|]. intros r. apply requeued_not_target.
  - intros _. do 2 eexists. split; [done|]. apply repairs_intro; [lia|].
    intros r. by apply (requeued_not_target now 0).
  - destruct (cancel_jobs_repairs superseded_target inactive now d limit) as (d' & n & E & H); [lia| |].
    + intros r. apply cancelled_not_target.
    + exists d', n. split; [|done]. by rewrite <-E.
  - destruct (cancel_jobs_repairs orphaned_target missing now d limit) as (d' & n & E & H); [lia| |].
    + intros r. by apply cancelled_not_target.
    + exists d', n. split; [|done]. by rewrite <-E.
Qed.

(** ** Repairs beside the workers *)

(** What a repair can do to a row, whoever changed it before. *)
Inductive repair_change : job_row -> job_row -> Prop :=
| rc_requeued now r : attempt_count r < r_max_attempts r -> repair_change r (requeued_row now r)
| rc_cancelled now msg r : repair_change r (cancelled_row now msg r)
| rc_retried clock reviewed r :
    status r <> Leased -> attempt_count r < r_max_attempts r ->
    repair_change r (retried_row clock reviewed r).

(** A change of a row by the queue or by a repair. *)
Inductive job_change : option job_row -> option job_row -> Prop :=
| jc_queue o o' : row_change o o' -> job_change o o'
| jc_repair r r' : repair_change r r' -> job_change (Some r) (Some r').

Definition job_changes : option job_row -> option job_row -> Prop := rtc job_change.

Lemma row_changes_job o o' : row_changes o o' -> job_changes o o'.
Proof. induction 1; [apply rtc_refl|]. eapply rtc_l; [by apply jc_queue|done]. Qed.

Lemma repair_change_wf r r' : row_wf r -> repair_change r r' -> row_wf r'.
Proof.
  intros [? ? ? ? ? ? []] Hc. destruct Hc as [now r Ha|now msg r|clock reviewed r Hs Ha];
    split; simpl; try done; try (split; [by intros []|done]); try lia.
  all: split; [|done]; tauto.
Qed.

Lemma job_change_wf o o' :
  (forall r, o = Some r -> row_wf r) -> job_change o o' -> forall r, o' = Some r -> row_wf r.
Proof.
  intros Ho Hj. destruct Hj as [a b Hc|r r' Hc]; [exact (row_change_wf _ _ Ho Hc)|].
  intros q [= <-]. eapply repair_change_wf; [by apply Ho|done].
Qed.

Lemma repair_change_fence r r' :
  repair_change r r' -> lease_fence r' = lease_fence r /\ status r' <> Leased.
Proof. by destruct 1. Qed.

Lemma lease_over_job_change f o o' : lease_over f o -> job_change o o' -> lease_over f o'.
Proof.
  intros Ho Hj. destruct Hj as [a b Hc|r r' Hc]; [exact (lease_over_change _ _ _ Ho Hc)|].
  destruct Ho as (q & [= <-] & Hf). destruct (repair_change_fence _ _ Hc) as [Ef Hs].
  exists r'. rewrite Ef. split; [done|]. destruct Hf as [?|[? _]]; [by left|by right].
Qed.

Lemma update_rows_repair order `{!WeakOrder order} locked limit p m f id :
  (forall r, p r = true -> repair_change r (f r)) ->
  job_changes (m !! id) (update_rows (fun _ => f) (select_rows order locked limit p m) m !! id).
Proof.
  intros Hf. destruct (update_rows_cases order locked limit p m (fun _ => f) id)
    as [(r & _ & Hr & Hp & _ & ->)|[_ ->]]; [|apply rtc_refl].
  rewrite Hr. by apply rtc_once, jc_repair, Hf.
Qed.

Lemma update_ids_repair now msg ids m id :
  NoDup ids -> job_changes (m !! id) (update_ids (cancelled_row now msg) ids m !! id).
Proof.
  intros Hnd. rewrite update_ids_lookup by done. case_decide; [|apply rtc_refl].
  destruct (m !! id) as [r|]; [|apply rtc_refl]. apply rtc_once, jc_repair, rc_cancelled.
Qed.

Lemma select_ids_NoDup order `{!WeakOrder order} locked limit p m :
  NoDup (fst <$> select_rows order locked limit p m).
Proof. by destruct (select_rows_spec order locked limit p m) as (_ & ? & _). Qed.

Section pages.
Context {Env : RepairEnv} (created_at : string -> time).

(** Other transactions run queue operations between the statements of a page. *)
Definition fair (others : string -> db -> db) : Prop :=
  forall id d, steps queue_step d (others id d).

Lemma retry_eligible_change d reviewed clock r :
  retry_eligible d reviewed r = true -> repair_change r (retried_row clock reviewed r).
Proof.
  unfold retry_eligible. destruct (documents d !! r_document_id r); [|done].
  rewrite !andb_true_iff. intros [[[[[[Hs Ha] _] _] _] _] _].
  apply rc_retried; [|by apply Z.ltb_lt].
  destruct reviewed; [apply andb_true_iff in Hs as [Hs _]|]; apply bool_decide_eq_true in Hs; congruence.
Qed.

Lemma retry_all_changes clock others reviewed s ids id :
  fair others ->
  job_changes (jobs (queue s) !! id)
    (jobs (queue (fst (retry_all clock others reviewed s ids))) !! id).
Proof.
  intros Hf. revert s. induction ids as [|k ids IH]; intros s; [apply rtc_refl|]. simpl.
  set (s1 := set_queue s (others k (queue s)) (receipts s)).
  assert (H1 : job_changes (jobs (queue s) !! id) (jobs (queue s1) !! id))
    by apply row_changes_job, queue_steps_changes, Hf.
  assert (H2 : job_changes (jobs (queue s1) !! id) (jobs (queue (fst (retry_one clock reviewed s1 k))) !! id)).
  { unfold retry_one. destruct (jobs (queue s1) !! k) as [r|] eqn:Er; [|apply rtc_refl].
    destruct (retry_eligible (queue s1) reviewed r) eqn:Ee; [|apply rtc_refl]. simpl.
    destruct (decide (id = k)) as [->|Hne]; [|rewrite lookup_insert_ne by done; apply rtc_refl].
    simpl in Er. rewrite Er, lookup_insert_eq. by eapply rtc_once, jc_repair, retry_eligible_change. }
  destruct (retry_one clock reviewed s1 k) as [s2 n] eqn:E2. specialize (IH s2).
  destruct (retry_all clock others reviewed s2 ids) as [s3 m]. simpl in *.
  etrans; [exact H1|]. etrans; [exact H2|exact IH].
Qed.

Lemma retry_all_frame clock others reviewed s ids :
  progress (fst (retry_all clock others reviewed s ids)) = progress s.
Proof.
  revert s. induction ids as [|id ids IH]; intros s; [done|]. simpl.
  destruct (retry_one clock reviewed (set_queue s (others id (queue s)) (receipts s)) id) as [s2 n] eqn:E.
  specialize (IH s2). destruct (retry_all clock others reviewed s2 ids) as [s3 m]. simpl in *. rewrite IH.
  unfold retry_one in E. repeat case_match; by simplify_eq.
Qed.

(** The cursor after a page. *)
Definition campaign_cursor (rows : list (string * job_row)) (after : string) : string :=
  let last_id := match last rows with Some c => fst c | None => "" end in
  if is_empty last_id then after else last_id.

Definition next_progress (sc : Scope) (p : progress_row) (rows : list (string * job_row)) (clock : time)
    : progress_row := {|
  scope_sha256 := scope_sha256 p;
  after_job_id := let c := campaign_cursor rows (default "" (after_job_id p)) in
                  if is_empty c then None else Some c;
  scanned := scanned p + Z.of_nat (length rows);
  finished_at := if Z.of_nat (length rows) =? 0 then Some clock else None;
  progress_updated_at := clock |}.

(** A successful page: what it read, the retries it ran, the cursor it left. *)
Lemma repairProxyPage_applied now clock others s sc s' page :
  repairProxyPage created_at now clock others s sc true = inl (s', page) ->
  let p := open_campaign now s sc in
  exists only cursor s1 n,
    scope_sha256 p = scopeHash sc /\
    cursor_of (default "" (after_job_id p)) = inl cursor /\
    cursor_of (ReviewedJobID sc) = inl only /\
    let rows := page_rows created_at sc only cursor (queue s) in
    let ids := fst <$> List.filter (fun c => retry_eligible (queue s) (reviewed_at sc) (snd c)) rows in
    retry_all clock others (reviewed_at sc) s ids = (s1, n) /\
    s' = set_progress s1 (<[CampaignID sc := next_progress sc p rows clock]> (progress s)) /\
    Scanned page = Z.of_nat (length rows) /\ Retried page = n.
Proof.
  unfold repairProxyPage. destruct (validate sc); [done|]. simpl.
  destruct (_ || (128 <? len (CampaignID sc))); [done|].
  set (p := open_campaign now s sc).
  destruct (String.eqb_spec (scope_sha256 p) (scopeHash sc)) as [Eh|]; [|done]. simpl.
  destruct (_ && _); [done|].
  destruct (cursor_of (default "" (after_job_id p))) as [cursor|] eqn:Ec; [|done].
  destruct (cursor_of (ReviewedJobID sc)) as [only|] eqn:Eo; [|done].
  set (rows := page_rows created_at sc only cursor (queue s)).
  unfold apply_page. destruct (policy s) as [[hw ex]|]; [|done].
  destruct (negb _); [done|]. destruct (_ && _); [done|].
  pose proof (retry_all_frame clock others (reviewed_at sc) s
    (fst <$> List.filter (fun c => retry_eligible (queue s) (reviewed_at sc) (snd c)) rows)) as Hf.
  destruct (retry_all _ _ _ _ _) as [s1 n] eqn:Er. simpl in Hf. rewrite Hf. intros [= <- <-].
  by exists only, cursor, s1, n.
Qed.

(** ** The repairs as steps *)

Inductive repair_step : db -> db -> Prop :=
| rs_reset client_now now locked d threshold limit :
    repair_step d (fst (resetStaleJobs client_now now locked d threshold limit))
| rs_retry now locked d limit : repair_step d (fst (retryFailedJobs now locked d limit))
| rs_superseded now snapshot d limit dryRun :
    repair_step d (fst (cancelSupersededJobs now snapshot d limit dryRun))
| rs_orphaned now snapshot d limit dryRun :
    repair_step d (fst (cancelOrphanedJobs now snapshot d limit dryRun))
| rs_page now clock others s sc apply s' page :
    fair others -> repairProxyPage created_at now clock others s sc apply = inl (s', page) ->
    repair_step (queue s) (queue s').

(** The service: workers and repairs interleaved. *)
Definition service_step (d d' : db) : Prop := queue_step d d' \/ repair_step d d'.

Lemma stale_target_attempts cutoff d r : stale_target cutoff d r = true -> attempt_count r < r_max_attempts r.
Proof. unfold stale_target. rewrite !andb_true_iff. intros [[_ H] _]. by apply Z.ltb_lt. Qed.

Lemma failed_target_attempts d r : failed_target d r = true -> attempt_count r < r_max_attempts r.
Proof. unfold failed_target. rewrite !andb_true_iff. intros [[_ H] _]. by apply Z.ltb_lt. Qed.

Lemma cancel_jobs_changes target msg now snapshot d limit dryRun id :
  job_changes (jobs d !! id) (jobs (fst (cancel_jobs target msg now snapshot d limit dryRun)) !! id).
Proof.
  unfold cancel_jobs. destruct dryRun; [apply rtc_refl|]. apply update_ids_repair.
  apply select_ids_NoDup, _.
Qed.

Lemma service_step_changes d d' id :
  service_step d d' -> job_changes (jobs d !! id) (jobs d' !! id).
Proof.
  intros [H|H]; [by apply row_changes_job, queue_step_changes|].
  destruct H as [cn now locked d th limit|now locked d limit|now sn d limit dry|now sn d limit dry
    |now clock others s sc [] s' page Hf H].
  - apply update_rows_repair; [apply _|]. intros r Hr. by eapply rc_requeued, stale_target_attempts.
  - apply update_rows_repair; [apply _|]. intros r Hr. by eapply rc_requeued, failed_target_attempts.
  - apply cancel_jobs_changes.
  - apply cancel_jobs_changes.
  - apply repairProxyPage_applied in H as (only & cursor & s1 & n & _ & _ & _ & Hr & -> & _). simpl.
    change s1 with (fst (s1, n)). rewrite <-Hr. by apply retry_all_changes.
  - unfold repairProxyPage in H. repeat case_match; simplify_eq; try done; apply rtc_refl.
Qed.

(** A property every change of a row preserves holds along the service. *)
Lemma service_invariant (I : option job_row -> Prop) d d' id :
  (forall a b, I a -> job_change a b -> I b) -> I (jobs d !! id) -> steps service_step d d' ->
  I (jobs d' !! id).
Proof.
  intros Hp Hi Hs. induction Hs as [|d d1 d2 _ IH H]; [done|]. specialize (IH Hi).
  pose proof (service_step_changes _ _ id H) as Hc. clear -Hp IH Hc.
  induction Hc; eauto.
Qed.

(** Repairs respect the queue.  However the repairs, applied pages of a
    campaign included, interleave with the workers, the row invariant holds, and
    a lease that is over stays over: its holder can change nothing any more. *)
Theorem repairs_respect_leases d d' :
  db_wf d -> steps service_step d d' ->
  db_wf d' /\ forall j, lease_over (LeaseFence j) (jobs d !! JobID j) -> fenced_out d' j.
Proof.
  intros Hd Hs. split.
  - intros id r Hr. revert r Hr.
    apply (service_invariant (fun o => forall r, o = Some r -> row_wf r) d d' id); [|by apply Hd|done].
    intros a b. apply job_change_wf.
  - intros j Hj. apply lease_over_fenced_out.
    apply (service_invariant (lease_over (LeaseFence j)) d d' (JobID j)); [|done|done].
    intros a b. apply lease_over_job_change.
Qed.

(** ** Campaigns *)

Definition id_lt (a b : string) : Prop := str_ltb a b = true.

#[local] Instance id_lt_trans : Transitive id_lt.
Proof. intros a b c. apply str_ltb_trans. Qed.

Lemma id_sorted (l : list (string * job_row)) :
  StronglySorted (before id_order) l -> NoDup (fst <$> l) -> StronglySorted id_lt (fst <$> l).
Proof.
  induction 1 as [|c l Hs IH Hc]; intros Hnd; [constructor|]. rewrite fmap_cons in *.
  apply NoDup_cons in Hnd as [Hn Hnd]. constructor; [by apply IH|].
  apply Forall_forall. intros k Hk. apply list_elem_of_fmap in Hk as (e & -> & He).
  apply (proj1 (Forall_forall _ _)) with (x := e) in Hc; [|done]. unfold before, id_order, less_on in Hc. unfold id_lt.
  destruct (str_ltb (fst c) (fst e)) eqn:E; [done|]. exfalso. apply Hn.
  rewrite (str_ltb_total _ _ E Hc). by apply list_elem_of_fmap_2.
Qed.

Lemma filter_fst_NoDup (p : string * job_row -> bool) (m : gmap string job_row) :
  NoDup (fst <$> List.filter p (map_to_list m)).
Proof.
  pose proof (NoDup_fst_map_to_list m) as H. induction (map_to_list m) as [|c l IH]; [done|].
  rewrite fmap_cons in H. apply NoDup_cons in H as [Hn Hd]. simpl. destruct (p c); [|auto].
  rewrite fmap_cons. apply NoDup_cons. split; [|auto]. contradict Hn.
  apply list_elem_of_fmap in Hn as (e & -> & He). apply list_elem_of_fmap_2.
  apply list_elem_of_In, filter_In in He as [He _]. by apply list_elem_of_In.
Qed.

(** The job is in the scope of the campaign. *)
Definition in_campaign (sc : Scope) (only : option string) (d : db) (id : string) : Prop :=
  exists r, jobs d !! id = Some r /\ scope_row created_at sc only d id r = true.

(** A page holds the lowest ids of the scope past the cursor, in order. *)
Lemma page_rows_spec sc only after d :
  let ids := fst <$> page_rows created_at sc only after d in
  StronglySorted id_lt ids /\
  (forall id, id ∈ ids -> past after id = true /\ in_campaign sc only d id) /\
  (forall id, in_campaign sc only d id -> past after id = true -> id ∉ ids ->
     length ids = Z.to_nat (Limit sc) /\ forall k, k ∈ ids -> id_lt k id).
Proof.
  unfold page_rows.
  set (q := fun c : string * job_row => scope_row created_at sc only d (fst c) (snd c) && past after (fst c)).
  set (l := List.filter q (map_to_list (jobs d))). set (n := Z.to_nat (Limit sc)).
  assert (Hl : forall c, c ∈ l <-> jobs d !! fst c = Some (snd c) /\ q c = true).
  { intros [id r]. unfold l. by rewrite list_elem_of_In, filter_In, <-list_elem_of_In, elem_of_map_to_list. }
  assert (Hss : StronglySorted id_lt (fst <$> sort_by id_order l)).
  { apply id_sorted; [apply sort_by_sorted, _|].
    eapply NoDup_Permutation_proper; [apply fmap_Permutation, sort_by_perm|apply filter_fst_NoDup]. }
  rewrite fmap_take in *. rewrite <-(take_drop n (fst <$> sort_by id_order l)) in Hss.
  apply StronglySorted_app in Hss as (Hcross & Hs1 & _). split_and!; [done| |].
  - intros id Hin. apply elem_of_take in Hin as (i & Hi & _). apply list_elem_of_lookup_2 in Hi.
    apply list_elem_of_fmap in Hi as ([id' r] & -> & Hi). apply sort_by_elem, Hl in Hi as [Hr Hq].
    apply andb_true_iff in Hq as [Hq Hp]. split; [done|]. by exists r.
  - intros id (r & Hr & Hsc) Hp Hn.
    assert (Hin : id ∈ fst <$> sort_by id_order l).
    { change id with (fst (id, r)). apply list_elem_of_fmap_2, sort_by_elem, Hl. split; [done|].
      unfold q. simpl. by rewrite Hsc, Hp. }
    rewrite <-(take_drop n (fst <$> sort_by id_order l)) in Hin. apply elem_of_app in Hin as [?|Hin]; [done|].
    split; [|intros k Hk; by apply (Hcross k id)].
    rewrite length_take. apply list_elem_of_lookup_1 in Hin as [i Hi]. apply lookup_lt_Some in Hi.
    rewrite length_drop in Hi. lia.
Qed.

(** The stored cursor of the campaign, "" when there is none. *)
Definition stored (sc : Scope) (s : repair_db) : string :=
  match progress s !! CampaignID sc with Some p => default "" (after_job_id p) | None => "" end.

Definition canonical (d : db) : Prop :=
  forall id, is_Some (jobs d !! id) -> parse_uuid id = Some id /\ id <> "".

(** A page of a campaign: the jobs it looked at, and the receipts it added. *)
Record visited := { page_ids : list string; revived : list receipt }.

Definition page_visit (sc : Scope) (s s' : repair_db) : visited := {|
  page_ids := match cursor_of (stored sc s), cursor_of (ReviewedJobID sc) with
              | inl cursor, inl only => fst <$> page_rows created_at sc only cursor (queue s)
              | _, _ => []
              end;
  revived := drop (length (receipts s)) (receipts s') |}.

(** A run of one campaign: applied pages, and whatever others do in between,
    short of writing its progress row.  Every page runs on a queue with [P]. *)
Inductive campaign (sc : Scope) (P : db -> Prop) : repair_db -> list visited -> Prop :=
| campaign_start s : progress s !! CampaignID sc = None -> campaign sc P s []
| campaign_others s s' pages :
    campaign sc P s pages -> progress s' !! CampaignID sc = progress s !! CampaignID sc ->
    campaign sc P s' pages
| campaign_page now clock others s s' page pages :
    campaign sc P s pages -> canonical (queue s) -> P (queue s) ->
    repairProxyPage created_at now clock others s sc true = inl (s', page) ->
    campaign sc P s' (pages ++ [page_visit sc s s']).

Lemma open_campaign_stored now s sc :
  default "" (after_job_id (open_campaign now s sc)) = stored sc s.
Proof. unfold open_campaign, stored. by destruct (progress s !! CampaignID sc). Qed.

Lemma retry_all_receipts clock others reviewed s ids :
  exists rs, receipts (fst (retry_all clock others reviewed s ids)) = receipts s ++ rs /\
    sublist (receipt_job_id <$> rs) ids.
Proof.
  revert s. induction ids as [|id ids IH]; intros s; [exists []; by rewrite app_nil_r|]. simpl.
  destruct (retry_one clock reviewed (set_queue s (others id (queue s)) (receipts s)) id) as [s2 n] eqn:E.
  destruct (IH s2) as (rs & Hr & Hsub).
  destruct (retry_all clock others reviewed s2 ids) as [s3 m]. simpl in *.
  unfold retry_one in E. repeat case_match; simplify_eq; simpl in Hr.
  - exists (receipt_of id reviewed j :: rs). rewrite Hr, <-app_assoc. split; [done|]. by constructor.
  - exists rs. split; [done|]. by constructor.
  - exists rs. split; [done|]. by constructor.
Qed.

Lemma filter_fst_sublist (p : string * job_row -> bool) l : sublist (fst <$> List.filter p l) (fst <$> l).
Proof. induction l as [|c l IH]; [constructor|]. simpl. destruct (p c); simpl; by constructor. Qed.

Lemma last_campaign_cursor rows after ids :
  (forall c, c ∈ rows -> fst c <> "") -> default "" (last ids) = after ->
  campaign_cursor rows after = default "" (last (ids ++ (fst <$> rows))).
Proof.
  intros Hne Ha. unfold campaign_cursor. rewrite last_app, fmap_last.
  destruct (last rows) as [c|] eqn:El; simpl; [|by destruct (last ids)].
  apply last_Some_elem_of in El. destruct (is_empty (fst c)) eqn:Ee; [|done].
  apply is_empty_true in Ee. by destruct (Hne c El).
Qed.

(** What a page adds to a campaign. *)
Lemma page_visit_spec now clock others s s' sc page :
  repairProxyPage created_at now clock others s sc true = inl (s', page) -> canonical (queue s) ->
  exists only cursor rows,
    cursor_of (ReviewedJobID sc) = inl only /\ cursor_of (stored sc s) = inl cursor /\
    rows = page_rows created_at sc only cursor (queue s) /\
    page_ids (page_visit sc s s') = fst <$> rows /\
    sublist (receipt_job_id <$> revived (page_visit sc s s')) (fst <$> rows) /\
    (forall id, id ∈ fst <$> rows -> parse_uuid id = Some id /\ id <> "") /\
    (forall ids, default "" (last ids) = stored sc s ->
       stored sc s' = default "" (last (ids ++ (fst <$> rows)))).
Proof.
  intros H Hcan. apply repairProxyPage_applied in H as (only & cursor & s1 & n & _ & Hc & Ho & Hr & -> & _).
  rewrite open_campaign_stored in Hc. set (rows := page_rows created_at sc only cursor (queue s)) in *.
  assert (Hids : forall id, id ∈ fst <$> rows -> parse_uuid id = Some id /\ id <> "").
  { intros id Hin. apply page_rows_spec in Hin as (_ & r & Hq & _). by apply Hcan. }
  exists only, cursor, rows. split_and!; try done.
  - unfold page_visit. simpl. by rewrite Hc, Ho.
  - unfold page_visit. simpl.
    match type of Hr with retry_all _ _ _ _ ?ids = _ =>
      destruct (retry_all_receipts clock others (reviewed_at sc) s ids) as (rs & E & Hsub) end.
    rewrite Hr in E. simpl in E. rewrite E, drop_app_length. etrans; [exact Hsub|apply filter_fst_sublist].
  - intros ids Hids'. rewrite <-(last_campaign_cursor rows (stored sc s)); [|intros c Hin; by apply Hids, list_elem_of_fmap_2|done].
    unfold stored at 1. simpl. rewrite lookup_insert_eq. simpl. rewrite open_campaign_stored.
    destruct (is_empty _) eqn:E; [|done]. by apply is_empty_true in E.
Qed.

Lemma repairProxyPage_limit now clock others s sc r :
  repairProxyPage created_at now clock others s sc true = inl r -> 1 <= Limit sc.
Proof.
  unfold repairProxyPage, validate. destruct (_ || _) eqn:E; [done|]. intros _.
  repeat (apply orb_false_iff in E as [E _]). by apply Z.ltb_ge in E.
Qed.

(** The cursor of a campaign that has visited [ids]. *)
Lemma cursor_after ids cursor :
  (forall id, id ∈ ids -> parse_uuid id = Some id /\ id <> "") ->
  cursor_of (default "" (last ids)) = inl cursor -> cursor = last ids.
Proof.
  intros Hids. destruct (last ids) as [c|] eqn:El; simpl; [|by intros [= <-]].
  apply last_Some_elem_of, Hids in El as [Hp Hne]. unfold cursor_of. rewrite Hp.
  destruct (is_empty c) eqn:E; [by apply is_empty_true in E|]. by intros [= <-].
Qed.

Lemma sorted_below_last ids id : StronglySorted id_lt ids -> id ∈ ids -> last ids = Some id \/
  exists c, last ids = Some c /\ id_lt id c.
Proof.
  destruct ids as [|c ids _] using rev_ind; [by intros _ ?%elem_of_nil|].
  rewrite last_snoc. intros Hs [Hin|Hin%list_elem_of_singleton]%elem_of_app; [right|left; by f_equal].
  apply StronglySorted_app in Hs as (Hc & _). exists c. split; [done|]. apply Hc; [done|by left].
Qed.

Record visits_ok (sc : Scope) (P : db -> Prop) (s : repair_db) (pages : list visited) : Prop := {
  v_sorted : StronglySorted id_lt (pages ≫= page_ids);
  v_canonical : forall id, id ∈ pages ≫= page_ids -> parse_uuid id = Some id /\ id <> "";
  v_cursor : stored sc s = default "" (last (pages ≫= page_ids));
  v_revived : sublist (receipt_job_id <$> (pages ≫= revived)) (pages ≫= page_ids);
  v_scope : forall only id, cursor_of (ReviewedJobID sc) = inl only -> id ∈ pages ≫= page_ids ->
    exists d, P d /\ in_campaign sc only d id;
  v_ahead : forall only id, cursor_of (ReviewedJobID sc) = inl only ->
    (forall d, P d -> in_campaign sc only d id) -> id ∉ pages ≫= page_ids ->
    past (last (pages ≫= page_ids)) id = true /\ Forall (fun v => page_ids v <> []) pages;
}.

Lemma visits_page sc P now clock others s s' page pages :
  visits_ok sc P s pages -> canonical (queue s) -> P (queue s) ->
  repairProxyPage created_at now clock others s sc true = inl (s', page) ->
  visits_ok sc P s' (pages ++ [page_visit sc s s']).
Proof.
  intros [Hs Hcan Hcur Hrev Hsc Hah] Hq HP H. pose proof (repairProxyPage_limit _ _ _ _ _ _ H) as Hlim.
  apply page_visit_spec in H as (only & cursor & rows & Ho & Hc & -> & Ei & Hr & Hids & Hst); [|done].
  destruct (page_rows_spec sc only cursor (queue s)) as (Hsort & Hin & Hmore).
  rewrite Hcur in Hc. apply cursor_after in Hc as ->; [|done]. symmetry in Hcur.
  set (ids := pages ≫= page_ids) in *. set (new := fst <$> page_rows created_at sc only (last ids) (queue s)) in *.
  assert (Eb : (pages ++ [page_visit sc s s']) ≫= page_ids = ids ++ new).
  { by rewrite bind_app, bind_singleton, Ei. }
  split; rewrite ?Eb.
  - apply StronglySorted_app. split_and!; [|done|done]. intros a b Ha Hb.
    apply Hin in Hb as [Hp _].
    destruct (sorted_below_last _ _ Hs Ha) as [E|(c & E & Hac)]; rewrite E in Hp; [done|].
    by apply (str_ltb_trans a c b).
  - intros id [?|?]%elem_of_app; auto.
  - by apply Hst.
  - rewrite bind_app, bind_singleton, fmap_app. by apply sublist_app.
  - intros only' id Ho' [Hid|Hid]%elem_of_app; [by apply Hsc|]. rewrite Ho in Ho'. injection Ho' as <-.
    exists (queue s). split; [done|]. by apply Hin.
  - intros only' id Ho' Hall [Hn1 Hn2]%not_elem_of_app.
    destruct (Hah only' id Ho' Hall Hn1) as [Hp Hf].
    rewrite Ho in Ho'. injection Ho' as <-.
    destruct (Hmore id (Hall _ HP) Hp Hn2) as [Hlen Hlt].
    assert (Hne : new <> []) by (intros E; rewrite E in Hlen; simpl in Hlen; lia). split.
    + rewrite last_app. destruct (last new) as [c|] eqn:El; [|by apply last_None in El].
      apply last_Some_elem_of in El. by apply Hlt.
    + apply Forall_app. split; [done|]. constructor; [by rewrite Ei|done].
Qed.

Lemma campaign_visits sc P s pages : campaign sc P s pages -> visits_ok sc P s pages.
Proof.
  induction 1 as [s Hn|s s' pages _ IH Hp|now clock others s s' page pages _ IH Hq HP Hr].
  - split; cbn.
    + constructor.
    + by intros id ?%elem_of_nil.
    + unfold stored. by rewrite Hn.
    + constructor.
    + by intros only id _ ?%elem_of_nil.
    + by intros only id _ _ _.
  - destruct IH as [? ? Hc]. split; try done. unfold stored. by rewrite Hp.
  - by eapply visits_page.
Qed.

(** Each non-empty page visits a job. *)
Lemma nonempty_pages_le (pages : list visited) :
  (length (List.filter (fun v => negb (bool_decide (page_ids v = []))) pages)
   <= length (pages ≫= page_ids))%nat.
Proof.
  induction pages as [|v pages IH]; [done|]. rewrite bind_cons, length_app. simpl.
  case_bool_decide as E; simpl; [lia|]. destruct (page_ids v); [done|]. simpl. lia.
Qed.

Lemma visited_within (ids : list string) (U : gset string) :
  NoDup ids -> (forall id, id ∈ ids -> id ∈ U) -> (length ids <= size U)%nat.
Proof.
  intros Hnd HU. rewrite <-(size_list_to_set (C := gset string) ids) by done.
  apply subseteq_size. intros id Hin. apply HU. by apply elem_of_list_to_set in Hin.
Qed.

(** C31. Campaigns.  Over any run of a campaign, other work interleaved between
    its pages, a job is visited at most once, in id order, and revived at most
    once, on a page that visited it.  When a page came back empty, every job
    that was in scope throughout has been visited; and a campaign over a fixed
    universe of jobs has at most as many non-empty pages as jobs, so it ends. *)
Theorem campaign_exactly_once sc P s pages only :
  campaign sc P s pages -> cursor_of (ReviewedJobID sc) = inl only ->
  let ids := pages ≫= page_ids in
  StronglySorted id_lt ids /\ NoDup ids /\
  NoDup (receipt_job_id <$> (pages ≫= revived)) /\
  (forall r, r ∈ pages ≫= revived -> receipt_job_id r ∈ ids) /\
  ((exists v, v ∈ pages /\ page_ids v = []) ->
   forall id, (forall d, P d -> in_campaign sc only d id) -> id ∈ ids) /\
  (forall U : gset string, (forall d id, P d -> in_campaign sc only d id -> id ∈ U) ->
     (length (List.filter (fun v => negb (bool_decide (page_ids v = []))) pages) <= size U)%nat).
Proof.
  intros Hc Ho ids. destruct (campaign_visits _ _ _ _ Hc) as [Hs _ _ Hrev Hsc Hah]. fold ids in Hs, Hrev, Hsc, Hah.
  assert (Hnd : NoDup ids).
  { clear -Hs. induction Hs as [|id ids _ IH Hf]; constructor; [|done]. intros Hin.
    apply (proj1 (Forall_forall _ _)) with (x := id) in Hf; [|done].
    unfold id_lt in Hf. by rewrite str_ltb_irrefl in Hf. }
  split_and!; [done|done| | | |].
  - by eapply sublist_NoDup.
  - intros r Hr. eapply elem_of_submseteq; [|apply sublist_submseteq, Hrev]. by apply list_elem_of_fmap_2.
  - intros (v & Hv & E) id Hall. destruct (decide (id ∈ ids)) as [|Hn]; [done|].
    destruct (Hah only id Ho Hall Hn) as [_ Hf]. by apply (proj1 (Forall_forall _ _)) with (x := v) in Hf.
  - intros U HU. etrans; [apply nonempty_pages_le|]. fold ids. apply visited_within; [done|].
    intros id Hin. destruct (Hsc only id Ho Hin) as (d & HP & Hd). by apply (HU d).
Qed.
End pages.

(** ** Witnesses *)

Definition sample_env : RepairEnv := {|
  parse_uuid := Some; nonzero_vector := fun v => negb (bool_decide (v = []));
  same_vector_text := fun _ _ => true;
  scope_json := fun kinds s => Join kinds "," +:+ "|" +:+ Model s +:+ "|" +:+ ScInputRevision s |}.

Definition failed_sample : db :=
  set_jobs sample_db {["j1" := permanently_failed_row 3 "boom" sample_row]}.

Lemma repair_contract_witness :
  exists d' n,
    Run_action 0 9 ∅ sample_db failed_sample "cancel-orphaned" 60 5000 false = Some (inl (d', n)) \/
    (Run_action 0 9 ∅ failed_sample failed_sample "retry-failed" 60 5000 false = Some (inl (d', n)) /\
     repairs (failed_target failed_sample) (requeued_row 9) ∅ 5000 failed_sample d' n).
Proof.
  destruct (proj1 (proj2 (repair_contract 0 9 ∅ failed_sample 60 5000 eq_refl eq_refl eq_refl)) false)
    as (d' & n & E & H).
  exists d', n. right. split; [exact E|exact H].
Defined.

(** Recovered from its first claim, then reset by the operator. *)
Definition repaired_db : db := fst (retryFailedJobs (2 * Minute) ∅ recovered_db 10).

Lemma repairs_respect_leases_witness :
  db_wf repaired_db /\ fenced_out repaired_db (claimed_job first_claim).
Proof.
  pose (E := sample_env).
  destruct (repairs_respect_leases (fun _ => 0) recovered_db repaired_db) as [H1 H2].
  - apply (queue_steps_wf sample_db); [apply sample_db_wf|apply sample_steps].
  - apply steps_one. right. apply rs_retry.
  - split; [exact H1|]. apply H2. eexists. split; [vm_compute; reflexivity|].
    right. split; [vm_compute; reflexivity|discriminate].
Defined.

Definition sample_scope : Scope := {|
  CampaignID := "c"; CreatedBefore := 50; Kinds := ["proxy_event"]; Model := "m";
  ScInputRevision := "legacy_unknown"; AfterJobID := ""; Limit := 1;
  ReviewedJobID := ""; ReviewedAt := 0; QueueReserve := 0 |}.

(** A completed job whose vector is missing. *)
Definition sample_repair : repair_db := {|
  queue := set_jobs sample_db {["j1" := completed_row 3 sample_row]};
  progress := ∅; receipts := []; policy := Some (10, 100) |}.

Definition sample_result (s : repair_db) : (repair_db * Page) + error :=
  @repairProxyPage sample_env (fun _ => 1) 7 7 (fun _ d => d) s sample_scope true.

Definition sample_page (s : repair_db) : repair_db :=
  match sample_result s with inl (s', _) => s' | inr _ => s end.

Lemma sample_page_ok s p :
  match sample_result s with inl (_, p') => p' = p | inr _ => False end ->
  sample_result s = inl (sample_page s, p).
Proof. unfold sample_page. destruct (sample_result s) as [[s' p']|]; [|done]. by intros ->. Qed.

Definition page1 : repair_db := sample_page sample_repair.
Definition page2 : repair_db := sample_page page1.

Lemma campaign_exactly_once_witness :
  page_ids (@page_visit sample_env (fun _ => 1) sample_scope page1 page2) = [] /\
  length (receipts page2) = 1%nat /\
  "j1" ∈ [@page_visit sample_env (fun _ => 1) sample_scope sample_repair page1;
          @page_visit sample_env (fun _ => 1) sample_scope page1 page2] ≫= page_ids.
Proof.
  pose (P := fun d => in_campaign (fun _ => 1) sample_scope None d "j1").
  assert (H0 : P (queue sample_repair)) by (eexists; split; [vm_compute; reflexivity|vm_compute; reflexivity]).
  assert (H1 : P (queue page1)) by (eexists; split; [vm_compute; reflexivity|vm_compute; reflexivity]).
  assert (Hcan : forall d, (forall id, is_Some (jobs d !! id) -> id = "j1") -> @canonical sample_env d).
  { intros d Hd id Hid. by rewrite (Hd id Hid). }
  assert (E0 : jobs (queue sample_repair) = {["j1" := completed_row 3 sample_row]}) by reflexivity.
  split; [vm_compute; reflexivity|]. split; [vm_compute; reflexivity|].
  destruct (@campaign_exactly_once sample_env (fun _ => 1) sample_scope P page2
    ([@page_visit sample_env (fun _ => 1) sample_scope sample_repair page1]
     ++ [@page_visit sample_env (fun _ => 1) sample_scope page1 page2]) None) as (_ & _ & _ & _ & H & _).
  - apply (campaign_page (fun _ => 1) sample_scope P 7 7 (fun _ d => d) page1 page2
      (Build_Page 0 0 0 0 "j1")).
    + apply (campaign_page (fun _ => 1) sample_scope P 7 7 (fun _ d => d) sample_repair page1
        (Build_Page 1 1 0 1 "j1") []).
      * by constructor.
      * apply Hcan. intros id. rewrite E0. intros [r Hr]. by apply lookup_singleton_Some in Hr as [<- _].
      * exact H0.
      * apply (sample_page_ok sample_repair). vm_compute. reflexivity.
    + apply Hcan. intros id. assert (E1 : exists r, jobs (queue page1) = {["j1" := r]}).
      { eexists. vm_compute. reflexivity. }
      destruct E1 as [r1 ->]. intros [r Hr]. by apply lookup_singleton_Some in Hr as [<- _].
    + exact H1.
    + apply (sample_page_ok page1). vm_compute. reflexivity.
  - reflexivity.
  - apply H; [|by intros d Hd]. exists (@page_visit sample_env (fun _ => 1) sample_scope page1 page2).
    split; [by right; left|vm_compute; reflexivity].
Defined.
