(* ===== verification/WorkerPool.v ===== *)
(** * The embedding worker (internal/worker/worker.go)

    A batch is claimed, grouped by kind, embedded and settled job by job.  The
    n-th external event (a transaction or a backend call) sees the wall clock
    [w_now n], finds what other processes did to the database through
    [w_env n], fails with [w_fault n], and gets the backend's answer from
    [w_embed n]; the k-th statement of a transaction reads clock_timestamp() as
    [w_clock n k].  The lease renewal goroutine of the batch is part of the
    environment, and a cancelled context is a fault of every later event. *)

From S2P Require Import Prelude GoErrors GoStrings GoFloats EmbedClient LeaseQueue.

(** ** Configuration *)

Record PoolConfig := {
  CfgSourceKinds : list string;
  CfgEmbeddingModel : string;
  CfgInputRevision : string;
  WorkerCount : Z;
  LeaseSeconds : Z;
  PollInterval : duration;
  BatchSize : Z;
}.

Definition NewPool (cfg : PoolConfig) : PoolConfig := {|
  CfgSourceKinds := CfgSourceKinds cfg;
  CfgEmbeddingModel := CfgEmbeddingModel cfg;
  CfgInputRevision := if is_empty (CfgInputRevision cfg) then "legacy_unknown" else CfgInputRevision cfg;
  WorkerCount := if WorkerCount cfg <? 1 then 1 else WorkerCount cfg;
  LeaseSeconds := if LeaseSeconds cfg <? 1 then 1800 else LeaseSeconds cfg;
  PollInterval := if PollInterval cfg <=? 0 then Second else PollInterval cfg;
  BatchSize := if BatchSize cfg <? 1 then 64 else BatchSize cfg |}.

Definition pool_scope (cfg : PoolConfig) : JobScope := {|
  SourceKinds := CfgSourceKinds cfg; ScopeModel := CfgEmbeddingModel cfg;
  ScopeInputRevision := CfgInputRevision cfg |}.

(** The ticker periods of renewLeases, runLeaseRecovery and runHeartbeat. *)
Definition renew_interval (cfg : PoolConfig) : duration :=
  let interval := Z.quot (wrap64 (LeaseSeconds cfg * Second)) 3 in
  if interval <? Second then Second else interval.

Definition recovery_interval (cfg : PoolConfig) : duration :=
  let interval := wrap64 (PollInterval cfg * 10) in
  if interval <? 10 * Second then 10 * Second else interval.

(** ** Groups *)

Record jobGroup := { kind : string; group_jobs : list Job }.

(** One round of the grouping loop: append to the kind's group, or open one. *)
Fixpoint add_to_groups (groups : list jobGroup) (j : Job) : list jobGroup :=
  match groups with
  | [] => [{| kind := EmbeddingKind j; group_jobs := [j] |}]
  | g :: groups =>
      if String.eqb (kind g) (EmbeddingKind j)
      then {| kind := kind g; group_jobs := group_jobs g ++ [j] |} :: groups
      else g :: add_to_groups groups j
  end.

Definition orderedJobGroups (jobs : list Job) : list jobGroup := fold_left add_to_groups jobs [].

Definition remainingJobs (groups : list jobGroup) : list Job := concat (group_jobs <$> groups).

(** groupJobsByKind *)
Definition groupJobsByKind (jobs : list Job) : gmap string (list Job) :=
  fold_left (fun m j => <[EmbeddingKind j := default [] (m !! EmbeddingKind j) ++ [j]]> m) jobs ∅.

(** ** Transactions *)

(** How the database fails a transaction: at begin, at a statement it runs, at
    commit, or by losing the answer of a commit that took effect. *)
Inductive tx_fault :=
| BeginFails (err : error)
| StatementFails (err : error)
| CommitFails (err : error)
| CommitUnconfirmed (err : error).

Record world := {
  w_now : nat -> time;
  w_clock : nat -> nat -> time;
  w_env : nat -> db -> db;
  w_fault : nat -> option tx_fault;
  w_embed : nat -> list string -> string -> list (list float32) + error;
}.

Section batch.
Context (w : world).

(** The database and the number of external events so far. *)
Notation state := (db * nat)%type.

(** Begin, run, commit; any error rolls back. *)
Definition transact (op : time -> (nat -> time) -> db -> db + error) (s : state) : option error * state :=
  let d := w_env w (snd s) (fst s) in
  let next := S (snd s) in
  match w_fault w (snd s) with
  | Some (BeginFails err) | Some (StatementFails err) => (Some err, (d, next))
  | fault =>
      match op (w_now w (snd s)) (w_clock w (snd s)) d with
      | inr err => (Some err, (d, next))
      | inl d' =>
          match fault with
          | None => (None, (d', next))
          | Some (CommitUnconfirmed err) => (Some err, (d', next))
          | Some (BeginFails err) | Some (StatementFails err) | Some (CommitFails err) => (Some err, (d, next))
          end
      end
  end.

Definition store_one (now : time) (clock : nat -> time) (d : db) (j : Job) (kind : string)
    (v : list float32) : db + error :=
  match guardCompletion (clock 0%nat) d j with
  | Some err => inr err
  | None =>
      match insertVector now d (DocumentID j) kind (EmbeddingModel j) (ContentSHA256 j) v
              (InputRevision j) with
      | inr err => inr err
      | inl d => completeJob now (clock 1%nat) d (JobID j) (LeaseToken j) (LeaseFence j)
      end
  end.

(** The kind is checked before the transaction begins. *)
Definition storeCompletion (s : state) (j : Job) (v : list float32) : option error * state :=
  match normalizeEmbeddingKind (EmbeddingKind j) with
  | inr err => (Some err, s)
  | inl kind => transact (fun t c d => store_one t c d j kind v) s
  end.

(** The loop of storeCompletions; [k] counts the clock reads so far. *)
Fixpoint complete_all (now : time) (clock : nat -> time) (k : nat) (d : db) (jvs : list (Job * list float32)) : db + error :=
  match jvs with
  | [] => inl d
  | (j, v) :: jvs =>
      match complete_one now (clock k) (clock (S k)) d j v with
      | inr err => inr err
      | inl d => complete_all now clock (S (S k)) d jvs
      end
  end.

Definition storeCompletions (s : state) (jobs : list Job) (vectors : list (list float32))
    : option error * state :=
  if negb (Nat.eqb (length jobs) (length vectors))
  then (Some (Opaque ("embedding count mismatch: expected " +:+ Itoa (Z.of_nat (length jobs))
                      +:+ ", got " +:+ Itoa (Z.of_nat (length vectors)))), s)
  else transact (fun t c d => complete_all t c 0 d (zip jobs vectors)) s.

Definition failOversizedJob (s : state) (j : Job) (cause : error) : state :=
  snd (transact (fun t c d =>
    failJobPermanently t (c 0%nat) d (JobID j) (LeaseToken j) (LeaseFence j) (Error cause)) s).

Definition failClaimedJob (s : state) (j : Job) (cause : error) : state :=
  snd (transact (fun t c d =>
    failJob t (c 0%nat) d (JobID j) (LeaseToken j) (LeaseFence j) (Error cause)) s).

Definition failClaimedJobs (s : state) (jobs : list Job) (cause : error) : state :=
  fold_left (fun s j => failClaimedJob s j cause) jobs s.

Definition deferClaimedJob (retryAt : time) (s : state) (j : Job) : state :=
  snd (transact (fun t c d =>
    deferJob t (c 0%nat) d (JobID j) (LeaseToken j) (LeaseFence j) retryAt) s).

Definition deferClaimedJobs (s : state) (jobs : list Job) (retryAt : time) : state :=
  fold_left (deferClaimedJob retryAt) jobs s.

(** ** Embedding one group *)

(** Every round of the loop drops a job, so [length surviving] rounds suffice. *)
Fixpoint embedGroup_loop (fuel : nat) (s : state) (kind : string) (surviving : list Job)
    : list Job * (list (list float32) + error) * state :=
  let answer := w_embed w (snd s) (NormalizedText <$> surviving) kind in
  let s := (fst s, S (snd s)) in
  match answer with
  | inl vectors => (surviving, inl vectors, s)
  | inr err =>
      match As_OversizedInput err with
      | Some index =>
          if (0 <=? index) && (index <? Z.of_nat (length surviving)) then
            match surviving !! Z.to_nat index, fuel with
            | Some job, S fuel =>
                let s := failOversizedJob s job err in
                let surviving := delete (Z.to_nat index) surviving in
                match surviving with
                | [] => ([], inl [], s)
                | _ => embedGroup_loop fuel s kind surviving
                end
            | _, _ => (surviving, inr err, s)
            end
          else (surviving, inr err, s)
      | None => (surviving, inr err, s)
      end
  end.

Definition embedGroup (s : state) (g : jobGroup)
    : list Job * (list (list float32) + error) * state :=
  embedGroup_loop (length (group_jobs g)) s (kind g) (group_jobs g).

(** ** The batch *)

(** The per-job fallback after a group transaction failed. *)
Fixpoint store_each (s : state) (jvs : list (Job * list float32)) (completed : Z) : state * Z :=
  match jvs with
  | [] => (s, completed)
  | (j, v) :: jvs =>
      match storeCompletion s j v with
      | (Some err, s) => store_each (failClaimedJob s j err) jvs completed
      | (None, s) => store_each s jvs (completed + 1)
      end
  end.

(** The loop over the groups; the count is of completed jobs. *)
Fixpoint process_groups (cfg : PoolConfig) (s : state) (groups : list jobGroup) (completed : Z)
    : state * Z :=
  match groups with
  | [] => (s, completed)
  | g :: rest =>
      match embedGroup s g with
      | (kindJobs, inr embedErr, s) =>
          match RetryTime embedErr with
          | Some retryAt =>
              let retryAt := if IsZero retryAt then w_now w (snd s) + PollInterval cfg else retryAt in
              (deferClaimedJobs s (remainingJobs rest ++ kindJobs) retryAt, completed)
          | None => process_groups cfg (failClaimedJobs s kindJobs embedErr) rest completed
          end
      | (kindJobs, inl vectors, s) =>
          if bool_decide (kindJobs = []) then process_groups cfg s rest completed
          else if negb (Nat.eqb (length vectors) (length kindJobs)) then
            let mismatch := Opaque ("embedding count mismatch: expected "
              +:+ Itoa (Z.of_nat (length kindJobs)) +:+ ", got " +:+ Itoa (Z.of_nat (length vectors))) in
            process_groups cfg (failClaimedJobs s kindJobs mismatch) rest completed
          else
            match storeCompletions s kindJobs vectors with
            | (Some _, s) =>
                let '(s, completed) := store_each s (zip kindJobs vectors) completed in
                process_groups cfg s rest completed
            | (None, s) =>
                process_groups cfg s rest (completed + Z.of_nat (length kindJobs))
            end
      end
  end.

(** processBatch: [gate] is the claim gate ([None] when there is none); [clock],
    [uuid], [returning] and [locked] are the parameters of the claim statements.
    Claims that are not committed, or not known to be, are not worked on. *)
Definition processBatch (cfg : PoolConfig) (gate : option bool) (workerID : string)
    (clock : string -> time) (uuid : string -> string) (returning : list Job -> list Job)
    (locked : gset string) (s : state) : state * Z :=
  match gate with
  | Some false => (s, 0)
  | _ =>
      let d := w_env w (snd s) (fst s) in
      let now := w_now w (snd s) in
      let next := S (snd s) in
      let leaseDeadline := now + wrap64 (LeaseSeconds cfg * Second) in
      match w_fault w (snd s) with
      | Some (BeginFails _) | Some (StatementFails _) => ((d, next), 0)
      | fault =>
          match claimJobs now clock uuid returning locked d workerID (BatchSize cfg)
                  leaseDeadline [pool_scope cfg] with
          | inr _ => ((d, next), 0)
          | inl (d', jobs, _) =>
              match fault with
              | None => process_groups cfg (d', next) (orderedJobGroups jobs) 0
              | Some (CommitUnconfirmed _) => ((d', next), 0)
              | Some _ => ((d, next), 0)
              end
          end
      end
  end.
End batch.

(** ** Groups: lemmas *)

Definition same_kind (k : string) (j : Job) : bool := String.eqb k (EmbeddingKind j).

(** Kinds are distinct and every group holds its own kind, in arrival order. *)
Definition groups_of (jobs : list Job) (groups : list jobGroup) : Prop :=
  NoDup (kind <$> groups) /\
  (forall g, g ∈ groups -> group_jobs g <> [] /\ group_jobs g = List.filter (same_kind (kind g)) jobs) /\
  (forall j, j ∈ jobs -> EmbeddingKind j ∈ kind <$> groups).

Lemma add_to_groups_kinds groups j :
  kind <$> add_to_groups groups j =
  if bool_decide (EmbeddingKind j ∈ kind <$> groups) then kind <$> groups
  else (kind <$> groups) ++ [EmbeddingKind j].
Proof.
  induction groups as [|g groups IH]; csimpl; [done|].
  destruct (String.eqb_spec (kind g) (EmbeddingKind j)) as [E|E]; csimpl.
  - rewrite bool_decide_true; [done|]. rewrite E. by left.
  - rewrite IH. case_bool_decide as H.
    + rewrite bool_decide_true; [done|by right].
    + rewrite bool_decide_false; [done|]. rewrite elem_of_cons. intros [?|?]; congruence.
Qed.

Lemma add_to_groups_elem groups j g :
  NoDup (kind <$> groups) ->
  g ∈ add_to_groups groups j <->
  (g ∈ groups /\ kind g <> EmbeddingKind j) \/
  (exists g0, g0 ∈ groups /\ kind g0 = EmbeddingKind j /\
     g = {| kind := kind g0; group_jobs := group_jobs g0 ++ [j] |}) \/
  (EmbeddingKind j ∉ kind <$> groups /\ g = {| kind := EmbeddingKind j; group_jobs := [j] |}).
Proof.
  induction groups as [|g0 groups IH]; intros Hnd; cbn [add_to_groups].
  { rewrite list_elem_of_singleton. split; [intros ->; right; right; split; [apply not_elem_of_nil|done]|].
    intros [[H _]|[(? & H & _)|[_ ->]]]; [by apply elem_of_nil in H..|done]. }
  csimpl in Hnd. apply NoDup_cons in Hnd as [Hk Hnd].
  destruct (String.eqb_spec (kind g0) (EmbeddingKind j)) as [E|E].
  - rewrite elem_of_cons. split.
    + intros [->|Hin]; [right; left; exists g0; split; [by left|done]|left].
      split; [by right|]. intros Eg. apply Hk. rewrite E, <-Eg. by apply list_elem_of_fmap_2.
    + intros [[[->|Hin]%elem_of_cons Hne]|[(g1 & [->|Hin]%elem_of_cons & Eg & ->)|[Hn _]]].
      * done.
      * by right.
      * by left.
      * exfalso. apply Hk. rewrite E, <-Eg. by apply list_elem_of_fmap_2.
      * exfalso. apply Hn. csimpl. rewrite E. by left.
  - rewrite elem_of_cons, IH by done. csimpl. setoid_rewrite elem_of_cons. split.
    + intros [->|[[? ?]|[(g1 & ? & ? & ->)|[? ->]]]]; [by left; split; [left|]|left; split; [by right|done]| |].
      * right; left. exists g1. split; [by right|done].
      * right; right. split; [|done]. intros [?|?]; congruence.
    + intros [[[->|?] ?]|[(g1 & [->|?] & ? & ->)|[Hn ->]]]; [by left|right; by left|done| |].
      * right; right; left. by exists g1.
      * right; right; right. split; [|done]. intros ?. apply Hn. by right.
Qed.

Lemma add_to_groups_of jobs groups j :
  groups_of jobs groups -> groups_of (jobs ++ [j]) (add_to_groups groups j).
Proof.
  intros (Hnd & Hg & Hj). split; [|split].
  - rewrite add_to_groups_kinds. case_bool_decide as H; [done|].
    apply NoDup_app. split; [done|]. split; [|apply NoDup_singleton].
    intros x Hx Hx'%list_elem_of_singleton. congruence.
  - intros g Hin. apply add_to_groups_elem in Hin; [|done].
    rewrite List.filter_app. simpl. unfold same_kind at 2.
    destruct Hin as [[Hin Hne]|[(g0 & Hin & E & ->)|[Hn ->]]]; simpl.
    + destruct (String.eqb_spec (kind g) (EmbeddingKind j)); [done|].
      rewrite app_nil_r. by apply Hg.
    + rewrite (proj2 (String.eqb_eq _ _) E). destruct (Hg g0 Hin) as [Hne ->].
      split; [|done]. by destruct (List.filter _ _).
    + rewrite String.eqb_refl. split; [done|].
      assert (Hf : List.filter (same_kind (EmbeddingKind j)) jobs = []); [|by rewrite Hf].
      clear Hnd Hg. induction jobs as [|j' jobs IH]; simpl; [done|].
      unfold same_kind at 1. destruct (String.eqb_spec (EmbeddingKind j) (EmbeddingKind j')) as [E|E].
      * exfalso. apply Hn. rewrite E. apply Hj. by left.
      * apply IH. intros j'' Hj''. apply Hj. by right.
  - intros j' Hj'. rewrite add_to_groups_kinds. apply elem_of_app in Hj'.
    case_bool_decide as H.
    + destruct Hj' as [Hj'|Hj'%list_elem_of_singleton]; [by apply Hj|by subst].
    + rewrite elem_of_app, list_elem_of_singleton.
      destruct Hj' as [Hj'|Hj'%list_elem_of_singleton]; [left; by apply Hj|right; by subst].
Qed.

Lemma orderedJobGroups_spec jobs : groups_of jobs (orderedJobGroups jobs).
Proof.
  unfold orderedJobGroups.
  assert (H : forall done groups, groups_of done groups ->
    groups_of (done ++ jobs) (fold_left add_to_groups jobs groups)).
  { induction jobs as [|j jobs IH]; intros done groups Hg; simpl; [by rewrite app_nil_r|].
    change (j :: jobs) with ([j] ++ jobs). rewrite app_assoc. apply IH. by apply add_to_groups_of. }
  apply (H [] []). split; [constructor|]. split; [by intros g Hg%elem_of_nil|by intros j Hj%elem_of_nil].
Qed.

Lemma add_to_groups_jobs groups j : remainingJobs (add_to_groups groups j) ≡ₚ remainingJobs groups ++ [j].
Proof.
  unfold remainingJobs. induction groups as [|g groups IH]; csimpl; [done|].
  destruct (String.eqb _ _); csimpl.
  - rewrite <-!app_assoc. f_equiv. apply Permutation_app_comm.
  - by rewrite IH, app_assoc.
Qed.

(** Grouping loses and duplicates no job. *)
Lemma orderedJobGroups_jobs jobs : remainingJobs (orderedJobGroups jobs) ≡ₚ jobs.
Proof.
  unfold orderedJobGroups.
  assert (H : forall groups, remainingJobs (fold_left add_to_groups jobs groups) ≡ₚ remainingJobs groups ++ jobs).
  { induction jobs as [|j jobs IH]; intros groups; simpl; [by rewrite app_nil_r|].
    rewrite IH, add_to_groups_jobs. by rewrite <-app_assoc. }
  apply (H []).
Qed.

(** ** How a batch evolves the database *)

Section settle.
Context (w : world).

Notation state := (db * nat)%type.

(** The lease of [j] is held at every clock a transaction of the batch reads. *)
Definition alive (d : db) (j : Job) : Prop :=
  exists r, jobs d !! JobID j = Some r /\
    forall n k, held (w_clock w n k) (LeaseToken j) (LeaseFence j) r = true.

Definition over (d : db) (j : Job) : Prop := lease_over (LeaseFence j) (jobs d !! JobID j).

Definition tracked (d : db) (j : Job) : Prop := alive d j \/ over d j.

(** The rest of the system takes queue steps, and does not take away or shorten
    a running lease. *)
Record fair_env : Prop := {
  env_steps n d : steps queue_step d (w_env w n d);
  env_alive n d j : alive d j -> tracked (w_env w n d) j;
}.

Context (Henv : fair_env).

(** One move: of the rest of the system, or of the batch on the rows [ids]. *)
Definition move (ids : list string) (d d' : db) : Prop :=
  (exists n, d' = w_env w n d) \/ forall id, id ∉ ids -> jobs d' !! id = jobs d !! id.

(** Queue steps in which no running lease is lost without being over, and the
    batch changes no row outside [ids]. *)
Record evolves (ids : list string) (d d' : db) : Prop := {
  ev_steps : steps queue_step d d';
  ev_tracked : forall j, tracked d j -> tracked d' j;
  ev_moves : rtc (move ids) d d';
}.

Lemma over_steps d d' j : steps queue_step d d' -> over d j -> over d' j.
Proof. intros Hs Ho. by eapply lease_over_steps. Qed.

Lemma evolves_refl ids d : evolves ids d d.
Proof. split; [apply steps_refl|done|apply rtc_refl]. Qed.

Lemma evolves_trans ids d1 d2 d3 : evolves ids d1 d2 -> evolves ids d2 d3 -> evolves ids d1 d3.
Proof.
  intros [S1 T1 M1] [S2 T2 M2]. split; [by eapply steps_trans|auto|by etrans].
Qed.

Lemma evolves_weaken ids1 ids2 d d' : ids1 ⊆ ids2 -> evolves ids1 d d' -> evolves ids2 d d'.
Proof.
  intros Hi [S T M]. split; [done|done|]. clear S T. induction M as [|d d1 d2 [Hn|Hm] _ IH]; [apply rtc_refl| |];
    (eapply rtc_l; [|exact IH]); [by left|right]. intros id Hid. apply Hm. intros ?. by apply Hid, Hi.
Qed.

Lemma evolves_env n d : evolves [] d (w_env w n d).
Proof.
  split; [apply Henv| |apply rtc_once; left; by exists n]. intros j [Ha|Ho]; [by apply Henv|right].
  eapply over_steps; [apply Henv|done].
Qed.

(** An accepted fenced update that releases the lease. *)
Lemma update_held_releases d clock j f d' :
  (forall r, released r (f r)) ->
  update_held d clock (JobID j) (LeaseToken j) (LeaseFence j) f = inl d' ->
  over d' j /\ (forall j', tracked d j' -> tracked d' j') /\
  forall id, id ∉ [JobID j] -> jobs d' !! id = jobs d !! id.
Proof.
  intros Hf H. unfold update_held in H.
  destruct (jobs d !! JobID j) as [r|] eqn:Er; [|done].
  destruct (held clock (LeaseToken j) (LeaseFence j) r) eqn:Eh; [|done]. injection H as <-.
  destruct (Hf r) as (Hn & _ & _ & _ & Ef & _). apply held_fence in Eh.
  unfold tracked, alive, over. simpl. split; [|split].
  - rewrite lookup_insert_eq. exists (f r). split; [done|]. right. by rewrite Ef.
  - intros j'. destruct (decide (JobID j = JobID j')) as [E|E]; [|by rewrite lookup_insert_ne].
    rewrite <-E, Er, lookup_insert_eq. intros [(r' & [= <-] & Hh)|(r' & [= <-] & Ho)]; right; exists (f r);
      (split; [done|]); rewrite Ef.
    + right. split; [by eapply held_fence, (Hh 0%nat 0%nat)|done].
    + destruct Ho as [Ho|[Ho _]]; [by left|by right].
  - intros id Hid. rewrite list_elem_of_singleton in Hid. by rewrite lookup_insert_ne.
Qed.

(** A rejected fenced update of a tracked job: its lease is over. *)
Lemma update_held_rejected d n k j f err :
  tracked d j -> update_held d (w_clock w n k) (JobID j) (LeaseToken j) (LeaseFence j) f = inr err -> over d j.
Proof.
  intros [(r & Hr & Hh)|Ho] H; [|done]. unfold update_held in H. by rewrite Hr, (Hh n k) in H.
Qed.

(** ** Settling *)

(** How many of the first [n] events are faults. *)
Fixpoint faults (n : nat) : nat :=
  match n with
  | 0%nat => 0%nat
  | S n => ((if w_fault w n then 1 else 0) + faults n)%nat
  end.

(** The batch moved on, on the rows of [js] alone. *)
Definition moves (js : list Job) (s s' : state) : Prop :=
  evolves (JobID <$> js) (fst s) (fst s') /\ (faults (snd s) <= faults (snd s'))%nat.

(** And every lease of [js] is over, except at most one for every transaction
    that failed meanwhile; a job left over still holds its lease, if it is not
    over as well. *)
Definition settles (js : list Job) (s s' : state) : Prop :=
  moves js s s' /\
  exists left, left ⊆+ js /\ (length left + faults (snd s) <= faults (snd s'))%nat /\
    (forall j, j ∈ js -> j ∉ left -> over (fst s') j) /\
    (forall j, j ∈ left -> tracked (fst s') j).

Lemma moves_refl js s : moves js s s.
Proof. split; [apply evolves_refl|done]. Qed.

Lemma moves_trans js s1 s2 s3 : moves js s1 s2 -> moves js s2 s3 -> moves js s1 s3.
Proof. intros [E1 F1] [E2 F2]. split; [by eapply evolves_trans|lia]. Qed.

Lemma moves_weaken js1 js2 s s' : js1 ⊆ js2 -> moves js1 s s' -> moves js2 s s'.
Proof. intros H [E F]. split; [|done]. eapply evolves_weaken; [|exact E].
  intros x (j & -> & Hj)%list_elem_of_fmap. by apply list_elem_of_fmap_2, H.
Qed.

Lemma settles_nil s s' : moves [] s s' -> settles [] s s'.
Proof.
  intros H. split; [done|]. exists []. split; [done|]. split; [apply H|].
  split; intros j Hj; by apply elem_of_nil in Hj.
Qed.

Lemma settles_app js1 js2 s1 s2 s3 :
  settles js1 s1 s2 -> settles js2 s2 s3 -> settles (js1 ++ js2) s1 s3.
Proof.
  intros [M1 (l1 & S1 & F1 & O1 & T1)] [M2 (l2 & S2 & F2 & O2 & T2)]. split.
  { eapply moves_trans; (eapply moves_weaken; [|done]); intros j Hj; apply elem_of_app; auto. }
  exists (l1 ++ l2). split; [by apply submseteq_app|]. split; [rewrite length_app; lia|].
  destruct M2 as [[Hs Ht _] _]. setoid_rewrite not_elem_of_app. split.
  - intros j [Hj|Hj]%elem_of_app [Hn1 Hn2]; [|by apply O2]. eapply over_steps; [exact Hs|by apply O1].
  - intros j [Hj|Hj]%elem_of_app; auto.
Qed.

Lemma settles_after js s s1 s' : moves js s s1 -> settles js s1 s' -> settles js s s'.
Proof.
  intros M [M' (l & S & F & O & T)]. split; [by eapply moves_trans|].
  exists l. destruct M. split_and!; try done. lia.
Qed.

Lemma settles_over js s s' : moves js s s' -> (forall j, j ∈ js -> over (fst s') j) -> settles js s s'.
Proof.
  intros M O. split; [done|]. exists []. split; [apply submseteq_nil_l|]. split; [apply M|].
  split; [by intros j Hj _; apply O|]. by intros j Hj%elem_of_nil.
Qed.

(** Without faults nothing is left over. *)
Lemma settles_calm js s s' :
  (forall n, w_fault w n = None) -> settles js s s' -> forall j, j ∈ js -> over (fst s') j.
Proof.
  intros Hn [_ (l & _ & F & O & _)] j Hj. apply O; [done|].
  assert (Hz : forall n, faults n = 0%nat) by (induction n as [|n IH]; simpl; [done|by rewrite Hn]).
  rewrite !Hz in F. destruct l; [apply not_elem_of_nil|simpl in F; lia].
Qed.

Lemma settles_perm js js' s s' : js ≡ₚ js' -> settles js s s' -> settles js' s s'.
Proof.
  intros Hp [M (l & S & F & O & T)]. split.
  { eapply moves_weaken; [|exact M]. intros x. by rewrite Hp. }
  exists l. split; [by rewrite <-Hp|]. split; [done|]. split; [|done]. intros j. rewrite <-Hp. apply O.
Qed.

(** Tracked jobs stay tracked. *)
Lemma settles_tracked js s s' (rest : list Job) :
  settles js s s' -> (forall j, j ∈ rest -> tracked (fst s) j) -> forall j, j ∈ rest -> tracked (fst s') j.
Proof. intros [[[_ H _] _] _] Ht j Hj. auto. Qed.

Lemma moves_tracked js s s' (rest : list Job) :
  moves js s s' -> (forall j, j ∈ rest -> tracked (fst s) j) -> forall j, j ∈ rest -> tracked (fst s') j.
Proof. intros [[_ H _] _] Ht j Hj. auto. Qed.

(** The next event, whatever the environment did. *)
Lemma moves_env js s : moves js s (w_env w (snd s) (fst s), S (snd s)).
Proof.
  split; simpl; [|destruct (w_fault w (snd s)); lia].
  eapply evolves_weaken; [|apply evolves_env]. by intros j Hj%elem_of_nil.
Qed.

(** An answer of the backend. *)
Lemma moves_event js s : moves js s (fst s, S (snd s)).
Proof. split; simpl; [apply evolves_refl|]. destruct (w_fault w (snd s)); lia. Qed.

(** A transaction that applies one fenced release to [j]. *)
Definition release_op (op : time -> (nat -> time) -> db -> db + error) (j : Job) : Prop :=
  forall t c d, exists f, (forall r, released r (f r)) /\
    op t c d = update_held d (c 0%nat) (JobID j) (LeaseToken j) (LeaseFence j) f /\
    forall d', op t c d = inl d' -> queue_step d d'.

Lemma release_op_inl op j t c d d' :
  release_op op j -> op t c d = inl d' -> evolves [JobID j] d d' /\ over d' j.
Proof.
  intros Hop E. destruct (Hop t c d) as (f & Hf & Ef & Hq). rewrite Ef in E.
  destruct (update_held_releases _ _ _ _ _ Hf E) as (Ho & Ht & Hm). rewrite <-Ef in E. split; [|done].
  split; [by apply steps_one, Hq|done|]. apply rtc_once. by right.
Qed.

(** What the transaction of a fenced release does: it settles the job. *)
Lemma transact_release op j s :
  release_op op j -> tracked (fst s) j -> settles [j] s (snd (transact w op s)).
Proof.
  intros Hop Ht. pose proof (moves_env [j] s) as Hm. pose proof (evolves_env (snd s) (fst s)) as He.
  unfold transact. set (d := w_env w (snd s) (fst s)) in *.
  assert (Ht' : tracked d j) by by apply He.
  assert (Hleft : is_Some (w_fault w (snd s)) -> settles [j] s (d, S (snd s))).
  { intros [x Hx]. split; [done|]. exists [j]. simpl. rewrite Hx.
    split; [done|]. split; [lia|]. split; [done|]. by intros j' ->%list_elem_of_singleton. }
  assert (Hdone : forall d', op (w_now w (snd s)) (w_clock w (snd s)) d = inl d' -> settles [j] s (d', S (snd s))).
  { intros d' E. destruct (release_op_inl _ _ _ _ _ _ Hop E) as [Hev Ho].
    apply settles_over; [|by intros j' ->%list_elem_of_singleton].
    split; [|apply Hm]. eapply evolves_trans; [apply Hm|exact Hev]. }
  assert (Hrej : forall err, op (w_now w (snd s)) (w_clock w (snd s)) d = inr err -> settles [j] s (d, S (snd s))).
  { intros err E. destruct (Hop (w_now w (snd s)) (w_clock w (snd s)) d) as (f & _ & Ef & _).
    rewrite Ef in E. apply settles_over; [done|]. intros j' ->%list_elem_of_singleton.
    by eapply update_held_rejected. }
  destruct (w_fault w (snd s)) as [[]|]; simpl; eauto;
    destruct (op _ _ d) eqn:E; simpl; eauto.
Qed.

(** A transaction that settles all of [js] when it commits. *)
Lemma transact_moves op s js :
  (forall t c d d', op t c d = inl d' -> evolves (JobID <$> js) d d' /\ forall j, j ∈ js -> over d' j) ->
  match transact w op s with
  | (None, s') => settles js s s'
  | (Some _, s') => moves js s s'
  end.
Proof.
  intros Hop. pose proof (moves_env js s) as Hm. unfold transact.
  set (d := w_env w (snd s) (fst s)) in *.
  assert (Hdone : forall d', op (w_now w (snd s)) (w_clock w (snd s)) d = inl d' ->
    moves js s (d', S (snd s)) /\ forall j, j ∈ js -> over d' j).
  { intros d' E. destruct (Hop _ _ _ _ E) as [Hev Ho]. split; [|done].
    split; [|apply Hm]. eapply evolves_trans; [apply Hm|exact Hev]. }
  destruct (w_fault w (snd s)) as [[]|]; simpl; try done;
    destruct (op _ _ d) as [d'|] eqn:E; simpl; try done; destruct (Hdone d' eq_refl); [done|].
  by apply settles_over.
Qed.

Lemma released_cancel now msg r : released r (cancelled_row now msg r).
Proof. apply release_released; [done|by left]. Qed.
Lemma released_complete now r : released r (completed_row now r).
Proof. apply release_released; [done|by left]. Qed.
Lemma released_fail now msg r : released r (failed_row now msg r).
Proof. apply release_released; [apply retry_status|]. left. split; [done|]. apply retry_status. Qed.
Lemma released_fail_permanently now msg r : released r (permanently_failed_row now msg r).
Proof. apply release_released; [done|by left]. Qed.
Lemma released_defer now t r : released r (deferred_row now t r).
Proof. apply release_released; [done|by right]. Qed.

#[local] Hint Resolve released_complete released_fail released_fail_permanently released_defer : queue.
#[local] Hint Constructors queue_step : queue.

Lemma failClaimedJob_settles s j cause :
  tracked (fst s) j -> settles [j] s (failClaimedJob w s j cause).
Proof.
  apply transact_release. intros t c d. exists (failed_row t (Error cause)).
  split; [auto with queue|]. split; [done|]. intros d' H. by eapply step_fail.
Qed.

Lemma failOversizedJob_settles s j cause :
  tracked (fst s) j -> settles [j] s (failOversizedJob w s j cause).
Proof.
  apply transact_release. intros t c d. exists (permanently_failed_row t (Error cause)).
  split; [auto with queue|]. split; [done|]. intros d' H. by eapply step_fail_permanently.
Qed.

Lemma deferClaimedJob_settles retryAt s j :
  tracked (fst s) j -> settles [j] s (deferClaimedJob w retryAt s j).
Proof.
  apply transact_release. intros t c d. exists (deferred_row t retryAt).
  split; [auto with queue|]. split; [done|]. intros d' H. by eapply step_defer.
Qed.

(** One settling operation run over a list. *)
Lemma fold_settles (step : state -> Job -> state) js s :
  (forall s j, tracked (fst s) j -> settles [j] s (step s j)) ->
  (forall j, j ∈ js -> tracked (fst s) j) ->
  settles js s (fold_left step js s).
Proof.
  intros Hstep. revert s. induction js as [|j js IH]; intros s Ht; simpl.
  { apply settles_nil, moves_refl. }
  assert (H1 : settles [j] s (step s j)) by (apply Hstep, Ht; by left).
  change (j :: js) with ([j] ++ js). eapply settles_app; [exact H1|].
  apply IH. eapply settles_tracked; [exact H1|]. intros j' Hj'. apply Ht. by right.
Qed.

Lemma complete_one_releases now guarded clock d j v d' :
  complete_one now guarded clock d j v = inl d' ->
  evolves [JobID j] d d' /\ over d' j.
Proof.
  intros H. pose proof (step_complete _ _ _ _ _ _ _ H) as Hq.
  apply complete_one_inv in H as (k & d1 & _ & _ & Hi & Hc).
  apply insertVector_jobs in Hi as [Hj _].
  destruct (update_held_releases _ _ _ _ _ (released_complete now) Hc) as (Ho & Ht & Hm).
  split; [|done]. rewrite Hj in Hm.
  split; [by apply steps_one| |by apply rtc_once; right]. intros j' Ht'. apply Ht.
  unfold tracked, alive, over in *. by rewrite Hj.
Qed.

Lemma store_one_complete now clock d j kind v d' :
  normalizeEmbeddingKind (EmbeddingKind j) = inl kind ->
  store_one now clock d j kind v = inl d' -> complete_one now (clock 0%nat) (clock 1%nat) d j v = inl d'.
Proof.
  intros Hk. unfold store_one, complete_one. rewrite Hk.
  destruct (guardCompletion _ _ _); [done|]. by destruct (insertVector _ _ _ _ _ _ _ _).
Qed.

Lemma complete_all_settles now clock k jvs d d' :
  complete_all now clock k d jvs = inl d' ->
  evolves (JobID <$> (fst <$> jvs)) d d' /\ forall j, j ∈ fst <$> jvs -> over d' j.
Proof.
  revert k d. induction jvs as [|[j v] jvs IH]; intros k d; cbn [complete_all].
  { intros [= <-]. split; [apply evolves_refl|]. by intros j Hj%elem_of_nil. }
  destruct (complete_one _ _ _ d j v) as [d1|] eqn:E; [|done]. intros H.
  apply complete_one_releases in E as [E1 O1]. apply IH in H as [E2 O2]. csimpl. split.
  - eapply evolves_trans; (eapply evolves_weaken; [|done]).
    + intros x ->%list_elem_of_singleton. by left.
    + intros x Hx. by right.
  - intros j' [->|Hj']%elem_of_cons; [|by apply O2]. eapply over_steps; [apply E2|done].
Qed.

Lemma storeCompletions_moves s js vs :
  length vs = length js ->
  match storeCompletions w s js vs with
  | (None, s') => settles js s s'
  | (Some _, s') => moves js s s'
  end.
Proof.
  intros Hl. unfold storeCompletions. rewrite Hl, Nat.eqb_refl. simpl.
  apply transact_moves. intros t c d d' H. apply complete_all_settles in H.
  by rewrite fst_zip in H by lia.
Qed.

Lemma storeCompletion_moves s j v :
  match storeCompletion w s j v with
  | (None, s') => settles [j] s s'
  | (Some _, s') => moves [j] s s'
  end.
Proof.
  unfold storeCompletion. destruct (normalizeEmbeddingKind _) as [kind|err] eqn:Ek; [|apply moves_refl].
  apply transact_moves. intros t c d d' H. apply store_one_complete in H; [|done].
  apply complete_one_releases in H as [He Ho]. split; [done|]. by intros j' ->%list_elem_of_singleton.
Qed.

Lemma store_each_settles jvs s n :
  (forall j, j ∈ fst <$> jvs -> tracked (fst s) j) ->
  settles (fst <$> jvs) s (fst (store_each w s jvs n)).
Proof.
  revert s n. induction jvs as [|[j v] jvs IH]; intros s n Ht; cbn [store_each].
  { apply settles_nil, moves_refl. }
  change (fst <$> ((j, v) :: jvs)) with ([j] ++ (fst <$> jvs)) in *.
  pose proof (storeCompletion_moves s j v) as Hx.
  assert (Hrest : forall s1 n1, settles [j] s s1 ->
    settles ([j] ++ (fst <$> jvs)) s (fst (store_each w s1 jvs n1))).
  { intros s1 n1 Hs. eapply settles_app; [exact Hs|]. apply IH.
    eapply settles_tracked; [exact Hs|]. intros j' Hj'. apply Ht. apply elem_of_app. by right. }
  destruct (storeCompletion w s j v) as [[err|] s1]; [|by apply Hrest].
  apply Hrest. eapply settles_after; [exact Hx|]. apply failClaimedJob_settles.
  eapply (moves_tracked _ _ _ [j]); [exact Hx| |by left]. intros j' Hj'. apply Ht, elem_of_app. by left.
Qed.

Lemma failClaimedJobs_settles js s cause :
  (forall j, j ∈ js -> tracked (fst s) j) -> settles js s (failClaimedJobs w s js cause).
Proof. apply fold_settles. intros s' j. apply failClaimedJob_settles. Qed.

Lemma deferClaimedJobs_settles js s retryAt :
  (forall j, j ∈ js -> tracked (fst s) j) -> settles js s (deferClaimedJobs w s js retryAt).
Proof. apply fold_settles. intros s' j. apply deferClaimedJob_settles. Qed.

(** The jobs embedGroup drops are settled; the others survive, in order. *)
Lemma embedGroup_loop_settles fuel s k js :
  (forall j, j ∈ js -> tracked (fst s) j) -> (length js <= fuel)%nat ->
  let '(surviving, _, s') := embedGroup_loop w fuel s k js in
  sublist surviving js /\
  exists dropped, js ≡ₚ dropped ++ surviving /\ settles dropped s s'.
Proof.
  revert s js. induction fuel as [|fuel IH]; intros s js Ht Hl; cbn [embedGroup_loop].
  all: assert (Hstay : sublist js js /\ exists dropped, js ≡ₚ dropped ++ js /\
         settles dropped s (fst s, S (snd s)))
    by (split; [done|]; exists []; split; [done|]; apply settles_nil, moves_event).
  all: destruct (w_embed w (snd s) _ k) as [vs|err]; [exact Hstay|].
  all: destruct (As_OversizedInput err) as [i|]; [|exact Hstay].
  all: destruct ((0 <=? i) && (i <? Z.of_nat (length js))) eqn:Ei; [|exact Hstay].
  all: destruct (js !! Z.to_nat i) as [j|] eqn:Ej; [|exact Hstay].
  { exact Hstay. }
  set (s1 := (fst s, S (snd s)) : state).
  assert (Hset : settles [j] s (failOversizedJob w s1 j err)).
  { eapply settles_after; [apply moves_event|]. apply failOversizedJob_settles, Ht.
    by eapply list_elem_of_lookup_2. }
  set (s2 := failOversizedJob w s1 j err) in *.
  pose proof (delete_Permutation _ _ _ Ej) as Hp. set (rest := delete (Z.to_nat i) js) in *.
  assert (Hsub : sublist rest js) by apply sublist_delete.
  destruct rest as [|j' rest'] eqn:Er.
  { simpl. split; [by apply sublist_nil_l|]. exists [j]. by split. }
  rewrite <-Er in *. clear Er.
  assert (Hlen : length js = S (length rest)) by (rewrite (Permutation_length Hp); done).
  specialize (IH s2 rest).
  destruct (embedGroup_loop w fuel s2 k rest) as [[surviving res] s3].
  destruct IH as (Hsub2 & dropped & Hp2 & Hset2); [|lia|].
  { eapply settles_tracked; [exact Hset|]. intros j0 Hj0. apply Ht. rewrite Hp. by right. }
  split; [by etrans|]. exists (j :: dropped). split; [by rewrite Hp, Hp2|].
  change (j :: dropped) with ([j] ++ dropped). by eapply settles_app.
Qed.

Lemma process_groups_settles cfg groups s n :
  (forall j, j ∈ remainingJobs groups -> tracked (fst s) j) ->
  settles (remainingJobs groups) s (fst (process_groups w cfg s groups n)).
Proof.
  revert s n. induction groups as [|g rest IH]; intros s n Ht; cbn [process_groups].
  { apply settles_nil, moves_refl. }
  change (remainingJobs (g :: rest)) with (group_jobs g ++ remainingJobs rest) in *.
  unfold embedGroup.
  pose proof (embedGroup_loop_settles (length (group_jobs g)) s (kind g) (group_jobs g)) as Hg.
  destruct (embedGroup_loop w _ s (kind g) (group_jobs g)) as [[js res] s1].
  destruct Hg as (_ & dropped & Hp & Hset); [intros; apply Ht, elem_of_app; by left|lia|].
  assert (Hperm : group_jobs g ++ remainingJobs rest ≡ₚ dropped ++ (js ++ remainingJobs rest))
    by (by rewrite Hp, app_assoc).
  eapply settles_perm; [symmetry; exact Hperm|]. eapply settles_app; [exact Hset|].
  assert (Ht1 : forall j, j ∈ js ++ remainingJobs rest -> tracked (fst s1) j).
  { eapply settles_tracked; [exact Hset|]. intros j Hj. apply Ht. rewrite Hperm. apply elem_of_app. by right. }
  (* the surviving jobs are settled, then the remaining groups *)
  assert (Hthen : forall s2 n2, settles js s1 s2 ->
    settles (js ++ remainingJobs rest) s1 (fst (process_groups w cfg s2 rest n2))).
  { intros s2 n2 Hset2. eapply settles_app; [exact Hset2|]. apply IH.
    eapply settles_tracked; [exact Hset2|]. intros j Hj. apply Ht1, elem_of_app. by right. }
  assert (Htj : forall j, j ∈ js -> tracked (fst s1) j) by (intros; apply Ht1, elem_of_app; by left).
  destruct res as [vs|err].
  - destruct (decide (js = [])) as [->|Hne].
    { rewrite bool_decide_true by done. apply Hthen, settles_nil, moves_refl. }
    rewrite bool_decide_false by done.
    destruct (Nat.eqb_spec (length vs) (length js)) as [Hl|]; simpl.
    + pose proof (storeCompletions_moves s1 js vs Hl) as Hs.
      destruct (storeCompletions w s1 js vs) as [[err|] s2]; [|by apply Hthen].
      pose proof (store_each_settles (zip js vs) s2 n) as He.
      destruct (store_each w s2 (zip js vs) n) as [s3 n3]. apply Hthen.
      rewrite fst_zip in He by lia. eapply settles_after; [exact Hs|]. apply He.
      by eapply moves_tracked.
    + apply Hthen. by apply failClaimedJobs_settles.
  - destruct (RetryTime err) as [t|]; [|apply Hthen; by apply failClaimedJobs_settles].
    eapply settles_perm; [apply Permutation_app_comm|].
    apply deferClaimedJobs_settles. intros j.
    rewrite (Permutation_app_comm (remainingJobs rest)). apply Ht1.
Qed.
End settle.

(** ** Without interference or faults *)

Lemma quiet_fair w : (forall n d, w_env w n d = d) -> fair_env w.
Proof. intros Hquiet. split; intros; rewrite Hquiet; [apply steps_refl|by left]. Qed.

Section quiet.
Context (w : world) (Hquiet : forall n d, w_env w n d = d) (Hcalm : forall n, w_fault w n = None).

Notation state := (db * nat)%type.


(** Rows of the jobs [js] became [f] of what they were, nothing else changed. *)
Definition rewrites (f : Job -> job_row -> job_row -> Prop) (js : list Job) (d d' : db) : Prop :=
  (forall id, id ∉ JobID <$> js -> jobs d' !! id = jobs d !! id) /\
  (forall j r, j ∈ js -> jobs d !! JobID j = Some r -> exists r', jobs d' !! JobID j = Some r' /\ f j r r').

Lemma rewrites_nil f d : rewrites f [] d d.
Proof. split; [done|]. by intros j r Hj%elem_of_nil. Qed.

Lemma rewrites_app f js1 js2 d1 d2 d3 :
  NoDup (JobID <$> (js1 ++ js2)) ->
  rewrites f js1 d1 d2 -> rewrites f js2 d2 d3 -> rewrites f (js1 ++ js2) d1 d3.
Proof.
  intros Hnd [O1 R1] [O2 R2]. rewrite fmap_app in Hnd. apply NoDup_app in Hnd as (_ & Hdis & _). split.
  - intros id Hid. rewrite fmap_app, not_elem_of_app in Hid. destruct Hid. by rewrite O2, O1.
  - intros j r [Hj|Hj]%elem_of_app Hr.
    + destruct (R1 j r Hj Hr) as (r' & Hr' & Hf). exists r'. split; [|done].
      rewrite O2; [done|]. apply Hdis. by apply list_elem_of_fmap_2.
    + apply R2; [done|]. rewrite O1; [done|]. intros Hin. apply (Hdis _ Hin). by apply list_elem_of_fmap_2.
Qed.

Lemma rewrites_perm f js js' d d' : js ≡ₚ js' -> rewrites f js d d' -> rewrites f js' d d'.
Proof.
  intros Hp [O R]. split.
  - intros id. rewrite <-Hp. apply O.
  - intros j r. rewrite <-Hp. apply R.
Qed.

Lemma rewrites_alive f js d d' j :
  rewrites f js d d' -> JobID j ∉ JobID <$> js -> alive w d j -> alive w d' j.
Proof. intros [O _] Hn (r & Hr & Hh). exists r. by rewrite O. Qed.

Lemma transact_quiet j f s :
  alive w (fst s) j ->
  rewrites (fun j r r' => exists n, r' = f (w_now w n) r) [j] (fst s)
    (fst (snd (transact w (fun t c d => update_held d (c 0%nat) (JobID j) (LeaseToken j) (LeaseFence j) (f t)) s))).
Proof.
  intros (r & Hr & Hh). unfold transact. rewrite Hquiet, Hcalm.
  rewrite (update_held_ok _ _ _ _ _ _ r Hr (Hh _ _)). simpl. split.
  - intros id Hid. csimpl in Hid. rewrite list_elem_of_singleton in Hid. simpl.
    by rewrite lookup_insert_ne.
  - intros j' r' ->%list_elem_of_singleton Hr'. simpl. rewrite lookup_insert_eq.
    assert (r' = r) as -> by congruence. eauto.
Qed.

Lemma alive_after f (js rest : list Job) d d' :
  NoDup (JobID <$> (js ++ rest)) -> rewrites f js d d' ->
  (forall j, j ∈ js ++ rest -> alive w d j) -> forall j, j ∈ rest -> alive w d' j.
Proof.
  intros Hnd Hr Ha j Hj. eapply rewrites_alive; [exact Hr| |apply Ha, elem_of_app; by right].
  rewrite fmap_app in Hnd. apply NoDup_app in Hnd as (_ & Hdis & _).
  intros Hin. apply (Hdis _ Hin). by apply list_elem_of_fmap_2.
Qed.

Definition deferred_to (retryAt : time) (j : Job) (r r' : job_row) : Prop :=
  status r' = Pending /\ attempt_count r' = Z.max (attempt_count r - 1) 0 /\
  next_attempt_at r' = retryAt /\ lease_token r' = None.

Lemma deferClaimedJobs_quiet retryAt js s :
  NoDup (JobID <$> js) -> (forall j, j ∈ js -> alive w (fst s) j) ->
  rewrites (deferred_to retryAt) js (fst s) (fst (deferClaimedJobs w s js retryAt)).
Proof.
  unfold deferClaimedJobs. revert s. induction js as [|j js IH]; intros s Hnd Ha; simpl.
  { apply rewrites_nil. }
  change (j :: js) with ([j] ++ js) in *.
  assert (H1 : rewrites (deferred_to retryAt) [j] (fst s) (fst (deferClaimedJob w retryAt s j))).
  { destruct (transact_quiet j (fun t => deferred_row t retryAt) s) as [O R]; [apply Ha; by left|].
    split; [exact O|]. intros j' r Hj' Hr. destruct (R j' r Hj' Hr) as (r' & Hr' & n & ->).
    by exists (deferred_row (w_now w n) retryAt r). }
  eapply rewrites_app; [exact Hnd|exact H1|]. apply IH.
  - csimpl in Hnd. by apply NoDup_cons in Hnd as [_ ?].
  - by eapply alive_after.
Qed.

Definition oversized_failed (j : Job) (r r' : job_row) : Prop :=
  status r' = Failed /\ attempt_count r' = attempt_count r /\ lease_token r' = None.

Context (too_big : string -> bool) (vec : string -> list float32).

(** A backend with a chunk budget: it names some oversized text, or embeds. *)
Definition budgeted : Prop := forall n texts k,
  match w_embed w n texts k with
  | inl vs => vs = vec <$> texts /\ forall t, t ∈ texts -> too_big t = false
  | inr err => exists i t, As_OversizedInput err = Some (Z.of_nat i) /\ texts !! i = Some t /\ too_big t = true
  end.

Context (Hbudget : budgeted).

Definition fits (j : Job) : bool := negb (too_big (NormalizedText j)).

Lemma filter_delete {A} (p : A -> bool) l i x :
  l !! i = Some x -> p x = false -> List.filter p (delete i l) = List.filter p l.
Proof.
  revert i. induction l as [|y l IH]; intros [|i] Hi Hp; simplify_eq/=; [by rewrite Hp|].
  by rewrite (IH i).
Qed.

Lemma filter_all {A} (p : A -> bool) l : (forall x, x ∈ l -> p x = true) -> List.filter p l = l.
Proof.
  induction l as [|x l IH]; intros H; simpl; [done|]. rewrite (H x) by by left.
  f_equal. apply IH. intros y Hy. apply H. by right.
Qed.

Lemma embedGroup_loop_budgeted fuel s k js :
  NoDup (JobID <$> js) -> (forall j, j ∈ js -> alive w (fst s) j) -> (length js <= fuel)%nat ->
  let '(surviving, res, s') := embedGroup_loop w fuel s k js in
  surviving = List.filter fits js /\
  res = inl (vec <$> (NormalizedText <$> surviving)) /\
  rewrites oversized_failed (List.filter (fun j => negb (fits j)) js) (fst s) (fst s').
Proof.
  revert s js. induction fuel as [|fuel IH]; intros s js Hnd Ha Hl; cbn [embedGroup_loop].
  all: pose proof (Hbudget (snd s) (NormalizedText <$> js) k) as Hb.
  all: destruct (w_embed w (snd s) _ k) as [vs|err].
  all: try (destruct Hb as [-> Hfit];
    assert (Hall : forall j, j ∈ js -> fits j = true)
      by (intros j Hj; unfold fits; rewrite Hfit; [done|by apply list_elem_of_fmap_2]);
    rewrite (filter_all fits) by done; split; [done|]; split; [done|];
    rewrite filter_none by (intros j Hj; by rewrite Hall); apply rewrites_nil).
  all: destruct Hb as (i & t & -> & Hi & Hbig).
  all: apply list_lookup_fmap_Some in Hi as (j & -> & Hj); apply lookup_lt_Some in Hj as Hlt.
  all: assert (Hx : (0 <=? Z.of_nat i) && (Z.of_nat i <? Z.of_nat (length js)) = true)
    by (apply andb_true_iff; split; [apply Z.leb_le|apply Z.ltb_lt]; lia).
  all: rewrite Hx, Nat2Z.id, Hj.
  { lia. }
  assert (Hfj : fits j = false) by (unfold fits; by rewrite Hbig).
  set (s1 := (fst s, S (snd s)) : state). set (s2 := failOversizedJob w s1 j err).
  pose proof (delete_Permutation _ _ _ Hj) as Hp.
  assert (H1 : rewrites oversized_failed [j] (fst s) (fst s2)).
  { destruct (transact_quiet j (fun t => permanently_failed_row t (Error err)) s1) as [O R];
      [apply Ha; by eapply list_elem_of_lookup_2|].
    split; [exact O|]. intros j' r Hj' Hr. destruct (R j' r Hj' Hr) as (r' & Hr' & n & ->).
    by exists (permanently_failed_row (w_now w n) (Error err) r). }
  assert (Hnd2 : NoDup (JobID <$> ([j] ++ delete i js))) by by rewrite Hp in Hnd.
  assert (Ha2 : forall j', j' ∈ delete i js -> alive w (fst s2) j').
  { eapply alive_after; [exact Hnd2|exact H1|]. intros j' Hj'. apply Ha. by rewrite Hp. }
  rewrite <-(filter_delete fits js i j) by done.
  assert (Hq : List.filter (fun j => negb (fits j)) js
    ≡ₚ [j] ++ List.filter (fun j => negb (fits j)) (delete i js)).
  { clear -Hj Hfj. revert i Hj. induction js as [|y js IH]; intros [|i] Hj; simplify_eq/=.
    - by rewrite Hfj.
    - destruct (fits y); simpl; [by apply IH|]. rewrite (IH i Hj). apply Permutation_swap. }
  assert (Hcont : forall d', rewrites oversized_failed (List.filter (fun j => negb (fits j)) (delete i js))
      (fst s2) d' -> rewrites oversized_failed (List.filter (fun j => negb (fits j)) js) (fst s) d').
  { intros d' Hd'. eapply rewrites_perm; [symmetry; exact Hq|].
    eapply rewrites_app; [|exact H1|exact Hd'].
    eapply sublist_NoDup; [exact Hnd2|]. apply fmap_sublist. apply sublist_app; [done|].
    clear. induction (delete i js) as [|y l IHl]; simpl; [done|].
    destruct (negb (fits y)); by constructor. }
  destruct (delete i js) as [|j' rest] eqn:Er.
  { split; [done|]. split; [done|]. apply Hcont. apply rewrites_nil. }
  specialize (IH s2 (j' :: rest)). csimpl in Hnd2. apply NoDup_cons in Hnd2 as [_ Hnd2].
  assert (Hlen : length js = S (length (j' :: rest))) by (rewrite (Permutation_length Hp); done).
  destruct (embedGroup_loop w fuel s2 k (j' :: rest)) as [[surviving res] s3].
  destruct IH as (-> & -> & Hr); [done|done|lia|]. split; [done|]. split; [done|]. by apply Hcont.
Qed.
End quiet.

(** ** Properties *)

(** C2. Every claimed job is settled.  A batch runs within its leases, other
    processes take any queue steps that respect running leases, the backend
    answers anything at all, and any transaction may fail at begin, at a
    statement, at commit or after it.  Once the claim is committed the batch
    ends with every claimed lease over (completed, failed, pending again or
    taken over), except at most one job for every transaction that failed
    meanwhile, which still runs out its lease; without database faults every
    job is settled.  Whatever happens, the batch changes no row it did not
    claim.  When the claim transaction fails nothing is claimed, except that an
    unconfirmed commit leaves its jobs leased. *)
Theorem batch_settles_every_job w cfg gate workerID clock uuid returning locked s :
  let deadline := w_now w (snd s) + wrap64 (LeaseSeconds cfg * Second) in
  fair_env w -> (forall l, returning l ≡ₚ l) -> gate <> Some false ->
  (forall id, clock id < deadline) -> (forall n k, w_clock w n k < deadline) ->
  exists d ready n,
    claimJobs (w_now w (snd s)) clock uuid returning locked (w_env w (snd s) (fst s)) workerID
      (BatchSize cfg) deadline [pool_scope cfg] = inl (d, ready, n) /\
    let s' := fst (processBatch w cfg gate workerID clock uuid returning locked s) in
    match w_fault w (snd s) with
    | None =>
        settles w ready (d, S (snd s)) s' /\
        ((forall i, w_fault w i = None) -> forall j, j ∈ ready -> over (fst s') j)
    | Some (CommitUnconfirmed _) => s' = (d, S (snd s))
    | Some _ => s' = (w_env w (snd s) (fst s), S (snd s))
    end.
Proof.
  intros deadline Henv Hret Hgate Hclock Hnow.
  destruct (claimJobs_spec (w_now w (snd s)) clock uuid returning locked
    (w_env w (snd s) (fst s)) workerID (BatchSize cfg) deadline [pool_scope cfg] Hret Hclock)
    as (d & ready & Hc & Hr).
  eexists d, ready, _. split; [exact Hc|]. cbv zeta. unfold processBatch. fold deadline. rewrite Hc.
  destruct (w_fault w (snd s)) as [[]|] eqn:Ef; try (by destruct gate as [[]|]).
  assert (Hs : settles w ready (d, S (snd s))
    (fst (process_groups w cfg (d, S (snd s)) (orderedJobGroups ready) 0))).
  { eapply settles_perm; [apply orderedJobGroups_jobs|].
    apply (process_groups_settles w Henv). intros j Hj. rewrite orderedJobGroups_jobs in Hj. left.
    destruct (claim_ready _ _ _ _ _ _ _ _ _ _ _ Hr j Hj) as (r & doc & _ & Hrow & Ef' & Et & _).
    eexists. split; [exact Hrow|]. intros n k. unfold held. simpl.
    rewrite Et, Ef', !bool_decide_true, Z.eqb_refl by done. by apply Z.ltb_lt. }
  assert (Hall : (forall i, w_fault w i = None) -> forall j, j ∈ ready ->
    over (fst (fst (process_groups w cfg (d, S (snd s)) (orderedJobGroups ready) 0))) j).
  { intros Hnone j Hj. by apply (settles_calm w _ _ _ Hnone Hs). }
  by destruct gate as [[]|].
Qed.

(** Oversized documents fail alone.  Against a backend with a chunk budget,
    embedGroup ends with the vectors of exactly the jobs whose text fits, in
    order, and with each oversized job failed for good on its own, whichever
    oversized text the backend names first. *)
Theorem embed_group_isolates_oversized w too_big vec s g :
  (forall n d, w_env w n d = d) -> (forall n, w_fault w n = None) -> budgeted w too_big vec ->
  NoDup (JobID <$> group_jobs g) -> (forall j, j ∈ group_jobs g -> alive w (fst s) j) ->
  let '(surviving, res, s') := embedGroup w s g in
  surviving = List.filter (fits too_big) (group_jobs g) /\
  res = inl (vec <$> (NormalizedText <$> surviving)) /\
  rewrites oversized_failed (List.filter (fun j => negb (fits too_big j)) (group_jobs g))
    (fst s) (fst s').
Proof.
  intros Hq Hf Hb Hnd Ha. unfold embedGroup. by apply embedGroup_loop_budgeted.
Qed.

(** An unavailable backend costs no attempt.  When the backend reports a
    retry time for a group, the jobs of that group and of every later group go
    back to pending at that time (or one poll interval on when it names none)
    with the attempt of the claim given back, and nothing is completed. *)
Theorem unavailable_backend_defers w cfg s g rest n err retryAt :
  (forall n d, w_env w n d = d) -> (forall n, w_fault w n = None) ->
  w_embed w (snd s) (NormalizedText <$> group_jobs g) (kind g) = inr err ->
  As_OversizedInput err = None -> RetryTime err = Some retryAt ->
  NoDup (JobID <$> remainingJobs (g :: rest)) ->
  (forall j, j ∈ remainingJobs (g :: rest) -> alive w (fst s) j) ->
  let at_ := if IsZero retryAt then w_now w (S (snd s)) + PollInterval cfg else retryAt in
  let '(s', completed) := process_groups w cfg s (g :: rest) n in
  completed = n /\ rewrites (deferred_to at_) (remainingJobs (g :: rest)) (fst s) (fst s').
Proof.
  intros Hq Hf He Ho Hr Hnd Ha at_. cbn [process_groups]. unfold embedGroup.
  assert (E : embedGroup_loop w (length (group_jobs g)) s (kind g) (group_jobs g)
    = (group_jobs g, inr err, (fst s, S (snd s)))).
  { destruct (length (group_jobs g)); cbn [embedGroup_loop]; by rewrite He, Ho. }
  rewrite E, Hr. split; [done|].
  change (remainingJobs (g :: rest)) with (group_jobs g ++ remainingJobs rest) in *.
  eapply rewrites_perm; [apply Permutation_app_comm|].
  apply (deferClaimedJobs_quiet w Hq Hf at_ _ (fst s, S (snd s))).
  - by rewrite (Permutation_app_comm (remainingJobs rest)).
  - intros j. rewrite (Permutation_app_comm (remainingJobs rest)). apply Ha.
Qed.

(** Grouping.  The batch is cut into one group per kind, in order of first
    appearance, each with that kind's jobs in claim order, and no job is lost
    or duplicated. *)
Theorem job_groups_partition jobs :
  NoDup (kind <$> orderedJobGroups jobs) /\
  (forall g, g ∈ orderedJobGroups jobs ->
     group_jobs g <> [] /\ group_jobs g = List.filter (same_kind (kind g)) jobs) /\
  remainingJobs (orderedJobGroups jobs) ≡ₚ jobs.
Proof.
  destruct (orderedJobGroups_spec jobs) as (H1 & H2 & _).
  split; [done|]. split; [done|]. apply orderedJobGroups_jobs.
Qed.

(** ** Witnesses *)

Definition sample_cfg : PoolConfig := NewPool {|
  CfgSourceKinds := []; CfgEmbeddingModel := "m"; CfgInputRevision := ""; WorkerCount := 1;
  LeaseSeconds := 60; PollInterval := 0; BatchSize := 0 |}.

Definition too_long (t : string) : bool := 5 <? len t.

(** The backend names the last oversized text. *)
Definition budget_embed (texts : list string) : list (list float32) + error :=
  match list_find (fun t => too_long t = true) texts with
  | Some (i, _) => inr (OversizedInputError (Z.of_nat i) None)
  | None => inl ((fun t => [f32_of_Z (len t)]) <$> texts)
  end.

Definition budget_world : world := {|
  w_now := fun _ => 10; w_clock := fun _ _ => 10; w_env := fun _ d => d; w_fault := fun _ => None;
  w_embed := fun _ texts _ => budget_embed texts |}.

Definition down_world : world := {|
  w_now := fun _ => 10; w_clock := fun _ _ => 10; w_env := fun _ d => d; w_fault := fun _ => None;
  w_embed := fun _ _ _ => inr (BackendUnavailableError 99 None) |}.

(** The connection is gone after the claim. *)
Definition cut_off_world : world := {|
  w_now := fun _ => 10; w_clock := fun _ _ => 10; w_env := fun _ d => d;
  w_fault := fun n => if (n =? 0)%nat then None else Some (BeginFails (Opaque "bad connection"));
  w_embed := fun _ _ _ => inr (BackendUnavailableError 99 None) |}.

Lemma budget_world_budgeted : budgeted budget_world too_long (fun t => [f32_of_Z (len t)]).
Proof.
  intros n texts k. simpl. unfold budget_embed.
  destruct (list_find (fun t => too_long t = true) texts) as [[i t]|] eqn:E.
  - apply list_find_Some in E as (Hi & Ht & _). by exists i, t.
  - split; [done|]. intros t Ht. apply list_find_None in E. rewrite Forall_forall in E.
    destruct (too_long t) eqn:Et; [|done]. by destruct (E t Ht).
Qed.

(** Two leased jobs, the first too long to embed. *)
Definition group_job (id text : string) : Job :=
  with_text (job_of id (leased_row 1 "w" id 100 sample_row)) text.

Definition group_db : db := {|
  jobs := {["a" := leased_row 1 "w" "a" 100 sample_row; "b" := leased_row 1 "w" "b" 100 sample_row]};
  documents := ∅; embeddings := ∅; vectors := ∅ |}.

Definition sample_group : jobGroup :=
  {| kind := "event"; group_jobs := [group_job "a" "too long a text"; group_job "b" "ok"] |}.

Lemma sample_group_NoDup : NoDup (JobID <$> group_jobs sample_group).
Proof. by apply (bool_decide_unpack _). Qed.

Lemma sample_group_alive w j :
  (forall n k, w_clock w n k = 10) -> j ∈ group_jobs sample_group -> alive w group_db j.
Proof.
  intros Hw Hj. simpl in Hj. rewrite !elem_of_cons, elem_of_nil in Hj.
  destruct Hj as [->|[->|[]]]; (eexists; split; [vm_compute; reflexivity|]);
    intros n k; rewrite Hw; vm_compute; reflexivity.
Qed.

(** The claimed job stays leased when its deferral cannot begin. *)
Lemma batch_settles_every_job_witness :
  exists d ready n,
    claimJobs 10 (fun _ => 10) id id ∅ sample_db "w" 64 (10 + 60 * Second) [pool_scope sample_cfg]
    = inl (d, ready, n) /\
    settles cut_off_world ready (d, 1%nat)
      (fst (processBatch cut_off_world sample_cfg None "w" (fun _ => 10) id id ∅ (sample_db, 0%nat))).
Proof.
  destruct (batch_settles_every_job cut_off_world sample_cfg None "w" (fun _ => 10) id id ∅ (sample_db, 0%nat)
    (quiet_fair cut_off_world (fun _ _ => eq_refl)) (fun l => reflexivity l) ltac:(discriminate)
    (fun _ => eq_refl) (fun _ _ => eq_refl)) as (d & ready & n & Hc & Hs & _).
  exists d, ready, n. split; [exact Hc|exact Hs].
Defined.

Lemma embed_group_isolates_oversized_witness :
  exists s', embedGroup budget_world (group_db, 0%nat) sample_group
    = ([group_job "b" "ok"], inl [[f32_of_Z 2]], s').
Proof.
  pose proof (embed_group_isolates_oversized budget_world too_long (fun t => [f32_of_Z (len t)])
    (group_db, 0%nat) sample_group (fun _ _ => eq_refl) (fun _ => eq_refl) budget_world_budgeted sample_group_NoDup
    (fun j Hj => sample_group_alive budget_world j (fun _ _ => eq_refl) Hj)) as H.
  destruct (embedGroup budget_world (group_db, 0%nat) sample_group) as [[surviving res] s'].
  destruct H as (-> & -> & _). exists s'. reflexivity.
Defined.

Lemma unavailable_backend_defers_witness :
  rewrites (deferred_to 99) (group_jobs sample_group) group_db
    (fst (fst (process_groups down_world sample_cfg (group_db, 0%nat) [sample_group] 0))).
Proof.
  pose proof (unavailable_backend_defers down_world sample_cfg (group_db, 0%nat) sample_group [] 0
    (BackendUnavailableError 99 None) 99 (fun _ _ => eq_refl) (fun _ => eq_refl) eq_refl eq_refl eq_refl
    sample_group_NoDup (fun j Hj => sample_group_alive down_world j (fun _ _ => eq_refl) Hj)) as H.
  destruct (process_groups down_world sample_cfg (group_db, 0%nat) [sample_group] 0) as [s' n].
  exact (proj2 H).
Defined.
