(* ===== verification/QueryScope.v ===== *)
(** * Query scope (internal/queryscope/scope.go) and result filters (internal/search/filters.go)

    The scope of a search is applied twice: as SQL predicates on documents,
    before retrieval budgets are spent, and in memory on the rows that came
    back.  The SQL side is a list of clauses that is rendered to text with
    numbered placeholders and evaluated on a document as PostgreSQL does (a row
    passes when the predicate is true, not null). *)

From S2P Require Import Prelude GoStrings GoSort.

(** ** Lists of strings *)

(** The duplicate-removing loop of the normalizers; [seen] are the values out
    already. *)
Fixpoint dedupe (seen : list string) (values : list string) : list string :=
  match values with
  | [] => []
  | v :: values =>
      if is_empty v then dedupe seen values
      else if bool_decide (v ∈ seen) then dedupe seen values
      else v :: dedupe (v :: seen) values
  end.

Definition NormalizeLowerList (values : list string) : list string :=
  dedupe [] ((fun v => ToLower (TrimSpace v)) <$> values).

Definition NormalizeGraphList (values : list string) : list string :=
  sort_strings (dedupe [] (TrimSpace <$> values)).

Definition TagsFromJSON (tags : list string) : list string :=
  sort_strings (dedupe [] (TrimSpace <$> tags)).

(** [unmarshal] is json.Unmarshal into a []string. *)
Definition ParseTagsJSON (unmarshal : string -> option (list string)) (value : string) : list string :=
  let value := TrimSpace value in
  if is_empty value || String.eqb value "null" || String.eqb value "[]" then []
  else match unmarshal value with Some tags => TagsFromJSON tags | None => [] end.

Definition ContainsFold (values : list string) (value : string) : bool :=
  let value := TrimSpace value in
  existsb (fun candidate => EqualFold (TrimSpace candidate) value) values.

(** Backslash first, then the two wildcards of LIKE. *)
Definition EscapeLike (value : string) : string :=
  let value := ReplaceAll value "\"%char "\\" in
  let value := ReplaceAll value "%"%char "\%" in
  ReplaceAll value "_"%char "\_".

Definition placeholder (n : Z) : string := "$" +:+ Itoa n.

Definition PgPlaceholders (start : Z) (count : nat) : string :=
  Join ((fun i => placeholder (start + Z.of_nat i)) <$> seq 0 count) ",".

(** AddInClause on the slices it appends to. *)
Definition AddInClause {A} (clauses : list string) (args : list A) (column : string)
    (values : list A) : list string * list A :=
  match values with
  | [] => (clauses, args)
  | _ =>
      (clauses ++ [column +:+ " IN (" +:+ PgPlaceholders (Z.of_nat (length args) + 1) (length values) +:+ ")"],
       args ++ values)
  end.

(** MacPattern: six lower-case hexadecimal pairs joined by colons. *)
Definition hex_digit_lower (c : ascii) : bool := in_range 48 57 c || in_range 97 102 c.

Fixpoint mac_pairs (n : nat) (s : list ascii) : bool :=
  match s with
  | a :: b :: s =>
      hex_digit_lower a && hex_digit_lower b &&
      match n, s with
      | O, [] => true
      | S n, c :: s => Ascii.eqb c ":"%char && mac_pairs n s
      | _, _ => false
      end
  | _ => false
  end.

Definition MacPattern (s : string) : bool := mac_pairs 5 (bytes s).

(** ** Filters and documents *)

Record SearchFilters := {
  LocationIds : list string;
  SensorIds : list string;
  SourceMac : string;
  SourceMacs : list string;
  Bssid : string;
  ObservedApContextOnly : bool;
  EntityQuery : string;
  FrameSubtypes : list string;
  EventTypes : list string;
  ProxyDeviceIds : list string;
  Classifications : list string;
  Ssid : string;
  Host : string;
  Blocked : option bool;
  ObservedAfter : option time;
  ObservedBefore : option time;
  SecurityFlagsMask : Z;
  HandshakeOnly : bool;
  ThreatOnly : bool;
  Tags : list string;
}.

(** The scoped columns of a search_documents row; [None] is NULL. *)
Record document := {
  c_location_id : option string;
  c_sensor_id : option string;
  c_source_mac : option string;
  c_bssid : option string;
  c_ssid : option string;
  c_host : option string;
  c_frame_subtype : option string;
  c_proxy_event_type : option string;
  c_proxy_device_id : option string;
  c_classification : option string;
  c_blocked : option bool;
  c_observed_at : option time;
  c_security_flags : option Z;
  c_handshake_captured : option bool;
  c_tags : list string; (* filters -> 'tags' *)
}.

Definition FilterSourceMACs (filters : SearchFilters) : list string :=
  NormalizeLowerList (SourceMac filters :: SourceMacs filters).

(** ** The SQL predicates *)

Inductive column :=
| location_id | sensor_id | source_mac | frame_subtype | proxy_event_type
| proxy_device_id | classification | ssid | host.

Definition column_name (c : column) : string :=
  match c with
  | location_id => "location_id" | sensor_id => "sensor_id" | source_mac => "source_mac"
  | frame_subtype => "frame_subtype" | proxy_event_type => "proxy_event_type"
  | proxy_device_id => "proxy_device_id::text" | classification => "classification"
  | ssid => "ssid" | host => "host"
  end.

Definition column_value (c : column) (d : document) : option string :=
  match c with
  | location_id => c_location_id d | sensor_id => c_sensor_id d | source_mac => c_source_mac d
  | frame_subtype => c_frame_subtype d | proxy_event_type => c_proxy_event_type d
  | proxy_device_id => c_proxy_device_id d | classification => c_classification d
  | ssid => c_ssid d | host => c_host d
  end.

(** A bound parameter. *)
Inductive value := VText (s : string) | VBool (b : bool) | VTime (t : time) | VInt (z : Z).

Inductive clause :=
| InList (c : column) (values : list string)
| BssidIs (v : string)
| QualifyingAP
| EntityScope (v : string)
| StrPos (c : column) (v : string)
| BlockedIs (b : bool)
| ObservedFrom (t : time)
| ObservedUntil (t : time)
| FlagsIntersect (mask : Z)
| HandshakeCaptured
| Threatening
| HasTag (v : string).

Definition list_clause (c : column) (values : list string) : list clause :=
  match NormalizeLowerList values with [] => [] | values => [InList c values] end.

Definition strpos_clause (c : column) (v : string) : list clause :=
  let v := TrimSpace v in if is_empty v then [] else [StrPos c (ToLower v)].

(** The clauses DocumentScopeSQL emits, in order. *)
Definition scope_clauses (f : SearchFilters) : list clause :=
  list_clause location_id (LocationIds f)
  ++ list_clause sensor_id (SensorIds f)
  ++ list_clause source_mac (FilterSourceMACs f)
  ++ (if is_empty (Bssid f) then [] else [BssidIs (ToLower (TrimSpace (Bssid f)))])
  ++ (if ObservedApContextOnly f then [QualifyingAP] else [])
  ++ (if is_empty (EntityQuery f) then [] else [EntityScope (ToLower (TrimSpace (EntityQuery f)))])
  ++ list_clause frame_subtype (FrameSubtypes f)
  ++ list_clause proxy_event_type (EventTypes f)
  ++ list_clause proxy_device_id (ProxyDeviceIds f)
  ++ list_clause classification (Classifications f)
  ++ strpos_clause ssid (Ssid f)
  ++ strpos_clause host (Host f)
  ++ match Blocked f with Some b => [BlockedIs b] | None => [] end
  ++ match ObservedAfter f with Some t => [ObservedFrom t] | None => [] end
  ++ match ObservedBefore f with Some t => [ObservedUntil t] | None => [] end
  ++ (if SecurityFlagsMask f =? 0 then [] else [FlagsIntersect (SecurityFlagsMask f)])
  ++ (if HandshakeOnly f then [HandshakeCaptured] else [])
  ++ (if ThreatOnly f then [Threatening] else [])
  ++ (HasTag <$> NormalizeLowerList (Tags f)).

(** *** Rendering *)

Definition clause_args (c : clause) : list value :=
  match c with
  | InList _ values => VText <$> values
  | BssidIs v | EntityScope v | StrPos _ v | HasTag v => [VText v]
  | BlockedIs b => [VBool b]
  | ObservedFrom t | ObservedUntil t => [VTime t]
  | FlagsIntersect m => [VInt m]
  | QualifyingAP | HandshakeCaptured | Threatening => []
  end.

Definition EntityScopeSQL (alias placeholder : string) : string :=
  "(strpos(lower(COALESCE(" +:+ alias +:+ ".ssid,'')), " +:+ placeholder +:+ ") > 0 OR strpos("
  +:+ alias +:+ ".source_mac," +:+ placeholder +:+ ") > 0 OR strpos(" +:+ alias +:+ ".bssid,"
  +:+ placeholder +:+ ") > 0 OR EXISTS (SELECT 1 FROM atheros_search.devices reg WHERE reg.mac="
  +:+ alias +:+ ".source_mac AND strpos(lower(COALESCE(reg.display_name,''))," +:+ placeholder +:+ ") > 0))".

Definition newline : string := String (ascii_of_nat 10) "".

Definition QualifyingAPSQL (alias : string) : string :=
  alias +:+ ".observed_at IS NOT NULL AND " +:+ alias +:+ ".source_mac ~ '^[0-9a-f]{2}(:[0-9a-f]{2}){5}$'" +:+ newline
  +:+ " AND " +:+ alias +:+ ".bssid ~ '^[0-9a-f]{2}(:[0-9a-f]{2}){5}$'" +:+ newline
  +:+ " AND " +:+ alias +:+ ".source_mac NOT IN ('ff:ff:ff:ff:ff:ff','00:00:00:00:00:00')" +:+ newline
  +:+ " AND " +:+ alias +:+ ".bssid NOT IN ('ff:ff:ff:ff:ff:ff','00:00:00:00:00:00')" +:+ newline
  +:+ " AND " +:+ alias +:+ ".source_mac <> " +:+ alias +:+ ".bssid".

Definition tags_from (alias : string) : string :=
  "EXISTS (SELECT 1 FROM jsonb_array_elements_text(COALESCE(" +:+ alias
  +:+ ".filters -> 'tags', '[]'::jsonb)) t(value) WHERE lower(btrim(t.value))".

(** The text of a clause whose first placeholder is number [n]. *)
Definition clause_text (alias : string) (n : Z) (c : clause) : string :=
  let p := placeholder n in
  match c with
  | InList col values =>
      "lower(btrim(COALESCE(" +:+ alias +:+ "." +:+ column_name col +:+ ", ''))) IN ("
      +:+ PgPlaceholders n (length values) +:+ ")"
  | BssidIs _ => alias +:+ ".bssid = " +:+ p
  | QualifyingAP => QualifyingAPSQL alias
  | EntityScope _ => EntityScopeSQL alias p
  | StrPos col _ => "strpos(lower(COALESCE(" +:+ alias +:+ "." +:+ column_name col +:+ ", '')), " +:+ p +:+ ") > 0"
  | BlockedIs _ => alias +:+ ".blocked = " +:+ p
  | ObservedFrom _ => alias +:+ ".observed_at >= " +:+ p
  | ObservedUntil _ => alias +:+ ".observed_at < " +:+ p
  | FlagsIntersect _ => "(" +:+ alias +:+ ".security_flags & " +:+ p +:+ ") <> 0"
  | HandshakeCaptured => alias +:+ ".handshake_captured"
  | Threatening => "(" +:+ alias +:+ ".handshake_captured OR " +:+ tags_from alias +:+ " LIKE 'threat:%'))"
  | HasTag _ => tags_from alias +:+ " = " +:+ p +:+ ")"
  end.

Fixpoint render (alias : string) (n : Z) (cs : list clause) : list string * list value :=
  match cs with
  | [] => ([], [])
  | c :: cs =>
      let args := clause_args c in
      let '(texts, rest) := render alias (n + Z.of_nat (length args)) cs in
      (clause_text alias n c :: texts, args ++ rest)
  end.

Definition DocumentScopeSQL (alias : string) (filters : option SearchFilters) (start : Z)
    : string * list value :=
  match filters with
  | None => ("", [])
  | Some f =>
      match render alias start (scope_clauses f) with
      | ([], args) => ("", args)
      | (texts, args) => (" AND " +:+ Join texts " AND ", args)
      end
  end.

(** *** Evaluation *)

(** btrim strips spaces only. *)
Definition btrim (s : string) : string := TrimFunc (Ascii.eqb " "%char) s.

Definition coalesce (v : option string) : string := default "" v.

(** [NULLIF(v, '')] *)
Definition null_if_empty (v : option string) : option string :=
  match v with Some v => if is_empty v then None else Some v | None => None end.

Definition column_key (c : column) (d : document) : string :=
  ToLower (btrim (coalesce (column_value c d))).

Definition reserved_macs : list string := ["ff:ff:ff:ff:ff:ff"; "00:00:00:00:00:00"].

Definition qualifying_ap (observed : option time) (source bssid : string) : bool :=
  bool_decide (is_Some observed) && MacPattern source && MacPattern bssid
  && bool_decide (source ∉ reserved_macs) && bool_decide (bssid ∉ reserved_macs)
  && negb (String.eqb source bssid).

(** A comparison with a null operand is not true. *)
Definition is_true {A} (v : option A) (p : A -> bool) : bool :=
  match v with Some a => p a | None => false end.

Definition threat_tag (tag : string) : bool := HasPrefix tag "threat:".

(** The truth of a clause on a row; [display_name] is the devices table. *)
Definition clause_holds (display_name : string -> option string) (d : document) (c : clause) : bool :=
  match c with
  | InList col values => bool_decide (column_key col d ∈ values)
  | BssidIs v => is_true (c_bssid d) (fun b => String.eqb b v)
  | QualifyingAP =>
      is_true (c_source_mac d) (fun s => is_true (c_bssid d) (qualifying_ap (c_observed_at d) s))
  | EntityScope v =>
      Contains (ToLower (coalesce (c_ssid d))) v
      || is_true (c_source_mac d) (fun s => Contains s v)
      || is_true (c_bssid d) (fun b => Contains b v)
      || is_true (c_source_mac d) (fun s =>
           is_true (display_name s) (fun name => Contains (ToLower name) v))
  | StrPos col v => Contains (ToLower (coalesce (column_value col d))) v
  | BlockedIs b => is_true (c_blocked d) (Bool.eqb b)
  | ObservedFrom t => is_true (c_observed_at d) (fun o => t <=? o)
  | ObservedUntil t => is_true (c_observed_at d) (fun o => o <? t)
  | FlagsIntersect m => is_true (c_security_flags d) (fun f => negb (Z.land f m =? 0))
  | HandshakeCaptured => is_true (c_handshake_captured d) id
  | Threatening =>
      is_true (c_handshake_captured d) id
      || existsb (fun t => threat_tag (ToLower (btrim t))) (c_tags d)
  | HasTag v => existsb (fun t => String.eqb (ToLower (btrim t)) v) (c_tags d)
  end.

Definition in_document_scope (display_name : string -> option string) (f : SearchFilters) (d : document)
    : bool := forallb (clause_holds display_name d) (scope_clauses f).

(** ** LIKE *)

(** [column IN (...)]; no list is no condition, and NULL is in no list. *)
Definition in_list (values : list string) (v : option string) : bool :=
  match values with
  | [] => true
  | _ => match v with Some v => bool_decide (v ∈ values) | None => false end
  end.

(** Pattern matching with backslash as the escape character; a pattern that
    ends in a lone escape matches nothing here. *)
Fixpoint like (p s : list ascii) : bool :=
  match p with
  | [] => match s with [] => true | _ => false end
  | x :: p' =>
      if Ascii.eqb x "%"%char then
        (fix any (s : list ascii) : bool :=
           like p' s || match s with [] => false | _ :: s => any s end) s
      else if Ascii.eqb x "_"%char then
        match s with [] => false | _ :: s => like p' s end
      else if Ascii.eqb x "\"%char then
        match p', s with
        | y :: p'', z :: s => Ascii.eqb y z && like p'' s
        | _, _ => false
        end
      else
        match s with [] => false | z :: s => Ascii.eqb x z && like p' s end
  end.

Definition LIKE (s pattern : string) : bool := like (bytes pattern) (bytes s).

(** ** Lemmas *)

(** A MAC address is in lower case and 17 bytes long. *)
Lemma mac_pairs_spec n l :
  mac_pairs n l = true -> forallb (fun c => Ascii.eqb (lower_ascii c) c) l = true /\ length l = (3 * n + 2)%nat.
Proof.
  assert (Hhex : forall c, hex_digit_lower c = true -> Ascii.eqb (lower_ascii c) c = true).
  { intros c. destruct c as [[] [] [] [] [] [] [] []]; by vm_compute. }
  revert l. induction n as [|n IH]; intros [|a [|b l]]; cbn [mac_pairs forallb length]; try done;
    intros [[Ha Hb]%andb_true_iff Hl]%andb_true_iff; rewrite (Hhex a Ha), (Hhex b Hb).
  - by destruct l.
  - destruct l as [|c l]; [done|]. apply andb_true_iff in Hl as [->%Ascii.eqb_eq Hl].
    destruct (IH l Hl) as [Hf E]. cbn [forallb length]. rewrite Hf. split; [done|lia].
Qed.

Lemma MacPattern_spec s : MacPattern s = true -> ToLower s = s /\ String.length s = 17%nat.
Proof.
  intros [Hf Hl]%mac_pairs_spec. rewrite length_bytes in Hl. split; [by apply ToLower_fixed|done].
Qed.

Lemma dedupe_elem seen values x :
  x ∈ dedupe seen values <-> x ∈ values /\ x <> "" /\ x ∉ seen.
Proof.
  revert seen. induction values as [|v values IH]; intros seen; cbn [dedupe].
  { split; [by intros ?%elem_of_nil|by intros [?%elem_of_nil _]]. }
  destruct (is_empty v) eqn:E.
  - apply is_empty_true in E as ->. rewrite IH, elem_of_cons. naive_solver.
  - assert (v <> "") by (intros ->; done). case_bool_decide as Hs.
    + rewrite IH, elem_of_cons. naive_solver.
    + rewrite elem_of_cons, IH, elem_of_cons, elem_of_cons.
      destruct (decide (x = v)) as [->|]; naive_solver.
Qed.

Lemma dedupe_NoDup seen values : NoDup (dedupe seen values).
Proof.
  revert seen. induction values as [|v values IH]; intros seen; cbn [dedupe]; [constructor|].
  destruct (is_empty v); [done|]. case_bool_decide; [done|].
  constructor; [|done]. rewrite dedupe_elem. intros (_ & _ & H'). apply H'. by left.
Qed.

(** First occurrences survive, in order. *)
Lemma dedupe_id seen values :
  NoDup values -> (forall v, v ∈ values -> v <> "" /\ v ∉ seen) -> dedupe seen values = values.
Proof.
  revert seen. induction values as [|v values IH]; intros seen Hnd Hv; cbn [dedupe]; [done|].
  apply NoDup_cons in Hnd as [Hn Hnd]. destruct (Hv v) as [Hne Hs]; [by left|].
  destruct (is_empty v) eqn:E; [by apply is_empty_true in E|].
  rewrite bool_decide_false by done. f_equal. apply IH; [done|].
  intros x Hx. destruct (Hv x) as [? ?]; [by right|]. split; [done|].
  rewrite not_elem_of_cons. split; [|done]. by intros ->.
Qed.

Definition norm (v : string) : string := ToLower (TrimSpace v).

Lemma norm_idem v : norm (norm v) = norm v.
Proof. unfold norm. rewrite <-ToLower_TrimSpace, ToLower_idem, TrimSpace_idem. done. Qed.

Lemma NormalizeLowerList_elem values x :
  x ∈ NormalizeLowerList values <-> x <> "" /\ exists v, v ∈ values /\ x = norm v.
Proof.
  unfold NormalizeLowerList. rewrite dedupe_elem, list_elem_of_fmap.
  split; [intros ((v & -> & ?) & ? & _); eauto|intros (? & v & ? & ->)].
  split; [by exists v|]. split; [done|apply not_elem_of_nil].
Qed.

Lemma TagsFromJSON_elem tags x :
  x ∈ TagsFromJSON tags <-> x <> "" /\ exists t, t ∈ tags /\ x = TrimSpace t.
Proof.
  unfold TagsFromJSON, sort_strings. rewrite sort_by_elem, dedupe_elem, list_elem_of_fmap.
  split; [intros ((t & -> & ?) & ? & _); eauto|intros (? & t & ? & ->)].
  split; [by exists t|]. split; [done|apply not_elem_of_nil].
Qed.

Lemma NormalizeLowerList_NoDup values : NoDup (NormalizeLowerList values).
Proof. apply dedupe_NoDup. Qed.

Lemma NormalizeLowerList_idem values :
  NormalizeLowerList (NormalizeLowerList values) = NormalizeLowerList values.
Proof.
  unfold NormalizeLowerList at 1.
  assert (E : (fun v => ToLower (TrimSpace v)) <$> NormalizeLowerList values = NormalizeLowerList values).
  { rewrite <-(list_fmap_id (NormalizeLowerList values)) at 2. apply list_fmap_ext.
    intros i x Hx. apply list_elem_of_lookup_2, NormalizeLowerList_elem in Hx as (_ & v & _ & ->).
    apply norm_idem. }
  rewrite E. apply dedupe_id; [apply NormalizeLowerList_NoDup|].
  intros v Hv. apply NormalizeLowerList_elem in Hv as [? _]. split; [done|apply not_elem_of_nil].
Qed.

Lemma ReplaceAll_app a b c r : ReplaceAll (a +:+ b) c r = ReplaceAll a c r +:+ ReplaceAll b c r.
Proof.
  induction a as [|d a IH]; simpl; [done|]. rewrite IH.
  destruct (Ascii.eqb c d); [|done]. by rewrite append_assoc.
Qed.

Lemma EscapeLike_app a b : EscapeLike (a +:+ b) = EscapeLike a +:+ EscapeLike b.
Proof. unfold EscapeLike. by rewrite !ReplaceAll_app. Qed.

(** One escaped byte matches exactly itself. *)
Lemma like_escaped c p s :
  like (bytes (EscapeLike (String c "")) ++ p) s
  = match s with [] => false | z :: s => Ascii.eqb c z && like p s end.
Proof. by destruct c as [[] [] [] [] [] [] [] []]. Qed.

Lemma like_escaped_prefix v p s :
  like (bytes (EscapeLike v) ++ p) (bytes s) = true <->
  exists rest, bytes s = bytes v ++ rest /\ like p rest = true.
Proof.
  revert s. induction v as [|c v IH]; intros s.
  { simpl. split; [eauto|]. by intros (rest & -> & ?). }
  change (String c v) with (String c "" +:+ v). rewrite EscapeLike_app, bytes_append, <-app_assoc.
  rewrite like_escaped. destruct s as [|d s].
  { split; [done|]. by intros (rest & ? & _). }
  change (bytes (String d s)) with (d :: bytes s). cbv iota.
  rewrite andb_true_iff, IH, Ascii.eqb_eq, bytes_append. split.
  - intros [-> (rest & -> & ?)]. by exists rest.
  - intros (rest & [= <- E] & ?). split; [done|]. by exists rest.
Qed.

Lemma like_any s : like ["%"%char] s = true.
Proof. destruct s; [done|]. simpl. induction s; [done|]. simpl in *. done. Qed.

Lemma render_spec alias n cs :
  let '(texts, args) := render alias n cs in
  length texts = length cs /\ args = concat (clause_args <$> cs) /\
  forall i c, cs !! i = Some c ->
    texts !! i = Some (clause_text alias (n + Z.of_nat (length (concat (clause_args <$> take i cs)))) c).
Proof.
  revert n. induction cs as [|c cs IH]; intros n.
  { split; [done|]. split; [done|]. intros i c Hc. by rewrite lookup_nil in Hc. }
  cbn [render]. specialize (IH (n + Z.of_nat (length (clause_args c)))).
  destruct (render alias _ cs) as [texts args]. destruct IH as (H1 & H2 & H3).
  split; [simpl; by rewrite H1|]. split; [csimpl; by rewrite H2|].
  intros [|i] c' Hc; simplify_eq/=.
  - rewrite Z.add_0_r. done.
  - rewrite (H3 _ _ Hc). rewrite length_app. do 2 f_equal. csimpl. lia.
Qed.

(** ** Properties *)

(** LIKE patterns built from user input are literal: the pattern made by
    escaping a value and appending a wildcard matches a string exactly when the
    value is a prefix of it, whatever wildcards or backslashes it contains. *)
Theorem escape_like_literal value s :
  LIKE s (EscapeLike value +:+ "%") = HasPrefix s value.
Proof.
  apply eq_true_iff_eq. unfold LIKE. rewrite bytes_append, like_escaped_prefix, HasPrefix_bytes.
  split; [intros (rest & E & _); by exists rest|].
  intros (rest & E). exists rest. split; [done|apply like_any].
Qed.

(** Bound parameters.  The scope of a filter renders one predicate per
    clause; the placeholders of each predicate are numbered from the start
    number plus the count of arguments before it, and the arguments are those
    of the clauses in order, so every value is bound to its own placeholder. *)
Theorem document_scope_binds alias f start :
  exists texts,
    DocumentScopeSQL alias (Some f) start =
      (if bool_decide (scope_clauses f = []) then "" else " AND " +:+ Join texts " AND ",
       concat (clause_args <$> scope_clauses f)) /\
    length texts = length (scope_clauses f) /\
    forall i c, scope_clauses f !! i = Some c ->
      texts !! i = Some (clause_text alias
        (start + Z.of_nat (length (concat (clause_args <$> take i (scope_clauses f))))) c).
Proof.
  pose proof (render_spec alias start (scope_clauses f)) as H. unfold DocumentScopeSQL.
  destruct (render alias start (scope_clauses f)) as [texts args].
  destruct H as (H1 & -> & H3). exists texts. split; [|done].
  destruct texts as [|t texts], (scope_clauses f) as [|c cs]; done.
Qed.

(** NormalizeLowerList keeps the non-blank values, trimmed
    and in lower case, each once, and leaves a normal list unchanged. *)
Theorem normalize_lower_list values :
  NoDup (NormalizeLowerList values) /\
  (forall x, x ∈ NormalizeLowerList values <-> x <> "" /\ exists v, v ∈ values /\ x = ToLower (TrimSpace v)) /\
  NormalizeLowerList (NormalizeLowerList values) = NormalizeLowerList values.
Proof.
  split; [apply NormalizeLowerList_NoDup|]. split; [apply NormalizeLowerList_elem|apply NormalizeLowerList_idem].
Qed.
