(* ===== verification/SearchResults.v ===== *)
(** * Search results (internal/search: types.go, filters.go, fusion.go)

    The record a retrieval row is scanned into, the in-memory filters, and the
    reciprocal-rank fusion of the dense and sparse lists. *)

From S2P Require Import Prelude GoStrings GoSort GoFloats QueryScope.
From Stdlib Require Import Sorted SpecFloat Btauto.

(** ** Data *)

Record RawResult := {
  SourceKey : string;
  SourceTable : string;
  SourceKind : string;
  SourceMAC : string;
  LocationID : string;
  SensorID : string;
  ObservedAt : option time;
  BSSID : string;
  SSID : string;
  FrameSubtype : string;
  CosineSimilarity : float32;
  KeywordRank : float32;
  Score : float32;
  ThreatBoost : float32;
  SequenceLogProb : float64;
  BoostReasons : list string;
  ResultTags : list string;
  DetailJSON : string;
  ResultHost : string;
  ResultBlocked : option bool;
  ProxyEventType : string;
  ProxyDeviceID : string;
  WindowStart : option time;
  WindowEnd : option time;
  Classification : string;
  securityFlags : Z;
  handshakeCaptured : bool;
}.

(** The three score fields of a result, replaced. *)
Definition with_scores (r : RawResult) (cosine keyword score : float32) : RawResult := {|
  SourceKey := SourceKey r; SourceTable := SourceTable r; SourceKind := SourceKind r;
  SourceMAC := SourceMAC r; LocationID := LocationID r; SensorID := SensorID r;
  ObservedAt := ObservedAt r; BSSID := BSSID r; SSID := SSID r; FrameSubtype := FrameSubtype r;
  CosineSimilarity := cosine; KeywordRank := keyword; Score := score;
  ThreatBoost := ThreatBoost r; SequenceLogProb := SequenceLogProb r; BoostReasons := BoostReasons r;
  ResultTags := ResultTags r; DetailJSON := DetailJSON r; ResultHost := ResultHost r;
  ResultBlocked := ResultBlocked r; ProxyEventType := ProxyEventType r;
  ProxyDeviceID := ProxyDeviceID r; WindowStart := WindowStart r; WindowEnd := WindowEnd r;
  Classification := Classification r; securityFlags := securityFlags r;
  handshakeCaptured := handshakeCaptured r |}.

(** ** Filters *)

Definition hasThreatTag (tags : list string) : bool :=
  existsb (fun tag => HasPrefix (ToLower (TrimSpace tag)) "threat:") tags.

Definition matchesFoldList (value : string) (allowed : list string) : bool :=
  match allowed with [] => true | _ => ContainsFold allowed value end.

(** The early returns of resultMatchesFilters, in order. *)
Definition resultMatchesFilters (r : RawResult) (filters : option SearchFilters) : bool :=
  match filters with
  | None => true
  | Some f =>
      if negb (is_empty (Bssid f)) && negb (EqualFold (BSSID r) (TrimSpace (Bssid f))) then false
      else if ObservedApContextOnly f
              && (bool_decide (ObservedAt r = None) || negb (MacPattern (SourceMAC r))
                  || negb (MacPattern (BSSID r)) || String.eqb (SourceMAC r) (BSSID r)
                  || String.eqb (SourceMAC r) "ff:ff:ff:ff:ff:ff" || String.eqb (SourceMAC r) "00:00:00:00:00:00"
                  || String.eqb (BSSID r) "ff:ff:ff:ff:ff:ff" || String.eqb (BSSID r) "00:00:00:00:00:00")
      then false
      else if negb (matchesFoldList (LocationID r) (LocationIds f))
              || negb (matchesFoldList (SensorID r) (SensorIds f))
              || negb (matchesFoldList (FrameSubtype r) (FrameSubtypes f)) then false
      else if negb (is_empty (TrimSpace (Ssid f)))
              && negb (Contains (ToLower (SSID r)) (ToLower (TrimSpace (Ssid f)))) then false
      else if negb (bool_decide (FilterSourceMACs f = []))
              && negb (ContainsFold (FilterSourceMACs f) (SourceMAC r)) then false
      else if negb (is_empty (TrimSpace (Host f)))
              && negb (Contains (ToLower (ResultHost r)) (ToLower (TrimSpace (Host f)))) then false
      else if match Blocked f with
              | Some b => match ResultBlocked r with Some b' => negb (Bool.eqb b' b) | None => true end
              | None => false
              end then false
      else if negb (matchesFoldList (ProxyEventType r) (EventTypes f))
              || negb (matchesFoldList (ProxyDeviceID r) (ProxyDeviceIds f))
              || negb (matchesFoldList (Classification r) (Classifications f)) then false
      else if match ObservedAfter f with
              | Some t => match ObservedAt r with Some o => o <? t | None => true end
              | None => false
              end then false
      else if match ObservedBefore f with
              | Some t => match ObservedAt r with Some o => negb (o <? t) | None => true end
              | None => false
              end then false
      else if negb (SecurityFlagsMask f =? 0) && (Z.land (securityFlags r) (SecurityFlagsMask f) =? 0) then false
      else if HandshakeOnly f && negb (handshakeCaptured r) then false
      else if ThreatOnly f && negb (handshakeCaptured r) && negb (hasThreatTag (ResultTags r)) then false
      else forallb (fun required => ContainsFold (ResultTags r) required) (NormalizeLowerList (Tags f))
  end.

(** filterResults: a limit of zero or less is no limit. *)
Fixpoint filter_loop (results : list RawResult) (filters : option SearchFilters) (limit : Z) (n : Z)
    : list RawResult :=
  match results with
  | [] => []
  | r :: results =>
      if negb (resultMatchesFilters r filters) then filter_loop results filters limit n
      else if (0 <? limit) && (limit <=? n + 1) then [r]
      else r :: filter_loop results filters limit (n + 1)
  end.

Definition filterResults (results : list RawResult) (filters : option SearchFilters) (limit : Z)
    : list RawResult := filter_loop results filters limit 0.

(** ** Order *)

(** [a.Score == b.Score ? a.SourceKey < b.SourceKey : a.Score > b.Score] *)
Definition score_less (a b : RawResult) : bool :=
  if f_eqb (Score a) (Score b) then str_ltb (SourceKey a) (SourceKey b)
  else f_gtb (Score a) (Score b).

Definition cosine_less (a b : RawResult) : bool :=
  if f_eqb (CosineSimilarity a) (CosineSimilarity b) then str_ltb (SourceKey a) (SourceKey b)
  else f_gtb (CosineSimilarity a) (CosineSimilarity b).

(** [out[:limit]] when longer. *)
Definition truncate {A} (limit : Z) (l : list A) : list A :=
  if limit <? Z.of_nat (length l) then take (Z.to_nat limit) l else l.

(** ** Fusion *)

Definition rrfK : float64 := f64_of_Z 60.

Definition rrf (rank : Z) : float32 :=
  f32_of_f64 (f64_div (f64_of_Z 1) (f64_add rrfK (f64_of_Z rank))).

(** The closure [add] of Fuse on its map. *)
Definition fuse_add (alpha : float64) (m : gmap string RawResult) (r : RawResult) (rank : Z) (dense : bool)
    : gmap string RawResult :=
  let item := match m !! SourceKey r with
              | Some item => item
              | None => with_scores r (CosineSimilarity r) (KeywordRank r) f_zero
              end in
  let weight := if dense then f32_of_f64 alpha else f32_of_f64 (f64_sub (f64_of_Z 1) alpha) in
  let cosine := if dense && f_gtb (CosineSimilarity r) (CosineSimilarity item)
                then CosineSimilarity r else CosineSimilarity item in
  let keyword := if negb dense && f_gtb (KeywordRank r) (KeywordRank item)
                 then KeywordRank r else KeywordRank item in
  <[SourceKey r := with_scores item cosine keyword (f32_add (Score item) (f32_mul weight (rrf rank)))]> m.

Fixpoint fuse_leg (alpha : float64) (dense : bool) (rank : Z) (results : list RawResult)
    (m : gmap string RawResult) : gmap string RawResult :=
  match results with
  | [] => m
  | r :: results => fuse_leg alpha dense (rank + 1) results (fuse_add alpha m r rank dense)
  end.

Definition fuse_map (dense sparse : list RawResult) (alpha : float64) : gmap string RawResult :=
  fuse_leg alpha false 1 sparse (fuse_leg alpha true 1 dense ∅).

(** [iterate] is the iteration order of the map. *)
Definition Fuse (iterate : gmap string RawResult -> list RawResult) (dense sparse : list RawResult)
    (topK : Z) (alpha : float64) : list RawResult :=
  let out := sort_by score_less (iterate (fuse_map dense sparse alpha)) in
  if 0 <? topK then truncate topK out else out.

(** ** Fusion: lemmas *)

(** The order of [score_less] on scores that are not NaN. *)
Definition score_order : RawResult -> RawResult -> bool :=
  less_then Score (flip_less sf_less) SourceKey str_ltb.

#[export] Instance score_order_weak : WeakOrder score_order.
Proof. apply less_then_order; [apply flip_less_order, sf_less_order|apply str_ltb_order]. Qed.

Lemma score_less_order a b :
  is_nan (Score a) = false -> is_nan (Score b) = false -> score_less a b = score_order a b.
Proof.
  intros Ha Hb. unfold score_less, score_order, less_then, flip_less, f_gtb.
  rewrite f_eqb_ties by done. fold (f_ltb (Score b) (Score a)).
  rewrite !f_ltb_less by done.
  destruct (sf_less (Score b) (Score a)) eqn:E; [by rewrite andb_false_r|].
  by destruct (sf_less (Score a) (Score b)).
Qed.

Definition scored (l : list RawResult) : Prop := Forall (fun r => is_nan (Score r) = false) l.

Lemma sort_scored l : scored l -> sort_by score_less l = sort_by score_order l.
Proof.
  intros Hs. unfold scored in Hs. rewrite Forall_forall in Hs.
  apply sort_by_ext. intros x y Hx Hy. apply score_less_order; auto.
Qed.

(** A result that is an input but for its scores. *)
Definition rescored (r0 r : RawResult) : Prop :=
  exists c k s, r = with_scores r0 c k s.

Lemma rescored_key r0 r : rescored r0 r -> SourceKey r = SourceKey r0.
Proof. by intros (c & k & s & ->). Qed.

Lemma rescored_trans r0 r1 r2 : rescored r0 r1 -> rescored r1 r2 -> rescored r0 r2.
Proof. intros (? & ? & ? & ->) (? & ? & ? & ->). by do 3 eexists. Qed.

(** A map of results, each under its own key and taken from [inputs]. *)
Definition from_inputs (inputs : list RawResult) (m : gmap string RawResult) : Prop :=
  forall k r, m !! k = Some r -> k = SourceKey r /\ exists r0, r0 ∈ inputs /\ rescored r0 r.

Lemma fuse_add_from alpha m r rank dense inputs :
  from_inputs inputs m -> r ∈ inputs -> from_inputs inputs (fuse_add alpha m r rank dense).
Proof.
  intros Hm Hr k r'. unfold fuse_add. intros Hk.
  destruct (decide (k = SourceKey r)) as [->|Hne]; [|rewrite lookup_insert_ne in Hk by done; by apply Hm].
  rewrite lookup_insert_eq in Hk. injection Hk as <-.
  destruct (m !! SourceKey r) as [item|] eqn:E.
  - destruct (Hm _ _ E) as (Ek & r0 & Hr0 & Hres). split; [done|]. exists r0. split; [done|].
    eapply rescored_trans; [exact Hres|]. by do 3 eexists.
  - split; [done|]. exists r. split; [done|]. by do 3 eexists.
Qed.

Lemma fuse_add_dom alpha m r rank dense k :
  is_Some (fuse_add alpha m r rank dense !! k) <-> k = SourceKey r \/ is_Some (m !! k).
Proof.
  unfold fuse_add. destruct (decide (k = SourceKey r)) as [->|Hne].
  - rewrite lookup_insert_eq. split; [by left|by eexists].
  - rewrite lookup_insert_ne by done. naive_solver.
Qed.

Lemma fuse_leg_from alpha dense rank results m inputs :
  from_inputs inputs m -> (forall r, r ∈ results -> r ∈ inputs) ->
  from_inputs inputs (fuse_leg alpha dense rank results m).
Proof.
  revert rank m. induction results as [|r results IH]; intros rank m Hm Hr; cbn [fuse_leg]; [done|].
  apply IH; [|intros; apply Hr; by right]. apply fuse_add_from; [done|apply Hr; by left].
Qed.

Lemma fuse_leg_dom alpha dense rank results m k :
  is_Some (fuse_leg alpha dense rank results m !! k) <-> k ∈ SourceKey <$> results \/ is_Some (m !! k).
Proof.
  revert rank m. induction results as [|r results IH]; intros rank m; cbn [fuse_leg]; csimpl.
  - rewrite elem_of_nil. tauto.
  - rewrite IH, fuse_add_dom, elem_of_cons. tauto.
Qed.

Lemma fuse_map_from dense sparse alpha : from_inputs (dense ++ sparse) (fuse_map dense sparse alpha).
Proof.
  unfold fuse_map. apply fuse_leg_from; [apply fuse_leg_from|].
  - intros k r Hk. by rewrite lookup_empty in Hk.
  - intros r Hr. apply elem_of_app. by left.
  - intros r Hr. apply elem_of_app. by right.
Qed.

Lemma fuse_map_dom dense sparse alpha k :
  is_Some (fuse_map dense sparse alpha !! k) <-> k ∈ SourceKey <$> (dense ++ sparse).
Proof.
  unfold fuse_map. rewrite !fuse_leg_dom, lookup_empty, fmap_app, elem_of_app.
  split; [intros [?|[?|[? ?]]]; [by right|by left|done]|intros [?|?]; auto].
Qed.

(** The values of a map, in an iteration order. *)
Definition iterates (iterate : gmap string RawResult -> list RawResult) : Prop :=
  forall m, iterate m ≡ₚ snd <$> map_to_list m.

Definition fused_values (dense sparse : list RawResult) (alpha : float64) : list RawResult :=
  snd <$> map_to_list (fuse_map dense sparse alpha).

Lemma fused_values_elem dense sparse alpha r :
  r ∈ fused_values dense sparse alpha <-> fuse_map dense sparse alpha !! SourceKey r = Some r.
Proof.
  unfold fused_values. rewrite list_elem_of_fmap. split.
  - intros ([k r'] & -> & Hin). apply elem_of_map_to_list in Hin. simpl.
    pose proof Hin as H. apply fuse_map_from in H as [<- _]. done.
  - intros H. exists (SourceKey r, r). split; [done|]. by apply elem_of_map_to_list.
Qed.

Lemma fused_values_keys dense sparse alpha : NoDup (SourceKey <$> fused_values dense sparse alpha).
Proof.
  unfold fused_values. rewrite <-list_fmap_compose.
  assert (E : (SourceKey ∘ snd) <$> map_to_list (fuse_map dense sparse alpha)
              = fst <$> map_to_list (fuse_map dense sparse alpha)).
  { apply list_fmap_ext. intros i [k r] Hi. apply list_elem_of_lookup_2, elem_of_map_to_list in Hi.
    simpl. by apply fuse_map_from in Hi as [-> _]. }
  rewrite E. apply NoDup_fst_map_to_list.
Qed.

Lemma scored_perm l l' : l ≡ₚ l' -> scored l -> scored l'.
Proof. intros Hp. unfold scored. by rewrite Hp. Qed.

Lemma truncate_sublist {A} limit (l : list A) : truncate limit l `sublist_of` l.
Proof. unfold truncate. case_match; [apply sublist_take|done]. Qed.

Lemma truncate_length {A} limit (l : list A) :
  0 <= limit -> Z.of_nat (length (truncate limit l)) <= limit.
Proof. intros H. unfold truncate. case_match; reflect_Z; [rewrite length_take|]; lia. Qed.

Lemma Fuse_elem iterate dense sparse topK alpha r :
  iterates iterate -> r ∈ Fuse iterate dense sparse topK alpha -> r ∈ fused_values dense sparse alpha.
Proof.
  intros Hi Hr. unfold Fuse in Hr. unfold fused_values. rewrite <-(Hi (fuse_map dense sparse alpha)).
  rewrite <-(sort_by_elem score_less). destruct (0 <? topK); [|done].
  by eapply sublist_subseteq; [apply truncate_sublist|].
Qed.

Lemma sort_scored_unique l l' :
  l ≡ₚ l' -> scored l -> NoDup (SourceKey <$> l) -> sort_by score_less l = sort_by score_less l'.
Proof.
  intros Hp Hs Hnd. rewrite !sort_scored by (try done; by eapply scored_perm).
  apply sort_by_unique; [apply _|done|]. intros a b Ha Hb H1 H2.
  assert (Ek : SourceKey a = SourceKey b).
  { unfold before, score_order, less_then in H1, H2.
    destruct (flip_less sf_less (Score b) (Score a)); [done|].
    destruct (flip_less sf_less (Score a) (Score b)); [done|]. by apply str_ltb_total. }
  apply list_elem_of_lookup_1 in Ha as [i Hi]. apply list_elem_of_lookup_1 in Hb as [j Hj].
  assert (i = j) as ->; [|congruence].
  apply (NoDup_lookup (SourceKey <$> l) i j (SourceKey a)); [done| |].
  - by rewrite list_lookup_fmap, Hi.
  - by rewrite list_lookup_fmap, Hj, Ek.
Qed.

(** ** The two scopes *)

(** A row as scanResult fills the scoped fields from it. *)
Record scanned (d : document) (r : RawResult) : Prop := {
  scan_source_mac : SourceMAC r = coalesce (c_source_mac d);
  scan_location : LocationID r = coalesce (c_location_id d);
  scan_sensor : SensorID r = coalesce (c_sensor_id d);
  scan_observed : ObservedAt r = c_observed_at d;
  scan_bssid : BSSID r = coalesce (c_bssid d);
  scan_ssid : SSID r = coalesce (c_ssid d);
  scan_subtype : FrameSubtype r = coalesce (c_frame_subtype d);
  scan_tags : ResultTags r = TagsFromJSON (c_tags d);
  scan_flags : securityFlags r = default 0 (c_security_flags d);
  scan_handshake : handshakeCaptured r = default false (c_handshake_captured d);
  scan_host : ResultHost r = coalesce (c_host d);
  scan_blocked : ResultBlocked r = c_blocked d;
  scan_event_type : ProxyEventType r = coalesce (c_proxy_event_type d);
  scan_device : ProxyDeviceID r = coalesce (c_proxy_device_id d);
  scan_classification : Classification r = coalesce (c_classification d);
}.

(** Stored text is padded by spaces at most, and BSSIDs are stored in lower case. *)
Definition space_padded (s : string) : Prop := btrim s = TrimSpace s.

Record stored_normally (d : document) : Prop := {
  stored_columns c : space_padded (coalesce (column_value c d));
  stored_tags t : t ∈ c_tags d -> space_padded t;
  stored_bssid b : c_bssid d = Some b -> ToLower b = b;
}.

Definition no_blanks (values : list string) : Prop := forall v, v ∈ values -> TrimSpace v <> "".

(** A filter without the values on which the two scopes are known to differ. *)
Record plain_filters (f : SearchFilters) : Prop := {
  plain_lists : Forall no_blanks [LocationIds f; SensorIds f; FrameSubtypes f; EventTypes f;
                                  ProxyDeviceIds f; Classifications f];
  plain_bssid : Bssid f <> "" -> TrimSpace (Bssid f) <> "";
  plain_entity : EntityQuery f = "";
}.

Lemma ToLower_empty s : ToLower s = "" -> s = "".
Proof. by destruct s. Qed.

Lemma norm_empty v : norm v = "" <-> TrimSpace v = "".
Proof. unfold norm. split; [apply ToLower_empty|by intros ->]. Qed.

Lemma ContainsFold_true values v :
  ContainsFold values v = true <-> exists c, c ∈ values /\ norm c = norm v.
Proof.
  unfold ContainsFold. rewrite existsb_exists. setoid_rewrite <-list_elem_of_In.
  by setoid_rewrite EqualFold_spec.
Qed.

(** A list filter: fold membership is membership of the normal list. *)
Lemma list_scope dn col d values v :
  space_padded (coalesce (column_value col d)) -> no_blanks values ->
  v = coalesce (column_value col d) ->
  matchesFoldList v values
  = forallb (clause_holds dn d) (list_clause col values).
Proof.
  intros Hp Hb ->. unfold list_clause.
  assert (Hk : column_key col d = norm (coalesce (column_value col d))).
  { unfold column_key, norm. by rewrite Hp. }
  destruct values as [|v0 values]; [done|].
  assert (Hne : NormalizeLowerList (v0 :: values) <> []).
  { intros E. assert (H : norm v0 ∈ NormalizeLowerList (v0 :: values)).
    { apply NormalizeLowerList_elem. split; [|exists v0; split; [by left|done]].
      rewrite norm_empty. apply Hb. by left. }
    rewrite E in H. by apply elem_of_nil in H. }
  unfold matchesFoldList. apply eq_true_iff_eq. rewrite ContainsFold_true.
  destruct (NormalizeLowerList (v0 :: values)) as [|x xs] eqn:El; [done|]. rewrite <-El.
  cbn [forallb clause_holds]. rewrite andb_true_r, bool_decide_eq_true, NormalizeLowerList_elem, Hk.
  split.
  - intros (c & Hc & E). rewrite <-E. split; [|by exists c]. rewrite norm_empty. by apply Hb.
  - intros (_ & c & Hc & E). by exists c.
Qed.

Lemma mac_scope dn d f v :
  space_padded (coalesce (c_source_mac d)) -> v = coalesce (c_source_mac d) ->
  (bool_decide (FilterSourceMACs f = []) || ContainsFold (FilterSourceMACs f) v)
  = forallb (clause_holds dn d) (list_clause source_mac (FilterSourceMACs f)).
Proof.
  intros Hp ->. unfold list_clause, FilterSourceMACs. rewrite NormalizeLowerList_idem.
  set (l := SourceMac f :: SourceMacs f). apply eq_true_iff_eq. rewrite orb_true_iff, bool_decide_eq_true.
  destruct (NormalizeLowerList l) as [|x xs] eqn:El; [naive_solver|]. rewrite <-El.
  assert (Hne : NormalizeLowerList l <> []) by congruence.
  cbn [forallb clause_holds column_key column_value]. rewrite andb_true_r, bool_decide_eq_true, ContainsFold_true.
  unfold column_key. cbn [column_value]. rewrite Hp. fold (norm (coalesce (c_source_mac d))). split.
  - intros [?|(c & Hc & <-)]; [done|]. apply NormalizeLowerList_elem in Hc as (Hx & v & Hv & ->).
    rewrite norm_idem. apply NormalizeLowerList_elem. split; [done|by exists v].
  - intros H. right. exists (norm (coalesce (c_source_mac d))). split; [done|]. apply norm_idem.
Qed.

Lemma bssid_scope dn d f :
  (forall b, c_bssid d = Some b -> ToLower b = b) -> (Bssid f <> "" -> TrimSpace (Bssid f) <> "") ->
  negb (negb (is_empty (Bssid f)) && negb (EqualFold (coalesce (c_bssid d)) (TrimSpace (Bssid f))))
  = forallb (clause_holds dn d)
      (if is_empty (Bssid f) then [] else [BssidIs (ToLower (TrimSpace (Bssid f)))]).
Proof.
  intros Hd Hf. destruct (is_empty (Bssid f)) eqn:E; [done|]. simpl. rewrite andb_true_r, negb_involutive.
  assert (Hne : ToLower (TrimSpace (Bssid f)) <> "").
  { intros H. apply ToLower_empty in H. apply Hf in H; [done|]. intros H'. by rewrite H' in E. }
  apply eq_true_iff_eq. rewrite EqualFold_spec. destruct (c_bssid d) as [b|] eqn:Eb; simpl.
  - rewrite (Hd b eq_refl), String.eqb_eq. done.
  - split; [intros H; by rewrite <-H in Hne|done].
Qed.

Lemma ap_scope dn d f :
  negb (ObservedApContextOnly f
        && (bool_decide (c_observed_at d = None) || negb (MacPattern (coalesce (c_source_mac d)))
            || negb (MacPattern (coalesce (c_bssid d)))
            || String.eqb (coalesce (c_source_mac d)) (coalesce (c_bssid d))
            || String.eqb (coalesce (c_source_mac d)) "ff:ff:ff:ff:ff:ff"
            || String.eqb (coalesce (c_source_mac d)) "00:00:00:00:00:00"
            || String.eqb (coalesce (c_bssid d)) "ff:ff:ff:ff:ff:ff"
            || String.eqb (coalesce (c_bssid d)) "00:00:00:00:00:00"))
  = forallb (clause_holds dn d) (if ObservedApContextOnly f then [QualifyingAP] else []).
Proof.
  destruct (ObservedApContextOnly f); [|done]. cbn [forallb clause_holds]. rewrite andb_true_r.
  assert (Hres : forall s, bool_decide (s ∉ reserved_macs)
    = negb (String.eqb s "ff:ff:ff:ff:ff:ff") && negb (String.eqb s "00:00:00:00:00:00")).
  { intros s. apply eq_true_iff_eq. rewrite bool_decide_eq_true, andb_true_iff, !negb_true_iff, !String.eqb_neq.
    unfold reserved_macs. rewrite !not_elem_of_cons. pose proof (not_elem_of_nil s). tauto. }
  destruct (c_source_mac d) as [sm|]; simpl; [|by rewrite orb_true_r].
  destruct (c_bssid d) as [b|]; simpl; [|by destruct (bool_decide _), (MacPattern sm)].
  unfold qualifying_ap. rewrite !Hres.
  destruct (c_observed_at d); simpl; [|done].
  destruct (MacPattern sm), (MacPattern b), (String.eqb sm b); simpl; try done;
    repeat (destruct (String.eqb _ _); simpl; try done).
Qed.

Lemma strpos_scope dn d col v :
  negb (negb (is_empty (TrimSpace v))
        && negb (Contains (ToLower (coalesce (column_value col d))) (ToLower (TrimSpace v))))
  = forallb (clause_holds dn d) (strpos_clause col v).
Proof.
  unfold strpos_clause. destruct (is_empty (TrimSpace v)); [done|]. simpl.
  by rewrite negb_involutive, andb_true_r.
Qed.

Lemma tags_scope dn d required :
  (forall t, t ∈ c_tags d -> space_padded t) ->
  forallb (fun v => ContainsFold (TagsFromJSON (c_tags d)) v) (NormalizeLowerList required)
  = forallb (clause_holds dn d) (HasTag <$> NormalizeLowerList required).
Proof.
  intros Hp. assert (H : forall v, v ∈ NormalizeLowerList required ->
    ContainsFold (TagsFromJSON (c_tags d)) v = clause_holds dn d (HasTag v)).
  { intros v Hv. apply NormalizeLowerList_elem in Hv as (Hne & v0 & _ & ->). apply eq_true_iff_eq.
    rewrite ContainsFold_true. cbn [clause_holds]. rewrite existsb_exists. split.
    - intros (c & Hc & E). apply TagsFromJSON_elem in Hc as (_ & t & Ht & ->).
      exists t. split; [by apply list_elem_of_In|]. apply String.eqb_eq. rewrite (Hp t Ht).
      rewrite norm_idem in E. unfold norm in E at 1. by rewrite TrimSpace_idem in E.
    - intros (t & Ht & E). apply list_elem_of_In in Ht. apply String.eqb_eq in E. rewrite (Hp t Ht) in E.
      exists (TrimSpace t). split; [|unfold norm at 1; rewrite TrimSpace_idem, norm_idem; done].
      apply TagsFromJSON_elem. split; [|by exists t]. intros E'. rewrite E' in E. by symmetry in E. }
  induction (NormalizeLowerList required) as [|v l IH]; [done|]. csimpl.
  rewrite H by by left. f_equal. apply IH. intros v' Hv'. apply H. by right.
Qed.

Lemma threat_scope d :
  (forall t, t ∈ c_tags d -> space_padded t) ->
  hasThreatTag (TagsFromJSON (c_tags d)) = existsb (fun t => threat_tag (ToLower (btrim t))) (c_tags d).
Proof.
  intros Hp. apply eq_true_iff_eq. unfold hasThreatTag. rewrite !existsb_exists.
  setoid_rewrite <-list_elem_of_In. split.
  - intros (x & Hx & Ht). apply TagsFromJSON_elem in Hx as (_ & t & Hin & ->).
    exists t. split; [done|]. rewrite (Hp t Hin). by rewrite TrimSpace_idem in Ht.
  - intros (t & Hin & Ht). rewrite (Hp t Hin) in Ht. exists (TrimSpace t). rewrite TrimSpace_idem.
    split; [|done]. apply TagsFromJSON_elem. split; [|by exists t]. intros E. by rewrite E in Ht.
Qed.

Lemma if_false_and (c b : bool) : (if c then false else b) = negb c && b.
Proof. by destruct c. Qed.

Lemma blocked_scope dn d f :
  forallb (clause_holds dn d) match Blocked f with Some b => [BlockedIs b] | None => [] end
  = negb match Blocked f with
         | Some b => match c_blocked d with Some b' => negb (Bool.eqb b' b) | None => true end
         | None => false
         end.
Proof.
  destruct (Blocked f) as [b|]; [|done]. simpl.
  destruct (c_blocked d) as [b'|]; [|done]. simpl. by destruct b, b'.
Qed.

Lemma after_scope dn d f :
  forallb (clause_holds dn d) match ObservedAfter f with Some t => [ObservedFrom t] | None => [] end
  = negb match ObservedAfter f with
         | Some t => match c_observed_at d with Some o => o <? t | None => true end
         | None => false
         end.
Proof.
  destruct (ObservedAfter f) as [t|]; [|done]. simpl. destruct (c_observed_at d) as [o|]; [|done].
  simpl. rewrite andb_true_r. destruct (Z.leb_spec t o), (Z.ltb_spec o t); simpl; lia || done.
Qed.

Lemma before_scope dn d f :
  forallb (clause_holds dn d) match ObservedBefore f with Some t => [ObservedUntil t] | None => [] end
  = negb match ObservedBefore f with
         | Some t => match c_observed_at d with Some o => negb (o <? t) | None => true end
         | None => false
         end.
Proof.
  destruct (ObservedBefore f) as [t|]; [|done]. simpl. destruct (c_observed_at d) as [o|]; [|done].
  simpl. by rewrite andb_true_r, negb_involutive.
Qed.

Lemma flags_scope dn d f :
  forallb (clause_holds dn d) (if SecurityFlagsMask f =? 0 then [] else [FlagsIntersect (SecurityFlagsMask f)])
  = (SecurityFlagsMask f =? 0)
    || negb (Z.land (default 0 (c_security_flags d)) (SecurityFlagsMask f) =? 0).
Proof.
  destruct (SecurityFlagsMask f =? 0); [done|]. simpl. rewrite andb_true_r.
  by destruct (c_security_flags d).
Qed.

Lemma handshake_scope dn d f :
  forallb (clause_holds dn d) (if HandshakeOnly f then [HandshakeCaptured] else [])
  = negb (HandshakeOnly f) || default false (c_handshake_captured d).
Proof.
  destruct (HandshakeOnly f); [|done]. simpl. rewrite andb_true_r. by destruct (c_handshake_captured d).
Qed.

Lemma threat_only_scope dn d f :
  forallb (clause_holds dn d) (if ThreatOnly f then [Threatening] else [])
  = negb (ThreatOnly f) || default false (c_handshake_captured d)
    || existsb (fun t => threat_tag (ToLower (btrim t))) (c_tags d).
Proof.
  destruct (ThreatOnly f); [|done]. simpl. rewrite andb_true_r. by destruct (c_handshake_captured d).
Qed.

(** The SQL clauses and the early returns agree, one by one. *)
Lemma scopes_agree dn d r f :
  scanned d r -> stored_normally d -> plain_filters f ->
  in_document_scope dn f d = resultMatchesFilters r (Some f).
Proof.
  intros [] [Hcol Htag Hbssid] [Hlists Hb He].
  rewrite !Forall_cons in Hlists. destruct Hlists as (L1 & L2 & L3 & L4 & L5 & L6 & _).
  unfold in_document_scope, scope_clauses, resultMatchesFilters. rewrite !forallb_app, !if_false_and.
  rewrite scan_bssid0, scan_source_mac0, scan_observed0, scan_ssid0, scan_host0.
  rewrite (list_scope dn location_id d _ _ (Hcol location_id) L1 scan_location0).
  rewrite (list_scope dn sensor_id d _ _ (Hcol sensor_id) L2 scan_sensor0).
  rewrite (list_scope dn frame_subtype d _ _ (Hcol frame_subtype) L3 scan_subtype0).
  rewrite (list_scope dn proxy_event_type d _ _ (Hcol proxy_event_type) L4 scan_event_type0).
  rewrite (list_scope dn proxy_device_id d _ _ (Hcol proxy_device_id) L5 scan_device0).
  rewrite (list_scope dn classification d _ _ (Hcol classification) L6 scan_classification0).
  rewrite (bssid_scope dn d f Hbssid Hb), ap_scope with (dn := dn).
  rewrite (strpos_scope dn d ssid), (strpos_scope dn d host).
  rewrite scan_tags0, (tags_scope dn d _ Htag), (threat_scope d Htag).
  rewrite He.
  assert (Hmac := mac_scope dn d f _ (Hcol source_mac) eq_refl).
  rewrite !negb_orb, !negb_andb, !negb_involutive. cbn [column_value] in Hmac.
  rewrite Hmac. clear Hmac.
  rewrite blocked_scope, after_scope, before_scope, flags_scope, handshake_scope, threat_only_scope.
  rewrite scan_blocked0, scan_flags0, scan_handshake0. simpl.
  rewrite ?andb_true_r, ?andb_true_l, <-?andb_assoc. btauto.
Qed.

(** One scope, two implementations.  On a row scanned from a document whose
    text is stored normally, and for filters without blank list values, a blank
    BSSID or an entity query, the SQL predicates hold of the document exactly
    when the in-memory filter accepts the row: nothing that passes the one is
    lost to the other. *)
Theorem scope_agreement dn d r f :
  scanned d r -> stored_normally d -> plain_filters f ->
  in_document_scope dn f d = resultMatchesFilters r (Some f).
Proof. apply scopes_agree. Qed.

(** A list filter with only blank entries is no constraint in SQL but rejects
    every located record in memory, so such a search spends its retrieval
    budget on rows it then drops. *)
Definition blank_location_filter : SearchFilters := {|
  LocationIds := [" "]; SensorIds := []; SourceMac := ""; SourceMacs := []; Bssid := "";
  ObservedApContextOnly := false; EntityQuery := ""; FrameSubtypes := []; EventTypes := [];
  ProxyDeviceIds := []; Classifications := []; Ssid := ""; Host := ""; Blocked := None;
  ObservedAfter := None; ObservedBefore := None; SecurityFlagsMask := 0; HandshakeOnly := false;
  ThreatOnly := false; Tags := [] |}.

Theorem blank_list_scopes_differ dn d r :
  scanned d r -> TrimSpace (LocationID r) <> "" ->
  in_document_scope dn blank_location_filter d = true /\
  resultMatchesFilters r (Some blank_location_filter) = false.
Proof.
  intros _ Hl. split; [done|]. unfold resultMatchesFilters.
  assert (E : ContainsFold [" "] (LocationID r) = false).
  2:{ change (matchesFoldList (LocationID r) (LocationIds blank_location_filter))
        with (ContainsFold [" "] (LocationID r)). by rewrite E. }
  destruct (ContainsFold [" "] (LocationID r)) eqn:E; [|done]. exfalso.
  apply ContainsFold_true in E as (c & Hc & E). apply list_elem_of_singleton in Hc as ->.
  apply Hl, norm_empty. by rewrite <-E.
Qed.

(** Fusion.  With scores that are numbers, the fused list does not depend on
    the iteration order of the map: it is the [topK] best of all records of
    either leg, each once and otherwise unchanged, by falling score and then by
    key, and no left-out record precedes a kept one. *)
Theorem fuse_deterministic iterate dense sparse topK alpha :
  iterates iterate -> scored (fused_values dense sparse alpha) ->
  let out := Fuse iterate dense sparse topK alpha in
  (forall iterate', iterates iterate' -> Fuse iterate' dense sparse topK alpha = out) /\
  NoDup (SourceKey <$> out) /\
  StronglySorted (before score_order) out /\
  (0 < topK -> Z.of_nat (length out) <= topK) /\
  (forall r, r ∈ out -> exists r0, r0 ∈ dense ++ sparse /\ rescored r0 r) /\
  (forall r0, r0 ∈ dense ++ sparse -> exists r,
     SourceKey r = SourceKey r0 /\ r ∈ fused_values dense sparse alpha /\
     (r ∈ out \/ Z.of_nat (length out) = topK /\ forall r', r' ∈ out -> before score_order r' r)).
Proof.
  intros Hi Hs out. set (vals := fused_values dense sparse alpha) in *.
  pose proof (Hi (fuse_map dense sparse alpha)) as Hp. fold vals in Hp.
  assert (Hall : sort_by score_less (iterate (fuse_map dense sparse alpha)) = sort_by score_order vals).
  { rewrite <-sort_scored by done. symmetry. apply sort_scored_unique; [by symmetry|done|].
    apply fused_values_keys. }
  assert (Hout : out = if 0 <? topK then truncate topK (sort_by score_order vals)
                       else sort_by score_order vals) by (unfold out, Fuse; by rewrite Hall).
  assert (Hsub : out `sublist_of` sort_by score_order vals).
  { rewrite Hout. case_match; [apply truncate_sublist|done]. }
  split; [|split; [|split; [|split; [|split]]]].
  - intros iterate' Hi'. unfold out, Fuse.
    pose proof (Hi' (fuse_map dense sparse alpha)) as Hp'. fold vals in Hp'.
    rewrite (sort_scored_unique (iterate' (fuse_map dense sparse alpha)) (iterate (fuse_map dense sparse alpha)));
      [done|by rewrite Hp, Hp'|by eapply scored_perm; [symmetry; exact Hp'|]|].
    rewrite Hp'. apply fused_values_keys.
  - eapply sublist_NoDup; [|by apply fmap_sublist]. rewrite sort_by_perm. apply fused_values_keys.
  - pose proof (sort_by_sorted score_order vals) as Hsort. rewrite Hout.
    destruct (0 <? topK); [|done]. unfold truncate. case_match; [|done].
    rewrite <-(take_drop (Z.to_nat topK)) in Hsort. by apply StronglySorted_app in Hsort as (_ & ? & _).
  - intros Hk. rewrite Hout, (proj2 (Z.ltb_lt _ _) Hk). apply truncate_length. lia.
  - intros r Hr. eapply sublist_subseteq in Hr; [|exact Hsub]. apply sort_by_elem, fused_values_elem in Hr.
    by apply fuse_map_from in Hr as [_ ?].
  - intros r0 Hr0. destruct (proj2 (fuse_map_dom dense sparse alpha (SourceKey r0))) as [r Hr];
      [by apply list_elem_of_fmap_2|].
    pose proof Hr as Hk. apply fuse_map_from in Hk as [Hk _]. exists r. split; [done|].
    assert (Hv : r ∈ vals) by (apply fused_values_elem; by rewrite <-Hk). split; [done|].
    rewrite Hout. apply (sort_by_elem score_order) in Hv.
    destruct (Z.ltb_spec 0 topK) as [Hpos|]; [|by left]. unfold truncate.
    destruct (Z.ltb_spec topK (Z.of_nat (length (sort_by score_order vals)))); [|by left].
    rewrite <-(take_drop (Z.to_nat topK)) in Hv. apply elem_of_app in Hv as [Hv|Hv]; [by left|right].
    split; [rewrite length_take; lia|]. intros r' Hr'. exact (sort_by_take_before score_order vals _ _ _ Hr' Hv).
Qed.

(** ** Witnesses *)

Definition sample_result (key : string) (cosine keyword : float32) : RawResult := {|
  SourceKey := key; SourceTable := ""; SourceKind := "event"; SourceMAC := "aa:bb"; LocationID := "lab";
  SensorID := ""; ObservedAt := Some 100; BSSID := ""; SSID := "Lab Network"; FrameSubtype := "";
  CosineSimilarity := cosine; KeywordRank := keyword; Score := f_zero;
  ThreatBoost := f_zero; SequenceLogProb := f_zero; BoostReasons := [];
  ResultTags := ["threat:rogue"]; DetailJSON := "{}";
  ResultHost := ""; ResultBlocked := None; ProxyEventType := ""; ProxyDeviceID := "";
  WindowStart := None; WindowEnd := None; Classification := ""; securityFlags := 0;
  handshakeCaptured := false |}.

Definition sample_dense : list RawResult :=
  [sample_result "a" (f32_of_Z 1) f_zero; sample_result "b" (f32_of_Z 1) f_zero].
Definition sample_sparse : list RawResult :=
  [sample_result "b" f_zero (f32_of_Z 2); sample_result "c" f_zero (f32_of_Z 1)].
Definition half : float64 := f64_div (f64_of_Z 1) (f64_of_Z 2).

Definition map_values (m : gmap string RawResult) : list RawResult := snd <$> map_to_list m.

Lemma fuse_deterministic_witness :
  scored (fused_values sample_dense sample_sparse half) /\
  SourceKey <$> Fuse (fun m => rev (map_values m)) sample_dense sample_sparse 10 half = ["b"; "a"; "c"].
Proof.
  assert (Hs : scored (fused_values sample_dense sample_sparse half)).
  { unfold scored. vm_compute. repeat constructor. }
  split; [exact Hs|].
  rewrite (proj1 (fuse_deterministic map_values sample_dense sample_sparse 10 half
    (fun m => reflexivity _) Hs) (fun m => rev (map_values m))).
  - vm_compute. reflexivity.
  - intros m. symmetry. apply Permutation_rev.
Defined.

Definition sample_document : document := {|
  c_location_id := Some "Lab "; c_sensor_id := None; c_source_mac := Some "aa:bb"; c_bssid := None;
  c_ssid := Some "Lab Network"; c_host := None; c_frame_subtype := None; c_proxy_event_type := None;
  c_proxy_device_id := None; c_classification := None; c_blocked := None; c_observed_at := Some 100;
  c_security_flags := None; c_handshake_captured := None; c_tags := ["threat:rogue"] |}.

Definition sample_row : RawResult := {|
  SourceKey := "a"; SourceTable := ""; SourceKind := "event"; SourceMAC := "aa:bb"; LocationID := "Lab ";
  SensorID := ""; ObservedAt := Some 100; BSSID := ""; SSID := "Lab Network"; FrameSubtype := "";
  CosineSimilarity := f_zero; KeywordRank := f_zero; Score := f_zero;
  ThreatBoost := f_zero; SequenceLogProb := f_zero; BoostReasons := [];
  ResultTags := ["threat:rogue"]; DetailJSON := "{}";
  ResultHost := ""; ResultBlocked := None; ProxyEventType := ""; ProxyDeviceID := "";
  WindowStart := None; WindowEnd := None; Classification := ""; securityFlags := 0;
  handshakeCaptured := false |}.

Definition sample_filters : SearchFilters := {|
  LocationIds := ["LAB"]; SensorIds := []; SourceMac := "AA:BB"; SourceMacs := []; Bssid := "";
  ObservedApContextOnly := false; EntityQuery := ""; FrameSubtypes := []; EventTypes := [];
  ProxyDeviceIds := []; Classifications := []; Ssid := "network"; Host := ""; Blocked := None;
  ObservedAfter := Some 100; ObservedBefore := Some 101; SecurityFlagsMask := 0; HandshakeOnly := false;
  ThreatOnly := true; Tags := ["Threat:Rogue"] |}.

Lemma sample_scanned : scanned sample_document sample_row.
Proof. split; vm_compute; reflexivity. Qed.

Lemma sample_stored : stored_normally sample_document.
Proof.
  split.
  - intros []; vm_compute; reflexivity.
  - intros t Ht. apply list_elem_of_singleton in Ht as ->. vm_compute. reflexivity.
  - done.
Qed.

Lemma sample_plain : plain_filters sample_filters.
Proof.
  split; [|done|done].
  repeat constructor; intros v Hv; try (by apply elem_of_nil in Hv).
  apply list_elem_of_singleton in Hv as ->. vm_compute. discriminate.
Qed.

Lemma scope_agreement_witness :
  in_document_scope (fun _ => None) sample_filters sample_document
  = resultMatchesFilters sample_row (Some sample_filters) /\
  resultMatchesFilters sample_row (Some sample_filters) = true.
Proof.
  split; [|vm_compute; reflexivity].
  exact (scope_agreement (fun _ => None) sample_document sample_row sample_filters
    sample_scanned sample_stored sample_plain).
Defined.

Lemma blank_list_scopes_differ_witness :
  resultMatchesFilters sample_row (Some blank_location_filter) = false.
Proof.
  exact (proj2 (blank_list_scopes_differ (fun _ => None) sample_document sample_row
    sample_scanned ltac:(vm_compute; discriminate))).
Defined.
