(* ===== verification/SearchService.v ===== *)
(** * The search flow (internal/search: service.go, dense.go, sparse.go, fallback.go, suggest.go)

    One search embeds the query, ranks records by vectors and by keywords,
    fuses the two and cuts the list.  PostgreSQL's answers to the retrieval
    statements are the [Retrieval] interface; scoring inside them (vector
    distance, text rank) is its business, what the service does with the rows
    is modelled here. *)

From S2P Require Import Prelude GoErrors GoStrings GoSort GoFloats EmbedClient QueryScope SearchResults.
From Stdlib Require Import Sorted.

(** ** Errors (apperror, fallback.go) *)

Definition FallbackBackendUnavailable := "embedding_backend_unavailable".
Definition FallbackCapacityExhausted := "embedding_capacity_exhausted".
Definition FallbackInvalidResponse := "embedding_invalid_response".
Definition FallbackNoEmbeddingCoverage := "no_embedding_coverage".
Definition FallbackDenseQueryFailed := "dense_query_failed".

Definition msgBackendUnavailable := "semantic backend unavailable".
Definition msgCapacityExhausted := "semantic backend capacity exhausted".
Definition msgInvalidResponse := "semantic backend returned an unusable response".
Definition msgDenseQueryFailed := "dense vector query failed".

(** semanticFallbackCode: the public code and message of an embedding failure. *)
Definition semanticFallbackCode (err : error) : string * string :=
  if errors_Is err ErrCapacityExhausted then (FallbackCapacityExhausted, msgCapacityExhausted)
  else if errors_Is err ErrInvalidResponse then (FallbackInvalidResponse, msgInvalidResponse)
  else (FallbackBackendUnavailable, msgBackendUnavailable).

Definition semanticRetryAt (err : error) : time := default time_zero (RetryTime err).

Definition Unavailable (err : error) : app_error :=
  let '(code, message) := semanticFallbackCode err in
  UnavailableError code (semanticRetryAt err) message.

Definition searchLegFailure (ctxErr : option error) (err : error) : app_error :=
  if bool_decide (is_Some ctxErr) then Plain err
  else if errors_Is err ErrInvalidRequest || errors_Is err ErrOversizedInput then Plain err
  else Unavailable err.

(** ** Kinds and modes *)

Inductive SearchKind :=
| KIND_UNSPECIFIED | KIND_EVENT | KIND_BEHAVIOUR | KIND_SEQUENCE | KIND_DEVICE
| KIND_PROXY_EVENT | KIND_PROXY_BLOCKED_HOST_WINDOW | KIND_CROSS | KIND_UNKNOWN (n : Z).

Inductive SearchMode := MODE_UNSPECIFIED | MODE_DENSE | MODE_SPARSE | MODE_HYBRID | MODE_UNKNOWN (n : Z).

#[export] Instance SearchMode_eq_dec : EqDecision SearchMode.
Proof. solve_decision. Defined.

Definition requestKinds (k : SearchKind) : list string + app_error :=
  match k with
  | KIND_UNSPECIFIED | KIND_EVENT => inl ["event"]
  | KIND_BEHAVIOUR => inr (Validation "behaviour search has been retired")
  | KIND_SEQUENCE => inr (Validation "sequence search has been retired")
  | KIND_DEVICE => inl ["device"]
  | KIND_PROXY_EVENT => inl ["proxy_event"]
  | KIND_PROXY_BLOCKED_HOST_WINDOW => inl ["proxy_blocked_host_window"]
  | KIND_CROSS => inl ["event"; "device"; "proxy_event"; "proxy_blocked_host_window"]
  | KIND_UNKNOWN _ => inr (Validation "unsupported search kind")
  end.

Definition responseKind (k : SearchKind) : string :=
  match k with
  | KIND_BEHAVIOUR | KIND_SEQUENCE => "retired"
  | KIND_DEVICE => "device"
  | KIND_PROXY_EVENT => "proxy_event"
  | KIND_PROXY_BLOCKED_HOST_WINDOW => "proxy_blocked_host_window"
  | KIND_CROSS => "cross"
  | _ => "event"
  end.

Definition normalizeMode (m : SearchMode) : SearchMode :=
  match m with MODE_UNSPECIFIED => MODE_HYBRID | m => m end.

Definition modeName (m : SearchMode) : string :=
  match m with
  | MODE_DENSE => "dense" | MODE_SPARSE => "sparse" | MODE_HYBRID => "hybrid" | _ => "unspecified"
  end.

Definition supportedSearchKinds : list string :=
  ["event"; "device"; "proxy_event"; "proxy_blocked_host_window"; "device_profile"; "ap_profile";
   "identity_summary"; "observation_window"].

Definition embeddingKindForSourceKind (k : string) : string :=
  if existsb (String.eqb k) ["proxy_event"; "proxy_blocked_host_window"] then "event"
  else if existsb (String.eqb k) ["device_profile"; "ap_profile"; "identity_summary"] then "device"
  else if String.eqb k "observation_window" then "behaviour"
  else k.

(** The characters [" \t\n\r*%"]. *)
Definition query_noise : string :=
  of_bytes (ascii_of_nat <$> [32%nat; 9%nat; 10%nat; 13%nat; 42%nat; 37%nat]).

Definition hasMeaningfulSearchTerms (query : string) : bool :=
  negb (is_empty (Trim query query_noise)).

Definition isWildcardAllSearch (query : string) : bool :=
  let trimmed := TrimSpace query in
  negb (is_empty trimmed) && is_empty (Trim trimmed query_noise).

(** config.ClampTopK *)
Definition ClampTopK (v : Z) : Z := if v <=? 0 then 10 else if 100 <? v then 100 else v.

Definition rerankCandidateLimit (topK : Z) : Z := if topK <=? 0 then 0 else topK * 4.

(** text_builder.go BuildQueryText *)
Definition BuildQueryText (query kind : string) : string :=
  let query := TrimSpace query in
  if is_empty query then "kind: " +:+ kind +:+ newline +:+ "query:"
  else "kind: " +:+ kind +:+ newline +:+ "query: " +:+ query.

(** ** Retrieval *)

Record Options := {
  InputRevision : string;
  TopK : Z;
  MinSimilarity : float32;
  Kinds : list string;
  Filters : option SearchFilters;
  OverfetchFactor : Z;
}.

(** The retrieval statements, in the database's order and at most [limit] rows. *)
Class Retrieval := {
  dense_rows (qvec : list float32) (model kind revision : string)
    (filters : option SearchFilters) (limit : Z) : list RawResult + error;
  sparse_rows (query kind : string) (filters : option SearchFilters) (limit : Z) : list RawResult + error;
  wildcard_rows (kind : string) (filters : option SearchFilters) (limit : Z) : list RawResult + error;
  embedding_count (kind : string) : Z + error;
}.

(** The calls a search makes under searchCtx, its one deadline: the embedding, and
    the statements for each kind. *)
Inductive search_call := EmbedCall | DenseCall (kind : string) | CoverageCall (kind : string) | SparseCall (kind : string).

(** A call under a context that is done by the time it ends fails with the
    context's error. *)
Definition within {A} (ctxErr : option error) (answer : A + error) : A + error :=
  match ctxErr with Some err => inr err | None => answer end.

(** A context that outlives the search. *)
Definition open_ctx (call : search_call) : option error := None.

Section retrieval.
Context {R : Retrieval}.
(** searchCtx.Err() as each call ends. *)
Context (ctx : search_call -> option error).

Definition dense_overfetch (o : Options) : Z :=
  let overfetch := wrap64 (TopK o * OverfetchFactor o) in
  let overfetch := if overfetch <? TopK o then TopK o else overfetch in
  if 5000 <? overfetch then 5000 else overfetch.

Definition sparse_overfetch (o : Options) : Z :=
  let overfetch := wrap64 (TopK o * OverfetchFactor o) in
  let overfetch := if overfetch <? TopK o * 4 then TopK o * 4 else overfetch in
  if 5000 <? overfetch then 5000 else overfetch.

(** The row loops of denseKind and scanSparseRows: skip, score, stop at the cap. *)
Fixpoint scan_loop (keep : RawResult -> bool) (score : RawResult -> float32) (cap n : Z)
    (rows : list RawResult) : list RawResult :=
  match rows with
  | [] => []
  | r :: rows =>
      if negb (keep r) then scan_loop keep score cap n rows
      else
        let r := with_scores r (CosineSimilarity r) (KeywordRank r) (score r) in
        if cap <=? n + 1 then [r] else r :: scan_loop keep score cap (n + 1) rows
  end.

Definition supported (k : string) : bool := existsb (String.eqb k) supportedSearchKinds.

Definition denseKind (qvec : list float32) (model k : string) (o : Options)
    : list RawResult + app_error :=
  if negb (supported k) then inr (Validation ("unsupported dense search kind " +:+ Quote k))
  else
    let revision := if is_empty (InputRevision o) then "legacy_unknown" else InputRevision o in
    match within (ctx (DenseCall k)) (dense_rows qvec model k revision (Filters o) (dense_overfetch o)) with
    | inr err => inr (Plain err)
    | inl rows =>
        inl (scan_loop (fun r => negb (f_ltb (CosineSimilarity r) (MinSimilarity o))
                                 && resultMatchesFilters r (Filters o))
               CosineSimilarity (TopK o * 4) 0 rows)
    end.

Fixpoint per_kind (f : string -> list RawResult + app_error) (kinds : list string)
    : list RawResult + app_error :=
  match kinds with
  | [] => inl []
  | k :: kinds =>
      match f k with
      | inr err => inr err
      | inl rs => match per_kind f kinds with inr err => inr err | inl rest => inl (rs ++ rest) end
      end
  end.

Definition Dense (qvec : list float32) (model : string) (o : Options) : list RawResult + app_error :=
  match ValidateVector qvec 768 with
  | Some err => inr (Plain err)
  | None =>
      match per_kind (fun k => denseKind qvec model k o) (Kinds o) with
      | inr err => inr err
      | inl out => inl (filterResults (sort_by cosine_less out) (Filters o) (TopK o * 4))
      end
  end.

Definition equalTime (l r : option time) : bool := bool_decide (l = r).

Definition timeAfter (l r : option time) : bool :=
  match l, r with
  | None, _ => false
  | Some _, None => true
  | Some l, Some r => r <? l
  end.

Definition keyword_less (a b : RawResult) : bool :=
  if f_eqb (KeywordRank a) (KeywordRank b) then
    if equalTime (ObservedAt a) (ObservedAt b) then str_ltb (SourceKey a) (SourceKey b)
    else timeAfter (ObservedAt a) (ObservedAt b)
  else f_gtb (KeywordRank a) (KeywordRank b).

Definition sparseKind (query k : string) (o : Options) : list RawResult + app_error :=
  if negb (supported k) then inr (Validation ("unsupported sparse search kind " +:+ Quote k))
  else
    let rows := if isWildcardAllSearch query then wildcard_rows k (Filters o) (sparse_overfetch o)
                else sparse_rows query k (Filters o) (sparse_overfetch o) in
    match within (ctx (SparseCall k)) rows with
    | inr err => inr (Plain err)
    | inl rows => inl (scan_loop (fun r => resultMatchesFilters r (Filters o)) KeywordRank (TopK o * 4) 0 rows)
    end.

Definition Sparse (query : string) (o : Options) : list RawResult + app_error :=
  let query := TrimSpace query in
  if is_empty query then inl []
  else
    match per_kind (fun k => sparseKind query k o) (Kinds o) with
    | inr err => inr err
    | inl out => inl (filterResults (sort_by keyword_less out) (Filters o) (TopK o * 4))
    end.

(** noEmbeddingCoverageReason *)
Fixpoint no_coverage (kinds : list string) : bool :=
  match kinds with
  | [] => true
  | k :: kinds =>
      if negb (supported k) then no_coverage kinds
      else match within (ctx (CoverageCall k)) (embedding_count (embeddingKindForSourceKind k)) with
           | inr _ => false
           | inl count => if 0 <? count then false else no_coverage kinds
           end
  end.

Definition noEmbeddingCoverageReason (kinds : list string) : option string :=
  if bool_decide (kinds = []) then None
  else if no_coverage kinds
  then Some ("no embeddings indexed for requested kind(s) " +:+ Quote (Join kinds ", ") +:+ " yet")
  else None.

(** ** Search *)

Record SearchRequest := {
  Query : string;
  Kind : SearchKind;
  Mode : SearchMode;
  ReqTopK : Z;
  ReqMinSimilarity : float32;
  ReqFilters : option SearchFilters;
}.

Record SearchConfig := {
  EmbeddingModel : string;
  EmbeddingInputRevision : string;
  DenseOverfetchFactor : Z;
  HybridAlpha : float64;
}.

Record SearchResponse := {
  ModeUsed : SearchMode;
  FallbackReason : string;
  FallbackCode : string;
  FallbackRetryAt : option time;
  DenseResultCount : Z;
  SparseResultCount : Z;
  FusedResultCount : Z;
  Results : list RawResult;
  ObservationStart : option time;
  ObservationEnd : option time;
}.

(** The outcome of the dense leg: its results, and when it fell back the mode,
    code, reason and retry time. *)
Record leg := {
  leg_results : list RawResult;
  leg_mode : SearchMode;
  leg_code : string;
  leg_reason : string;
  leg_retry : time;
}.

Definition no_leg (m : SearchMode) : leg :=
  {| leg_results := []; leg_mode := m; leg_code := ""; leg_reason := ""; leg_retry := time_zero |}.

Definition dense_leg (cfg : SearchConfig) (embed : list string -> string -> list (list float32) + error)
    (mode : SearchMode) (query : string) (kinds : list string) (o : Options)
    : leg + app_error :=
  if negb (bool_decide (mode = MODE_DENSE \/ mode = MODE_HYBRID)) then inl (no_leg mode)
  else
    let kindForQuery := embeddingKindForSourceKind (default "" (head kinds)) in
    let vectors := match embed [BuildQueryText query kindForQuery] kindForQuery with
                   | inl [] => inr (BackendUnavailableError time_zero (Some (Sentinel ErrInvalidResponse)))
                   | inl (v :: _) => inl v
                   | inr err => inr err
                   end in
    match vectors with
    | inr err =>
        if bool_decide (mode = MODE_DENSE) then inr (searchLegFailure (ctx EmbedCall) err)
        else
          let '(code, reason) := semanticFallbackCode err in
          inl {| leg_results := []; leg_mode := MODE_SPARSE; leg_code := code; leg_reason := reason;
                 leg_retry := semanticRetryAt err |}
    | inl qvec =>
        match Dense qvec (EmbeddingModel cfg) o with
        | inr err =>
            if bool_decide (mode = MODE_DENSE) then inr err
            else inl {| leg_results := []; leg_mode := MODE_SPARSE; leg_code := FallbackDenseQueryFailed;
                        leg_reason := msgDenseQueryFailed; leg_retry := time_zero |}
        | inl results =>
            match (if bool_decide (mode = MODE_HYBRID) && bool_decide (results = [])
                   then noEmbeddingCoverageReason kinds else None) with
            | Some reason =>
                inl {| leg_results := []; leg_mode := MODE_SPARSE; leg_code := FallbackNoEmbeddingCoverage;
                       leg_reason := reason; leg_retry := time_zero |}
            | None =>
                inl {| leg_results := results; leg_mode := mode; leg_code := ""; leg_reason := "";
                       leg_retry := time_zero |}
            end
        end
    end.

(** The earliest and latest event time of the returned records. *)
Definition observation_start (results : list RawResult) : option time :=
  fold_left (fun start r =>
    match ObservedAt r with
    | Some t => match start with Some s => if t <? s then Some t else start | None => Some t end
    | None => start
    end) results None.

Definition observation_end (results : list RawResult) : option time :=
  fold_left (fun end_ r =>
    match ObservedAt r with
    | Some t => match end_ with Some s => if s <? t then Some t else end_ | None => Some t end
    | None => end_
    end) results None.

Definition Search (cfg : SearchConfig) (embed : list string -> string -> list (list float32) + error)
    (iterate : gmap string RawResult -> list RawResult) (req : option SearchRequest) : SearchResponse + app_error :=
  match req with
  | None => inr (Validation "request is required")
  | Some req =>
      let wildcardAll := isWildcardAllSearch (Query req) in
      if negb wildcardAll && negb (hasMeaningfulSearchTerms (Query req))
      then inr (Validation "search query is required and must contain meaningful terms")
      else
        let topK := ClampTopK (ReqTopK req) in
        let mode := if wildcardAll then MODE_SPARSE else normalizeMode (Mode req) in
        match requestKinds (Kind req) with
        | inr err => inr err
        | inl kinds =>
            let o := {| InputRevision := EmbeddingInputRevision cfg; TopK := topK;
                        MinSimilarity := ReqMinSimilarity req; Kinds := kinds; Filters := ReqFilters req;
                        OverfetchFactor := DenseOverfetchFactor cfg |} in
            match dense_leg cfg embed mode (Query req) kinds o with
            | inr err => inr err
            | inl l =>
                let sparse :=
                  if bool_decide (mode = MODE_SPARSE \/ mode = MODE_HYBRID \/ leg_mode l = MODE_SPARSE)
                  then Sparse (Query req) o else inl [] in
                match sparse with
                | inr err => inr err
                | inl sparseResults =>
                    let ranked :=
                      match leg_mode l with
                      | MODE_DENSE => leg_results l
                      | MODE_SPARSE => sparseResults
                      | _ => Fuse iterate (leg_results l) sparseResults (rerankCandidateLimit topK)
                               (HybridAlpha cfg)
                      end in
                    let fused := truncate topK (sort_by score_less ranked) in
                    inl {| ModeUsed := leg_mode l; FallbackReason := leg_reason l; FallbackCode := leg_code l;
                           FallbackRetryAt := if IsZero (leg_retry l) then None else Some (leg_retry l);
                           DenseResultCount := Z.min (Z.of_nat (length (leg_results l))) 2147483647;
                           SparseResultCount := Z.min (Z.of_nat (length sparseResults)) 2147483647;
                           FusedResultCount := Z.min (Z.of_nat (length fused)) 2147483647;
                           Results := fused;
                           ObservationStart := observation_start fused;
                           ObservationEnd := observation_end fused |}
                end
            end
        end
  end.
End retrieval.

(** ** Filter suggestions (suggest.go, SuggestFilters) *)

Record suggestions := {
  Ssids : list string;
  LocationIdsSuggested : list string;
  SensorIdsSuggested : list string;
  FrameSubtypesSuggested : list string;
}.

Record SuggestCache := { CacheExpiresAt : time; CachedResponse : option suggestions }.

(** The escape operand of the statements, as their text spells it between the
    quotes of E''. *)
Definition suggest_escape : string := of_bytes (repeat (ascii_of_nat 92) 4).

(** The value of an E'' literal made of backslash pairs. *)
Fixpoint decode_E (s : string) : string :=
  match s with
  | "" => ""
  | String a rest =>
      if Ascii.eqb a (ascii_of_nat 92)
      then match rest with "" => String a "" | String b rest => String b (decode_E rest) end
      else String a (decode_E rest)
  end.

Section suggest.
(** The statement of one column: prefix, pattern and escape string to its rows. *)
Context (distinct_rows : string -> string -> string -> string -> list string + error).

Definition suggest_column (column normalizedPrefix pattern : string) : list string + error :=
  distinct_rows column normalizedPrefix pattern (decode_E suggest_escape).

Definition SuggestFilters (prefix : string) : suggestions + error :=
  let normalizedPrefix := ToLower (TrimSpace prefix) in
  let pattern := EscapeLike normalizedPrefix +:+ "%" in
  match suggest_column "ssid" normalizedPrefix pattern with
  | inr err => inr err
  | inl ssids =>
      match suggest_column "location_id" normalizedPrefix pattern with
      | inr err => inr err
      | inl locations =>
          match suggest_column "sensor_id" normalizedPrefix pattern with
          | inr err => inr err
          | inl sensors =>
              match suggest_column "frame_subtype" normalizedPrefix pattern with
              | inr err => inr err
              | inl subtypes =>
                  inl {| Ssids := ssids; LocationIdsSuggested := locations;
                         SensorIdsSuggested := sensors; FrameSubtypesSuggested := subtypes |}
              end
          end
      end
  end.

(** Service.SuggestFilters: the unprefixed answer is kept for 30 seconds. *)
Definition ServiceSuggestFilters (now : time) (cache : SuggestCache) (prefix : string)
    : SuggestCache * (suggestions + error) :=
  match (if (now <? CacheExpiresAt cache) && is_empty prefix then CachedResponse cache else None) with
  | Some resp => (cache, inl resp)
  | None =>
      match SuggestFilters prefix with
      | inr err => (cache, inr err)
      | inl resp =>
          (if is_empty prefix
           then {| CacheExpiresAt := now + 30 * Second; CachedResponse := Some resp |} else cache, inl resp)
      end
  end.
End suggest.

(** ** Lemmas *)

Section search_lemmas.
Context {R : Retrieval} (ctx : search_call -> option error).

Lemma within_ok {A} c (answer : A + error) a : within c answer = inl a -> answer = inl a.
Proof. by destruct c. Qed.

Lemma rescored_matches r0 r f : rescored r0 r -> resultMatchesFilters r f = resultMatchesFilters r0 f.
Proof. by intros (c & k & s & ->). Qed.

Lemma rescored_refl r : rescored r r.
Proof. exists (CosineSimilarity r), (KeywordRank r), (Score r). by destruct r. Qed.

Lemma scan_loop_elem keep score cap n rows r :
  r ∈ scan_loop keep score cap n rows ->
  exists r0, r0 ∈ rows /\ keep r0 = true /\
    r = with_scores r0 (CosineSimilarity r0) (KeywordRank r0) (score r0).
Proof.
  revert n. induction rows as [|r1 rows IH]; intros n; cbn [scan_loop]; [by intros ?%elem_of_nil|].
  destruct (keep r1) eqn:E; cbn [negb].
  - destruct (cap <=? n + 1); [intros ->%list_elem_of_singleton|intros [->|Hr]%elem_of_cons].
    1, 2: by exists r1; split; [left|].
    destruct (IH _ Hr) as (r0 & ? & ?). exists r0. split; [by right|done].
  - intros Hr. destruct (IH _ Hr) as (r0 & ? & ?). exists r0. split; [by right|done].
Qed.

Lemma per_kind_elem f kinds out r :
  per_kind f kinds = inl out -> r ∈ out -> exists k rs, k ∈ kinds /\ f k = inl rs /\ r ∈ rs.
Proof.
  revert out. induction kinds as [|k kinds IH]; intros out; cbn [per_kind].
  { intros [= <-] ?%elem_of_nil. done. }
  destruct (f k) as [rs|] eqn:E; [|done].
  destruct (per_kind f kinds) as [rest|]; [|done]. intros [= <-] [Hr|Hr]%elem_of_app.
  - exists k, rs. split; [by left|done].
  - destruct (IH _ eq_refl Hr) as (k' & rs' & ? & ?). exists k', rs'. split; [by right|done].
Qed.

Lemma filter_loop_elem results f limit n r :
  r ∈ filter_loop results f limit n -> r ∈ results /\ resultMatchesFilters r f = true.
Proof.
  revert n. induction results as [|r1 results IH]; intros n; cbn [filter_loop]; [by intros ?%elem_of_nil|].
  destruct (resultMatchesFilters r1 f) eqn:E; cbn [negb].
  - destruct (_ && _); [intros ->%list_elem_of_singleton; split; [by left|done]|].
    intros [->|Hr]%elem_of_cons; [split; [by left|done]|]. apply IH in Hr as [? ?]. split; [by right|done].
  - intros Hr. apply IH in Hr as [? ?]. split; [by right|done].
Qed.

(** A row one of the retrieval statements of a search may return. *)
Inductive retrieved (model : string) (kinds : list string) (f : option SearchFilters) (r : RawResult) : Prop :=
| by_vector q k rev n rows :
    k ∈ kinds -> dense_rows q model k rev f n = inl rows -> r ∈ rows -> retrieved model kinds f r
| by_keyword q k n rows :
    k ∈ kinds -> sparse_rows q k f n = inl rows -> r ∈ rows -> retrieved model kinds f r
| by_recency k n rows :
    k ∈ kinds -> wildcard_rows k f n = inl rows -> r ∈ rows -> retrieved model kinds f r.

(** A record of a result list: a retrieved row, in scope, scored by [score]. *)
Definition scored_row (model : string) (o : Options) (score : RawResult -> float32) (r : RawResult) : Prop :=
  resultMatchesFilters r (Filters o) = true /\
  exists r0, retrieved model (Kinds o) (Filters o) r0 /\
    r = with_scores r0 (CosineSimilarity r0) (KeywordRank r0) (score r0).

Lemma Dense_elem qvec model o out r :
  Dense ctx qvec model o = inl out -> r ∈ out ->
  scored_row model o CosineSimilarity r /\ f_ltb (CosineSimilarity r) (MinSimilarity o) = false.
Proof.
  unfold Dense. destruct (ValidateVector qvec 768); [done|].
  destruct (per_kind _ _) as [rows|] eqn:E; [|done]. intros [= <-] Hr.
  apply filter_loop_elem in Hr as [Hr Hm]. rewrite sort_by_elem in Hr.
  destruct (per_kind_elem _ _ _ _ E Hr) as (k & rs & Hk & Hd & Hrs). unfold denseKind in Hd.
  destruct (supported k); [|done]. cbn [negb] in Hd.
  destruct (within _ _) as [db|] eqn:Edb; [|done]. apply within_ok in Edb. injection Hd as <-.
  apply scan_loop_elem in Hrs as (r0 & H0 & Hkeep & ->). apply andb_true_iff in Hkeep as [Hs _].
  split; [|by apply negb_true_iff]. split; [done|]. exists r0. split; [by eapply by_vector|done].
Qed.

Lemma Sparse_elem model query o out r :
  Sparse ctx query o = inl out -> r ∈ out -> scored_row model o KeywordRank r.
Proof.
  unfold Sparse. destruct (is_empty (TrimSpace query)); [intros [= <-] ?%elem_of_nil; done|].
  destruct (per_kind _ _) as [rows|] eqn:E; [|done]. intros [= <-] Hr.
  apply filter_loop_elem in Hr as [Hr Hm]. rewrite sort_by_elem in Hr.
  destruct (per_kind_elem _ _ _ _ E Hr) as (k & rs & Hk & Hd & Hrs). unfold sparseKind in Hd.
  destruct (supported k); [|done]. cbn [negb] in Hd.
  destruct (within _ _) as [db|] eqn:Edb; [|done]. apply within_ok in Edb. injection Hd as <-.
  split; [done|]. apply scan_loop_elem in Hrs as (r0 & H0 & _ & ->). exists r0. split; [|done].
  destruct (isWildcardAllSearch _); [by eapply by_recency|by eapply by_keyword].
Qed.

(** The kinds of a request have tables to search. *)
Lemma requestKinds_supported kind kinds : requestKinds kind = inl kinds -> forall k, k ∈ kinds -> supported k = true.
Proof.
  intros E k Hk. destruct kind; try done; injection E as <-;
    repeat (apply elem_of_cons in Hk as [->|Hk]; [reflexivity|]); by apply elem_of_nil in Hk.
Qed.

Lemma requestKinds_nonempty kind kinds : requestKinds kind = inl kinds -> kinds <> [].
Proof. intros E. by destruct kind; try done; injection E as <-. Qed.

Lemma per_kind_ext f g kinds : (forall k, k ∈ kinds -> f k = g k) -> per_kind f kinds = per_kind g kinds.
Proof.
  induction kinds as [|k kinds IH]; intros H; cbn [per_kind]; [done|]. rewrite (H k) by left.
  destruct (g k); [|done]. rewrite IH; [done|]. intros k' Hk'. apply H. by right.
Qed.

Lemma per_kind_fails f kinds k err : k ∈ kinds -> f k = inr err -> exists err', per_kind f kinds = inr err'.
Proof.
  intros Hk Hf. induction kinds as [|k1 kinds IH]; [by apply elem_of_nil in Hk|]. cbn [per_kind].
  destruct (f k1) eqn:E; [|eauto]. apply elem_of_cons in Hk as [->|Hk]; [congruence|].
  destruct (IH Hk) as [err' ->]. eauto.
Qed.

(** Sparse only depends on the context through its own statements. *)
Lemma Sparse_in_time query o :
  (forall k, k ∈ Kinds o -> ctx (SparseCall k) = None) -> Sparse ctx query o = Sparse open_ctx query o.
Proof.
  intros H. unfold Sparse. destruct (is_empty _); [done|].
  rewrite (per_kind_ext _ (fun k => sparseKind open_ctx (TrimSpace query) k o)); [done|].
  intros k Hk. unfold sparseKind. by rewrite H.
Qed.

(** A statement that runs out of time fails the whole keyword search. *)
Lemma Sparse_out_of_time query o k err :
  TrimSpace query <> "" -> (forall k, k ∈ Kinds o -> supported k = true) ->
  k ∈ Kinds o -> ctx (SparseCall k) = Some err ->
  exists err', Sparse ctx query o = inr err'.
Proof.
  intros Hq Hs Hk Hc. unfold Sparse. destruct (is_empty (TrimSpace query)) eqn:E; [by apply is_empty_true in E|].
  destruct (per_kind_fails (fun k => sparseKind ctx (TrimSpace query) k o) (Kinds o) k (Plain err)) as [err' ->];
    [done| |eauto].
  unfold sparseKind. by rewrite Hs, Hc.
Qed.

(** With no time left, the context's error. *)
Lemma Sparse_no_time query o err :
  TrimSpace query <> "" -> (forall k, k ∈ Kinds o -> supported k = true) -> Kinds o <> [] ->
  (forall k, k ∈ Kinds o -> ctx (SparseCall k) = Some err) -> Sparse ctx query o = inr (Plain err).
Proof.
  intros Hq Hs Hn Hc. unfold Sparse. destruct (is_empty (TrimSpace query)) eqn:E; [by apply is_empty_true in E|].
  destruct (Kinds o) as [|k kinds]; [done|]. cbn [per_kind]. unfold sparseKind at 1.
  by rewrite Hs, Hc by left.
Qed.

Lemma ClampTopK_range v : 1 <= ClampTopK v <= 100.
Proof. unfold ClampTopK. repeat case_match; reflect_Z; lia. Qed.

(** The earliest time seen and the latest one bound all of them. *)
Lemma observation_bounds results r t :
  r ∈ results -> ObservedAt r = Some t ->
  exists s e, observation_start results = Some s /\ observation_end results = Some e /\ s <= t <= e.
Proof.
  intros Hr Ht. unfold observation_start, observation_end.
  induction results as [|r1 results IH] using rev_ind; [by apply elem_of_nil in Hr|].
  rewrite !fold_left_app. cbn [fold_left].
  apply elem_of_app in Hr as [Hr| ->%list_elem_of_singleton].
  - destruct (IH Hr) as (s & e & -> & -> & Hb). destruct (ObservedAt r1) as [t1|]; [|eauto].
    destruct (Z.ltb_spec t1 s), (Z.ltb_spec e t1); do 2 eexists; (split; [done|split; [done|lia]]).
  - rewrite Ht. clear IH Ht. set (s0 := fold_left _ results None). set (e0 := fold_left _ results None).
    destruct s0 as [s|], e0 as [e|];
      repeat match goal with |- context [if ?a <? ?b then _ else _] => destruct (Z.ltb_spec a b) end;
      do 2 eexists; (split; [done|split; [done|lia]]).
Qed.

Lemma sorted_truncate {A} (P : A -> A -> Prop) limit l : StronglySorted P l -> StronglySorted P (truncate limit l).
Proof.
  intros H. unfold truncate. case_match; [|done]. rewrite <-(take_drop (Z.to_nat limit)) in H.
  by apply StronglySorted_app in H as (_ & ? & _).
Qed.
End search_lemmas.

(** ** Unavailable *)

Lemma Sparse_unavailable {R : Retrieval} ctx query o code retryAt message :
  Sparse ctx query o <> inr (UnavailableError code retryAt message).
Proof.
  unfold Sparse. destruct (is_empty _); [done|].
  assert (H : forall kinds, per_kind (fun k => sparseKind ctx (TrimSpace query) k o) kinds <> inr (UnavailableError code retryAt message)).
  { induction kinds as [|k kinds IH]; cbn [per_kind]; [done|]. unfold sparseKind at 1. destruct (negb _); [done|].
    destruct (within _ _); [|done]. by destruct (per_kind _ kinds). }
  specialize (H (Kinds o)). by destruct (per_kind _ _).
Qed.

Lemma Dense_unavailable {R : Retrieval} ctx qvec model o code retryAt message :
  Dense ctx qvec model o <> inr (UnavailableError code retryAt message).
Proof.
  unfold Dense. destruct (ValidateVector qvec 768); [done|].
  assert (H : forall kinds, per_kind (fun k => denseKind ctx qvec model k o) kinds <> inr (UnavailableError code retryAt message)).
  { induction kinds as [|k kinds IH]; cbn [per_kind]; [done|]. unfold denseKind at 1. destruct (negb _); [done|].
    destruct (within _ _); [|done]. by destruct (per_kind _ kinds). }
  specialize (H (Kinds o)). by destruct (per_kind _ _).
Qed.

(** A search without its semantic backend says so in fixed words. *)
Lemma search_unavailable {R : Retrieval} ctx cfg embed iterate req code retryAt message :
  Search ctx cfg embed iterate req = inr (UnavailableError code retryAt message) ->
  exists err, semanticFallbackCode err = (code, message).
Proof.
  unfold Search. destruct req as [req|]; [|done]. cbv zeta. destruct (_ && _); [done|].
  destruct (requestKinds (Kind req)) as [kinds|e] eqn:Ek; [|destruct (Kind req); by simplify_eq/=].
  destruct (dense_leg _ _ _ _ _ _ _) as [l|e] eqn:El.
  - destruct (bool_decide _); [|done]. destruct (Sparse _ _ _) eqn:Es; [done|]. intros [= ->]. by apply Sparse_unavailable in Es.
  - intros [= ->]. revert El. unfold dense_leg. destruct (negb _); [done|]. cbv zeta.
    destruct (match embed _ _ with inl _ => _ | inr _ => _ end) as [v|err].
    + destruct (Dense _ _ _ _) eqn:Ed; [by destruct (if _ && _ then _ else None)|]. destruct (bool_decide _); [|done].
      intros [= ->]. by apply Dense_unavailable in Ed.
    + destruct (bool_decide _); [|by destruct (semanticFallbackCode err)]. unfold searchLegFailure, Unavailable.
      destruct (bool_decide _); [done|]. destruct (_ || _); [done|]. destruct (semanticFallbackCode err) as [c m] eqn:E.
      intros [= <- _ <-]. by exists err.
Qed.

(** ** The search contract *)

Section search_contract.
Context {R : Retrieval}.
Context (cfg : SearchConfig) (embed : list string -> string -> list (list float32) + error).
Context (iterate : gmap string RawResult -> list RawResult) (ctx : search_call -> option error).

Definition search_mode (req : SearchRequest) : SearchMode :=
  if isWildcardAllSearch (Query req) then MODE_SPARSE else normalizeMode (Mode req).

Definition search_options (req : SearchRequest) (kinds : list string) : Options :=
  {| InputRevision := EmbeddingInputRevision cfg; TopK := ClampTopK (ReqTopK req);
     MinSimilarity := ReqMinSimilarity req; Kinds := kinds; Filters := ReqFilters req;
     OverfetchFactor := DenseOverfetchFactor cfg |}.

Definition search_leg (req : SearchRequest) (kinds : list string) : leg + app_error :=
  dense_leg ctx cfg embed (search_mode req) (Query req) kinds (search_options req kinds).

Lemma Search_ok req resp :
  Search ctx cfg embed iterate (Some req) = inl resp ->
  exists kinds l sparse,
    requestKinds (Kind req) = inl kinds /\
    search_leg req kinds = inl l /\
    (sparse = [] \/ Sparse ctx (Query req) (search_options req kinds) = inl sparse) /\
    ModeUsed resp = leg_mode l /\
    Results resp = truncate (ClampTopK (ReqTopK req)) (sort_by score_less
      match leg_mode l with
      | MODE_DENSE => leg_results l
      | MODE_SPARSE => sparse
      | _ => Fuse iterate (leg_results l) sparse (rerankCandidateLimit (ClampTopK (ReqTopK req)))
               (HybridAlpha cfg)
      end) /\
    ObservationStart resp = observation_start (Results resp) /\
    ObservationEnd resp = observation_end (Results resp).
Proof.
  unfold Search. destruct (_ && _); [done|]. cbv zeta. fold (search_mode req).
  destruct (requestKinds (Kind req)) as [kinds|]; [|done].
  fold (search_options req kinds). fold (search_leg req kinds).
  destruct (search_leg req kinds) as [l|] eqn:El; [|done].
  destruct (bool_decide _); [destruct (Sparse _ _) as [sparse|] eqn:Es; [|done]|]; intros [= <-].
  - exists kinds, l, sparse. by repeat (split; [auto|]).
  - exists kinds, l, []. by repeat (split; [auto|]).
Qed.

(** The results of the dense leg, and the modes it may end in. *)
Lemma search_leg_elem req kinds l r :
  search_leg req kinds = inl l -> r ∈ leg_results l ->
  scored_row (EmbeddingModel cfg) (search_options req kinds) CosineSimilarity r /\
  f_ltb (CosineSimilarity r) (ReqMinSimilarity req) = false.
Proof.
  unfold search_leg, dense_leg. destruct (bool_decide _); cbn [negb]; [|intros [= <-] ?%elem_of_nil; done].
  destruct (match embed _ _ with inl _ => _ | inr _ => _ end) as [v|err].
  2:{ destruct (bool_decide _); [done|]. destruct (semanticFallbackCode err).
      intros [= <-] ?%elem_of_nil. done. }
  destruct (Dense ctx v (EmbeddingModel cfg) (search_options req kinds)) as [out|] eqn:Ed.
  2:{ destruct (bool_decide _); [done|]. intros [= <-] ?%elem_of_nil. done. }
  destruct (if bool_decide _ && _ then _ else None) as [reason|]; intros [= <-]; [intros ?%elem_of_nil; done|].
  intros Hr. exact (Dense_elem _ _ _ _ _ _ Ed Hr).
Qed.

Lemma in_ranked req kinds l sparse r :
  iterates iterate -> search_leg req kinds = inl l ->
  (sparse = [] \/ Sparse ctx (Query req) (search_options req kinds) = inl sparse) ->
  r ∈ match leg_mode l with
      | MODE_DENSE => leg_results l
      | MODE_SPARSE => sparse
      | _ => Fuse iterate (leg_results l) sparse (rerankCandidateLimit (ClampTopK (ReqTopK req)))
               (HybridAlpha cfg)
      end ->
  exists r1, rescored r1 r /\ (r1 ∈ leg_results l \/ r1 ∈ sparse) /\
    (leg_mode l = MODE_DENSE -> r1 = r /\ r ∈ leg_results l) /\
    (leg_mode l = MODE_SPARSE -> r1 = r /\ r ∈ sparse).
Proof.
  intros Hi Hl Hs Hr.
  assert (Hfuse : forall k, r ∈ Fuse iterate (leg_results l) sparse k (HybridAlpha cfg) ->
    exists r1, rescored r1 r /\ (r1 ∈ leg_results l \/ r1 ∈ sparse)).
  { intros k Hf. apply Fuse_elem in Hf; [|done]. apply fused_values_elem, fuse_map_from in Hf as (_ & r1 & Hin & ?).
    exists r1. split; [done|]. by apply elem_of_app. }
  destruct (leg_mode l); try (destruct (Hfuse _ Hr) as (r1 & ? & ?); exists r1; done).
  - exists r. split; [apply rescored_refl|]. by split; [left|].
  - exists r. split; [apply rescored_refl|]. by split; [right|].
Qed.

Lemma scored_row_filters model o score r : scored_row model o score r -> resultMatchesFilters r (Filters o) = true.
Proof. by intros []. Qed.

Lemma scored_row_origin model o score r :
  scored_row model o score r -> exists r0, retrieved model (Kinds o) (Filters o) r0 /\ rescored r0 r.
Proof. intros (_ & r0 & ? & ->). exists r0. split; [done|]. by do 3 eexists. Qed.

Lemma scored_row_number model o r :
  (forall r0, retrieved model (Kinds o) (Filters o) r0 ->
     is_nan (CosineSimilarity r0) = false /\ is_nan (KeywordRank r0) = false) ->
  scored_row model o CosineSimilarity r \/ scored_row model o KeywordRank r -> is_nan (Score r) = false.
Proof. intros H [(_ & r0 & Hr & ->)|(_ & r0 & Hr & ->)]; apply H in Hr as []; done. Qed.

Lemma search_results_spec req kinds resp :
  iterates iterate -> requestKinds (Kind req) = inl kinds ->
  Search ctx cfg embed iterate (Some req) = inl resp ->
  1 <= ClampTopK (ReqTopK req) <= 100 /\
  Z.of_nat (length (Results resp)) <= ClampTopK (ReqTopK req) /\
  (forall r, r ∈ Results resp ->
     resultMatchesFilters r (ReqFilters req) = true /\
     (exists r0, retrieved (EmbeddingModel cfg) kinds (ReqFilters req) r0 /\ rescored r0 r) /\
     (ModeUsed resp = MODE_DENSE -> f_ltb (CosineSimilarity r) (ReqMinSimilarity req) = false) /\
     (forall t, ObservedAt r = Some t ->
        exists first last, ObservationStart resp = Some first /\ ObservationEnd resp = Some last /\
                           first <= t <= last)) /\
  (ModeUsed resp = MODE_DENSE \/ ModeUsed resp = MODE_SPARSE ->
   (forall r0, retrieved (EmbeddingModel cfg) kinds (ReqFilters req) r0 ->
      is_nan (CosineSimilarity r0) = false /\ is_nan (KeywordRank r0) = false) ->
   StronglySorted (before score_order) (Results resp)).
Proof.
  intros Hi Hk Hs. destruct (Search_ok _ _ Hs) as (kinds' & l & sparse & Hk' & Hl & Hsp & Hm & Hres & Hob & Hoe).
  assert (kinds' = kinds) as -> by congruence. clear Hk'.
  pose proof (ClampTopK_range (ReqTopK req)) as Hc.
  assert (Hleg : forall r, r ∈ leg_results l -> _) by (intros r; exact (search_leg_elem req kinds l r Hl)).
  assert (Hspr : forall r, r ∈ sparse ->
    scored_row (EmbeddingModel cfg) (search_options req kinds) KeywordRank r).
  { intros r Hr. destruct Hsp as [->|Hsp]; [by apply elem_of_nil in Hr|]. by eapply Sparse_elem. }
  set (ranked := match leg_mode l with MODE_DENSE => _ | _ => _ end) in Hres.
  assert (Hin : forall r, r ∈ ranked -> _) by (intros r; exact (in_ranked req kinds l sparse r Hi Hl Hsp)).
  clearbody ranked.
  split; [done|split; [rewrite Hres; apply truncate_length; lia|split]].
  - intros r Hr. assert (Hr' : r ∈ ranked).
    { rewrite Hres in Hr. eapply sublist_subseteq in Hr; [|apply truncate_sublist]. by apply sort_by_elem in Hr. }
    destruct (Hin r Hr') as (r1 & Hre & Hor & Hd & _).
    assert (Hrow : exists score, scored_row (EmbeddingModel cfg) (search_options req kinds) score r1).
    { destruct Hor as [H|H]; [eexists; apply (Hleg r1 H)|eexists; apply (Hspr r1 H)]. }
    destruct Hrow as (score & Hrow). split; [|split; [|split]].
    + rewrite (rescored_matches r1 r) by done. exact (scored_row_filters _ _ _ _ Hrow).
    + destruct (scored_row_origin _ _ _ _ Hrow) as (r0 & ? & ?). exists r0. split; [done|].
      by eapply rescored_trans.
    + rewrite Hm. intros H. destruct (Hd H) as [_ H']. apply (Hleg r H').
    + intros t Ht. rewrite Hob, Hoe. by eapply observation_bounds.
  - rewrite Hm. intros Hmode Hnum. rewrite Hres. apply sorted_truncate. rewrite sort_scored; [apply sort_by_sorted, score_order_weak|].
    apply Forall_forall. intros r Hr. destruct (Hin r Hr) as (r1 & _ & _ & Hd & Hsp').
    apply (scored_row_number (EmbeddingModel cfg) (search_options req kinds) r Hnum). destruct Hmode as [Hmo|Hmo].
    + left. apply (Hleg r), (Hd Hmo).
    + right. apply (Hspr r), (Hsp' Hmo).
Qed.

(** C10. What a search returns.  A successful search returns at most the clamped
    [top_k] records (between 1 and 100); each is a row one of the requested
    kinds' statements returned, unchanged but for its scores, and passes every
    filter of the request; a dense search returns none below the similarity
    floor; the reported window spans the event times of all of them; and with
    numeric ranks an unfused answer is in falling order of score, then by key. *)
Theorem search_results_contract req kinds resp :
  iterates iterate -> requestKinds (Kind req) = inl kinds ->
  Search ctx cfg embed iterate (Some req) = inl resp ->
  1 <= ClampTopK (ReqTopK req) <= 100 /\
  Z.of_nat (length (Results resp)) <= ClampTopK (ReqTopK req) /\
  (forall r, r ∈ Results resp ->
     resultMatchesFilters r (ReqFilters req) = true /\
     (exists r0, retrieved (EmbeddingModel cfg) kinds (ReqFilters req) r0 /\ rescored r0 r) /\
     (ModeUsed resp = MODE_DENSE -> f_ltb (CosineSimilarity r) (ReqMinSimilarity req) = false) /\
     (forall t, ObservedAt r = Some t ->
        exists first last, ObservationStart resp = Some first /\ ObservationEnd resp = Some last /\
                           first <= t <= last)) /\
  (ModeUsed resp = MODE_DENSE \/ ModeUsed resp = MODE_SPARSE ->
   (forall r0, retrieved (EmbeddingModel cfg) kinds (ReqFilters req) r0 ->
      is_nan (CosineSimilarity r0) = false /\ is_nan (KeywordRank r0) = false) ->
   StronglySorted (before score_order) (Results resp)).
Proof. apply search_results_spec. Qed.

(** The same request asked as a keyword search. *)
Definition as_sparse (req : SearchRequest) : SearchRequest := {|
  Query := Query req; Kind := Kind req; Mode := MODE_SPARSE; ReqTopK := ReqTopK req;
  ReqMinSimilarity := ReqMinSimilarity req; ReqFilters := ReqFilters req |}.

(** The keyword answer, marked as a fallback. *)
Definition degraded (code reason : string) (retryAt : time) (resp : SearchResponse) : SearchResponse := {|
  ModeUsed := MODE_SPARSE; FallbackReason := reason; FallbackCode := code;
  FallbackRetryAt := if IsZero retryAt then None else Some retryAt;
  DenseResultCount := 0; SparseResultCount := SparseResultCount resp;
  FusedResultCount := FusedResultCount resp; Results := Results resp;
  ObservationStart := ObservationStart resp; ObservationEnd := ObservationEnd resp |}.

(** The stable codes and the static reasons that may accompany them; the reason
    for missing coverage names the requested kinds. *)
Definition public_fallback (kinds : list string) (code reason : string) : Prop :=
  (code, reason) ∈ [(FallbackBackendUnavailable, msgBackendUnavailable);
                    (FallbackCapacityExhausted, msgCapacityExhausted);
                    (FallbackInvalidResponse, msgInvalidResponse);
                    (FallbackDenseQueryFailed, msgDenseQueryFailed)] \/
  code = FallbackNoEmbeddingCoverage /\ noEmbeddingCoverageReason ctx kinds = Some reason.

Lemma semanticFallbackCode_public kinds err :
  public_fallback kinds (semanticFallbackCode err).1 (semanticFallbackCode err).2.
Proof. left. unfold semanticFallbackCode. repeat case_match; simpl; set_solver. Qed.

(** How the dense leg of a hybrid search may end: fused, or fallen back. *)
Lemma hybrid_leg query kinds o :
  exists l, dense_leg ctx cfg embed MODE_HYBRID query kinds o = inl l /\
    (leg_mode l = MODE_HYBRID /\ leg_code l = "" /\ leg_reason l = "" /\ leg_retry l = time_zero \/
     leg_mode l = MODE_SPARSE /\ leg_results l = [] /\ public_fallback kinds (leg_code l) (leg_reason l)) /\
    (forall err, (forall texts kind, embed texts kind = inr err) ->
       leg_mode l = MODE_SPARSE /\ (leg_code l, leg_reason l) = semanticFallbackCode err /\
       leg_retry l = semanticRetryAt err).
Proof.
  unfold dense_leg. rewrite bool_decide_true by auto. cbn [negb]. cbv zeta.
  set (kind := embeddingKindForSourceKind _).
  destruct (embed [BuildQueryText query kind] kind) as [[|v vs]|err] eqn:Ee.
  - exists {| leg_results := []; leg_mode := MODE_SPARSE; leg_code := FallbackInvalidResponse;
       leg_reason := msgInvalidResponse; leg_retry := time_zero |}.
    split; [by rewrite bool_decide_false by done|split].
    + right. split; [done|split; [done|]]. left. simpl. set_solver.
    + intros err H. rewrite H in Ee. done.
  - assert (Hno : forall l err, (forall texts kind, embed texts kind = inr err) ->
      leg_mode l = MODE_SPARSE /\ (leg_code l, leg_reason l) = semanticFallbackCode err /\
      leg_retry l = semanticRetryAt err) by (intros l err H; rewrite H in Ee; done).
    destruct (Dense ctx v (EmbeddingModel cfg) o) as [out|derr] eqn:Ed.
    + destruct (if bool_decide (MODE_HYBRID = MODE_HYBRID) && bool_decide (out = []) then _ else None)
        as [reason|] eqn:Er.
      * eexists. split; [done|split; [|auto]]. right. split; [done|split; [done|]]. right. split; [done|].
        by destruct (_ && _).
      * eexists. split; [done|split; [|auto]]. by left.
    + rewrite bool_decide_false by done. eexists. split; [done|split; [|auto]]. right.
      split; [done|split; [done|]]. left. simpl. set_solver.
  - rewrite bool_decide_false by done. pose proof (semanticFallbackCode_public kinds err) as Hp.
    destruct (semanticFallbackCode err) as [code reason] eqn:Ec. eexists. split; [done|split].
    + by right.
    + intros err' H. rewrite H in Ee. injection Ee as <-. by rewrite Ec.
Qed.

(** C4. Graceful degradation.  While the search's one deadline outlasts its keyword
    statements, a hybrid search fails only where the keyword search of the same
    request fails, with the same error; it either fuses, and then reports no
    fallback, or answers exactly what the keyword search answers, marked with one
    of the stable codes, its static reason and the backend's retry time.  A
    failed embedding then always degrades this way: its own words never reach the
    response.  When the deadline runs out before the keyword statements are
    through (the embedding may have used it up), there is no answer: the search
    fails, with the context's error if no statement had time. *)
Theorem hybrid_degrades_to_sparse req kinds :
  isWildcardAllSearch (Query req) = false -> normalizeMode (Mode req) = MODE_HYBRID ->
  requestKinds (Kind req) = inl kinds ->
  ((forall k, k ∈ kinds -> ctx (SparseCall k) = None) ->
   match Search ctx cfg embed iterate (Some req),
         Search open_ctx cfg embed iterate (Some (as_sparse req)) with
   | inr err, inr err' => err = err'
   | inl resp, inl keyword =>
       (ModeUsed resp = MODE_HYBRID /\ FallbackCode resp = "" /\ FallbackReason resp = "" /\
          FallbackRetryAt resp = None \/
        exists retryAt,
          resp = degraded (FallbackCode resp) (FallbackReason resp) retryAt keyword /\
          public_fallback kinds (FallbackCode resp) (FallbackReason resp)) /\
       (forall err, (forall texts kind, embed texts kind = inr err) ->
          resp = degraded (semanticFallbackCode err).1 (semanticFallbackCode err).2 (semanticRetryAt err) keyword)
   | _, _ => False
   end) /\
  (forall k err, hasMeaningfulSearchTerms (Query req) = true -> TrimSpace (Query req) <> "" ->
   k ∈ kinds -> ctx (SparseCall k) = Some err ->
   (exists err', Search ctx cfg embed iterate (Some req) = inr err') /\
   ((forall k, k ∈ kinds -> ctx (SparseCall k) = Some err) ->
    Search ctx cfg embed iterate (Some req) = inr (Plain err))).
Proof.
  intros Hw Hmode Hk. unfold Search. cbn [Query Kind Mode ReqTopK ReqMinSimilarity ReqFilters as_sparse].
  rewrite Hw, Hmode, Hk. cbn [negb andb normalizeMode].
  set (o := {| TopK := _ |}). cbv zeta.
  destruct (hybrid_leg (Query req) kinds o) as (l & El & Hl & He). rewrite El.
  rewrite !(bool_decide_true (MODE_HYBRID = MODE_SPARSE \/ _)) by auto. split.
  - intros Hin. destruct (negb (hasMeaningfulSearchTerms (Query req))); [done|].
    assert (Esp : dense_leg open_ctx cfg embed MODE_SPARSE (Query req) kinds o = inl (no_leg MODE_SPARSE)).
    { unfold dense_leg. by rewrite (bool_decide_false (MODE_SPARSE = MODE_DENSE \/ MODE_SPARSE = MODE_HYBRID)) by (intros [?|?]; done). }
    rewrite Esp, bool_decide_true by auto. rewrite Sparse_in_time by done.
    destruct (Sparse open_ctx (Query req) o) as [sparse|]; [|done].
    cbn [leg_mode no_leg leg_results leg_code leg_reason leg_retry ModeUsed FallbackCode FallbackReason FallbackRetryAt].
    destruct Hl as [(Hm & -> & -> & ->)|(Hm & Hr & Hp)].
    + rewrite Hm. split; [by left|]. intros err H. destruct (He err H) as [? _]. congruence.
    + rewrite Hm, Hr. split.
      * right. exists (leg_retry l). by split.
      * intros err H. destruct (He err H) as (_ & Hc & Ht). rewrite Ht.
        destruct (semanticFallbackCode err) as [c m]. injection Hc as -> ->. done.
  - intros k err -> Hq Hin Hc. cbn [negb]. split.
    + destruct (Sparse_out_of_time ctx (Query req) o k err) as [err' ->]; [done| |done|done|by exists err'].
      exact (requestKinds_supported _ _ Hk).
    + intros Hall. rewrite (Sparse_no_time ctx (Query req) o err); [done|done| | |done].
      * exact (requestKinds_supported _ _ Hk).
      * exact (requestKinds_nonempty _ _ Hk).
Qed.
End search_contract.

(** ** Suggestions: lemmas *)

Section suggest_theorems.
Context (distinct_rows : string -> string -> string -> string -> list string + error).

(** The answer kept is the unprefixed one. *)
Definition cache_fresh (answer : suggestions) (cache : SuggestCache) : Prop :=
  forall resp, CachedResponse cache = Some resp -> resp = answer.

(** While the statements answer alike, the cache is invisible: a caller gets
    what the statements return, with or without it. *)
Lemma suggest_cache_transparent now cache prefix answer :
  SuggestFilters distinct_rows "" = inl answer -> cache_fresh answer cache ->
  let '(cache', resp) := ServiceSuggestFilters distinct_rows now cache prefix in
  resp = SuggestFilters distinct_rows prefix /\ cache_fresh answer cache'.
Proof.
  intros Ha Hf. unfold ServiceSuggestFilters.
  destruct (is_empty prefix) eqn:Ep; [apply is_empty_true in Ep as ->|].
  - rewrite andb_true_r. destruct (now <? CacheExpiresAt cache); cbn [andb].
    + destruct (CachedResponse cache) as [resp|] eqn:Ec; rewrite Ha; [|by split; [|intros ? [= <-]]].
      split; [by rewrite (Hf _ Ec)|done].
    + rewrite Ha. split; [done|]. by intros ? [= <-].
  - rewrite andb_false_r. by destruct (SuggestFilters distinct_rows prefix).
Qed.

(** The statements spell the escape string with four backslashes in an E''
    literal: two characters.  PostgreSQL accepts an escape string of at most
    one, so no prefix that is not blank is ever answered. *)
Theorem suggest_prefix_rejected prefix :
  (forall column normalizedPrefix pattern escape,
     normalizedPrefix <> "" -> (1 < String.length escape)%nat ->
     exists err, distinct_rows column normalizedPrefix pattern escape = inr err) ->
  TrimSpace prefix <> "" ->
  exists err, SuggestFilters distinct_rows prefix = inr err.
Proof.
  intros Hbad Hp. unfold SuggestFilters, suggest_column.
  destruct (Hbad "ssid" (ToLower (TrimSpace prefix)) (EscapeLike (ToLower (TrimSpace prefix)) +:+ "%")
              (decode_E suggest_escape)) as [err ->]; [by intros ?%ToLower_empty|vm_compute; lia|].
  by exists err.
Qed.
End suggest_theorems.

(** ** Witnesses *)

Definition demo_rows : list RawResult :=
  [sample_result "b" (f32_of_Z 1) (f32_of_Z 1); sample_result "a" (f32_of_Z 1) (f32_of_Z 1)].

Definition demo_retrieval : Retrieval := {|
  dense_rows _ _ _ _ _ _ := inl demo_rows;
  sparse_rows _ _ _ _ := inl demo_rows;
  wildcard_rows _ _ _ := inl demo_rows;
  embedding_count _ := inl 1 |}.

Definition demo_config : SearchConfig := {|
  EmbeddingModel := "model"; EmbeddingInputRevision := ""; DenseOverfetchFactor := 4; HybridAlpha := half |}.

Definition demo_request (m : SearchMode) : SearchRequest := {|
  Query := "rogue"; Kind := KIND_EVENT; Mode := m; ReqTopK := 5; ReqMinSimilarity := f_zero;
  ReqFilters := None |}.

Definition demo_embed (texts : list string) (kind : string) : list (list float32) + error :=
  inl [replicate 768 (f32_of_Z 1)].

Definition refusing (texts : list string) (kind : string) : list (list float32) + error :=
  inr (BackendUnavailableError 7 None).

Definition demo_search (m : SearchMode) embed : SearchResponse + app_error :=
  Search (R := demo_retrieval) open_ctx demo_config embed map_values (Some (demo_request m)).

Definition response_of (r : SearchResponse + app_error) (default : SearchResponse) : SearchResponse :=
  match r with inl r => r | inr _ => default end.

Definition no_response : SearchResponse := {|
  ModeUsed := MODE_UNSPECIFIED; FallbackReason := ""; FallbackCode := ""; FallbackRetryAt := None;
  DenseResultCount := 0; SparseResultCount := 0; FusedResultCount := 0; Results := []; ObservationStart := None;
  ObservationEnd := None |}.

Lemma search_results_contract_witness :
  let resp := response_of (demo_search MODE_DENSE demo_embed) no_response in
  Z.of_nat (length (Results resp)) <= 5 /\ SourceKey <$> Results resp = ["a"; "b"].
Proof.
  cbv zeta. split; [|vm_compute; reflexivity].
  refine (proj1 (proj2 (search_results_contract (R := demo_retrieval) demo_config demo_embed map_values open_ctx
    (demo_request MODE_DENSE) ["event"] _ _ eq_refl _))).
  - intros m. reflexivity.
  - vm_compute. reflexivity.
Defined.

(** The embedding took all the time there was. *)
Definition spent (call : search_call) : option error := Some (Opaque "context deadline exceeded").

Lemma hybrid_degrades_to_sparse_witness :
  match demo_search MODE_HYBRID refusing, demo_search MODE_SPARSE refusing with
  | inl resp, inl keyword => Results resp = Results keyword /\ FallbackCode resp = FallbackBackendUnavailable
  | _, _ => False
  end /\
  Search (R := demo_retrieval) spent demo_config refusing map_values (Some (demo_request MODE_HYBRID))
  = inr (Plain (Opaque "context deadline exceeded")).
Proof.
  split.
  - pose proof (proj1 (hybrid_degrades_to_sparse (R := demo_retrieval) demo_config refusing map_values open_ctx
      (demo_request MODE_HYBRID) ["event"] eq_refl eq_refl eq_refl) (fun _ _ => eq_refl)) as H.
    change (as_sparse (demo_request MODE_HYBRID)) with (demo_request MODE_SPARSE) in H.
    unfold demo_search.
    destruct (Search _ _ _ _ (Some (demo_request MODE_HYBRID))) as [resp|] eqn:E1;
      [|vm_compute in E1; discriminate E1].
    destruct (Search _ _ _ _ (Some (demo_request MODE_SPARSE))) as [keyword|]; [|exact H].
    destruct H as [_ H]. rewrite (H (BackendUnavailableError 7 None) (fun _ _ => eq_refl)).
    split; vm_compute; reflexivity.
  - refine (proj2 (proj2 (hybrid_degrades_to_sparse (R := demo_retrieval) demo_config refusing map_values spent
      (demo_request MODE_HYBRID) ["event"] eq_refl eq_refl eq_refl) "event" _ _ _ _ eq_refl) (fun _ _ => eq_refl)).
    + vm_compute. reflexivity.
    + vm_compute. discriminate.
    + left.
Defined.

(** A backend that answers unless the escape string is too long. *)
Definition demo_distinct (column prefix pattern escape : string) : list string + error :=
  if negb (is_empty prefix) && Nat.ltb 1 (String.length escape)
  then inr (Sentinel ErrInvalidResponse) else inl ["lab"].

Lemma suggest_prefix_rejected_witness :
  (exists err, SuggestFilters demo_distinct "la" = inr err) /\
  SuggestFilters demo_distinct "" <> inr (Sentinel ErrInvalidResponse).
Proof.
  split; [|vm_compute; discriminate].
  apply (suggest_prefix_rejected demo_distinct "la"); [|vm_compute; discriminate].
  intros column prefix pattern escape Hp Hl. exists (Sentinel ErrInvalidResponse). unfold demo_distinct.
  destruct (is_empty prefix) eqn:E; [by apply is_empty_true in E|]. apply Nat.ltb_lt in Hl. by rewrite Hl.
Defined.
