(* ===== verification/Authority.v ===== *)
(** * Proxy authorities (internal/queryscope/authority.go)

    The normal form of an HTTP authority, a TLS server name or an address: the
    exact filters compare it.  golang.org/x/net/idna is a parameter; the text of
    the public suffix list is an argument of what reads it. *)

From S2P Require Import Prelude GoStrings GoUtf8 GoStrconv GoNet.

(** idna.Profile.ToASCII of the lookup profile, and the package's Unicode version. *)
Class IDNA := {
  ToASCII : string -> option string;
  idna_UnicodeVersion : string;
}.

Definition AuthorityNormalizationVersion : string := "proxy-authority-v1".

Record Authority := {
  AuthorityRaw : option string;
  HostRaw : option string;
  HostNormalized : option string;
  Port : option Z;
  AuthorityNormalized : option string;
  RegistrableDomain : option string;
  NormalizationVersion : string;
  ParseStatus : string;
  AuthoritySource : string;
  SanitizationStatus : string;
}.

(** ** IPv6 text *)

(** The loop over the groups from index [i]: the start of the current run of
    zeros, or -1, and the best run so far. *)
Fixpoint zero_runs (i start bestStart bestLen : Z) (zeros : list bool) : Z * Z :=
  match zeros with
  | [] => (bestStart, bestLen)
  | z :: zeros =>
      if (z : bool) then
        let start := if start <? 0 then i else start in
        if bestLen <? i - start + 1
        then zero_runs (i + 1) start start (i - start + 1) zeros
        else zero_runs (i + 1) start bestStart bestLen zeros
      else zero_runs (i + 1) (-1) bestStart bestLen zeros
  end.

Definition canonicalIPv6 (groups : list Z) : string :=
  let parts := FormatHex <$> groups in
  let '(bestStart, bestLen) := zero_runs 0 (-1) (-1) 1 (Z.eqb 0 <$> groups) in
  if bestStart <? 0 then Join parts ":"
  else Join (take (Z.to_nat bestStart) parts) ":" +:+ "::"
       +:+ Join (drop (Z.to_nat (bestStart + bestLen)) parts) ":".

(** ** Public suffixes *)

Section authority.
Context {Idna : IDNA}.

(** One line of the list: the rule it adds, or none; a name that is no domain
    is a panic. *)
Definition authority_rule (line : string) : option (option string) :=
  let line := TrimSpace line in
  if is_empty line || HasPrefix line "//" then Some None
  else
    let '(prefix, line) := if HasPrefix line "!" then ("!", TrimPrefix line "!") else ("", line) in
    let '(prefix, line) := if HasPrefix line "*." then ("*.", TrimPrefix line "*.") else (prefix, line) in
    match ToASCII line with
    | Some ascii => Some (Some (prefix +:+ ascii))
    | None => None
    end.

Fixpoint add_rules (rules : gset string) (lines : list string) : option (gset string) :=
  match lines with
  | [] => Some rules
  | line :: lines =>
      match authority_rule line with
      | None => None
      | Some None => add_rules rules lines
      | Some (Some rule) => add_rules ({[rule]} ∪ rules) lines
      end
  end.

Definition loadAuthorityRules (authorityPSL : string) : option (gset string) :=
  add_rules ∅ (Split authorityPSL (ascii_of_nat 10)).

(** The loop over the labels from index [i]; [n] is their number. *)
Fixpoint suffix_loop (rules : gset string) (n i suffix : Z) (labels : list string) : Z :=
  match labels with
  | [] => suffix
  | _ :: labels' =>
      let candidate := Join labels "." in
      if bool_decide ("!" +:+ candidate ∈ rules) then n - i - 1
      else
        let suffix := if bool_decide (candidate ∈ rules) && (suffix <? n - i) then n - i else suffix in
        let suffix := if (0 <? i) && bool_decide ("*." +:+ candidate ∈ rules) && (suffix <? n - i + 1)
                      then n - i + 1 else suffix in
        suffix_loop rules n (i + 1) suffix labels'
  end.

Definition authorityDomain (rules : gset string) (host : string) : option string :=
  let labels := Split host "."%char in
  let n := Z.of_nat (length labels) in
  let suffix := suffix_loop rules n 0 1 labels in
  if n <=? suffix then None
  else Some (Join (drop (Z.to_nat (n - suffix - 1)) labels) ".").

(** ** Normal form *)

(** Evidence that is not echoed. *)
Definition unsafe (v : string) : bool :=
  negb (ValidString v) || (1024 <? len v) || ContainsRune IsControl v || Contains v "@".

Definition authority_sources : list string :=
  ["http_authority"; "connect_authority"; "quic_authority"; "sni"; "original_destination"; "legacy_host"; "query"].

(** The host, the text of the port when there is one, and whether the host was
    in brackets. *)
Definition split_authority (v : string) : option (string * option string * bool) :=
  match v with
  | String "[" rest =>
      match Cut rest "]"%char with
      | (host, tail, true) =>
          match tail with
          | "" => Some (host, None, true)
          | String ":" port => Some (host, Some port, true)
          | _ => None
          end
      | (_, _, false) => None
      end
  | _ =>
      if CountByte v ":"%char =? 1
      then let '(host, port, _) := Cut v ":"%char in Some (host, Some port, false)
      else Some (v, None, false)
  end.

Definition parse_port (portText : option string) : option (option Z) :=
  match portText with
  | None => Some None
  | Some t =>
      if (len t =? 0) || (5 <? len t) || negb (is_empty (Trim t "0123456789")) then None
      else match ParseInt64 t with
           | Some port => if (port <? 1) || (65535 <? port) then None else Some (Some port)
           | None => None
           end
  end.

(** The normalized host, its kind, and for a name its registrable domain. *)
Definition host_form (rules : gset string) (bracketed : bool) (host : string)
    : option (string * string * option string) :=
  match ParseAddr host with
  | Some (IPv4 octets) => if bracketed then None else Some (ipv4_string octets, "valid_ipv4", None)
  | Some (IPv6 groups) => Some (canonicalIPv6 groups, "valid_ipv6", None)
  | None =>
      if bracketed || ContainsAny host ":[]" then None
      else match ToASCII host with
           | None => None
           | Some ascii =>
               let normalized := TrimSuffix (ToLower ascii) "." in
               if is_empty normalized || (253 <? len normalized) || HasSuffix normalized "."
                  || Contains normalized ".." || is_empty (Trim normalized "0123456789.")
               then None
               else Some (normalized, "valid_dns", authorityDomain rules normalized)
           end
  end.

Definition endpoint (status normalized : string) (port : option Z) : string :=
  (if String.eqb status "valid_ipv6" then "[" +:+ normalized +:+ "]" else normalized)
  +:+ match port with Some p => ":" +:+ Itoa p | None => "" end.

Definition rejected_authority (raw hostRaw : option string) (port : option Z) (status source sanitization : string)
    : Authority := {|
  AuthorityRaw := raw; HostRaw := hostRaw; HostNormalized := None; Port := port; AuthorityNormalized := None;
  RegistrableDomain := None; NormalizationVersion := AuthorityNormalizationVersion; ParseStatus := status;
  AuthoritySource := source; SanitizationStatus := sanitization |}.

Definition NormalizeAuthority (rules : gset string) (raw : option string) (source : string) (sanitized : bool)
    : Authority :=
  if negb (String.eqb idna_UnicodeVersion "15.0.0")
  then rejected_authority None None None "unsupported_idna_version" source "not_sanitized"
  else
    let sanitization := if sanitized then "sanitized" else "not_sanitized" in
    match raw with
    | None => rejected_authority None None None "missing" source sanitization
    | Some v =>
        if is_empty v then rejected_authority raw None None "missing" source sanitization
        else if unsafe v then rejected_authority None None None "invalid" source sanitization
        else if sanitized || HasPrefix (ToLower v) "hmac:"
        then rejected_authority (Some v) None None "sanitized" source "sanitized"
        else if negb (existsb (String.eqb source) authority_sources)
        then rejected_authority (Some v) None None "invalid" source sanitization
        else if ContainsAny v "/\?#%" || ContainsRune IsSpace v
        then rejected_authority (Some v) None None "invalid" source sanitization
        else match split_authority v with
        | None => rejected_authority (Some v) None None "invalid" source sanitization
        | Some (host, portText, bracketed) =>
            match parse_port portText with
            | None => rejected_authority (Some v) None None "invalid" source sanitization
            | Some port =>
                match host_form rules bracketed host with
                | None => rejected_authority (Some v) (Some host) None "invalid" source sanitization
                | Some (normalized, status, domain) =>
                    {| AuthorityRaw := Some v; HostRaw := Some host; HostNormalized := Some normalized;
                       Port := port; AuthorityNormalized := Some (endpoint status normalized port);
                       RegistrableDomain := domain; NormalizationVersion := AuthorityNormalizationVersion;
                       ParseStatus := status; AuthoritySource := source; SanitizationStatus := sanitization |}
                end
            end
        end
    end.
End authority.

(** ** IPv6 text is canonical and reads back *)

(** Where the ellipsis goes: nowhere, or a run of at least two zero groups. *)
Definition run_ok (zeros : list bool) (best : Z * Z) : bool :=
  let '(bs, bl) := best in
  (bs <? 0) || ((2 <=? bl) && (bs + bl <=? 8)
                && forallb (fun z => z) (take (Z.to_nat bl) (drop (Z.to_nat bs) zeros))).

Fixpoint all_bools (n : nat) : list (list bool) :=
  match n with O => [[]] | S n => (cons true <$> all_bools n) ++ (cons false <$> all_bools n) end.

Lemma all_bools_elem l : l ∈ all_bools (length l).
Proof.
  induction l as [|b l IH]; simpl; [by left|]. apply elem_of_app.
  destruct b; [left|right]; by apply list_elem_of_fmap_2.
Qed.

Lemma zero_runs_ok zeros : length zeros = 8%nat -> run_ok zeros (zero_runs 0 (-1) (-1) 1 zeros) = true.
Proof.
  intros Hl. assert (H : forallb (fun z => run_ok z (zero_runs 0 (-1) (-1) 1 z)) (all_bools 8) = true) by (vm_compute; reflexivity).
  rewrite forallb_forall in H. apply H, list_elem_of_In. rewrite <-Hl. apply all_bools_elem.
Qed.

Lemma zero_groups gs n : forallb (fun z => z) (take n (Z.eqb 0 <$> gs)) = true -> take n gs = replicate (length (take n gs)) 0.
Proof.
  revert n. induction gs as [|g gs IH]; intros [|n]; try done. rewrite fmap_cons. cbn [take forallb length replicate].
  intros [<-%Z.eqb_eq H]%andb_true_iff. by rewrite <-IH.
Qed.

(** The text is all groups, or the groups around a run of zeros. *)
Lemma canonicalIPv6_shape gs :
  length gs = 8%nat ->
  bytes (canonicalIPv6 gs) = join_groups gs \/
  exists gs1 gs2, (length gs1 + length gs2 < 8)%nat /\
    gs = gs1 ++ replicate (8 - (length gs1 + length gs2)) 0 ++ gs2 /\
    bytes (canonicalIPv6 gs) = join_groups gs1 ++ ":"%char :: ":"%char :: join_groups gs2.
Proof.
  intros Hl. unfold canonicalIPv6. pose proof (zero_runs_ok (Z.eqb 0 <$> gs)) as H. rewrite length_fmap in H.
  specialize (H Hl). destruct (zero_runs 0 (-1) (-1) 1 (Z.eqb 0 <$> gs)) as [bs bl]. unfold run_ok in H.
  destruct (Z.ltb_spec bs 0) as [_|Hbs]; [left; apply bytes_Join_groups|right]. cbn [orb] in H.
  apply andb_true_iff in H as [H Hz]. reflect_Z. rewrite <-fmap_drop in Hz. apply zero_groups in Hz.
  exists (take (Z.to_nat bs) gs), (drop (Z.to_nat (bs + bl)) gs).
  assert (E1 : length (take (Z.to_nat bs) gs) = Z.to_nat bs) by (rewrite length_take; lia).
  assert (E2 : length (drop (Z.to_nat (bs + bl)) gs) = (8 - Z.to_nat (bs + bl))%nat) by (rewrite length_drop; lia).
  rewrite E1, E2. split; [lia|]. split.
  - replace (8 - (Z.to_nat bs + (8 - Z.to_nat (bs + bl))))%nat with (Z.to_nat bl) by lia.
    replace (replicate (Z.to_nat bl) 0) with (take (Z.to_nat bl) (drop (Z.to_nat bs) gs)).
    + rewrite Z2Nat.inj_add, <-drop_drop by lia. by rewrite !take_drop.
    + rewrite Hz. f_equal. rewrite length_take, length_drop. lia.
  - rewrite !bytes_append, <-fmap_take, <-fmap_drop, !bytes_Join_groups. done.
Qed.

Lemma hex_bytes_no_dot g : group_ok g -> forallb (fun c => negb (in_set ".:%" c)) (hex_bytes g) = true.
Proof.
  intros [Hg _]%hex_bytes_charset. rewrite forallb_forall in Hg |- *. intros c Hc. apply Hg in Hc.
  destruct c as [[] [] [] [] [] [] [] []]; done.
Qed.

Lemma addr_family_groups gs rest :
  Forall group_ok gs -> starts_with ":" rest = true -> addr_family (join_groups gs ++ rest) = Some false.
Proof.
  intros Hgs Hr. assert (Hrest : forall l, starts_with ":" l = true -> addr_family l = Some false).
  { intros [|c l]; [done|]. cbn [starts_with]. by intros <-%Ascii.eqb_eq. }
  destruct gs as [|g [|g' gs]]; [by apply Hrest|..]; apply Forall_cons in Hgs as [Hg _].
  - cbn [join_groups]. rewrite addr_family_skip by by apply hex_bytes_no_dot. by apply Hrest.
  - change (join_groups (g :: g' :: gs)) with (hex_bytes g ++ ":"%char :: join_groups (g' :: gs)).
    rewrite <-app_assoc, addr_family_skip by by apply hex_bytes_no_dot. by apply Hrest.
Qed.

Lemma ParseAddr_canonicalIPv6 gs :
  Forall group_ok gs -> length gs = 8%nat -> ParseAddr (canonicalIPv6 gs) = Some (IPv6 gs).
Proof.
  intros Hgs Hl. unfold ParseAddr. destruct (canonicalIPv6_shape gs Hl) as [E|(gs1 & gs2 & Hlt & E & ->)].
  - rewrite E. destruct gs as [|g [|g' gs]]; try done. pose proof Hgs as [Hg _]%Forall_cons.
    assert (Hf : addr_family (join_groups (g :: g' :: gs)) = Some false).
    { change (join_groups (g :: g' :: gs)) with (join_groups [g] ++ ":"%char :: join_groups (g' :: gs)).
      by apply addr_family_groups; [apply Forall_singleton|]. }
    by rewrite Hf, parse_ipv6_plain.
  - rewrite E, !Forall_app in Hgs. destruct Hgs as (H1 & _ & H2).
    by rewrite addr_family_groups, parse_ipv6_ellipsis, <-E.
Qed.

(** ** Public suffixes as the list's algorithm defines them *)

Section suffixes.
Context (rules : gset string) (labels : list string).

Notation n := (Z.of_nat (length labels)).

(** The rules that match the labels from index [i] on. *)
Definition exact_rule (i : nat) : Prop := Join (drop i labels) "." ∈ rules.
Definition wildcard_rule (i : nat) : Prop := (0 < i)%nat /\ "*." +:+ Join (drop i labels) "." ∈ rules.
Definition exception_rule (i : nat) : Prop := "!" +:+ Join (drop i labels) "." ∈ rules.

(** The number of labels of a matching rule, the implicit rule [*] included. *)
Definition rule_length (s : Z) : Prop :=
  s = 1 \/ exists i, (i < length labels)%nat /\
    ((exact_rule i /\ s = n - Z.of_nat i) \/ (wildcard_rule i /\ s = n - Z.of_nat i + 1)).

(** The public suffix has the labels of the prevailing rule: the longest
    exception without its first label, or else the rule with the most labels. *)
Definition public_suffix (s : Z) : Prop :=
  (exists i, (i < length labels)%nat /\ exception_rule i /\ (forall j, (j < i)%nat -> ~ exception_rule j) /\
     s = n - Z.of_nat i - 1)
  \/ ((forall i, (i < length labels)%nat -> ~ exception_rule i) /\ rule_length s /\
      forall s', rule_length s' -> s' <= s).

Lemma suffix_loop_spec k i suffix :
  (k + i = length labels)%nat ->
  (forall j, (j < i)%nat -> ~ exception_rule j) -> rule_length suffix ->
  (forall j, (j < i)%nat -> (exact_rule j -> n - Z.of_nat j <= suffix) /\
                            (wildcard_rule j -> n - Z.of_nat j + 1 <= suffix)) -> 1 <= suffix ->
  public_suffix (suffix_loop rules n (Z.of_nat i) suffix (drop i labels)).
Proof.
  revert i suffix. induction k as [|k IH]; intros i suffix Hk Hex Hlen Hmax H1.
  { rewrite drop_ge by lia. right. split; [intros j Hj; apply Hex; lia|]. split; [done|].
    intros s' [->|(j & Hj & [[H ->]|[H ->]])]; [done|apply Hmax; [lia|done]..]. }
  destruct (drop i labels) as [|x l] eqn:Ed; [apply (f_equal length) in Ed; rewrite length_drop in Ed; simpl in Ed; lia|].
  assert (El : l = drop (S i) labels) by (change l with (drop 1 (x :: l)); rewrite <-Ed, drop_drop; f_equal; lia).
  cbn [suffix_loop]. rewrite <-Ed. cbn zeta. case_bool_decide as Hexc.
  { left. exists i. split; [lia|]. done. }
  set (s1 := if bool_decide (Join (drop i labels) "." ∈ rules) && _ then _ else suffix).
  set (s2 := if (_ && _ && _) then _ else s1).
  assert (Hs1 : suffix <= s1 /\ rule_length s1 /\ (exact_rule i -> n - Z.of_nat i <= s1)).
  { unfold s1. case_bool_decide as He; [destruct (Z.ltb_spec suffix (n - Z.of_nat i))|]; cbn [andb];
      split_and!; try lia; try done. right. exists i. split; [lia|]. by left. }
  destruct Hs1 as (Hs1 & Hl1 & He1).
  assert (Hs2 : s1 <= s2 /\ rule_length s2 /\ (wildcard_rule i -> n - Z.of_nat i + 1 <= s2)).
  { unfold s2. destruct (Z.ltb_spec 0 (Z.of_nat i)); [|cbn [andb]; split_and!; [lia|done|intros [? _]; lia]].
    case_bool_decide as He; [destruct (Z.ltb_spec s1 (n - Z.of_nat i + 1))|]; cbn [andb];
      split_and!; try lia; try done; [|by intros []].
    right. exists i. split; [lia|]. right. split; [split; [lia|done]|done]. }
  destruct Hs2 as (Hs2 & Hl2 & He2).
  rewrite El. replace (Z.of_nat i + 1) with (Z.of_nat (S i)) by lia. apply IH; [lia| |done| |lia].
  - intros j Hj. destruct (decide (j = i)) as [->|]; [done|apply Hex; lia].
  - intros j Hj. destruct (decide (j = i)) as [->|].
    + split; intros H; [specialize (He1 H)|specialize (He2 H)]; lia.
    + destruct (Hmax j ltac:(lia)) as [Ha Hb]. split; intros H; [specialize (Ha H)|specialize (Hb H)]; lia.
Qed.

Lemma public_suffix_loop : public_suffix (suffix_loop rules n 0 1 labels).
Proof. apply (suffix_loop_spec (length labels) 0 1); [lia|intros; lia|by left|intros; lia|lia]. Qed.

Lemma public_suffix_unique s s' : public_suffix s -> public_suffix s' -> s = s'.
Proof.
  intros [(i & Hi & He & Hl & ->)|(Hn & Hr & Hm)] [(j & Hj & He' & Hl' & ->)|(Hn' & Hr' & Hm')].
  - destruct (decide (i < j)%nat) as [Hlt|]; [by destruct (Hl' i Hlt)|].
    destruct (decide (j < i)%nat) as [Hlt|]; [by destruct (Hl j Hlt)|]. lia.
  - by destruct (Hn' i Hi).
  - by destruct (Hn j Hj).
  - specialize (Hm s' Hr'). specialize (Hm' s Hr). lia.
Qed.
End suffixes.

(** Registrable domains follow the public suffix list.  The labels of a host
    have exactly one public suffix length: that of the longest matching
    exception less its first label, or else of the longest matching rule, the
    implicit [*] included.  The registrable domain is the suffix and one more
    label, and there is none when the host has no further label. *)
Theorem registrable_domain_spec rules host :
  let labels := Split host "."%char in
  exists s, (forall s', public_suffix rules labels s' <-> s' = s) /\
    authorityDomain rules host
    = if Z.of_nat (length labels) <=? s then None
      else Some (Join (drop (Z.to_nat (Z.of_nat (length labels) - s - 1)) labels) ".").
Proof.
  intros labels. exists (suffix_loop rules (Z.of_nat (length labels)) 0 1 labels). split; [|done].
  intros s'. split; [|intros ->; apply public_suffix_loop].
  intros H. eapply public_suffix_unique; [exact H|apply public_suffix_loop].
Qed.

(** ** The normal form is fixed *)

(** StrictDomainName admits letters, digits, hyphens and dots only, and a name
    that ToASCII produced is its own ASCII form. *)
Class IDNALaws {Idna : IDNA} : Prop := {
  ToASCII_charset h a : ToASCII h = Some a ->
    forallb (fun c => is_letter c || is_digit c || in_set "-." c) (bytes a) = true;
  ToASCII_fixed h a : ToASCII h = Some a ->
    let n := TrimSuffix (ToLower a) "." in n <> "" -> HasSuffix n "." = false -> ToASCII n = Some n;
}.

(** The bytes of a normal form, and those of a host without colons. *)
Definition plain_char (c : ascii) : bool := is_lower c || is_digit c || in_set "-." c.
Definition safe_char (c : ascii) : bool := plain_char c || in_set ":[]" c.

Lemma safe_char_facts c :
  safe_char c = true ->
  ((code c <? 128) && negb (IsControl (code c)) && negb (IsSpace (code c)) && negb (in_set "/\?#%" c)
   && negb (Ascii.eqb "@" c) && Ascii.eqb (lower_ascii c) c) = true.
Proof. destruct c as [[] [] [] [] [] [] [] []]; vm_compute; done. Qed.

Lemma plain_char_facts c :
  plain_char c = true -> (safe_char c && negb (in_set ":[]" c)) = true.
Proof. destruct c as [[] [] [] [] [] [] [] []]; vm_compute; done. Qed.

Ltac safe_char_fact :=
  let c := fresh "c" in let H := fresh "H" in
  intros c H; apply safe_char_facts in H; reflect_Z; done.

(** The guards on raw text pass on the bytes of a normal form. *)
Lemma safe_text v :
  forallb safe_char (bytes v) = true -> len v <= 1024 ->
  unsafe v = false /\ ToLower v = v /\ ContainsAny v "/\?#%" = false /\ ContainsRune IsSpace v = false.
Proof.
  intros Hs Hl. unfold unsafe, ContainsAny.
  assert (Ha : forallb (fun c => code c <? 128) (bytes v) = true).
  { apply (forallb_weaken _ _ _ Hs). intros c H. apply safe_char_facts in H. by repeat (apply andb_true_iff in H as [H _]). }
  rewrite ValidString_ascii, !ContainsRune_ascii, Contains_byte, (proj2 (Z.ltb_ge 1024 _)) by done.
  rewrite !(existsb_none _ _ _ Hs) by safe_char_fact. split_and!; try done.
  apply ToLower_fixed, (forallb_weaken _ _ _ Hs). intros c H. by apply safe_char_facts, andb_true_iff in H as [_ H].
Qed.

(** A host without colons or brackets. *)
Definition plain_host (h : string) : Prop := h <> "" /\ forallb plain_char (bytes h) = true.

Lemma plain_host_no_colon h : plain_host h -> existsb (Ascii.eqb ":") (bytes h) = false.
Proof.
  intros [_ H]. apply (existsb_none _ _ _ H). intros c Hc. apply plain_char_facts, andb_true_iff in Hc as [_ Hc].
  destruct (Ascii.eqb_spec ":" c) as [<-|]; [done|done].
Qed.

Definition port_suffix (port : option Z) : string := match port with Some p => ":" +:+ Itoa p | None => "" end.

Definition port_ok (port : option Z) : Prop := match port with Some p => 1 <= p <= 65535 | None => True end.

Lemma Itoa_port p :
  1 <= p <= 65535 ->
  forallb is_digit (bytes (Itoa p)) = true /\ 1 <= len (Itoa p) <= 5 /\ ParseInt64 (Itoa p) = Some p.
Proof.
  intros Hp. destruct (Itoa_digits p ltac:(lia)) as (Hd & _ & Hne & Hk). split; [done|]. split.
  - rewrite len_bytes. specialize (Hk 5%nat ltac:(lia)). change (10 ^ Z.of_nat 5) with 100000 in Hk. specialize (Hk ltac:(lia)).
    destruct (bytes (Itoa p)); [done|]. simpl in *. lia.
  - apply ParseInt64_Itoa. lia.
Qed.

Lemma digits_in_set l : forallb is_digit l = true -> forallb (in_set "0123456789") l = true.
Proof.
  intros H. apply (forallb_weaken _ _ _ H). intros c. destruct c as [[] [] [] [] [] [] [] []]; vm_compute; done.
Qed.

Lemma parse_port_ok t port : parse_port t = Some port -> port_ok port /\ parse_port (Itoa <$> port) = Some port.
Proof.
  destruct t as [t|]; cbn [parse_port]; [|by intros [= <-]]. destruct (_ || _); [done|].
  destruct (ParseInt64 t) as [p|]; [|done]. destruct (_ || _) eqn:Eb; [done|]. intros [= <-]. reflect_Z.
  split; [simpl; lia|]. cbn [fmap option_fmap option_map parse_port].
  destruct (Itoa_port p ltac:(lia)) as (Hd & Hl & ->).
  rewrite (proj2 (Z.eqb_neq (len (Itoa p)) 0)), (proj2 (Z.ltb_ge 5 _)) by lia. rewrite Trim_empty, digits_in_set by done.
  cbn [negb orb]. by rewrite (proj2 (Z.ltb_ge p 1)), (proj2 (Z.ltb_ge 65535 p)) by lia.
Qed.

(** ** Splitting a normal form *)

Lemma split_plain h port :
  plain_host h -> port_ok port ->
  split_authority (h +:+ port_suffix port) = Some (h, Itoa <$> port, false).
Proof.
  intros Hh Hp. pose proof (plain_host_no_colon h Hh) as Hc.
  assert (Hs : forall v, split_authority (h +:+ v)
    = if CountByte (h +:+ v) ":"%char =? 1
      then let '(host, port, _) := Cut (h +:+ v) ":"%char in Some (host, Some port, false)
      else Some (h +:+ v, None, false)).
  { destruct Hh as [Hne Hh]. destruct h as [|c h]; [done|]. intros v. simpl in Hh. apply andb_true_iff in Hh as [Hh _].
    unfold split_authority. simpl. destruct c as [[] [] [] [] [] [] [] []]; done. }
  rewrite Hs, CountByte_app, (CountByte_none h) by done. destruct port as [p|]; cbn [port_suffix].
  - destruct (Itoa_port p Hp) as (Hd & _). change (":" +:+ Itoa p) with (String ":" (Itoa p)).
    cbn [CountByte]. rewrite CountByte_none.
    + change (0 + ((if Ascii.eqb ":" ":" then 1 else 0) + 0) =? 1) with true. cbn match. by rewrite Cut_at.
    + apply (existsb_none _ _ _ Hd). intros c Hcd. by destruct (Ascii.eqb_spec ":" c) as [<-|].
  - cbn [CountByte]. by rewrite append_nil_r.
Qed.

Lemma split_bracketed h port :
  existsb (Ascii.eqb "]") (bytes h) = false ->
  split_authority ("[" +:+ h +:+ "]" +:+ port_suffix port) = Some (h, Itoa <$> port, true).
Proof.
  intros Hh. change ("[" +:+ h +:+ "]" +:+ port_suffix port) with (String "[" (h +:+ String "]" (port_suffix port))).
  cbn [split_authority]. rewrite Cut_at by done. by destruct port.
Qed.

(** ** The normal form of a host is its own *)

Lemma join_groups_charset gs :
  Forall group_ok gs ->
  forallb (fun c => is_digit c || in_range 97 102 c || Ascii.eqb ":" c) (join_groups gs) = true /\
  (length (join_groups gs) <= 5 * length gs)%nat.
Proof.
  assert (Hw : forall g, group_ok g ->
    forallb (fun c => is_digit c || in_range 97 102 c || Ascii.eqb ":" c) (hex_bytes g) = true /\ (length (hex_bytes g) <= 4)%nat).
  { intros g Hg. destruct (hex_bytes_charset g Hg) as [Hc Hl]. split; [|done].
    apply (forallb_weaken _ _ _ Hc). by intros c ->. }
  induction gs as [|g gs IH]; intros Hgs; [done|]. apply Forall_cons in Hgs as [Hg Hgs].
  destruct (Hw g Hg) as [Hc Hl], (IH Hgs) as [IHc IHl]. destruct gs as [|g' gs]; [split; [done|simpl in *; lia]|].
  change (join_groups (g :: g' :: gs)) with (hex_bytes g ++ ":"%char :: join_groups (g' :: gs)).
  rewrite forallb_app, Hc. cbn [forallb]. rewrite IHc. split; [done|]. rewrite length_app. cbn [length] in *. lia.
Qed.

Lemma canonicalIPv6_text gs :
  Forall group_ok gs -> length gs = 8%nat ->
  forallb (fun c => is_digit c || in_range 97 102 c || Ascii.eqb ":" c) (bytes (canonicalIPv6 gs)) = true /\
  len (canonicalIPv6 gs) <= 255.
Proof.
  intros Hgs Hl. rewrite len_bytes. destruct (canonicalIPv6_shape gs Hl) as [E|(gs1 & gs2 & Hlt & E & ->)].
  - rewrite E. destruct (join_groups_charset gs Hgs) as [Hc Hb]. split; [done|lia].
  - rewrite E, !Forall_app in Hgs. destruct Hgs as (H1 & _ & H2).
    destruct (join_groups_charset gs1 H1) as [Hc1 Hb1], (join_groups_charset gs2 H2) as [Hc2 Hb2].
    rewrite forallb_app, length_app, Hc1. cbn [forallb length]. rewrite Hc2. split; [done|lia].
Qed.

Lemma octet_text_bytes n :
  octet_ok n -> forallb is_digit (bytes (Itoa n)) = true /\ (length (bytes (Itoa n)) <= 3)%nat.
Proof.
  intros Hn. pose proof (octet_text_Itoa n Hn) as H. unfold octet_text in H. apply andb_true_iff in H as [Hd H].
  split; [done|]. destruct (bytes (Itoa n)) as [|? [|? [|? [|]]]]; simpl; (done || lia).
Qed.

Lemma ipv4_text octets :
  Forall octet_ok octets -> length octets = 4%nat ->
  plain_host (ipv4_string octets) /\ len (ipv4_string octets) <= 253 /\
  ParseAddr (ipv4_string octets) = Some (IPv4 octets).
Proof.
  intros Ho Hl. destruct octets as [|a [|b [|c [|d [|]]]]]; try done. pose proof Ho as Hall.
  rewrite !Forall_cons in Ho. destruct Ho as (Ha & Hb & Hc & Hd & _).
  pose proof (ipv4_string_bytes a b c d) as E.
  destruct (octet_text_bytes a Ha) as [Da La], (octet_text_bytes b Hb) as [Db Lb],
    (octet_text_bytes c Hc) as [Dc Lc], (octet_text_bytes d Hd) as [Dd Ld].
  assert (Hp : forall l, forallb is_digit l = true -> forallb plain_char l = true).
  { intros l Hdl. apply (forallb_weaken _ _ _ Hdl). intros x Hx. unfold plain_char. by rewrite Hx, orb_true_r. }
  split; [split|split].
  - intros Hne. rewrite Hne in E. symmetry in E. by apply app_nil in E as [_ E].
  - rewrite E. repeat (rewrite forallb_app || cbn [forallb]). by rewrite !Hp.
  - rewrite len_bytes, E. repeat (rewrite length_app || cbn [length]). lia.
  - unfold ParseAddr. rewrite parse_ipv4_string by done. rewrite E, addr_family_skip; [done|].
    apply (forallb_weaken _ _ _ Da). intros x. destruct x as [[] [] [] [] [] [] [] []]; vm_compute; done.
Qed.

Lemma plain_family l : forallb plain_char l = true -> addr_family l = Some true \/ addr_family l = None.
Proof.
  induction l as [|c l IH]; [by right|]. cbn [forallb addr_family]. intros [Hc Hl]%andb_true_iff.
  destruct (Ascii.eqb c "."); [by left|]. destruct (Ascii.eqb_spec c ":") as [->|]; [done|].
  destruct (Ascii.eqb_spec c "%") as [->|]; [done|]. by apply IH.
Qed.

(** A name with a byte other than digits and dots is no address. *)
Lemma plain_no_addr h :
  plain_host h -> is_empty (Trim h "0123456789.") = false -> ParseAddr h = None.
Proof.
  intros [_ Hp] Ht. unfold ParseAddr. destruct (plain_family (bytes h) Hp) as [-> | ->]; [|done].
  destruct (parse_ipv4 (bytes h)) as [o|] eqn:Eo; [|done]. apply ipv4_fields_charset in Eo.
  rewrite Trim_empty in Ht. assert (forallb (in_set "0123456789.") (bytes h) = true); [|congruence].
  apply (forallb_weaken _ _ _ Eo). intros c. destruct c as [[] [] [] [] [] [] [] []]; vm_compute; done.
Qed.

Section normal_form.
Context {Idna : IDNA} {L : IDNALaws} (rules : gset string).

Lemma host_form_normal bracketed host normalized status domain :
  host_form rules bracketed host = Some (normalized, status, domain) ->
  if String.eqb status "valid_ipv6" then
    existsb (Ascii.eqb "]") (bytes normalized) = false /\ forallb safe_char (bytes normalized) = true /\
    len normalized <= 255 /\ host_form rules true normalized = Some (normalized, status, domain)
  else plain_host normalized /\ len normalized <= 253 /\
    host_form rules false normalized = Some (normalized, status, domain).
Proof.
  unfold host_form at 1. destruct (ParseAddr host) as [[octets|groups]|] eqn:Ep.
  - destruct bracketed; [done|]. intros [= <- <- <-]. cbn match.
    assert (Ho : Forall octet_ok octets /\ length octets = 4%nat).
    { unfold ParseAddr in Ep. destruct (addr_family _) as [[]|]; [|by destruct (parse_ipv6 _)|done].
      destruct (parse_ipv4 (bytes host)) as [o|] eqn:Eo; [|done]. injection Ep as <-. by apply parse_ipv4_range in Eo. }
    destruct Ho as [Ho Hl]. destruct (ipv4_text octets Ho Hl) as (H1 & H2 & H3). split_and!; try done.
    unfold host_form. by rewrite H3.
  - intros [= <- <- <-]. cbn match.
    assert (Hg : Forall group_ok groups /\ length groups = 8%nat).
    { unfold ParseAddr in Ep. destruct (addr_family _) as [[]|]; [by destruct (parse_ipv4 _)| |done].
      destruct (parse_ipv6 (bytes host)) as [g|] eqn:Eo; [|done]. injection Ep as <-. by apply parse_ipv6_range in Eo. }
    destruct Hg as [Hg Hl]. destruct (canonicalIPv6_text groups Hg Hl) as [Hc Hlen]. split_and!; [| |done|].
    + apply (existsb_none _ _ _ Hc). intros c. destruct c as [[] [] [] [] [] [] [] []]; vm_compute; done.
    + apply (forallb_weaken _ _ _ Hc). intros c. destruct c as [[] [] [] [] [] [] [] []]; vm_compute; done.
    + unfold host_form. by rewrite ParseAddr_canonicalIPv6.
  - destruct (_ || _) eqn:Eb; [done|]. destruct (ToASCII host) as [a|] eqn:Ea; [|done]. cbn zeta.
    destruct (_ || is_empty (Trim _ _)) eqn:Eg; [done|]. intros [= <- <- <-]. cbn match.
    set (h := TrimSuffix (ToLower a) ".") in *.
    apply orb_false_iff in Eg as [[[[G1 G2]%orb_false_iff G3]%orb_false_iff G4]%orb_false_iff G5].
    pose proof G2 as Hlen. apply Z.ltb_ge in Hlen.
    assert (Hne : h <> "") by (intros E; by rewrite E in G1).
    assert (Hh : plain_host h).
    { split; [done|]. pose proof (ToASCII_charset host a Ea) as Hc. unfold h.
      apply TrimSuffix_forallb. unfold ToLower. rewrite map_string_bytes.
      rewrite forallb_map. apply (forallb_weaken _ _ _ Hc). intros c.
      destruct c as [[] [] [] [] [] [] [] []]; vm_compute; done. }
    assert (Hlow : ToLower h = h).
    { destruct Hh as [_ Hh]. apply ToLower_fixed, (forallb_weaken _ _ _ Hh). intros c Hc.
      apply plain_char_facts, andb_true_iff in Hc as [Hc _]. by apply safe_char_facts, andb_true_iff in Hc as [_ Hc]. }
    assert (Hsuf : TrimSuffix h "." = h) by (unfold TrimSuffix; by rewrite G3).
    split; [done|]. split; [done|]. pose proof (ToASCII_fixed host a Ea) as Hfix. cbn zeta in Hfix. fold h in Hfix.
    unfold host_form. rewrite plain_no_addr, Hfix by done.
    assert (Hno : ContainsAny h ":[]" = false).
    { destruct Hh as [_ Hh]. apply (existsb_none _ _ _ Hh). intros c Hc. apply plain_char_facts, andb_true_iff in Hc as [_ Hc].
      by apply negb_true_iff in Hc. }
    rewrite Hno. cbn [orb]. cbn zeta. by rewrite Hlow, Hsuf, G1, G2, G3, G4, G5.
Qed.

(** What a valid result was computed from. *)
Lemma NormalizeAuthority_valid raw source a e :
  NormalizeAuthority rules (Some raw) source false = a -> AuthorityNormalized a = Some e ->
  exists host portText bracketed port normalized status domain,
    idna_UnicodeVersion = "15.0.0" /\ existsb (String.eqb source) authority_sources = true /\
    parse_port portText = Some port /\ host_form rules bracketed host = Some (normalized, status, domain) /\
    e = endpoint status normalized port /\
    a = {| AuthorityRaw := Some raw; HostRaw := Some host; HostNormalized := Some normalized;
           Port := port; AuthorityNormalized := Some e; RegistrableDomain := domain;
           NormalizationVersion := AuthorityNormalizationVersion; ParseStatus := status;
           AuthoritySource := source; SanitizationStatus := "not_sanitized" |}.
Proof.
  intros <-. unfold NormalizeAuthority. destruct (String.eqb_spec idna_UnicodeVersion "15.0.0") as [Ev|]; cbn [negb]; [|by intros [=]].
  destruct (is_empty raw); [by intros [=]|]. destruct (unsafe raw); [by intros [=]|]. cbn [orb].
  destruct (HasPrefix _ _); [by intros [=]|].
  destruct (existsb (String.eqb source) authority_sources) eqn:Es; cbn [negb]; [|by intros [=]].
  destruct (_ || _); [by intros [=]|].
  destruct (split_authority raw) as [[[host portText] bracketed]|]; [|by intros [=]].
  destruct (parse_port portText) as [port|] eqn:Ep; [|by intros [=]].
  destruct (host_form rules bracketed host) as [[[normalized status] domain]|] eqn:Eh; [|by intros [=]].
  intros [= <-]. exists host, portText, bracketed, port, normalized, status, domain. by split_and!.
Qed.
Lemma HasPrefix_split s p : HasPrefix s p = true -> exists r, s = p +:+ r.
Proof.
  intros (rest & E)%HasPrefix_bytes. exists (of_bytes rest).
  rewrite <-(of_bytes_bytes s), <-(of_bytes_bytes (p +:+ of_bytes rest)), bytes_append, bytes_of_bytes. by f_equal.
Qed.

(** Only a host called hmac, with a port, looks like a sanitized authority. *)
Lemma plain_not_hmac h port :
  plain_host h -> (h = "hmac" -> port = None) -> HasPrefix (h +:+ port_suffix port) "hmac:" = false.
Proof.
  intros Hh Hhmac. destruct (HasPrefix _ _) eqn:E; [|done]. apply HasPrefix_split in E as [r E].
  pose proof (plain_host_no_colon h Hh) as Hc. change ("hmac:" +:+ r) with ("hmac" +:+ String ":" r) in E.
  destruct port as [p|]; cbn [port_suffix] in E.
  - apply (f_equal (fun s => Cut s ":"%char)) in E. change (":" +:+ Itoa p) with (String ":" (Itoa p)) in E.
    rewrite !Cut_at in E by done. injection E as -> _. by discriminate (Hhmac eq_refl).
  - rewrite append_nil_r in E. rewrite E, bytes_append, existsb_app in Hc. done.
Qed.

(** What the last stages compute on a split normal form. *)
Lemma NormalizeAuthority_split v source host portText bracketed port normalized status domain :
  idna_UnicodeVersion = "15.0.0" -> existsb (String.eqb source) authority_sources = true ->
  v <> "" -> forallb safe_char (bytes v) = true -> len v <= 1024 -> HasPrefix v "hmac:" = false ->
  split_authority v = Some (host, portText, bracketed) -> parse_port portText = Some port ->
  host_form rules bracketed host = Some (normalized, status, domain) ->
  NormalizeAuthority rules (Some v) source false = {|
    AuthorityRaw := Some v; HostRaw := Some host; HostNormalized := Some normalized; Port := port;
    AuthorityNormalized := Some (endpoint status normalized port); RegistrableDomain := domain;
    NormalizationVersion := AuthorityNormalizationVersion; ParseStatus := status; AuthoritySource := source;
    SanitizationStatus := "not_sanitized" |}.
Proof.
  intros Ev Es Hne Hsafe Hlen Hh Hsplit Hport Hform.
  destruct (safe_text v Hsafe Hlen) as (Hu & Hlow & Hany & Hsp).
  unfold NormalizeAuthority. rewrite Ev, Hu, Hlow, Hh, Es, Hany, Hsp, Hsplit, Hport, Hform.
  destruct (is_empty v) eqn:E; [by apply is_empty_true in E|]. done.
Qed.

Lemma port_suffix_safe port :
  port_ok port -> forallb safe_char (bytes (port_suffix port)) = true /\ len (port_suffix port) <= 6.
Proof.
  intros Hp. destruct port as [p|]; [|done]. destruct (Itoa_port p Hp) as (Hd & Hl & _). cbn [port_suffix].
  rewrite len_bytes, bytes_append in *. rewrite length_app, forallb_app. cbn [bytes]. split.
  - simpl. apply (forallb_weaken _ _ _ Hd). intros c H. unfold safe_char, plain_char. by rewrite H, orb_true_r.
  - simpl. lia.
Qed.

Lemma plain_safe h : plain_host h -> forallb safe_char (bytes h) = true.
Proof. intros [_ H]. apply (forallb_weaken _ _ _ H). by intros c [? _]%plain_char_facts%andb_true_iff. Qed.

(** C28. Normal forms are fixed points.  Normalizing the normal form of a valid
    authority, from the same source, gives that normal form again: same host,
    port, kind, registrable domain and text.  The one exception is a host called
    hmac with a port, whose normal form reads as a sanitized value. *)
Theorem authority_normal_form raw source a e :
  NormalizeAuthority rules (Some raw) source false = a -> AuthorityNormalized a = Some e ->
  (HostNormalized a = Some "hmac" -> Port a = None) ->
  NormalizeAuthority rules (Some e) source false = {|
    AuthorityRaw := Some e; HostRaw := HostNormalized a; HostNormalized := HostNormalized a; Port := Port a;
    AuthorityNormalized := Some e; RegistrableDomain := RegistrableDomain a;
    NormalizationVersion := NormalizationVersion a; ParseStatus := ParseStatus a;
    AuthoritySource := source; SanitizationStatus := "not_sanitized" |}.
Proof.
  intros Ha He Hhmac.
  destruct (NormalizeAuthority_valid raw source a e Ha He)
    as (host & portText & bracketed & port & normalized & status & domain & Ev & Es & Hport & Hform & -> & Ea).
  clear Ha He. subst a. cbn [HostNormalized Port RegistrableDomain NormalizationVersion ParseStatus] in *.
  apply parse_port_ok in Hport as [Hpok Hport]. destruct (port_suffix_safe port Hpok) as [Hps Hpl].
  apply host_form_normal in Hform. unfold endpoint. fold (port_suffix port).
  destruct (String.eqb status "valid_ipv6") eqn:Estat.
  - destruct Hform as (Hbr & Hsafe & Hlen & Hform).
    replace (("[" +:+ normalized +:+ "]") +:+ port_suffix port) with ("[" +:+ normalized +:+ "]" +:+ port_suffix port)
      by (rewrite !append_assoc; done).
    rewrite (NormalizeAuthority_split _ source normalized (Itoa <$> port) true port normalized status domain);
      unfold endpoint; rewrite ?Estat; try done.
    + fold (port_suffix port). by rewrite !append_assoc.
    + change (bytes ("[" +:+ normalized +:+ "]" +:+ port_suffix port)) with ("["%char :: bytes (normalized +:+ "]" +:+ port_suffix port)).
      rewrite !bytes_append. cbn [forallb]. rewrite !forallb_app, Hsafe, Hps. done.
    + rewrite len_bytes in *. rewrite !bytes_append, !length_app. simpl. lia.
    + by apply split_bracketed.
  - destruct Hform as (Hplain & Hlen & Hform).
    rewrite (NormalizeAuthority_split _ source normalized (Itoa <$> port) false port normalized status domain);
      unfold endpoint; rewrite ?Estat; try done.
    + intros E. apply (f_equal bytes) in E. rewrite bytes_append in E. apply app_nil in E as [E _].
      destruct Hplain as [Hne _]. apply Hne. by rewrite <-(of_bytes_bytes normalized), E.
    + rewrite bytes_append, forallb_app, plain_safe by done. done.
    + rewrite len_bytes in *. rewrite bytes_append, length_app. lia.
    + apply plain_not_hmac; [done|]. intros ->. by apply Hhmac.
    + by apply split_plain.
Qed.
End normal_form.

(** ** Witness: names that are ASCII already *)

Definition ascii_idna : IDNA := {|
  ToASCII h := if forallb (fun c => is_letter c || is_digit c || in_set "-." c) (bytes h) then Some (ToLower h) else None;
  idna_UnicodeVersion := "15.0.0" |}.

Lemma ascii_idna_laws : IDNALaws (Idna := ascii_idna).
Proof.
  assert (Hlow : forall h, forallb (fun c => is_letter c || is_digit c || in_set "-." c) (bytes h) = true ->
    forallb plain_char (bytes (ToLower h)) = true).
  { intros h Hh. unfold ToLower. rewrite map_string_bytes, forallb_map. apply (forallb_weaken _ _ _ Hh).
    intros c. destruct c as [[] [] [] [] [] [] [] []]; vm_compute; done. }
  assert (Hplain : forall l, forallb plain_char l = true ->
    forallb (fun c => is_letter c || is_digit c || in_set "-." c) l = true).
  { intros l Hl. apply (forallb_weaken _ _ _ Hl). intros c. destruct c as [[] [] [] [] [] [] [] []]; vm_compute; done. }
  split; cbn [ToASCII ascii_idna]; intros h a; destruct (forallb _ (bytes h)) eqn:E; try done; intros [= <-].
  - by apply Hplain, Hlow.
  - cbn zeta. intros _ _. set (n := TrimSuffix _ _). assert (Hn : forallb plain_char (bytes n) = true).
    { apply TrimSuffix_forallb. rewrite ToLower_idem. by apply Hlow. }
    rewrite Hplain by done. f_equal. apply ToLower_fixed, (forallb_weaken _ _ _ Hn).
    intros c Hc. apply plain_char_facts, andb_true_iff in Hc as [Hc _]. by apply safe_char_facts, andb_true_iff in Hc as [_ Hc].
Qed.

Definition sample_rules : gset string := {["uk"; "co.uk"; "*.ck"; "!www.ck"]}.

Definition sample_authority : Authority := {|
  AuthorityRaw := Some "EXAMPLE.co.uk.:08080"; HostRaw := Some "EXAMPLE.co.uk."; HostNormalized := Some "example.co.uk";
  Port := Some 8080; AuthorityNormalized := Some "example.co.uk:8080"; RegistrableDomain := Some "example.co.uk";
  NormalizationVersion := "proxy-authority-v1"; ParseStatus := "valid_dns"; AuthoritySource := "query";
  SanitizationStatus := "not_sanitized" |}.

Lemma authority_normal_form_witness :
  HostNormalized (NormalizeAuthority (Idna := ascii_idna) sample_rules (Some "example.co.uk:8080") "query" false)
  = Some "example.co.uk".
Proof.
  rewrite (authority_normal_form (Idna := ascii_idna) (L := ascii_idna_laws) sample_rules "EXAMPLE.co.uk.:08080" "query"
    sample_authority "example.co.uk:8080"); [reflexivity|vm_compute; reflexivity|reflexivity|discriminate].
Defined.

Example sample_ipv6 :
  canonicalIPv6 <$> [[8193; 3512; 0; 0; 1; 0; 0; 1]; [0; 0; 0; 0; 0; 0; 0; 0]; [1; 0; 2; 0; 0; 0; 3; 0]]
  = ["2001:db8::1:0:0:1"; "::"; "1:0:2::3:0"].
Proof. reflexivity. Qed.

(** A host called hmac is taken for a sanitized value. *)
Example sample_hmac :
  ParseStatus (NormalizeAuthority (Idna := ascii_idna) sample_rules (Some "hmac:443") "query" false) = "sanitized".
Proof. vm_compute. reflexivity. Qed.
