(* ===== verification/Pagination.v ===== *)
(** * Pages and cursors of reports (internal/reporting/pagination.go)

    Cursors and their decoding, keyset pages, and a client that follows the
    cursors of a report from its first page to its last. *)

From S2P Require Import Prelude GoErrors GoStrings GoSort GoCrypto QueryScope.
From Stdlib Require Import Sorted.
#[local] Open Scope go_scope.

(** ** Page sizes *)

Definition defaultPageSize := 500.
Definition maxPageSize := 1000.

Definition normalizePageSize (size : Z) : Z :=
  if size <=? 0 then defaultPageSize else if maxPageSize <? size then maxPageSize else size.

(** ** Cursors *)

Record pageCursor := {
  Version : Z;
  Resource : string;
  Fingerprint : string;
  NodeAfter : string;
  EdgeAfter : string;
  DeviceAfter : string;
  TimeAfter : string;
  CountAfter : Z;
  NodesDone : bool;
  EdgesDone : bool;
}.

(** Base64 of JSON: encoding/base64 and encoding/json. *)
Class CursorCodec := {
  encodePageCursor : pageCursor -> string;
  parse_cursor : string -> option pageCursor;
}.

(** A cursor that is encoded is read back. *)
Class CursorLaws `{CursorCodec} : Prop := {
  cursor_roundtrip c : parse_cursor (encodePageCursor c) = Some c;
  cursor_nonempty c : encodePageCursor c <> "";
}.

Definition first_cursor (resource fingerprint : string) : pageCursor := {|
  Version := 1; Resource := resource; Fingerprint := fingerprint; NodeAfter := ""; EdgeAfter := "";
  DeviceAfter := ""; TimeAfter := ""; CountAfter := 0; NodesDone := false; EdgesDone := false |}.

Definition decodePageCursor `{CursorCodec} (encoded resource fingerprint : string) : pageCursor + app_error :=
  if is_empty encoded then inl (first_cursor resource fingerprint)
  else
    match parse_cursor encoded with
    | None => inr (Validation "invalid page_cursor")
    | Some cursor =>
        if negb (Version cursor =? 1) || negb (String.eqb (Resource cursor) resource)
           || negb (String.eqb (Fingerprint cursor) fingerprint)
        then inr (Validation "invalid page_cursor")
        else inl cursor
    end.

(** encoding/json of a request, which rejects NaN and times past year 9999. *)
Class RequestJSON (F : Type) := marshal : F -> string + error.

Definition pageFingerprint `{RequestJSON F} (value : F) : string + error :=
  let! encoded := marshal value in inl (sha256Hex encoded).

(** ** Nullable timestamps in SQL *)

(** [DESC], which puts NULL first; and a timestamp below another, where a
    comparison with NULL is not true. *)
Definition seen_desc (a b : option time) : bool :=
  match a, b with
  | None, Some _ => true
  | _, None => false
  | Some s, Some t => t <? s
  end.

Definition seen_lt (a b : option time) : bool := is_true a (fun s => is_true b (fun t => s <? t)).

#[export] Instance seen_desc_order : WeakOrder seen_desc.
Proof.
  split; intros; repeat match goal with t : option time |- _ => destruct t end; simpl in *; reflect_Z; try done;
    apply Z.ltb_ge; lia.
Qed.

(** ** Keyset pages *)

(** [... AND key > after ORDER BY key LIMIT n]; an empty cursor is no condition. *)
Definition keyset {A} (key : A -> string) (after : string) (n : Z) (rows : list A) : list A :=
  take (Z.to_nat n) (List.filter (fun r => is_empty after || str_ltb after (key r))
                       (sort_by (less_on key str_ltb) rows)).

(** [LIMIT size + 1]: the extra row tells whether there is more. *)
Definition cut_page {A} (size : Z) (rows : list A) : list A * bool :=
  if size <? Z.of_nat (length rows) then (take (Z.to_nat size) rows, true) else (rows, false).

Definition fetch_page {A} (key : A -> string) (after : string) (done_ : bool) (size : Z) (rows : list A)
    : list A * bool :=
  if done_ then ([], false) else cut_page size (keyset key after (size + 1) rows).

Definition last_id {A} (key : A -> string) (old : string) (rows : list A) : string :=
  match last rows with Some r => key r | None => old end.

Section keyset_pages.
Context {A : Type} (key : A -> string).

Notation sorted rows := (sort_by (less_on key str_ltb) rows).

(** [after] and [done_] stand at position [k] of the sorted rows. *)
Definition at_position (rows : list A) (k : nat) (after : string) (done_ : bool) : Prop :=
  (k <= length rows)%nat /\
  (done_ = true -> k = length rows) /\
  (done_ = false -> match k with O => after = "" | S i => key <$> sorted rows !! i = Some after end).

Lemma sorted_length rows : length (sorted rows) = length rows.
Proof. apply sort_by_length. Qed.

(** In a sorted list without equal keys the rows after the [i]-th are those
    with a greater key. *)
Lemma filter_after rows i x :
  NoDup (key <$> rows) -> sorted rows !! i = Some x ->
  List.filter (fun r => str_ltb (key x) (key r)) (sorted rows) = drop (S i) (sorted rows).
Proof.
  intros Hnd. apply (sort_by_after (less_on key str_ltb)); [by eapply NoDup_fmap_1|].
  intros a b Ha Hb Hab Hba. apply (NoDup_key_inj key rows); [done..|]. by apply str_ltb_total.
Qed.

Lemma keyset_at rows k after n :
  NoDup (key <$> rows) -> "" ∉ key <$> rows -> at_position rows k after false ->
  keyset key after n rows = take (Z.to_nat n) (drop k (sorted rows)).
Proof.
  intros Hnd He (_ & _ & Ha). specialize (Ha eq_refl). unfold keyset. f_equal. destruct k as [|i].
  - subst after. rewrite drop_0. induction (sorted rows) as [|y l IH]; [done|]. cbn [List.filter]. simpl in *. by rewrite IH.
  - destruct (sorted rows !! i) as [x|] eqn:Ei; [|done]. injection Ha as <-.
    rewrite <-(filter_after rows i x) by done. apply List.filter_ext. intros r.
    destruct (is_empty (key x)) eqn:Ex; [|done]. apply is_empty_true in Ex. destruct He.
    rewrite <-Ex. apply list_elem_of_fmap_2. rewrite <-(sort_by_elem (less_on key str_ltb)). by eapply list_elem_of_lookup_2.
Qed.

(** A page is the next [size] rows, and says whether rows remain. *)
Lemma fetch_page_at rows k after done_ size :
  NoDup (key <$> rows) -> "" ∉ key <$> rows -> 0 < size -> at_position rows k after done_ ->
  fetch_page key after done_ size rows
  = (take (Z.to_nat size) (drop k (sorted rows)), size <? Z.of_nat (length rows - k)).
Proof.
  intros Hnd He Hs Hp. unfold fetch_page. destruct done_.
  - destruct Hp as (_ & Hd & _). rewrite (Hd eq_refl). rewrite drop_ge by (rewrite sorted_length; lia).
    rewrite take_nil. f_equal. symmetry. apply Z.ltb_ge. lia.
  - rewrite (keyset_at rows k) by done. unfold cut_page.
    rewrite length_take, length_drop, sorted_length.
    destruct (Z.ltb_spec size (Z.of_nat (Z.to_nat (size + 1) `min` (length rows - k)))) as [Hm|Hm].
    + rewrite take_take. f_equal; [f_equal; lia|]. symmetry. apply Z.ltb_lt. lia.
    + rewrite take_ge by (rewrite length_drop, sorted_length; lia).
      rewrite take_ge by (rewrite length_drop, sorted_length; lia). f_equal. symmetry. apply Z.ltb_ge. lia.
Qed.

(** The position after a page. *)
Definition advance (rows : list A) (k : nat) (size : Z) : nat := Nat.min (k + Z.to_nat size) (length rows).

Lemma at_next rows k after done_ size :
  0 < size -> at_position rows k after done_ ->
  at_position rows (advance rows k size)
    (last_id key after (take (Z.to_nat size) (drop k (sorted rows))))
    (negb (size <? Z.of_nat (length rows - k))).
Proof.
  intros Hs (Hk & Hd & Ha). unfold at_position, advance. split; [lia|split].
  - intros H. reflect_Z. lia.
  - intros H. reflect_Z. destruct done_; [specialize (Hd eq_refl); lia|]. clear Hd Ha.
    assert (Hn : (k + Z.to_nat size < length rows)%nat) by lia.
    rewrite Nat.min_l by lia. destruct (k + Z.to_nat size)%nat as [|i] eqn:Ei; [lia|].
    unfold last_id. rewrite last_lookup, length_take, length_drop, sorted_length.
    replace (Z.to_nat size `min` (length rows - k))%nat with (Z.to_nat size) by lia.
    rewrite lookup_take_lt by lia. rewrite lookup_drop.
    replace (k + Nat.pred (Z.to_nat size))%nat with i by lia.
    destruct (lookup_lt_is_Some_2 (sorted rows) i) as [x Hx]; [rewrite sorted_length; lia|]. by rewrite Hx.
Qed.

Lemma drop_page rows k size :
  take (Z.to_nat size) (drop k (sorted rows)) ++ drop (advance rows k size) (sorted rows) = drop k (sorted rows).
Proof.
  unfold advance. destruct (Nat.le_gt_cases (k + Z.to_nat size) (length rows)) as [H|H].
  - rewrite Nat.min_l by done. rewrite <-drop_drop. apply take_drop.
  - rewrite Nat.min_r by lia. rewrite (drop_ge _ (length rows)) by (rewrite sorted_length; lia).
    rewrite app_nil_r. apply take_ge. rewrite length_drop, sorted_length. lia.
Qed.
End keyset_pages.

(** A cursor the server encoded is decoded by the same resource and request. *)
Lemma decode_encoded `{CursorLaws} c resource fingerprint :
  Version c = 1 -> Resource c = resource -> Fingerprint c = fingerprint ->
  is_empty (encodePageCursor c) = false /\ decodePageCursor (encodePageCursor c) resource fingerprint = inl c.
Proof.
  intros Hv <- <-. unfold decodePageCursor. destruct (is_empty (encodePageCursor c)) eqn:E.
  { apply is_empty_true in E. by apply cursor_nonempty in E. }
  by rewrite cursor_roundtrip, Hv, !String.eqb_refl.
Qed.

(** A cursor of another version, resource or request is refused. *)
Lemma decode_foreign `{CursorCodec} cursor resource fingerprint c :
  decodePageCursor cursor resource fingerprint = inl c ->
  Version c = 1 /\ Resource c = resource /\ Fingerprint c = fingerprint.
Proof.
  unfold decodePageCursor. destruct (is_empty cursor); [by intros [= <-]|].
  destruct (parse_cursor cursor) as [c'|]; [|done].
  destruct (_ || _) eqn:E; [done|]. intros [= <-].
  apply orb_false_iff in E as [E Hf]. apply orb_false_iff in E as [Hv Hr].
  rewrite negb_false_iff in Hv, Hr, Hf. rewrite Z.eqb_eq in Hv. rewrite String.eqb_eq in Hr, Hf. done.
Qed.

(** ** A client that follows the cursors *)

Section follow.
Context {Page : Type} (next_of : Page -> string) (fetch : string -> option Page).

Fixpoint follow (fuel : nat) (cursor : string) : option (list Page) :=
  match fuel with
  | O => None
  | S fuel =>
      match fetch cursor with
      | None => None
      | Some page =>
          if is_empty (next_of page) then Some [page] else cons page <$> follow fuel (next_of page)
      end
  end.

(** The server's position behind a cursor: when more remains, where a page
    leaves it, what a page shows, and how much is left. *)
Context {P : Type} (at_ : P -> string -> Prop) (more : P -> bool) (advance : P -> P) (weight : P -> nat).
Context (shows : P -> Page -> Prop).

(** The pages from a position to the end. *)
Inductive trail : P -> list Page -> Prop :=
| trail_last p page : more p = false -> shows p page -> trail p [page]
| trail_next p page pages :
    more p = true -> shows p page -> trail (advance p) pages -> trail p (page :: pages).

Lemma follow_trail :
  (forall p cursor, at_ p cursor -> exists page, fetch cursor = Some page /\ shows p page /\
     if more p then next_of page <> "" /\ at_ (advance p) (next_of page) /\ (weight (advance p) < weight p)%nat
     else next_of page = "") ->
  forall fuel p cursor, at_ p cursor -> (weight p < fuel)%nat ->
  exists pages, follow fuel cursor = Some pages /\ trail p pages.
Proof.
  intros Hstep. induction fuel as [|fuel IH]; intros p cursor Hat Hw; [lia|].
  destruct (Hstep p cursor Hat) as (page & Hf & Hs & Hm). cbn [follow]. rewrite Hf.
  destruct (more p) eqn:Em.
  - destruct Hm as (Hne & Hat' & Hw'). destruct (is_empty (next_of page)) eqn:Ee; [by apply is_empty_true in Ee|].
    destruct (IH _ _ Hat') as (pages & -> & Ht); [lia|]. exists (page :: pages). split; [done|]. by apply trail_next.
  - rewrite Hm. exists [page]. split; [done|]. by apply trail_last.
Qed.
End follow.

(** Positions in one list of rows: the pages cut the rest into chunks. *)
Section chunks.
Context {A Page : Type} (rows : list A) (size : nat) (shows : list A -> Page -> Prop).

Definition rows_left (i : nat) : bool := (size <? length (drop i rows))%nat.

Lemma trail_chunks i pages :
  trail rows_left (fun i => (i + size)%nat) (fun i page => shows (take size (drop i rows)) page) i pages ->
  exists chunks, Forall2 shows chunks pages /\ mjoin chunks = drop i rows /\
    Forall (fun chunk => (length chunk <= size)%nat) chunks.
Proof.
  induction 1 as [i page Hm Hs|i page pages Hm Hs _ (chunks & Hf & Hj & Hl)].
  - unfold rows_left in Hm. apply Nat.ltb_ge in Hm. exists [drop i rows]. rewrite take_ge in Hs by done.
    split; [by constructor|]. split; [apply app_nil_r|by constructor].
  - exists (take size (drop i rows) :: chunks). split; [by constructor|]. split.
    + change (take size (drop i rows) ++ mjoin chunks = drop i rows). rewrite Hj, <-drop_drop. apply take_drop.
    + constructor; [rewrite length_take; lia|done].
Qed.
End chunks.

(** Pages that show the image of their chunk show the image of the rest. *)
Lemma trail_items {A B Page} (rows : list A) size (f : A -> B) (items : Page -> list B) i pages :
  trail (rows_left rows size) (fun i => (i + size)%nat)
    (fun i page => items page = f <$> take size (drop i rows)) i pages ->
  (pages ≫= items) = f <$> drop i rows /\ Forall (fun page => (length (items page) <= size)%nat) pages.
Proof.
  intros Ht. destruct (trail_chunks rows size (fun chunk page => items page = f <$> chunk) i pages Ht)
    as (chunks & Hf & <- & Hl). clear Ht. revert Hl.
  induction Hf as [|chunk page chunks pages E _ IH]; intros Hl; [done|].
  apply Forall_cons in Hl as [Hc Hl]. destruct (IH Hl) as [Hb Hp]. split.
  - change (mjoin (chunk :: chunks)) with (chunk ++ mjoin chunks). by rewrite bind_cons, fmap_app, E, Hb.
  - constructor; [|done]. by rewrite E, length_fmap.
Qed.

(** ** Codecs for concrete runs *)

#[export] Instance pageCursor_eq_dec : EqDecision pageCursor.
Proof. solve_decision. Defined.

Definition cursor_tuple (c : pageCursor) :=
  (Version c, Resource c, Fingerprint c, NodeAfter c, EdgeAfter c, DeviceAfter c, TimeAfter c, CountAfter c,
   NodesDone c, EdgesDone c).

Definition tuple_cursor t : pageCursor :=
  let '(v, r, f, n, e, d, t, c, nd, ed) := t in
  {| Version := v; Resource := r; Fingerprint := f; NodeAfter := n; EdgeAfter := e; DeviceAfter := d;
     TimeAfter := t; CountAfter := c; NodesDone := nd; EdgesDone := ed |}.

#[export] Instance pageCursor_countable : Countable pageCursor.
Proof. refine (inj_countable' cursor_tuple tuple_cursor _). by intros []. Defined.

(** The Countable encoding of cursors has the laws. *)
Definition demo_codec : CursorCodec := {|
  encodePageCursor := text_of;
  parse_cursor := of_text |}.

Lemma demo_codec_laws : CursorLaws (H := demo_codec).
Proof. split; [apply of_text_text_of|apply text_of_nonempty]. Qed.
