(* ===== verification/ReportMeta.v ===== *)
(** * The description of a report (internal/reportmeta/report.go) *)

From S2P Require Import Prelude.

(** Scope is the request the report answers. *)
Record Metadata (F : Type) := {
  ReportScope : F;
  EntityGrain : string;
  CountMeaning : string;
  ObservationStart : option time;
  ObservationEnd : option time;
  ObservationBasis : string;
  Freshness : string;
  SourceWatermark : option time;
  ProjectionWatermark : option time;
  LoadedRows : Z;
  TotalRows : option Z;
  IncompleteCoverage : bool;
  UnavailableCapabilities : list string;
  Live : bool;
}.
#[global] Arguments ReportScope {_} _.
#[global] Arguments LoadedRows {_} _.
#[global] Arguments TotalRows {_} _.
#[global] Arguments ObservationStart {_} _.
#[global] Arguments ObservationEnd {_} _.

Section metadata.
Context {F : Type}.

Definition New (scope : F) (grain meaning basis : string) (loaded : Z) (total : option Z) : Metadata F := {|
  ReportScope := scope; EntityGrain := grain; CountMeaning := meaning; ObservationStart := None;
  ObservationEnd := None; ObservationBasis := basis; Freshness := "unavailable"; SourceWatermark := None;
  ProjectionWatermark := None; LoadedRows := loaded; TotalRows := total; IncompleteCoverage := true;
  UnavailableCapabilities := ["source_watermark"; "projection_watermark"; "sensor_coverage"]; Live := true |}.

Definition observed_between (first last : option time) (m : Metadata F) : Metadata F := {|
  ReportScope := ReportScope m; EntityGrain := EntityGrain F m; CountMeaning := CountMeaning F m;
  ObservationStart := first; ObservationEnd := last; ObservationBasis := ObservationBasis F m;
  Freshness := Freshness F m; SourceWatermark := SourceWatermark F m;
  ProjectionWatermark := ProjectionWatermark F m; LoadedRows := LoadedRows m; TotalRows := TotalRows m;
  IncompleteCoverage := IncompleteCoverage F m; UnavailableCapabilities := UnavailableCapabilities F m;
  Live := Live F m |}.
End metadata.
