(* ===== verification/Inventory.v ===== *)
(** * The device inventory: requests, rows and nodes (internal/reporting:
    inventory_types.go, inventory_normalize.go, inventory_queries.go,
    inventory_assembly.go)

    The filters of an inventory and their normal form, the condition they put on
    registered devices, the loop that fetches them, and the nodes and edges a
    device and a pending merge candidate become. *)

From S2P Require Import Prelude GoErrors GoStrings GoSort GoFloats QueryScope Pagination.
From Stdlib Require Import Sorted.
#[local] Open Scope go_scope.

(** ** Requests *)

Definition inventoryDefaultLimit := 400.
Definition inventoryMaxLimit := 1000.

Definition InventoryGroupingRegistry : string := "registry".
Definition InventoryGroupingCMDB : string := "cmdb".
Definition InventoryGroupingSimilarity : string := "similarity".

Record InventoryFilters := {
  FilterRegistered : option bool;
  NeedsIdentityReview : bool;
  Query : string;
  SourceMACs : list string;
  SensorIDs : list string;
  ObservedAfter : option time;
  ObservedBefore : option time;
  Sort : string;
  Grouping : string;
  LocationIDs : list string;
  OwnerIDs : list string;
  ActiveOnly : bool;
  MinDedupConfidence : option float64;
  FilterTags : list string;
  Limit : Z;
  Scope : string;
  PageCursor : string;
  PageSize : Z;
}.

(** The filters with the paging fields replaced. *)
Definition with_page (cursor : string) (limit size : Z) (f : InventoryFilters) : InventoryFilters := {|
  FilterRegistered := FilterRegistered f; NeedsIdentityReview := NeedsIdentityReview f; Query := Query f;
  SourceMACs := SourceMACs f; SensorIDs := SensorIDs f; ObservedAfter := ObservedAfter f;
  ObservedBefore := ObservedBefore f; Sort := Sort f; Grouping := Grouping f; LocationIDs := LocationIDs f;
  OwnerIDs := OwnerIDs f; ActiveOnly := ActiveOnly f; MinDedupConfidence := MinDedupConfidence f;
  FilterTags := FilterTags f; Limit := limit; Scope := Scope f; PageCursor := cursor; PageSize := size |}.

Definition clamp_confidence (value : float64) : float64 :=
  let value := if f_ltb value f_zero then f_zero else value in
  if f_gtb value (f64_of_Z 1) then f64_of_Z 1 else value.

Definition normalizeInventoryFilters (f : InventoryFilters) : InventoryFilters + app_error :=
  let scope := TrimSpace (Scope f) in
  if negb (is_empty scope) && negb (String.eqb scope "all") && negb (String.eqb scope "page")
  then inr (Validation ("unsupported scope " +:+ Quote scope))
  else if is_empty scope && negb (is_empty (PageCursor f))
  then inr (Validation "page_cursor requires scope all")
  else
    let size := if String.eqb scope "page" && (PageSize f <=? 0) then 50 else PageSize f in
    let size := if String.eqb scope "all" || String.eqb scope "page" then normalizePageSize size else size in
    let ordered := match ObservedAfter f, ObservedBefore f with
                   | Some after, Some before => after <? before
                   | _, _ => true
                   end in
    if negb ordered then inr (Validation "observed_after must be before observed_before")
    else
      let sort := if is_empty (Sort f) then "last_observed" else Sort f in
      if negb (String.eqb sort "last_observed") && negb (String.eqb sort "identifier")
      then inr (Validation "unsupported inventory sort")
      else
        let grouping := if is_empty (Grouping f) then InventoryGroupingRegistry else Grouping f in
        if negb (String.eqb grouping InventoryGroupingRegistry) && negb (String.eqb grouping InventoryGroupingCMDB)
           && negb (String.eqb grouping InventoryGroupingSimilarity)
        then inr (Validation ("unsupported inventory grouping " +:+ Quote grouping))
        else
          let limit := if Limit f <=? 0 then inventoryDefaultLimit else Limit f in
          let limit := if inventoryMaxLimit <? limit then inventoryMaxLimit else limit in
          inl {| FilterRegistered := FilterRegistered f; NeedsIdentityReview := NeedsIdentityReview f;
                 Query := TrimSpace (Query f); SourceMACs := NormalizeLowerList (SourceMACs f);
                 SensorIDs := NormalizeGraphList (SensorIDs f); ObservedAfter := ObservedAfter f;
                 ObservedBefore := ObservedBefore f; Sort := sort; Grouping := grouping;
                 LocationIDs := NormalizeGraphList (LocationIDs f); OwnerIDs := NormalizeGraphList (OwnerIDs f);
                 ActiveOnly := ActiveOnly f; MinDedupConfidence := clamp_confidence <$> MinDedupConfidence f;
                 FilterTags := NormalizeLowerList (FilterTags f); Limit := limit; Scope := scope;
                 PageCursor := PageCursor f; PageSize := size |}.

(** ** Tables *)

(** Rows of devices, merge_candidates and search_documents.  The JSON columns
    are NULL or arrays of strings. *)
Record device_row := {
  mac : string;
  display_name : option string;
  owner_id : option string;
  location_id : option string;
  first_registered : option time;
  first_seen : option time;
  last_seen : option time;
  active : bool;
  registered : bool;
  tags : option (list string);
  known_macs : option (list string);
}.

Record merge_candidate := {
  candidate_id : string;
  mac_a : string;
  mac_b : string;
  status : string;
  confidence : float64;
  expires_at : option time;
}.

Record evidence_row := {
  sd_status : string;
  sd_source_kind : string;
  sd_source_mac : option string;
  sd_location_id : option string;
  sd_sensor_id : option string;
  sd_observed_at : option time;
}.

Record inventory_store := {
  devices : list device_row;
  merge_candidates : list merge_candidate;
  search_documents : list evidence_row;
  (** The kind and source of the rows of graph_edges. *)
  graph_edges : list (string * string);
}.

(** ** The condition on devices *)

Definition pending (now : time) (c : merge_candidate) : bool :=
  String.eqb (status c) "pending" && match expires_at c with Some e => now <? e | None => true end.

Definition in_review (st : inventory_store) (now : time) (m : string) : bool :=
  existsb (fun c => pending now c && (String.eqb m (mac_a c) || String.eqb m (mac_b c))) (merge_candidates st).

Definition has_evidence (st : inventory_store) (f : InventoryFilters) (m : string) : bool :=
  existsb (fun d =>
    String.eqb (sd_status d) "active" && String.eqb (sd_source_kind d) "event"
    && is_true (sd_source_mac d) (fun s => String.eqb s m)
    && in_list (LocationIDs f) (sd_location_id d) && in_list (SensorIDs f) (sd_sensor_id d)
    && match ObservedAfter f with Some t => is_true (sd_observed_at d) (fun o => t <=? o) | None => true end
    && match ObservedBefore f with Some t => is_true (sd_observed_at d) (fun o => o <? t) | None => true end)
  (search_documents st).

Definition wants_evidence (f : InventoryFilters) : bool :=
  negb (bool_decide (SensorIDs f = [])) || bool_decide (is_Some (ObservedAfter f))
  || bool_decide (is_Some (ObservedBefore f)).

Definition tag_clause (d : device_row) (tag : string) : bool :=
  if String.eqb tag "device" then true
  else if String.eqb tag "registered" then registered d
  else if String.eqb tag "active" then active d
  else if HasPrefix tag "owner:" then String.eqb (ToLower (coalesce (owner_id d))) (TrimPrefix tag "owner:")
  else if HasPrefix tag "location:" then String.eqb (ToLower (coalesce (location_id d))) (TrimPrefix tag "location:")
  else existsb (fun v => String.eqb (ToLower v) tag) (default [] (tags d)).

Definition inventoryPageWhere (st : inventory_store) (now : time) (f : InventoryFilters) (d : device_row) : bool :=
  in_list (SourceMACs f) (Some (mac d))
  && match FilterRegistered f with Some b => Bool.eqb (registered d) b | None => true end
  && (is_empty (Query f)
      || Contains (ToLower (mac d)) (ToLower (Query f))
      || Contains (ToLower (coalesce (display_name d))) (ToLower (Query f)))
  && (negb (NeedsIdentityReview f) || in_review st now (mac d))
  && (negb (wants_evidence f) || has_evidence st f (mac d))
  && in_list (LocationIDs f) (location_id d)
  && in_list (OwnerIDs f) (owner_id d)
  && (negb (ActiveOnly f) || active d)
  && forallb (tag_clause d) (FilterTags f).

(** ** Rows as Go values *)

Record inventoryDeviceRow := {
  MAC : string;
  DisplayName : string;
  OwnerID : string;
  LocationID : string;
  FirstRegistered : option time;
  LastSeen : option time;
  Active : bool;
  Registered : bool;
  Tags : list string;
  KnownMACs : list string;
}.

(** The tags a device has by its other columns are added to the stored ones. *)
Definition inventoryDeviceTags (row : inventoryDeviceRow) : list string :=
  NormalizeLowerList (Tags row ++ ["device"]
    ++ (if Registered row then ["registered"] else [])
    ++ (if Active row then ["active"] else [])
    ++ (if is_empty (OwnerID row) then [] else ["owner:" +:+ ToLower (OwnerID row)])
    ++ (if is_empty (LocationID row) then [] else ["location:" +:+ ToLower (LocationID row)])).

Definition with_tags (tags : list string) (row : inventoryDeviceRow) : inventoryDeviceRow := {|
  MAC := MAC row; DisplayName := DisplayName row; OwnerID := OwnerID row; LocationID := LocationID row;
  FirstRegistered := FirstRegistered row; LastSeen := LastSeen row; Active := Active row;
  Registered := Registered row; Tags := tags; KnownMACs := KnownMACs row |}.

(** A scanned row before its derived tags. *)
Definition scan_row (d : device_row) : inventoryDeviceRow := {|
  MAC := mac d; DisplayName := coalesce (display_name d); OwnerID := coalesce (owner_id d);
  LocationID := coalesce (location_id d); FirstRegistered := first_registered d; LastSeen := last_seen d;
  Active := active d; Registered := registered d; Tags := TagsFromJSON (default [] (tags d));
  KnownMACs := default [] (known_macs d) |}.

Definition inventory_row (d : device_row) : inventoryDeviceRow :=
  with_tags (inventoryDeviceTags (scan_row d)) (scan_row d).

Definition inventoryTagsMatch (actual required : list string) : bool :=
  forallb (ContainsFold actual) required.

(** ** Fetching devices *)

(** [ORDER BY last_seen DESC, mac ASC] *)
Definition recent_first : device_row -> device_row -> bool :=
  less_then last_seen seen_desc (fun d => d) (less_on mac str_ltb).

(** [last_seen < $t OR (last_seen = $t AND mac > $m)] *)
Definition recent_after (seen : time) (after : string) (d : device_row) : bool :=
  is_true (last_seen d) (fun s => (s <? seen) || ((s =? seen) && str_ltb after (mac d))).

(** The rows of one statement, from its first to the one that fills the limit;
    the last row scanned, and whether the limit was reached. *)
Fixpoint scan_page (limit : Z) (required : list string) (rows : list device_row) (devices : list inventoryDeviceRow)
    (cursor : time * string) : list inventoryDeviceRow * (time * string) * bool :=
  match rows with
  | [] => (devices, cursor, false)
  | d :: rows =>
      let cursor := (default time_zero (last_seen d), mac d) in
      let row := inventory_row d in
      if inventoryTagsMatch (Tags row) required then
        let devices := devices ++ [row] in
        if limit <=? Z.of_nat (length devices) then (devices, cursor, true)
        else scan_page limit required rows devices cursor
      else scan_page limit required rows devices cursor
  end.

(** The statements, one turn each; no result when the fuel runs out. *)
Fixpoint fetch_loop (fuel : nat) (st : inventory_store) (now : time) (f : InventoryFilters)
    (devices_ : list inventoryDeviceRow) (cursor : time * string) : option (list inventoryDeviceRow) :=
  match fuel with
  | O => None
  | S fuel =>
      if Limit f <=? Z.of_nat (length devices_) then Some devices_
      else
        let page := take (Z.to_nat (Limit f))
          (sort_by recent_first (List.filter (fun d => inventoryPageWhere st now f d
             && (IsZero (fst cursor) || recent_after (fst cursor) (snd cursor) d)) (devices st))) in
        let '(devices_, cursor, full) := scan_page (Limit f) (FilterTags f) page devices_ cursor in
        if full || (Z.of_nat (length page) <? Limit f) then Some devices_
        else fetch_loop fuel st now f devices_ cursor
  end.

Definition fetchInventoryDevices (fuel : nat) (st : inventory_store) (now : time) (f : InventoryFilters)
    : option (list inventoryDeviceRow) :=
  fetch_loop fuel st now f [] (time_zero, "").

(** ** Nodes and edges *)

Definition InventoryNodeDevice : string := "device".
Definition InventoryNodeOwner : string := "owner".
Definition InventoryNodeLocationAsset : string := "location_asset".
Definition InventoryNodeCluster : string := "cluster".
Definition InventoryNodeMergeCandidate : string := "merge_candidate".

Definition InventoryEdgeOwns : string := "owns".
Definition InventoryEdgeLocatedAt : string := "located_at".
Definition InventoryEdgeClusterMember : string := "cluster_member".
Definition InventoryEdgeMergeCandidate : string := "merge_candidate".
Definition InventoryEdgeCandidatePair : string := "candidate_pair".

Record InventoryNode := {
  ID : string;
  Kind : string;
  Label : string;
  NodeMAC : string;
  NodeKnownMACs : list string;
  NodeDisplayName : string;
  NodeOwnerID : string;
  NodeLocationID : string;
  NodeFirstRegistered : option time;
  NodeFirstSeen : option time;
  NodeLastSeen : option time;
  NodeActive : bool;
  NodeRegistered : option bool;
  PendingReviewCount : option Z;
  NoAPLink : option bool;
  SimilarityClusterID : string;
  DedupConfidence : option float64;
  NodeTags : list string;
}.

Record InventoryEdge := {
  EdgeID : string;
  Source : string;
  Target : string;
  EdgeKind : string;
  Weight : option float64;
}.

(** The maps a report is assembled in. *)
Notation assembly := (gmap string InventoryNode * gmap string InventoryEdge)%type.

Definition put_node (n : InventoryNode) (m : assembly) : assembly := (<[ID n := n]> (fst m), snd m).
Definition put_edge (e : InventoryEdge) (m : assembly) : assembly := (fst m, <[EdgeID e := e]> (snd m)).

Definition deviceID (m : string) : string := "device:" +:+ ToLower m.
Definition ownerID (o : string) : string := "owner:" +:+ o.
Definition locationID (l : string) : string := "location:" +:+ l.
Definition owns_id (o m : string) : string := "owns:" +:+ ownerID o +:+ ":" +:+ deviceID m.
Definition located_id (m l : string) : string := "located_at:" +:+ deviceID m +:+ ":" +:+ locationID l.

Definition device_node (row : inventoryDeviceRow) : InventoryNode := {|
  ID := deviceID (MAC row); Kind := InventoryNodeDevice;
  Label := if is_empty (DisplayName row) then MAC row else DisplayName row;
  NodeMAC := MAC row; NodeKnownMACs := KnownMACs row; NodeDisplayName := DisplayName row;
  NodeOwnerID := OwnerID row; NodeLocationID := LocationID row;
  NodeFirstRegistered := FirstRegistered row; NodeFirstSeen := None; NodeLastSeen := LastSeen row;
  NodeActive := Active row; NodeRegistered := Some (Registered row); PendingReviewCount := None;
  NoAPLink := None; SimilarityClusterID := ""; DedupConfidence := None; NodeTags := Tags row |}.

Definition owner_node (o : string) : InventoryNode := {|
  ID := ownerID o; Kind := InventoryNodeOwner; Label := o; NodeMAC := ""; NodeKnownMACs := [];
  NodeDisplayName := ""; NodeOwnerID := o; NodeLocationID := ""; NodeFirstRegistered := None;
  NodeFirstSeen := None; NodeLastSeen := None; NodeActive := true; NodeRegistered := None;
  PendingReviewCount := None; NoAPLink := None; SimilarityClusterID := ""; DedupConfidence := None;
  NodeTags := [] |}.

Definition location_node (l : string) : InventoryNode := {|
  ID := locationID l; Kind := InventoryNodeLocationAsset; Label := l; NodeMAC := ""; NodeKnownMACs := [];
  NodeDisplayName := ""; NodeOwnerID := ""; NodeLocationID := l; NodeFirstRegistered := None;
  NodeFirstSeen := None; NodeLastSeen := None; NodeActive := true; NodeRegistered := None;
  PendingReviewCount := None; NoAPLink := None; SimilarityClusterID := ""; DedupConfidence := None;
  NodeTags := [] |}.

Definition addInventoryDevice (grouping : string) (m : assembly) (row : inventoryDeviceRow) : assembly :=
  let id := deviceID (MAC row) in
  let m := put_node (device_node row) m in
  if negb (String.eqb grouping InventoryGroupingCMDB) then m
  else
    let m := if is_empty (OwnerID row) then m
             else put_edge {| EdgeID := owns_id (OwnerID row) (MAC row); Source := ownerID (OwnerID row);
                              Target := id; EdgeKind := InventoryEdgeOwns; Weight := None |}
                    (put_node (owner_node (OwnerID row)) m) in
    if is_empty (LocationID row) then m
    else put_edge {| EdgeID := located_id (MAC row) (LocationID row); Source := id;
                     Target := locationID (LocationID row); EdgeKind := InventoryEdgeLocatedAt; Weight := None |}
           (put_node (location_node (LocationID row)) m).

(** ** Merge candidates *)

Record pendingInventoryCandidate := { cid : string; macA : string; macB : string; cconfidence : float64 }.

Definition pending_row (c : merge_candidate) : pendingInventoryCandidate :=
  {| cid := candidate_id c; macA := mac_a c; macB := mac_b c; cconfidence := confidence c |}.

Definition mergeID (c : string) : string := "merge:" +:+ c.
Definition clusterID (c : string) : string := "cluster:" +:+ c.
Definition candidate_edge_id (c m : string) : string := "merge_candidate:" +:+ mergeID c +:+ ":" +:+ deviceID m.
Definition member_edge_id (c m : string) : string := "cluster_member:" +:+ clusterID c +:+ ":" +:+ deviceID m.
Definition pair_edge_id (a b : string) : string := "candidate_pair:" +:+ deviceID a +:+ ":" +:+ deviceID b.

Definition candidate_node (c : pendingInventoryCandidate) : InventoryNode := {|
  ID := mergeID (cid c); Kind := InventoryNodeMergeCandidate; Label := macA c +:+ " / " +:+ macB c;
  NodeMAC := ""; NodeKnownMACs := []; NodeDisplayName := ""; NodeOwnerID := ""; NodeLocationID := "";
  NodeFirstRegistered := None; NodeFirstSeen := None; NodeLastSeen := None; NodeActive := true;
  NodeRegistered := None; PendingReviewCount := None; NoAPLink := None; SimilarityClusterID := cid c;
  DedupConfidence := Some (cconfidence c); NodeTags := ["merge-review"] |}.

Definition cluster_node (c : pendingInventoryCandidate) : InventoryNode := {|
  ID := clusterID (cid c); Kind := InventoryNodeCluster; Label := "Similarity " +:+ String.substring 0 8 (cid c);
  NodeMAC := ""; NodeKnownMACs := []; NodeDisplayName := ""; NodeOwnerID := ""; NodeLocationID := "";
  NodeFirstRegistered := None; NodeFirstSeen := None; NodeLastSeen := None; NodeActive := true;
  NodeRegistered := None; PendingReviewCount := None; NoAPLink := None; SimilarityClusterID := cid c;
  DedupConfidence := None; NodeTags := ["similarity:pending"] |}.

(** A device node that is a member of a candidate. *)
Definition member_node (c : pendingInventoryCandidate) (n : InventoryNode) : InventoryNode := {|
  ID := ID n; Kind := Kind n; Label := Label n; NodeMAC := NodeMAC n; NodeKnownMACs := NodeKnownMACs n;
  NodeDisplayName := NodeDisplayName n; NodeOwnerID := NodeOwnerID n; NodeLocationID := NodeLocationID n;
  NodeFirstRegistered := NodeFirstRegistered n; NodeFirstSeen := NodeFirstSeen n;
  NodeLastSeen := NodeLastSeen n; NodeActive := NodeActive n; NodeRegistered := NodeRegistered n;
  PendingReviewCount := PendingReviewCount n; NoAPLink := NoAPLink n; SimilarityClusterID := cid c;
  DedupConfidence := Some (cconfidence c); NodeTags := NodeTags n |}.

Definition candidate_edges (c : pendingInventoryCandidate) : list InventoryEdge :=
  let weight := Some (cconfidence c) in
  [ {| EdgeID := candidate_edge_id (cid c) (macA c); Source := mergeID (cid c); Target := deviceID (macA c);
       EdgeKind := InventoryEdgeMergeCandidate; Weight := weight |};
    {| EdgeID := candidate_edge_id (cid c) (macB c); Source := mergeID (cid c); Target := deviceID (macB c);
       EdgeKind := InventoryEdgeMergeCandidate; Weight := weight |};
    {| EdgeID := pair_edge_id (macA c) (macB c); Source := deviceID (macA c); Target := deviceID (macB c);
       EdgeKind := InventoryEdgeCandidatePair; Weight := weight |};
    {| EdgeID := member_edge_id (cid c) (macA c); Source := deviceID (macA c); Target := clusterID (cid c);
       EdgeKind := InventoryEdgeClusterMember; Weight := weight |};
    {| EdgeID := member_edge_id (cid c) (macB c); Source := deviceID (macB c); Target := clusterID (cid c);
       EdgeKind := InventoryEdgeClusterMember; Weight := weight |} ].

(** The nodes and edges of a candidate whose devices pass a condition. *)
Definition link_candidate (passes : InventoryNode -> bool) (m : assembly) (c : pendingInventoryCandidate) : assembly :=
  match fst m !! deviceID (macA c), fst m !! deviceID (macB c) with
  | Some deviceA, Some deviceB =>
      if negb (passes deviceA) || negb (passes deviceB) then m
      else
        let m := put_node (cluster_node c) (put_node (candidate_node c) m) in
        let m := (<[deviceID (macB c) := member_node c deviceB]>
                    (<[deviceID (macA c) := member_node c deviceA]> (fst m)), snd m) in
        foldl (fun m e => put_edge e m) m (candidate_edges c)
  | _, _ => m
  end.

Definition addSimilarityCandidate : assembly -> pendingInventoryCandidate -> assembly :=
  link_candidate (fun _ => true).

Definition devicePassesSimilarityFilters (f : InventoryFilters) (n : InventoryNode) : bool :=
  negb (ActiveOnly f && negb (NodeActive n))
  && (bool_decide (LocationIDs f = []) || is_empty (NodeLocationID n) || ContainsFold (LocationIDs f) (NodeLocationID n))
  && (bool_decide (OwnerIDs f = []) || is_empty (NodeOwnerID n) || ContainsFold (OwnerIDs f) (NodeOwnerID n))
  && inventoryTagsMatch (NodeTags n) (FilterTags f).

Definition minimumInventoryConfidence (f : InventoryFilters) : float64 := default f_zero (MinDedupConfidence f).

(** [confidence >= $1]; neither is NaN. *)
Definition confident (f : InventoryFilters) (c : merge_candidate) : bool :=
  SFleb (minimumInventoryConfidence f) (confidence c).

(** [ORDER BY confidence DESC, candidate_id] *)
Definition confident_first : merge_candidate -> merge_candidate -> bool :=
  less_then confidence (flip_less sf_less) (fun c => c) (less_on candidate_id str_ltb).

Definition attachSimilarityInventory (st : inventory_store) (now : time) (f : InventoryFilters) (m : assembly) : assembly :=
  let candidates := take (Z.to_nat (Limit f))
    (sort_by confident_first (List.filter (fun c => pending now c && confident f c) (merge_candidates st))) in
  foldl (link_candidate (devicePassesSimilarityFilters f)) m (pending_row <$> candidates).

(** ** The nodes and edges of a report, in id order *)

Definition nodes_of (m : assembly) : list InventoryNode := sort_by (less_on ID str_ltb) (map_to_list (fst m)).*2.
Definition edges_of (m : assembly) : list InventoryEdge := sort_by (less_on EdgeID str_ltb) (map_to_list (snd m)).*2.

(** ** The scope in SQL and in memory *)

Lemma norm_fixed v : norm v = v -> TrimSpace v = v.
Proof.
  intros <-. unfold norm. by rewrite <-ToLower_TrimSpace, TrimSpace_idem.
Qed.

Lemma ContainsFold_member values v : norm v = v -> v ∈ values -> ContainsFold values v = true.
Proof.
  intros Hn Hv. unfold ContainsFold. apply existsb_exists. exists v. split; [by apply list_elem_of_In|].
  apply EqualFold_spec. done.
Qed.

(** A tag that names an attribute without a value. *)
Definition valueless (tag : string) : Prop := tag = "owner:" \/ tag = "location:".

(** A column tag of a value the column has. *)
Lemma attribute_tag prefix tag v :
  HasPrefix tag prefix = true -> tag <> prefix -> ToLower v = TrimPrefix tag prefix ->
  is_empty v = false /\ prefix +:+ ToLower v = tag.
Proof.
  intros Hp Hne E. apply TrimPrefix_spec in Hp. rewrite <-E in Hp. split; [|done].
  destruct (is_empty v) eqn:Ev; [|done]. apply is_empty_true in Ev as ->. destruct Hne. rewrite Hp. apply append_nil_r.
Qed.

(** The condition of a tag in SQL implies the match in memory. *)
Lemma tag_clause_matches d tag :
  norm tag = tag -> tag <> "" -> ~ valueless tag -> tag_clause d tag = true ->
  ContainsFold (Tags (inventory_row d)) tag = true.
Proof.
  intros Hn He Hv Hc. apply ContainsFold_member; [done|].
  cbn [inventory_row with_tags Tags]. unfold inventoryDeviceTags. apply NormalizeLowerList_elem. split; [done|].
  enough (Hin : exists v, (v ∈ Tags (scan_row d) \/ v = "device" \/ (Registered (scan_row d) = true /\ v = "registered")
    \/ (Active (scan_row d) = true /\ v = "active")
    \/ (is_empty (OwnerID (scan_row d)) = false /\ v = "owner:" +:+ ToLower (OwnerID (scan_row d)))
    \/ (is_empty (LocationID (scan_row d)) = false /\ v = "location:" +:+ ToLower (LocationID (scan_row d))))
    /\ tag = norm v).
  { destruct Hin as (v & Hin & ->). exists v. split; [|done]. rewrite !elem_of_app.
    destruct Hin as [?|[->|[[-> ->]|[[-> ->]|[[-> ->]|[-> ->]]]]]]; rewrite ?list_elem_of_singleton; tauto. }
  unfold tag_clause in Hc. revert Hc.
  destruct (String.eqb_spec tag "device") as [->|_]; [intros _; exists "device"; auto|].
  destruct (String.eqb_spec tag "registered") as [->|_]; [intros Hr; exists "registered"; cbn; tauto|].
  destruct (String.eqb_spec tag "active") as [->|_]; [intros Ha; exists "active"; cbn; tauto|].
  destruct (HasPrefix tag "owner:") eqn:Ho.
  { intros E%String.eqb_eq. exists tag. split; [|done].
    destruct (attribute_tag "owner:" tag (coalesce (owner_id d)) Ho ltac:(unfold valueless in Hv; tauto) E) as [? <-]. cbn. tauto. }
  destruct (HasPrefix tag "location:") eqn:Hl.
  { intros E%String.eqb_eq. exists tag. split; [|done].
    destruct (attribute_tag "location:" tag (coalesce (location_id d)) Hl ltac:(unfold valueless in Hv; tauto) E) as [? <-]. cbn. tauto. }
  intros (v & Hin%list_elem_of_In & E%String.eqb_eq)%existsb_exists.
  assert (Et : ToLower (TrimSpace v) = tag) by (rewrite ToLower_TrimSpace, E; by apply norm_fixed).
  exists (TrimSpace v). split; [left|unfold norm; by rewrite TrimSpace_idem].
  cbn [scan_row Tags]. apply TagsFromJSON_elem. split; [|by exists v]. intros Ev. rewrite Ev in Et. by subst tag.
Qed.

Lemma scope_matches st now f d :
  Forall (fun tag => norm tag = tag /\ tag <> "" /\ ~ valueless tag) (FilterTags f) ->
  inventoryPageWhere st now f d = true -> inventoryTagsMatch (Tags (inventory_row d)) (FilterTags f) = true.
Proof.
  unfold inventoryPageWhere, inventoryTagsMatch. intros Hf Hw. apply andb_true_iff in Hw as [_ Hw].
  rewrite List.forallb_forall in Hw |- *. intros tag Hin. rewrite Forall_forall in Hf.
  destruct (Hf tag) as (? & ? & ?); [by apply list_elem_of_In|]. by apply tag_clause_matches; auto.
Qed.

(** ** The fetch loop *)

#[export] Instance recent_first_order : WeakOrder recent_first.
Proof. unfold recent_first. apply _. Qed.

Lemma recent_first_total a b : before recent_first a b -> before recent_first b a -> mac a = mac b.
Proof.
  unfold before, recent_first, less_then, less_on, seen_desc.
  destruct (last_seen a) as [s|], (last_seen b) as [t|]; simpl; try done; try (intros; by apply str_ltb_total).
  destruct (Z.ltb_spec s t), (Z.ltb_spec t s); try done; intros; by apply str_ltb_total.
Qed.

(** The cursor's condition is the order, on rows that have been seen. *)
Lemma recent_after_less d t x :
  last_seen d = Some t -> is_Some (last_seen x) -> recent_after t (mac d) x = recent_first d x.
Proof.
  intros Hd [s Hs]. unfold recent_after, recent_first, less_then, less_on, seen_desc. rewrite Hd, Hs. simpl.
  destruct (Z.ltb_spec s t), (Z.ltb_spec t s), (Z.eqb_spec s t); try lia; done.
Qed.

(** The rows a list of devices contributes. *)
Definition kept (required : list string) (ds : list device_row) : list inventoryDeviceRow :=
  List.filter (fun row => inventoryTagsMatch (Tags row) required) (inventory_row <$> ds).

Lemma kept_app required a b : kept required (a ++ b) = kept required a ++ kept required b.
Proof. unfold kept. by rewrite fmap_app, List.filter_app. Qed.

Definition row_cursor (cursor : time * string) (d : option device_row) : time * string :=
  match d with Some d => (default time_zero (last_seen d), mac d) | None => cursor end.

Lemma scan_page_spec limit required rows acc cursor :
  Z.of_nat (length acc) < limit ->
  let '(devices, cursor', full) := scan_page limit required rows acc cursor in
  if full then devices = take (Z.to_nat limit) (acc ++ kept required rows) /\
               limit <= Z.of_nat (length (acc ++ kept required rows))
  else devices = acc ++ kept required rows /\ Z.of_nat (length devices) < limit /\ cursor' = row_cursor cursor (last rows).
Proof.
  revert acc cursor. induction rows as [|d rows IH]; intros acc cursor Hl; cbn [scan_page].
  { cbn. by rewrite app_nil_r. }
  assert (Ek : kept required (d :: rows)
    = (if inventoryTagsMatch (Tags (inventory_row d)) required then [inventory_row d] else []) ++ kept required rows).
  { unfold kept. cbn [fmap list_fmap List.filter]. by case_match. }
  assert (Hlast : forall c, row_cursor c (last (d :: rows)) = row_cursor (row_cursor c (Some d)) (last rows)).
  { intros c. destruct rows as [|e rows]; [done|]. rewrite last_cons_cons.
    destruct (last (e :: rows)) eqn:E; [done|by apply last_None in E]. }
  rewrite Ek, Hlast. destruct (inventoryTagsMatch _ _); [|by apply IH].
  destruct (Z.leb_spec limit (Z.of_nat (length (acc ++ [inventory_row d])))) as [Hf|Hf].
  - rewrite app_assoc. rewrite !length_app in *. cbn [length] in *. split; [|lia].
    rewrite take_app_le by (rewrite length_app; cbn [length]; lia). rewrite take_ge; [done|]. rewrite length_app. cbn [length]. lia.
  - specialize (IH (acc ++ [inventory_row d]) (row_cursor cursor (Some d)) Hf). rewrite <-app_assoc in IH. exact IH.
Qed.

Section fetch.
Context (st : inventory_store) (now : time) (f : InventoryFilters).
Context (Hlimit : 0 < Limit f) (Hmacs : NoDup (mac <$> devices st)).

(** The rows in the scope of the request, in the order of the statement. *)
Definition selected : list device_row := sort_by recent_first (List.filter (inventoryPageWhere st now f) (devices st)).

(** Every row in scope has a last observation, which is not Go's zero time. *)
Definition all_seen : Prop := forall d, d ∈ selected -> exists t, last_seen d = Some t /\ t <> time_zero.

Lemma selected_where d : d ∈ selected -> inventoryPageWhere st now f d = true.
Proof. unfold selected. rewrite sort_by_elem, list_elem_of_In, filter_In. tauto. Qed.

(** The statement of a cursor. *)
Lemma fetch_statement (P : device_row -> bool) :
  sort_by recent_first (List.filter (fun d => inventoryPageWhere st now f d && P d) (devices st)) = List.filter P selected.
Proof. unfold selected. rewrite (filter_andb (inventoryPageWhere st now f) P). apply sort_by_filter, _. Qed.

(** The cursor stands behind the first [i] rows. *)
Definition behind (i : nat) (cursor : time * string) : Prop :=
  match i with
  | O => cursor = (time_zero, "")
  | S j => exists d t, selected !! j = Some d /\ last_seen d = Some t /\ t <> time_zero /\ cursor = (t, mac d)
  end.

Lemma page_behind i cursor :
  all_seen -> behind i cursor ->
  List.filter (fun d => IsZero (fst cursor) || recent_after (fst cursor) (snd cursor) d) selected = drop i selected.
Proof.
  intros Hseen. destruct i as [|j]; cbn [behind].
  { intros ->. rewrite drop_0. apply List.forallb_filter_id, List.forallb_forall. done. }
  intros (d & t & Hj & Ht & Hnz & ->). cbn [fst snd]. unfold IsZero. rewrite (proj2 (Z.eqb_neq t 0)) by done. cbn [orb].
  assert (Hnd : NoDup (mac <$> List.filter (inventoryPageWhere st now f) (devices st))).
  { eapply sublist_NoDup; [exact Hmacs|]. apply fmap_sublist, filter_sublist. }
  assert (Ha : List.filter (recent_first d) selected = drop (S j) selected).
  { apply (sort_by_after recent_first _ j d (NoDup_fmap_1 _ _ Hnd)); [|exact Hj].
    intros a b H1 H2 H3 H4. exact (NoDup_key_inj mac _ a b Hnd H1 H2 (recent_first_total a b H3 H4)). }
  rewrite <-Ha. apply filter_ext_elem. intros x Hx. destruct (Hseen x Hx) as (s & Hs & _).
  by apply recent_after_less.
Qed.

Lemma behind_next i d :
  all_seen -> selected !! (i + Z.to_nat (Limit f) - 1)%nat = Some d ->
  behind (i + Z.to_nat (Limit f)) (row_cursor (time_zero, "") (Some d)).
Proof.
  intros Hseen Hd. destruct (i + Z.to_nat (Limit f))%nat as [|j] eqn:E; [lia|]. replace (S j - 1)%nat with j in Hd by lia.
  destruct (Hseen d) as (t & Ht & Hnz); [by eapply list_elem_of_lookup_2|].
  exists d, t. split_and!; try done. simpl. by rewrite Ht.
Qed.

(** The loop from a position takes what is missing from the rows behind it. *)
Lemma fetch_loop_from fuel i acc cursor :
  all_seen -> behind i cursor -> acc = kept (FilterTags f) (take i selected) -> Z.of_nat (length acc) < Limit f ->
  (length (drop i selected) < fuel)%nat ->
  fetch_loop fuel st now f acc cursor = Some (take (Z.to_nat (Limit f)) (kept (FilterTags f) selected)).
Proof.
  intros Hseen. revert i acc cursor. induction fuel as [|fuel IH]; intros i acc cursor Hb Ha Hl Hf; [lia|].
  cbn [fetch_loop]. rewrite (proj2 (Z.leb_gt _ _)) by done. rewrite fetch_statement, (page_behind i) by done.
  set (page := take (Z.to_nat (Limit f)) (drop i selected)).
  pose proof (scan_page_spec (Limit f) (FilterTags f) page acc cursor Hl) as Hs.
  destruct (scan_page _ _ _ _ _) as [[acc' cursor'] full].
  assert (Hk : kept (FilterTags f) selected
    = (acc ++ kept (FilterTags f) page) ++ kept (FilterTags f) (drop (Z.to_nat (Limit f)) (drop i selected))).
  { rewrite Ha, <-!kept_app. f_equal. unfold page. by rewrite <-app_assoc, !take_drop. }
  destruct full; cbn [orb].
  { destruct Hs as [-> Hge]. rewrite Hk, (take_app_le (acc ++ kept (FilterTags f) page)) by lia. done. }
  destruct Hs as (-> & Hlt & ->). unfold page. rewrite length_take.
  destruct (Z.ltb_spec (Z.of_nat (Z.to_nat (Limit f) `min` length (drop i selected))) (Limit f)) as [Hshort|Hfull].
  - rewrite Hk, (drop_ge (drop i selected)) by lia. cbn [kept fmap list_fmap List.filter]. rewrite app_nil_r.
    rewrite (take_ge (acc ++ kept (FilterTags f) page)); [done|lia].
  - fold page. assert (Hle : (Z.to_nat (Limit f) <= length (drop i selected))%nat) by lia. rewrite length_drop in Hle, Hf.
    destruct (selected !! (i + Z.to_nat (Limit f) - 1)%nat) as [d|] eqn:Ed; [|apply lookup_ge_None in Ed; lia].
    assert (El : last page = Some d).
    { unfold page. rewrite last_lookup, length_take, length_drop, lookup_take_lt by lia. rewrite lookup_drop, <-Ed. f_equal. lia. }
    rewrite El. apply (IH (i + Z.to_nat (Limit f))%nat).
    + by apply behind_next.
    + rewrite Ha, <-kept_app. f_equal. unfold page. by rewrite take_take_drop.
    + done.
    + rewrite length_drop. lia.
Qed.

(** A page that adds nothing and whose last row was never observed is asked for again. *)
Lemma fetch_loop_stuck fuel d :
  last (take (Z.to_nat (Limit f)) selected) = Some d -> last_seen d = None ->
  length (take (Z.to_nat (Limit f)) selected) = Z.to_nat (Limit f) ->
  kept (FilterTags f) (take (Z.to_nat (Limit f)) selected) = [] ->
  forall m, fetch_loop fuel st now f [] (time_zero, m) = None.
Proof.
  intros Hd Hn Hl Hk. induction fuel as [|fuel IH]; intros m; [done|]. cbn [fetch_loop].
  rewrite (proj2 (Z.leb_gt _ _)) by (simpl; lia). rewrite fetch_statement.
  rewrite (List.forallb_filter_id (fun d => _) selected) by (by apply List.forallb_forall).
  pose proof (scan_page_spec (Limit f) (FilterTags f) (take (Z.to_nat (Limit f)) selected) [] (time_zero, m)
    ltac:(simpl; lia)) as Hs.
  destruct (scan_page _ _ _ _ _) as [[acc cursor] full]. rewrite Hk, Hd in Hs. cbn [app length row_cursor] in Hs.
  rewrite Hn in Hs. destruct full; [simpl in Hs; lia|]. destruct Hs as (-> & _ & ->).
  rewrite Hl. rewrite (proj2 (Z.ltb_ge _ _)) by lia. apply IH.
Qed.

(** Fetching devices.  When every row in scope has been observed, the loop ends
    after at most a statement per row and returns the first [limit] rows in
    scope that match the tags in memory, most recent first.  Tags that name no
    valueless attribute are decided in SQL already: one statement returns the
    first [limit] rows.  But when a statement's rows all fail in memory and the
    last was never observed, the same statement is repeated for ever. *)
Theorem fetch_devices :
  let page := take (Z.to_nat (Limit f)) selected in
  (all_seen -> forall fuel, (length selected < fuel)%nat ->
     fetchInventoryDevices fuel st now f
     = Some (take (Z.to_nat (Limit f))
         (List.filter (fun row => inventoryTagsMatch (Tags row) (FilterTags f)) (inventory_row <$> selected)))) /\
  (Forall (fun tag => norm tag = tag /\ tag <> "" /\ tag <> "owner:" /\ tag <> "location:") (FilterTags f) ->
     forall fuel, (0 < fuel)%nat -> fetchInventoryDevices fuel st now f = Some (inventory_row <$> page)) /\
  ((exists d, last page = Some d /\ last_seen d = None) -> length page = Z.to_nat (Limit f) ->
   (forall d, d ∈ page -> inventoryTagsMatch (Tags (inventory_row d)) (FilterTags f) = false) ->
     forall fuel, fetchInventoryDevices fuel st now f = None).
Proof.
  intros page. split; [|split].
  - intros Hseen fuel Hf. by apply (fetch_loop_from fuel 0).
  - intros Htags [|fuel] Hf; [lia|]. unfold fetchInventoryDevices. cbn [fetch_loop].
    rewrite (proj2 (Z.leb_gt _ _)) by (simpl; lia). rewrite fetch_statement.
    rewrite (List.forallb_filter_id (fun d => _) selected) by (by apply List.forallb_forall). fold page.
    assert (Hall : kept (FilterTags f) page = inventory_row <$> page).
    { unfold kept. apply List.forallb_filter_id, List.forallb_forall. intros row Hrow%list_elem_of_In.
      apply list_elem_of_fmap in Hrow as (d & -> & Hd). apply (scope_matches st now).
      - eapply Forall_impl; [exact Htags|]. simpl. unfold valueless. tauto.
      - apply selected_where. eapply sublist_subseteq; [apply sublist_take|exact Hd]. }
    pose proof (scan_page_spec (Limit f) (FilterTags f) page [] (time_zero, "") ltac:(simpl; lia)) as Hs.
    destruct (scan_page _ _ _ _ _) as [[acc cursor] full]. rewrite Hall in Hs. cbn [app] in Hs.
    destruct full; cbn [orb].
    + destruct Hs as [-> _]. f_equal. apply take_ge. rewrite length_fmap. unfold page. rewrite length_take. lia.
    + destruct Hs as (-> & Hlt & _). rewrite length_fmap in Hlt. by rewrite (proj2 (Z.ltb_lt _ _)) by done.
  - intros (d & Hd & Hn) Hl Hno fuel. unfold fetchInventoryDevices. eapply fetch_loop_stuck; try done.
    fold page. unfold kept. apply filter_none. intros row (e & -> & He)%list_elem_of_fmap. by apply Hno.
Qed.
End fetch.

(** ** Witness: a device without owner, and a request for the tag of no owner *)

Definition unowned (m : string) (seen : option time) : device_row := {|
  mac := m; display_name := None; owner_id := None; location_id := None; first_registered := None;
  first_seen := None; last_seen := seen; active := true; registered := true; tags := None; known_macs := None |}.

Definition unowned_store : inventory_store := {|
  devices := [unowned "aa:bb:cc:dd:ee:01" None; unowned "aa:bb:cc:dd:ee:02" (Some 5)];
  merge_candidates := []; search_documents := []; graph_edges := [] |}.

Definition sample_filters (tag : string) (limit : Z) : InventoryFilters := {|
  FilterRegistered := None; NeedsIdentityReview := false; Query := ""; SourceMACs := []; SensorIDs := [];
  ObservedAfter := None; ObservedBefore := None; Sort := "last_observed"; Grouping := "registry";
  LocationIDs := []; OwnerIDs := []; ActiveOnly := false; MinDedupConfidence := None; FilterTags := [tag];
  Limit := limit; Scope := ""; PageCursor := ""; PageSize := 0 |}.

Lemma fetch_devices_witness :
  (forall fuel, fetchInventoryDevices fuel unowned_store 0 (sample_filters "owner:" 1) = None) /\
  MAC <$> default [] (fetchInventoryDevices 1 unowned_store 0 (sample_filters "active" 2))
  = ["aa:bb:cc:dd:ee:01"; "aa:bb:cc:dd:ee:02"].
Proof.
  assert (Hnd : NoDup (mac <$> devices unowned_store)) by (apply (bool_decide_eq_true_1 (NoDup _)); vm_compute; reflexivity).
  split.
  - apply (fetch_devices unowned_store 0 (sample_filters "owner:" 1) eq_refl Hnd).
    + eexists. split; [vm_compute; reflexivity|reflexivity].
    + vm_compute. reflexivity.
    + assert (E : take (Z.to_nat (Limit (sample_filters "owner:" 1))) (selected unowned_store 0 (sample_filters "owner:" 1))
        = [unowned "aa:bb:cc:dd:ee:01" None]) by (vm_compute; reflexivity).
      rewrite E. intros d Hd%list_elem_of_singleton. rewrite Hd. vm_compute. reflexivity.
  - rewrite (proj1 (proj2 (fetch_devices unowned_store 0 (sample_filters "active" 2) eq_refl Hnd))).
    + vm_compute. reflexivity.
    + constructor; [|constructor]. vm_compute. repeat split; discriminate.
    + apply le_n.
Defined.
