(* ===== verification/InventoryPages.v ===== *)
(** * The device inventory: pages, tables and snapshots (internal/reporting:
    inventory_queries.go, inventory_assembly.go, inventory_table.go)

    The three forms of an inventory: a keyset page of the grouped devices, a
    page of a table, and a snapshot.  MACs are the primary key of devices. *)

From S2P Require Import Prelude GoErrors GoStrings GoTime GoSort GoFloats QueryScope Pagination ReportMeta Inventory.
From Stdlib Require Import Sorted.
#[local] Open Scope go_scope.

(** ** Answers *)

Record InventoryResponse := {
  Report : option (Metadata InventoryFilters);
  Nodes : list InventoryNode;
  Edges : list InventoryEdge;
  GeneratedAt : time;
  NodeCount : Z;
  EdgeCount : Z;
  TotalRegisteredCount : Z;
  NextPageCursor : string;
  TotalNodeCount : option Z;
  TotalEdgeCount : option Z;
  TotalDeviceCount : option Z;
}.

(** How a request ends: with an answer, with an error, in a panic, or not within
    the statements the fuel allows. *)
Inductive outcome :=
| Answer (r : InventoryResponse)
| Failed (e : app_error)
| Panic
| Unfinished.

Definition outcome_of (r : InventoryResponse + app_error) : outcome :=
  match r with inl r => Answer r | inr e => Failed e end.

(** The identity of a request: its filters without the paging. *)
Definition inventory_identity (f : InventoryFilters) : InventoryFilters := with_page "" 0 0 f.

(** The cursor behind a device. *)
Definition after_device (m t : string) (c : pageCursor) : pageCursor := {|
  Version := Version c; Resource := Resource c; Fingerprint := Fingerprint c; NodeAfter := NodeAfter c;
  EdgeAfter := EdgeAfter c; DeviceAfter := m; TimeAfter := t; CountAfter := CountAfter c;
  NodesDone := NodesDone c; EdgesDone := EdgesDone c |}.

Definition count {A} (P : A -> bool) (l : list A) : Z := Z.of_nat (length (List.filter P l)).

(** LEAST and GREATEST *)
Definition least (a b : string) : string := if str_ltb b a then b else a.
Definition greatest (a b : string) : string := if str_ltb a b then b else a.
Definition anchor (c : merge_candidate) : string := least (mac_a c) (mac_b c).
Definition other_mac (c : merge_candidate) : string := greatest (mac_a c) (mac_b c).

Section pages.
Context {C : CursorCodec} {RJ : RequestJSON InventoryFilters}.
Context (st : inventory_store) (now generated : time).

(** The devices of a request. *)
Definition matching (f : InventoryFilters) : list device_row :=
  List.filter (inventoryPageWhere st now f) (devices st).

(** ** Totals *)

(** [JOIN devices da ON da.mac = mc.mac_a JOIN devices db ON db.mac = mc.mac_b],
    both in the scope of the request: a row per match. *)
Definition joined (f : InventoryFilters) (c : merge_candidate) : list merge_candidate :=
  List.filter (fun d => String.eqb (mac d) (mac_a c)) (matching f) ≫= fun _ =>
  List.filter (fun d => String.eqb (mac d) (mac_b c)) (matching f) ≫= fun _ => [c].

(** The pending candidates between devices of the request. *)
Definition candidates (f : InventoryFilters) : list merge_candidate :=
  List.filter (fun c => pending now c && confident f c) (merge_candidates st) ≫= joined f.

Definition distinct (column : device_row -> option string) (ds : list device_row) : Z :=
  Z.of_nat (length (remove_dups (omap (fun d => null_if_empty (column d)) ds))).

Definition present (column : device_row -> option string) (ds : list device_row) : Z :=
  count (fun d => negb (is_empty (coalesce (column d)))) ds.

Definition inventoryPageTotals (f : InventoryFilters) (totalDevices : Z) : Z * Z :=
  if String.eqb (Grouping f) InventoryGroupingRegistry then (totalDevices, 0)
  else if String.eqb (Grouping f) InventoryGroupingCMDB then
    (totalDevices + distinct owner_id (matching f) + distinct location_id (matching f),
     present owner_id (matching f) + present location_id (matching f))
  else if String.eqb (Grouping f) InventoryGroupingSimilarity then
    let n := Z.of_nat (length (candidates f)) in (totalDevices + n * 2, n * 5)
  else (totalDevices, 0).

(** ** A page of the grouped devices *)

(** [ORDER BY LEAST(mac_a, mac_b), candidate_id] *)
Definition anchor_first : merge_candidate -> merge_candidate -> bool :=
  less_then anchor str_ltb (fun c => c) (less_on candidate_id str_ltb).

(** The candidates whose lesser device is on the page, with the greater one. *)
Definition anchored (f : InventoryFilters) (macs : list string) : list (merge_candidate * device_row) :=
  sort_by anchor_first (List.filter (fun c => bool_decide (anchor c ∈ macs)) (candidates f)) ≫= fun c =>
  pair c <$> List.filter (fun d => String.eqb (mac d) (other_mac c)) (devices st).

Definition attachSimilarityInventoryPage (f : InventoryFilters) (page : list device_row) (m : assembly) : assembly :=
  if bool_decide (page = []) then m
  else foldl (fun m '(c, other) =>
         addSimilarityCandidate (addInventoryDevice InventoryGroupingSimilarity m (inventory_row other)) (pending_row c))
       m (anchored f (mac <$> page)).

Definition page_assembly (f : InventoryFilters) (page : list device_row) : assembly :=
  let m := foldl (addInventoryDevice (Grouping f)) (∅, ∅) (inventory_row <$> page) in
  if String.eqb (Grouping f) InventoryGroupingSimilarity then attachSimilarityInventoryPage f page m else m.

Definition inventoryPage (f : InventoryFilters) : InventoryResponse + app_error :=
  let! fingerprint := plain (pageFingerprint (inventory_identity f)) in
  let! cursor := decodePageCursor (PageCursor f) "inventory" fingerprint in
  let totalDevices := Z.of_nat (length (matching f)) in
  let '(totalNodes, totalEdges) := inventoryPageTotals f totalDevices in
  let '(page, more) := fetch_page mac (DeviceAfter cursor) false (PageSize f) (matching f) in
  let m := page_assembly f page in
  inl {| Report := None; Nodes := nodes_of m; Edges := edges_of m; GeneratedAt := generated;
         NodeCount := Z.of_nat (length (nodes_of m)); EdgeCount := Z.of_nat (length (edges_of m));
         TotalRegisteredCount := count registered (matching f);
         NextPageCursor := if more
                           then encodePageCursor (after_device (last_id mac "" page) (TimeAfter cursor) cursor)
                           else "";
         TotalNodeCount := Some totalNodes; TotalEdgeCount := Some totalEdges;
         TotalDeviceCount := Some totalDevices |}.

(** ** A page of the table *)

Definition zero_node : InventoryNode := {|
  ID := ""; Kind := ""; Label := ""; NodeMAC := ""; NodeKnownMACs := []; NodeDisplayName := "";
  NodeOwnerID := ""; NodeLocationID := ""; NodeFirstRegistered := None; NodeFirstSeen := None;
  NodeLastSeen := None; NodeActive := false; NodeRegistered := None; PendingReviewCount := None;
  NoAPLink := None; SimilarityClusterID := ""; DedupConfidence := None; NodeTags := [] |}.

(** A node with the columns of the table, and with its review count. *)
Definition with_observation (first : option time) (noAPLink : bool) (n : InventoryNode) : InventoryNode := {|
  ID := ID n; Kind := Kind n; Label := Label n; NodeMAC := NodeMAC n; NodeKnownMACs := NodeKnownMACs n;
  NodeDisplayName := NodeDisplayName n; NodeOwnerID := NodeOwnerID n; NodeLocationID := NodeLocationID n;
  NodeFirstRegistered := NodeFirstRegistered n; NodeFirstSeen := first; NodeLastSeen := NodeLastSeen n;
  NodeActive := NodeActive n; NodeRegistered := NodeRegistered n; PendingReviewCount := PendingReviewCount n;
  NoAPLink := Some noAPLink; SimilarityClusterID := SimilarityClusterID n; DedupConfidence := DedupConfidence n;
  NodeTags := NodeTags n |}.

Definition with_reviews (count : Z) (n : InventoryNode) : InventoryNode := {|
  ID := ID n; Kind := Kind n; Label := Label n; NodeMAC := NodeMAC n; NodeKnownMACs := NodeKnownMACs n;
  NodeDisplayName := NodeDisplayName n; NodeOwnerID := NodeOwnerID n; NodeLocationID := NodeLocationID n;
  NodeFirstRegistered := NodeFirstRegistered n; NodeFirstSeen := NodeFirstSeen n; NodeLastSeen := NodeLastSeen n;
  NodeActive := NodeActive n; NodeRegistered := NodeRegistered n; PendingReviewCount := Some count;
  NoAPLink := NoAPLink n; SimilarityClusterID := SimilarityClusterID n; DedupConfidence := DedupConfidence n;
  NodeTags := NodeTags n |}.

(** The row of a device; its node is looked up under the MAC as stored. *)
Definition table_node (d : device_row) : InventoryNode :=
  let '(m, _) := addInventoryDevice InventoryGroupingRegistry (∅, ∅) (scan_row d) in
  with_observation (first_seen d)
    (negb (existsb (fun e => String.eqb (fst e) "observed_at" && String.eqb (snd e) ("device:" +:+ mac d)) (graph_edges st)))
    (default zero_node (m !! ("device:" +:+ mac d))).

Definition pending_reviews (m : string) : Z :=
  count (fun c => pending now c && String.eqb (mac_a c) m) (merge_candidates st)
  + count (fun c => pending now c && String.eqb (mac_b c) m) (merge_candidates st).

(** The counts go to the last row of each MAC. *)
Fixpoint loadInventoryReviewCounts (nodes : list InventoryNode) : list InventoryNode :=
  match nodes with
  | [] => []
  | n :: nodes =>
      with_reviews (if bool_decide (NodeMAC n ∈ NodeMAC <$> nodes) then 0 else pending_reviews (NodeMAC n)) n
      :: loadInventoryReviewCounts nodes
  end.

Definition min_time (l : list (option time)) : option time := foldr (union_with (fun a b => Some (Z.min a b))) None l.
Definition max_time (l : list (option time)) : option time := foldr (union_with (fun a b => Some (Z.max a b))) None l.

(** The rows behind the cursor, in the order asked for. *)
Definition table_rows (f : InventoryFilters) (cursor : pageCursor) : list device_row + app_error :=
  if String.eqb (Sort f) "identifier"
  then inl (List.filter (fun d => is_empty (DeviceAfter cursor) || str_ltb (DeviceAfter cursor) (mac d))
              (sort_by (less_on mac str_ltb) (matching f)))
  else if is_empty (DeviceAfter cursor) then inl (sort_by recent_first (matching f))
  else match ParseRFC3339 (TimeAfter cursor) with
       | None => inr (Validation "invalid page_cursor")
       | Some after => inl (List.filter (recent_after after (DeviceAfter cursor)) (sort_by recent_first (matching f)))
       end.

(** A NULL tags or known_macs column cannot be scanned into a string. *)
Definition unscannable (d : device_row) : bool :=
  bool_decide (tags d = None) || bool_decide (known_macs d = None).

Definition table_report (f : InventoryFilters) (loaded : Z) : Metadata InventoryFilters :=
  observed_between (min_time (first_seen <$> matching f)) (max_time (last_seen <$> matching f))
    (New (inventory_identity f) "observed MAC identifier" "distinct registry MACs matching the filters"
       "registry lifetime first/last observation; selected evidence scope establishes inclusion"
       loaded (Some (Z.of_nat (length (matching f))))).

Definition inventoryTablePage (f : InventoryFilters) : outcome :=
  match pageFingerprint (inventory_identity f) with
  | inr err => Failed (Plain err)
  | inl fingerprint =>
      match decodePageCursor (PageCursor f) "inventory-table" fingerprint with
      | inr err => Failed err
      | inl cursor =>
          match table_rows f cursor with
          | inr err => Failed err
          | inl rows =>
              let rows := take (Z.to_nat (PageSize f + 1)) rows in
              if existsb unscannable rows then Failed (Plain (Opaque "converting NULL to string is unsupported"))
              else
                let nodes := table_node <$> rows in
                let total := Z.of_nat (length (matching f)) in
                let answer nodes next :=
                  let nodes := loadInventoryReviewCounts nodes in
                  Answer {| Report := Some (table_report f (Z.of_nat (length nodes))); Nodes := nodes; Edges := [];
                            GeneratedAt := generated; NodeCount := Z.of_nat (length nodes); EdgeCount := 0;
                            TotalRegisteredCount := count registered (matching f); NextPageCursor := next;
                            TotalNodeCount := Some total; TotalEdgeCount := Some 0; TotalDeviceCount := Some total |} in
                if PageSize f <? Z.of_nat (length nodes) then
                  let nodes := take (Z.to_nat (PageSize f)) nodes in
                  match last nodes with
                  | None => Panic
                  | Some end_ =>
                      match NodeLastSeen end_ with
                      | None => Panic
                      | Some seen =>
                          answer nodes (encodePageCursor (after_device (NodeMAC end_) (FormatRFC3339Nano seen) cursor))
                      end
                  end
                else answer nodes ""
          end
      end
  end.

(** ** A snapshot, and a request *)

Definition snapshot_assembly (f : InventoryFilters) (rows : list inventoryDeviceRow) : assembly :=
  let m := foldl (addInventoryDevice (Grouping f)) (∅, ∅) rows in
  if String.eqb (Grouping f) InventoryGroupingSimilarity then attachSimilarityInventory st now f m else m.

Definition inventory_snapshot (f : InventoryFilters) (rows : list inventoryDeviceRow) : InventoryResponse :=
  let m := snapshot_assembly f rows in
  {| Report := None; Nodes := nodes_of m; Edges := edges_of m; GeneratedAt := generated;
     NodeCount := Z.of_nat (length (nodes_of m)); EdgeCount := Z.of_nat (length (edges_of m));
     TotalRegisteredCount := count registered (matching f); NextPageCursor := "";
     TotalNodeCount := None; TotalEdgeCount := None; TotalDeviceCount := None |}.

(** The report of an answer that has none. *)
Definition with_report (f : InventoryFilters) (r : InventoryResponse) : InventoryResponse :=
  match Report r with
  | Some _ => r
  | None =>
      {| Report := Some (New (with_page "" (Limit f) (PageSize f) f) "observed MAC identifier"
           "distinct registry MACs; graph nodes also include grouping helpers"
           "registry observation timestamps; bounded projection"
           (count (fun n => String.eqb (Kind n) InventoryNodeDevice) (Nodes r)) (TotalDeviceCount r));
         Nodes := Nodes r; Edges := Edges r; GeneratedAt := GeneratedAt r; NodeCount := NodeCount r;
         EdgeCount := EdgeCount r; TotalRegisteredCount := TotalRegisteredCount r;
         NextPageCursor := NextPageCursor r; TotalNodeCount := TotalNodeCount r;
         TotalEdgeCount := TotalEdgeCount r; TotalDeviceCount := TotalDeviceCount r |}
  end.

Definition inventory_answer (fuel : nat) (f : InventoryFilters) : outcome :=
  if String.eqb (Scope f) "all" then outcome_of (inventoryPage f)
  else if String.eqb (Scope f) "page" then inventoryTablePage f
  else match fetchInventoryDevices fuel st now f with
       | None => Unfinished
       | Some rows => Answer (inventory_snapshot f rows)
       end.

(** Service.Inventory *)
Definition service_Inventory (fuel : nat) (f : InventoryFilters) : outcome :=
  match normalizeInventoryFilters f with
  | inr err => Failed err
  | inl f =>
      match inventory_answer fuel f with
      | Answer r => Answer (with_report f r)
      | o => o
      end
  end.
End pages.

(** ** Assemblies *)

(** Maps are keyed by the ids of their values, and edges join nodes. *)
Record assembly_ok (m : assembly) : Prop := {
  ao_nodes k n : fst m !! k = Some n -> ID n = k;
  ao_edges k e : snd m !! k = Some e -> EdgeID e = k;
  ao_closed k e : snd m !! k = Some e -> is_Some (fst m !! Source e) /\ is_Some (fst m !! Target e);
}.

Notation has_node m id := (is_Some (fst m !! id)).
Notation has_edge m id := (is_Some (snd m !! id)).

Lemma empty_ok : assembly_ok (∅, ∅).
Proof. split; simpl; intros ??; by rewrite lookup_empty. Qed.

Lemma insert_is_Some {V} (m : gmap string V) k v id : is_Some (<[k := v]> m !! id) <-> id = k \/ is_Some (m !! id).
Proof.
  destruct (decide (id = k)) as [->|Hne]; [rewrite lookup_insert_eq; naive_solver|].
  rewrite lookup_insert_ne by done. naive_solver.
Qed.

Lemma put_node_has n m id : has_node (put_node n m) id <-> id = ID n \/ has_node m id.
Proof. apply insert_is_Some. Qed.

Lemma put_edge_has e m id : has_edge (put_edge e m) id <-> id = EdgeID e \/ has_edge m id.
Proof. apply insert_is_Some. Qed.

Lemma insert_node_ok m k n : assembly_ok m -> ID n = k -> assembly_ok (<[k := n]> (fst m), snd m).
Proof.
  intros [Hn He Hc] Hk. split; cbn [fst snd].
  - intros k' n' [[<- <-]|[_ H]]%lookup_insert_Some; [done|by apply Hn].
  - done.
  - intros k' e Hk'. destruct (Hc k' e Hk'). by rewrite !insert_is_Some; auto.
Qed.

Lemma put_node_ok n m : assembly_ok m -> assembly_ok (put_node n m).
Proof. intros H. by apply insert_node_ok. Qed.

Lemma put_edge_ok e m :
  assembly_ok m -> has_node m (Source e) -> has_node m (Target e) -> assembly_ok (put_edge e m).
Proof.
  intros [Hn He Hc] Hs Ht. split; cbn [put_edge fst snd]; [done|..];
    intros k' e' [[<- <-]|[_ H]]%lookup_insert_Some; [done|by apply He|done|by eapply Hc].
Qed.

(** The ids that a device has as a node, and the edges it is on. *)
Definition grouping_ids (grouping : string) (row : inventoryDeviceRow) : list string :=
  if negb (String.eqb grouping InventoryGroupingCMDB) then []
  else (if is_empty (OwnerID row) then [] else [ownerID (OwnerID row)])
       ++ (if is_empty (LocationID row) then [] else [locationID (LocationID row)]).

Definition grouping_edge_ids (grouping : string) (row : inventoryDeviceRow) : list string :=
  if negb (String.eqb grouping InventoryGroupingCMDB) then []
  else (if is_empty (OwnerID row) then [] else [owns_id (OwnerID row) (MAC row)])
       ++ (if is_empty (LocationID row) then [] else [located_id (MAC row) (LocationID row)]).

Lemma addInventoryDevice_spec grouping m row :
  assembly_ok m ->
  assembly_ok (addInventoryDevice grouping m row) /\
  (forall id, has_node (addInventoryDevice grouping m row) id
     <-> has_node m id \/ id = deviceID (MAC row) \/ id ∈ grouping_ids grouping row) /\
  (forall id, has_edge (addInventoryDevice grouping m row) id <-> has_edge m id \/ id ∈ grouping_edge_ids grouping row).
Proof.
  intros Hm. unfold addInventoryDevice, grouping_ids, grouping_edge_ids.
  pose proof (put_node_ok (device_node row) m Hm) as Hd.
  assert (Hid : forall id, has_node (put_node (device_node row) m) id <-> id = deviceID (MAC row) \/ has_node m id)
    by (intros id; apply put_node_has).
  set (m1 := put_node (device_node row) m) in *.
  assert (He1 : forall id, has_edge m1 id <-> has_edge m id) by done. clearbody m1.
  destruct (negb _).
  { split; [done|]. split; intros id; [rewrite Hid|rewrite He1]; set_solver. }
  set (m2 := if is_empty (OwnerID row) then m1 else _).
  assert (H2 : assembly_ok m2 /\
    (forall id, has_node m2 id <-> (id = deviceID (MAC row) \/ has_node m id)
       \/ id ∈ (if is_empty (OwnerID row) then [] else [ownerID (OwnerID row)])) /\
    (forall id, has_edge m2 id <-> has_edge m id
       \/ id ∈ (if is_empty (OwnerID row) then [] else [owns_id (OwnerID row) (MAC row)]))).
  { unfold m2. destruct (is_empty (OwnerID row)).
    { split; [done|]. split; intros id; [rewrite Hid|rewrite He1]; set_solver. }
    split; [|split].
    - apply put_edge_ok; [by apply put_node_ok|..]; apply put_node_has; simpl; [by left|]. right. apply Hid. by left.
    - intros id. change (has_node (put_edge ?e ?m) id) with (has_node m id). rewrite put_node_has, Hid. simpl. set_solver.
    - intros id. rewrite put_edge_has. change (has_edge (put_node ?n ?m) id) with (has_edge m id). rewrite He1. simpl. set_solver. }
  clearbody m2. destruct H2 as (H2 & Hn2 & He2). destruct (is_empty (LocationID row)).
  { split; [done|]. split; intros id; [rewrite Hn2|rewrite He2]; rewrite app_nil_r; set_solver. }
  split; [|split].
  - apply put_edge_ok; [by apply put_node_ok|..]; apply put_node_has; simpl; [|by left]. right. apply Hn2. by left; left.
  - intros id. change (has_node (put_edge ?e ?m) id) with (has_node m id). rewrite put_node_has, Hn2, elem_of_app. simpl. set_solver.
  - intros id. rewrite put_edge_has. change (has_edge (put_node ?n ?m) id) with (has_edge m id). rewrite He2, elem_of_app. simpl. set_solver.
Qed.

(** What a step adds to an assembly: nodes and edges. *)
Definition adds (m m' : assembly) (nodes edges : list string) : Prop :=
  assembly_ok m' /\ (forall id, has_node m' id <-> has_node m id \/ id ∈ nodes) /\
  (forall id, has_edge m' id <-> has_edge m id \/ id ∈ edges).

Lemma adds_nothing m : assembly_ok m -> adds m m [] [].
Proof. intros Hm. split; [done|]. split; set_solver. Qed.

Lemma adds_trans m1 m2 m3 n1 n2 e1 e2 : adds m1 m2 n1 e1 -> adds m2 m3 n2 e2 -> adds m1 m3 (n1 ++ n2) (e1 ++ e2).
Proof.
  intros (_ & Hn1 & He1) (H & Hn2 & He2). split; [done|]. split; intros id; [rewrite Hn2, Hn1|rewrite He2, He1]; set_solver.
Qed.

Lemma adds_same m m' n n' e e' :
  adds m m' n e -> (forall id, has_node m id \/ id ∈ n <-> has_node m id \/ id ∈ n') ->
  (forall id, id ∈ e <-> id ∈ e') -> adds m m' n' e'.
Proof.
  intros (H & Hn & He) En Ee. split; [done|]. split; intros id; [by rewrite Hn|]. rewrite He, Ee. done.
Qed.

Definition row_ids (grouping : string) (row : inventoryDeviceRow) : list string :=
  deviceID (MAC row) :: grouping_ids grouping row.

Lemma add_device_adds grouping m row :
  assembly_ok m -> adds m (addInventoryDevice grouping m row) (row_ids grouping row) (grouping_edge_ids grouping row).
Proof.
  intros Hm. destruct (addInventoryDevice_spec grouping m row Hm) as (H & Hn & He).
  split; [done|]. split; [|done]. intros id. rewrite Hn. unfold row_ids. rewrite elem_of_cons. done.
Qed.

(** A fold of steps adds what the steps add; [P] is what a step needs of the assembly. *)
Lemma fold_adds {A} (step : assembly -> A -> assembly) (nodes edges : A -> list string) (P : assembly -> A -> Prop) l m :
  (forall m a, assembly_ok m -> P m a -> adds m (step m a) (nodes a) (edges a)) ->
  (forall m m' n e a, P m a -> adds m m' n e -> P m' a) ->
  assembly_ok m -> (forall a, a ∈ l -> P m a) ->
  adds m (foldl step m l) (l ≫= nodes) (l ≫= edges).
Proof.
  intros Hstep Hmono. revert m. induction l as [|a l IH]; intros m Hm HP; [by apply adds_nothing|].
  rewrite !bind_cons. pose proof (Hstep m a Hm (HP a ltac:(by left))) as Ha. cbn [foldl].
  eapply adds_trans; [exact Ha|]. apply IH; [apply Ha|]. intros b Hb. eapply Hmono; [apply HP; by right|exact Ha].
Qed.

Lemma fold_devices grouping rows m :
  assembly_ok m ->
  adds m (foldl (addInventoryDevice grouping) m rows) (rows ≫= row_ids grouping) (rows ≫= grouping_edge_ids grouping).
Proof.
  intros Hm. apply (fold_adds _ _ _ (fun _ _ => True)); [|done|done|done]. intros m' a Hm' _. by apply add_device_adds.
Qed.

(** *** Candidates *)

Definition candidate_ids (c : pendingInventoryCandidate) : list string := [mergeID (cid c); clusterID (cid c)].
Definition candidate_edge_ids (c : pendingInventoryCandidate) : list string := EdgeID <$> candidate_edges c.

(** Both devices of a candidate are in the assembly. *)
Definition members_in (m : assembly) (c : pendingInventoryCandidate) : Prop :=
  has_node m (deviceID (macA c)) /\ has_node m (deviceID (macB c)).

Lemma put_edges_adds m es :
  assembly_ok m -> (forall e, e ∈ es -> has_node m (Source e) /\ has_node m (Target e)) ->
  adds m (foldl (fun m e => put_edge e m) m es) [] (EdgeID <$> es).
Proof.
  intros Hm He. eapply adds_same.
  - apply (fold_adds _ (fun _ => []) (fun e => [EdgeID e]) (fun m e => has_node m (Source e) /\ has_node m (Target e)));
      [| |done|exact He].
    + intros m' e Hm' [Hs Ht]. split; [by apply put_edge_ok|]. split; intros id; [simpl; set_solver|].
      rewrite put_edge_has, list_elem_of_singleton. tauto.
    + intros m1 m2 n e a [Hs Ht] (_ & Hn & _). split; apply Hn; by left.
  - intros id. assert (E : (es ≫= fun _ : InventoryEdge => @nil string) = []) by (clear; by induction es). by rewrite E.
  - intros id. rewrite list_elem_of_bind, list_elem_of_fmap. setoid_rewrite list_elem_of_singleton. naive_solver.
Qed.

Lemma link_adds passes m c deviceA deviceB :
  assembly_ok m -> fst m !! deviceID (macA c) = Some deviceA -> fst m !! deviceID (macB c) = Some deviceB ->
  passes deviceA = true -> passes deviceB = true ->
  adds m (link_candidate passes m c) (candidate_ids c) (candidate_edge_ids c).
Proof.
  intros Hm Ha Hb Pa Pb. unfold link_candidate. rewrite Ha, Hb, Pa, Pb. cbn [negb orb].
  set (m1 := put_node (cluster_node c) (put_node (candidate_node c) m)).
  assert (H1 : assembly_ok m1) by (by do 2 apply put_node_ok).
  assert (Hn1 : forall id, has_node m1 id <-> has_node m id \/ id ∈ candidate_ids c).
  { intros id. unfold m1. rewrite !put_node_has. unfold candidate_ids. rewrite !elem_of_cons, elem_of_nil. simpl. tauto. }
  set (m2 := (<[deviceID (macB c) := member_node c deviceB]> (<[deviceID (macA c) := member_node c deviceA]> (fst m1)), snd m1)).
  assert (H2 : assembly_ok m2).
  { pose proof (insert_node_ok m1 (deviceID (macA c)) (member_node c deviceA) H1 (ao_nodes m Hm _ _ Ha)) as HA.
    exact (insert_node_ok _ (deviceID (macB c)) (member_node c deviceB) HA (ao_nodes m Hm _ _ Hb)). }
  assert (Hn2 : forall id, has_node m2 id <-> has_node m id \/ id ∈ candidate_ids c).
  { intros id. unfold m2. cbn [fst]. rewrite !insert_is_Some, Hn1. split; [|tauto].
    intros [-> |[-> |?]]; [left; by eexists|left; by eexists|done]. }
  assert (He2 : forall id, has_edge m2 id <-> has_edge m id) by done.
  destruct (put_edges_adds m2 (candidate_edges c)) as (H3 & Hn3 & He3); [done|..].
  { assert (HA : has_node m2 (deviceID (macA c))) by (apply Hn2; left; by eexists).
    assert (HB : has_node m2 (deviceID (macB c))) by (apply Hn2; left; by eexists).
    assert (Hc1 : has_node m2 (mergeID (cid c))) by (apply Hn2; right; by left).
    assert (Hc2 : has_node m2 (clusterID (cid c))) by (apply Hn2; right; right; by left).
    intros e. unfold candidate_edges. rewrite !elem_of_cons, elem_of_nil.
    intros [->|[->|[->|[->|[->|[]]]]]]; cbn [Source Target]; by split. }
  split; [done|]. split; intros id.
  - rewrite Hn3, elem_of_nil, Hn2. tauto.
  - rewrite He3, He2. done.
Qed.

(** Whatever it does, linking keeps an assembly well formed. *)
Lemma link_ok passes m c : assembly_ok m -> assembly_ok (link_candidate passes m c).
Proof.
  intros Hm. destruct (fst m !! deviceID (macA c)) as [a|] eqn:Ea; [|unfold link_candidate; by rewrite Ea].
  destruct (fst m !! deviceID (macB c)) as [b|] eqn:Eb; [|unfold link_candidate; by rewrite Ea, Eb].
  destruct (passes a) eqn:Pa; [destruct (passes b) eqn:Pb|].
  - by eapply link_adds.
  - unfold link_candidate. by rewrite Ea, Eb, Pa, Pb.
  - unfold link_candidate. by rewrite Ea, Eb, Pa.
Qed.

(** ** Listings *)

Lemma listing_spec {V} (key : V -> string) (m : gmap string V) :
  (forall k v, m !! k = Some v -> key v = k) ->
  NoDup (key <$> sort_by (less_on key str_ltb) (map_to_list m).*2) /\
  (forall id, id ∈ key <$> sort_by (less_on key str_ltb) (map_to_list m).*2 <-> is_Some (m !! id)) /\
  (forall v, v ∈ sort_by (less_on key str_ltb) (map_to_list m).*2 <-> m !! key v = Some v).
Proof.
  intros Hk.
  assert (E : key <$> (map_to_list m).*2 = (map_to_list m).*1).
  { rewrite <-list_fmap_compose. apply list_fmap_ext. intros i [k v] Hi%list_elem_of_lookup_2.
    apply elem_of_map_to_list in Hi. by apply Hk. }
  assert (Ev : forall v, v ∈ (map_to_list m).*2 <-> m !! key v = Some v).
  { intros v. rewrite list_elem_of_fmap. split.
    - intros ([k v'] & -> & Hi%elem_of_map_to_list). simpl. by rewrite (Hk k v').
    - intros Hv. exists (key v, v). split; [done|]. by apply elem_of_map_to_list. }
  split; [|split].
  - rewrite sort_by_perm, E. apply NoDup_fst_map_to_list.
  - intros id. rewrite sort_by_perm, E, list_elem_of_fmap. split.
    + intros ([k v] & -> & Hi%elem_of_map_to_list). by exists v.
    + intros [v Hv]. exists (id, v). split; [done|]. by apply elem_of_map_to_list.
  - intros v. by rewrite sort_by_elem.
Qed.

(** The listing of a well-formed assembly: distinct ids, and edges between listed nodes. *)
Lemma assembly_listing m :
  assembly_ok m ->
  NoDup (ID <$> nodes_of m) /\ NoDup (EdgeID <$> edges_of m) /\
  (forall id, id ∈ ID <$> nodes_of m <-> has_node m id) /\ (forall id, id ∈ EdgeID <$> edges_of m <-> has_edge m id) /\
  Forall (fun e => Source e ∈ ID <$> nodes_of m /\ Target e ∈ ID <$> nodes_of m) (edges_of m).
Proof.
  intros [Hn He Hc]. destruct (listing_spec ID (fst m) Hn) as (N1 & N2 & _).
  destruct (listing_spec EdgeID (snd m) He) as (E1 & E2 & E3).
  split_and!; [done..|]. apply Forall_forall. intros e Hin%E3. destruct (Hc _ _ Hin). by split; apply N2.
Qed.

(** ** Answers are closed graphs *)

Lemma fold_ok {A} (step : assembly -> A -> assembly) l m :
  (forall m a, assembly_ok m -> assembly_ok (step m a)) -> assembly_ok m -> assembly_ok (foldl step m l).
Proof. intros Hstep. revert m. induction l as [|a l IH]; intros m Hm; [done|]. simpl. by apply IH, Hstep. Qed.

(** MACs are lower-case addresses and the primary key of devices. *)
Record registry_ok (st : inventory_store) : Prop := {
  ro_nodup : NoDup (mac <$> devices st);
  ro_macs : Forall (fun m => MacPattern m = true) (mac <$> devices st);
}.

Lemma registry_mac st d : registry_ok st -> d ∈ devices st -> MacPattern (mac d) = true.
Proof. intros [_ Hm] Hd. rewrite Forall_fmap, Forall_forall in Hm. by apply Hm. Qed.

Lemma deviceID_mac m : MacPattern m = true -> deviceID m = "device:" +:+ m.
Proof. intros [E _]%MacPattern_spec. unfold deviceID. by rewrite E. Qed.

Lemma deviceID_inj a b : MacPattern a = true -> MacPattern b = true -> deviceID a = deviceID b -> a = b.
Proof. intros Ha Hb. rewrite !deviceID_mac by done. apply (inj (String.append "device:")). Qed.

Section answers.
Context {C : CursorCodec} {RJ : RequestJSON InventoryFilters}.
Context (st : inventory_store) (now generated : time).

Notation matching := (matching st now).

Lemma matching_in f d : d ∈ matching f -> d ∈ devices st.
Proof. unfold InventoryPages.matching. rewrite list_elem_of_In, filter_In, <-list_elem_of_In. tauto. Qed.

Lemma page_assembly_ok f page : assembly_ok (page_assembly st now f page).
Proof.
  unfold page_assembly, attachSimilarityInventoryPage.
  assert (Hm : assembly_ok (foldl (addInventoryDevice (Grouping f)) (∅, ∅) (inventory_row <$> page)))
    by (apply fold_devices, empty_ok).
  destruct (String.eqb _ _); [|done]. destruct (bool_decide _); [done|]. apply fold_ok; [|done].
  intros m [c other] Hok. by apply link_ok, add_device_adds.
Qed.

Lemma snapshot_assembly_ok f rows : assembly_ok (snapshot_assembly st now f rows).
Proof.
  unfold snapshot_assembly, attachSimilarityInventory.
  assert (Hm : assembly_ok (foldl (addInventoryDevice (Grouping f)) (∅, ∅) rows)) by (apply fold_devices, empty_ok).
  destruct (String.eqb _ _); [|done]. apply fold_ok; [|done]. intros m c. apply link_ok.
Qed.

Lemma table_node_spec d :
  MacPattern (mac d) = true -> ID (table_node st d) = deviceID (mac d) /\ NodeMAC (table_node st d) = mac d /\
  NodeLastSeen (table_node st d) = last_seen d /\ NodeFirstSeen (table_node st d) = first_seen d.
Proof.
  intros Hm. unfold table_node.
  change (addInventoryDevice InventoryGroupingRegistry (∅, ∅) (scan_row d))
    with ({[deviceID (mac d) := device_node (scan_row d)]} : gmap string InventoryNode, ∅ : gmap string InventoryEdge).
  cbn iota beta. rewrite <-(deviceID_mac (mac d)), lookup_singleton_eq by done. done.
Qed.

Lemma review_counts_ids nodes :
  ID <$> loadInventoryReviewCounts st now nodes = ID <$> nodes /\
  NodeMAC <$> loadInventoryReviewCounts st now nodes = NodeMAC <$> nodes.
Proof. induction nodes as [|n nodes [IH1 IH2]]; [done|]. cbn. unfold fmap in *. by rewrite IH1, IH2. Qed.

(** The rows of a table statement are distinct devices in scope. *)
Lemma table_rows_sublist f cursor rows :
  table_rows st now f cursor = inl rows ->
  exists order : device_row -> device_row -> bool, rows `sublist_of` sort_by order (matching f).
Proof.
  unfold table_rows. destruct (String.eqb _ _); [|destruct (is_empty _); [|destruct (ParseRFC3339 _); [|done]]];
    intros [= <-]; eexists; try apply filter_sublist. done.
Qed.

Lemma table_answer f r :
  inventoryTablePage st now generated f = Answer r ->
  exists rows (order : device_row -> device_row -> bool), rows `sublist_of` sort_by order (matching f) /\
    ID <$> Nodes r = ID <$> (table_node st <$> rows) /\ Edges r = [] /\
    NodeCount r = Z.of_nat (length (Nodes r)) /\ EdgeCount r = 0 /\ is_Some (Report r).
Proof.
  unfold inventoryTablePage. destruct (pageFingerprint _); [|done]. destruct (decodePageCursor _ _ _) as [cursor|]; [|done].
  destruct (table_rows _ _ _ _) as [rows|] eqn:Er; [|done]. destruct (existsb _ _); [done|].
  destruct (table_rows_sublist f cursor rows Er) as [order Hs].
  destruct (_ <? _).
  - destruct (last _) as [end_|]; [|done]. destruct (NodeLastSeen end_); [|done]. intros [= <-].
    exists (take (Z.to_nat (PageSize f)) (take (Z.to_nat (PageSize f + 1)) rows)), order. split_and!; try done.
    + etrans; [|exact Hs]. etrans; apply sublist_take.
    + cbn [Nodes]. rewrite (proj1 (review_counts_ids _)), fmap_take, fmap_take. rewrite !fmap_take. done.
  - intros [= <-]. exists (take (Z.to_nat (PageSize f + 1)) rows), order. split_and!; try done.
    + etrans; [|exact Hs]. apply sublist_take.
    + apply review_counts_ids.
Qed.

Lemma NoDup_matching_ids (rows : list device_row) order f :
  registry_ok st -> rows `sublist_of` sort_by order (matching f) -> NoDup (deviceID ∘ mac <$> rows).
Proof.
  intros Hst Hs.
  assert (Hnd : NoDup (mac <$> rows)).
  { eapply sublist_NoDup; [|apply fmap_sublist, Hs]. rewrite sort_by_perm.
    eapply sublist_NoDup; [apply Hst|apply fmap_sublist, filter_sublist]. }
  rewrite list_fmap_compose. apply NoDup_fmap_2_strong; [|done].
  assert (Hin : forall m, m ∈ mac <$> rows -> MacPattern m = true).
  { intros m (d & -> & Hd)%list_elem_of_fmap. apply (registry_mac st); [done|]. apply (matching_in f).
    rewrite <-(sort_by_elem order). eapply sublist_subseteq; [exact Hs|done]. }
  intros a b Ha Hb. apply deviceID_inj; auto.
Qed.

(** Answers are closed graphs.  Every answer of an inventory, whatever its
    form and grouping, counts its nodes and edges, carries its report, lists
    distinct nodes and distinct edges, and joins by its edges only nodes it
    lists. *)
Theorem inventory_closed fuel f r :
  registry_ok st -> service_Inventory st now generated fuel f = Answer r ->
  NodeCount r = Z.of_nat (length (Nodes r)) /\ EdgeCount r = Z.of_nat (length (Edges r)) /\ is_Some (Report r) /\
  NoDup (ID <$> Nodes r) /\ NoDup (EdgeID <$> Edges r) /\
  forall e, e ∈ Edges r -> Source e ∈ ID <$> Nodes r /\ Target e ∈ ID <$> Nodes r.
Proof.
  intros Hst. unfold service_Inventory. destruct (normalizeInventoryFilters f) as [g|]; [|done].
  enough (H : forall r', inventory_answer st now generated fuel g = Answer r' ->
    NodeCount r' = Z.of_nat (length (Nodes r')) /\ EdgeCount r' = Z.of_nat (length (Edges r')) /\
    NoDup (ID <$> Nodes r') /\ NoDup (EdgeID <$> Edges r') /\
    forall e, e ∈ Edges r' -> Source e ∈ ID <$> Nodes r' /\ Target e ∈ ID <$> Nodes r').
  { destruct (inventory_answer _ _ _ _ _) as [r'| | |] eqn:E; try done. destruct (H r' eq_refl) as (H1 & H2 & H3 & H4 & H5).
    intros [= <-]. unfold with_report. destruct (Report r') as [m|] eqn:Em; simpl; split_and!; try done; by rewrite ?Em. }
  assert (Hlist : forall m, assembly_ok m -> NoDup (ID <$> nodes_of m) /\ NoDup (EdgeID <$> edges_of m) /\
    forall e, e ∈ edges_of m -> Source e ∈ ID <$> nodes_of m /\ Target e ∈ ID <$> nodes_of m).
  { intros m Hm. destruct (assembly_listing m Hm) as (? & ? & _ & _ & Hf). rewrite Forall_forall in Hf. by split_and!. }
  intros r'. unfold inventory_answer. destruct (String.eqb _ _); [|destruct (String.eqb _ _)].
  - unfold inventoryPage. destruct (plain _); [|done]. cbn [sum_bind]. destruct (decodePageCursor _ _ _); [|done]. cbn [sum_bind].
    destruct (inventoryPageTotals _ _ _ _). destruct (fetch_page _ _ _ _ _) as [page more]. intros [= <-].
    split; [done|]. split; [done|]. apply Hlist, page_assembly_ok.
  - intros (rows & order & Hs & Hids & He & Hn & Hc & _)%table_answer. rewrite He, Hids, Hc. split; [done|].
    split; [done|]. split; [|split; [constructor|by intros e ?%elem_of_nil]].
    pose proof (NoDup_matching_ids rows order g Hst Hs) as Hnd.
    rewrite <-list_fmap_compose. erewrite list_fmap_ext; [exact Hnd|]. intros i d Hi%list_elem_of_lookup_2.
    apply table_node_spec. apply (registry_mac st); [done|]. apply (matching_in g). rewrite <-(sort_by_elem order).
    eapply sublist_subseteq; [exact Hs|done].
  - destruct (fetchInventoryDevices _ _ _ _); [|done]. intros [= <-]. split; [done|]. split; [done|].
    apply Hlist, snapshot_assembly_ok.
Qed.
End answers.

(** ** A page shows its devices *)

Section shown.
Context {C : CursorCodec} {RJ : RequestJSON InventoryFilters}.
Context (st : inventory_store) (now generated : time).

Notation matching := (matching st now).
Notation candidates := (candidates st now).

(** The candidates that a device anchors. *)
Definition anchored_by (f : InventoryFilters) (d : device_row) : list merge_candidate :=
  if String.eqb (Grouping f) InventoryGroupingSimilarity
  then List.filter (fun c => String.eqb (anchor c) (mac d)) (candidates f) else [].

(** The nodes and edges a device brings to a page: its own, those of its
    grouping, and the candidates it anchors with the device on their other side. *)
Definition shown_ids (f : InventoryFilters) (d : device_row) : list string :=
  row_ids (Grouping f) (inventory_row d)
  ++ (anchored_by f d ≫= fun c => deviceID (other_mac c) :: candidate_ids (pending_row c)).

Definition shown_edge_ids (f : InventoryFilters) (d : device_row) : list string :=
  grouping_edge_ids (Grouping f) (inventory_row d) ++ (anchored_by f d ≫= fun c => candidate_edge_ids (pending_row c)).

Lemma bind_elem_sub {A B} (g : A -> list B) l x : x ∈ l ≫= g <-> exists a, a ∈ l /\ x ∈ g a.
Proof. rewrite list_elem_of_bind. naive_solver. Qed.

Lemma select_elem {A} (P : A -> bool) l x : x ∈ List.filter P l <-> x ∈ l /\ P x = true.
Proof. by rewrite !list_elem_of_In, filter_In. Qed.

Lemma joined_elem f c c' :
  c' ∈ joined st now f c <-> c' = c /\ (exists d, d ∈ matching f /\ mac d = mac_a c) /\ (exists d, d ∈ matching f /\ mac d = mac_b c).
Proof.
  unfold joined. rewrite bind_elem_sub. split.
  - intros (d1 & [H1 E1%String.eqb_eq]%select_elem & (d2 & [H2 E2%String.eqb_eq]%select_elem & ->%list_elem_of_singleton)%bind_elem_sub).
    eauto 8.
  - intros (-> & (d1 & H1 & E1) & (d2 & H2 & E2)). exists d1. rewrite select_elem, String.eqb_eq. split; [done|].
    apply bind_elem_sub. exists d2. rewrite select_elem, String.eqb_eq. split; [done|]. by left.
Qed.

Lemma candidates_elem f c :
  c ∈ candidates f <-> c ∈ merge_candidates st /\ pending now c = true /\ confident f c = true /\
    (exists d, d ∈ matching f /\ mac d = mac_a c) /\ (exists d, d ∈ matching f /\ mac d = mac_b c).
Proof.
  unfold InventoryPages.candidates. rewrite bind_elem_sub. split.
  - intros (c' & [Hin [? ?]%andb_true_iff]%select_elem & (-> & ? & ?)%joined_elem). done.
  - intros (? & Hp & Hc & ? & ?). exists c. rewrite select_elem, Hp, Hc, joined_elem. done.
Qed.

Lemma least_greatest a b : (least a b = a /\ greatest a b = b) \/ (least a b = b /\ greatest a b = a).
Proof.
  unfold least, greatest. destruct (str_ltb b a) eqn:E1, (str_ltb a b) eqn:E2; auto.
  - assert (H := str_ltb_trans _ _ _ E1 E2). by rewrite str_ltb_irrefl in H.
  - left. split; [done|]. by apply str_ltb_total.
Qed.

Lemma anchored_elem f macs c d :
  (c, d) ∈ anchored st now f macs <-> c ∈ candidates f /\ anchor c ∈ macs /\ d ∈ devices st /\ mac d = other_mac c.
Proof.
  unfold anchored. rewrite bind_elem_sub. split.
  - intros (c' & Hc & (d' & [= <- <-] & [Hd E%String.eqb_eq]%select_elem)%list_elem_of_fmap).
    apply sort_by_elem, select_elem in Hc as [Hc Ha%bool_decide_eq_true]. done.
  - intros (Hc & Ha & Hd & E). exists c. rewrite sort_by_elem, select_elem, bool_decide_eq_true. split; [done|].
    apply list_elem_of_fmap_2. by rewrite select_elem, String.eqb_eq.
Qed.

(** Adding a candidate with its other device, when its anchor is in. *)
Lemma anchored_adds m c (other : device_row) :
  assembly_ok m -> has_node m (deviceID (anchor c)) /\ mac other = other_mac c ->
  adds m (addSimilarityCandidate (addInventoryDevice InventoryGroupingSimilarity m (inventory_row other)) (pending_row c))
    (deviceID (other_mac c) :: candidate_ids (pending_row c)) (candidate_edge_ids (pending_row c)).
Proof.
  intros Hm [Ha Ho]. pose proof (add_device_adds InventoryGroupingSimilarity m (inventory_row other) Hm) as Hd.
  set (m1 := addInventoryDevice _ _ _) in *.
  assert (H1 : has_node m1 (deviceID (anchor c)) /\ has_node m1 (deviceID (other_mac c))).
  { destruct Hd as (_ & Hn & _). split; apply Hn; [by left|right]. rewrite <-Ho. by left. }
  assert (Hm1 : members_in m1 (pending_row c)).
  { unfold members_in, pending_row, anchor, other_mac in *. cbn [macA macB].
    destruct (least_greatest (mac_a c) (mac_b c)) as [[El Eg]|[El Eg]]; rewrite El, Eg in H1; tauto. }
  destruct Hm1 as [[a Ea] [b Eb]].
  eapply adds_same.
  - eapply adds_trans; [exact Hd|]. by eapply (link_adds (fun _ => true)); [apply Hd|..].
  - intros id. unfold row_ids. change (grouping_ids InventoryGroupingSimilarity (inventory_row other)) with (@nil string).
    cbn [MAC inventory_row with_tags scan_row]. rewrite Ho. done.
  - intros id. change (grouping_edge_ids InventoryGroupingSimilarity (inventory_row other)) with (@nil string). done.
Qed.

(** The nodes and edges of the candidates that the devices of a page anchor. *)
Lemma anchored_ids f page (g : merge_candidate -> list string) id :
  (forall d, d ∈ page -> d ∈ devices st) -> (Grouping f = InventoryGroupingSimilarity) ->
  id ∈ (anchored st now f (mac <$> page) ≫= fun p => g (fst p)) <-> id ∈ (page ≫= fun d => anchored_by f d ≫= g).
Proof.
  intros Hp Hg. rewrite (bind_elem_sub (fun p => g (fst p))), (bind_elem_sub (fun d => anchored_by f d ≫= g)).
  unfold anchored_by. rewrite Hg, String.eqb_refl. split.
  - intros ([c d] & (Hc & (a & Ea & Ha)%list_elem_of_fmap & _ & _)%anchored_elem & Hid). exists a. split; [done|].
    apply bind_elem_sub. exists c. by rewrite select_elem, String.eqb_eq.
  - intros (a & Ha & (c & [Hc E%String.eqb_eq]%select_elem & Hid)%bind_elem_sub).
    pose proof (proj1 (candidates_elem f c) Hc) as (_ & _ & _ & (d1 & Hd1 & E1) & (d2 & Hd2 & E2)).
    assert (Ho : exists d, d ∈ devices st /\ mac d = other_mac c).
    { unfold other_mac. destruct (least_greatest (mac_a c) (mac_b c)) as [[_ ->]|[_ ->]]; [exists d2|exists d1];
        (split; [by eapply matching_in|done]). }
    destruct Ho as (d & Hd & Ed). exists (c, d). split; [|done]. apply anchored_elem. split_and!; try done.
    rewrite E. by apply list_elem_of_fmap_2.
Qed.

Lemma fmap_bind_ids {A B} (h : A -> B) (g : B -> list string) l : (h <$> l) ≫= g = l ≫= (g ∘ h).
Proof. induction l as [|a l IH]; [done|]. rewrite fmap_cons, !bind_cons. by rewrite IH. Qed.

Lemma bind_app_elem {A} (g h : A -> list string) l id :
  id ∈ (l ≫= fun a => g a ++ h a) <-> id ∈ l ≫= g \/ id ∈ l ≫= h.
Proof. rewrite !bind_elem_sub. setoid_rewrite elem_of_app. naive_solver. Qed.

(** A page lists what its devices bring. *)
Lemma page_assembly_shows f page :
  (forall d, d ∈ page -> d ∈ devices st) ->
  let m := page_assembly st now f page in
  (forall id, id ∈ ID <$> nodes_of m <-> id ∈ page ≫= shown_ids f) /\
  (forall id, id ∈ EdgeID <$> edges_of m <-> id ∈ page ≫= shown_edge_ids f).
Proof.
  intros Hp m. destruct (assembly_listing m (page_assembly_ok st now f page)) as (_ & _ & Hn & He & _).
  setoid_rewrite Hn. setoid_rewrite He. clear Hn He. unfold m, page_assembly, shown_ids, shown_edge_ids. clear m.
  setoid_rewrite bind_app_elem.
  pose proof (fold_devices (Grouping f) (inventory_row <$> page) (∅, ∅) empty_ok) as Hd.
  rewrite !fmap_bind_ids in Hd. set (m0 := foldl _ _ _) in *.
  assert (Hn0 : forall id, has_node m0 id <-> id ∈ page ≫= (row_ids (Grouping f) ∘ inventory_row)).
  { intros id. destruct Hd as (_ & Hn & _). rewrite Hn. cbn [fst]. rewrite lookup_empty. split; [by intros [[? ?]|?]|by right]. }
  assert (He0 : forall id, has_edge m0 id <-> id ∈ page ≫= (grouping_edge_ids (Grouping f) ∘ inventory_row)).
  { intros id. destruct Hd as (_ & _ & He). rewrite He. cbn [snd]. rewrite lookup_empty. split; [by intros [[? ?]|?]|by right]. }
  destruct (String.eqb_spec (Grouping f) InventoryGroupingSimilarity) as [Hg|Hg].
  - unfold attachSimilarityInventoryPage. destruct (bool_decide_reflect (page = [])) as [->|Hne].
    { split; intros id; [rewrite Hn0|rewrite He0]; cbn; rewrite elem_of_nil; tauto. }
    pose proof (fold_adds (fun m p => addSimilarityCandidate
        (addInventoryDevice InventoryGroupingSimilarity m (inventory_row (snd p))) (pending_row (fst p)))
      (fun p => deviceID (other_mac (fst p)) :: candidate_ids (pending_row (fst p)))
      (fun p => candidate_edge_ids (pending_row (fst p)))
      (fun m p => has_node m (deviceID (anchor (fst p))) /\ mac (snd p) = other_mac (fst p))
      (anchored st now f (mac <$> page)) m0) as Hfold.
    destruct Hfold as (_ & Hn & He).
    { intros m [c d] Hm Hp'. by apply anchored_adds. }
    { intros m1 m2 n e [c d] [Hh Hmac] (_ & Hn & _). split; [|done]. apply Hn. by left. }
    { apply Hd. }
    { intros [c d] (_ & (a & Ea & Ha)%list_elem_of_fmap & _ & Ho)%anchored_elem. split; [|done]. apply Hn0.
      apply bind_elem_sub. exists a. split; [done|]. simpl. rewrite Ea. by left. }
    assert (Eft : forall m l, foldl (fun m '(c, other) => addSimilarityCandidate
        (addInventoryDevice InventoryGroupingSimilarity m (inventory_row other)) (pending_row c)) m l
      = foldl (fun m p => addSimilarityCandidate
        (addInventoryDevice InventoryGroupingSimilarity m (inventory_row (snd p))) (pending_row (fst p))) m l).
    { clear. intros m l. revert m. induction l as [|[c d] l IH]; intros m; [done|]. simpl. by rewrite IH. }
    rewrite Eft. split; intros id.
    + rewrite Hn, Hn0. rewrite <-(anchored_ids f page (fun c => deviceID (other_mac c) :: candidate_ids (pending_row c))) by done. done.
    + rewrite He, He0. rewrite <-(anchored_ids f page (fun c => candidate_edge_ids (pending_row c))) by done. done.
  - assert (E : forall g : merge_candidate -> list string, page ≫= (fun d => anchored_by f d ≫= g) = []).
    { intros g. unfold anchored_by. rewrite (proj2 (String.eqb_neq _ _) Hg). clear. by induction page. }
    split; intros id; rewrite E; [rewrite Hn0|rewrite He0]; rewrite elem_of_nil; tauto.
Qed.
End shown.

(** ** Following the cursors *)

Section cover.
Context {C : CursorCodec} {L : CursorLaws} {RJ : RequestJSON InventoryFilters}.
Context (st : inventory_store) (now generated : time).

Notation matching := (matching st now).

(** What a client gets for a cursor. *)
Definition inventory_page_at (f : InventoryFilters) (cursor : string) : option InventoryResponse :=
  match inventoryPage st now generated (with_page cursor (Limit f) (PageSize f) f) with inl page => Some page | inr _ => None end.

(** The devices of a request in the order of their MACs. *)
Definition by_mac (f : InventoryFilters) : list device_row := sort_by (less_on mac str_ltb) (matching f).

(** A page of the chunk of devices: their nodes and edges, and the totals. *)
Definition inventory_shows (f : InventoryFilters) (chunk : list device_row) (page : InventoryResponse) : Prop :=
  (forall id, id ∈ ID <$> Nodes page <-> id ∈ chunk ≫= shown_ids st now f) /\
  (forall id, id ∈ EdgeID <$> Edges page <-> id ∈ chunk ≫= shown_edge_ids st now f) /\
  TotalDeviceCount page = Some (Z.of_nat (length (matching f))) /\
  TotalRegisteredCount page = count registered (matching f) /\
  (TotalNodeCount page, TotalEdgeCount page)
  = (let '(n, e) := inventoryPageTotals st now f (Z.of_nat (length (matching f))) in (Some n, Some e)).

Context (f : InventoryFilters) (fp : string).
Context (Hst : registry_ok st) (Hsize : 0 < PageSize f) (Hfp : pageFingerprint (inventory_identity f) = inl fp).

Lemma matching_keys : NoDup (mac <$> matching f) /\ "" ∉ mac <$> matching f.
Proof.
  split.
  - eapply sublist_NoDup; [apply Hst|apply fmap_sublist, filter_sublist].
  - intros (d & E & Hd)%list_elem_of_fmap. assert (Hm := registry_mac st d Hst (matching_in st now f d Hd)). by rewrite <-E in Hm.
Qed.

(** The cursor stands behind the first [i] devices. *)
Definition inventory_at (i : nat) (cursor : string) : Prop :=
  exists c, decodePageCursor cursor "inventory" fp = inl c /\ at_position mac (matching f) i (DeviceAfter c) false.

Lemma inventory_step i cursor :
  inventory_at i cursor ->
  exists page, inventory_page_at f cursor = Some page /\
    inventory_shows f (take (Z.to_nat (PageSize f)) (drop i (by_mac f))) page /\
    if rows_left (by_mac f) (Z.to_nat (PageSize f)) i
    then NextPageCursor page <> "" /\ inventory_at (i + Z.to_nat (PageSize f)) (NextPageCursor page) /\
         (length (drop (i + Z.to_nat (PageSize f)) (by_mac f)) < length (drop i (by_mac f)))%nat
    else NextPageCursor page = "".
Proof.
  intros (c & Hd & Hp). destruct matching_keys as [Hnd Hne]. unfold inventory_page_at, inventoryPage.
  change (inventory_identity (with_page cursor (Limit f) (PageSize f) f)) with (inventory_identity f).
  rewrite Hfp. cbn [plain sum_bind]. change (PageCursor (with_page cursor (Limit f) (PageSize f) f)) with cursor.
  rewrite Hd. cbn [sum_bind]. change (PageSize (with_page cursor (Limit f) (PageSize f) f)) with (PageSize f).
  change (InventoryPages.matching st now (with_page cursor (Limit f) (PageSize f) f)) with (matching f).
  change (inventoryPageTotals st now (with_page cursor (Limit f) (PageSize f) f)) with (inventoryPageTotals st now f).
  destruct (inventoryPageTotals st now f (Z.of_nat (length (matching f)))) as [tn te] eqn:Et.
  rewrite (fetch_page_at mac (matching f) i) by done. fold (by_mac f).
  change (page_assembly st now (with_page cursor (Limit f) (PageSize f) f)) with (page_assembly st now f).
  set (chunk := take _ (drop i (by_mac f))).
  assert (Hin : forall d, d ∈ chunk -> d ∈ devices st).
  { intros d Hdin. unfold chunk in Hdin. apply (matching_in st now f). unfold by_mac in Hdin.
    eapply sublist_subseteq in Hdin; [|apply sublist_take]. eapply sublist_subseteq in Hdin; [|apply sublist_drop].
    by apply sort_by_elem in Hdin. }
  destruct (page_assembly_shows st now f chunk Hin) as [Hn He].
  eexists. split; [reflexivity|]. split; [unfold inventory_shows; cbn; by rewrite Et|].
  unfold rows_left. cbn [NextPageCursor]. rewrite length_drop. unfold by_mac at 1. rewrite sort_by_length.
  assert (Hb : (PageSize f <? Z.of_nat (length (matching f) - i)) = (Z.to_nat (PageSize f) <? length (matching f) - i)%nat).
  { destruct (Z.ltb_spec (PageSize f) (Z.of_nat (length (matching f) - i))), (Nat.ltb_spec (Z.to_nat (PageSize f)) (length (matching f) - i)); lia. }
  rewrite Hb. destruct (Nat.ltb_spec (Z.to_nat (PageSize f)) (length (matching f) - i)) as [Hm|Hm]; [|done].
  destruct (decode_foreign _ _ _ _ Hd) as (Hv & Hr & Hf).
  set (c' := after_device (last_id mac "" chunk) (TimeAfter c) c).
  destruct (decode_encoded c' "inventory" fp) as [Hne' Hdec]; [done..|].
  split; [intros E; by rewrite E in Hne'|]. split.
  - exists c'. split; [done|]. pose proof (at_next mac (matching f) i _ _ _ Hsize Hp) as Hnext.
    rewrite (proj2 (Z.ltb_lt (PageSize f) (Z.of_nat (length (matching f) - i)))) in Hnext by lia. cbn [negb] in Hnext. unfold advance in Hnext.
    rewrite Nat.min_l in Hnext by lia. fold (by_mac f) in Hnext. fold chunk in Hnext.
    assert (El : last_id mac (DeviceAfter c) chunk = last_id mac "" chunk).
    { unfold last_id. destruct (last chunk) eqn:El; [done|]. apply last_None in El.
      assert (Hlen : length chunk = 0%nat) by (by rewrite El). unfold chunk, by_mac in Hlen.
      rewrite length_take, length_drop, sort_by_length in Hlen. lia. }
    by rewrite El in Hnext.
  - rewrite !length_drop. unfold by_mac. rewrite sort_by_length. lia.
Qed.

(** C27. Pages cover the inventory.  A client that follows the cursors from the
    first page stops after at most one page per device.  The pages cut the
    devices in scope, in the order of their MACs, into chunks within the page
    size, so that each device is on one page; a page lists exactly the nodes and
    edges of its devices, their groupings and the candidates they anchor; and
    every page has the same totals. *)
Theorem inventory_pages_cover :
  exists pages chunks,
    follow NextPageCursor (inventory_page_at f) (S (length (matching f))) "" = Some pages /\
    mjoin chunks ≡ₚ matching f /\ StronglySorted (before (less_on mac str_ltb)) (mjoin chunks) /\
    Forall (fun chunk => Z.of_nat (length chunk) <= PageSize f) chunks /\
    Forall2 (inventory_shows f) chunks pages.
Proof.
  assert (Hat : inventory_at 0 "").
  { exists (first_cursor "inventory" fp). split; [done|]. repeat split; simpl; try done. lia. }
  destruct (follow_trail NextPageCursor (inventory_page_at f) inventory_at (rows_left (by_mac f) (Z.to_nat (PageSize f)))
    (fun i => (i + Z.to_nat (PageSize f))%nat) (fun i => length (drop i (by_mac f)))
    (fun i page => inventory_shows f (take (Z.to_nat (PageSize f)) (drop i (by_mac f))) page)
    inventory_step (S (length (matching f))) 0%nat "" Hat) as (pages & Hf & Ht).
  { rewrite drop_0. unfold by_mac. rewrite sort_by_length. lia. }
  destruct (trail_chunks _ _ _ _ _ Ht) as (chunks & Hs & Hj & Hl). rewrite drop_0 in Hj.
  exists pages, chunks. split; [done|]. rewrite Hj. split; [apply sort_by_perm|]. split; [apply sort_by_sorted, _|].
  split; [|done]. eapply Forall_impl; [exact Hl|]. simpl. intros. lia.
Qed.
End cover.

(** ** Totals *)

Lemma size_of_elems (l l' : list string) :
  NoDup l' -> (forall x, x ∈ l <-> x ∈ l') -> size (list_to_set l : gset string) = length l'.
Proof.
  intros Hnd E. rewrite <-(size_list_to_set (C := gset string) l') by done. f_equal.
  apply leibniz_equiv. intros x. by rewrite !elem_of_list_to_set.
Qed.

Lemma NoDup_bind {A B} (g : A -> list B) l :
  NoDup l -> (forall a, a ∈ l -> NoDup (g a)) ->
  (forall a b x, a ∈ l -> b ∈ l -> x ∈ g a -> x ∈ g b -> a = b) -> NoDup (l ≫= g).
Proof.
  induction 1 as [|a l Ha Hl IH]; intros Hg Hd; [constructor|]. rewrite bind_cons. apply NoDup_app. split_and!.
  - apply Hg. by left.
  - intros x Hx (b & Hb & Hxb)%bind_elem_sub. destruct Ha. rewrite (Hd a b x); [done|by left|by right|done|done].
  - apply IH; [intros b Hb; apply Hg; by right|]. intros b c x Hb Hc. apply Hd; by right.
Qed.

(** Texts with different bytes at a place. *)
Ltac clash n E := exfalso; apply (f_equal (String.get n)) in E; discriminate E.

Lemma filter_key_cases {A} (key : A -> string) m l :
  NoDup (key <$> l) ->
  List.filter (fun a => String.eqb (key a) m) l = [] \/ exists a, List.filter (fun a => String.eqb (key a) m) l = [a].
Proof.
  induction l as [|a l IH]; [by left|]. rewrite fmap_cons. intros [Ha Hl]%NoDup_cons. cbn [List.filter].
  destruct (String.eqb_spec (key a) m) as [E|E]; [|by apply IH]. right. exists a. f_equal.
  apply filter_none. intros b Hb. apply String.eqb_neq. intros E'. apply Ha. rewrite E, <-E'. by apply list_elem_of_fmap_2.
Qed.

Lemma bind_sublist {A} (g : A -> list A) l : (forall a, g a = [] \/ g a = [a]) -> l ≫= g `sublist_of` l.
Proof.
  intros Hg. induction l as [|a l IH]; [done|]. rewrite bind_cons. destruct (Hg a) as [->| ->]; simpl; by constructor.
Qed.

Section totals.
Context (st : inventory_store) (now : time) (f : InventoryFilters).
Context (Hst : registry_ok st) (Hids : NoDup (candidate_id <$> merge_candidates st)).

Notation matching := (matching st now f).
Notation candidates := (candidates st now f).

Lemma matching_mac d : d ∈ matching -> MacPattern (mac d) = true.
Proof. intros Hd. apply (registry_mac st); [done|]. by apply (matching_in st now f). Qed.

Lemma NoDup_matching : NoDup (mac <$> matching).
Proof. eapply sublist_NoDup; [apply Hst|apply fmap_sublist, filter_sublist]. Qed.

(** MACs are a key, so a candidate is joined at most once. *)
Lemma NoDup_candidates : NoDup (candidate_id <$> candidates).
Proof.
  eapply sublist_NoDup; [exact Hids|]. apply fmap_sublist. unfold InventoryPages.candidates.
  etrans; [|apply filter_sublist]. apply bind_sublist. intros c. unfold joined.
  destruct (filter_key_cases mac (mac_a c) matching NoDup_matching) as [->|[a ->]]; [by left|]. rewrite bind_singleton.
  destruct (filter_key_cases mac (mac_b c) matching NoDup_matching) as [->|[b ->]]; [by left|right]. done.
Qed.

Lemma candidate_ends c :
  c ∈ candidates -> exists d e, d ∈ matching /\ e ∈ matching /\ mac d = mac_a c /\ mac e = mac_b c /\
    (anchor c = mac d \/ anchor c = mac e) /\ (other_mac c = mac d \/ other_mac c = mac e).
Proof.
  intros (_ & _ & _ & (d & Hd & Ed) & (e & He & Ee))%candidates_elem. exists d, e. split_and!; try done;
    unfold anchor, other_mac; rewrite Ed, Ee; destruct (least_greatest (mac_a c) (mac_b c)) as [[El Eg]|[El Eg]]; rewrite ?El, ?Eg; auto.
Qed.

(** Every candidate is anchored by a device in scope. *)
Lemma anchored_all (g : merge_candidate -> list string) id :
  Grouping f = InventoryGroupingSimilarity ->
  id ∈ (matching ≫= fun d => anchored_by st now f d ≫= g) <-> id ∈ candidates ≫= g.
Proof.
  intros Hg. rewrite (bind_elem_sub (fun d => anchored_by st now f d ≫= g)), (bind_elem_sub g).
  unfold anchored_by. rewrite Hg, String.eqb_refl. split.
  - intros (d & _ & (c & [Hc _]%select_elem & Hid)%bind_elem_sub). by exists c.
  - intros (c & Hc & Hid). destruct (candidate_ends c Hc) as (d & e & Hd & He & _ & _ & [Ea|Ea] & _);
      [exists d|exists e]; (split; [done|]); apply bind_elem_sub; exists c; by rewrite select_elem, String.eqb_eq.
Qed.

Definition distinct_values (column : device_row -> option string) : list string :=
  remove_dups (omap (fun d => null_if_empty (column d)) matching).

Lemma distinct_values_elem column v :
  v ∈ distinct_values column <-> exists d, d ∈ matching /\ column d = Some v /\ v <> "".
Proof.
  unfold distinct_values. rewrite elem_of_remove_dups, list_elem_of_omap. split.
  - intros (d & Hd & E). exists d. split; [done|]. unfold null_if_empty in E. destruct (column d) as [u|]; [|done].
    destruct (is_empty u) eqn:Eu; [done|]. injection E as <-. split; [done|]. intros ->. done.
  - intros (d & Hd & E & Hne). exists d. split; [done|]. unfold null_if_empty. rewrite E.
    destruct (is_empty v) eqn:Ev; [by apply is_empty_true in Ev|done].
Qed.

(** The node ids of the inventory, each once. *)
Definition all_ids : list string :=
  (deviceID ∘ mac <$> matching)
  ++ (if String.eqb (Grouping f) InventoryGroupingCMDB
      then (ownerID <$> distinct_values owner_id) ++ (locationID <$> distinct_values location_id)
      else if String.eqb (Grouping f) InventoryGroupingSimilarity
      then (mergeID ∘ candidate_id <$> candidates) ++ (clusterID ∘ candidate_id <$> candidates)
      else []).

Lemma grouping_ids_elem d id :
  Grouping f = InventoryGroupingCMDB ->
  id ∈ grouping_ids (Grouping f) (inventory_row d) <->
  (exists o, owner_id d = Some o /\ o <> "" /\ id = ownerID o) \/ (exists l, location_id d = Some l /\ l <> "" /\ id = locationID l).
Proof.
  intros Hg. unfold grouping_ids. rewrite Hg, String.eqb_refl. cbn [negb inventory_row with_tags scan_row OwnerID LocationID].
  assert (Hcol : forall (column : option string) (g : string -> string),
    id ∈ (if is_empty (coalesce column) then [] else [g (coalesce column)]) <-> exists o, column = Some o /\ o <> "" /\ id = g o).
  { intros [v|] g; [change (coalesce (Some v)) with v|change (coalesce None) with EmptyString].
    - destruct (is_empty v) eqn:E.
      + apply is_empty_true in E as ->. rewrite elem_of_nil. naive_solver.
      + rewrite list_elem_of_singleton. split; [intros ->; exists v; split_and!; try done; by intros ->|naive_solver].
    - cbn. rewrite elem_of_nil. naive_solver. }
  by rewrite elem_of_app, !Hcol.
Qed.

Lemma shown_all_ids id : id ∈ matching ≫= shown_ids st now f <-> id ∈ all_ids.
Proof.
  unfold shown_ids. rewrite bind_app_elem. unfold row_ids, all_ids. rewrite elem_of_app.
  assert (Hdev : forall id, (exists d, d ∈ matching /\ id = deviceID (mac d)) <-> id ∈ (deviceID ∘ mac <$> matching)).
  { intros i. rewrite list_elem_of_fmap. naive_solver. }
  assert (Hrow : id ∈ (matching ≫= fun d => deviceID (MAC (inventory_row d)) :: grouping_ids (Grouping f) (inventory_row d))
    <-> id ∈ (deviceID ∘ mac <$> matching) \/ exists d, d ∈ matching /\ id ∈ grouping_ids (Grouping f) (inventory_row d)).
  { rewrite bind_elem_sub, <-Hdev. setoid_rewrite elem_of_cons. cbn [MAC inventory_row with_tags scan_row]. naive_solver. }
  rewrite Hrow. destruct (String.eqb_spec (Grouping f) InventoryGroupingCMDB) as [Hg|Hg].
  - assert (Hno : forall g : merge_candidate -> list string, (matching ≫= fun d => anchored_by st now f d ≫= g) = []).
    { intros g. unfold anchored_by. rewrite Hg. cbn. clear. by induction matching. }
    rewrite Hno, elem_of_nil. setoid_rewrite grouping_ids_elem; [|done]. rewrite elem_of_app, !list_elem_of_fmap.
    setoid_rewrite distinct_values_elem. naive_solver.
  - assert (Hno : forall d, grouping_ids (Grouping f) (inventory_row d) = []).
    { intros d. unfold grouping_ids. by rewrite (proj2 (String.eqb_neq _ _) Hg). }
    setoid_rewrite Hno. setoid_rewrite elem_of_nil.
    destruct (String.eqb_spec (Grouping f) InventoryGroupingSimilarity) as [Hs|Hs].
    + rewrite anchored_all, bind_elem_sub, elem_of_app by done.
      rewrite (list_elem_of_fmap (mergeID ∘ candidate_id)), (list_elem_of_fmap (clusterID ∘ candidate_id)). split.
      * intros [[Hd|(d & _ & [])]|(c & Hc & Hin)]; [by left|]. unfold candidate_ids in Hin.
        rewrite !elem_of_cons, elem_of_nil in Hin.
        destruct Hin as [-> |[-> |[-> |[]]]]; [|right; left; by exists c|right; right; by exists c].
        left. apply list_elem_of_fmap. destruct (candidate_ends c Hc) as (d & e & Hd & He & _ & _ & _ & [Eo|Eo]);
          rewrite Eo; [by exists d|by exists e].
      * intros [Hd|[(c & -> & Hc)|(c & -> & Hc)]]; [by left; left|right; exists c..]; (split; [done|]);
          unfold candidate_ids; rewrite !elem_of_cons; simpl; tauto.
    + assert (Hna : forall g : merge_candidate -> list string, (matching ≫= fun d => anchored_by st now f d ≫= g) = []).
      { intros g. unfold anchored_by. rewrite (proj2 (String.eqb_neq _ _) Hs). clear. by induction matching. }
      rewrite Hna, !elem_of_nil. naive_solver.
Qed.

Lemma NoDup_device_ids : NoDup (deviceID ∘ mac <$> matching).
Proof.
  rewrite <-(sort_by_perm (less_on mac str_ltb) matching). by apply (NoDup_matching_ids st now _ (less_on mac str_ltb) f).
Qed.

Lemma NoDup_prefixed {A} (g : A -> string) (p : string) l : NoDup (g <$> l) -> NoDup ((fun a => p +:+ g a) <$> l).
Proof. intros H. change (fun a => p +:+ g a) with (String.append p ∘ g). rewrite list_fmap_compose. by apply NoDup_fmap_2; [apply _|]. Qed.

Lemma NoDup_all_ids : NoDup all_ids.
Proof.
  pose proof NoDup_device_ids as Hdev. pose proof NoDup_candidates as Hc.
  assert (Hv : forall column, NoDup (distinct_values column)) by (intros; apply NoDup_remove_dups).
  unfold all_ids. apply NoDup_app. split; [done|]. split.
  - intros x (d & -> & _)%list_elem_of_fmap Hx. simpl in Hx. unfold deviceID in Hx. revert Hx.
    destruct (String.eqb _ _); [|destruct (String.eqb _ _)]; [| |by intros ?%elem_of_nil];
      rewrite elem_of_app, !list_elem_of_fmap; intros [(v & E & _)|(v & E & _)]; clash 0%nat E.
  - destruct (String.eqb _ _); [|destruct (String.eqb _ _); [|constructor]]; apply NoDup_app; split_and!.
    + apply NoDup_fmap_2; [apply _|done].
    + intros x (v & -> & _)%list_elem_of_fmap (w & E & _)%list_elem_of_fmap. clash 0%nat E.
    + apply NoDup_fmap_2; [apply _|done].
    + by apply (NoDup_prefixed candidate_id "merge:").
    + intros x (v & -> & _)%list_elem_of_fmap (w & E & _)%list_elem_of_fmap. clash 0%nat E.
    + by apply (NoDup_prefixed candidate_id "cluster:").
Qed.

(** *** Edges *)

Definition grouped (column : device_row -> option string) : list device_row :=
  List.filter (fun d => negb (is_empty (coalesce (column d)))) matching.

(** The edge ids of the inventory, each once when no two candidates are of one pair. *)
Definition all_edge_ids : list string :=
  if String.eqb (Grouping f) InventoryGroupingCMDB
  then ((fun d => owns_id (coalesce (owner_id d)) (mac d)) <$> grouped owner_id)
       ++ ((fun d => located_id (mac d) (coalesce (location_id d))) <$> grouped location_id)
  else if String.eqb (Grouping f) InventoryGroupingSimilarity
  then candidates ≫= fun c => candidate_edge_ids (pending_row c)
  else [].

Lemma grouped_elem column (g : device_row -> string) id :
  id ∈ (g <$> grouped column) <->
  exists d, d ∈ matching /\ id ∈ (if is_empty (coalesce (column d)) then [] else [g d]).
Proof.
  rewrite list_elem_of_fmap. unfold grouped. split.
  - intros (d & -> & [Hd E%negb_true_iff]%select_elem). exists d. rewrite E. split; [done|]. by left.
  - intros (d & Hd & Hin). exists d. destruct (is_empty _) eqn:E; [by apply elem_of_nil in Hin|].
    rewrite select_elem, E. by apply list_elem_of_singleton in Hin.
Qed.

Lemma shown_all_edge_ids id : id ∈ matching ≫= shown_edge_ids st now f <-> id ∈ all_edge_ids.
Proof.
  unfold shown_edge_ids. rewrite bind_app_elem. unfold all_edge_ids.
  rewrite (bind_elem_sub (fun d => grouping_edge_ids (Grouping f) (inventory_row d))).
  destruct (String.eqb_spec (Grouping f) InventoryGroupingCMDB) as [Hg|Hg].
  - assert (Hno : forall g : merge_candidate -> list string, (matching ≫= fun d => anchored_by st now f d ≫= g) = []).
    { intros g. unfold anchored_by. rewrite Hg. cbn. clear. by induction matching. }
    rewrite Hno, elem_of_nil, elem_of_app, !grouped_elem. unfold grouping_edge_ids. rewrite Hg, String.eqb_refl. cbn [negb].
    cbn [inventory_row with_tags scan_row OwnerID LocationID MAC]. setoid_rewrite elem_of_app. naive_solver.
  - assert (Hno : forall d, grouping_edge_ids (Grouping f) (inventory_row d) = []).
    { intros d. unfold grouping_edge_ids. by rewrite (proj2 (String.eqb_neq _ _) Hg). }
    setoid_rewrite Hno. setoid_rewrite elem_of_nil.
    destruct (String.eqb_spec (Grouping f) InventoryGroupingSimilarity) as [Hs|Hs].
    + rewrite anchored_all by done. naive_solver.
    + assert (Hna : forall g : merge_candidate -> list string, (matching ≫= fun d => anchored_by st now f d ≫= g) = []).
      { intros g. unfold anchored_by. rewrite (proj2 (String.eqb_neq _ _) Hs). clear. by induction matching. }
      rewrite Hna, !elem_of_nil. naive_solver.
Qed.

(** Edge ids determine the MAC at their end or in front. *)
Lemma id_back p a b m n :
  MacPattern m = true -> MacPattern n = true ->
  p +:+ a +:+ ":" +:+ deviceID m = p +:+ b +:+ ":" +:+ deviceID n -> a = b /\ m = n.
Proof.
  intros Hm Hn E. apply (inj (String.append p)) in E. rewrite !deviceID_mac in E by done.
  apply append_inj_back in E as [-> E]; [|rewrite !append_length; by rewrite (proj2 (MacPattern_spec m Hm)), (proj2 (MacPattern_spec n Hn))].
  by apply (inj (String.append ":")), (inj (String.append "device:")) in E.
Qed.

Lemma id_front p a b m n :
  MacPattern m = true -> MacPattern n = true ->
  p +:+ deviceID m +:+ ":" +:+ a = p +:+ deviceID n +:+ ":" +:+ b -> m = n /\ a = b.
Proof.
  intros Hm Hn E. apply (inj (String.append p)) in E. rewrite !deviceID_mac in E by done.
  apply append_inj_front in E as [E1 E2]; [|rewrite !append_length; by rewrite (proj2 (MacPattern_spec m Hm)), (proj2 (MacPattern_spec n Hn))].
  apply (inj (String.append "device:")) in E1. by apply (inj (String.append ":")) in E2.
Qed.

Lemma grouped_in column d : d ∈ grouped column -> d ∈ matching.
Proof. by intros [? _]%select_elem. Qed.

Lemma NoDup_grouped column (g : device_row -> string) :
  (forall d e, d ∈ matching -> e ∈ matching -> g d = g e -> mac d = mac e) -> NoDup (g <$> grouped column).
Proof.
  intros Hg. apply NoDup_fmap_2_strong.
  - intros d e Hd%grouped_in He%grouped_in E. apply (NoDup_key_inj mac matching); [apply NoDup_matching|done|done|by apply Hg].
  - eapply sublist_NoDup; [apply (NoDup_fmap_1 mac), NoDup_matching|apply filter_sublist].
Qed.

Lemma candidate_macs c : c ∈ candidates -> MacPattern (mac_a c) = true /\ MacPattern (mac_b c) = true.
Proof. intros (d & e & Hd & He & <- & <- & _)%candidate_ends. by split; apply matching_mac. Qed.

Lemma candidate_edge_cases c x :
  c ∈ candidates -> x ∈ candidate_edge_ids (pending_row c) ->
  (exists m, MacPattern m = true /\ (x = candidate_edge_id (candidate_id c) m \/ x = member_edge_id (candidate_id c) m))
  \/ x = pair_edge_id (mac_a c) (mac_b c).
Proof.
  intros [Ha Hb]%candidate_macs. unfold candidate_edge_ids, candidate_edges. cbn [fmap list_fmap EdgeID pending_row cid macA macB].
  rewrite !elem_of_cons, elem_of_nil. naive_solver.
Qed.

Lemma NoDup_candidate_edges c : c ∈ candidates -> mac_a c <> mac_b c -> NoDup (candidate_edge_ids (pending_row c)).
Proof.
  intros [Ha Hb]%candidate_macs Hne. unfold candidate_edge_ids, candidate_edges.
  cbn [fmap list_fmap EdgeID pending_row cid macA macB]. unfold candidate_edge_id, member_edge_id, pair_edge_id.
  repeat (apply NoDup_cons; split; [rewrite ?elem_of_cons, elem_of_nil|]); [..|constructor];
    intros E; repeat destruct E as [E|E]; try done; try (clash 0%nat E); try (clash 1%nat E);
    apply id_back in E as [_ E]; done.
Qed.

Lemma NoDup_similarity_edges :
  (forall c, c ∈ candidates -> mac_a c <> mac_b c) -> NoDup ((fun c => (mac_a c, mac_b c)) <$> candidates) ->
  NoDup (candidates ≫= fun c => candidate_edge_ids (pending_row c)).
Proof.
  intros Hne Hpairs. apply NoDup_bind.
  - apply (NoDup_fmap_1 candidate_id), NoDup_candidates.
  - intros c Hc. apply NoDup_candidate_edges; auto.
  - intros c d x Hc Hd Hxc Hxd.
    apply candidate_edge_cases in Hxc; [|done]. apply candidate_edge_cases in Hxd; [|done].
    unfold candidate_edge_id, member_edge_id, pair_edge_id in *.
    destruct Hxc as [(m & Hm & [-> | ->])| ->], Hxd as [(n & Hn & [E|E])|E]; try (clash 0%nat E); try (clash 1%nat E).
    + apply id_back in E as [E _]; [|done..]. apply (inj (String.append "merge:")) in E.
      by apply (NoDup_key_inj candidate_id candidates); [apply NoDup_candidates|..].
    + apply id_back in E as [E _]; [|done..]. apply (inj (String.append "cluster:")) in E.
      by apply (NoDup_key_inj candidate_id candidates); [apply NoDup_candidates|..].
    + destruct (candidate_macs c Hc), (candidate_macs d Hd). apply id_front in E as [E1 E2]; [|done..].
      apply deviceID_inj in E2; [|done..]. apply (NoDup_key_inj _ candidates c d Hpairs); [done..|congruence].
Qed.

Lemma length_bind_const {A B} (g : A -> list B) n l : (forall a, length (g a) = n) -> length (l ≫= g) = (length l * n)%nat.
Proof. intros Hg. induction l as [|a l IH]; [done|]. rewrite bind_cons, length_app, Hg, IH. simpl. lia. Qed.

(** Totals.  On a registry whose MACs and candidates have keys, the node total
    of an inventory is the number of distinct nodes its pages list.  The edge
    total is the number of distinct edges, when no candidate joins a device to
    itself and no two candidates join the same pair; it is never less. *)
Theorem inventory_totals :
  Grouping f ∈ [InventoryGroupingRegistry; InventoryGroupingCMDB; InventoryGroupingSimilarity] ->
  let '(nodes, edges) := inventoryPageTotals st now f (Z.of_nat (length matching)) in
  Z.of_nat (size (list_to_set (matching ≫= shown_ids st now f) : gset string)) = nodes /\
  Z.of_nat (size (list_to_set (matching ≫= shown_edge_ids st now f) : gset string)) <= edges /\
  ((forall c, c ∈ candidates -> mac_a c <> mac_b c) -> NoDup ((fun c => (mac_a c, mac_b c)) <$> candidates) ->
   Z.of_nat (size (list_to_set (matching ≫= shown_edge_ids st now f) : gset string)) = edges).
Proof.
  intros Hg. rewrite (size_of_elems _ all_ids NoDup_all_ids shown_all_ids).
  assert (Hset : (list_to_set (matching ≫= shown_edge_ids st now f) : gset string) = list_to_set all_edge_ids).
  { apply leibniz_equiv. intros x. by rewrite !elem_of_list_to_set, shown_all_edge_ids. }
  rewrite Hset. clear Hset.
  assert (Hle : (size (list_to_set all_edge_ids : gset string) <= length all_edge_ids)%nat).
  { clear. induction all_edge_ids as [|x l IH]; [done|]. rewrite list_to_set_cons, size_union_alt, size_singleton.
    cbn [length]. apply le_n_S. etrans; [apply subseteq_size, subseteq_difference_l|exact IH]. done. }
  enough (H : let '(nodes, edges) := inventoryPageTotals st now f (Z.of_nat (length matching)) in
    Z.of_nat (length all_ids) = nodes /\ Z.of_nat (length all_edge_ids) = edges /\
    ((forall c, c ∈ candidates -> mac_a c <> mac_b c) -> NoDup ((fun c => (mac_a c, mac_b c)) <$> candidates) -> NoDup all_edge_ids)).
  { destruct (inventoryPageTotals _ _ _ _) as [n e]. destruct H as (H1 & H2 & H3). split; [done|]. split; [lia|].
    intros Ha Hb. rewrite size_list_to_set by auto. done. }
  unfold inventoryPageTotals, all_ids, all_edge_ids. rewrite length_app, length_fmap.
  rewrite !elem_of_cons, elem_of_nil in Hg. destruct Hg as [->|[->|[->|[]]]].
  - rewrite String.eqb_refl. change (String.eqb InventoryGroupingRegistry InventoryGroupingCMDB) with false.
    change (String.eqb InventoryGroupingRegistry InventoryGroupingSimilarity) with false. cbn iota.
    split; [cbn [length]; lia|]. split; [done|]. constructor.
  - change (String.eqb InventoryGroupingCMDB InventoryGroupingRegistry) with false. rewrite String.eqb_refl. cbn iota.
    rewrite !length_app, !length_fmap. unfold distinct, present, count, distinct_values, grouped.
    split; [lia|]. split; [lia|]. intros _ _. apply NoDup_app. split_and!.
    + apply NoDup_grouped. intros d e Hd He E. unfold owns_id in E.
      by apply id_back in E as [_ E]; [|by apply matching_mac..].
    + intros x (d & -> & _)%list_elem_of_fmap (e & E & _)%list_elem_of_fmap. clash 0%nat E.
    + apply NoDup_grouped. intros d e Hd He E. unfold located_id in E.
      by apply id_front in E as [E _]; [|by apply matching_mac..].
  - change (String.eqb InventoryGroupingSimilarity InventoryGroupingRegistry) with false.
    change (String.eqb InventoryGroupingSimilarity InventoryGroupingCMDB) with false. rewrite String.eqb_refl. cbn iota.
    rewrite !length_app, !length_fmap, (length_bind_const _ 5) by done. split; [lia|]. split; [lia|].
    apply NoDup_similarity_edges.
Qed.
End totals.

(** ** The table *)

Section table.
Context {C : CursorCodec} {L : CursorLaws} {RJ : RequestJSON InventoryFilters}.
Context (st : inventory_store) (now generated : time).
Context (f : InventoryFilters) (fp : string).
Context (Hst : registry_ok st) (Hsize : 0 < PageSize f) (Hfp : pageFingerprint (inventory_identity f) = inl fp).

Notation matching := (matching st now f).

(** What a client gets for a cursor. *)
Definition table_page_at (cursor : string) : option InventoryResponse :=
  match inventoryTablePage st now generated (with_page cursor (Limit f) (PageSize f) f) with Answer page => Some page | _ => None end.

Definition table_order : device_row -> device_row -> bool :=
  if String.eqb (Sort f) "identifier" then less_on mac str_ltb else recent_first.

Definition table_devices : list device_row := sort_by table_order matching.

#[local] Instance table_order_weak : WeakOrder table_order.
Proof. unfold table_order. destruct (String.eqb _ _); apply _. Qed.

(** What the table needs of the devices in scope: their columns are not NULL
    and their last observation is within the years a cursor can carry. *)
Definition tabular (d : device_row) : Prop :=
  tags d <> None /\ known_macs d <> None /\ exists t, last_seen d = Some t /\ year_0 <= t < year_10000.

(** The row of a device in an answer. *)
Definition table_row (d : device_row) (n : InventoryNode) : Prop :=
  ID n = deviceID (mac d) /\ NodeMAC n = mac d /\ NodeLastSeen n = last_seen d /\ NodeFirstSeen n = first_seen d /\
  PendingReviewCount n = Some (pending_reviews st now (mac d)).

Lemma table_devices_in d : d ∈ table_devices -> d ∈ matching.
Proof. unfold table_devices. by rewrite sort_by_elem. Qed.

Lemma table_mac d : d ∈ matching -> MacPattern (mac d) = true.
Proof. intros Hd. apply (registry_mac st); [done|]. by apply (matching_in st now f). Qed.

Lemma table_keys : NoDup (mac <$> matching).
Proof. eapply sublist_NoDup; [apply Hst|apply fmap_sublist, filter_sublist]. Qed.

Lemma review_counts_rows ds :
  NoDup (mac <$> ds) -> (forall d, d ∈ ds -> d ∈ matching) ->
  Forall2 table_row ds (loadInventoryReviewCounts st now (table_node st <$> ds)).
Proof.
  induction ds as [|d ds IH]; intros Hnd Hin; [constructor|]. rewrite fmap_cons in Hnd. apply NoDup_cons in Hnd as [Hd Hnd].
  cbn [fmap list_fmap loadInventoryReviewCounts]. constructor; [|apply IH; [done|]; intros e He; apply Hin; by right].
  destruct (table_node_spec st d) as (E1 & E2 & E3 & E4); [apply table_mac, Hin; by left|].
  rewrite E2. split_and!; try done. cbn [with_reviews PendingReviewCount]. rewrite bool_decide_false; [done|].
  rewrite list_elem_of_fmap. intros (n & En & (e & -> & He)%list_elem_of_fmap). apply Hd.
  rewrite (proj1 (proj2 (table_node_spec st e (table_mac e (Hin e ltac:(by right)))))) in En. rewrite En.
  by apply list_elem_of_fmap_2.
Qed.

(** The cursor stands behind the first [i] devices. *)
Definition table_at (i : nat) (cursor : string) : Prop :=
  exists c, decodePageCursor cursor "inventory-table" fp = inl c /\
    match i with
    | O => DeviceAfter c = ""
    | S j => exists d t, table_devices !! j = Some d /\ last_seen d = Some t /\
        DeviceAfter c = mac d /\ TimeAfter c = FormatRFC3339Nano t
    end.

Lemma table_order_total a b : a ∈ matching -> b ∈ matching -> before table_order a b -> before table_order b a -> a = b.
Proof.
  intros Ha Hb H1 H2. apply (NoDup_key_inj mac matching); [apply table_keys|done|done|].
  unfold table_order in *. destruct (String.eqb _ _); [by apply str_ltb_total|by apply recent_first_total].
Qed.

Lemma table_rows_at i c :
  (forall d, d ∈ matching -> tabular d) ->
  match i with
  | O => DeviceAfter c = ""
  | S j => exists d t, table_devices !! j = Some d /\ last_seen d = Some t /\
      DeviceAfter c = mac d /\ TimeAfter c = FormatRFC3339Nano t
  end -> table_rows st now f c = inl (drop i table_devices).
Proof.
  intros Htab Hi. unfold table_rows. destruct i as [|j].
  { rewrite Hi. cbn [is_empty String.eqb orb]. unfold table_devices, table_order. rewrite drop_0.
    destruct (String.eqb _ _); [|done]. f_equal. apply List.forallb_filter_id, List.forallb_forall. done. }
  destruct Hi as (d & t & Hd & Ht & -> & ->).
  assert (Hin : d ∈ matching) by (apply table_devices_in; by eapply list_elem_of_lookup_2).
  assert (Hne : is_empty (mac d) = false).
  { destruct (is_empty (mac d)) eqn:E; [|done]. apply is_empty_true in E. pose proof (table_mac d Hin) as Hm. by rewrite E in Hm. }
  assert (Ha : List.filter (table_order d) table_devices = drop (S j) table_devices).
  { apply (sort_by_after table_order _ j d (NoDup_fmap_1 _ _ table_keys)); [|exact Hd].
    intros a b H1 H2. by apply table_order_total. }
  rewrite Hne, <-Ha. unfold table_devices, table_order. destruct (String.eqb_spec (Sort f) "identifier") as [E|E]; cbn [orb]; [done|].
  destruct (Htab d Hin) as (_ & _ & t' & Ht' & Hr). assert (t' = t) as -> by congruence.
  rewrite ParseRFC3339_format by done. f_equal. apply filter_ext_elem. intros x Hx%sort_by_elem.
  destruct (Htab x Hx) as (_ & _ & s & Hs & _). apply recent_after_less; [done|by exists s].
Qed.

Lemma tabular_scans ds : (forall d, d ∈ ds -> tabular d) -> existsb unscannable ds = false.
Proof.
  intros H. apply existsb_absent. intros d Hd. destruct (H d Hd) as (H1 & H2 & _). unfold unscannable.
  by rewrite !bool_decide_false.
Qed.

Lemma sublist_of_table (ds : list device_row) :
  ds `sublist_of` table_devices -> NoDup (mac <$> ds) /\ forall d, d ∈ ds -> d ∈ matching.
Proof.
  intros Hs. split.
  - eapply sublist_NoDup; [|apply fmap_sublist, Hs]. unfold table_devices. rewrite sort_by_perm. apply table_keys.
  - intros d Hd. apply table_devices_in. by eapply sublist_subseteq.
Qed.

Definition table_shows (chunk : list device_row) (page : InventoryResponse) : Prop :=
  Forall2 table_row chunk (Nodes page) /\ TotalDeviceCount page = Some (Z.of_nat (length matching)) /\
  TotalRegisteredCount page = count registered matching.

Lemma table_step i cursor :
  (forall d, d ∈ matching -> tabular d) -> table_at i cursor ->
  exists page, table_page_at cursor = Some page /\
    table_shows (take (Z.to_nat (PageSize f)) (drop i table_devices)) page /\
    if rows_left table_devices (Z.to_nat (PageSize f)) i
    then NextPageCursor page <> "" /\ table_at (i + Z.to_nat (PageSize f)) (NextPageCursor page) /\
         (length (drop (i + Z.to_nat (PageSize f)) table_devices) < length (drop i table_devices))%nat
    else NextPageCursor page = "".
Proof.
  intros Htab (c & Hd & Hi). unfold table_page_at, inventoryTablePage.
  change (inventory_identity (with_page cursor (Limit f) (PageSize f) f)) with (inventory_identity f).
  rewrite Hfp. change (PageCursor (with_page cursor (Limit f) (PageSize f) f)) with cursor. rewrite Hd.
  change (table_rows st now (with_page cursor (Limit f) (PageSize f) f) c) with (table_rows st now f c).
  rewrite (table_rows_at i c Htab Hi).
  change (PageSize (with_page cursor (Limit f) (PageSize f) f)) with (PageSize f).
  change (InventoryPages.matching st now (with_page cursor (Limit f) (PageSize f) f)) with matching.
  set (rows := take (Z.to_nat (PageSize f + 1)) (drop i table_devices)).
  assert (Hsub : rows `sublist_of` table_devices).
  { etrans; [apply sublist_take|apply sublist_drop]. }
  destruct (sublist_of_table rows Hsub) as [Hnd Hin].
  rewrite tabular_scans by (intros d Hdin; by apply Htab, Hin).
  unfold rows_left. rewrite length_fmap. unfold rows at 1. rewrite length_take, !length_drop.
  assert (Hb : (PageSize f <? Z.of_nat (Z.to_nat (PageSize f + 1) `min` (length table_devices - i)))
    = (Z.to_nat (PageSize f) <? length table_devices - i)%nat).
  { destruct (Z.ltb_spec (PageSize f) (Z.of_nat (Z.to_nat (PageSize f + 1) `min` (length table_devices - i)))),
      (Nat.ltb_spec (Z.to_nat (PageSize f)) (length table_devices - i)); lia. }
  rewrite Hb. destruct (Nat.ltb_spec (Z.to_nat (PageSize f)) (length table_devices - i)) as [Hm|Hm].
  - assert (Et : take (Z.to_nat (PageSize f)) (table_node st <$> rows)
      = table_node st <$> take (Z.to_nat (PageSize f)) (drop i table_devices)).
    { unfold rows. rewrite <-fmap_take, take_take. do 2 f_equal. lia. }
    rewrite Et. clear Et Hb. set (chunk := take (Z.to_nat (PageSize f)) (drop i table_devices)).
    destruct (table_devices !! (i + Z.to_nat (PageSize f) - 1)%nat) as [d|] eqn:Ed; [|apply lookup_ge_None in Ed; lia].
    assert (Hdin : d ∈ matching) by (apply table_devices_in; by eapply list_elem_of_lookup_2).
    assert (El : last chunk = Some d).
    { unfold chunk. rewrite last_lookup, length_take, length_drop, lookup_take_lt by lia. rewrite lookup_drop, <-Ed. f_equal. lia. }
    rewrite fmap_last, El. cbn [fmap option_fmap option_map].
    destruct (table_node_spec st d (table_mac d Hdin)) as (_ & En & Els & _). rewrite Els, En.
    destruct (Htab d Hdin) as (_ & _ & t & Ht & _). rewrite Ht.
    assert (Hcs : chunk `sublist_of` table_devices) by (etrans; [apply sublist_take|apply sublist_drop]).
    destruct (sublist_of_table chunk Hcs) as [Hcn Hcin].
    eexists. split; [reflexivity|]. split; [split; [by apply review_counts_rows|done]|].
    cbn [NextPageCursor]. destruct (decode_foreign _ _ _ _ Hd) as (Hv & Hr & Hf).
    destruct (decode_encoded (after_device (mac d) (FormatRFC3339Nano t) c) "inventory-table" fp) as [Hne Hdec]; [done..|].
    split; [intros E; by rewrite E in Hne|]. split; [|lia].
    eexists. split; [exact Hdec|]. destruct (i + Z.to_nat (PageSize f))%nat as [|j] eqn:Ej; [lia|].
    replace (S j - 1)%nat with j in Ed by lia. by exists d, t.
  - eexists. split; [reflexivity|]. split; [|done]. split; [|done]. cbn [Nodes].
    assert (Er : rows = take (Z.to_nat (PageSize f)) (drop i table_devices)).
    { unfold rows. rewrite !take_ge by (rewrite length_drop; lia). done. }
    rewrite <-Er. by apply review_counts_rows.
Qed.

(** The table of the inventory.  When every device in scope has tags, known
    MACs and a last observation, following the cursors ends after at most one
    page per device; the pages list the devices in scope in the order asked
    for, by MAC or most recent first, each once, with its pending reviews.
    But when the first page is full, more follow, and its last device was never
    observed, the request panics, in either order. *)
Theorem inventory_table :
  ((forall d, d ∈ matching -> tabular d) ->
   exists pages chunks,
     follow NextPageCursor table_page_at (S (length matching)) "" = Some pages /\
     mjoin chunks ≡ₚ matching /\ StronglySorted (before table_order) (mjoin chunks) /\
     Forall (fun chunk => Z.of_nat (length chunk) <= PageSize f) chunks /\ Forall2 table_shows chunks pages) /\
  (PageCursor f = "" -> (forall d, d ∈ matching -> tags d <> None /\ known_macs d <> None) ->
   forall d, table_devices !! Z.to_nat (PageSize f - 1) = Some d -> last_seen d = None ->
     PageSize f < Z.of_nat (length matching) -> inventoryTablePage st now generated f = Panic).
Proof.
  split.
  - intros Htab.
    destruct (follow_trail NextPageCursor table_page_at table_at (rows_left table_devices (Z.to_nat (PageSize f)))
      (fun i => (i + Z.to_nat (PageSize f))%nat) (fun i => length (drop i table_devices))
      (fun i page => table_shows (take (Z.to_nat (PageSize f)) (drop i table_devices)) page)
      (fun i cursor => table_step i cursor Htab) (S (length matching)) 0%nat "") as (pages & Hf & Ht).
    { by exists (first_cursor "inventory-table" fp). }
    { rewrite drop_0. unfold table_devices. rewrite sort_by_length. lia. }
    destruct (trail_chunks _ _ _ _ _ Ht) as (chunks & Hs & Hj & Hl). rewrite drop_0 in Hj.
    exists pages, chunks. split; [done|]. rewrite Hj. split; [apply sort_by_perm|]. split; [apply sort_by_sorted, _|].
    split; [|done]. eapply Forall_impl; [exact Hl|]. simpl. intros. lia.
  - intros Hcur Hcols d Hd Hn Hlen. unfold inventoryTablePage. rewrite Hfp, Hcur. cbn [decodePageCursor is_empty String.eqb].
    assert (Hrows : table_rows st now f (first_cursor "inventory-table" fp) = inl table_devices).
    { unfold table_rows, table_devices, table_order. cbn [first_cursor DeviceAfter is_empty String.eqb orb].
      destruct (String.eqb _ _); [|done]. f_equal. apply List.forallb_filter_id, List.forallb_forall. done. }
    rewrite Hrows.
    set (rows := take (Z.to_nat (PageSize f + 1)) table_devices).
    assert (Hin : forall e, e ∈ rows -> e ∈ matching).
    { intros e He. apply table_devices_in. eapply sublist_subseteq; [apply sublist_take|exact He]. }
    assert (Hscan : existsb unscannable rows = false).
    { apply existsb_absent. intros e He. destruct (Hcols e (Hin e He)). unfold unscannable. by rewrite !bool_decide_false. }
    rewrite Hscan. rewrite length_fmap. unfold rows at 1. rewrite length_take. unfold table_devices at 1. rewrite sort_by_length.
    rewrite (proj2 (Z.ltb_lt _ _)) by lia.
    assert (El : last (take (Z.to_nat (PageSize f)) (table_node st <$> rows)) = Some (table_node st d)).
    { unfold rows. rewrite <-fmap_take, take_take, fmap_last, last_lookup, length_take.
      unfold table_devices at 1. rewrite sort_by_length, lookup_take_lt by lia.
      replace (Nat.pred (Z.to_nat (PageSize f) `min` Z.to_nat (PageSize f + 1) `min` length matching)) with (Z.to_nat (PageSize f - 1)) by lia.
      by rewrite Hd. }
    rewrite El. assert (Hdin : d ∈ matching) by (apply table_devices_in; by eapply list_elem_of_lookup_2).
    destruct (table_node_spec st d (table_mac d Hdin)) as (_ & _ & -> & _). by rewrite Hn.
Qed.
End table.

(** ** Witnesses *)

Definition sample_device (m : string) (owner : option string) (seen : option time) : device_row := {|
  mac := m; display_name := None; owner_id := owner; location_id := Some "lab"; first_registered := None;
  first_seen := seen; last_seen := seen; active := true; registered := true; tags := Some ["managed"];
  known_macs := Some [] |}.

Definition sample_candidate (id a b : string) : merge_candidate := {|
  candidate_id := id; mac_a := a; mac_b := b; status := "pending"; confidence := f64_of_Z 1; expires_at := None |}.

Definition sample_store : inventory_store := {|
  devices := [sample_device "aa:bb:cc:dd:ee:02" (Some "it") (Some 7); sample_device "aa:bb:cc:dd:ee:01" (Some "it") (Some 9)];
  merge_candidates := [sample_candidate "c1" "aa:bb:cc:dd:ee:02" "aa:bb:cc:dd:ee:01"];
  search_documents := []; graph_edges := [] |}.

(** One whose oldest device was never observed. *)
Definition unseen_store : inventory_store := {|
  devices := [sample_device "aa:bb:cc:dd:ee:02" None (Some 7); sample_device "aa:bb:cc:dd:ee:01" None None];
  merge_candidates := []; search_documents := []; graph_edges := [] |}.

Definition paged_filters (grouping : string) : InventoryFilters := {|
  FilterRegistered := None; NeedsIdentityReview := false; Query := ""; SourceMACs := []; SensorIDs := [];
  ObservedAfter := None; ObservedBefore := None; Sort := "last_observed"; Grouping := grouping;
  LocationIDs := []; OwnerIDs := []; ActiveOnly := false; MinDedupConfidence := None; FilterTags := [];
  Limit := 400; Scope := "all"; PageCursor := ""; PageSize := 1 |}.

Definition demo_requests : RequestJSON InventoryFilters := fun f => inl (Grouping f).

(** Evaluated once. *)
Definition demo_print (f : InventoryFilters) : string :=
  match pageFingerprint (H := demo_requests) (inventory_identity f) with inl fp => fp | inr _ => "" end.

Lemma sample_registry : registry_ok sample_store.
Proof. split; [apply (bool_decide_eq_true_1 (NoDup _)); vm_compute; reflexivity|repeat constructor]. Qed.

Lemma unseen_registry : registry_ok unseen_store.
Proof. split; [apply (bool_decide_eq_true_1 (NoDup _)); vm_compute; reflexivity|repeat constructor]. Qed.

Definition outcome_edges (o : outcome) : Z := match o with Answer r => EdgeCount r | _ => -1 end.

Lemma inventory_closed_witness :
  exists r, service_Inventory (C := demo_codec) (RJ := demo_requests) sample_store 0 1 1 (paged_filters "similarity") = Answer r /\
    EdgeCount r = 5 /\ forall e, e ∈ Edges r -> Source e ∈ ID <$> Nodes r /\ Target e ∈ ID <$> Nodes r.
Proof.
  assert (Hc : outcome_edges (service_Inventory (C := demo_codec) (RJ := demo_requests) sample_store 0 1 1 (paged_filters "similarity")) = 5)
    by (vm_compute; reflexivity).
  destruct (service_Inventory (C := demo_codec) (RJ := demo_requests) sample_store 0 1 1 (paged_filters "similarity"))
    as [r| | |] eqn:E; [|discriminate Hc..].
  exists r. split; [reflexivity|]. split; [exact Hc|].
  apply (inventory_closed (C := demo_codec) (RJ := demo_requests) sample_store 0 1 1 (paged_filters "similarity") r sample_registry E).
Defined.

Lemma inventory_pages_cover_witness :
  exists pages chunks,
    follow NextPageCursor (inventory_page_at (C := demo_codec) (RJ := demo_requests) sample_store 0 1 (paged_filters "cmdb")) 3 ""
    = Some pages /\ length (mjoin chunks) = 2%nat /\
    Forall2 (inventory_shows sample_store 0 (paged_filters "cmdb")) chunks pages.
Proof.
  destruct (inventory_pages_cover (C := demo_codec) (L := demo_codec_laws) (RJ := demo_requests) sample_store 0 1
    (paged_filters "cmdb") (demo_print (paged_filters "cmdb")) sample_registry eq_refl eq_refl)
    as (pages & chunks & Hf & Hp & _ & _ & Hs).
  exists pages, chunks. split; [exact Hf|]. split; [exact (Permutation_length Hp)|exact Hs].
Defined.

Lemma inventory_totals_witness :
  size (list_to_set (matching sample_store 0 (paged_filters "similarity") ≫= shown_edge_ids sample_store 0 (paged_filters "similarity"))
        : gset string) = 5%nat.
Proof.
  pose proof (inventory_totals sample_store 0 (paged_filters "similarity") sample_registry) as H.
  destruct H as (_ & _ & H).
  - apply (bool_decide_eq_true_1 (NoDup _)). vm_compute. reflexivity.
  - right. right. left.
  - apply Nat2Z.inj. rewrite H.
    + vm_compute. reflexivity.
    + assert (E : candidates sample_store 0 (paged_filters "similarity") = [sample_candidate "c1" "aa:bb:cc:dd:ee:02" "aa:bb:cc:dd:ee:01"])
        by (vm_compute; reflexivity).
      rewrite E. intros c Hc%list_elem_of_singleton. rewrite Hc. discriminate.
    + apply (bool_decide_eq_true_1 (NoDup _)). vm_compute. reflexivity.
Defined.

Lemma inventory_table_witness :
  (exists pages chunks,
     follow NextPageCursor (table_page_at (C := demo_codec) (RJ := demo_requests) sample_store 0 1 (paged_filters "registry")) 3 ""
     = Some pages /\ length (mjoin chunks) = 2%nat /\
     Forall2 (table_shows sample_store 0 (paged_filters "registry")) chunks pages) /\
  inventoryTablePage (C := demo_codec) (RJ := demo_requests) unseen_store 0 1 (paged_filters "registry") = Panic.
Proof.
  split.
  - destruct (proj1 (inventory_table (C := demo_codec) (L := demo_codec_laws) (RJ := demo_requests) sample_store 0 1
      (paged_filters "registry") (demo_print (paged_filters "registry")) sample_registry eq_refl eq_refl))
      as (pages & chunks & Hf & Hp & _ & _ & Hs).
    + assert (E : matching sample_store 0 (paged_filters "registry") = devices sample_store) by (vm_compute; reflexivity).
      rewrite E. intros d [Hd|Hd%list_elem_of_singleton]%elem_of_cons; rewrite Hd; (split; [discriminate|split; [discriminate|]]);
        eexists; (split; [reflexivity|]); split; vm_compute; (reflexivity || discriminate).
    + exists pages, chunks. split; [exact Hf|]. split; [exact (Permutation_length Hp)|exact Hs].
  - apply (proj2 (inventory_table (C := demo_codec) (L := demo_codec_laws) (RJ := demo_requests) unseen_store 0 1
      (paged_filters "registry") (demo_print (paged_filters "registry")) unseen_registry eq_refl eq_refl) eq_refl)
      with (d := sample_device "aa:bb:cc:dd:ee:01" None None).
    + assert (E : matching unseen_store 0 (paged_filters "registry") = devices unseen_store) by (vm_compute; reflexivity).
      rewrite E. intros d [Hd|Hd%list_elem_of_singleton]%elem_of_cons; rewrite Hd; split; discriminate.
    + vm_compute. reflexivity.
    + reflexivity.
    + vm_compute. reflexivity.
Defined.
