(* ===== verification/Graph.v ===== *)
(** * The identity graph: data, filters and rows
    (internal/reporting: graph_types.go, graph_normalize.go, graph_assembly.go,
    graph_projection.go)

    The filters of a graph request and their normal form, the rows of the graph
    projection and the nodes and edges they become. *)

From S2P Require Import Prelude GoErrors GoStrings GoSort GoFloats QueryScope Pagination.
From Stdlib Require Import SpecFloat.

(** ** Requests *)

Definition graphDefaultLimit := 200.
Definition GraphMaxLimit := 1000.
Definition GraphMaxHops := 2.

Record GraphFilters := {
  Hierarchy : bool;
  RootBSSID : string;
  RootNodeID : string;
  Projection : string;
  IncludeIdentity : bool;
  LocationIDs : list string;
  SensorIDs : list string;
  FilterMAC : string;
  FilterSSID : string;
  FilterKinds : list string;
  EdgeKinds : list string;
  FilterThreatOnly : bool;
  After : option time;
  Before : option time;
  Hops : Z;
  Limit : Z;
  Scope : string;
  PageCursor : string;
  PageSize : Z;
}.

Definition mapGraphNodeKind (kind : string) : string :=
  if String.eqb kind "access_point" then "ap"
  else if String.eqb kind "identity_cluster" then "cluster"
  else kind.

Definition mapGraphEdgeKind (kind : string) : string :=
  if String.eqb kind "observed_at" then "association"
  else if String.eqb kind "identity_member" then "cluster_member"
  else kind.

Definition graphNodeKindToDB (kind : string) : string :=
  if String.eqb kind "ap" then "access_point"
  else if String.eqb kind "cluster" then "identity_cluster"
  else kind.

Definition graphEdgeKindToDB (kind : string) : string :=
  if String.eqb kind "association" then "observed_at"
  else if String.eqb kind "cluster_member" then "identity_member"
  else kind.

(** The loops that trim, map and deduplicate the requested kinds. *)
Definition map_kinds (mapKind : string -> string) (kinds : list string) : list string :=
  dedupe [] (mapKind <$> (TrimSpace <$> kinds)).

Definition default_kinds (f : GraphFilters) : list string :=
  match FilterKinds f with
  | [] => if String.eqb (Projection f) "stream"
          then ["device"; "ap"; "location"; "sensor"] ++ (if IncludeIdentity f then ["cluster"] else [])
          else []
  | kinds => kinds
  end.

Definition default_edge_kinds (f : GraphFilters) : list string :=
  match EdgeKinds f with
  | [] => if String.eqb (Projection f) "stream"
          then ["containment"; "observed_association"; "calibrated_range"]
               ++ (if IncludeIdentity f then ["identity_membership"] else [])
          else []
  | kinds => kinds
  end.

Definition clamp_limit (hierarchy : bool) (limit : Z) : Z :=
  Z.min GraphMaxLimit (if limit <=? 0 then (if hierarchy then GraphMaxLimit else graphDefaultLimit) else limit).

Definition clamp_hops (hops : Z) : Z :=
  let hops := if hops <? 1 then 1 else hops in if GraphMaxHops <? hops then GraphMaxHops else hops.

Definition not_before (after before : option time) : bool :=
  match after, before with Some a, Some b => negb (a <? b) | _, _ => false end.

Definition NormalizeGraphFilters (f : GraphFilters) : GraphFilters + app_error :=
  let rootBSSID := ToLower (TrimSpace (RootBSSID f)) in
  let rootNodeID := TrimSpace (RootNodeID f) in
  let hierarchy := Hierarchy f || negb (is_empty rootBSSID) || negb (is_empty rootNodeID) in
  let scope := TrimSpace (Scope f) in
  if hierarchy && negb (is_empty (PageCursor f))
  then inr (Validation "page_cursor is not supported for hierarchy graphs")
  else if negb (is_empty (Projection f)) && negb (String.eqb (Projection f) "legacy")
          && negb (String.eqb (Projection f) "stream")
  then inr (Validation "unsupported graph projection")
  else if negb (is_empty scope) && negb (String.eqb scope "all")
  then inr (Validation ("unsupported scope " +:+ Quote scope))
  else if is_empty scope && negb (is_empty (PageCursor f))
  then inr (Validation "page_cursor requires scope all")
  else if not_before (After f) (Before f)
  then inr (Validation "observed_after must be before observed_before")
  else inl {|
    Hierarchy := hierarchy;
    RootBSSID := rootBSSID;
    RootNodeID := rootNodeID;
    Projection := Projection f;
    IncludeIdentity := IncludeIdentity f;
    LocationIDs := NormalizeGraphList (LocationIDs f);
    SensorIDs := NormalizeGraphList (SensorIDs f);
    FilterMAC := ToLower (TrimSpace (FilterMAC f));
    FilterSSID := TrimSpace (FilterSSID f);
    FilterKinds := map_kinds mapGraphNodeKind (default_kinds f);
    EdgeKinds := map_kinds mapGraphEdgeKind (default_edge_kinds f);
    FilterThreatOnly := FilterThreatOnly f;
    After := After f;
    Before := Before f;
    Hops := clamp_hops (Hops f);
    Limit := clamp_limit hierarchy (Limit f);
    Scope := scope;
    PageCursor := PageCursor f;
    PageSize := if String.eqb scope "all" then normalizePageSize (PageSize f) else PageSize f;
  |}.

(** ** Nodes and edges *)

Record GraphNode := {
  ParentID : option string;
  Depth : option Z;
  Role : string;
  NodeID : string;
  NodeKind : string;
  NodeLabel : string;
  MAC : string;
  DisplayName : string;
  Username : string;
  Hostname : string;
  OSHint : string;
  NodeSSID : string;
  NodeBSSID : string;
  NodeLocationID : string;
  NodeSensorID : string;
  ClusterSize : option Z;
  RiskScore : option float64;
  AlertType : string;
  AlertSeverity : string;
  Threat : bool;
  ExplainSourceKey : string;
  ExplainKind : string;
  NodeObservedAt : option time;
  NodeFirstSeen : option time;
  NodeLastSeen : option time;
}.

Record GraphRange := {
  Meters : float64;
  ErrorMeters : float64;
  LowerMeters : float64;
  UpperMeters : float64;
  Confidence : string;
  CalibrationVersion : string;
  SampleCount : Z;
  RangeObservedAt : time;
  ValidUntil : time;
}.

Record GraphEdge := {
  EvidenceStart : option time;
  EvidenceEnd : option time;
  ExpiresAt : option time;
  ProjectionWatermark : option time;
  ProjectedAt : option time;
  Range : option GraphRange;
  EdgeID : string;
  Source : string;
  Target : string;
  EdgeKind : string;
  Weight : option float64;
  WeightBasis : string;
  EdgeLabel : string;
  TreeRole : string;
}.

(** A row of the node projection; a payload is JSON text. *)
Record graphNodeRow := {
  row_node_id : string;
  row_node_kind : string;
  row_label : option string;
  row_payload : string;
  row_location_id : option string;
  row_sensor_id : option string;
  row_mac : option string;
  row_ssid : option string;
  row_is_threat : bool;
  row_observed_at : option time;
}.

Record graphEdgeRow := {
  row_evidence : string;
  row_edge_id : string;
  row_source : string;
  row_target : string;
  row_edge_kind : string;
  row_weight : float64;
  row_weight_basis : option string;
  row_edge_label : option string;
  row_edge_observed_at : option time;
}.

(** The members of a payload that are read, as json.Unmarshal types them. *)
Inductive json_value := JString (s : string) | JNumber (x : float64) | JOther.

Record edge_evidence := {
  ev_window_start : option time;
  ev_window_end : option time;
  ev_expires_at : option time;
  ev_watermark : option time;
  ev_projected_at : option time;
  ev_range : option GraphRange;
}.

(** encoding/json on the two kinds of stored documents. *)
Class GraphJSON := {
  unmarshal_payload : string -> option (gmap string json_value);
  unmarshal_evidence : string -> option edge_evidence;
}.

(** [payload[key].(string)], when it is one and not empty. *)
Definition payload_string (payload : gmap string json_value) (key old : string) : string :=
  match payload !! key with
  | Some (JString s) => if is_empty s then old else s
  | _ => old
  end.

(** [int(x)] truncates. *)
Definition f64_trunc (x : float64) : Z :=
  match x with
  | S754_finite s m e =>
      let v := if 0 <=? e then Zpos m * 2 ^ e else Z.shiftr (Zpos m) (- e) in if s then - v else v
  | _ => 0
  end.

Section rows.
Context {J : GraphJSON}.

Definition graphNodeFromRow (row : graphNodeRow) : GraphNode :=
  let kind := mapGraphNodeKind (row_node_kind row) in
  let label := match row_label row with
               | Some l => if is_empty (TrimSpace l) then row_node_id row else l
               | None => row_node_id row
               end in
  let p := default ∅ (unmarshal_payload (row_payload row)) in
  let displayName := payload_string p "display_name" "" in
  let bssid := payload_string p "bssid" "" in
  {| ParentID := None;
     Depth := None;
     Role := "";
     NodeID := row_node_id row;
     NodeKind := kind;
     NodeLabel := label;
     MAC := payload_string p "mac" (default "" (row_mac row));
     DisplayName := if is_empty displayName && String.eqb kind "device" then label else displayName;
     Username := payload_string p "username" "";
     Hostname := payload_string p "hostname" "";
     OSHint := payload_string p "os_hint" "";
     NodeSSID := default "" (row_ssid row);
     NodeBSSID := if is_empty bssid && HasPrefix (row_node_id row) "ap:"
                  then TrimPrefix (row_node_id row) "ap:" else bssid;
     NodeLocationID := default "" (row_location_id row);
     NodeSensorID := default "" (row_sensor_id row);
     ClusterSize := match p !! "cluster_size" with Some (JNumber x) => Some (f64_trunc x) | _ => None end;
     RiskScore := match p !! "risk_score" with
                  | Some (JNumber x) => if f_gtb x f_zero then Some x else None
                  | _ => None
                  end;
     AlertType := payload_string p "alert_type" "";
     AlertSeverity := payload_string p "alert_severity" "";
     Threat := row_is_threat row;
     ExplainSourceKey := payload_string p "explain_source_key" "";
     ExplainKind := payload_string p "explain_kind" "";
     NodeObservedAt := row_observed_at row; NodeFirstSeen := None; NodeLastSeen := None |}.

(** The range evidence an edge may carry. *)
Definition usable_range (row : graphEdgeRow) (now : time) (r : GraphRange) : bool :=
  String.eqb (row_edge_kind row) "calibrated_range" && HasPrefix (row_source row) "sensor:"
  && HasPrefix (row_target row) "device:" && (now <? ValidUntil r) && f_gtb (Meters r) f_zero
  && SFleb f_zero (ErrorMeters r) && (2 <=? SampleCount r) && negb (is_empty (CalibrationVersion r)).

Definition graphEdgeFromRow (row : graphEdgeRow) (now : time) : GraphEdge :=
  let ev := unmarshal_evidence (row_evidence row) in
  {| EvidenceStart := ev ≫= ev_window_start;
     EvidenceEnd := ev ≫= ev_window_end;
     ExpiresAt := ev ≫= ev_expires_at;
     ProjectionWatermark := ev ≫= ev_watermark;
     ProjectedAt := ev ≫= ev_projected_at;
     Range := (ev ≫= ev_range) ≫= (fun r => if usable_range row now r then Some r else None);
     EdgeID := row_edge_id row;
     Source := row_source row;
     Target := row_target row;
     EdgeKind := mapGraphEdgeKind (row_edge_kind row);
     Weight := Some (row_weight row);
     WeightBasis := default "" (row_weight_basis row);
     EdgeLabel := default "" (row_edge_label row);
     TreeRole := "" |}.
End rows.

Definition sortGraphNodes (nodes : list GraphNode) : list GraphNode := sort_by (less_on NodeID str_ltb) nodes.
Definition sortGraphEdges (edges : list GraphEdge) : list GraphEdge := sort_by (less_on EdgeID str_ltb) edges.
