(* ===== verification/SavedViews.v ===== *)
(** * Saved graph views (internal/savedviews)

    Named filters a signed-in user keeps, in the table saved_views.  Every
    operation is a function of the table; an operation made of several
    statements takes the tables its statements see, so that other transactions
    can be interleaved. *)

From S2P Require Import Prelude GoErrors GoStrings GoUtf8 GoSort GoFloats QueryScope Graph.
#[local] Open Scope go_scope.

(** ** Data *)

Definition SavedViewSurfaceGraphProjection := "graph_projection".
Definition SavedViewVersion := 1.
Definition SavedViewMaxNameLength := 80.
Definition SavedViewMaxPerUser := 20.

Inductive view_error :=
| ErrSavedViewNotFound
| ErrSavedViewDuplicateName
| ErrSavedViewStaleRevision
| ErrSavedViewLimitReached
| ErrSavedViewUnavailable
| InvalidView (msg : string)         (* apperror.Validationf *)
| ViewFailure (err : error).         (* encoding and database errors *)

Definition savedViewNodeKinds : list string :=
  ["device"; "cluster"; "ap"; "client"; "shadow_alert"; "alert"].

Definition savedViewEdgeKinds : list string :=
  ["association"; "cluster_member"; "roaming"; "same_channel"; "vendor_link"; "rf_proximity";
   "probe"; "shadow"; "alert_ref"].

Record SavedViewState := {
  ViewFilters : GraphFilters;
  VisibleNodeKinds : list string;
  VisibleEdgeKinds : list string;
}.

Record SavedGraphView := {
  ViewID : string;
  ViewName : string;
  Surface : string;
  ViewVersion : Z;
  Revision : Z;
  State : SavedViewState;
  CreatedAt : time;
  UpdatedAt : time;
}.

Record SavedViewCreate := { CreateName : string; CreateState : SavedViewState }.
Record SavedViewUpdate := { UpdateName : string; UpdateState : SavedViewState; ExpectedRevision : Z }.

(** A row of saved_views, keyed by id; [state] is the JSON column. *)
Record view_row := {
  owner_subject : string;
  surface : string;
  name : string;
  view_version : Z;
  revision : Z;
  state : string;
  created_at : time;
  updated_at : time;
}.

Notation view_table := (gmap string view_row).

(** encoding/json on the view state, the order of [ORDER BY lower(name), id]
    under the database's collation, and whether the table has a unique index on
    owner, surface and lower(name). *)
Class ViewEnv := {
  marshal_state : SavedViewState -> string;
  unmarshal_state : string -> SavedViewState + error;
  view_order : string * view_row -> string * view_row -> bool;
  unique_name_index : bool;
}.

(** ** Normal form of requests *)

Definition requireSavedViewOwner (owner : string) : option view_error :=
  if is_empty (TrimSpace owner) then Some ErrSavedViewUnavailable else None.

Definition normalizeSavedViewSurface (surface : string) : string + view_error :=
  let surface := TrimSpace surface in
  if is_empty surface then inl SavedViewSurfaceGraphProjection
  else if negb (String.eqb surface SavedViewSurfaceGraphProjection)
  then inr (InvalidView ("unsupported saved view surface " +:+ Quote surface))
  else inl surface.

Definition normalizeSavedViewName (name : string) : string + view_error :=
  let name := TrimSpace name in
  if is_empty name || (SavedViewMaxNameLength <? RuneCountInString name)
  then inr (InvalidView ("invalid saved view name: must be 1 to " +:+ Itoa SavedViewMaxNameLength +:+ " characters"))
  else inl name.

Fixpoint kinds_loop (vocabulary : list string) (label : string) (seen values : list string)
    : list string + view_error :=
  match values with
  | [] => inl []
  | value :: values =>
      let value := TrimSpace value in
      if is_empty value then kinds_loop vocabulary label seen values
      else if negb (existsb (String.eqb value) vocabulary)
      then inr (InvalidView ("invalid saved view state: unsupported " +:+ label +:+ " " +:+ Quote value))
      else if bool_decide (value ∈ seen) then kinds_loop vocabulary label seen values
      else match kinds_loop vocabulary label (value :: seen) values with
           | inl normalized => inl (value :: normalized)
           | inr err => inr err
           end
  end.

Definition normalizeSavedViewKinds (values vocabulary : list string) (label : string)
    : list string + view_error := kinds_loop vocabulary label [] values.

Definition set_view_filters (f : GraphFilters) (kinds edgeKinds : list string) : GraphFilters := {|
  Hierarchy := Hierarchy f; RootBSSID := RootBSSID f; RootNodeID := RootNodeID f;
  Projection := Projection f; IncludeIdentity := IncludeIdentity f;
  LocationIDs := LocationIDs f; SensorIDs := SensorIDs f; FilterMAC := FilterMAC f;
  FilterSSID := FilterSSID f; FilterKinds := kinds; EdgeKinds := edgeKinds;
  FilterThreatOnly := FilterThreatOnly f; After := After f; Before := Before f;
  Hops := Hops f; Limit := Limit f; Scope := Scope f; PageCursor := ""; PageSize := 0 |}.

Definition app_error_text (e : app_error) : string :=
  match e with
  | Validation msg => msg
  | AppError _ msg => msg
  | UnavailableError Code _ Message =>
      let message := if is_empty Message then "semantic backend unavailable" else Message in
      if is_empty Code then message else message +:+ " (code=" +:+ Code +:+ ")"
  | Plain err => Error err
  end.

Definition normalizeSavedViewState (st : SavedViewState) : SavedViewState + view_error :=
  match NormalizeGraphFilters (ViewFilters st) with
  | inr err => inr (InvalidView ("invalid saved view state: " +:+ app_error_text err))
  | inl filters =>
      let! kinds := normalizeSavedViewKinds (FilterKinds filters) savedViewNodeKinds "node kind" in
      let! edgeKinds := normalizeSavedViewKinds (EdgeKinds filters) savedViewEdgeKinds "edge kind" in
      let! nodes := normalizeSavedViewKinds (VisibleNodeKinds st) savedViewNodeKinds "visible node kind" in
      let! edges := normalizeSavedViewKinds (VisibleEdgeKinds st) savedViewEdgeKinds "visible edge kind" in
      inl {| ViewFilters := set_view_filters filters kinds edgeKinds;
             VisibleNodeKinds := nodes; VisibleEdgeKinds := edges |}
  end.

(** savedViewIDPattern: eight, four, four, four and twelve hexadecimal digits. *)
Definition hex_code (c : ascii) : bool := is_digit c || in_range 97 102 c || in_range 65 70 c.

Definition savedViewIDPattern (id : string) : bool :=
  let parts := Split id "-"%char in
  bool_decide (String.length <$> parts = [8%nat; 4%nat; 4%nat; 4%nat; 12%nat])
  && forallb (fun p => forallb hex_code (bytes p)) parts.

(** ** Statements *)

(** The row of the table that [owner] has under [id]. *)
Definition owned (t : view_table) (owner id : string) : option view_row :=
  match t !! id with
  | Some r => if String.eqb (owner_subject r) owner then Some r else None
  | None => None
  end.

Definition belongs (owner surf : string) (r : view_row) : bool :=
  String.eqb (owner_subject r) owner && String.eqb (surface r) surf.

Definition owner_count (t : view_table) (owner surf : string) : Z :=
  Z.of_nat (length (List.filter (fun c => belongs owner surf (snd c)) (map_to_list t))).

(** Some other row of the owner has the name, case aside. *)
Definition name_taken (t : view_table) (owner surf nm : string) (exclude : option string) : bool :=
  existsb (fun c => belongs owner surf (snd c) && String.eqb (ToLower (name (snd c))) (ToLower nm)
                    && match exclude with Some id => negb (String.eqb (fst c) id) | None => true end)
    (map_to_list t).

Definition requireSavedViewNameFree (t : view_table) (owner surf nm excludeID : string)
    : option view_error :=
  let exclude := if is_empty excludeID then None else Some excludeID in
  if name_taken t owner surf nm exclude then Some ErrSavedViewDuplicateName else None.

Section operations.
Context {Env : ViewEnv}.

Definition scanSavedView (id : string) (r : view_row) : SavedGraphView + view_error :=
  match unmarshal_state (state r) with
  | inl st => inl {| ViewID := id; ViewName := name r; Surface := surface r;
                     ViewVersion := view_version r; Revision := revision r; State := st;
                     CreatedAt := created_at r; UpdatedAt := updated_at r |}
  | inr err => inr (ViewFailure (Wrapf ("decode saved view state: " +:+ Error err) err))
  end.

Fixpoint scan_all (rows : list (string * view_row)) : list SavedGraphView + view_error :=
  match rows with
  | [] => inl []
  | (id, r) :: rows =>
      let! view := scanSavedView id r in
      let! views := scan_all rows in
      inl (view :: views)
  end.

Definition ListSavedViews (t : view_table) (owner surf : string)
    : list SavedGraphView + view_error :=
  match requireSavedViewOwner owner with
  | Some err => inr err
  | None =>
      let! surf := normalizeSavedViewSurface surf in
      scan_all (sort_by view_order (List.filter (fun c => belongs owner surf (snd c)) (map_to_list t)))
  end.

(** The request of a create, checked: its name and the JSON of its state. *)
Definition create_request (owner : string) (input : SavedViewCreate) : string * string + view_error :=
  match requireSavedViewOwner owner with
  | Some err => inr err
  | None =>
      let! nm := normalizeSavedViewName (CreateName input) in
      let! st := normalizeSavedViewState (CreateState input) in
      inl (nm, marshal_state st)
  end.

(** The three statements of the create transaction after its lock. *)
Definition check_limit (t : view_table) (owner : string) : option view_error :=
  if SavedViewMaxPerUser <=? owner_count t owner SavedViewSurfaceGraphProjection
  then Some ErrSavedViewLimitReached else None.

Definition check_name (t : view_table) (owner nm : string) : option view_error :=
  requireSavedViewNameFree t owner SavedViewSurfaceGraphProjection nm "".

Definition insert_view (now : time) (uuid : string) (t : view_table) (owner nm payload : string)
    : (view_table * SavedGraphView) + view_error :=
  let r := {| owner_subject := owner; surface := SavedViewSurfaceGraphProjection; name := nm;
              view_version := SavedViewVersion; revision := 1; state := payload;
              created_at := now; updated_at := now |} in
  if bool_decide (is_Some (t !! uuid))
     || unique_name_index && name_taken t owner SavedViewSurfaceGraphProjection nm None
  then inr ErrSavedViewDuplicateName
  else let! view := scanSavedView uuid r in inl (<[uuid := r]> t, view).

(** [t1], [t2] and [t] are the tables the count, the name check and the
    insertion see. *)
Definition CreateSavedView (now : time) (uuid : string) (t1 t2 t : view_table) (owner : string)
    (input : SavedViewCreate) : (view_table * SavedGraphView) + view_error :=
  match create_request owner input with
  | inr err => inr err
  | inl (nm, payload) =>
      match check_limit t1 owner with
      | Some err => inr err
      | None => match check_name t2 owner nm with
                | Some err => inr err
                | None => insert_view now uuid t owner nm payload
                end
      end
  end.

Definition update_request (owner id : string) (input : SavedViewUpdate)
    : string * string * string + view_error :=
  match requireSavedViewOwner owner with
  | Some err => inr err
  | None =>
      if negb (savedViewIDPattern (TrimSpace id)) then inr ErrSavedViewNotFound
      else
        let! nm := normalizeSavedViewName (UpdateName input) in
        if ExpectedRevision input <? 1
        then inr (InvalidView "invalid saved view: expected_revision must be at least 1")
        else let! st := normalizeSavedViewState (UpdateState input) in
             inl (ToLower (TrimSpace id), nm, marshal_state st)
  end.

Definition updated_view_row (now : time) (nm payload : string) (r : view_row) : view_row := {|
  owner_subject := owner_subject r; surface := surface r; name := nm; view_version := view_version r;
  revision := revision r + 1; state := payload; created_at := created_at r; updated_at := now |}.

(** The row is locked from the SELECT FOR UPDATE on, so the SELECT and the
    UPDATE see it in [t]; [seen] is the table the name check sees. *)
Definition UpdateSavedView (now : time) (seen t : view_table) (owner id : string)
    (input : SavedViewUpdate) : (view_table * SavedGraphView) + view_error :=
  match update_request owner id input with
  | inr err => inr err
  | inl (id, nm, payload) =>
      match owned t owner id with
      | None => inr ErrSavedViewNotFound
      | Some r =>
          if negb (revision r =? ExpectedRevision input) then inr ErrSavedViewStaleRevision
          else
            match (if EqualFold (name r) nm then None
                   else requireSavedViewNameFree seen owner SavedViewSurfaceGraphProjection nm id) with
            | Some err => inr err
            | None =>
                let r' := updated_view_row now nm payload r in
                if unique_name_index && name_taken t owner (surface r) nm (Some id)
                then inr ErrSavedViewDuplicateName
                else let! view := scanSavedView id r' in inl (<[id := r']> t, view)
            end
      end
  end.

Definition DeleteSavedView (t : view_table) (owner id : string) : view_table + view_error :=
  match requireSavedViewOwner owner with
  | Some err => inr err
  | None =>
      if negb (savedViewIDPattern (TrimSpace id)) then inr ErrSavedViewNotFound
      else
        let id := ToLower (TrimSpace id) in
        match owned t owner id with
        | Some _ => inl (delete id t)
        | None => inr ErrSavedViewNotFound
        end
  end.
End operations.

(** ** The normal form of a view *)

Lemma kinds_loop_spec vocabulary label seen values l :
  kinds_loop vocabulary label seen values = inl l <->
  (forall v, v ∈ values -> TrimSpace v <> "" -> TrimSpace v ∈ vocabulary) /\
  l = dedupe seen (TrimSpace <$> values).
Proof.
  revert seen l. induction values as [|v values IH]; intros seen l; simpl.
  { split; [intros [= <-]; split; [by intros v ?%elem_of_nil|done]|by intros [_ ->]]. }
  assert (Hvoc : existsb (String.eqb (TrimSpace v)) vocabulary = true <-> TrimSpace v ∈ vocabulary).
  { rewrite existsb_exists, list_elem_of_In. split; [intros (x & Hx & ->%String.eqb_eq); done|].
    intros Hx. exists (TrimSpace v). by rewrite String.eqb_refl. }
  destruct (is_empty (TrimSpace v)) eqn:Ee.
  { apply is_empty_true in Ee. rewrite IH. setoid_rewrite elem_of_cons. naive_solver. }
  assert (Hne : TrimSpace v <> "") by (intros E; apply is_empty_true in E; congruence).
  destruct (existsb _ _) eqn:Ev; simpl.
  - apply proj1 in Hvoc. specialize (Hvoc eq_refl).
    case_bool_decide as Hs.
    + rewrite IH. setoid_rewrite elem_of_cons. naive_solver.
    + destruct (kinds_loop vocabulary label (TrimSpace v :: seen) values) as [l'|err] eqn:El.
      * apply IH in El as [Hv ->]. setoid_rewrite elem_of_cons. naive_solver.
      * split; [done|]. intros [Hv _]. exfalso. clear Hs.
        specialize (IH (TrimSpace v :: seen) (dedupe (TrimSpace v :: seen) (TrimSpace <$> values))).
        rewrite El in IH. apply proj2 in IH. discriminate IH.
        split; [|done]. intros v' Hv'. apply Hv. by right.
  - split; [done|]. intros [Hv _]. exfalso. assert (false = true); [|done].
    apply Hvoc, Hv; [by left|done].
Qed.

(** A list of kinds that is its own normal form. *)
Definition normal_kinds (vocabulary kinds : list string) : Prop :=
  NoDup kinds /\ forall k, k ∈ kinds -> k ∈ vocabulary /\ k <> "" /\ TrimSpace k = k.

Lemma normal_kinds_result vocabulary label values l :
  normalizeSavedViewKinds values vocabulary label = inl l -> normal_kinds vocabulary l.
Proof.
  intros H. apply kinds_loop_spec in H as [Hv ->]. split; [apply dedupe_NoDup|].
  intros k Hk. apply dedupe_elem in Hk as (Hin & Hne & _).
  apply list_elem_of_fmap in Hin as (v & -> & Hin). split; [by apply Hv|]. by rewrite TrimSpace_idem.
Qed.

Lemma fmap_id_on {A} (f : A -> A) (l : list A) : (forall x, x ∈ l -> f x = x) -> f <$> l = l.
Proof.
  intros H. induction l as [|x l IH]; [done|]. rewrite fmap_cons, H by left. f_equal. apply IH.
  intros y Hy. apply H. by right.
Qed.

Lemma normal_kinds_again vocabulary label l :
  normal_kinds vocabulary l -> normalizeSavedViewKinds l vocabulary label = inl l.
Proof.
  intros [Hnd Hl]. apply kinds_loop_spec. split.
  - intros v Hv _. destruct (Hl v Hv) as (? & _ & ->). done.
  - rewrite fmap_id_on; [|intros v Hv; by apply Hl]. symmetry. apply dedupe_id; [done|].
    intros v Hv. split; [by apply Hl|by apply not_elem_of_nil].
Qed.

Lemma map_kinds_normal vocabulary mapKind l :
  (forall k, k ∈ vocabulary -> mapKind k = k) -> normal_kinds vocabulary l -> map_kinds mapKind l = l.
Proof.
  intros Hm [Hnd Hl]. unfold map_kinds.
  rewrite (fmap_id_on TrimSpace) by (intros v Hv; by apply Hl).
  rewrite (fmap_id_on mapKind) by (intros v Hv; by apply Hm, Hl).
  apply dedupe_id; [done|]. intros v Hv. split; [by apply Hl|by apply not_elem_of_nil].
Qed.

Lemma NormalizeGraphList_idem l : NormalizeGraphList (NormalizeGraphList l) = NormalizeGraphList l.
Proof.
  unfold NormalizeGraphList. set (m := dedupe [] (TrimSpace <$> l)).
  assert (Hp : sort_strings m ≡ₚ m) by apply sort_by_perm.
  rewrite (fmap_id_on TrimSpace).
  - rewrite dedupe_id; [by apply sort_strings_unique| |].
    + rewrite Hp. apply dedupe_NoDup.
    + intros v Hv. rewrite Hp in Hv. apply dedupe_elem in Hv as (_ & Hne & _).
      split; [done|by apply not_elem_of_nil].
  - intros v Hv. rewrite Hp in Hv. apply dedupe_elem in Hv as (Hin & _).
    apply list_elem_of_fmap in Hin as (w & -> & _). apply TrimSpace_idem.
Qed.

(** A stored state is in normal form: no paging, kinds of the vocabulary. *)
Record normal_state (st : SavedViewState) : Prop := {
  ns_filters : exists f kinds edgeKinds filters,
    NormalizeGraphFilters f = inl filters /\
    ViewFilters st = set_view_filters filters kinds edgeKinds;
  ns_kinds : normal_kinds savedViewNodeKinds (FilterKinds (ViewFilters st));
  ns_edge_kinds : normal_kinds savedViewEdgeKinds (EdgeKinds (ViewFilters st));
  ns_nodes : normal_kinds savedViewNodeKinds (VisibleNodeKinds st);
  ns_edges : normal_kinds savedViewEdgeKinds (VisibleEdgeKinds st);
}.

Lemma normalizeSavedViewState_normal st st' : normalizeSavedViewState st = inl st' -> normal_state st'.
Proof.
  unfold normalizeSavedViewState.
  destruct (NormalizeGraphFilters (ViewFilters st)) as [filters|err] eqn:Ef; [|done].
  rewrite !sum_bind_inl. intros (kinds & Hk & H).
  apply sum_bind_inl in H as (edgeKinds & He & H). apply sum_bind_inl in H as (nodes & Hn & H).
  apply sum_bind_inl in H as (edges & Hg & [= <-]).
  split; simpl; try (by eapply normal_kinds_result).
  by exists (ViewFilters st), kinds, edgeKinds, filters.
Qed.

(** The stream projection fills in its kinds only where none are given. *)
Definition explicit_stream (st : SavedViewState) : Prop :=
  Projection (ViewFilters st) = "stream" ->
  FilterKinds (ViewFilters st) <> [] /\ EdgeKinds (ViewFilters st) <> [].

Lemma default_kinds_explicit f :
  (Projection f = "stream" -> FilterKinds f <> []) -> default_kinds f = FilterKinds f.
Proof.
  unfold default_kinds. intros H. destruct (FilterKinds f); [|done].
  destruct (String.eqb_spec (Projection f) "stream") as [E|]; [|done]. by destruct (H E).
Qed.

Lemma default_edge_kinds_explicit f :
  (Projection f = "stream" -> EdgeKinds f <> []) -> default_edge_kinds f = EdgeKinds f.
Proof.
  unfold default_edge_kinds. intros H. destruct (EdgeKinds f); [|done].
  destruct (String.eqb_spec (Projection f) "stream") as [E|]; [|done]. by destruct (H E).
Qed.

Lemma clamp_limit_idem h l : clamp_limit h (clamp_limit h l) = clamp_limit h l.
Proof. unfold clamp_limit, GraphMaxLimit, graphDefaultLimit. destruct h; split_ifs; lia. Qed.

Lemma clamp_hops_idem h : clamp_hops (clamp_hops h) = clamp_hops h.
Proof. unfold clamp_hops, GraphMaxHops. split_ifs; lia. Qed.

Lemma vocabulary_fixed :
  (forall k, k ∈ savedViewNodeKinds -> mapGraphNodeKind k = k) /\
  (forall k, k ∈ savedViewEdgeKinds -> mapGraphEdgeKind k = k).
Proof.
  split; intros k Hk; unfold savedViewNodeKinds, savedViewEdgeKinds in Hk;
    repeat (apply elem_of_cons in Hk as [->|Hk]; [reflexivity|]); by apply elem_of_nil in Hk.
Qed.

(** Normalizing filters that were normalized, and stripped of their page. *)
Lemma NormalizeGraphFilters_again f filters kinds edgeKinds :
  NormalizeGraphFilters f = inl filters ->
  let f' := set_view_filters filters kinds edgeKinds in
  default_kinds f' = kinds -> default_edge_kinds f' = edgeKinds ->
  map_kinds mapGraphNodeKind kinds = kinds -> map_kinds mapGraphEdgeKind edgeKinds = edgeKinds ->
  exists size, NormalizeGraphFilters f' = inl {|
    Hierarchy := Hierarchy f'; RootBSSID := RootBSSID f'; RootNodeID := RootNodeID f';
    Projection := Projection f'; IncludeIdentity := IncludeIdentity f';
    LocationIDs := LocationIDs f'; SensorIDs := SensorIDs f'; FilterMAC := FilterMAC f';
    FilterSSID := FilterSSID f'; FilterKinds := kinds; EdgeKinds := edgeKinds;
    FilterThreatOnly := FilterThreatOnly f'; After := After f'; Before := Before f';
    Hops := Hops f'; Limit := Limit f'; Scope := Scope f'; PageCursor := ""; PageSize := size |}.
Proof.
  unfold NormalizeGraphFilters at 1.
  set (h := Hierarchy f || negb (is_empty (ToLower (TrimSpace (RootBSSID f)))) || negb (is_empty (TrimSpace (RootNodeID f)))).
  destruct (h && _); [done|].
  destruct (negb (is_empty (Projection f)) && _ && _) eqn:Ep; [done|].
  destruct (negb (is_empty (TrimSpace (Scope f))) && _) eqn:Es; [done|].
  destruct (is_empty (TrimSpace (Scope f)) && _); [done|].
  destruct (not_before (After f) (Before f)) eqn:En; [done|].
  intros H Hk He Hmk Hme. injection H as <-. unfold NormalizeGraphFilters. rewrite Hk, He. simpl.
  rewrite <-!ToLower_TrimSpace, !ToLower_idem, !TrimSpace_idem, !NormalizeGraphList_idem, Ep, Es, En.
  rewrite clamp_hops_idem, Hmk, Hme, !andb_false_r.
  assert (Eh : h || negb (is_empty (ToLower (TrimSpace (RootBSSID f)))) || negb (is_empty (TrimSpace (RootNodeID f))) = h).
  { unfold h. destruct (Hierarchy f), (is_empty (ToLower _)), (is_empty (TrimSpace _)); done. }
  rewrite Eh, clamp_limit_idem. eauto.
Qed.

(** The normal form of a state is stable. *)
Lemma normalizeSavedViewState_idem st st' :
  normalizeSavedViewState st = inl st' -> explicit_stream st' -> normalizeSavedViewState st' = inl st'.
Proof.
  intros H Hx. apply normalizeSavedViewState_normal in H as [(f & kinds & edgeKinds & filters & Hf & E) Hk He Hn Hg].
  destruct st' as [vf vn ve]. simpl in *. unfold explicit_stream in Hx. simpl in Hx. subst vf. simpl in *.
  destruct vocabulary_fixed as [Hvn Hve].
  destruct (NormalizeGraphFilters_again f filters kinds edgeKinds Hf) as [size Hs].
  - apply default_kinds_explicit. intros Hp. by destruct (Hx Hp).
  - apply default_edge_kinds_explicit. intros Hp. by destruct (Hx Hp).
  - by eapply map_kinds_normal.
  - by eapply map_kinds_normal.
  - unfold normalizeSavedViewState. simpl. rewrite Hs. simpl.
    rewrite (normal_kinds_again _ _ _ Hk). simpl. rewrite (normal_kinds_again _ _ _ He). simpl.
    rewrite (normal_kinds_again _ _ _ Hn). simpl. rewrite (normal_kinds_again _ _ _ Hg). simpl. done.
Qed.

(** ** The table *)

Lemma owner_count_insert t id r owner surf :
  t !! id = None ->
  owner_count (<[id := r]> t) owner surf = owner_count t owner surf + (if belongs owner surf r then 1 else 0).
Proof.
  intros Hn. unfold owner_count.
  assert (E : length (List.filter (fun c => belongs owner surf (snd c)) (map_to_list (<[id := r]> t)))
            = length (List.filter (fun c => belongs owner surf (snd c)) ((id, r) :: map_to_list t))).
  { assert (Hp : map_to_list (<[id := r]> t) ≡ₚ (id, r) :: map_to_list t) by by apply map_to_list_insert.
    induction Hp as [|c l l' _ IH|a b l|l l' l'' _ IH1 _ IH2]; simpl; [done| | |congruence].
    - case_match; simpl; congruence.
    - repeat case_match; done. }
  rewrite E. simpl. destruct (belongs owner surf r); simpl; lia.
Qed.

Lemma owner_count_delete t id r owner surf :
  t !! id = Some r ->
  owner_count t owner surf = owner_count (delete id t) owner surf + (if belongs owner surf r then 1 else 0).
Proof.
  intros Hr. rewrite <-owner_count_insert with (id := id) by apply lookup_delete_eq.
  by rewrite insert_delete_id.
Qed.

Lemma owner_count_update t id r r' owner surf :
  t !! id = Some r -> belongs owner surf r' = belongs owner surf r ->
  owner_count (<[id := r']> t) owner surf = owner_count t owner surf.
Proof.
  intros Hr Hb. rewrite (owner_count_delete t id r) by done.
  rewrite (owner_count_delete (<[id := r']> t) id r') by apply lookup_insert_eq.
  rewrite Hb. by rewrite delete_insert_eq.
Qed.

Lemma name_taken_spec t owner surf nm exclude :
  name_taken t owner surf nm exclude = true <->
  exists id r, t !! id = Some r /\ belongs owner surf r = true /\
    ToLower (name r) = ToLower nm /\ exclude <> Some id.
Proof.
  unfold name_taken. rewrite existsb_exists. split.
  - intros ([id r] & Hin & H). rewrite !andb_true_iff, String.eqb_eq in H. destruct H as [[Hb Hn] He].
    apply list_elem_of_In, elem_of_map_to_list in Hin. exists id, r. split_and!; try done.
    intros ->. by rewrite String.eqb_refl in He.
  - intros (id & r & Hr & Hb & Hn & He). exists (id, r).
    rewrite <-list_elem_of_In, elem_of_map_to_list. split; [done|]. simpl.
    rewrite Hb, (proj2 (String.eqb_eq _ _) Hn). simpl. destruct exclude as [e|]; [|done].
    apply negb_true_iff, String.eqb_neq. congruence.
Qed.

Lemma belongs_true owner surf r :
  belongs owner surf r = true <-> owner_subject r = owner /\ surface r = surf.
Proof. unfold belongs. by rewrite andb_true_iff, !String.eqb_eq. Qed.

Lemma owned_Some t owner id r : owned t owner id = Some r <-> t !! id = Some r /\ owner_subject r = owner.
Proof.
  unfold owned. destruct (t !! id) as [q|]; [|naive_solver].
  destruct (String.eqb_spec (owner_subject q) owner); naive_solver.
Qed.

Section table.
Context {Env : ViewEnv}.

Lemma scanSavedView_fields id r v :
  scanSavedView id r = inl v ->
  unmarshal_state (state r) = inl (State v) /\ ViewID v = id /\ ViewName v = name r /\
  Surface v = surface r /\ ViewVersion v = view_version r /\ Revision v = revision r.
Proof. unfold scanSavedView. destruct (unmarshal_state (state r)); [|done]. by intros [= <-]. Qed.

Lemma normalizeSavedViewName_again nm nm' :
  normalizeSavedViewName nm = inl nm' -> normalizeSavedViewName nm' = inl nm'.
Proof.
  unfold normalizeSavedViewName. destruct (_ || _) eqn:E; [done|]. intros [= <-].
  by rewrite TrimSpace_idem, E.
Qed.

(** What a successful create wrote. *)
Lemma CreateSavedView_inv now uuid t1 t2 t owner input t' v :
  CreateSavedView now uuid t1 t2 t owner input = inl (t', v) ->
  exists nm st, requireSavedViewOwner owner = None /\
    normalizeSavedViewName (CreateName input) = inl nm /\
    normalizeSavedViewState (CreateState input) = inl st /\
    check_limit t1 owner = None /\ check_name t2 owner nm = None /\
    insert_view now uuid t owner nm (marshal_state st) = inl (t', v).
Proof.
  unfold CreateSavedView, create_request. destruct (requireSavedViewOwner owner); [done|].
  destruct (normalizeSavedViewName (CreateName input)) as [nm|] eqn:En; [|done]. simpl.
  destruct (normalizeSavedViewState (CreateState input)) as [st|] eqn:Es; [|done]. simpl.
  destruct (check_limit t1 owner) eqn:El; [done|]. destruct (check_name t2 owner nm) eqn:Ec; [done|].
  intros H. by exists nm, st.
Qed.

Definition new_row (now : time) (owner nm payload : string) : view_row := {|
  owner_subject := owner; surface := SavedViewSurfaceGraphProjection; name := nm;
  view_version := SavedViewVersion; revision := 1; state := payload;
  created_at := now; updated_at := now |}.

Lemma insert_view_inv now uuid t owner nm payload t' v :
  insert_view now uuid t owner nm payload = inl (t', v) ->
  t !! uuid = None /\ t' = <[uuid := new_row now owner nm payload]> t /\
  scanSavedView uuid (new_row now owner nm payload) = inl v.
Proof.
  unfold insert_view. destruct (_ || _) eqn:E; [done|]. apply orb_false_iff in E as [E _].
  apply bool_decide_eq_false in E. rewrite sum_bind_inl. intros (w & Hw & [= <- <-]).
  split; [by apply eq_None_not_Some|]. done.
Qed.

Lemma savedViewIDPattern_nonempty id : savedViewIDPattern id = true -> is_empty (ToLower id) = false.
Proof. by destruct id. Qed.

(** What a successful update wrote. *)
Lemma UpdateSavedView_inv now seen t owner id input t' v :
  UpdateSavedView now seen t owner id input = inl (t', v) ->
  let id' := ToLower (TrimSpace id) in
  exists nm st r, requireSavedViewOwner owner = None /\ 1 <= ExpectedRevision input /\
    normalizeSavedViewName (UpdateName input) = inl nm /\
    normalizeSavedViewState (UpdateState input) = inl st /\
    t !! id' = Some r /\ owner_subject r = owner /\ revision r = ExpectedRevision input /\
    (ToLower (name r) = ToLower nm \/
     name_taken seen owner SavedViewSurfaceGraphProjection nm (Some id') = false) /\
    t' = <[id' := updated_view_row now nm (marshal_state st) r]> t /\
    scanSavedView id' (updated_view_row now nm (marshal_state st) r) = inl v.
Proof.
  unfold UpdateSavedView, update_request. destruct (requireSavedViewOwner owner); [done|].
  destruct (savedViewIDPattern (TrimSpace id)) eqn:Eid; [|done].
  apply savedViewIDPattern_nonempty in Eid. simpl.
  destruct (normalizeSavedViewName (UpdateName input)) as [nm|] eqn:En; [|done]. simpl.
  destruct (ExpectedRevision input <? 1) eqn:Er; [done|].
  destruct (normalizeSavedViewState (UpdateState input)) as [st|] eqn:Es; [|done]. simpl.
  destruct (owned t owner (ToLower (TrimSpace id))) as [r|] eqn:Eo; [|done].
  apply owned_Some in Eo as [Hr Ho].
  destruct (revision r =? ExpectedRevision input) eqn:Ev; [|done]. simpl.
  destruct (if EqualFold (name r) nm then None else _) eqn:Ef; [done|].
  destruct (unique_name_index && _); [done|]. rewrite sum_bind_inl. intros (w & Hw & [= <- <-]).
  reflect_Z. exists nm, st, r. split_and!; try done.
  destruct (EqualFold (name r) nm) eqn:Ee; [left; by apply EqualFold_spec|right].
  unfold requireSavedViewNameFree in Ef. rewrite Eid in Ef. by destruct (name_taken _ _ _ _ _).
Qed.

Lemma DeleteSavedView_inv t owner id t' :
  DeleteSavedView t owner id = inl t' ->
  exists r, t !! ToLower (TrimSpace id) = Some r /\ owner_subject r = owner /\
    t' = delete (ToLower (TrimSpace id)) t.
Proof.
  unfold DeleteSavedView. destruct (requireSavedViewOwner owner); [done|].
  destruct (negb _); [done|]. destruct (owned _ _ _) as [r|] eqn:Eo; [|done].
  apply owned_Some in Eo as [Hr Ho]. intros [= <-]. by exists r.
Qed.

(** ** The invariant of the table *)

Record row_ok (r : view_row) : Prop := {
  ok_owner : requireSavedViewOwner (owner_subject r) = None;
  ok_surface : surface r = SavedViewSurfaceGraphProjection /\ view_version r = SavedViewVersion;
  ok_name : normalizeSavedViewName (name r) = inl (name r);
  ok_revision : 1 <= revision r;
  ok_state : exists st, normal_state st /\ state r = marshal_state st;
}.

Definition names_unique (t : view_table) : Prop :=
  forall id1 id2 r1 r2, t !! id1 = Some r1 -> t !! id2 = Some r2 ->
    owner_subject r1 = owner_subject r2 -> ToLower (name r1) = ToLower (name r2) -> id1 = id2.

Record table_ok (t : view_table) : Prop := {
  ok_rows : map_Forall (fun _ => row_ok) t;
  ok_names : names_unique t;
  ok_limit : forall owner, owner_count t owner SavedViewSurfaceGraphProjection <= SavedViewMaxPerUser;
}.

Lemma new_row_ok now owner nm nm' st st' :
  requireSavedViewOwner owner = None -> normalizeSavedViewName nm' = inl nm ->
  normalizeSavedViewState st' = inl st -> row_ok (new_row now owner nm (marshal_state st)).
Proof.
  intros Ho Hn Hs. split; simpl; try done; [by eapply normalizeSavedViewName_again|].
  exists st. split; [by eapply normalizeSavedViewState_normal|done].
Qed.

Lemma names_unique_insert t id r :
  names_unique t -> (forall id' r', t !! id' = Some r' -> id' <> id ->
    owner_subject r' = owner_subject r -> ToLower (name r') <> ToLower (name r)) ->
  names_unique (<[id := r]> t).
Proof.
  intros Hu Hf id1 id2 r1 r2 H1 H2 Ho Hn.
  apply lookup_insert_Some in H1 as [[<- <-]|[Hn1 H1]]; apply lookup_insert_Some in H2 as [[<- <-]|[Hn2 H2]].
  - done.
  - by destruct (Hf id2 r2).
  - by destruct (Hf id1 r1).
  - by eapply Hu.
Qed.

Lemma name_free t owner nm exclude id r :
  map_Forall (fun _ => row_ok) t ->
  name_taken t owner SavedViewSurfaceGraphProjection nm exclude = false ->
  t !! id = Some r -> owner_subject r = owner -> exclude <> Some id -> ToLower (name r) <> ToLower nm.
Proof.
  intros Hok Hf Hr Ho He Hn. apply not_true_iff_false in Hf. apply Hf, name_taken_spec.
  exists id, r. split_and!; try done. apply belongs_true. split; [done|]. by apply (Hok id r).
Qed.

Lemma create_ok now uuid t owner input t' v :
  table_ok t -> CreateSavedView now uuid t t t owner input = inl (t', v) -> table_ok t'.
Proof.
  intros [Hr Hu Hl] H. apply CreateSavedView_inv in H as (nm & st & Ho & Hn & Hs & Hc & Hf & Hi).
  apply insert_view_inv in Hi as (Hid & -> & _). unfold check_name, requireSavedViewNameFree in Hf.
  simpl in Hf. destruct (name_taken t owner _ nm None) eqn:Ef; [done|]. split.
  - apply map_Forall_insert; [done|]. split; [by eapply new_row_ok|done].
  - apply names_unique_insert; [done|]. intros id' r' Hr' _ Ho'. by eapply name_free.
  - intros owner'. rewrite owner_count_insert by done. unfold check_limit in Hc.
    destruct (SavedViewMaxPerUser <=? _) eqn:Ec; [done|]. reflect_Z. specialize (Hl owner').
    destruct (belongs owner' _ _) eqn:Eb; [|lia].
    apply belongs_true in Eb as [<- _]. simpl. lia.
Qed.

Lemma update_ok now t owner id input t' v :
  table_ok t -> UpdateSavedView now t t owner id input = inl (t', v) -> table_ok t'.
Proof.
  intros [Hr Hu Hl] H.
  apply UpdateSavedView_inv in H as (nm & st & r & Ho & Hrev & Hn & Hs & Hrow & Hro & Hx & Hname & -> & _).
  set (id' := ToLower (TrimSpace id)) in *. pose proof (Hr _ _ Hrow) as [Hok1 Hok2 Hok3 Hok4 Hok5]. split.
  - apply map_Forall_insert_2; [|done]. split; simpl; try done; [by eapply normalizeSavedViewName_again|lia|].
    exists st. split; [by eapply normalizeSavedViewState_normal|done].
  - apply names_unique_insert; [done|]. intros id2 r2 Hr2 Hne Ho2. simpl in *.
    destruct Hname as [E|Hfree]; [|eapply name_free; try done; congruence].
    rewrite <-E. intros E2. apply Hne. by apply (Hu id2 id' r2 r).
  - intros owner'. rewrite (owner_count_update t id' r); [apply Hl|done|done].
Qed.

Lemma delete_ok t owner id t' : table_ok t -> DeleteSavedView t owner id = inl t' -> table_ok t'.
Proof.
  intros [Hr Hu Hl] H. apply DeleteSavedView_inv in H as (r & Hrow & _ & ->). split.
  - by apply map_Forall_delete.
  - intros id1 id2 r1 r2 H1 H2. apply lookup_delete_Some in H1 as [_ H1].
    apply lookup_delete_Some in H2 as [_ H2]. by apply (Hu id1 id2 r1 r2).
  - intros owner'. specialize (Hl owner'). rewrite (owner_count_delete t _ r) in Hl by done.
    destruct (belongs _ _ _); lia.
Qed.

Inductive view_step : view_table -> view_table -> Prop :=
| vs_create now uuid t owner input t' v :
    CreateSavedView now uuid t t t owner input = inl (t', v) -> view_step t t'
| vs_update now t owner id input t' v :
    UpdateSavedView now t t owner id input = inl (t', v) -> view_step t t'
| vs_delete t owner id t' : DeleteSavedView t owner id = inl t' -> view_step t t'.

Lemma saved_views_ok_empty : table_ok ∅.
Proof.
  split; [by apply map_Forall_empty|by intros id1 id2 r1 r2 ?%lookup_empty_Some|].
  intros owner. unfold owner_count. rewrite map_to_list_empty. unfold SavedViewMaxPerUser. simpl. lia.
Qed.

(** The table invariant.  However operations follow each other, every
    stored view belongs to a signed-in owner, has a trimmed name of 1 to 80
    characters, a positive revision and a state in normal form; an owner's names
    differ even ignoring case, and no owner has more than 20 views.  This does
    not rely on any constraint of the table. *)
Theorem saved_views_invariant t : steps view_step ∅ t -> table_ok t.
Proof.
  apply steps_invariant.
  - intros a b Ha Hs. destruct Hs as [now uuid t' owner input t'' v H|now t' owner id input t'' v H|t' owner id t'' H].
    + by eapply create_ok.
    + by eapply update_ok.
    + by eapply delete_ok.
  - apply saved_views_ok_empty.
Qed.

(** ** Isolation *)

Lemma scan_all_ids rows views :
  scan_all rows = inl views -> ViewID <$> views = fst <$> rows.
Proof.
  revert views. induction rows as [|[id r] rows IH]; intros views; simpl; [by intros [= <-]|].
  rewrite sum_bind_inl. intros (v & Hv & H). apply sum_bind_inl in H as (vs & Hvs & [= <-]).
  apply scanSavedView_fields in Hv as (_ & Hid & _).
  rewrite !fmap_cons, Hid. by rewrite (IH vs Hvs).
Qed.

(** The ids [owner] is shown. *)
Lemma ListSavedViews_ids t owner surf views :
  ListSavedViews t owner surf = inl views ->
  exists surf', normalizeSavedViewSurface surf = inl surf' /\
    forall id, id ∈ ViewID <$> views <-> exists r, t !! id = Some r /\ belongs owner surf' r = true.
Proof.
  unfold ListSavedViews. destruct (requireSavedViewOwner owner); [done|]. rewrite sum_bind_inl.
  intros (surf' & Hs & H). apply scan_all_ids in H. exists surf'. split; [done|]. intros id.
  rewrite H, list_elem_of_fmap. split.
  - intros ([k r] & -> & Hin). apply sort_by_elem, list_elem_of_In, filter_In in Hin as [Hin Hb].
    apply list_elem_of_In, elem_of_map_to_list in Hin. by exists r.
  - intros (r & Hr & Hb). exists (id, r). split; [done|].
    apply sort_by_elem, list_elem_of_In, filter_In. split; [|done].
    by apply list_elem_of_In, elem_of_map_to_list.
Qed.

Lemma update_request_id owner id input k nm p :
  update_request owner id input = inl (k, nm, p) -> k = ToLower (TrimSpace id).
Proof.
  unfold update_request. destruct (requireSavedViewOwner owner); [done|]. destruct (negb _); [done|].
  rewrite sum_bind_inl. intros (? & _ & E). destruct (_ <? 1); [done|].
  by apply sum_bind_inl in E as (? & _ & [= <- _ _]).
Qed.

(** What an operation of [owner] can do to the table. *)
Inductive owner_op (owner : string) (t t' : view_table) : Prop :=
| op_create now uuid t1 t2 input v : CreateSavedView now uuid t1 t2 t owner input = inl (t', v) -> owner_op owner t t'
| op_update now seen id input v : UpdateSavedView now seen t owner id input = inl (t', v) -> owner_op owner t t'
| op_delete id : DeleteSavedView t owner id = inl t' -> owner_op owner t t'.

(** C29. Ownership.  Whatever a caller sends and whatever runs beside it: its
    operations leave the views of every other owner as they are, a listing
    shows exactly the caller's views, and a well-formed update or delete of a
    foreign view is answered like one of a view that does not exist. *)
Theorem saved_views_isolated t owner :
  (forall t' id r, owner_op owner t t' -> t !! id = Some r -> owner_subject r <> owner -> t' !! id = Some r) /\
  (forall surf views, ListSavedViews t owner surf = inl views -> forall id,
     id ∈ ViewID <$> views <-> exists r, t !! id = Some r /\ owner_subject r = owner /\
                                  normalizeSavedViewSurface surf = inl (surface r)) /\
  (forall id r, t !! ToLower (TrimSpace id) = Some r -> owner_subject r <> owner ->
     let absent := delete (ToLower (TrimSpace id)) t in
     DeleteSavedView t owner id = DeleteSavedView absent owner id /\
     (forall t', DeleteSavedView t owner id <> inl t') /\
     forall now seen input,
       UpdateSavedView now seen t owner id input = UpdateSavedView now seen absent owner id input /\
       forall res, UpdateSavedView now seen t owner id input <> inl res).
Proof.
  split_and!.
  - intros t' id r Hop Hr Hne. destruct Hop as [now uuid t1 t2 input v H|now seen k input v H|k H].
    + apply CreateSavedView_inv in H as (nm & st & _ & _ & _ & _ & _ & Hi).
      apply insert_view_inv in Hi as (Hn & -> & _). rewrite lookup_insert_ne; [done|]. by intros ->; simplify_eq.
    + apply UpdateSavedView_inv in H as (nm & st & q & _ & _ & _ & _ & Hq & Ho & _ & _ & -> & _).
      rewrite lookup_insert_ne; [done|]. by intros E; subst; simplify_eq.
    + apply DeleteSavedView_inv in H as (q & Hq & Ho & ->). rewrite lookup_delete_ne; [done|].
      by intros E; subst; simplify_eq.
  - intros surf views H id. apply ListSavedViews_ids in H as (surf' & Hs & H). rewrite H.
    setoid_rewrite belongs_true. split; intros (r & Hr & Ho & Hsr); exists r; split_and!; congruence.
  - intros id r Hr Hne absent.
    assert (E1 : owned t owner (ToLower (TrimSpace id)) = None).
    { unfold owned. rewrite Hr. by destruct (String.eqb_spec (owner_subject r) owner). }
    assert (E2 : owned absent owner (ToLower (TrimSpace id)) = None) by (unfold owned, absent; by rewrite lookup_delete_eq).
    split_and!.
    + unfold DeleteSavedView. by rewrite E1, E2.
    + intros t' H. apply DeleteSavedView_inv in H as (q & Hq & Ho & _). congruence.
    + intros now seen input. split.
      * unfold UpdateSavedView. destruct (update_request owner id input) as [[[k nm] p]|] eqn:E; [|done].
        assert (k = ToLower (TrimSpace id)) as ->; [|by rewrite E1, E2].
        by apply update_request_id in E.
      * intros [t' v] H. apply UpdateSavedView_inv in H as (? & ? & q & _ & _ & _ & _ & Hq & Ho & _). congruence.
Qed.

(** ** Revisions *)

(** Nobody issues the id of a deleted view again. *)
Definition fresh_step (id : string) (t t' : view_table) : Prop :=
  view_step t t' /\ (t !! id = None -> t' !! id = None).

Definition beyond (id : string) (n : Z) (t : view_table) : Prop :=
  forall r, t !! id = Some r -> n < revision r.

Lemma beyond_step id n t t' : beyond id n t -> fresh_step id t t' -> beyond id n t'.
Proof.
  intros Hb [Hs Hf] r Hr.
  destruct Hs as [now uuid t owner input t' v H|now t owner k input t' v H|t owner k t' H].
  - apply CreateSavedView_inv in H as (nm & st & _ & _ & _ & _ & _ & Hi).
    apply insert_view_inv in Hi as (Hn & -> & _).
    destruct (decide (uuid = id)) as [->|]; [specialize (Hf Hn); congruence|].
    rewrite lookup_insert_ne in Hr by done. by apply Hb.
  - apply UpdateSavedView_inv in H as (nm & st & q & _ & _ & _ & _ & Hq & _ & _ & _ & -> & _).
    apply lookup_insert_Some in Hr as [[<- <-]|[_ Hr]]; [|by apply Hb]. simpl. specialize (Hb q Hq). lia.
  - apply DeleteSavedView_inv in H as (q & _ & _ & ->). apply lookup_delete_Some in Hr as [_ Hr]. by apply Hb.
Qed.

(** No lost update.  An update that succeeds changed the revision it was
    made against to the next one; any later update made against the same
    revision is rejected, whatever happened in between. *)
Theorem saved_view_no_lost_update now t owner id input t' v :
  UpdateSavedView now t t owner id input = inl (t', v) ->
  (exists r, t !! ViewID v = Some r /\ owner_subject r = owner /\ revision r = ExpectedRevision input) /\
  Revision v = ExpectedRevision input + 1 /\
  (forall r', t' !! ViewID v = Some r' -> revision r' = Revision v) /\
  forall t'' now' seen input' res,
    steps (fresh_step (ViewID v)) t' t'' -> ExpectedRevision input' = ExpectedRevision input ->
    UpdateSavedView now' seen t'' owner id input' <> inl res.
Proof.
  intros H. apply UpdateSavedView_inv in H as (nm & st & r & _ & _ & _ & _ & Hr & Ho & Hrev & _ & -> & Hv).
  apply scanSavedView_fields in Hv as (_ & Hid & _ & _ & _ & Hre). simpl in Hre. rewrite Hid, Hre.
  set (k := ToLower (TrimSpace id)) in *. split_and!; [by exists r|lia| |].
  - intros r' H'. rewrite lookup_insert_eq in H'. by injection H' as <-.
  - intros t'' now' seen input' [t3 v3] Hs He H3.
    apply UpdateSavedView_inv in H3 as (? & ? & q & _ & _ & _ & _ & Hq & _ & Hqr & _).
    assert (Hb : beyond k (ExpectedRevision input) t'').
    { eapply steps_invariant; [|shelve|exact Hs]. intros a b. apply beyond_step.
      Unshelve. intros q' Hq'. rewrite lookup_insert_eq in Hq'. injection Hq' as <-. simpl. lia. }
    specialize (Hb q Hq). lia.
Qed.

(** ** Saving back what was read *)

Lemma scan_all_total (rows : list (string * view_row)) :
  (forall s, unmarshal_state (marshal_state s) = inl s) ->
  (forall c, c ∈ rows -> row_ok (snd c)) -> exists views, scan_all rows = inl views.
Proof.
  intros Hlaw. induction rows as [|[id r] rows IH]; intros Hok; [by eexists|].
  destruct IH as [views Hv]; [intros c Hc; apply Hok; by right|].
  destruct (ok_state r (Hok (id, r) (list_elem_of_here _ _))) as (st & _ & Hst).
  simpl. unfold scanSavedView. rewrite Hst, Hlaw, Hv. simpl. eauto.
Qed.

Lemma update_accepts now t owner id nm st r rev :
  table_ok t -> (forall s, unmarshal_state (marshal_state s) = inl s) ->
  savedViewIDPattern id = true -> TrimSpace id = id -> ToLower id = id ->
  requireSavedViewOwner owner = None -> t !! id = Some r -> owner_subject r = owner -> revision r = rev ->
  normalizeSavedViewName nm = inl nm -> ToLower (name r) = ToLower nm ->
  normalizeSavedViewState st = inl st ->
  exists t' v, UpdateSavedView now t t owner id
      {| UpdateName := nm; UpdateState := st; ExpectedRevision := rev |} = inl (t', v) /\
    ViewName v = nm /\ State v = st /\ Revision v = rev + 1.
Proof.
  intros [Hok Hu _] Hlaw Hid Htr Hlo Ho Hr Hro Hrev Hn Hname Hs.
  pose proof (ok_revision _ (Hok _ _ Hr)) as Hpos.
  unfold UpdateSavedView, update_request. rewrite Ho, Htr, Hid. simpl. rewrite Hn. simpl.
  rewrite (proj2 (Z.ltb_ge rev 1)) by lia. rewrite Hs. simpl. rewrite Hlo.
  rewrite (proj2 (owned_Some t owner id r)) by done. rewrite (proj2 (Z.eqb_eq _ _) Hrev). simpl.
  rewrite (proj2 (EqualFold_spec _ _) Hname).
  assert (Ht : name_taken t owner (surface r) nm (Some id) = false).
  { apply not_true_iff_false. rewrite name_taken_spec. intros (k & q & Hq & Hb & Hnq & Hne).
    apply belongs_true in Hb as [Hqo _]. apply Hne. f_equal.
    apply (Hu id k r q); congruence. }
  rewrite Ht, andb_false_r. unfold scanSavedView. simpl. rewrite Hlaw. simpl.
  do 2 eexists. split; [done|]. simpl. split_and!; [done|done|lia].
Qed.

(** Save, list, save back.  A created view carries the normal form of the
    state it was given, shows up in the owner's list, and saving back exactly
    what was read is accepted and changes the revision alone. *)
Theorem saved_view_roundtrip now now' uuid t owner input t' v :
  table_ok t -> (forall s, unmarshal_state (marshal_state s) = inl s) ->
  savedViewIDPattern uuid = true -> TrimSpace uuid = uuid -> ToLower uuid = uuid ->
  CreateSavedView now uuid t t t owner input = inl (t', v) ->
  explicit_stream (State v) ->
  normalizeSavedViewState (CreateState input) = inl (State v) /\
  normalizeSavedViewName (CreateName input) = inl (ViewName v) /\
  (exists views, ListSavedViews t' owner "" = inl views /\ ViewID v ∈ ViewID <$> views) /\
  exists t'' v', UpdateSavedView now' t' t' owner (ViewID v)
      {| UpdateName := ViewName v; UpdateState := State v; ExpectedRevision := Revision v |} = inl (t'', v') /\
    ViewName v' = ViewName v /\ State v' = State v /\ Revision v' = Revision v + 1.
Proof.
  intros Hok Hlaw Hid Htr Hlo H Hx. pose proof (create_ok _ _ _ _ _ _ _ Hok H) as Hok'.
  apply CreateSavedView_inv in H as (nm & st & Ho & Hn & Hs & _ & _ & Hi).
  apply insert_view_inv in Hi as (_ & -> & Hv).
  pose proof (scanSavedView_fields _ _ _ Hv) as (Hst & Hvid & Hvn & _ & _ & Hrev).
  simpl in *. rewrite Hlaw in Hst. injection Hst as ->. rewrite Hvid, Hvn, Hrev.
  split_and!; try done.
  - destruct (scan_all_total (sort_by view_order
      (List.filter (fun c => belongs owner SavedViewSurfaceGraphProjection (snd c))
        (map_to_list (<[uuid := new_row now owner nm (marshal_state (State v))]> t))))) as [views Hvs]; [done| |].
    { intros [k r] Hin. apply sort_by_elem, list_elem_of_In, filter_In in Hin as [Hin _].
      apply list_elem_of_In, elem_of_map_to_list in Hin. by apply (ok_rows _ Hok' k r). }
    assert (Hl : ListSavedViews (<[uuid := new_row now owner nm (marshal_state (State v))]> t) owner ""
                 = inl views) by (unfold ListSavedViews; rewrite Ho; exact Hvs).
    exists views. split; [done|]. apply ListSavedViews_ids in Hl as (surf & [= <-] & ->).
    exists (new_row now owner nm (marshal_state (State v))). split; [apply lookup_insert_eq|].
    by apply belongs_true.
  - apply (update_accepts now' _ owner uuid nm (State v) (new_row now owner nm (marshal_state (State v))) 1);
      try done.
    + apply lookup_insert_eq.
    + by eapply normalizeSavedViewName_again.
    + by eapply normalizeSavedViewState_idem.
Qed.

(** The stream projection.  A view on the stream projection that leaves its
    kinds or its edge kinds to the default can never be saved: the defaults are
    outside the vocabulary of saved views. *)
Theorem stream_defaults_rejected now uuid t1 t2 t owner input res :
  Projection (ViewFilters (CreateState input)) = "stream" ->
  FilterKinds (ViewFilters (CreateState input)) = [] \/ EdgeKinds (ViewFilters (CreateState input)) = [] ->
  CreateSavedView now uuid t1 t2 t owner input <> inl res.
Proof.
  intros Hp He H. destruct res as [t' v]. apply CreateSavedView_inv in H as (nm & st & _ & _ & Hs & _).
  unfold normalizeSavedViewState in Hs.
  destruct (NormalizeGraphFilters (ViewFilters (CreateState input))) as [filters|] eqn:Ef; [|done].
  apply sum_bind_inl in Hs as (kinds & Hk & Hs). apply sum_bind_inl in Hs as (edges & Hg & _).
  apply kinds_loop_spec in Hk as [Hk _]. apply kinds_loop_spec in Hg as [Hg _].
  set (f := ViewFilters (CreateState input)) in *.
  assert (Ek : FilterKinds filters = map_kinds mapGraphNodeKind (default_kinds f) /\
               EdgeKinds filters = map_kinds mapGraphEdgeKind (default_edge_kinds f)).
  { unfold NormalizeGraphFilters in Ef. repeat (case_match; [done|]). by injection Ef as <-. }
  destruct Ek as [Ek Ee]. destruct He as [He|He].
  - assert (Hin : "location" ∈ FilterKinds filters).
    { rewrite Ek. unfold default_kinds. rewrite He, Hp. destruct (IncludeIdentity f); vm_compute; repeat constructor. }
    specialize (Hk _ Hin). vm_compute in Hk.
    assert (Hc := Hk ltac:(discriminate)).
    repeat (apply elem_of_cons in Hc as [?|Hc]; [done|]). by apply elem_of_nil in Hc.
  - assert (Hin : "containment" ∈ EdgeKinds filters).
    { rewrite Ee. unfold default_edge_kinds. rewrite He, Hp. destruct (IncludeIdentity f); vm_compute; repeat constructor. }
    specialize (Hg _ Hin). vm_compute in Hg.
    assert (Hc := Hg ltac:(discriminate)).
    repeat (apply elem_of_cons in Hc as [?|Hc]; [done|]). by apply elem_of_nil in Hc.
Qed.

(** ** Concurrent creates *)

(** How far a create transaction is, with the tables its statements saw; it
    holds the advisory lock of its owner all along. *)
Inductive create_phase := LockHeld | Counted (t1 : view_table) | NameChecked (t1 t2 : view_table).

Record views_state := {
  table : view_table;
  creating : gmap string (SavedViewCreate * create_phase);
}.

Definition set_table (s : views_state) (t : view_table) : views_state :=
  {| table := t; creating := creating s |}.
Definition set_creating (s : views_state) (m : gmap string (SavedViewCreate * create_phase)) : views_state :=
  {| table := table s; creating := m |}.

Inductive views_step : views_state -> views_state -> Prop :=
| cs_lock s owner input :
    creating s !! owner = None ->
    views_step s (set_creating s (<[owner := (input, LockHeld)]> (creating s)))
| cs_count s owner input :
    creating s !! owner = Some (input, LockHeld) ->
    views_step s (set_creating s (<[owner := (input, Counted (table s))]> (creating s)))
| cs_name s owner input t1 :
    creating s !! owner = Some (input, Counted t1) ->
    views_step s (set_creating s (<[owner := (input, NameChecked t1 (table s))]> (creating s)))
| cs_commit s now uuid owner input t1 t2 t' v :
    creating s !! owner = Some (input, NameChecked t1 t2) ->
    CreateSavedView now uuid t1 t2 (table s) owner input = inl (t', v) ->
    views_step s (set_creating (set_table s t') (delete owner (creating s)))
| cs_abort s owner : views_step s (set_creating s (delete owner (creating s)))
| cs_update s now seen owner id input t' v :
    UpdateSavedView now seen (table s) owner id input = inl (t', v) -> views_step s (set_table s t')
| cs_delete s owner id t' :
    DeleteSavedView (table s) owner id = inl t' -> views_step s (set_table s t').

Definition counted (ph : create_phase) : option view_table :=
  match ph with LockHeld => None | Counted t1 | NameChecked t1 _ => Some t1 end.

(** No owner is over the limit, and while a create holds the lock its owner's
    count does not rise above what it counted. *)
Record capped (s : views_state) : Prop := {
  cap_limit : forall owner,
    owner_count (table s) owner SavedViewSurfaceGraphProjection <= SavedViewMaxPerUser;
  cap_counted : forall owner input ph t1, creating s !! owner = Some (input, ph) -> counted ph = Some t1 ->
    owner_count (table s) owner SavedViewSurfaceGraphProjection
    <= owner_count t1 owner SavedViewSurfaceGraphProjection;
}.

(** A change that adds no view keeps the cap. *)
Lemma capped_shrink s t' :
  capped s -> (forall owner surf, owner_count t' owner surf <= owner_count (table s) owner surf) ->
  capped (set_table s t').
Proof.
  intros [Hl Hc] Hle. split; simpl.
  - intros owner. specialize (Hl owner). specialize (Hle owner SavedViewSurfaceGraphProjection). lia.
  - intros owner input ph t1 Ho Hp. specialize (Hc owner input ph t1 Ho Hp).
    specialize (Hle owner SavedViewSurfaceGraphProjection). lia.
Qed.

Lemma capped_creating s owner input ph :
  capped s -> (forall t1, counted ph = Some t1 ->
    owner_count (table s) owner SavedViewSurfaceGraphProjection
    <= owner_count t1 owner SavedViewSurfaceGraphProjection) ->
  capped (set_creating s (<[owner := (input, ph)]> (creating s))).
Proof.
  intros [Hl Hc] Hp. split; simpl; [done|]. intros owner' input' ph' t1 Ho Hq.
  apply lookup_insert_Some in Ho as [[<- [= <- <-]]|[_ Ho]]; [by apply Hp|by eapply Hc].
Qed.

Lemma capped_delete s owner : capped s -> capped (set_creating s (delete owner (creating s))).
Proof.
  intros [Hl Hc]. split; simpl; [done|]. intros owner' input' ph' t1 Ho Hq.
  apply lookup_delete_Some in Ho as [_ Ho]. by eapply Hc.
Qed.

Lemma create_count now uuid t1 t2 t owner input t' v owner' :
  CreateSavedView now uuid t1 t2 t owner input = inl (t', v) ->
  owner_count t1 owner SavedViewSurfaceGraphProjection < SavedViewMaxPerUser /\
  owner_count t' owner' SavedViewSurfaceGraphProjection
  = owner_count t owner' SavedViewSurfaceGraphProjection + (if decide (owner' = owner) then 1 else 0).
Proof.
  intros H. apply CreateSavedView_inv in H as (nm & st & _ & _ & _ & Hc & _ & Hi).
  apply insert_view_inv in Hi as (Hn & -> & _). unfold check_limit in Hc.
  destruct (SavedViewMaxPerUser <=? _) eqn:E; [done|]. reflect_Z. split; [done|].
  rewrite owner_count_insert by done. f_equal. unfold belongs. simpl. rewrite andb_true_r.
  case_decide as D; destruct (String.eqb_spec owner owner'); congruence.
Qed.

Lemma views_step_capped s s' : capped s -> views_step s s' -> capped s'.
Proof.
  intros Hs H. destruct H as [s owner input Hn|s owner input Ho|s owner input t1 Ho
    |s now uuid owner input t1 t2 t' v Ho H|s owner|s now seen owner id input t' v H|s owner id t' H].
  - by apply capped_creating.
  - apply capped_creating; [done|]. intros t1 [= <-]. lia.
  - apply capped_creating; [done|]. intros t1' [= <-]. by apply (cap_counted _ Hs owner input (Counted t1)).
  - pose proof (cap_counted _ Hs owner input _ t1 Ho eq_refl) as Hle. destruct Hs as [Hl Hc]. split; simpl.
    + intros owner'. destruct (create_count _ _ _ _ _ _ _ _ _ owner' H) as [Hlt ->]. specialize (Hl owner').
      case_decide; subst; lia.
    + intros owner' input' ph t1' Ho' Hp. apply lookup_delete_Some in Ho' as [Hne Ho'].
      destruct (create_count _ _ _ _ _ _ _ _ _ owner' H) as [_ ->]. rewrite decide_False by done.
      specialize (Hc owner' input' ph t1' Ho' Hp). lia.
  - by apply capped_delete.
  - apply UpdateSavedView_inv in H as (nm & st & q & _ & _ & _ & _ & Hq & _ & _ & _ & -> & _).
    apply capped_shrink; [done|]. intros owner' surf. by rewrite (owner_count_update _ _ q).
  - apply DeleteSavedView_inv in H as (q & Hq & _ & ->). apply capped_shrink; [done|].
    intros owner' surf. rewrite (owner_count_delete (table s) _ q) by done. destruct (belongs _ _ _); lia.
Qed.

(** The limit under concurrency.  Statement by statement, with any number
    of creates, updates and deletes in flight, the lock of the owner keeps every
    owner within 20 views: the count a create read is never exceeded before it
    commits. *)
Theorem saved_view_limit_concurrent s :
  steps views_step {| table := ∅; creating := ∅ |} s ->
  forall owner, owner_count (table s) owner SavedViewSurfaceGraphProjection <= SavedViewMaxPerUser.
Proof.
  intros H. apply cap_limit. revert H. apply steps_invariant; [apply views_step_capped|].
  split; simpl.
  - intros owner. unfold owner_count. rewrite map_to_list_empty. unfold SavedViewMaxPerUser. simpl. lia.
  - by intros owner input ph t1 ?%lookup_empty_Some.
Qed.
End table.

(** ** Witnesses *)

Definition sample_filters : GraphFilters := {|
  Hierarchy := false; RootBSSID := ""; RootNodeID := ""; Projection := ""; IncludeIdentity := false;
  LocationIDs := [" loc-1 "; "loc-1"]; SensorIDs := []; FilterMAC := ""; FilterSSID := "";
  FilterKinds := ["access_point"]; EdgeKinds := ["observed_at"]; FilterThreatOnly := false;
  After := None; Before := None; Hops := 9; Limit := 5000; Scope := "all"; PageCursor := "";
  PageSize := 42 |}.

Definition sample_input : SavedViewCreate := {|
  CreateName := "  Nightly "; CreateState := {|
    ViewFilters := sample_filters; VisibleNodeKinds := ["ap"; "ap"]; VisibleEdgeKinds := [] |} |}.

Definition sample_state : SavedViewState :=
  match normalizeSavedViewState (CreateState sample_input) with inl st => st | inr _ => CreateState sample_input end.

(** A JSON codec that knows one state. *)
Definition sample_view_env : ViewEnv := {|
  marshal_state := fun _ => "{}"; unmarshal_state := fun _ => inl sample_state;
  view_order := fun _ _ => false; unique_name_index := true |}.

Definition sample_id := "2f6b6a3a-1f2c-4c8a-9a2b-0f5f9f9f9f9f".

Definition sample_create := @CreateSavedView sample_view_env 5 sample_id ∅ ∅ ∅ "alice" sample_input.
Definition sample_table : view_table := match sample_create with inl (t, _) => t | inr _ => ∅ end.

Definition accepted {A B} (x : A + B) : bool := match x with inl _ => true | inr _ => false end.

Lemma accepted_inl {A B C} (d : A) (x : (A * B) + C) :
  accepted x = true -> exists v, x = inl (match x with inl (a, _) => a | inr _ => d end, v).
Proof. destruct x as [[a b]|c]; [by exists b|done]. Qed.

Lemma sample_created : exists v, sample_create = inl (sample_table, v).
Proof. apply accepted_inl. vm_cast_no_check (eq_refl true). Qed.

Lemma saved_views_invariant_witness : @table_ok sample_view_env sample_table.
Proof.
  apply (@saved_views_invariant sample_view_env). destruct sample_created as [v E].
  apply steps_one. exact (vs_create 5 sample_id ∅ "alice" sample_input sample_table v E).
Defined.

Definition sample_update : SavedViewUpdate :=
  {| UpdateName := "nightly"; UpdateState := sample_state; ExpectedRevision := 1 |}.

Definition sample_updated :=
  @UpdateSavedView sample_view_env 6 sample_table sample_table "alice" sample_id sample_update.
Definition sample_table2 : view_table := match sample_updated with inl (t, _) => t | inr _ => ∅ end.

Lemma sample_update_done : exists v, sample_updated = inl (sample_table2, v).
Proof. apply accepted_inl. vm_cast_no_check (eq_refl true). Qed.

Definition rejected {A B} (x : A + B) : Prop := match x with inl _ => False | inr _ => True end.

Lemma rejected_intro {A B} (x : A + B) : (forall a, x <> inl a) -> rejected x.
Proof. destruct x as [a|b]; simpl; [|done]. intros H. by destruct (H a). Qed.

Lemma saved_view_no_lost_update_witness :
  rejected (@UpdateSavedView sample_view_env 7 sample_table2 sample_table2 "alice" sample_id sample_update).
Proof.
  destruct sample_update_done as [v E].
  destruct (@saved_view_no_lost_update sample_view_env 6 sample_table "alice" sample_id sample_update
    sample_table2 v E) as (_ & _ & _ & H).
  apply rejected_intro. intros res. apply H; [apply steps_refl|reflexivity].
Defined.

Definition stream_input : SavedViewCreate := {|
  CreateName := "s"; CreateState := {| ViewFilters := {|
    Hierarchy := false; RootBSSID := ""; RootNodeID := ""; Projection := "stream"; IncludeIdentity := false;
    LocationIDs := []; SensorIDs := []; FilterMAC := ""; FilterSSID := "";
    FilterKinds := []; EdgeKinds := []; FilterThreatOnly := false; After := None; Before := None;
    Hops := 1; Limit := 0; Scope := ""; PageCursor := ""; PageSize := 0 |};
    VisibleNodeKinds := []; VisibleEdgeKinds := [] |} |}.

Lemma stream_defaults_rejected_witness :
  rejected (@CreateSavedView sample_view_env 5 sample_id ∅ ∅ ∅ "alice" stream_input).
Proof. apply rejected_intro. intros res. apply stream_defaults_rejected; [reflexivity|left; reflexivity]. Defined.

Lemma saved_view_limit_concurrent_witness :
  owner_count ∅ "alice" SavedViewSurfaceGraphProjection <= SavedViewMaxPerUser.
Proof.
  apply (@saved_view_limit_concurrent sample_view_env
    {| table := ∅; creating := <["alice" := (sample_input, LockHeld)]> ∅ |}).
  apply steps_one. apply (cs_lock {| table := ∅; creating := ∅ |} "alice" sample_input). reflexivity.
Defined.

(** A codec for every state: its countable code, written in binary. *)
#[export] Instance GraphFilters_eq_dec : EqDecision GraphFilters.
Proof. solve_decision. Defined.
#[export] Instance SavedViewState_eq_dec : EqDecision SavedViewState.
Proof. solve_decision. Defined.

#[export] Instance GraphFilters_countable : Countable GraphFilters.
Proof.
  refine (inj_countable'
    (fun f => (Hierarchy f, RootBSSID f, RootNodeID f, Projection f, IncludeIdentity f, LocationIDs f,
               SensorIDs f, FilterMAC f, FilterSSID f,
               (FilterKinds f, EdgeKinds f, FilterThreatOnly f, After f, Before f, Hops f, Limit f,
                Scope f, PageCursor f, PageSize f)))
    (fun '(a, b, c, d, e, g, h, i, j, (k, l, m, n, o, p, q, r, s, t)) =>
       Build_GraphFilters a b c d e g h i j k l m n o p q r s t) _).
  by intros [].
Defined.

#[export] Instance SavedViewState_countable : Countable SavedViewState.
Proof.
  refine (inj_countable' (fun s => (ViewFilters s, VisibleNodeKinds s, VisibleEdgeKinds s))
    (fun '(a, b, c) => Build_SavedViewState a b c) _).
  by intros [].
Defined.

Definition binary_env : ViewEnv := {|
  marshal_state := text_of;
  unmarshal_state := fun s => match of_text s with Some st => inl st | None => inr (Opaque "invalid") end;
  view_order := fun _ _ => false; unique_name_index := true |}.

Lemma binary_env_law s : @unmarshal_state binary_env (@marshal_state binary_env s) = inl s.
Proof. cbn [unmarshal_state marshal_state binary_env]. by rewrite of_text_text_of. Qed.

Definition roundtrip_create := @CreateSavedView binary_env 5 sample_id ∅ ∅ ∅ "alice" sample_input.

Definition roundtrip_view : SavedGraphView := {|
  ViewID := sample_id; ViewName := "Nightly"; Surface := SavedViewSurfaceGraphProjection;
  ViewVersion := 1; Revision := 1; State := sample_state; CreatedAt := 5; UpdatedAt := 5 |}.

Lemma roundtrip_created : exists t, roundtrip_create = inl (t, roundtrip_view).
Proof.
  unfold roundtrip_create, CreateSavedView, create_request.
  assert (En : normalizeSavedViewName (CreateName sample_input) = inl "Nightly") by (vm_compute; reflexivity).
  assert (Es : normalizeSavedViewState (CreateState sample_input) = inl sample_state) by (vm_compute; reflexivity).
  assert (Eo : requireSavedViewOwner "alice" = None) by (vm_compute; reflexivity).
  assert (El : check_limit ∅ "alice" = None) by (vm_compute; reflexivity).
  assert (Ec : check_name ∅ "alice" "Nightly" = None) by (vm_compute; reflexivity).
  assert (Et : name_taken ∅ "alice" SavedViewSurfaceGraphProjection "Nightly" None = false)
    by (vm_compute; reflexivity).
  rewrite En, Eo. cbn [sum_bind]. rewrite Es. cbn [sum_bind]. rewrite El, Ec.
  unfold insert_view, scanSavedView. rewrite lookup_empty, bool_decide_false, Et, andb_false_r by by intros [].
  cbn [orb state]. rewrite binary_env_law. by eexists.
Qed.

Lemma saved_view_roundtrip_witness :
  exists t v, roundtrip_create = inl (t, v) /\ normalizeSavedViewState (CreateState sample_input) = inl (State v).
Proof.
  destruct roundtrip_created as [t E]. exists t, roundtrip_view. split; [exact E|].
  apply (@saved_view_roundtrip binary_env 5 6 sample_id ∅ "alice" sample_input t roundtrip_view).
  - apply saved_views_ok_empty.
  - apply binary_env_law.
  - vm_compute. reflexivity.
  - vm_compute. reflexivity.
  - vm_compute. reflexivity.
  - exact E.
  - intros H. vm_compute in H. discriminate.
Defined.
