(* ===== verification/Annotations.v ===== *)
(** * Operator decisions on assets (internal/assets: annotations.go, merge.go)

    The annotations of access points and devices with their audit trail, and
    the decisions on merge candidates.  Each write is the statements of one
    transaction on the tables it names; [FOR UPDATE] locks a row that exists and
    nothing when there is none, so the transactions in flight are modelled
    statement by statement. *)

From S2P Require Import Prelude GoErrors GoStrings QueryScope.
#[local] Open Scope go_scope.

(** ** Data *)

Record AssetAnnotation := {
  Kind : string;
  ID : string;
  Role : string;
  Label : string;
  Pinned : bool;
  Revision : Z;
  UpdatedBy : string;
  UpdatedAt : time;
}.

Record AssetAnnotationUpdate := {
  UpdateRole : option string;
  UpdateLabel : option string;
  UpdatePinned : option bool;
  ExpectedRevision : Z;
}.

(** A row of asset_annotations, keyed by kind and id, and of its audit table. *)
Record annotation_row := {
  ann_role : option string;
  ann_label : option string;
  ann_pinned : bool;
  ann_revision : Z;
  ann_updated_by : string;
  ann_updated_at : time;
}.

Record audit_row := {
  audit_asset : string * string;
  audit_revision : Z;
  audit_role : option string;
  audit_label : option string;
  audit_pinned : bool;
  audit_actor : string;
}.

Record annotation_db := {
  annotations : gmap (string * string) annotation_row;
  audits : list audit_row;
}.

Definition ErrAnnotationConflict : app_error := AppError ErrConflict "asset annotation revision conflict".

(** ** Normal form of requests *)

Definition normalizeAssetID (kind id : string) : (string * string) + app_error :=
  let kind := ToLower (TrimSpace kind) in
  let id := ToLower (TrimSpace id) in
  if negb (String.eqb kind "ap") && negb (String.eqb kind "device")
  then inr (Validation "unsupported asset annotation kind")
  else if negb (MacPattern id)
  then inr (Validation "asset annotation id must be a MAC address")
  else inl (kind, id).

Definition set_role (update : AssetAnnotationUpdate) (value : string) : AssetAnnotationUpdate := {|
  UpdateRole := Some value; UpdateLabel := UpdateLabel update; UpdatePinned := UpdatePinned update;
  ExpectedRevision := ExpectedRevision update |}.

Definition set_label (update : AssetAnnotationUpdate) (value : string) : AssetAnnotationUpdate := {|
  UpdateRole := UpdateRole update; UpdateLabel := Some value; UpdatePinned := UpdatePinned update;
  ExpectedRevision := ExpectedRevision update |}.

Definition normalizeAnnotationUpdate (update : AssetAnnotationUpdate) : AssetAnnotationUpdate + app_error :=
  if ExpectedRevision update <? 0 then inr (Validation "expected_revision must not be negative")
  else
    let! update := match UpdateRole update with
      | Some role =>
          let value := ToLower (TrimSpace role) in
          if negb (is_empty value) && negb (String.eqb value "router") && negb (String.eqb value "server")
          then inr (Validation "asset role must be router or server")
          else inl (set_role update value)
      | None => inl update
      end in
    let! update := match UpdateLabel update with
      | Some label =>
          let value := TrimSpace label in
          if 256 <? len value then inr (Validation "asset label exceeds 256 characters")
          else inl (set_label update value)
      | None => inl update
      end in
    match UpdateRole update, UpdateLabel update, UpdatePinned update with
    | None, None, None => inr (Validation "asset annotation requires role, label, or pinned")
    | _, _, _ => inl update
    end.

(** ** Statements *)

(** NULLIF(v, '') and COALESCE(v, ''). *)
Definition null_if_empty (v : string) : option string := if is_empty v then None else Some v.

Definition scan_annotation (asset : string * string) (r : annotation_row) : AssetAnnotation := {|
  Kind := fst asset; ID := snd asset; Role := coalesce (ann_role r); Label := coalesce (ann_label r);
  Pinned := ann_pinned r; Revision := ann_revision r; UpdatedBy := ann_updated_by r;
  UpdatedAt := ann_updated_at r |}.

Definition Service_AssetAnnotation (db : annotation_db) (kind id : string) : option AssetAnnotation + app_error :=
  let! asset := normalizeAssetID kind id in
  inl (scan_annotation asset <$> annotations db !! asset).

(** The request before the transaction starts: asset, update and actor. *)
Definition annotation_request (kind id : string) (update : AssetAnnotationUpdate) (actor : string)
    : ((string * string) * AssetAnnotationUpdate * string) + app_error :=
  let! asset := normalizeAssetID kind id in
  let! update := normalizeAnnotationUpdate update in
  let actor := TrimSpace actor in
  inl (asset, update, if is_empty actor then "static-token" else actor).

Definition no_annotation (asset : string * string) : AssetAnnotation := {|
  Kind := fst asset; ID := snd asset; Role := ""; Label := ""; Pinned := false; Revision := 0;
  UpdatedBy := ""; UpdatedAt := time_zero |}.

(** The fields the update names replace those of the current annotation. *)
Definition merge_update (current : AssetAnnotation) (update : AssetAnnotationUpdate) (actor : string)
    : AssetAnnotation := {|
  Kind := Kind current; ID := ID current;
  Role := default (Role current) (UpdateRole update);
  Label := default (Label current) (UpdateLabel update);
  Pinned := default (Pinned current) (UpdatePinned update);
  Revision := Revision current +w 1; UpdatedBy := actor; UpdatedAt := UpdatedAt current |}.

Definition bare (a : AssetAnnotation) : bool := is_empty (Role a) && is_empty (Label a) && negb (Pinned a).

(** The locking read, the revision check and the merge: what is to be written. *)
Definition read_annotation (row : option annotation_row) (asset : string * string)
    (update : AssetAnnotationUpdate) (actor : string) : AssetAnnotation + app_error :=
  let! current := match row with
    | None => if negb (ExpectedRevision update =? 0) then inr ErrAnnotationConflict
              else inl (no_annotation asset)
    | Some r => if negb (ann_revision r =? ExpectedRevision update) then inr ErrAnnotationConflict
                else inl (scan_annotation asset r)
    end in
  let merged := merge_update current update actor in
  if bare merged then inr (Validation "asset annotation must retain a role, label, or pin") else inl merged.

Definition asset_of (a : AssetAnnotation) : string * string := (Kind a, ID a).

Definition written_row (clock : time) (a : AssetAnnotation) : annotation_row := {|
  ann_role := null_if_empty (Role a); ann_label := null_if_empty (Label a); ann_pinned := Pinned a;
  ann_revision := Revision a; ann_updated_by := UpdatedBy a; ann_updated_at := clock |}.

Definition audit_of (a : AssetAnnotation) : audit_row := {|
  audit_asset := asset_of a; audit_revision := Revision a; audit_role := null_if_empty (Role a);
  audit_label := null_if_empty (Label a); audit_pinned := Pinned a; audit_actor := UpdatedBy a |}.

(** The statements of an update, and the error of each one that fails. *)
Inductive annotation_statement := AnnBegin | AnnRead | AnnUpsert | AnnAudit | AnnCommit.

(** The upsert, the audit insert and the commit. *)
Definition write_annotation (fails : annotation_statement -> option error) (clock : time) (db : annotation_db)
    (current : AssetAnnotation) : (annotation_db * AssetAnnotation) + app_error :=
  let row := written_row clock current in
  match fails AnnUpsert, fails AnnAudit, fails AnnCommit with
  | Some err, _, _ => inr (Plain (Wrapf ("write asset annotation: " +:+ Error err) err))
  | None, Some err, _ => inr (Plain (Wrapf ("audit asset annotation: " +:+ Error err) err))
  | None, None, Some err => inr (Plain err)
  | None, None, None =>
      inl ({| annotations := <[asset_of current := row]> (annotations db); audits := audits db ++ [audit_of current] |},
           scan_annotation (asset_of current) row)
  end.

(** The whole handler; [others] is what other transactions commit between the
    read and the write. *)
Definition UpdateAssetAnnotation (fails : annotation_statement -> option error) (clock : time)
    (others : annotation_db -> annotation_db) (db : annotation_db) (kind id : string) (update : AssetAnnotationUpdate)
    (actor : string) : (annotation_db * AssetAnnotation) + app_error :=
  let! request := annotation_request kind id update actor in
  let '(asset, update, actor) := request in
  match fails AnnBegin, fails AnnRead with
  | Some err, _ | None, Some err => inr (Plain err)
  | None, None =>
      let! current := read_annotation (annotations db !! asset) asset update actor in
      write_annotation fails clock (others db) current
  end.

(** ** Transactions in flight *)

(** A transaction past its read: what it will write, the row it read, which it
    has locked when there is one. *)
Record flight := { f_asset : string * string; f_base : option annotation_row; f_current : AssetAnnotation }.

Record annotation_world := { db : annotation_db; flights : list flight }.

Definition locks (asset : string * string) (f : flight) : bool :=
  bool_decide (f_asset f = asset) && bool_decide (is_Some (f_base f)).

(** Some transaction in [fs] holds the lock of the asset's row. *)
Definition row_locked (asset : string * string) (fs : list flight) : bool := existsb (locks asset) fs.

(** A transaction that fails at any statement is rolled back; one whose commit
    is not confirmed is one of the two. *)
Inductive annotation_step : annotation_world -> annotation_world -> Prop :=
| as_read w kind id update actor asset update' actor' current :
    annotation_request kind id update actor = inl (asset, update', actor') ->
    row_locked asset (flights w) = false ->
    read_annotation (annotations (db w) !! asset) asset update' actor' = inl current ->
    annotation_step w
      {| db := db w;
         flights := {| f_asset := asset; f_base := annotations (db w) !! asset; f_current := current |} :: flights w |}
| as_write w fs1 f fs2 fails clock db' a :
    flights w = fs1 ++ f :: fs2 ->
    row_locked (f_asset f) (fs1 ++ fs2) = false ->
    write_annotation fails clock (db w) (f_current f) = inl (db', a) ->
    annotation_step w {| db := db'; flights := fs1 ++ fs2 |}
| as_rollback w fs1 f fs2 :
    flights w = fs1 ++ f :: fs2 ->
    annotation_step w {| db := db w; flights := fs1 ++ fs2 |}.

Definition no_annotations : annotation_world :=
  {| db := {| annotations := ∅; audits := [] |}; flights := [] |}.

(** ** Merge decisions *)

Inductive MergeDecision := MergeDecisionMerge | MergeDecisionNotMatch | MergeDecisionNeedsMoreData.

Record merge_decision_row := { decision : MergeDecision; decided_at : time; decided_by : string }.

Record candidate_row := { candidate_status : string; candidate_updated_at : time }.

Record merge_db := {
  merge_candidates : gmap string candidate_row;
  merge_decisions : gmap string merge_decision_row;
}.

Record MergeDecisionResponse := {
  CandidateID : string;
  Decision : MergeDecision;
  Accepted : bool;
  DecidedBy : string;
  DecidedAt : time;
}.

Definition normalizeMergeDecision (value : string) : MergeDecision + app_error :=
  let v := TrimSpace value in
  if String.eqb v "merge" then inl MergeDecisionMerge
  else if String.eqb v "not_match" then inl MergeDecisionNotMatch
  else if String.eqb v "needs_more_data" then inl MergeDecisionNeedsMoreData
  else inr (Validation ("unsupported merge decision " +:+ Quote value)).

Definition decided_status (d : MergeDecision) : string :=
  match d with
  | MergeDecisionMerge => "approved"
  | MergeDecisionNotMatch => "rejected"
  | MergeDecisionNeedsMoreData => "deferred"
  end.

(** The candidate's row exists when the transaction goes on, and is locked by
    it, so the statements are one atomic step; [now] is the service's clock and
    [clock] the database's. *)
Definition Service_MergeDecision (now clock : time) (db : merge_db) (candidateID decision_ subject : string)
    : (merge_db * MergeDecisionResponse) + app_error :=
  let candidateID := TrimSpace candidateID in
  if is_empty candidateID then inr (Validation "candidate_id is required")
  else
    let! normalized := normalizeMergeDecision decision_ in
    let subject := TrimSpace subject in
    let subject := if is_empty subject then "auth-disabled" else subject in
    match merge_candidates db !! candidateID with
    | None => inr (AppError ErrNotFound "merge candidate not found")
    | Some _ =>
        match merge_decisions db !! candidateID with
        | Some _ => inr (AppError ErrConflict "merge candidate already decided")
        | None =>
            inl ({| merge_candidates :=
                      <[candidateID := {| candidate_status := decided_status normalized;
                                          candidate_updated_at := clock |}]> (merge_candidates db);
                    merge_decisions :=
                      <[candidateID := {| decision := normalized; decided_at := now; decided_by := subject |}]>
                        (merge_decisions db) |},
                 {| CandidateID := candidateID; Decision := normalized; Accepted := true;
                    DecidedBy := subject; DecidedAt := now |})
        end
    end.

(** Decisions of operators, and whatever other programs do to the candidates. *)
Inductive merge_step : merge_db -> merge_db -> Prop :=
| ms_decide now clock d candidateID decision_ subject d' response :
    Service_MergeDecision now clock d candidateID decision_ subject = inl (d', response) -> merge_step d d'
| ms_candidates d cs : merge_step d {| merge_candidates := cs; merge_decisions := merge_decisions d |}.

(** ** Well-formed annotations *)

Definition role_ok (role : string) : Prop := role = "" \/ role = "router" \/ role = "server".
Definition label_ok (label : string) : Prop := TrimSpace label = label /\ len label <= 256.

Record annotation_ok (a : AssetAnnotation) : Prop := {
  ok_asset : (Kind a = "ap" \/ Kind a = "device") /\ MacPattern (ID a) = true;
  ok_role : role_ok (Role a);
  ok_label : label_ok (Label a);
  ok_content : Role a <> "" \/ Label a <> "" \/ Pinned a = true;
}.

Lemma normalizeAssetID_inl kind id asset :
  normalizeAssetID kind id = inl asset ->
  (fst asset = "ap" \/ fst asset = "device") /\ MacPattern (snd asset) = true.
Proof.
  unfold normalizeAssetID.
  destruct (String.eqb_spec (ToLower (TrimSpace kind)) "ap") as [->|];
    [|destruct (String.eqb_spec (ToLower (TrimSpace kind)) "device") as [->|]; [|done]];
    destruct (MacPattern _) eqn:E; try done; intros [= <-]; auto.
Qed.

Lemma normalizeAnnotationUpdate_inl update u :
  normalizeAnnotationUpdate update = inl u ->
  ExpectedRevision u = ExpectedRevision update /\ 0 <= ExpectedRevision u /\
  (forall r, UpdateRole u = Some r -> role_ok r) /\ (forall l, UpdateLabel u = Some l -> label_ok l).
Proof.
  unfold normalizeAnnotationUpdate. destruct (Z.ltb_spec (ExpectedRevision update) 0); [done|].
  intros (u1 & H1 & (u2 & H2 & H3)%sum_bind_inl)%sum_bind_inl.
  assert (u = u2) as -> by (repeat case_match; by simplify_eq). clear H3.
  assert (HR : ExpectedRevision u1 = ExpectedRevision update /\ UpdateLabel u1 = UpdateLabel update /\
    (forall r, UpdateRole u1 = Some r -> role_ok r)).
  { destruct (UpdateRole update) as [role|] eqn:Er.
    - revert H1. unfold role_ok. destruct (is_empty _) eqn:Ee; simpl.
      { intros [= <-]. split_and!; try done. intros r [= <-]. left. by apply is_empty_true. }
      destruct (String.eqb_spec (ToLower (TrimSpace role)) "router") as [E|]; simpl.
      { intros [= <-]. split_and!; try done. intros r [= <-]. auto. }
      destruct (String.eqb_spec (ToLower (TrimSpace role)) "server") as [E|]; simpl; [|done].
      intros [= <-]. split_and!; try done. intros r [= <-]. auto.
    - injection H1 as <-. split_and!; try done. by rewrite Er. }
  destruct HR as (E1 & E2 & HR). rewrite E2 in H2. destruct (UpdateLabel update) as [label|] eqn:El.
  - destruct (Z.ltb_spec 256 (len (TrimSpace label))); [done|]. injection H2 as <-. simpl.
    split_and!; [done|lia|done|]. intros l [= <-]. split; [apply TrimSpace_idem|done].
  - injection H2 as <-. split_and!; [done|lia|done|]. by rewrite E2.
Qed.

Lemma annotation_request_inl kind id update actor asset u actor' :
  annotation_request kind id update actor = inl (asset, u, actor') ->
  normalizeAssetID kind id = inl asset /\ normalizeAnnotationUpdate update = inl u /\ actor' <> "".
Proof.
  intros (a & Ha & (v & Hv & H)%sum_bind_inl)%sum_bind_inl. injection H as -> -> <-.
  split_and!; try done. destruct (is_empty (TrimSpace actor)) eqn:E; [done|]. intros E'. by rewrite E' in E.
Qed.

Lemma coalesce_null_if_empty v : coalesce (null_if_empty v) = v.
Proof. unfold coalesce, null_if_empty. destruct (is_empty v) eqn:E; [|done]. by apply is_empty_true in E as ->. Qed.

Lemma bare_false a : bare a = false -> Role a <> "" \/ Label a <> "" \/ Pinned a = true.
Proof.
  unfold bare. destruct (is_empty (Role a)) eqn:E1.
  - destruct (is_empty (Label a)) eqn:E2.
    + simpl. rewrite negb_false_iff. auto.
    + intros _. right. left. intros E. by rewrite E in E2.
  - intros _. left. intros E. by rewrite E in E1.
Qed.

(** What the read step computes from a well-formed row. *)
Lemma read_annotation_inl row asset u actor current :
  (forall r, row = Some r -> annotation_ok (scan_annotation asset r)) ->
  (fst asset = "ap" \/ fst asset = "device") /\ MacPattern (snd asset) = true ->
  (forall r, UpdateRole u = Some r -> role_ok r) -> (forall l, UpdateLabel u = Some l -> label_ok l) ->
  read_annotation row asset u actor = inl current ->
  annotation_ok current /\ asset_of current = asset /\
  ExpectedRevision u = match row with Some r => ann_revision r | None => 0 end /\
  Revision current = wrap64 (ExpectedRevision u + 1) /\ UpdatedBy current = actor.
Proof.
  intros Hrow Ha Hr Hl (cur & Hc & H)%sum_bind_inl.
  assert (Hcur : (asset_of cur = asset) /\ role_ok (Role cur) /\ label_ok (Label cur) /\
    Revision cur = match row with Some r => ann_revision r | None => 0 end /\
    Revision cur = ExpectedRevision u).
  { destruct row as [r|].
    - destruct (Z.eqb_spec (ann_revision r) (ExpectedRevision u)); [|done]. injection Hc as <-.
      destruct (Hrow r eq_refl). destruct asset. done.
    - destruct (Z.eqb_spec (ExpectedRevision u) 0); [|done]. injection Hc as <-. destruct asset.
      split_and!; try done. by left. }
  destruct Hcur as (Eas & Hro & Hla & Er & Ee).
  cbn zeta in H. destruct (bare _) eqn:Eb in H; [done|]. injection H as <-. apply bare_false in Eb. subst asset.
  split_and!; simpl; try done; [|by rewrite <-Ee|by rewrite Ee]. split; simpl; try done.
  - destruct (UpdateRole u); simpl; auto.
  - destruct (UpdateLabel u); simpl; auto.
Qed.

(** ** The audit trail *)

Definition trail (d : annotation_db) (asset : string * string) : list audit_row :=
  List.filter (fun c => bool_decide (audit_asset c = asset)) (audits d).

(** The audit row records the annotation row. *)
Definition records (c : audit_row) (r : annotation_row) : Prop :=
  audit_role c = ann_role r /\ audit_label c = ann_label r /\ audit_pinned c = ann_pinned r /\
  audit_revision c = ann_revision r /\ audit_actor c = ann_updated_by r.

(** Each revision is 1 or the one after the entry before. *)
Definition numbered (l : list Z) : Prop :=
  forall k n, l !! k = Some n -> n = 1 \/ exists j m, k = S j /\ l !! j = Some m /\ n = wrap64 (m + 1).

Lemma numbered_snoc l n :
  numbered l -> (n = 1 \/ exists m, last l = Some m /\ n = wrap64 (m + 1)) -> numbered (l ++ [n]).
Proof.
  intros Hl Hn k x Hk. apply lookup_app_Some in Hk as [Hk|[Hle Hk]].
  - destruct (Hl k x Hk) as [?|(j & m & -> & Hj & ->)]; [by left|]. right. exists j, m. split_and!; try done.
    by apply lookup_app_l_Some.
  - apply list_lookup_singleton_Some in Hk as [Hk <-]. destruct Hn as [?|(m & Hm & ->)]; [by left|].
    right. rewrite last_lookup in Hm. destruct l as [|y l]; [done|]. exists (pred (length (y :: l))), m.
    split; [cbn [length] in *; lia|]. split; [|done]. by apply lookup_app_l_Some.
Qed.

(** Without repetition the revisions are 1, 2, 3 and so on. *)
Lemma numbered_consecutive l :
  numbered l -> NoDup l -> Z.of_nat (length l) < 2 ^ 63 -> l = (fun k => Z.of_nat k + 1) <$> seq 0 (length l).
Proof.
  induction l as [|n l IH] using rev_ind; intros Hn Hd Hl; [done|].
  rewrite length_app, Nat2Z.inj_add in Hl. cbn [length] in Hl. apply NoDup_app in Hd as (Hd & Hnot & _).
  assert (El : l = (fun k => Z.of_nat k + 1) <$> seq 0 (length l)).
  { apply IH; [|done|lia]. intros k x Hk. assert (Hlt := lookup_lt_Some _ _ _ Hk).
    destruct (Hn k x ltac:(by apply lookup_app_l_Some)) as [?|(j & m & -> & Hj & ->)]; [by left|]. right. exists j, m.
    rewrite lookup_app_l in Hj by lia. done. }
  assert (Hat : forall k, (k < length l)%nat -> l !! k = Some (Z.of_nat k + 1)).
  { intros k Hk. set (m := length l) in *. rewrite El. by rewrite list_lookup_fmap, lookup_seq_lt. }
  enough (n = Z.of_nat (length l) + 1) as ->.
  { rewrite length_app. cbn [length]. rewrite Nat.add_1_r, seq_S, fmap_app. by f_equal. }
  destruct (Hn (length l) n) as [->|(j & m & Ej & Hj & ->)]; [by rewrite list_lookup_middle| |].
  - destruct l as [|x l]; [done|]. specialize (Hat 0%nat ltac:(cbn; lia)). exfalso. apply (Hnot 1); [|by left].
    by apply (list_elem_of_lookup_2 _ 0).
  - rewrite lookup_app_l, Hat in Hj by lia. injection Hj as <-. rewrite wrap64_id; [lia|]. unfold int64_range. lia.
Qed.

(** The last entry of an asset's trail is the stored annotation, which is well
    formed. *)
Record asset_history (d : annotation_db) (asset : string * string) : Prop := {
  ah_revisions : numbered (audit_revision <$> trail d asset);
  ah_current : match annotations d !! asset with
               | None => trail d asset = []
               | Some r => annotation_ok (scan_annotation asset r) /\
                           exists c, last (trail d asset) = Some c /\ records c r
               end;
}.

(** The revision a transaction writes, from the row it read. *)
Definition next_revision (base : option annotation_row) : Z :=
  match base with Some r => wrap64 (ann_revision r + 1) | None => 1 end.

Definition flight_ok (d : annotation_db) (f : flight) : Prop :=
  asset_of (f_current f) = f_asset f /\ annotation_ok (f_current f) /\
  Revision (f_current f) = next_revision (f_base f) /\
  (is_Some (f_base f) -> annotations d !! f_asset f = f_base f).

Definition world_ok (w : annotation_world) : Prop :=
  (forall asset, asset_history (db w) asset) /\ Forall (flight_ok (db w)) (flights w).

Lemma trail_app d asset c row :
  trail {| annotations := row; audits := audits d ++ [c] |} asset
  = trail d asset ++ (if bool_decide (audit_asset c = asset) then [c] else []).
Proof. unfold trail. simpl. rewrite List.filter_app. simpl. by case_bool_decide. Qed.

Lemma write_result fails clock d a d' a' :
  write_annotation fails clock d a = inl (d', a') ->
  d' = {| annotations := <[asset_of a := written_row clock a]> (annotations d); audits := audits d ++ [audit_of a] |} /\
  a' = scan_annotation (asset_of a) (written_row clock a).
Proof.
  unfold write_annotation. cbn zeta. destruct (fails AnnUpsert), (fails AnnAudit), (fails AnnCommit); by intros [= <- <-].
Qed.

Lemma written_scan clock a :
  scan_annotation (asset_of a) (written_row clock a)
  = {| Kind := Kind a; ID := ID a; Role := Role a; Label := Label a; Pinned := Pinned a;
       Revision := Revision a; UpdatedBy := UpdatedBy a; UpdatedAt := clock |}.
Proof. unfold scan_annotation, written_row, asset_of. simpl. by rewrite !coalesce_null_if_empty. Qed.

Lemma written_ok clock a : annotation_ok a -> annotation_ok (scan_annotation (asset_of a) (written_row clock a)).
Proof. intros [? ? ? ?]. rewrite written_scan. by split. Qed.

Lemma history_write clock d a base asset :
  asset_history d (asset_of a) -> annotation_ok a -> Revision a = next_revision base ->
  (is_Some base -> annotations d !! asset_of a = base) -> asset_history d asset ->
  asset_history {| annotations := <[asset_of a := written_row clock a]> (annotations d);
                   audits := audits d ++ [audit_of a] |} asset.
Proof.
  intros H Hok Hrev Hbase H'. split; rewrite trail_app; cbn [audit_of audit_asset annotations].
  - destruct H' as [Hr _]. case_bool_decide as E; [|by rewrite app_nil_r]. rewrite fmap_app. apply numbered_snoc; [done|].
    cbn [audit_revision audit_of]. rewrite Hrev. destruct base as [r|]; [right|by left].
    destruct H as [_ Hc]. rewrite (Hbase (mk_is_Some _ _ eq_refl)) in Hc. destruct Hc as (_ & c & Hl & (_ & _ & _ & Hcr & _)).
    exists (ann_revision r). subst asset. split; [|done]. rewrite fmap_last, Hl. cbn. by rewrite Hcr.
  - case_bool_decide as E.
    + subst asset. rewrite lookup_insert_eq, last_snoc. split; [by apply written_ok|]. by exists (audit_of a).
    + rewrite lookup_insert_ne by done. rewrite app_nil_r. apply H'.
Qed.

Lemma step_ok w w' : world_ok w -> annotation_step w w' -> world_ok w'.
Proof.
  intros [Hh Hf] Hstep.
  inversion Hstep as [w0 kind id update actor asset u actor' current Hreq Hlock Hread|
    w0 fs1 f fs2 fails clock d' a Efs Hlock Hwrite|w0 fs1 f fs2 Efs]; subst; simpl in *.
  - split; [done|]. constructor; [|done].
    apply annotation_request_inl in Hreq as (Has & Hup & _).
    apply normalizeAssetID_inl in Has. apply normalizeAnnotationUpdate_inl in Hup as (_ & _ & Hro & Hla).
    apply read_annotation_inl in Hread as (Hok & Easset & Eexp & Erev & _); [|intros r Hr|done..].
    + split_and!; simpl; try done. rewrite Erev, Eexp.
      by destruct (annotations (db w) !! asset) as [r|].
    + pose proof (ah_current _ _ (Hh asset)) as Hc. rewrite Hr in Hc. apply Hc.
  - apply write_result in Hwrite as (-> & _).
    rewrite Efs, Forall_app, Forall_cons in Hf. destruct Hf as (Hf1 & (Ea & Hok & Erev & Hbase) & Hf2).
    split.
    + intros asset. simpl. apply (history_write _ _ _ (f_base f)); [done|done|done| |done]. by rewrite Ea.
    + assert (Hother : Forall (flight_ok (db w)) (fs1 ++ fs2)) by by apply Forall_app.
      simpl. rewrite Forall_forall in Hother |- *. intros g Hg. destruct (Hother g Hg) as (E1 & E2 & E3 & E4).
      split_and!; try done. simpl. intros Hs. rewrite lookup_insert_ne; [by apply E4|].
      intros E. unfold row_locked in Hlock. assert (Ht : existsb (locks (f_asset f)) (fs1 ++ fs2) = true); [|congruence].
      apply existsb_exists. exists g. split; [by apply list_elem_of_In|]. unfold locks.
      rewrite !bool_decide_true; [done|done|congruence].
  - split; [done|]. rewrite Efs, Forall_app, Forall_cons in Hf. apply Forall_app. naive_solver.
Qed.

Lemma world_reachable w : steps annotation_step no_annotations w -> world_ok w.
Proof.
  apply (steps_invariant annotation_step world_ok).
  - intros w1 w2. apply step_ok.
  - split; [|by constructor]. intros asset. split; [|done]. by intros k n.
Qed.

(** What a committed transaction wrote, in the table and in the trail. *)
Definition committed (w w' : annotation_world) (f : flight) : Prop :=
  let a := f_current f in
  asset_of a = f_asset f /\ Revision a = next_revision (f_base f) /\
  (is_Some (f_base f) -> annotations (db w) !! f_asset f = f_base f) /\
  audits (db w') = audits (db w) ++ [audit_of a] /\
  (exists clock, annotations (db w') = <[f_asset f := written_row clock a]> (annotations (db w))).

Lemma step_committed w w' : world_ok w -> annotation_step w w' -> db w' = db w \/ exists f, f ∈ flights w /\ committed w w' f.
Proof.
  intros [_ Hf] Hstep.
  inversion Hstep as [|w0 fs1 f fs2 fails clock d' a Efs Hlock Hwrite|]; subst; [by left| |by left].
  right. apply write_result in Hwrite as (-> & _). exists f. rewrite Efs in *. split; [apply elem_of_app; right; by left|].
  apply Forall_app in Hf as [_ [(Ea & _ & Erev & Hbase) _]%Forall_cons]. unfold committed. cbn [db annotations audits].
  split_and!; try done. exists clock. by rewrite Ea.
Qed.

(** C26. The audit trail tells the whole history.  Whatever transactions are in
    flight, however their statements interleave and whichever fail: a step
    changes the table only by a commit, which adds one row to the end of the
    trail, the annotation it stores; a transaction that read a row replaces
    exactly that row, as the next revision, so no update of an annotation is
    lost; only one that found no row may replace a row it did not read, and
    then as another revision 1.  So in the trail of an asset each revision is 1
    or the one after the entry before, the trail of distinct revisions counts
    from 1 without gaps, and the last entry is the stored annotation, which is
    well formed. *)
Theorem annotation_audit_trail w :
  steps annotation_step no_annotations w ->
  (forall asset, asset_history (db w) asset /\
     let revisions := audit_revision <$> trail (db w) asset in
     (NoDup revisions -> Z.of_nat (length revisions) < 2 ^ 63 ->
      revisions = (fun k => Z.of_nat k + 1) <$> seq 0 (length revisions))) /\
  (forall w', annotation_step w w' -> db w' = db w \/ exists f, f ∈ flights w /\ committed w w' f).
Proof.
  intros Hw%world_reachable. split; [|intros w'; by apply step_committed].
  intros asset. destruct Hw as [Hh _]. split; [done|]. intros revisions. apply numbered_consecutive, Hh.
Qed.

(** Updating and reading back.  An update against another revision than the
    stored one (0 when there is none) is a conflict.  One that succeeds answers
    what a later read of the asset returns: the named fields replaced, the others
    kept, the revision advanced by one; it touches no other asset and adds one
    audit row. *)
Theorem annotation_update_roundtrip fails clock others d kind id update actor asset u actor' :
  annotation_request kind id update actor = inl (asset, u, actor') ->
  let stored := scan_annotation asset <$> annotations d !! asset in
  let before := default (no_annotation asset) stored in
  (Revision before <> ExpectedRevision update ->
   fails AnnBegin = None -> fails AnnRead = None ->
   UpdateAssetAnnotation fails clock others d kind id update actor = inr ErrAnnotationConflict) /\
  (forall d' a, UpdateAssetAnnotation fails clock others d kind id update actor = inl (d', a) ->
   Service_AssetAnnotation d' kind id = inl (Some a) /\
   a = {| Kind := fst asset; ID := snd asset; Role := default (Role before) (UpdateRole u);
          Label := default (Label before) (UpdateLabel u); Pinned := default (Pinned before) (UpdatePinned u);
          Revision := wrap64 (ExpectedRevision update + 1); UpdatedBy := actor'; UpdatedAt := clock |} /\
   (forall asset', asset' <> asset -> annotations d' !! asset' = annotations (others d) !! asset') /\
   exists c, audits d' = audits (others d) ++ [c] /\ audit_asset c = asset).
Proof.
  intros Hreq stored before. pose proof (annotation_request_inl _ _ _ _ _ _ _ Hreq) as (Has & Hup & _).
  apply normalizeAnnotationUpdate_inl in Hup as (Eexp & _).
  assert (Hread : read_annotation (annotations d !! asset) asset u actor'
    = if negb (Revision before =? ExpectedRevision u) then inr ErrAnnotationConflict
      else let merged := merge_update before u actor' in
           if bare merged then inr (Validation "asset annotation must retain a role, label, or pin") else inl merged).
  { unfold read_annotation, before, stored. destruct (annotations d !! asset) as [r|]; simpl.
    - by destruct (ann_revision r =? ExpectedRevision u).
    - by destruct (ExpectedRevision u) as [| |]. }
  unfold UpdateAssetAnnotation. rewrite Hreq. cbn [sum_bind]. rewrite Hread, Eexp. split.
  - intros Hne -> ->. by destruct (Z.eqb_spec (Revision before) (ExpectedRevision update)).
  - intros d' a. destruct (fails AnnBegin); [done|]. destruct (fails AnnRead); [done|]. destruct (Z.eqb_spec (Revision before) (ExpectedRevision update)) as [Er|]; [|done]. cbn zeta.
    destruct (bare _); [done|]. cbn [negb sum_bind].
    assert (Easset : asset_of (merge_update before u actor') = asset).
    { unfold before, stored. destruct asset, (annotations d !! _); done. }
    set (m := merge_update before u actor') in *.
    intros [-> ->]%write_result. unfold Service_AssetAnnotation. rewrite Has. simpl.
    rewrite Easset, lookup_insert_eq. split; [done|]. split; [|split].
    + rewrite <-Easset, written_scan. unfold m, before, stored. subst m before stored. rewrite <-Er.
      destruct (annotations d !! asset); simpl; by destruct asset.
    + intros asset' Hne. by rewrite lookup_insert_ne.
    + eexists. split; [done|]. done.
Qed.

Lemma unlocked_without_row asset asset' c :
  locks asset {| f_asset := asset'; f_base := None; f_current := c |} = false.
Proof. unfold locks. cbn [f_base]. rewrite (bool_decide_eq_false_2 (is_Some None)); [apply andb_false_r|by intros []]. Qed.

(** The first annotation is not guarded.  [FOR UPDATE] locks nothing while
    the asset has no row, so any two first updates both pass the revision check;
    unless the audit insert of the second fails, both are accepted as revision 1
    and the second silently replaces the first. *)
Theorem first_annotation_race (clock1 clock2 : time) kind id u1 u2 actor1 actor2 asset u1' u2' actor1' actor2' c1 c2 :
  annotation_request kind id u1 actor1 = inl (asset, u1', actor1') ->
  annotation_request kind id u2 actor2 = inl (asset, u2', actor2') ->
  read_annotation None asset u1' actor1' = inl c1 -> read_annotation None asset u2' actor2' = inl c2 ->
  exists w, steps annotation_step no_annotations w /\
    annotations (db w) !! asset = Some (written_row clock2 c2) /\ audit_revision <$> trail (db w) asset = [1; 1].
Proof.
  intros Hq1 Hq2 Hr1 Hr2.
  assert (Hc : forall u actor c, read_annotation None asset u actor = inl c -> asset_of c = asset /\ Revision c = 1).
  { intros u actor c (cur & H1 & H2)%sum_bind_inl. destruct (ExpectedRevision u =? 0); [|done].
    injection H1 as <-. cbn zeta in H2. destruct (bare _) in H2; [done|]. injection H2 as <-. by destruct asset. }
  destruct (Hc _ _ _ Hr1) as [E1 R1], (Hc _ _ _ Hr2) as [E2 R2]. clear Hc.
  set (f c := {| f_asset := asset; f_base := None; f_current := c |}). set (calm (s : annotation_statement) := @None error).
  set (d1 := {| annotations := {[asset := written_row clock1 c1]}; audits := [audit_of c1] |}).
  set (d2 := {| annotations := <[asset := written_row clock2 c2]> (annotations d1); audits := audits d1 ++ [audit_of c2] |}).
  exists {| db := d2; flights := [] |}. split; [|split].
  - eapply steps_next; [eapply steps_next; [eapply steps_next; [eapply steps_next; [apply steps_refl|]|]|]|].
    + by eapply (as_read no_annotations kind id u1 actor1 asset u1' actor1' c1).
    + eapply (as_read _ kind id u2 actor2 asset u2' actor2' c2); [done| |done].
      unfold f. simpl. by rewrite ?unlocked_without_row.
    + eapply (as_write _ [f c2] (f c1) [] calm clock1 d1); [done| |].
      * unfold f. simpl. by rewrite ?unlocked_without_row.
      * unfold write_annotation, f, d1. cbn [f_current db]. by rewrite E1.
    + eapply (as_write _ [] (f c2) [] calm clock2 d2); [done|done|].
      unfold write_annotation, f, d2. cbn [f_current db]. by rewrite E2.
  - apply lookup_insert_eq.
  - unfold trail. simpl. rewrite E1, E2, !bool_decide_true by done. csimpl. by rewrite R1, R2.
Qed.

(** What a successful decision required and wrote. *)
Lemma merge_decision_inl a now clock c dec sub a' r :
  Service_MergeDecision now clock a c dec sub = inl (a', r) ->
  let id := TrimSpace c in
  id <> "" /\ is_Some (merge_candidates a !! id) /\ merge_decisions a !! id = None /\
  normalizeMergeDecision dec = inl (Decision r) /\ DecidedBy r <> "" /\
  a' = {| merge_candidates := <[id := {| candidate_status := decided_status (Decision r);
                                         candidate_updated_at := clock |}]> (merge_candidates a);
          merge_decisions := <[id := {| decision := Decision r; decided_at := now; decided_by := DecidedBy r |}]>
            (merge_decisions a) |}.
Proof.
  unfold Service_MergeDecision. cbn zeta.
  destruct (is_empty (TrimSpace c)) eqn:Ee; [done|]. destruct (normalizeMergeDecision dec) as [n|]; [|done].
  cbn [sum_bind]. destruct (merge_candidates a !! TrimSpace c) eqn:Ec; [|done].
  destruct (merge_decisions a !! TrimSpace c) eqn:Ed; [done|]. intros [= <- <-]. simpl.
  split_and!; try done; [intros E; by rewrite E in Ee|].
  destruct (is_empty (TrimSpace sub)) eqn:Es; [done|]. intros E. by rewrite E in Es.
Qed.

(** Decisions are final.  A decision that is accepted was for an existing
    candidate without one, and sets exactly that candidate's status and
    decision; whatever happens afterwards the stored decision stays as it is, and
    every further decision on the candidate is rejected. *)
Theorem merge_decisions_final d now clock candidateID decision_ subject d' response :
  Service_MergeDecision now clock d candidateID decision_ subject = inl (d', response) ->
  let id := TrimSpace candidateID in
  let row := {| decision := Decision response; decided_at := now; decided_by := DecidedBy response |} in
  id <> "" /\ is_Some (merge_candidates d !! id) /\ merge_decisions d !! id = None /\
  normalizeMergeDecision decision_ = inl (Decision response) /\ DecidedBy response <> "" /\
  d' = {| merge_candidates := <[id := {| candidate_status := decided_status (Decision response);
                                         candidate_updated_at := clock |}]> (merge_candidates d);
          merge_decisions := <[id := row]> (merge_decisions d) |} /\
  (forall d'', steps merge_step d' d'' ->
     merge_decisions d'' !! id = Some row /\
     forall now' clock' candidateID' decision' subject' res, TrimSpace candidateID' = id ->
       Service_MergeDecision now' clock' d'' candidateID' decision' subject' <> inl res).
Proof.
  pose proof merge_decision_inl as Hinv.
  intros H id row. destruct (Hinv _ _ _ _ _ _ _ _ H) as (Hid & Hs & Hd & Hn & Hb & ->).
  split_and!; try done. intros d'' Hsteps.
  assert (Hrow : merge_decisions d'' !! id = Some row).
  { refine (steps_invariant merge_step (fun a => merge_decisions a !! id = Some row) _ _ _ _ Hsteps);
      [|apply lookup_insert_eq].
    intros a b Ha Hstep. destruct Hstep as [now' clock' a c dec sub a' r Hr|]; [|done].
    destruct (Hinv _ _ _ _ _ _ _ _ Hr) as (_ & _ & Hno & _ & _ & ->). simpl.
    rewrite lookup_insert_ne; [done|]. intros E. rewrite E in Hno. congruence. }
  split; [done|]. intros now' clock' c dec sub [a r] Ec Hr.
  destruct (Hinv _ _ _ _ _ _ _ _ Hr) as (_ & _ & Hno & _). rewrite Ec in Hno. congruence.
Qed.

(** ** Witnesses *)

Definition sample_asset : string * string := ("ap", "aa:bb:cc:dd:ee:ff").

Definition label_update (label : string) (revision : Z) : AssetAnnotationUpdate :=
  {| UpdateRole := None; UpdateLabel := Some label; UpdatePinned := None; ExpectedRevision := revision |}.

Definition sample_annotation (label actor : string) (revision : Z) : AssetAnnotation := {|
  Kind := "ap"; ID := "aa:bb:cc:dd:ee:ff"; Role := ""; Label := label; Pinned := false; Revision := revision;
  UpdatedBy := actor; UpdatedAt := 0 |}.

Definition empty_db : annotation_db := {| annotations := ∅; audits := [] |}.

Definition no_fault (s : annotation_statement) : option error := None.

Lemma annotation_update_roundtrip_witness :
  UpdateAssetAnnotation no_fault 7 id empty_db "AP" " aa:bb:cc:dd:ee:ff" (label_update "desk" 3) "" = inr ErrAnnotationConflict.
Proof.
  apply (annotation_update_roundtrip no_fault 7 id empty_db "AP" " aa:bb:cc:dd:ee:ff" (label_update "desk" 3) ""
    sample_asset (label_update "desk" 3) "static-token"); [vm_compute; reflexivity| |reflexivity..].
  vm_compute. discriminate.
Defined.

(** Two first annotations in flight at once, of which both commit, and an update
    of what they left: the revisions 1, 1 and 2. *)
Lemma annotation_audit_trail_witness :
  exists w, steps annotation_step no_annotations w /\ asset_history (db w) sample_asset /\
    audit_revision <$> trail (db w) sample_asset = [1; 1; 2].
Proof.
  set (c1 := sample_annotation "desk" "ann" 1). set (c2 := sample_annotation "door" "bob" 1).
  set (c3 := {| Kind := "ap"; ID := "aa:bb:cc:dd:ee:ff"; Role := ""; Label := "wall"; Pinned := false; Revision := 2;
                UpdatedBy := "ann"; UpdatedAt := 6 |}).
  set (d1 := {| annotations := {[sample_asset := written_row 5 c1]}; audits := [audit_of c1] |}).
  set (d2 := {| annotations := {[sample_asset := written_row 6 c2]}; audits := [audit_of c1; audit_of c2] |}).
  set (d3 := {| annotations := {[sample_asset := written_row 7 c3]}; audits := [audit_of c1; audit_of c2; audit_of c3] |}).
  set (f1 := {| f_asset := sample_asset; f_base := None; f_current := c1 |}).
  set (f2 := {| f_asset := sample_asset; f_base := None; f_current := c2 |}).
  assert (H : steps annotation_step no_annotations {| db := d3; flights := [] |}).
  { eapply steps_next; [eapply steps_next; [eapply steps_next; [eapply steps_next; [eapply steps_next; [eapply steps_next;
      [apply steps_refl|]|]|]|]|]|].
    - apply (as_read no_annotations "ap" "aa:bb:cc:dd:ee:ff" (label_update "desk" 0) "ann" sample_asset
        (label_update "desk" 0) "ann" c1); vm_compute; reflexivity.
    - eapply (as_read _ "ap" "aa:bb:cc:dd:ee:ff" (label_update "door" 0) "bob" sample_asset
        (label_update "door" 0) "bob" c2); vm_compute; reflexivity.
    - apply (as_write _ [f2] f1 [] no_fault 5 d1 (scan_annotation sample_asset (written_row 5 c1))); vm_compute; reflexivity.
    - apply (as_write _ [] f2 [] no_fault 6 d2 (scan_annotation sample_asset (written_row 6 c2))); vm_compute; reflexivity.
    - eapply (as_read _ "ap" "aa:bb:cc:dd:ee:ff" (label_update "wall" 1) "ann" sample_asset
        (label_update "wall" 1) "ann" c3); vm_compute; reflexivity.
    - apply (as_write _ [] {| f_asset := sample_asset; f_base := Some (written_row 6 c2); f_current := c3 |} [] no_fault 7 d3 (scan_annotation sample_asset (written_row 7 c3))); vm_compute; reflexivity. }
  eexists. split; [exact H|]. split; [|vm_compute; reflexivity].
  exact (proj1 (proj1 (annotation_audit_trail _ H) sample_asset)).
Defined.

Definition sample_merge_db : merge_db := {|
  merge_candidates := {["c1" := {| candidate_status := "pending"; candidate_updated_at := 0 |}]};
  merge_decisions := ∅ |}.

Definition sample_response : MergeDecisionResponse := {|
  CandidateID := "c1"; Decision := MergeDecisionMerge; Accepted := true; DecidedBy := "ann"; DecidedAt := 4 |}.

Definition sample_decided : merge_db := {|
  merge_candidates := {["c1" := {| candidate_status := "approved"; candidate_updated_at := 5 |}]};
  merge_decisions := {["c1" := {| decision := MergeDecisionMerge; decided_at := 4; decided_by := "ann" |}]} |}.

Lemma merge_decisions_final_witness :
  merge_decisions sample_decided !! "c1"
  = Some {| decision := MergeDecisionMerge; decided_at := 4; decided_by := "ann" |}.
Proof.
  apply (merge_decisions_final sample_merge_db 4 5 " c1" "merge" "ann" sample_decided sample_response
    ltac:(vm_compute; reflexivity) ). apply steps_refl.
Defined.
