(* ===== verification/Entities.v ===== *)
(** * Choices of access points and devices (internal/assets/entities.go)

    The pages of choices a report control offers, ranked by pin, authorization
    and recency, and the cursor that carries every ordering component.  Text is
    compared byte-wise, as under the C collation. *)

From S2P Require Import Prelude GoErrors GoStrings GoSort QueryScope Pagination.
From Stdlib Require Import Sorted.
#[local] Open Scope go_scope.

(** ** Data *)

Record EntityChoice := {
  Kind : string;
  ID : string;
  Label : string;
  Pinned : bool;
  Role : string;
  Authorized : bool;
  LastSeen : option time;
}.

Record EntitiesResponse := { Entities : list EntityChoice; NextPageCursor : string }.

Record entityCursor := {
  CursorKind : string;
  CursorQuery : string;
  CursorID : string;
  CursorPinned : bool;
  CursorRanked : bool;
  CursorLastSeen : option time;
}.

(** Rows of ap_catalog and devices, and the columns of asset_annotations that
    the statements join. *)
Record ap_row := {
  ap_bssid : string;
  ap_authorized_label : option string;
  ap_authorized : bool;
  ap_last_observed_at : option time;
}.

Record device_row := {
  dev_mac : string;
  dev_display_name : option string;
  dev_registered : bool;
  dev_last_seen : option time;
}.

Record entity_annotation := { ea_label : option string; ea_pinned : bool; ea_role : option string }.

Record entity_store := {
  ap_catalog : list ap_row;
  devices : list device_row;
  asset_annotations : gmap (string * string) entity_annotation;
}.

(** Base64 of the cursor's JSON. *)
Class EntityCodec := {
  encode_entity_cursor : entityCursor -> string;
  parse_entity_cursor : string -> option entityCursor;
}.

(** A cursor that is encoded is read back. *)
Class EntityCodecLaws `{EntityCodec} : Prop := {
  entity_cursor_roundtrip c : parse_entity_cursor (encode_entity_cursor c) = Some c;
  entity_cursor_nonempty c : encode_entity_cursor c <> "";
}.

(** ** Rows *)

(** A selected row: the choice and whether it ranks first among the unpinned. *)
Notation entity_row := (EntityChoice * bool)%type.

Definition annotation_of (st : entity_store) (kind id : string) : option entity_annotation :=
  asset_annotations st !! (kind, id).

Definition pinned_of (a : option entity_annotation) : bool := from_option ea_pinned false a.
Definition role_of (a : option entity_annotation) : string := coalesce (a ≫= ea_role).

(** COALESCE over nullable columns. *)
Definition or_else (a b : option string) : option string := match a with Some v => Some v | None => b end.

Definition ap_choice (st : entity_store) (r : ap_row) : entity_row :=
  let annotation := annotation_of st "ap" (ap_bssid r) in
  ({| Kind := "ap"; ID := ap_bssid r;
      Label := default (ap_bssid r) (or_else (annotation ≫= ea_label) (ap_authorized_label r));
      Pinned := pinned_of annotation; Role := role_of annotation; Authorized := ap_authorized r;
      LastSeen := ap_last_observed_at r |}, ap_authorized r).

Definition device_choice (st : entity_store) (r : device_row) : entity_row :=
  let annotation := annotation_of st "device" (dev_mac r) in
  ({| Kind := "device"; ID := dev_mac r;
      Label := default (dev_mac r) (or_else (annotation ≫= ea_label) (null_if_empty (dev_display_name r)));
      Pinned := pinned_of annotation; Role := role_of annotation; Authorized := false;
      LastSeen := dev_last_seen r |}, dev_registered r).

Definition typeahead (query : string) : string := EscapeLike query +:+ "%".

Definition ap_matches (query : string) (r : ap_row) : bool :=
  is_empty query || LIKE (ap_bssid r) (typeahead query)
  || LIKE (ToLower (coalesce (ap_authorized_label r))) (typeahead query).

Definition device_matches (st : entity_store) (query : string) (r : device_row) : bool :=
  is_empty query || LIKE (dev_mac r) (typeahead query)
  || LIKE (ToLower (coalesce (dev_display_name r))) (typeahead query)
  || LIKE (ToLower (coalesce (annotation_of st "device" (dev_mac r) ≫= ea_label))) (typeahead query).

(** The rows a request of a kind selects, before its cursor and limit. *)
Definition entity_rows (st : entity_store) (kind query : string) : list entity_row :=
  if String.eqb kind "ap"
  then ap_choice st <$> List.filter (ap_matches query) (ap_catalog st)
  else device_choice st <$> List.filter (device_matches st query) (devices st).

(** ** Order and cursor *)

(** [ORDER BY pinned DESC, rank DESC, seen DESC, id ASC] *)
Definition entity_less : entity_row -> entity_row -> bool :=
  less_then (fun r => Pinned (fst r)) bool_desc (fun r => r)
    (less_then snd bool_desc (fun r => r)
      (less_then (fun r => LastSeen (fst r)) seen_desc (fun r => r)
        (less_on (fun r => ID (fst r)) str_ltb))).

(** A false-to-true comparison of booleans. *)
Definition bool_lt (a b : bool) : bool := negb a && b.

(** entityAfterSQL: the rows past the cursor. *)
Definition entityAfter (c : entityCursor) (r : entity_row) : bool :=
  let pinned := Pinned (fst r) in
  let rank := snd r in
  let seen := LastSeen (fst r) in
  bool_lt pinned (CursorPinned c)
  || (Bool.eqb pinned (CursorPinned c) && bool_lt rank (CursorRanked c))
  || (Bool.eqb pinned (CursorPinned c) && Bool.eqb rank (CursorRanked c)
      && ((bool_decide (CursorLastSeen c = None) && negb (bool_decide (seen = None)))
          || seen_lt seen (CursorLastSeen c)))
  || (Bool.eqb pinned (CursorPinned c) && Bool.eqb rank (CursorRanked c)
      && bool_decide (seen = CursorLastSeen c) && str_ltb (CursorID c) (ID (fst r))).

(** ** Requests *)

Definition entity_page_size (pageSize : Z) : Z :=
  let pageSize := if pageSize <=? 0 then 12 else pageSize in
  if 50 <? pageSize then 50 else pageSize.

Section entities.
Context {Codec : EntityCodec}.

(** The cursor of a request, which must be of the same kind and query. *)
Definition decode_entity_cursor (kind query cursor : string) : option entityCursor + app_error :=
  if is_empty cursor then inl None
  else match parse_entity_cursor cursor with
       | Some after =>
           if String.eqb (CursorKind after) kind && String.eqb (CursorQuery after) query && MacPattern (CursorID after)
           then inl (Some after) else inr (Validation "invalid entity page_cursor")
       | None => inr (Validation "invalid entity page_cursor")
       end.

(** The loop over the rows: the choices, and the cursor of the [pageSize]-th. *)
Fixpoint scan_rows (kind query : string) (pageSize : Z) (acc : list EntityChoice) (last : option entityCursor)
    (rows : list entity_row) : list EntityChoice * option entityCursor :=
  match rows with
  | [] => (acc, last)
  | (entity, ranked) :: rows =>
      let acc := acc ++ [entity] in
      let last := if Z.of_nat (length acc) =? pageSize
                  then Some {| CursorKind := kind; CursorQuery := query; CursorID := ID entity;
                               CursorPinned := Pinned entity; CursorRanked := ranked;
                               CursorLastSeen := LastSeen entity |}
                  else last in
      scan_rows kind query pageSize acc last rows
  end.

Definition empty_cursor : entityCursor := {|
  CursorKind := ""; CursorQuery := ""; CursorID := ""; CursorPinned := false; CursorRanked := false;
  CursorLastSeen := None |}.

Definition scanEntityChoices (kind query : string) (pageSize : Z) (rows : list entity_row) : EntitiesResponse :=
  let '(entities, last) := scan_rows kind query pageSize [] None rows in
  if pageSize <? Z.of_nat (length entities)
  then {| Entities := take (Z.to_nat pageSize) entities;
          NextPageCursor := encode_entity_cursor (default empty_cursor last) |}
  else {| Entities := entities; NextPageCursor := "" |}.

Definition Service_Entities (st : entity_store) (kind query cursor : string) (pageSize : Z)
    : EntitiesResponse + app_error :=
  let kind := ToLower (TrimSpace kind) in
  if negb (String.eqb kind "ap") && negb (String.eqb kind "device")
  then inr (Validation "entity kind must be ap or device")
  else
    let query := ToLower (TrimSpace query) in
    let pageSize := entity_page_size pageSize in
    let! after := decode_entity_cursor kind query cursor in
    let rows := List.filter (fun r => match after with Some c => entityAfter c r | None => true end)
                  (sort_by entity_less (entity_rows st kind query)) in
    inl (scanEntityChoices kind query pageSize (take (Z.to_nat (pageSize + 1)) rows)).

(** What a client gets for a cursor. *)
Definition entity_page_at (st : entity_store) (kind query : string) (pageSize : Z) (cursor : string)
    : option EntitiesResponse :=
  match Service_Entities st kind query cursor pageSize with inl page => Some page | inr _ => None end.
End entities.

(** ** The order and the cursor agree *)

#[export] Instance entity_less_order : WeakOrder entity_less.
Proof. unfold entity_less. apply _. Qed.

(** Rows the order does not separate have the same id. *)
Lemma entity_less_total a b : before entity_less a b -> before entity_less b a -> ID (fst a) = ID (fst b).
Proof.
  unfold before, entity_less, less_then, less_on, bool_desc, seen_desc.
  destruct (Pinned (fst a)), (Pinned (fst b)), (snd a), (snd b); simpl; try done;
    destruct (LastSeen (fst a)) as [s|], (LastSeen (fst b)) as [t|]; simpl; try done;
    try (intros; by apply str_ltb_total);
    destruct (Z.ltb_spec s t), (Z.ltb_spec t s); try done; intros; by apply str_ltb_total.
Qed.

Definition cursor_of (kind query : string) (r : entity_row) : entityCursor := {|
  CursorKind := kind; CursorQuery := query; CursorID := ID (fst r); CursorPinned := Pinned (fst r);
  CursorRanked := snd r; CursorLastSeen := LastSeen (fst r) |}.

(** The SQL condition on a cursor is the order's comparison with its row. *)
Lemma entityAfter_less kind query c r : entityAfter (cursor_of kind query c) r = entity_less c r.
Proof.
  unfold entityAfter, entity_less, less_then, less_on, bool_lt, bool_desc, seen_lt, seen_desc. simpl.
  destruct (Pinned (fst c)), (Pinned (fst r)), (snd c), (snd r); simpl; try done;
    destruct (LastSeen (fst c)) as [s|], (LastSeen (fst r)) as [t|]; simpl;
    repeat case_bool_decide; simplify_eq; rewrite ?Z.ltb_irrefl; simpl; try done;
    destruct (Z.ltb_spec s t), (Z.ltb_spec t s); try done; try lia.
  all: assert (s = t) by lia; congruence.
Qed.

(** ** Pages *)

Lemma entity_page_size_range n : 1 <= entity_page_size n <= 50.
Proof. unfold entity_page_size. destruct (Z.leb_spec n 0); split_ifs; lia. Qed.

Lemma scan_rows_spec kind query size acc last rows :
  scan_rows kind query size acc last rows
  = (acc ++ (fst <$> rows),
     if Z.of_nat (length acc) <? size
     then match rows !! Z.to_nat (size - Z.of_nat (length acc) - 1) with
          | Some r => Some (cursor_of kind query r) | None => last end
     else last).
Proof.
  revert acc last. induction rows as [|[e ranked] rows IH]; intros acc last; simpl.
  { rewrite app_nil_r. by destruct (_ <? _). }
  rewrite IH, length_app, <-app_assoc. simpl. f_equal.
  destruct (Z.eqb_spec (Z.of_nat (length acc + 1)) size) as [E|E].
  - rewrite (proj2 (Z.ltb_ge _ _)) by lia. rewrite (proj2 (Z.ltb_lt _ _)) by lia.
    by replace (size - Z.of_nat (length acc) - 1) with 0 by lia.
  - destruct (Z.ltb_spec (Z.of_nat (length acc)) size).
    + rewrite (proj2 (Z.ltb_lt _ _)) by lia.
      replace (Z.to_nat (size - Z.of_nat (length acc) - 1))
        with (S (Z.to_nat (size - Z.of_nat (length acc + 1) - 1))) by lia. done.
    + rewrite (proj2 (Z.ltb_ge _ _)) by lia. done.
Qed.

(** Ids are MAC addresses and primary keys. *)
Record catalog_ok (st : entity_store) : Prop := {
  co_aps : NoDup (ap_bssid <$> ap_catalog st);
  co_devices : NoDup (dev_mac <$> devices st);
  co_macs : Forall (fun id => MacPattern id = true) ((ap_bssid <$> ap_catalog st) ++ (dev_mac <$> devices st));
}.

Lemma NoDup_fmap_filter {A K} (key : A -> K) P l : NoDup (key <$> l) -> NoDup (key <$> List.filter P l).
Proof.
  induction l as [|x l IH]; [done|]. rewrite fmap_cons. intros [Hx Hl]%NoDup_cons. cbn [List.filter].
  destruct (P x); [|by apply IH]. rewrite fmap_cons. apply NoDup_cons. split; [|by apply IH].
  intros (y & E & Hy)%list_elem_of_fmap. apply Hx. rewrite E. apply list_elem_of_fmap_2.
  apply list_elem_of_In, List.filter_In in Hy as [Hy _]. by apply list_elem_of_In.
Qed.

Lemma entity_ids st kind query :
  catalog_ok st -> NoDup ((fun r => ID (fst r)) <$> entity_rows st kind query) /\
  Forall (fun r => MacPattern (ID (fst r)) = true) (entity_rows st kind query).
Proof.
  intros [Ha Hd Hm]. apply Forall_app in Hm as [Hma Hmd]. unfold entity_rows.
  destruct (String.eqb kind "ap"); rewrite <-list_fmap_compose; (split; [by apply NoDup_fmap_filter|]);
    apply Forall_fmap, Forall_forall; intros r Hr%list_elem_of_In; apply List.filter_In in Hr as [Hr _];
    rewrite Forall_fmap, Forall_forall in Hma; rewrite Forall_fmap, Forall_forall in Hmd.
  - by apply Hma, list_elem_of_In.
  - by apply Hmd, list_elem_of_In.
Qed.

Section paging.
Context {Codec : EntityCodec} {L : EntityCodecLaws}.
Context (st : entity_store) (kind query : string) (pageSize : Z).
Context (Hst : catalog_ok st).

Let k := ToLower (TrimSpace kind).
Let q := ToLower (TrimSpace query).
Let size := entity_page_size pageSize.
Let whole := sort_by entity_less (entity_rows st k q).

(** The cursor that stands behind the first [i] rows. *)
Definition cursor_at (i : nat) (cursor : string) : Prop :=
  match i with
  | O => cursor = ""
  | S j => exists r, whole !! j = Some r /\ cursor = encode_entity_cursor (cursor_of k q r)
  end.

Lemma decode_at i cursor :
  cursor_at i cursor ->
  exists after, decode_entity_cursor k q cursor = inl after /\
    List.filter (fun r => match after with Some c => entityAfter c r | None => true end) whole = drop i whole.
Proof.
  destruct (entity_ids st k q Hst) as [Hnd Hmac]. unfold decode_entity_cursor. destruct i as [|j]; simpl.
  - intros ->. exists None. split; [done|]. rewrite drop_0. apply List.forallb_filter_id, List.forallb_forall. done.
  - intros (r & Hr & ->).
    destruct (is_empty (encode_entity_cursor (cursor_of k q r))) eqn:Ee; [by apply is_empty_true, entity_cursor_nonempty in Ee|].
    rewrite entity_cursor_roundtrip. simpl. rewrite !String.eqb_refl.
    assert (Hin : r ∈ entity_rows st k q) by (rewrite <-(sort_by_elem entity_less); by eapply list_elem_of_lookup_2).
    rewrite Forall_forall in Hmac. rewrite (Hmac r Hin). simpl. eexists. split; [done|].
    unfold whole in Hr |- *. rewrite <-(sort_by_after entity_less _ j r (NoDup_fmap_1 _ _ Hnd)).
    + apply List.filter_ext. intros x. apply entityAfter_less.
    + intros a b Ha Hb Hab Hba. apply (NoDup_key_inj _ _ a b Hnd); [done..|]. by apply entity_less_total.
    + done.
Qed.

(** A page is the next [size] rows; its cursor stands behind them when rows remain. *)
Lemma page_at i cursor :
  (k = "ap" \/ k = "device") -> cursor_at i cursor ->
  exists page, entity_page_at st kind query pageSize cursor = Some page /\
    Entities page = fst <$> take (Z.to_nat size) (drop i whole) /\
    if rows_left whole (Z.to_nat size) i
    then NextPageCursor page <> "" /\ cursor_at (i + Z.to_nat size) (NextPageCursor page) /\
         (length (drop (i + Z.to_nat size) whole) < length (drop i whole))%nat
    else NextPageCursor page = "".
Proof.
  intros Hk Hc. destruct (decode_at i cursor Hc) as (after & Hd & Hf).
  pose proof (entity_page_size_range pageSize) as Hsz. fold size in Hsz.
  unfold entity_page_at, Service_Entities, rows_left. cbn zeta. fold k q size whole.
  assert (E : negb (String.eqb k "ap") && negb (String.eqb k "device") = false) by (destruct Hk as [E|E]; by rewrite E).
  rewrite E, Hd. cbn [sum_bind]. rewrite Hf. eexists. split; [done|].
  unfold scanEntityChoices. rewrite scan_rows_spec. cbn [app length]. change (Z.of_nat 0) with 0.
  rewrite (proj2 (Z.ltb_lt 0 size)) by lia. rewrite length_fmap, length_take.
  destruct (Nat.ltb_spec (Z.to_nat size) (length (drop i whole))) as [Hm|Hm].
  - assert (Hlt : size < Z.of_nat (Z.to_nat (size + 1) `min` length (drop i whole))) by lia.
    apply Z.ltb_lt in Hlt. rewrite Hlt. simpl. rewrite <-fmap_take, take_take, Nat.min_l by lia.
    split; [done|]. split; [apply entity_cursor_nonempty|]. split; [|rewrite !length_drop in *; lia].
    rewrite Z.sub_0_r, lookup_take_lt by lia. rewrite lookup_drop.
    destruct (whole !! (i + Z.to_nat (size - 1))%nat) as [r|] eqn:Er.
    + replace (i + Z.to_nat size)%nat with (S (i + Z.to_nat (size - 1))) by lia. exists r. done.
    + apply lookup_ge_None in Er. rewrite length_drop in Hm. lia.
  - assert (Hge : Z.of_nat (Z.to_nat (size + 1) `min` length (drop i whole)) <= size) by lia.
    apply Z.ltb_ge in Hge. rewrite Hge. simpl. split; [|done]. rewrite !take_ge by lia. done.
Qed.

(** Typeahead pages cover the catalog.  A client that follows the cursors of
    a kind and query from the first page stops after at most one page per row
    and has every matching row exactly once, ranked by pin, then authorization
    or registration, then recency with unseen rows first, then id; every page
    is within the page size, which is between 1 and 50. *)
Theorem entity_pages_cover :
  ToLower (TrimSpace kind) = "ap" \/ ToLower (TrimSpace kind) = "device" ->
  let rows := entity_rows st (ToLower (TrimSpace kind)) (ToLower (TrimSpace query)) in
  exists pages ranked, 
    follow NextPageCursor (entity_page_at st kind query pageSize) (S (length rows)) "" = Some pages /\
    ranked ≡ₚ rows /\ StronglySorted (before entity_less) ranked /\
    (pages ≫= Entities) = fst <$> ranked /\
    Forall (fun page => Z.of_nat (length (Entities page)) <= entity_page_size pageSize <= 50) pages.
Proof.
  intros Hk rows.
  destruct (follow_trail NextPageCursor (entity_page_at st kind query pageSize) cursor_at
    (rows_left whole (Z.to_nat size)) (fun i => (i + Z.to_nat size)%nat) (fun i => length (drop i whole))
    (fun i page => Entities page = fst <$> take (Z.to_nat size) (drop i whole))
    (fun i cursor => page_at i cursor Hk) (S (length rows)) 0%nat "" eq_refl) as (pages & Hp & Ht).
  { rewrite drop_0. unfold whole. rewrite sort_by_length. unfold rows, k, q. lia. }
  apply trail_items in Ht as [He Hl]. rewrite drop_0 in He.
  exists pages, whole. split; [exact Hp|]. split; [apply sort_by_perm|]. split; [apply sort_by_sorted, _|].
  split; [exact He|]. eapply Forall_impl; [exact Hl|]. simpl.
  pose proof (entity_page_size_range pageSize) as Hsz. fold size in Hsz |- *. intros page ?. lia.
Qed.
End paging.

(** ** Witness *)

#[export] Instance entityCursor_eq_dec : EqDecision entityCursor.
Proof. solve_decision. Defined.

#[export] Instance entityCursor_countable : Countable entityCursor.
Proof.
  refine (inj_countable' (fun c => (CursorKind c, CursorQuery c, CursorID c, CursorPinned c, CursorRanked c, CursorLastSeen c))
    (fun '(k, q, i, p, r, l) => {| CursorKind := k; CursorQuery := q; CursorID := i; CursorPinned := p;
                                   CursorRanked := r; CursorLastSeen := l |}) _).
  by intros [].
Defined.

Definition sample_codec : EntityCodec := {| encode_entity_cursor := text_of; parse_entity_cursor := of_text |}.

Lemma sample_codec_laws : EntityCodecLaws (H := sample_codec).
Proof. split; [apply of_text_text_of|apply text_of_nonempty]. Qed.

Definition sample_device (mac : string) (registered : bool) (seen : option time) : device_row :=
  {| dev_mac := mac; dev_display_name := Some ""; dev_registered := registered; dev_last_seen := seen |}.

Definition sample_store : entity_store := {|
  ap_catalog := [];
  devices := [sample_device "aa:bb:cc:dd:ee:01" false (Some 9); sample_device "aa:bb:cc:dd:ee:02" true (Some 3);
              sample_device "aa:bb:cc:dd:ee:03" false None; sample_device "aa:bb:cc:dd:ee:04" false (Some 1)];
  asset_annotations := {[("device", "aa:bb:cc:dd:ee:04") := {| ea_label := Some "Desk"; ea_pinned := true; ea_role := None |}]} |}.

Lemma entity_pages_cover_witness :
  catalog_ok sample_store /\
  exists pages, follow NextPageCursor (entity_page_at (Codec := sample_codec) sample_store " Device" "" 1) 5 "" = Some pages /\
    length (pages ≫= Entities) = 4%nat.
Proof.
  assert (Hst : catalog_ok sample_store).
  { split; [constructor| |].
    - apply (bool_decide_eq_true_1 (NoDup _)). vm_compute. reflexivity.
    - repeat constructor. }
  split; [exact Hst|].
  destruct (entity_pages_cover (Codec := sample_codec) (L := sample_codec_laws) sample_store " Device" "" 1 Hst
    ltac:(right; reflexivity)) as (pages & ranked & Hp & Hperm & _ & He & _).
  exists pages. split; [exact Hp|]. rewrite He, length_fmap. exact (Permutation_length Hperm).
Defined.
