(* ===== verification/Auth.v ===== *)
(** * Authentication and authorization (internal/auth)

    Bearer tokens: a shared static token known by its SHA-256 digest, or
    Keycloak access tokens signed with RS256 by a key of the issuer's JWKS,
    which [jwtVerifier] caches.  JSON decoding is the class [JWTJSON]; base64,
    hex, SHA-256 and RSA signature verification are executable. *)

From S2P Require Import Prelude GoErrors GoStrings GoCrypto GoStrconv.
#[local] Open Scope go_scope.

(** ** Encodings of the standard library *)

(** A digit of the URL alphabet of base64. *)
Definition sextet (c : ascii) : option Z :=
  if is_upper c then Some (code c - 65)
  else if is_lower c then Some (code c - 71)
  else if is_digit c then Some (code c + 4)
  else if code c =? 45 then Some 62
  else if code c =? 95 then Some 63
  else None.

Fixpoint sextet_bytes (l : list Z) : option (list Z) :=
  match l with
  | [] => Some []
  | a :: b :: c :: d :: l =>
      match sextet_bytes l with
      | Some r => Some (a * 4 + b / 16 :: b mod 16 * 16 + c / 4 :: c mod 4 * 64 + d :: r)
      | None => None
      end
  | [a; b; c] => Some [a * 4 + b / 16; b mod 16 * 16 + c / 4]
  | [a; b] => Some [a * 4 + b / 16]
  | [_] => None
  end.

Fixpoint all_some {A} (l : list (option A)) : option (list A) :=
  match l with
  | [] => Some []
  | Some a :: l => match all_some l with Some r => Some (a :: r) | None => None end
  | None :: _ => None
  end.

(** base64.RawURLEncoding.DecodeString: line breaks are skipped. *)
Definition base64url_decode (s : string) : option (list Z) :=
  match all_some (sextet <$> List.filter (fun c => negb (in_set (String (ascii_of_nat 10) (String (ascii_of_nat 13) "")) c)) (bytes s)) with
  | Some l => sextet_bytes l
  | None => None
  end.

(** ** RSA (crypto/rsa) *)

Record PublicKey := { modulus : Z; exponent : Z }.

(** [b] to the power [e] modulo [n]. *)
Definition pow_mod (b e n : Z) : Z :=
  match e with
  | Z.pos p => Pos.iter_op (fun x y => x * y mod n) p (b mod n)
  | _ => 1 mod n
  end.

Definition bit_length (n : Z) : Z := if n <=? 0 then 0 else Z.log2 n + 1.
Definition key_size (k : PublicKey) : Z := (bit_length (modulus k) + 7) / 8.

(** The DER prefix of a SHA-256 DigestInfo. *)
Definition sha256_prefix : list Z :=
  [48; 49; 48; 13; 6; 9; 96; 134; 72; 1; 101; 3; 4; 2; 1; 5; 0; 4; 32].

(** rsa.VerifyPKCS1v15 with SHA-256: the size of the key, then RFC 8017 8.2.2. *)
Definition VerifyPKCS1v15 (k : PublicKey) (digest sig : list Z) : bool :=
  let t := sha256_prefix ++ digest in
  let size := key_size k in
  let s := be_word sig in
  (1024 <=? bit_length (modulus k)) && Z.odd (modulus k)
  && (2 <=? exponent k) && Z.odd (exponent k) && (exponent k <=? 2 ^ 31 - 1)
  && (Z.of_nat (length sig) =? size) && (s <? modulus k)
  && (Z.of_nat (length t) + 11 <=? size)
  && bool_decide (be_bytes (Z.to_nat size) (pow_mod s (exponent k) (modulus k))
       = [0; 1] ++ replicate (Z.to_nat (size - Z.of_nat (length t) - 3)) 255 ++ [0] ++ t).

(** ** Data *)

Definition RoleViewer := "viewer".
Definition RoleOperator := "operator".
Definition RoleAdmin := "admin".

Inductive Decision := DecisionUnauthorized | DecisionForbidden | DecisionAuthorized.
Inductive IdentityKind := IdentityJWT | IdentityStatic | IdentityDisabled.

Record Identity := { Kind : IdentityKind; Subject : string; Display : string }.

Definition no_identity : Identity := {| Kind := IdentityDisabled; Subject := ""; Display := "" |}.

Record JWTConfig := { Issuer : string; JWKSURI : string; Audience : string; ClientID : string }.

Definition refreshCooldown : duration := 30 * Second.
Definition maxMissingKeys := 1024.

(** The state of a jwtVerifier that its locks protect. *)
Record jwtVerifier := {
  keys : gmap string PublicKey;
  missingKeys : gmap string time;
  expiry : time;
  lastRefresh : time;
}.

Record jwtHeader := { Algorithm : string; KeyID : string }.

Record jwtClaims := {
  ClaimIssuer : string;
  ClaimAudience : string;              (* json.RawMessage *)
  ExpiresAt : string;                  (* json.Number *)
  NotBefore : string;
  ClaimSubject : string;
  PreferredUsername : string;
  ResourceAccess : gmap string (list string);
}.

Record jwk := { KeyType : string; Use : string; JwkID : string; Modulus : string; Exponent : string }.

(** encoding/json on the documents of a token and of the key endpoint. *)
Class JWTJSON := {
  decode_header : list Z -> option jwtHeader;
  decode_claims : list Z -> option jwtClaims;
  decode_jwks : string -> option (list jwk);
  decode_string : string -> option string;
  decode_strings : string -> option (list string);
}.

(** ** Construction *)

Record TokenAuth := { expectedDigest : list Z; jwt : option JWTConfig }.

Definition NewTokenAuth (hexDigest : string) : TokenAuth + error :=
  let hexDigest := TrimSpace (ToLower hexDigest) in
  if is_empty hexDigest then inl {| expectedDigest := []; jwt := None |}
  else match hex_decode (bytes hexDigest) with
       | None => inr (Opaque "encoding/hex: invalid byte or odd length hex string")
       | Some digest =>
           if negb (Z.of_nat (length digest) =? 32)
           then inr (Opaque ("token digest must decode to 32 bytes, got " +:+ Itoa (Z.of_nat (length digest))))
           else inl {| expectedDigest := digest; jwt := None |}
       end.

Definition new_verifier : jwtVerifier :=
  {| keys := ∅; missingKeys := ∅; expiry := time_zero; lastRefresh := time_zero |}.

Definition NewJWTTokenAuth (config : JWTConfig) : (TokenAuth * jwtVerifier) + error :=
  let config := {| Issuer := TrimRight (TrimSpace (Issuer config)) "/"; JWKSURI := TrimSpace (JWKSURI config);
                   Audience := TrimSpace (Audience config); ClientID := TrimSpace (ClientID config) |} in
  if is_empty (Issuer config) || is_empty (JWKSURI config) || is_empty (Audience config)
     || is_empty (ClientID config)
  then inr (Opaque "JWT issuer, JWKS URI, audience and client ID are required")
  else inl ({| expectedDigest := []; jwt := Some config |}, new_verifier).

Definition Enabled (a : TokenAuth) : bool :=
  negb (bool_decide (expectedDigest a = [])) || bool_decide (is_Some (jwt a)).

Definition bearerToken (header : string) : string * bool :=
  let prefix := "bearer " in
  let header := TrimSpace header in
  if (len header <? len prefix) || negb (String.eqb (ToLower (String.substring 0 7 header)) prefix)
  then ("", false)
  else let token := TrimSpace (String.substring 7 (String.length header) header) in
       (token, negb (is_empty token)).

(** ** The key cache *)

Definition rsaKey (value : jwk) : PublicKey + error :=
  match base64url_decode (Modulus value) with
  | None | Some [] => inr (Opaque "invalid RSA modulus")
  | Some m =>
      match base64url_decode (Exponent value) with
      | None | Some [] => inr (Opaque "invalid RSA exponent")
      | Some e =>
          if (4 <? Z.of_nat (length e)) || (be_word e <? 3) then inr (Opaque "invalid RSA exponent")
          else inl {| modulus := be_word m; exponent := be_word e |}
      end
  end.

(** The signing keys of a JWKS document; a later entry replaces an earlier one. *)
Definition add_key (m : gmap string PublicKey) (candidate : jwk) : gmap string PublicKey :=
  if negb (String.eqb (KeyType candidate) "RSA") || is_empty (JwkID candidate)
     || negb (is_empty (Use candidate)) && negb (String.eqb (Use candidate) "sig")
  then m
  else match rsaKey candidate with inl key => <[JwkID candidate := key]> m | inr _ => m end.

Definition jwks_keys (document : list jwk) : gmap string PublicKey := fold_left add_key document ∅.

(** What the key endpoint answered. *)
Inductive jwks_response := FetchFailed (err : error) | HTTPResponse (status : Z) (body : string).

Definition set_missing (v : jwtVerifier) (m : gmap string time) : jwtVerifier :=
  {| keys := keys v; missingKeys := m; expiry := expiry v; lastRefresh := lastRefresh v |}.

(** The loop of recordMissingKey over the map in the order of [entries]:
    expired entries go, the oldest of the rest is remembered. *)
Definition scan_missing (now : time) (st : gmap string time * (string * time)) (e : string * time)
    : gmap string time * (string * time) :=
  let '(m, (oldestID, oldest)) := st in
  let '(id, recordedAt) := e in
  if refreshCooldown <=? now - recordedAt then (delete id m, (oldestID, oldest))
  else if is_empty oldestID || (recordedAt <? oldest) then (m, (id, recordedAt))
  else (m, (oldestID, oldest)).

(** [order] is the iteration order of the map. *)
Definition recordMissingKey (now : time) (order : list (string * time) -> list (string * time))
    (v : jwtVerifier) (keyID : string) : jwtVerifier :=
  let '(m, (oldestID, _)) :=
    fold_left (scan_missing now) (order (map_to_list (missingKeys v))) (missingKeys v, ("", time_zero)) in
  let m := if maxMissingKeys <=? Z.of_nat (size m) then delete oldestID m else m in
  set_missing v (<[keyID := now]> m).

Section verifier.
Context {J : JWTJSON}.

(** refresh, under its lock: [t1] is the clock of the cooldown check, [t2] and
    [t3] the clocks read while publishing. *)
Definition refresh (t1 t2 t3 : time) (resp : jwks_response) (v : jwtVerifier) : jwtVerifier + error :=
  if t1 - lastRefresh v <? refreshCooldown then inl v
  else match resp with
       | FetchFailed err => inr (Wrapf ("fetch JWKS: " +:+ Error err) err)
       | HTTPResponse status body =>
           if negb (status =? 200)
           then inr (Opaque ("fetch JWKS: unexpected status " +:+ Itoa status))
           else match decode_jwks (String.substring 0 (Z.to_nat (2 ^ 20)) body) with
                | None => inr (Opaque "decode JWKS")
                | Some document =>
                    let keys := jwks_keys document in
                    if bool_decide (keys = ∅)
                    then inr (Opaque "JWKS contains no usable RSA signing keys")
                    else inl {| keys := keys; missingKeys := missingKeys v;
                                expiry := t2 + 5 * Minute; lastRefresh := t3 |}
                end
       end.

Definition unknown_key : error := Opaque "JWT key ID is unknown".

(** The clocks, the answer of the endpoint and the map order a lookup meets;
    [others] is what other requests do while it waits for the refresh lock. *)
Record lookup_world := {
  w_now : time;
  w_order : list (string * time) -> list (string * time);
  w_others : jwtVerifier -> jwtVerifier;
  w_t1 : time;
  w_t2 : time;
  w_t3 : time;
  w_resp : jwks_response;
}.

Definition key (w : lookup_world) (v : jwtVerifier) (keyID : string) : jwtVerifier * (PublicKey + error) :=
  let now := w_now w in
  let fresh := now <? expiry v in
  let coolingDown := now - lastRefresh v <? refreshCooldown in
  match keys v !! keyID with
  | Some k =>
      if fresh then (v, inl k)
      else if coolingDown then (v, inl k)
      else match refresh (w_t1 w) (w_t2 w) (w_t3 w) (w_resp w) (w_others w v) with
           | inr err => (w_others w v, inr err)
           | inl v => match keys v !! keyID with
                      | Some k => (v, inl k)
                      | None => (recordMissingKey now (w_order w) v keyID, inr unknown_key)
                      end
           end
  | None =>
      if match missingKeys v !! keyID with
         | Some lastMissing => now - lastMissing <? refreshCooldown
         | None => false
         end
      then (v, inr unknown_key)
      else if coolingDown then (recordMissingKey now (w_order w) v keyID, inr unknown_key)
      else match refresh (w_t1 w) (w_t2 w) (w_t3 w) (w_resp w) (w_others w v) with
           | inr err => (w_others w v, inr err)
           | inl v => match keys v !! keyID with
                      | Some k => (v, inl k)
                      | None => (recordMissingKey now (w_order w) v keyID, inr unknown_key)
                      end
           end
  end.

(** ** Verification *)

(** time.Unix: seconds since 1970 as an instant since Go's zero time. *)
Definition time_of_unix (seconds : Z) : time := wrap64 (seconds + 62135596800) * Second.

Definition numberTime (value : string) : option time := time_of_unix <$> ParseInt64 value.

Definition audienceContains (raw expected : string) : bool :=
  match decode_string raw with
  | Some single => String.eqb single expected
  | None => match decode_strings raw with
            | Some multiple => existsb (fun a => String.eqb a expected) multiple
            | None => false
            end
  end.

(** The claims are those of a token this client accepts at the times the two
    clock readings give. *)
Definition check_claims (config : JWTConfig) (now1 now2 : time) (claims : jwtClaims) : option error :=
  if negb (String.eqb (TrimRight (ClaimIssuer claims) "/") (Issuer config))
  then Some (Opaque "wrong JWT issuer")
  else if match numberTime (ExpiresAt claims) with Some e => negb (now1 <? e) | None => true end
  then Some (Opaque "expired JWT")
  else if negb (is_empty (NotBefore claims))
          && match numberTime (NotBefore claims) with Some nb => now2 <? nb | None => true end
  then Some (Opaque "JWT is not active")
  else if negb (audienceContains (ClaimAudience claims) (Audience config))
  then Some (Opaque "wrong JWT audience")
  else None.

Definition claims_identity (claims : jwtClaims) : Identity :=
  let display := TrimSpace (PreferredUsername claims) in
  {| Kind := IdentityJWT; Subject := TrimSpace (ClaimSubject claims);
     Display := if is_empty display then TrimSpace (ClaimSubject claims) else display |}.

(** The roles of a verified token are those of this client. *)
Definition claims_roles (config : JWTConfig) (claims : jwtClaims) : list string :=
  default [] (ResourceAccess claims !! ClientID config).

Definition verify (config : JWTConfig) (w : lookup_world) (now1 now2 : time) (v : jwtVerifier) (raw : string)
    : jwtVerifier * ((list string * Identity) + error) :=
  match Split raw "."%char with
  | [p0; p1; p2] =>
      match base64url_decode p0 with
      | None => (v, inr (Opaque "invalid JWT header"))
      | Some headerBytes =>
          match decode_header headerBytes with
          | None => (v, inr (Opaque "JWT must use RS256 with a key ID"))
          | Some header =>
              if negb (String.eqb (Algorithm header) "RS256") || is_empty (KeyID header)
              then (v, inr (Opaque "JWT must use RS256 with a key ID"))
              else
                let '(v, k) := key w v (KeyID header) in
                (v, let! k := k in
                    match base64url_decode p2 with
                    | None => inr (Opaque "invalid JWT signature encoding")
                    | Some signature =>
                        if negb (VerifyPKCS1v15 k (sha256 (byte_values (p0 +:+ "." +:+ p1))) signature)
                        then inr (Opaque "invalid JWT signature")
                        else match base64url_decode p1 with
                             | None => inr (Opaque "invalid JWT claims")
                             | Some payload =>
                                 match decode_claims payload with
                                 | None => inr (Opaque "invalid JWT claims")
                                 | Some claims =>
                                     match check_claims config now1 now2 claims with
                                     | Some err => inr err
                                     | None => inl (claims_roles config claims, claims_identity claims)
                                     end
                                 end
                             end
                    end)
          end
      end
  | _ => (v, inr (Opaque "JWT must contain three segments"))
  end.

(** subtle.ConstantTimeCompare(..) == 1 *)
Definition same_bytes (a b : list Z) : bool := bool_decide (a = b).

Definition AuthorizeIdentity (a : TokenAuth) (w : lookup_world) (now1 now2 : time) (v : jwtVerifier)
    (header : string) (allowedRoles : list string) : jwtVerifier * (Decision * Identity) :=
  if negb (Enabled a) then (v, (DecisionAuthorized, no_identity))
  else
    let '(token, ok) := bearerToken header in
    if negb ok then (v, (DecisionUnauthorized, no_identity))
    else if 0 <? Z.of_nat (length (expectedDigest a)) then
      if same_bytes (sha256 (byte_values token)) (expectedDigest a)
      then (v, (DecisionAuthorized, {| Kind := IdentityStatic; Subject := ""; Display := "static-token" |}))
      else (v, (DecisionUnauthorized, no_identity))
    else match jwt a with
         | None => (v, (DecisionUnauthorized, no_identity))   (* not reached: Enabled *)
         | Some config =>
             let '(v, res) := verify config w now1 now2 v token in
             match res with
             | inr _ => (v, (DecisionUnauthorized, no_identity))
             | inl (roles, identity) =>
                 match allowedRoles with
                 | [] => (v, (DecisionAuthorized, identity))
                 | _ => if existsb (fun allowed => existsb (String.eqb allowed) roles) allowedRoles
                        then (v, (DecisionAuthorized, identity))
                        else (v, (DecisionForbidden, no_identity))
                 end
             end
         end.

Definition AuthorizeWithSubject (a : TokenAuth) (w : lookup_world) (now1 now2 : time) (v : jwtVerifier)
    (header : string) (allowedRoles : list string) : jwtVerifier * (Decision * string) :=
  let '(v, (decision, identity)) := AuthorizeIdentity a w now1 now2 v header allowedRoles in
  (v, (decision, Display identity)).

Definition VerifyAuthorization (a : TokenAuth) (w : lookup_world) (now1 now2 : time) (v : jwtVerifier)
    (header : string) : jwtVerifier * bool :=
  let '(v, (decision, _)) :=
    AuthorizeIdentity a w now1 now2 v header [RoleViewer; RoleOperator; RoleAdmin] in
  (v, match decision with DecisionAuthorized => true | _ => false end).
End verifier.

(** transport/httpapi/savedviews.go savedViewsOwner: the subject that owns
    saved views. *)
Definition savedViewsOwner (identity : Identity) : string :=
  match Kind identity with IdentityJWT => TrimSpace (Subject identity) | _ => "" end.

(** ** Authorization *)

Section authorization.
Context {J : JWTJSON}.

(** [token] is three segments whose header names RS256 and the key [kid], whose
    signature over the first two segments [k] verifies, and whose payload is
    [claims]. *)
Definition signed_token (token kid : string) (k : PublicKey) (claims : jwtClaims) : Prop :=
  exists p0 p1 p2 headerBytes signature payload,
    Split token "."%char = [p0; p1; p2] /\
    base64url_decode p0 = Some headerBytes /\
    decode_header headerBytes = Some {| Algorithm := "RS256"; KeyID := kid |} /\ kid <> "" /\
    base64url_decode p2 = Some signature /\
    VerifyPKCS1v15 k (sha256 (byte_values (p0 +:+ "." +:+ p1))) signature = true /\
    base64url_decode p1 = Some payload /\ decode_claims payload = Some claims.

(** [expected] is the one audience, or one of the list, that [raw] encodes. *)
Definition names_audience (raw expected : string) : Prop :=
  decode_string raw = Some expected \/
  exists l, decode_string raw = None /\ decode_strings raw = Some l /\ expected ∈ l.

(** From the issuer up to trailing slashes, not expired at the first reading of
    the clock, active at the second, and for this audience. *)
Definition valid_claims (config : JWTConfig) (now1 now2 : time) (claims : jwtClaims) : Prop :=
  TrimRight (ClaimIssuer claims) "/" = Issuer config /\
  (exists t, numberTime (ExpiresAt claims) = Some t /\ now1 < t) /\
  (NotBefore claims = "" \/ exists t, numberTime (NotBefore claims) = Some t /\ t <= now2) /\
  names_audience (ClaimAudience claims) (Audience config).

Lemma audienceContains_spec raw expected :
  audienceContains raw expected = true <-> names_audience raw expected.
Proof.
  unfold audienceContains, names_audience. destruct (decode_string raw) as [a|]; [|destruct (decode_strings raw) as [l|]].
  - rewrite String.eqb_eq. naive_solver.
  - rewrite existsb_exists. split.
    + intros (a & Ha & ->%String.eqb_eq). right. exists l. by rewrite list_elem_of_In.
    + intros [?|(l' & _ & [= ->] & Hl)]; [done|]. exists expected.
      rewrite <-list_elem_of_In, String.eqb_eq. done.
  - naive_solver.
Qed.

Lemma check_claims_spec config now1 now2 claims :
  check_claims config now1 now2 claims = None <-> valid_claims config now1 now2 claims.
Proof.
  unfold check_claims, valid_claims. rewrite <-audienceContains_spec, <-String.eqb_eq.
  destruct (String.eqb _ (Issuer config)); simpl; [|naive_solver].
  destruct (numberTime (ExpiresAt claims)) as [t|]; simpl; [|naive_solver].
  destruct (Z.ltb_spec now1 t); simpl; [|split; [done|intros (_ & (t' & [= <-] & ?) & _); lia]].
  destruct (is_empty (NotBefore claims)) eqn:En; simpl.
  - apply is_empty_true in En. destruct (audienceContains _ _); naive_solver.
  - assert (NotBefore claims <> "") by (intros E; by rewrite E in En).
    destruct (numberTime (NotBefore claims)) as [b|]; [|naive_solver].
    destruct (Z.ltb_spec now2 b); simpl.
    + split; [done|]. intros (_ & _ & [?|(b' & [= <-] & ?)] & _); [done|lia].
    + destruct (audienceContains _ _); simpl; [|naive_solver]. split; [|done]. intros _. split_and!; eauto.
Qed.

Lemma verify_inl config w now1 now2 v token v' roles identity :
  verify config w now1 now2 v token = (v', inl (roles, identity)) <->
  exists kid k claims, key w v kid = (v', inl k) /\ signed_token token kid k claims /\
    valid_claims config now1 now2 claims /\
    roles = claims_roles config claims /\ identity = claims_identity claims.
Proof.
  unfold verify, signed_token. setoid_rewrite <-check_claims_spec. split.
  - destruct (Split token "."%char) as [|p0 [|p1 [|p2 []]]]; try done.
    destruct (base64url_decode p0) as [hb|] eqn:E0; [|done].
    destruct (decode_header hb) as [[alg kid]|] eqn:Eh; [|done].
    destruct (_ || _) eqn:Ea; [done|]. apply orb_false_iff in Ea as [Ea Ek]. simpl in Ea, Ek.
    apply negb_false_iff, String.eqb_eq in Ea as ->. simpl.
    destruct (key w v kid) as [v1 [k|err]] eqn:Ekey; [|done]. simpl.
    destruct (base64url_decode p2) as [sg|] eqn:E2; [|done].
    destruct (VerifyPKCS1v15 k _ sg) eqn:Ev; [|done]. simpl.
    destruct (base64url_decode p1) as [pl|] eqn:E1; [|done].
    destruct (decode_claims pl) as [claims|] eqn:Ec; [|done].
    destruct (check_claims config now1 now2 claims) eqn:Eq; [done|]. intros [= <- <- <-].
    exists kid, k, claims. split; [done|]. split; [|done].
    exists p0, p1, p2, hb, sg, pl. split_and!; try done. intros ->. done.
  - intros (kid & k & claims & Hk & (p0 & p1 & p2 & hb & sg & pl & -> & -> & -> & Hne & -> & Hv & -> & ->) & Hc & -> & ->).
    simpl. destruct (is_empty kid) eqn:Ee; [by apply is_empty_true in Ee|].
    rewrite Hk. simpl. by rewrite Hv, Hc.
Qed.

Lemma roles_match allowed roles :
  existsb (fun a => existsb (String.eqb a) roles) allowed = true <->
  exists role, role ∈ allowed /\ role ∈ roles.
Proof.
  rewrite existsb_exists. setoid_rewrite existsb_exists. split.
  - intros (a & Ha & b & Hb & ->%String.eqb_eq). exists b. by rewrite !list_elem_of_In.
  - intros (r & Ha & Hr). exists r. rewrite <-list_elem_of_In. split; [done|].
    exists r. rewrite <-list_elem_of_In. split; [done|apply String.eqb_refl].
Qed.

(** A token this deployment accepts from its issuer, and its claims. *)
Definition accepted (config : JWTConfig) (w : lookup_world) (now1 now2 : time) (v v' : jwtVerifier)
    (token : string) (claims : jwtClaims) : Prop :=
  exists kid k, key w v kid = (v', inl k) /\ signed_token token kid k claims /\
    valid_claims config now1 now2 claims.

(** C30. Who is authorized.  With an access-token configuration a request is
    authorized exactly when its bearer token is signed with RS256 by a key of
    the issuer's JWKS, comes from the issuer for this audience, is active and not
    expired, and carries one of the allowed roles of this client; its identity is
    then that of the claims.  It is forbidden exactly when only the role is
    missing, and everything else is unauthorized, without an identity. *)
Theorem jwt_authorization config w now1 now2 v header allowed v' d identity :
  AuthorizeIdentity {| expectedDigest := []; jwt := Some config |} w now1 now2 v header allowed
  = (v', (d, identity)) ->
  let token := fst (bearerToken header) in
  let permitted claims := allowed = [] \/ exists role, role ∈ allowed /\ role ∈ claims_roles config claims in
  (d = DecisionAuthorized <-> snd (bearerToken header) = true /\
     exists claims, accepted config w now1 now2 v v' token claims /\ permitted claims /\
       identity = claims_identity claims) /\
  (d = DecisionForbidden <-> snd (bearerToken header) = true /\ identity = no_identity /\
     exists claims, accepted config w now1 now2 v v' token claims /\ ~ permitted claims) /\
  (d <> DecisionAuthorized -> identity = no_identity).
Proof.
  unfold AuthorizeIdentity. simpl. destruct (bearerToken header) as [token [|]] eqn:Eb; simpl.
  2: { intros [= <- <- <-]. naive_solver. }
  destruct (verify config w now1 now2 v token) as [v1 [[roles idn]|err]] eqn:Ev.
  - apply verify_inl in Ev as (kid & k & claims & Hk & Hs & Hc & -> & ->).
    assert (Hu : forall claims' v2, accepted config w now1 now2 v v2 token claims' -> claims' = claims).
    { intros c v2 (kid' & k' & _ & Hs' & _). destruct Hs as (a0 & a1 & a2 & hb & sg & pl & ? & ? & ? & _ & ? & _ & ? & ?).
      destruct Hs' as (b0 & b1 & b2 & hb' & sg' & pl' & ? & ? & ? & _ & ? & _ & ? & ?). congruence. }
    assert (Ha : accepted config w now1 now2 v v1 token claims) by (by exists kid, k).
    pose proof (roles_match allowed (claims_roles config claims)) as Hr.
    destruct allowed as [|a allowed].
    + intros [= <- <- <-]. split_and!; [|split; [done|]|done].
      * split; [|done]. intros _. split; [done|]. exists claims. auto.
      * intros (_ & _ & c & _ & Hn). destruct Hn. by left.
    + destruct (existsb _ (a :: allowed)) eqn:Ee; intros [= <- <- <-].
      * apply proj1 in Hr. specialize (Hr eq_refl). split_and!; [|split; [done|]|done].
        -- split; [|done]. intros _. split; [done|]. exists claims. auto.
        -- intros (_ & _ & c & Hacc & Hn). destruct Hn. right. by rewrite (Hu c v1).
      * split_and!; [split; [done|]|split; [intros _|done]|done].
        -- intros (_ & c & Hacc & [?|Hp] & _); [done|]. rewrite (Hu c v1) in Hp by done.
           by apply Hr in Hp.
        -- split_and!; [done|done|]. exists claims. split; [done|]. intros [?|Hp]; [done|]. by apply Hr in Hp.
  - intros [= <- <- <-].
    assert (Hn : forall c, ~ accepted config w now1 now2 v v1 token c).
    { intros c (kid & k & Hk & Hs & Hc).
      assert (E : verify config w now1 now2 v token = (v1, inl (claims_roles config c, claims_identity c)))
        by (apply verify_inl; exists kid, k, c; done).
      congruence. }
    split_and!; [split; [done|]|split; [done|]|done]; naive_solver.
Qed.
End authorization.

(** ** The key cache *)

(** While entries remain to be scanned: the remembered id is a scanned entry
    still in the map, or nothing has been remembered and every entry of the map
    is still to come. *)
Definition scan_ok (l : list (string * time)) (m : gmap string time) (oldestID : string) : Prop :=
  (is_Some (m !! oldestID) /\ oldestID ∉ fst <$> l) \/
  (oldestID = "" /\ forall id, is_Some (m !! id) -> id ∈ fst <$> l).

Lemma scan_missing_ok now l m oldestID oldest :
  NoDup (fst <$> l) -> (forall e, e ∈ l -> m !! fst e = Some (snd e)) -> scan_ok l m oldestID ->
  let '(m', (oldestID', _)) := fold_left (scan_missing now) l (m, (oldestID, oldest)) in
  m' ⊆ m /\ scan_ok [] m' oldestID'.
Proof.
  revert m oldestID oldest. induction l as [|[id t] l IH]; intros m oldestID oldest Hnd Hl Hok; [done|].
  rewrite fmap_cons in Hnd. apply NoDup_cons in Hnd as [Hn Hnd].
  assert (Hid : m !! id = Some t) by apply (Hl (id, t) (list_elem_of_here _ _)).
  cbn [fold_left scan_missing]. destruct (refreshCooldown <=? now - t).
  - specialize (IH (delete id m) oldestID oldest Hnd).
    destruct (fold_left (scan_missing now) l (delete id m, (oldestID, oldest))) as [m' [o' t']].
    destruct IH as [Hsub Hok'].
    + intros e He. rewrite lookup_delete_ne; [by apply Hl; right|]. intros E. apply Hn.
      apply list_elem_of_fmap. by exists e.
    + destruct Hok as [[Hs Hni]|[-> Hall]].
      * rewrite fmap_cons, not_elem_of_cons in Hni. destruct Hni as [Hne Hni]. left.
        by rewrite lookup_delete_ne.
      * right. split; [done|]. intros k [x Hx]. apply lookup_delete_Some in Hx as [Hne Hx].
        assert (Hk : k ∈ fst <$> (id, t) :: l) by (apply Hall; eauto).
        rewrite fmap_cons in Hk. by apply elem_of_cons in Hk as [?|?].
    + split; [|done]. etrans; [exact Hsub|apply delete_subseteq].
  - destruct (is_empty oldestID || (t <? oldest)) eqn:Ee.
    + specialize (IH m id t Hnd). destruct (fold_left (scan_missing now) l (m, (id, t))) as [m' [o' t']].
      apply IH; [intros e He; by apply Hl; right|]. left. rewrite Hid. split; [eauto|done].
    + specialize (IH m oldestID oldest Hnd).
      destruct (fold_left (scan_missing now) l (m, (oldestID, oldest))) as [m' [o' t']].
      apply IH; [intros e He; by apply Hl; right|]. destruct Hok as [[Hs Hni]|[-> _]]; [|done].
      rewrite fmap_cons, not_elem_of_cons in Hni. left. tauto.
Qed.

(** Recording an unknown key keeps the bound on their number. *)
Lemma recordMissingKey_bound now order v keyID :
  (forall l, order l ≡ₚ l) -> Z.of_nat (size (missingKeys v)) <= maxMissingKeys ->
  Z.of_nat (size (missingKeys (recordMissingKey now order v keyID))) <= maxMissingKeys.
Proof.
  intros Hp Hb. unfold recordMissingKey.
  pose proof (scan_missing_ok now (order (map_to_list (missingKeys v))) (missingKeys v) "" time_zero) as H.
  destruct (fold_left _ _ _) as [m [o t]]. destruct H as [Hsub Hok].
  - rewrite Hp. apply NoDup_fst_map_to_list.
  - intros [id t'] He. rewrite Hp in He. by apply elem_of_map_to_list in He.
  - right. split; [done|]. intros id [x Hx]. change id with (fst (id, x)). apply list_elem_of_fmap_2.
    rewrite Hp. by apply elem_of_map_to_list.
  - assert (Hm : (size m <= size (missingKeys v))%nat) by by apply map_subseteq_size.
    cbn [set_missing missingKeys].
    assert (Hins : forall q : gmap string time, (size (<[keyID := now]> q) <= S (size q))%nat).
    { intros q. rewrite map_size_insert. destruct (q !! keyID); simpl; lia. }
    destruct (maxMissingKeys <=? Z.of_nat (size m)) eqn:El; reflect_Z.
    + specialize (Hins (delete o m)). destruct Hok as [[Ho _]|[_ Hall]].
      * rewrite map_size_delete_Some in Hins by done. unfold maxMissingKeys in *. lia.
      * assert (Em : m = ∅).
        { apply map_empty. intros id. destruct (m !! id) eqn:E; [|done].
          by destruct (not_elem_of_nil (A := string) id); apply Hall. }
        subst m. rewrite map_size_empty in El. by vm_compute in El.
    + specialize (Hins m). lia.
Qed.

Section cache.
Context {J : JWTJSON}.

(** The writes of a verifier, each under a lock. *)
Inductive verifier_step : jwtVerifier -> jwtVerifier -> Prop :=
| vf_record now order v keyID :
    (forall l, order l ≡ₚ l) -> verifier_step v (recordMissingKey now order v keyID)
| vf_refresh t1 t2 t3 resp v v' :
    t1 <= t2 <= t3 -> refresh t1 t2 t3 resp v = inl v' -> verifier_step v v'.

(** A lookup in a world where the clock does not go back, maps are iterated in
    some order, and other requests only use the verifier. *)
Record fair_world (w : lookup_world) (v : jwtVerifier) : Prop := {
  fair_order : forall l, w_order w l ≡ₚ l;
  fair_clock : w_now w <= w_t1 w /\ w_t1 w <= w_t2 w <= w_t3 w;
  fair_others : steps verifier_step v (w_others w v);
}.

(** At most 1024 unknown keys, and keys that expire within five minutes of the
    refresh that brought them. *)
Record cache_ok (v : jwtVerifier) : Prop := {
  cache_missing : Z.of_nat (size (missingKeys v)) <= maxMissingKeys;
  cache_expiry : expiry v <= lastRefresh v + 5 * Minute;
}.

Lemma new_verifier_ok : cache_ok new_verifier.
Proof. split; vm_compute; discriminate. Qed.

Lemma recordMissingKey_fields now order v keyID :
  let v' := recordMissingKey now order v keyID in
  keys v' = keys v /\ expiry v' = expiry v /\ lastRefresh v' = lastRefresh v.
Proof. unfold recordMissingKey. by destruct (fold_left _ _ _) as [m [o t]]. Qed.

Lemma refresh_cases t1 t2 t3 resp v v' :
  refresh t1 t2 t3 resp v = inl v' ->
  (v' = v /\ t1 - lastRefresh v < refreshCooldown) \/
  (refreshCooldown <= t1 - lastRefresh v /\ missingKeys v' = missingKeys v /\
   expiry v' = t2 + 5 * Minute /\ lastRefresh v' = t3).
Proof.
  unfold refresh. destruct (t1 - lastRefresh v <? refreshCooldown) eqn:E; reflect_Z.
  - intros [= <-]. by left.
  - intros H. right. repeat case_match; simplify_eq. by simpl.
Qed.

Lemma verifier_step_ok v v' : cache_ok v -> verifier_step v v' -> cache_ok v'.
Proof.
  intros Hok Hs. destruct Hs as [now order v keyID Hp|t1 t2 t3 resp v v' Ht H].
  - destruct (recordMissingKey_fields now order v keyID) as (_ & E1 & E2). split.
    + by apply recordMissingKey_bound, cache_missing.
    + rewrite E1, E2. by apply cache_expiry.
  - apply refresh_cases in H as [[-> _]|(_ & E1 & E2 & E3)]; [done|]. destruct Hok as [Hm He]. split.
    + by rewrite E1.
    + rewrite E2, E3. lia.
Qed.

Lemma fair_world_ok w v : cache_ok v -> fair_world w v -> cache_ok (w_others w v).
Proof.
  intros Hok Hw. eapply steps_invariant; [exact verifier_step_ok|exact Hok|by apply fair_others].
Qed.

(** The last part of a lookup. *)
Definition lookup_after_refresh (w : lookup_world) (v : jwtVerifier) (kid : string)
    : jwtVerifier * (PublicKey + error) :=
  match refresh (w_t1 w) (w_t2 w) (w_t3 w) (w_resp w) (w_others w v) with
  | inr err => (w_others w v, inr err)
  | inl v => match keys v !! kid with
             | Some k => (v, inl k)
             | None => (recordMissingKey (w_now w) (w_order w) v kid, inr unknown_key)
             end
  end.

Lemma lookup_after_refresh_spec w v kid v' r :
  cache_ok v -> fair_world w v -> lookup_after_refresh w v kid = (v', r) ->
  cache_ok v' /\ forall k, r = inl k -> keys v' !! kid = Some k /\ w_now w < lastRefresh v' + 5 * Minute.
Proof.
  intros Hok Hw. pose proof (fair_world_ok _ _ Hok Hw) as Hok1. destruct Hw as [Hp Ht _].
  unfold lookup_after_refresh. destruct (refresh _ _ _ _ (w_others w v)) as [v1|err] eqn:Er; [|by intros [= <- <-]].
  assert (Hok2 : cache_ok v1).
  { eapply verifier_step_ok; [exact Hok1|]. eapply vf_refresh; [|exact Er]. apply Ht. }
  destruct (keys v1 !! kid) as [k|] eqn:Ek; intros [= <- <-].
  - split; [done|]. intros k' [= <-]. split; [done|].
    apply refresh_cases in Er as [[-> Hc]|(_ & _ & _ & ->)]; unfold refreshCooldown in *; zarith.
  - split; [|done]. eapply verifier_step_ok; [exact Hok2|]. by apply vf_record.
Qed.

Lemma key_cases w v kid :
  (exists k, key w v kid = (v, inl k) /\ keys v !! kid = Some k /\
     (w_now w < expiry v \/ w_now w - lastRefresh v < refreshCooldown)) \/
  key w v kid = (v, inr unknown_key) \/
  key w v kid = (recordMissingKey (w_now w) (w_order w) v kid, inr unknown_key) \/
  (refreshCooldown <= w_now w - lastRefresh v /\ key w v kid = lookup_after_refresh w v kid).
Proof.
  unfold key. fold (lookup_after_refresh w v kid).
  destruct (w_now w - lastRefresh v <? refreshCooldown) eqn:Ec; reflect_Z;
    (destruct (keys v !! kid) as [k|] eqn:Ek; [destruct (w_now w <? expiry v) eqn:Ef; reflect_Z|]); eauto 10;
    case_match; eauto 10.
Qed.

(** The key cache.  From a fresh verifier on, under any interleaving of
    lookups: at most 1024 unknown key ids are remembered; a key that is handed
    out is in the current key set, published less than five minutes ago, so a
    withdrawn key dies within five minutes of the last refresh; and within 30
    seconds of a refresh no lookup contacts the key endpoint or publishes keys. *)
Theorem key_cache_contract v w kid v' r :
  steps verifier_step new_verifier v -> fair_world w v -> key w v kid = (v', r) ->
  Z.of_nat (size (missingKeys v')) <= maxMissingKeys /\
  (forall k, r = inl k -> keys v' !! kid = Some k /\ w_now w < lastRefresh v' + 5 * Minute) /\
  (w_now w - lastRefresh v < refreshCooldown ->
     keys v' = keys v /\ lastRefresh v' = lastRefresh v /\
     forall w', w_now w' = w_now w -> w_order w' = w_order w -> key w' v kid = (v', r)).
Proof.
  intros Hs Hw Hk.
  assert (Hok : cache_ok v)
    by (eapply steps_invariant; [exact verifier_step_ok|exact new_verifier_ok|exact Hs]).
  destruct (recordMissingKey_fields (w_now w) (w_order w) v kid) as (F1 & F2 & F3).
  assert (Hmain : cache_ok v' /\ forall k, r = inl k ->
    keys v' !! kid = Some k /\ w_now w < lastRefresh v' + 5 * Minute).
  { destruct (key_cases w v kid) as [(k & E & Ek & Ht)|[E|[E|[_ E]]]]; rewrite E in Hk.
    - injection Hk as <- <-. split; [done|]. intros k' [= <-]. split; [done|].
      destruct Hok as [_ He]. unfold refreshCooldown in Ht. zarith.
    - by injection Hk as <- <-.
    - injection Hk as <- <-. split; [|done]. eapply verifier_step_ok; [exact Hok|]. by apply vf_record, fair_order with v.
    - by eapply lookup_after_refresh_spec. }
  destruct Hmain as [Hok' Hkey]. split_and!; [by apply cache_missing|done|].
  intros Hc. apply Z.ltb_lt in Hc. revert Hk. unfold key at 1. rewrite Hc. intros Hk.
  destruct (keys v !! kid) as [k|] eqn:Ek; [|case_match eqn:Em]; simplify_eq.
  - repeat case_match; simplify_eq; split_and!; try done; intros w' E1 E2; unfold key; rewrite Ek, E1, Hc; by case_match.
  - split_and!; try done. intros w' E1 E2. unfold key. by rewrite Ek, E1, Em.
  - split_and!; try done. intros w' E1 E2. unfold key. by rewrite Ek, E1, Em, Hc, E2.
Qed.
End cache.

(** ** Witnesses *)

(** A token signed by a 1024-bit key. *)
Definition sample_key : PublicKey := {|
  modulus := 133096442671054629475417441189033656323831061275607248739702376195345201605667833399169657415160990947576072591812596672050475692658538774313675944653879599790079326515241620937827526158551978500113250878149294320242116036172290577507668957655335646395740840106491680480143509427025346320838643711012281374329;
  exponent := 3 |}.

Definition sample_token : string :=
  "eyJhbGciOiJSUzI1NiIsImtpZCI6ImsxIn0.eyJpc3MiOiJodHRwczovL2lkcCJ9" +:+
  ".p2Moc3HIYjYCEGZwgIu0zj3ZxY6cpeTli0zoEVqWUHulxoHAY3rSCbx2vGvwJWixoyL3TheaVsyO1TPhzDsG_" +:+
  "Wg5vEzneY_Bv6ef7nRwBUPr9vf8tpT9DbwaqzuGDdXxu8s8gV-GyQ5IaBSvaAu3fodPHLHjyA6-bZzG6tF7Hh4".

Definition sample_claims : jwtClaims := {|
  ClaimIssuer := "https://idp/"; ClaimAudience := "search"; ExpiresAt := "2000000000"; NotBefore := "";
  ClaimSubject := "subject-1"; PreferredUsername := ""; ResourceAccess := {["ui" := ["viewer"]]} |}.

(** A decoder that knows this token only. *)
#[local] Instance sample_json : JWTJSON := {|
  decode_header := fun _ => Some {| Algorithm := "RS256"; KeyID := "k1" |};
  decode_claims := fun _ => Some sample_claims;
  decode_jwks := fun _ => None;
  decode_string := Some;
  decode_strings := fun _ => None |}.

Definition sample_config : JWTConfig :=
  {| Issuer := "https://idp"; JWKSURI := "https://idp/keys"; Audience := "search"; ClientID := "ui" |}.

Definition sample_now : time := time_of_unix 1900000000.

Definition sample_world : lookup_world := {|
  w_now := sample_now; w_order := id; w_others := id; w_t1 := sample_now; w_t2 := sample_now;
  w_t3 := sample_now; w_resp := FetchFailed (Opaque "unreachable") |}.

Definition sample_verifier : jwtVerifier := {|
  keys := {["k1" := sample_key]}; missingKeys := ∅;
  expiry := sample_now + 4 * Minute; lastRefresh := sample_now - Minute |}.

Definition sample_auth (roles : list string) :=
  AuthorizeIdentity {| expectedDigest := []; jwt := Some sample_config |} sample_world sample_now sample_now
    sample_verifier ("Bearer " +:+ sample_token) roles.

Lemma sample_authorized : sample_auth ["viewer"] = (sample_verifier, (DecisionAuthorized, claims_identity sample_claims)).
Proof. vm_compute. reflexivity. Qed.

Lemma jwt_authorization_witness :
  exists claims, accepted sample_config sample_world sample_now sample_now sample_verifier sample_verifier
    sample_token claims /\ claims_identity sample_claims = claims_identity claims.
Proof.
  destruct (jwt_authorization sample_config sample_world sample_now sample_now sample_verifier
    ("Bearer " +:+ sample_token) ["viewer"] sample_verifier DecisionAuthorized (claims_identity sample_claims)
    sample_authorized) as (H & _ & _).
  destruct (proj1 H eq_refl) as (_ & claims & Ha & _ & E). exists claims. split; [|exact E].
  assert (Et : fst (bearerToken ("Bearer " +:+ sample_token)) = sample_token) by (vm_compute; reflexivity).
  rewrite Et in Ha. exact Ha.
Defined.

Lemma key_cache_contract_witness :
  Z.of_nat (size (missingKeys (fst (key sample_world new_verifier "k1")))) <= maxMissingKeys.
Proof.
  destruct (key sample_world new_verifier "k1") as [v' r] eqn:E.
  destruct (key_cache_contract new_verifier sample_world "k1" v' r) as (H & _).
  - apply steps_refl.
  - split; [intros l; reflexivity|simpl; lia|apply steps_refl].
  - exact E.
  - exact H.
Defined.
