(* ===== verification/GraphTree.v ===== *)
(** * The presentation forest (internal/reporting/graph_hierarchy.go)

    buildPresentationTree lays an undirected spanning forest over the
    association edges of a graph page: breadth first from the requested root,
    then from each access point and each node still unvisited. *)

From S2P Require Import Prelude GoErrors GoStrings GoSort GoFloats QueryScope Graph.
From Stdlib Require Import Sorted.

Record GraphHierarchy := { RootID : string; RootIDs : list string }.

Definition isGraphAssociation (kind : string) : bool :=
  String.eqb kind "association" || String.eqb kind "observed_at" || String.eqb kind "observed_association".

(** Field updates. *)
Definition with_tree (parent : option string) (depth : option Z) (role : string) (n : GraphNode) : GraphNode := {|
  ParentID := parent; Depth := depth; Role := role; NodeID := NodeID n; NodeKind := NodeKind n;
  NodeLabel := NodeLabel n; MAC := MAC n; DisplayName := DisplayName n; Username := Username n;
  Hostname := Hostname n; OSHint := OSHint n; NodeSSID := NodeSSID n; NodeBSSID := NodeBSSID n;
  NodeLocationID := NodeLocationID n; NodeSensorID := NodeSensorID n; ClusterSize := ClusterSize n;
  RiskScore := RiskScore n; AlertType := AlertType n; AlertSeverity := AlertSeverity n;
  Threat := Threat n; ExplainSourceKey := ExplainSourceKey n; ExplainKind := ExplainKind n;
  NodeObservedAt := NodeObservedAt n; NodeFirstSeen := NodeFirstSeen n;
  NodeLastSeen := NodeLastSeen n |}.

Definition with_role (role : string) (e : GraphEdge) : GraphEdge := {|
  EvidenceStart := EvidenceStart e; EvidenceEnd := EvidenceEnd e; ExpiresAt := ExpiresAt e;
  ProjectionWatermark := ProjectionWatermark e; ProjectedAt := ProjectedAt e; Range := Range e;
  EdgeID := EdgeID e; Source := Source e; Target := Target e; EdgeKind := EdgeKind e;
  Weight := Weight e; WeightBasis := WeightBasis e; EdgeLabel := EdgeLabel e; TreeRole := role |}.

(** ** The indexes built up front *)

Definition reset_node (n : GraphNode) : GraphNode :=
  with_tree None None (if String.eqb (NodeKind n) "device" then "client" else NodeKind n) n.

Fixpoint index_nodes (i : nat) (nodes : list GraphNode) (byID : gmap string nat) : gmap string nat :=
  match nodes with
  | [] => byID
  | n :: nodes => index_nodes (S i) nodes (<[NodeID n := i]> byID)
  end.

Definition closed_edge (byID : gmap string nat) (e : GraphEdge) : bool :=
  bool_decide (is_Some (byID !! Source e)) && bool_decide (is_Some (byID !! Target e)).

Definition closed_edges (byID : gmap string nat) (edges : list GraphEdge) : list GraphEdge :=
  with_role "secondary" <$> List.filter (closed_edge byID) edges.

Definition joins (e : GraphEdge) : bool :=
  isGraphAssociation (EdgeKind e) && negb (String.eqb (Source e) (Target e)).

Definition push_edge (id : string) (i : nat) (adjacency : gmap string (list nat)) : gmap string (list nat) :=
  <[id := default [] (adjacency !! id) ++ [i]]> adjacency.

Fixpoint index_edges (i : nat) (edges : list GraphEdge) (adjacency : gmap string (list nat))
    : gmap string (list nat) :=
  match edges with
  | [] => adjacency
  | e :: edges =>
      index_edges (S i) edges
        (if joins e then push_edge (Target e) i (push_edge (Source e) i adjacency) else adjacency)
  end.

(** ** The walk *)

Record forest := {
  f_nodes : list GraphNode;
  f_edges : list GraphEdge;
  f_visited : gset string;
  f_roots : list string;
}.

Section walk.
Context (byID : gmap string nat) (adjacency : gmap string (list nat)).

(** [nodes[byID[id]]] *)
Definition index_of (id : string) : nat := default 0%nat (byID !! id).

Definition place (id : string) (parent : option string) (depth : Z) (nodes : list GraphNode) : list GraphNode :=
  alter (fun n => with_tree parent (Some depth) (Role n) n) (index_of id) nodes.

Definition depth_of (id : string) (nodes : list GraphNode) : Z :=
  default 0 (nodes !! index_of id ≫= Depth).

(** One edge of the node [parent]; new children join the queue. *)
Definition visit_edge (parent : string) (acc : forest * list string) (i : nat) : forest * list string :=
  let '(st, queue) := acc in
  match f_edges st !! i with
  | None => acc
  | Some edge =>
      let child := if String.eqb (Source edge) parent then Target edge else Source edge in
      if bool_decide (child ∈ f_visited st) then acc
      else ({| f_nodes := place child (Some parent) (depth_of parent (f_nodes st) + 1) (f_nodes st);
               f_edges := alter (with_role "tree") i (f_edges st);
               f_visited := {[child]} ∪ f_visited st;
               f_roots := f_roots st |}, queue ++ [child])
  end.

(** The queue from [head] on. *)
Fixpoint bfs (fuel : nat) (st : forest) (queue : list string) : option forest :=
  match queue with
  | [] => Some st
  | parent :: queue =>
      match fuel with
      | O => None
      | S fuel =>
          let '(st, queue) := foldl (visit_edge parent) (st, queue) (default [] (adjacency !! parent)) in
          bfs fuel st queue
      end
  end.

Definition visit (fuel : nat) (id : string) (st : forest) : option forest :=
  bfs fuel {| f_nodes := place id None 0 (f_nodes st); f_edges := f_edges st;
              f_visited := {[id]} ∪ f_visited st; f_roots := f_roots st ++ [id] |} [id].

(** The pass over the nodes that starts a tree at each unvisited one of [kind]. *)
Fixpoint visit_all (fuel : nat) (kind : string) (nodes : list GraphNode) (st : forest) : option forest :=
  match nodes with
  | [] => Some st
  | n :: nodes =>
      if bool_decide (NodeID n ∉ f_visited st) && (is_empty kind || String.eqb (NodeKind n) kind)
      then match visit fuel (NodeID n) st with Some st => visit_all fuel kind nodes st | None => None end
      else visit_all fuel kind nodes st
  end.
End walk.

Definition set_root_role (i : nat) (nodes : list GraphNode) : list GraphNode :=
  alter (fun n => with_tree (ParentID n) (Depth n)
                    (if String.eqb (NodeKind n) "ap" then "root_ap" else "root") n) i nodes.

(** The queue holds every node once, so a walk takes at most one turn per node. *)
Definition buildPresentationTree (nodes : list GraphNode) (edges : list GraphEdge) (rootID : string)
    : option (list GraphNode * list GraphEdge * GraphHierarchy) :=
  let nodes := reset_node <$> sortGraphNodes nodes in
  let byID := index_nodes 0 nodes ∅ in
  let edges := closed_edges byID (sortGraphEdges edges) in
  let adjacency := index_edges 0 edges ∅ in
  let fuel := length nodes in
  let st := {| f_nodes := nodes; f_edges := edges; f_visited := ∅; f_roots := [] |} in
  let rooted :=
    match byID !! rootID with
    | Some i =>
        match visit byID adjacency fuel rootID st with
        | Some st => Some {| f_nodes := set_root_role i (f_nodes st); f_edges := f_edges st;
                             f_visited := f_visited st; f_roots := f_roots st |}
        | None => None
        end
    | None => Some st
    end in
  match rooted with
  | None => None
  | Some st =>
      match visit_all byID adjacency fuel "ap" nodes st with
      | None => None
      | Some st =>
          match visit_all byID adjacency fuel "" nodes st with
          | None => None
          | Some st => Some (f_nodes st, f_edges st, {| RootID := rootID; RootIDs := f_roots st |})
          end
      end
  end.

Definition demo_node (id kind : string) : GraphNode := {|
  ParentID := None; Depth := None; Role := ""; NodeID := id; NodeKind := kind;
  NodeLabel := id; MAC := ""; DisplayName := ""; Username := ""; Hostname := ""; OSHint := "";
  NodeSSID := ""; NodeBSSID := ""; NodeLocationID := ""; NodeSensorID := ""; ClusterSize := None;
  RiskScore := None; AlertType := ""; AlertSeverity := ""; Threat := false; ExplainSourceKey := "";
  ExplainKind := ""; NodeObservedAt := None; NodeFirstSeen := None; NodeLastSeen := None |}.

Definition demo_edge (id s t : string) : GraphEdge := {|
  EvidenceStart := None; EvidenceEnd := None; ExpiresAt := None; ProjectionWatermark := None;
  ProjectedAt := None; Range := None; EdgeID := id; Source := s; Target := t; EdgeKind := "association";
  Weight := None; WeightBasis := ""; EdgeLabel := ""; TreeRole := "" |}.

Definition demo_nodes : list GraphNode :=
  [demo_node "d2" "device"; demo_node "a1" "ap"; demo_node "d1" "device"; demo_node "x" "sensor"].
Definition demo_edges : list GraphEdge :=
  [demo_edge "e3" "d2" "a1"; demo_edge "e1" "d1" "a1"; demo_edge "e2" "d1" "d2"; demo_edge "e4" "d1" "gone"].

Example demo_tree :
  match buildPresentationTree demo_nodes demo_edges "d1" with
  | Some (ns, es, h) =>
      map (fun n => (NodeID n, ParentID n, Depth n, Role n)) ns
      = [("a1", Some "d1", Some 1, "ap"); ("d1", None, Some 0, "root"); ("d2", Some "d1", Some 1, "client");
         ("x", None, Some 0, "sensor")] /\
      map TreeRole es = ["tree"; "tree"; "secondary"] /\ RootIDs h = ["d1"; "x"]
  | None => False
  end.
Proof. vm_compute. auto. Qed.

(** ** Lookups by id *)

Fixpoint find_node (x : string) (nodes : list GraphNode) : option GraphNode :=
  match nodes with
  | [] => None
  | n :: nodes => if String.eqb (NodeID n) x then Some n else find_node x nodes
  end.

Definition parent_in (nodes : list GraphNode) (x : string) : option string := find_node x nodes ≫= ParentID.
Definition depth_in (nodes : list GraphNode) (x : string) : option Z := find_node x nodes ≫= Depth.

(** [x] reaches the root [r] by parent links. *)
Inductive in_tree (parent : string -> option string) (r : string) : string -> Prop :=
| tree_root : parent r = None -> in_tree parent r r
| tree_child x p : parent x = Some p -> in_tree parent r p -> in_tree parent r x.

Definition ids_of (nodes : list GraphNode) : list string := NodeID <$> nodes.

Lemma find_node_lookup nodes i n :
  NoDup (ids_of nodes) -> nodes !! i = Some n -> find_node (NodeID n) nodes = Some n.
Proof.
  revert i. induction nodes as [|m nodes IH]; intros i Hnd Hi; [done|]. unfold ids_of in Hnd. csimpl in *.
  apply NoDup_cons in Hnd as [Hm Hnd]. destruct i as [|i]; simpl in Hi.
  - injection Hi as ->. by rewrite String.eqb_refl.
  - destruct (String.eqb_spec (NodeID m) (NodeID n)) as [E|]; [|by eapply IH].
    destruct Hm. rewrite E. apply list_elem_of_fmap. exists n. split; [done|]. by eapply list_elem_of_lookup_2.
Qed.

Lemma find_node_Some x nodes n : find_node x nodes = Some n -> n ∈ nodes /\ NodeID n = x.
Proof.
  induction nodes as [|m nodes IH]; simpl; [done|].
  destruct (String.eqb_spec (NodeID m) x) as [E|]; [intros [= ->]; split; [left|done]|].
  intros H. apply IH in H as [? ?]. split; [by right|done].
Qed.

Lemma find_node_elem nodes n : NoDup (ids_of nodes) -> n ∈ nodes -> find_node (NodeID n) nodes = Some n.
Proof. intros Hnd [i Hi]%list_elem_of_lookup_1. by eapply find_node_lookup. Qed.

Lemma ids_of_alter f i nodes : (forall n, NodeID (f n) = NodeID n) -> ids_of (alter f i nodes) = ids_of nodes.
Proof.
  intros Hf. unfold ids_of. revert i. induction nodes as [|n nodes IH]; intros [|i]; csimpl; [done..| |].
  - by rewrite Hf.
  - by rewrite IH.
Qed.

Lemma find_node_alter f i nodes x y :
  (forall n, NodeID (f n) = NodeID n) -> NoDup (ids_of nodes) -> ids_of nodes !! i = Some y ->
  find_node x (alter f i nodes) = if decide (x = y) then f <$> find_node x nodes else find_node x nodes.
Proof.
  intros Hf. unfold ids_of. revert i. induction nodes as [|n nodes IH]; intros [|i] Hnd Hi; csimpl in *; try done.
  - injection Hi as <-. rewrite Hf. destruct (String.eqb_spec (NodeID n) x) as [->|].
    + by rewrite decide_True.
    + by rewrite decide_False.
  - apply NoDup_cons in Hnd as [Hn Hnd]. destruct (String.eqb_spec (NodeID n) x) as [E|].
    + rewrite decide_False; [done|]. intros ->. destruct Hn. rewrite E. by eapply list_elem_of_lookup_2.
    + by apply IH.
Qed.

(** ** The indexes are right *)

Lemma index_nodes_lookup i nodes byID x j :
  NoDup (ids_of nodes) -> (forall y, y ∈ ids_of nodes -> byID !! y = None) ->
  index_nodes i nodes byID !! x = Some j <->
  byID !! x = Some j \/ exists k, j = (i + k)%nat /\ ids_of nodes !! k = Some x.
Proof.
  unfold ids_of. revert i byID. induction nodes as [|n nodes IH]; intros i byID Hnd Hf; csimpl.
  { split; [by left|]. intros [?|(k & _ & Hk)]; done. }
  csimpl in *. apply NoDup_cons in Hnd as [Hn Hnd]. rewrite IH; [|done|].
  2:{ intros y Hy. rewrite lookup_insert_ne; [apply Hf; by right|]. intros <-. done. }
  destruct (decide (x = NodeID n)) as [->|Hne].
  - rewrite lookup_insert_eq. split.
    + intros [[= <-]|(k & -> & Hk)]; [right; exists 0%nat; split; [lia|done]|].
      destruct Hn. by eapply list_elem_of_lookup_2.
    + intros [H|(k & -> & Hk)]; [by rewrite Hf in H by by left|].
      destruct k as [|k]; [left; f_equal; lia|]. destruct Hn. simpl in Hk. by eapply list_elem_of_lookup_2.
  - rewrite lookup_insert_ne by done. split.
    + intros [?|(k & -> & Hk)]; [by left|right]. exists (S k). split; [lia|done].
    + intros [?|(k & -> & Hk)]; [by left|right]. destruct k as [|k]; simpl in Hk; [by injection Hk as <-|].
      exists k. split; [lia|done].
Qed.

Definition touches (e : GraphEdge) (x : string) : Prop := Source e = x \/ Target e = x.

Lemma push_edge_elem id i adj p k :
  k ∈ default [] (push_edge id i adj !! p) <-> k ∈ default [] (adj !! p) \/ (p = id /\ k = i).
Proof.
  unfold push_edge. destruct (decide (p = id)) as [->|Hne].
  - rewrite lookup_insert_eq. simpl. rewrite elem_of_app, list_elem_of_singleton. naive_solver.
  - rewrite lookup_insert_ne by done. naive_solver.
Qed.

Lemma index_edges_elem i edges adj p k :
  k ∈ default [] (index_edges i edges adj !! p) <->
  k ∈ default [] (adj !! p) \/
  exists j e, k = (i + j)%nat /\ edges !! j = Some e /\ joins e = true /\ touches e p.
Proof.
  revert i adj. induction edges as [|e edges IH]; intros i adj; cbn [index_edges].
  { split; [by left|]. intros [?|(j & e & _ & He & _)]; done. }
  rewrite IH. clear IH. destruct (joins e) eqn:Ej.
  - rewrite !push_edge_elem. unfold touches. split.
    + intros [[[?|[-> ->]]|[-> ->]]|(j & e' & -> & He & ?)]; [by left|right..].
      * exists 0%nat, e. split; [lia|]. auto.
      * exists 0%nat, e. split; [lia|]. auto.
      * exists (S j), e'. split; [lia|]. auto.
    + intros [?|([|j] & e' & -> & He & Hj & Ht)]; [by auto| |].
      * injection He as <-. left. rewrite Nat.add_0_r. destruct Ht as [<-|<-]; auto.
      * right. exists j, e'. split; [lia|]. auto.
  - split.
    + intros [?|(j & e' & -> & He & ?)]; [by left|right]. exists (S j), e'. split; [lia|]. auto.
    + intros [?|([|j] & e' & -> & He & Hj & Ht)]; [by left| |].
      * injection He as <-. congruence.
      * right. exists j, e'. split; [lia|]. auto.
Qed.

(** ** The walk invariant *)

Definition skeleton (e : GraphEdge) : GraphEdge := with_role "" e.

Definition is_tree (e : GraphEdge) : bool := String.eqb (TreeRole e) "tree".

Definition tree_count (edges : list GraphEdge) : nat := length (List.filter is_tree edges).

(** [e] is an association between the distinct nodes [x] and [y]. *)
Definition connects (e : GraphEdge) (x y : string) : Prop :=
  joins e = true /\ (Source e = x /\ Target e = y \/ Source e = y /\ Target e = x).

Lemma skeleton_role role e : skeleton (with_role role e) = skeleton e.
Proof. done. Qed.

Lemma skeleton_alter role i (edges : list GraphEdge) : skeleton <$> alter (with_role role) i edges = skeleton <$> edges.
Proof. revert i. induction edges as [|e edges IH]; intros [|i]; csimpl; [done..|]. by rewrite IH. Qed.

Lemma skeleton_connects e e' x y : skeleton e = skeleton e' -> connects e x y -> connects e' x y.
Proof.
  intros H. unfold connects, joins.
  assert (Hk := f_equal EdgeKind H). assert (Hs := f_equal Source H). assert (Ht := f_equal Target H).
  simpl in Hk, Hs, Ht. by rewrite Hk, Hs, Ht.
Qed.

Lemma connects_sym e x y : connects e x y -> connects e y x.
Proof. intros [Hj H]. split; [done|]. destruct H; auto. Qed.

Lemma in_tree_ext (par par' : string -> option string) r x :
  in_tree par r x -> (forall y, par y = par' y) -> in_tree par' r x.
Proof. induction 1 as [H|x p H _ IH]; intros E; [apply tree_root|eapply tree_child; [|by apply IH]]; by rewrite <-E. Qed.

Section invariant.
Context (ids : list string) (E : list GraphEdge) (byID : gmap string nat) (adjacency : gmap string (list nat)).
Context (Hids : NoDup ids).
Context (HbyID : forall x j, byID !! x = Some j <-> ids !! j = Some x).
Context (Hadj : forall p k, k ∈ default [] (adjacency !! p) <->
  exists e, E !! k = Some e /\ joins e = true /\ touches e p).
Context (Hclosed : forall e, e ∈ E -> Source e ∈ ids /\ Target e ∈ ids).

Definition linked (x y : string) : Prop := exists e, e ∈ E /\ connects e x y.

Lemma linked_sym x y : linked x y -> linked y x.
Proof using Type. intros (e & He & Hc). exists e. split; [done|]. by apply connects_sym. Qed.

(** [opened]: visited nodes whose edges are still to be followed, in the tree of [cur]. *)
Record Inv (cur : string) (opened : list string) (st : forest) : Prop := {
  inv_ids : ids_of (f_nodes st) = ids;
  inv_edges : skeleton <$> f_edges st = skeleton <$> E;
  inv_visited x : x ∈ f_visited st -> x ∈ ids;
  inv_fresh x : x ∉ f_visited st -> parent_in (f_nodes st) x = None;
  inv_root x : x ∈ f_roots st ->
    x ∈ f_visited st /\ parent_in (f_nodes st) x = None /\ depth_in (f_nodes st) x = Some 0;
  inv_child x : x ∈ f_visited st -> x ∉ f_roots st ->
    exists p d e, parent_in (f_nodes st) x = Some p /\ p ∈ f_visited st /\
      depth_in (f_nodes st) p = Some d /\ depth_in (f_nodes st) x = Some (d + 1) /\
      e ∈ f_edges st /\ is_tree e = true /\ connects e p x;
  inv_roots : NoDup (f_roots st);
  inv_count : (length (f_roots st) + tree_count (f_edges st) = size (f_visited st))%nat;
  inv_marked e : e ∈ f_edges st -> is_tree e = true -> Source e ∈ f_visited st /\ Target e ∈ f_visited st;
  inv_open x : x ∈ opened -> x ∈ f_visited st /\ in_tree (parent_in (f_nodes st)) cur x;
  inv_done x y : x ∈ f_visited st -> x ∉ opened -> linked x y ->
    y ∈ f_visited st /\ exists r, in_tree (parent_in (f_nodes st)) r x /\ in_tree (parent_in (f_nodes st)) r y;
}.

Lemma index_of_ids x : x ∈ ids -> ids !! index_of byID x = Some x.
Proof using HbyID.
  intros [j Hj]%list_elem_of_lookup_1. unfold index_of. pose proof (proj2 (HbyID x j) Hj) as ->. done.
Qed.

Lemma place_ids x parent d nodes : ids_of (place byID x parent d nodes) = ids_of nodes.
Proof using Type. by apply ids_of_alter. Qed.

Lemma place_find x parent d nodes y :
  ids_of nodes = ids -> x ∈ ids ->
  find_node y (place byID x parent d nodes)
  = if decide (y = x) then (fun n => with_tree parent (Some d) (Role n) n) <$> find_node y nodes
    else find_node y nodes.
Proof using HbyID Hids. intros Hn Hx. apply find_node_alter; [done|by rewrite Hn|]. rewrite Hn. by apply index_of_ids. Qed.

Lemma find_node_known x nodes : ids_of nodes = ids -> x ∈ ids -> exists n, find_node x nodes = Some n.
Proof using Hids.
  intros Hn Hx. rewrite <-Hn in Hx. unfold ids_of in Hx. apply list_elem_of_fmap in Hx as (n & -> & Hin).
  exists n. apply find_node_elem; [by rewrite Hn|done].
Qed.

Lemma place_parent x parent d nodes y :
  ids_of nodes = ids -> x ∈ ids ->
  parent_in (place byID x parent d nodes) y = if decide (y = x) then parent else parent_in nodes y.
Proof using HbyID Hids.
  intros Hn Hx. unfold parent_in. rewrite place_find by done. destruct (decide (y = x)) as [->|]; [|done].
  destruct (find_node_known x nodes Hn Hx) as [n ->]. done.
Qed.

Lemma place_depth x parent d nodes y :
  ids_of nodes = ids -> x ∈ ids ->
  depth_in (place byID x parent d nodes) y = if decide (y = x) then Some d else depth_in nodes y.
Proof using HbyID Hids.
  intros Hn Hx. unfold depth_in. rewrite place_find by done. destruct (decide (y = x)) as [->|]; [|done].
  destruct (find_node_known x nodes Hn Hx) as [n ->]. done.
Qed.

Lemma depth_of_in x nodes d : ids_of nodes = ids -> x ∈ ids -> depth_in nodes x = Some d -> depth_of byID x nodes = d.
Proof using HbyID Hids.
  intros Hn Hx. unfold depth_of, depth_in. pose proof (index_of_ids x Hx) as Hi. rewrite <-Hn in Hi.
  unfold ids_of in Hi. rewrite list_lookup_fmap in Hi. destruct (nodes !! index_of byID x) as [n|] eqn:El; [|done].
  injection Hi as Hi. rewrite <-Hi. rewrite (find_node_lookup nodes (index_of byID x) n) by (rewrite ?Hn; done).
  simpl. intros ->. done.
Qed.

(** Giving a parent to a node that is in no tree leaves the trees alone. *)
Lemma in_tree_place x p d nodes r y (V : gset string) :
  ids_of nodes = ids -> x ∈ ids -> x ∉ V -> y ∈ V ->
  (forall z q, z ∈ V -> parent_in nodes z = Some q -> q ∈ V) ->
  in_tree (parent_in nodes) r y -> in_tree (parent_in (place byID x (Some p) d nodes)) r y.
Proof using HbyID Hids.
  intros Hn Hx HxV HyV Hcl Hin. induction Hin as [Hr|y q Hq Hin IH].
  - apply tree_root. rewrite place_parent by done. by rewrite decide_False by congruence.
  - eapply tree_child; [|apply IH; by eapply Hcl].
    rewrite place_parent by done. by rewrite decide_False by congruence.
Qed.

Lemma tree_count_alter i edges e :
  edges !! i = Some e -> is_tree e = false ->
  tree_count (alter (with_role "tree") i edges) = S (tree_count edges).
Proof using Type.
  unfold tree_count. revert i. induction edges as [|e' edges IH]; intros [|i] Hi He; try done.
  - injection Hi as ->. simpl. by rewrite He.
  - change (alter (with_role "tree") (S i) (e' :: edges)) with (e' :: alter (with_role "tree") i edges).
    cbn [List.filter]. destruct (is_tree e'); cbn [length]; by rewrite (IH i).
Qed.

Lemma alter_edge_elem i (edges : list GraphEdge) e e' :
  edges !! i = Some e -> e' ∈ alter (with_role "tree") i edges -> e' ∈ edges \/ e' = with_role "tree" e.
Proof using Type.
  intros Hi [j Hj]%list_elem_of_lookup_1. destruct (decide (i = j)) as [<-|Hne].
  - rewrite list_lookup_alter_eq, Hi in Hj. injection Hj as <-. by right.
  - rewrite list_lookup_alter_ne in Hj by done. left. by eapply list_elem_of_lookup_2.
Qed.

Lemma alter_edge_keep i (edges : list GraphEdge) e' :
  e' ∈ edges -> is_tree e' = true -> e' ∈ alter (with_role "tree") i edges \/ exists e, edges !! i = Some e /\ is_tree e = true.
Proof using Type.
  intros [j Hj]%list_elem_of_lookup_1 Ht. destruct (decide (i = j)) as [<-|Hne].
  - right. eauto.
  - left. apply (list_elem_of_lookup_2 _ j). by rewrite list_lookup_alter_ne.
Qed.

Lemma Inv_edge cur opened st e :
  Inv cur opened st -> e ∈ f_edges st -> exists e', e' ∈ E /\ skeleton e = skeleton e'.
Proof using Type.
  intros H He. assert (Hs : skeleton e ∈ skeleton <$> f_edges st) by (by apply list_elem_of_fmap_2).
  rewrite (inv_edges _ _ _ H) in Hs. apply list_elem_of_fmap in Hs as (e' & -> & ?). eauto.
Qed.

Lemma Inv_edge_ids cur opened st e x y :
  Inv cur opened st -> e ∈ f_edges st -> connects e x y -> x ∈ ids /\ y ∈ ids.
Proof using Hclosed.
  intros H He Hc. destruct (Inv_edge _ _ _ _ H He) as (e' & He' & Hs).
  destruct (skeleton_connects _ _ _ _ Hs Hc) as [_ Hc']. destruct (Hclosed e' He').
  by destruct Hc' as [[<- <-]|[<- <-]].
Qed.

Lemma Inv_parent cur opened st z q :
  Inv cur opened st -> z ∈ f_visited st -> parent_in (f_nodes st) z = Some q -> q ∈ f_visited st.
Proof using Type.
  intros H Hz Hq. destruct (decide (z ∈ f_roots st)) as [Hr|Hr].
  - apply (inv_root _ _ _ H) in Hr as (_ & ? & _). congruence.
  - destruct (inv_child _ _ _ H z Hz Hr) as (p & d & e & Hp & ? & _). congruence.
Qed.

Definition add_child (st : forest) (p c : string) (i : nat) : forest :=
  {| f_nodes := place byID c (Some p) (depth_of byID p (f_nodes st) + 1) (f_nodes st);
     f_edges := alter (with_role "tree") i (f_edges st);
     f_visited := {[c]} ∪ f_visited st;
     f_roots := f_roots st |}.

Lemma Inv_add_child cur opened st p c i e :
  Inv cur opened st -> p ∈ opened -> f_edges st !! i = Some e -> connects e p c -> c ∉ f_visited st ->
  Inv cur (opened ++ [c]) (add_child st p c i).
Proof using Hids HbyID Hclosed Hadj.
  intros H Hp Hi Hc Hv. pose proof (list_elem_of_lookup_2 _ _ _ Hi) as He.
  destruct (Inv_edge_ids _ _ _ _ _ _ H He Hc) as [Hpi Hci].
  destruct (inv_open _ _ _ H p Hp) as [Hpv Hpt].
  assert (Hne : p <> c) by (intros ->; done).
  assert (Hun : is_tree e = false).
  { destruct (is_tree e) eqn:Et; [|done]. destruct (inv_marked _ _ _ H e He Et), Hc as [_ [[? ?]|[? ?]]]; congruence. }
  pose proof (inv_ids _ _ _ H) as Hn.
  assert (Hpar : forall y, parent_in (f_nodes (add_child st p c i)) y
    = if decide (y = c) then Some p else parent_in (f_nodes st) y) by (intros; by apply place_parent).
  assert (Hdep : forall y, depth_in (f_nodes (add_child st p c i)) y
    = if decide (y = c) then Some (depth_of byID p (f_nodes st) + 1) else depth_in (f_nodes st) y)
    by (intros; by apply place_depth).
  assert (Htree : forall r y, y ∈ f_visited st -> in_tree (parent_in (f_nodes st)) r y ->
    in_tree (parent_in (f_nodes (add_child st p c i))) r y).
  { intros r y Hy. apply (in_tree_place c p _ (f_nodes st) r y (f_visited st)); try done.
    intros z q. by apply (Inv_parent _ _ _ _ _ H). }
  assert (Hold : forall y, y ∈ f_visited st -> y <> c) by (intros y Hy ->; done).
  assert (Hpd : exists d, depth_in (f_nodes st) p = Some d).
  { destruct (decide (p ∈ f_roots st)) as [Hr|Hr].
    - apply (inv_root _ _ _ H) in Hr as (_ & _ & ?). eauto.
    - destruct (inv_child _ _ _ H p Hpv Hr) as (? & ? & ? & _ & _ & _ & ? & _). eauto. }
  destruct Hpd as [d Hd]. pose proof (depth_of_in p (f_nodes st) d Hn Hpi Hd) as Hdo.
  assert (Hvis : forall y, y ∈ f_visited (add_child st p c i) <-> y = c \/ y ∈ f_visited st).
  { intros y. simpl. by rewrite elem_of_union, elem_of_singleton. }
  assert (Hkeep : forall e', e' ∈ f_edges st -> is_tree e' = true -> e' ∈ f_edges (add_child st p c i)).
  { intros e' He' Ht. destruct (alter_edge_keep i _ _ He' Ht) as [?|(e2 & H2 & ?)]; [done|]. congruence. }
  split.
  - simpl. by rewrite place_ids.
  - simpl. by rewrite skeleton_alter, (inv_edges _ _ _ H).
  - intros x [->|Hx]%Hvis; [done|]. by apply (inv_visited _ _ _ H).
  - intros x Hx. rewrite Hvis in Hx. rewrite Hpar, decide_False by tauto. apply (inv_fresh _ _ _ H). tauto.
  - intros x Hx. destruct (inv_root _ _ _ H x Hx) as (Hxv & ? & ?).
    rewrite Hvis, Hpar, Hdep, !decide_False by auto. auto.
  - intros x Hx Hr. simpl in Hr. apply Hvis in Hx as [->|Hx].
    + exists p, d, (with_role "tree" e). rewrite Hpar, !Hdep, Hvis. rewrite (decide_True (P := c = c)), decide_False by done.
      rewrite (decide_True (P := c = c)), Hdo by done. split; [done|split; [by right|split; [done|split; [done|]]]].
      split; [|split; [done|exact Hc]]. simpl. apply (list_elem_of_lookup_2 _ i).
      by rewrite list_lookup_alter_eq, Hi.
    + destruct (inv_child _ _ _ H x Hx Hr) as (q & d' & e' & Hq & Hqv & Hd' & Hdx & He' & Ht & Hc').
      exists q, d', e'. rewrite Hpar, !Hdep, Hvis, !decide_False by auto.
      split; [done|split; [by right|split; [done|split; [done|split; [by apply Hkeep|done]]]]].
  - exact (inv_roots _ _ _ H).
  - simpl. rewrite (tree_count_alter i _ e) by done. rewrite size_union by set_solver. rewrite size_singleton.
    pose proof (inv_count _ _ _ H). lia.
  - intros e' He' Ht. rewrite !Hvis. destruct (alter_edge_elem i _ e e' Hi He') as [He2| ->].
    + destruct (inv_marked _ _ _ H e' He2 Ht). auto.
    + destruct Hc as [_ [[<- <-]|[<- <-]]]; simpl; auto.
  - intros x [Hx| ->%list_elem_of_singleton]%elem_of_app.
    + destruct (inv_open _ _ _ H x Hx). split; [rewrite Hvis; by right|]. by apply Htree.
    + split; [rewrite Hvis; by left|]. eapply tree_child; [|by apply Htree]. by rewrite Hpar, decide_True.
  - intros x y Hx Ho Hl. rewrite elem_of_app, list_elem_of_singleton in Ho.
    apply Hvis in Hx as [->|Hx]; [tauto|].
    destruct (inv_done _ _ _ H x y Hx) as (Hy & r & Hr1 & Hr2); [tauto|done|].
    split; [rewrite Hvis; by right|]. exists r. by split; apply Htree.
Qed.

(** The child of an adjacency entry is the other end of the edge. *)
Lemma adjacent_edge cur opened st p i :
  Inv cur opened st -> i ∈ default [] (adjacency !! p) ->
  exists e, f_edges st !! i = Some e /\
    connects e p (if String.eqb (Source e) p then Target e else Source e).
Proof using Hadj.
  intros H Hi. apply Hadj in Hi as (e & He & Hj & Ht).
  assert (Hs : (skeleton <$> f_edges st) !! i = Some (skeleton e)).
  { rewrite (inv_edges _ _ _ H), list_lookup_fmap. by rewrite He. }
  rewrite list_lookup_fmap in Hs. destruct (f_edges st !! i) as [e'|]; [|done]. apply (inj Some) in Hs.
  exists e'. split; [done|]. apply (skeleton_connects e e'); [by rewrite <-Hs|].
  change (Source e') with (Source (skeleton e')). change (Target e') with (Target (skeleton e')).
  rewrite Hs. simpl. split; [done|]. destruct (String.eqb_spec (Source e) p); [by left|].
  destruct Ht as [?|?]; [done|]. by right.
Qed.

(** The fold over the edges of [p]: the invariant, the queue's growth, and every
    neighbour met is visited. *)
Lemma fold_edges cur p idxs st queue :
  Inv cur (p :: queue) st -> (forall i, i ∈ idxs -> i ∈ default [] (adjacency !! p)) ->
  exists st' queue', foldl (visit_edge byID p) (st, queue) idxs = (st', queue') /\
    Inv cur (p :: queue') st' /\ f_roots st' = f_roots st /\ f_visited st ⊆ f_visited st' /\
    (length queue' + size (f_visited st) = length queue + size (f_visited st'))%nat /\
    (forall i e c, i ∈ idxs -> E !! i = Some e -> connects e p c -> c ∈ f_visited st').
Proof using Hids HbyID Hclosed Hadj.
  revert st queue. induction idxs as [|i idxs IH]; intros st queue H Hidx; cbn [foldl].
  { exists st, queue. split; [done|split; [done|]]. split; [done|split; [done|split; [lia|]]].
    intros ? ? ? ?%elem_of_nil. done. }
  destruct (adjacent_edge _ _ _ p i H) as (e & He & Hc); [apply Hidx; by left|].
  assert (Hidx' : forall j, j ∈ idxs -> j ∈ default [] (adjacency !! p)) by (intros; apply Hidx; by right).
  assert (Hother : forall e0 c, E !! i = Some e0 -> connects e0 p c ->
    c = if String.eqb (Source e) p then Target e else Source e).
  { intros e0 c He0 Hc0. assert (Hs : skeleton e = skeleton e0).
    { pose proof (f_equal (fun l => l !! i) (inv_edges _ _ _ H)) as Hs. simpl in Hs.
      rewrite !list_lookup_fmap, He, He0 in Hs. by apply (inj Some) in Hs. }
    apply (skeleton_connects e0 e) in Hc0; [|done]. destruct Hc0 as [Hj [[<- <-]|[<- <-]]].
    - by rewrite String.eqb_refl.
    - destruct (String.eqb_spec (Source e) (Target e)) as [Eq|]; [|done].
      unfold joins in Hj. rewrite Eq, String.eqb_refl, andb_false_r in Hj. done. }
  unfold visit_edge at 2. rewrite He. cbv zeta.
  set (c := if String.eqb (Source e) p then _ else _) in *.
  destruct (bool_decide_reflect (c ∈ f_visited st)) as [Hv|Hv].
  - destruct (IH st queue H Hidx') as (st' & queue' & -> & H' & Hr & Hsub & Hlen & Hall).
    exists st', queue'. repeat (split; [done|]). intros j e' c' [->|Hj]%elem_of_cons He' Hc'.
    + rewrite (Hother e' c' He' Hc'). by apply Hsub.
    + by eapply Hall.
  - assert (H2 : Inv cur (p :: queue ++ [c]) (add_child st p c i)).
    { apply (Inv_add_child cur (p :: queue) st p c i e); [done|by left|done|done|done]. }
    destruct (IH _ _ H2 Hidx') as (st' & queue' & Hf & H' & Hr & Hsub & Hlen & Hall). unfold add_child in Hf, Hsub, Hlen, Hr.
    exists st', queue'. split; [exact Hf|]. split; [done|]. split; [exact Hr|]. simpl in Hsub, Hlen.
    split; [set_solver|]. split.
    + rewrite size_union, size_singleton, length_app in Hlen by set_solver. simpl in Hlen. lia.
    + intros j e' c' [->|Hj]%elem_of_cons He' Hc'; [|by eapply Hall].
      rewrite (Hother e' c' He' Hc'). apply Hsub. set_solver.
Qed.

(** Once its neighbours are visited a node is done. *)
Lemma Inv_close cur p queue st :
  Inv cur (p :: queue) st -> (forall y, linked p y -> y ∈ f_visited st) -> Inv cur queue st.
Proof using Type.
  intros H Hall. split; try apply H.
  - intros x Hx. apply (inv_open _ _ _ H). by right.
  - intros x y Hx Ho Hl. destruct (decide (x = p)) as [->|Hne].
    2:{ apply (inv_done _ _ _ H); [done| |done]. rewrite elem_of_cons. tauto. }
    pose proof (Hall y Hl) as Hy. split; [done|].
    destruct (decide (y ∈ p :: queue)) as [Hyo|Hyo].
    + exists cur. split; [apply (inv_open _ _ _ H); by left|by apply (inv_open _ _ _ H)].
    + destruct (inv_done _ _ _ H y p Hy Hyo (linked_sym _ _ Hl)) as (_ & r & ? & ?). by exists r.
Qed.

Lemma linked_adjacent p y : linked p y -> exists i e, i ∈ default [] (adjacency !! p) /\ E !! i = Some e /\ connects e p y.
Proof using Hadj.
  intros (e & [i Hi]%list_elem_of_lookup_1 & Hc). exists i, e. split; [|done]. apply Hadj. exists e.
  split; [done|]. destruct Hc as [Hj [[<- _]|[_ <-]]]; (split; [done|]); [by left|by right].
Qed.

Lemma Inv_size cur opened st : Inv cur opened st -> (size (f_visited st) <= length ids)%nat.
Proof using Hids.
  intros H. rewrite <-(size_list_to_set (C := gset string) ids Hids). apply subseteq_size.
  intros x Hx. apply elem_of_list_to_set. by apply (inv_visited _ _ _ H).
Qed.

Lemma bfs_spec cur fuel st queue :
  Inv cur queue st -> (length queue + (length ids - size (f_visited st)) <= fuel)%nat ->
  exists st', bfs byID adjacency fuel st queue = Some st' /\ Inv cur [] st' /\
    f_roots st' = f_roots st /\ f_visited st ⊆ f_visited st'.
Proof using Hids HbyID Hclosed Hadj.
  revert st queue. induction fuel as [|fuel IH]; intros st [|p queue] H Hf; cbn [bfs length] in *.
  1, 3: by exists st.
  { lia. }
  destruct (fold_edges cur p (default [] (adjacency !! p)) st queue H (fun _ => id))
    as (st1 & queue1 & -> & H1 & Hr1 & Hs1 & Hl1 & Hall).
  assert (H2 : Inv cur queue1 st1).
  { apply (Inv_close cur p); [done|]. intros y (i & e & Hi & He & Hc)%linked_adjacent. by eapply Hall. }
  pose proof (Inv_size _ _ _ H1). pose proof (Inv_size _ _ _ H).
  destruct (IH st1 queue1 H2) as (st' & -> & H' & Hr & Hs); [lia|].
  exists st'. split; [done|split; [done|split; [congruence|set_solver]]].
Qed.

Definition start_tree (id : string) (st : forest) : forest :=
  {| f_nodes := place byID id None 0 (f_nodes st); f_edges := f_edges st;
     f_visited := {[id]} ∪ f_visited st; f_roots := f_roots st ++ [id] |}.

Lemma Inv_start cur id st :
  Inv cur [] st -> id ∈ ids -> id ∉ f_visited st -> Inv id [id] (start_tree id st).
Proof using Hids HbyID Hclosed Hadj.
  intros H Hid Hv. pose proof (inv_ids _ _ _ H) as Hn.
  assert (Hpar : forall y, parent_in (f_nodes (start_tree id st)) y = parent_in (f_nodes st) y).
  { intros y. simpl. rewrite place_parent by done. destruct (decide (y = id)) as [->|]; [|done].
    symmetry. by apply (inv_fresh _ _ _ H). }
  assert (Hdep : forall y, depth_in (f_nodes (start_tree id st)) y
    = if decide (y = id) then Some 0 else depth_in (f_nodes st) y) by (intros; by apply place_depth).
  assert (Htree : forall r y, in_tree (parent_in (f_nodes st)) r y -> in_tree (parent_in (f_nodes (start_tree id st))) r y).
  { intros r y Ht. by eapply in_tree_ext. }
  assert (Hvis : forall y, y ∈ f_visited (start_tree id st) <-> y = id \/ y ∈ f_visited st).
  { intros y. simpl. by rewrite elem_of_union, elem_of_singleton. }
  assert (Hroots : forall y, y ∈ f_roots (start_tree id st) <-> y ∈ f_roots st \/ y = id).
  { intros y. simpl. by rewrite elem_of_app, list_elem_of_singleton. }
  assert (Hold : forall y, y ∈ f_visited st -> y <> id) by (intros y Hy ->; done).
  split.
  - simpl. by rewrite place_ids.
  - apply H.
  - intros x [->|Hx]%Hvis; [done|]. by apply (inv_visited _ _ _ H).
  - intros x Hx. rewrite Hvis in Hx. rewrite Hpar. apply (inv_fresh _ _ _ H). by intros ?; apply Hx; right.
  - intros x [Hx| ->]%Hroots.
    + destruct (inv_root _ _ _ H x Hx) as (Hxv & ? & ?). rewrite Hvis, Hpar, Hdep, decide_False by auto. auto.
    + rewrite Hvis, Hpar, Hdep, decide_True by done. split; [by left|split; [|done]]. by apply (inv_fresh _ _ _ H).
  - intros x Hx Hr. rewrite Hroots in Hr. apply Hvis in Hx as [->|Hx]; [destruct Hr; by right|].
    destruct (inv_child _ _ _ H x Hx) as (p & d & e & Hp & Hpv & Hd & Hdx & Hrest); [by intros ?; apply Hr; left|].
    exists p, d, e. rewrite Hpar, !Hdep, Hvis, !decide_False by auto. auto.
  - simpl. apply NoDup_app. split; [apply (inv_roots _ _ _ H)|]. split; [|apply NoDup_singleton].
    intros x Hx ->%list_elem_of_singleton. by apply (inv_root _ _ _ H) in Hx as [? _].
  - simpl. rewrite length_app, size_union by set_solver. rewrite size_singleton. simpl.
    pose proof (inv_count _ _ _ H). lia.
  - intros e He Ht. rewrite !Hvis. destruct (inv_marked _ _ _ H e He Ht). auto.
  - intros x ->%list_elem_of_singleton. split; [rewrite Hvis; by left|]. apply tree_root. rewrite Hpar.
    by apply (inv_fresh _ _ _ H).
  - intros x y Hx Ho Hl. apply Hvis in Hx as [->|Hx]; [destruct Ho; by left|].
    destruct (inv_done _ _ _ H x y Hx) as (Hy & r & ? & ?); [apply not_elem_of_nil|done|].
    split; [rewrite Hvis; by right|]. exists r. by split; apply Htree.
Qed.

Lemma visit_spec cur fuel id st :
  Inv cur [] st -> id ∈ ids -> id ∉ f_visited st -> (length ids <= fuel)%nat ->
  exists st', visit byID adjacency fuel id st = Some st' /\ Inv id [] st' /\
    f_roots st' = f_roots st ++ [id] /\ f_visited st ⊆ f_visited st' /\ id ∈ f_visited st'.
Proof using Hids HbyID Hclosed Hadj.
  intros H Hid Hv Hf. pose proof (Inv_start _ _ _ H Hid Hv) as Hs.
  pose proof (Inv_size _ _ _ Hs) as Hsz. unfold visit. fold (start_tree id st).
  destruct (bfs_spec id fuel _ _ Hs) as (st' & -> & H' & Hr & Hsub).
  { simpl in *. rewrite size_union, size_singleton in * by set_solver. lia. }
  exists st'. split; [done|split; [done|split; [done|]]]. simpl in Hsub. set_solver.
Qed.

Lemma visit_all_spec cur fuel kind nodes st :
  Inv cur [] st -> (length ids <= fuel)%nat -> (forall n, n ∈ nodes -> NodeID n ∈ ids) ->
  exists cur' st', visit_all byID adjacency fuel kind nodes st = Some st' /\ Inv cur' [] st' /\
    f_visited st ⊆ f_visited st' /\ (exists more, f_roots st' = f_roots st ++ more) /\
    (kind = "" -> forall n, n ∈ nodes -> NodeID n ∈ f_visited st').
Proof using Hids HbyID Hclosed Hadj.
  intros H Hf. revert cur st H. induction nodes as [|n nodes IH]; intros cur st H Hn; cbn [visit_all].
  { exists cur, st. split; [done|split; [done|split; [done|split]]]; [exists []; by rewrite app_nil_r|].
    intros _ ? ?%elem_of_nil. done. }
  assert (Hn' : forall m, m ∈ nodes -> NodeID m ∈ ids) by (intros; apply Hn; by right).
  destruct (bool_decide_reflect (NodeID n ∉ f_visited st)) as [Hv|Hv]; cbn [andb].
  - destruct (is_empty kind || String.eqb (NodeKind n) kind) eqn:Ek.
    + destruct (visit_spec cur fuel (NodeID n) st H) as (st1 & -> & H1 & Hr1 & Hs1 & Hin); [apply Hn; by left|done|done|].
      destruct (IH _ st1 H1 Hn') as (cur' & st' & -> & H' & Hs & (more & Hr) & Hall).
      exists cur', st'. split; [done|split; [done|split; [set_solver|split]]].
      * exists ([NodeID n] ++ more). by rewrite Hr, Hr1, <-app_assoc.
      * intros Hk m [->|Hm]%elem_of_cons; [by apply Hs|by apply Hall].
    + destruct (IH _ st H Hn') as (cur' & st' & -> & H' & Hs & Hr & Hall).
      exists cur', st'. split; [done|split; [done|split; [done|split; [done|]]]]. intros ->. done.
  - destruct (IH _ st H Hn') as (cur' & st' & -> & H' & Hs & Hr & Hall).
    exists cur', st'. split; [done|split; [done|split; [done|split; [done|]]]].
    intros Hk m [->|Hm]%elem_of_cons; [apply Hs; by apply dec_stable|by apply Hall].
Qed.

(** Roles are not part of the invariant. *)
Lemma Inv_role cur opened st i :
  Inv cur opened st ->
  Inv cur opened {| f_nodes := set_root_role i (f_nodes st); f_edges := f_edges st;
                    f_visited := f_visited st; f_roots := f_roots st |}.
Proof using Type.
  intros H. assert (Hi : ids_of (set_root_role i (f_nodes st)) = ids_of (f_nodes st)) by (by apply ids_of_alter).
  assert (Hf : forall x, parent_in (set_root_role i (f_nodes st)) x = parent_in (f_nodes st) x /\
                         depth_in (set_root_role i (f_nodes st)) x = depth_in (f_nodes st) x).
  { intros x. unfold parent_in, depth_in, set_root_role. clear H Hi. generalize (f_nodes st). intros nodes. revert i.
    induction nodes as [|n nodes IH]; intros [|i]; cbn; try done; destruct (String.eqb (NodeID n) x); try done. }
  assert (Htree : forall r x, in_tree (parent_in (f_nodes st)) r x -> in_tree (parent_in (set_root_role i (f_nodes st))) r x).
  { intros r x Ht. eapply in_tree_ext; [exact Ht|]. intros y. symmetry. apply Hf. }
  destruct H. split; cbn [f_nodes f_edges f_visited f_roots]; try done.
  - congruence.
  - intros x Hx. rewrite (proj1 (Hf x)). auto.
  - intros x Hx. rewrite (proj1 (Hf x)), (proj2 (Hf x)). auto.
  - intros x Hx Hr. destruct (inv_child0 x Hx Hr) as (p & d & e & ?). exists p, d, e.
    by rewrite (proj1 (Hf x)), (proj2 (Hf x)), (proj2 (Hf p)).
  - intros x Hx. destruct (inv_open0 x Hx). auto.
  - intros x y Hx Ho Hl. destruct (inv_done0 x y Hx Ho Hl) as (? & r & ? & ?). split; [done|]. exists r. auto.
Qed.
End invariant.

(** ** The forest *)

Lemma insert_by_key {A K} (key : A -> K) (less : K -> K -> bool) x l :
  key <$> insert_by (less_on key less) x l = insert_by less (key x) (key <$> l).
Proof. induction l as [|y l IH]; csimpl; [done|]. unfold less_on at 1. destruct (less (key y) (key x)); csimpl; by rewrite ?IH. Qed.

Lemma sort_by_key {A K} (key : A -> K) (less : K -> K -> bool) (l : list A) :
  key <$> sort_by (less_on key less) l = sort_by less (key <$> l).
Proof. induction l as [|x l IH]; csimpl; [done|]. by rewrite insert_by_key, IH. Qed.

Lemma ids_reset nodes : ids_of (reset_node <$> nodes) = ids_of nodes.
Proof. unfold ids_of. rewrite <-list_fmap_compose. by apply list_fmap_ext. Qed.

Lemma find_reset nodes x : parent_in (reset_node <$> nodes) x = None.
Proof. unfold parent_in. induction nodes as [|n nodes IH]; csimpl; [done|]. by destruct (String.eqb _ x). Qed.

Lemma tree_count_secondary edges : tree_count (with_role "secondary" <$> edges) = 0%nat.
Proof. unfold tree_count. induction edges as [|e edges IH]; [done|]. exact IH. Qed.

(** Both ends of the edge are among [ids]. *)
Definition within (ids : list string) (e : GraphEdge) : bool :=
  bool_decide (Source e ∈ ids) && bool_decide (Target e ∈ ids).

Lemma closed_edges_within byID ids edges :
  (forall x, is_Some (byID !! x) <-> x ∈ ids) ->
  closed_edges byID edges = with_role "secondary" <$> List.filter (within ids) edges.
Proof.
  intros H. unfold closed_edges. f_equal. apply List.filter_ext. intros e. unfold closed_edge, within.
  f_equal; apply bool_decide_ext; apply H.
Qed.

Lemma Inv_initial ids nodes E cur :
  ids_of nodes = ids ->
  Inv ids (with_role "secondary" <$> E) cur []
    {| f_nodes := reset_node <$> nodes; f_edges := with_role "secondary" <$> E; f_visited := ∅; f_roots := [] |}.
Proof.
  intros Hn. split; cbn [f_nodes f_edges f_visited f_roots]; try done.
  - by rewrite ids_reset.
  - intros x _. apply find_reset.
  - intros x Hx. by apply elem_of_nil in Hx.
  - constructor.
  - by rewrite tree_count_secondary.
  - intros e (e' & -> & _)%list_elem_of_fmap Ht. done.
  - intros x Hx. by apply elem_of_nil in Hx.
Qed.

(** The three phases of the construction end in an invariant state in which
    every node is visited. *)
Lemma build_spec nodes edges rootID ids :
  sort_strings (ids_of nodes) = ids -> NoDup ids ->
  exists E cur st, E = with_role "secondary" <$> List.filter (within ids) (sortGraphEdges edges) /\
    buildPresentationTree nodes edges rootID
    = Some (f_nodes st, f_edges st, {| RootID := rootID; RootIDs := f_roots st |}) /\
    Inv ids E cur [] st /\ (forall x, x ∈ ids -> x ∈ f_visited st) /\
    (rootID ∈ ids -> head (f_roots st) = Some rootID).
Proof.
  intros Hids Hnd. set (sorted := sortGraphNodes nodes).
  assert (Hs : ids_of sorted = ids) by (rewrite <-Hids; apply sort_by_key).
  set (byID := index_nodes 0 (reset_node <$> sorted) ∅).
  assert (HbyID : forall x j, byID !! x = Some j <-> ids !! j = Some x).
  { intros x j. unfold byID. rewrite index_nodes_lookup by (try rewrite ids_reset, Hs; done).
    rewrite lookup_empty, ids_reset, Hs. split; [intros [?|(k & -> & ?)]; done|]. intros Hj. right. by exists j. }
  assert (Hdom : forall x, is_Some (byID !! x) <-> x ∈ ids).
  { intros x. split; [intros [j Hj]; apply HbyID in Hj; by eapply list_elem_of_lookup_2|].
    intros [j Hj]%list_elem_of_lookup_1. exists j. by apply HbyID. }
  set (E := with_role "secondary" <$> List.filter (within ids) (sortGraphEdges edges)).
  assert (HE : closed_edges byID (sortGraphEdges edges) = E) by (by apply closed_edges_within).
  set (adj := index_edges 0 E ∅).
  assert (Hadj : forall p k, k ∈ default [] (adj !! p) <-> exists e, E !! k = Some e /\ joins e = true /\ touches e p).
  { intros p k. unfold adj. rewrite index_edges_elem, lookup_empty. simpl. split.
    - intros [Hk|(j & e & -> & ?)]; [by apply elem_of_nil in Hk|]. by exists e.
    - intros (e & ?). right. by exists k, e. }
  assert (Hcl : forall e, e ∈ E -> Source e ∈ ids /\ Target e ∈ ids).
  { intros e (e' & -> & He)%list_elem_of_fmap. apply list_elem_of_In, filter_In in He as [_ Hw].
    apply andb_true_iff in Hw as [?%bool_decide_eq_true ?%bool_decide_eq_true]. done. }
  assert (Hfuel : (length ids <= length (reset_node <$> sorted))%nat).
  { rewrite <-Hs. unfold ids_of. by rewrite !length_fmap. }
  assert (Hin : forall n, n ∈ reset_node <$> sorted -> NodeID n ∈ ids).
  { intros n Hn. rewrite <-Hs, <-(ids_reset sorted). by apply list_elem_of_fmap_2. }
  exists E. unfold buildPresentationTree. fold sorted byID. rewrite HE. fold adj. cbv zeta.
  pose proof (Inv_initial ids sorted (List.filter (within ids) (sortGraphEdges edges)) rootID Hs) as H0. fold E in H0.
  set (rooted := match byID !! rootID with None => _ | _ => _ end).
  assert (H1 : exists cur st, rooted = Some st /\ Inv ids E cur [] st /\ (rootID ∈ ids -> head (f_roots st) = Some rootID)).
  { unfold rooted. destruct (byID !! rootID) as [i|] eqn:Ei.
    - destruct (visit_spec ids E byID adj Hnd HbyID Hadj Hcl rootID (length (reset_node <$> sorted)) rootID _ H0)
        as (st & -> & H & Hr & _ & _); [by apply Hdom|apply not_elem_of_empty|done|].
      eexists _, _. split; [done|]. split; [by apply Inv_role|]. simpl. by rewrite Hr.
    - eexists _, _. split; [done|split; [exact H0|]]. intros Hx%Hdom. rewrite Ei in Hx. by destruct Hx. }
  clearbody rooted. destruct H1 as (cur & st1 & -> & H1 & Hr1).
  destruct (visit_all_spec ids E byID adj Hnd HbyID Hadj Hcl cur _ "ap" _ st1 H1 Hfuel Hin)
    as (cur2 & st2 & -> & H2 & Hs2 & (m2 & Hm2) & _).
  destruct (visit_all_spec ids E byID adj Hnd HbyID Hadj Hcl cur2 _ "" _ st2 H2 Hfuel Hin)
    as (cur3 & st3 & -> & H3 & Hs3 & (m3 & Hm3) & Hall).
  exists cur3, st3. split; [done|split; [done|split; [done|split]]].
  - intros x Hx. rewrite <-Hs, <-(ids_reset sorted) in Hx. apply list_elem_of_fmap in Hx as (n & -> & Hn). by apply Hall.
  - intros Hx. specialize (Hr1 Hx). rewrite Hm3, Hm2. by destruct (f_roots st1).
Qed.

(** C5. The presentation forest.  For nodes with distinct ids the construction
    ends and lays a spanning forest over the page: the nodes in id order and the
    edges between them are kept; every node is either a listed root of depth 0
    or hangs one level below a parent it shares an association edge marked
    "tree" with; roots and tree edges together count the nodes, so no edge is
    wasted and there is no cycle; the ends of every association are in one tree;
    and a root that is present leads. *)
Theorem presentation_forest nodes edges rootID :
  NoDup (ids_of nodes) ->
  exists nodes' edges' h,
    buildPresentationTree nodes edges rootID = Some (nodes', edges', h) /\
    ids_of nodes' = sort_strings (ids_of nodes) /\
    skeleton <$> edges' = skeleton <$> List.filter (within (ids_of nodes')) (sortGraphEdges edges) /\
    NoDup (RootIDs h) /\
    (forall x, x ∈ ids_of nodes ->
       x ∈ RootIDs h /\ parent_in nodes' x = None /\ depth_in nodes' x = Some 0 \/
       x ∉ RootIDs h /\ exists p d e, parent_in nodes' x = Some p /\ depth_in nodes' p = Some d /\
         depth_in nodes' x = Some (d + 1) /\ e ∈ edges' /\ is_tree e = true /\ connects e p x) /\
    (length (RootIDs h) + tree_count edges' = length nodes)%nat /\
    (forall e, e ∈ edges' -> joins e = true ->
       exists r, in_tree (parent_in nodes') r (Source e) /\ in_tree (parent_in nodes') r (Target e)) /\
    (rootID ∈ ids_of nodes -> head (RootIDs h) = Some rootID).
Proof.
  intros Hnd. set (ids := sort_strings (ids_of nodes)).
  assert (Hp : ids ≡ₚ ids_of nodes) by apply sort_by_perm.
  destruct (build_spec nodes edges rootID ids eq_refl) as (E & cur & st & HE & -> & H & Hall & Hroot); [by rewrite Hp|].
  exists (f_nodes st), (f_edges st), {| RootID := rootID; RootIDs := f_roots st |}.
  pose proof (inv_ids _ _ _ _ _ H) as Hn. pose proof (inv_edges _ _ _ _ _ H) as He.
  split; [done|split; [done|split; [|split; [apply (inv_roots _ _ _ _ _ H)|split; [|split; [|split]]]]]].
  - rewrite He, HE, Hn, <-list_fmap_compose. by apply list_fmap_ext.
  - intros x Hx. rewrite <-Hp in Hx. simpl. destruct (decide (x ∈ f_roots st)) as [Hr|Hr].
    + left. split; [done|]. by apply (inv_root _ _ _ _ _ H).
    + right. split; [done|]. destruct (inv_child _ _ _ _ _ H x (Hall x Hx) Hr) as (p & d & e & ? & _ & ?).
      by exists p, d, e.
  - simpl. rewrite (inv_count _ _ _ _ _ H).
    assert (Ev : f_visited st = list_to_set ids).
    { apply set_eq. intros x. rewrite elem_of_list_to_set. split; [apply (inv_visited _ _ _ _ _ H)|apply Hall]. }
    rewrite Ev, size_list_to_set by (by rewrite Hp). rewrite Hp. unfold ids_of. apply length_fmap.
  - intros e Hee Hj. destruct (Inv_edge _ _ _ _ _ _ H Hee) as (e' & He' & Hs).
    assert (Hc : connects e' (Source e) (Target e)).
    { apply (skeleton_connects e e'); [done|]. split; [done|by left]. }
    destruct (inv_done _ _ _ _ _ H (Source e) (Target e)) as (_ & r & ? & ?); [|apply not_elem_of_nil|by exists e'|by exists r].
    apply Hall. rewrite HE in He'. apply list_elem_of_fmap in He' as (e2 & -> & Hf).
    apply list_elem_of_In, filter_In in Hf as [_ Hw]. apply andb_true_iff in Hw as [Hw _].
    apply bool_decide_eq_true in Hw. assert (Es := f_equal Source Hs). simpl in Es. by rewrite Es.
  - intros Hx. apply Hroot. by rewrite Hp.
Qed.

Lemma presentation_forest_witness :
  NoDup (ids_of demo_nodes) /\
  exists nodes' edges' h, buildPresentationTree demo_nodes demo_edges "d1" = Some (nodes', edges', h) /\
    (length (RootIDs h) + tree_count edges' = 4)%nat.
Proof.
  assert (Hnd : NoDup (ids_of demo_nodes)) by (apply (bool_decide_eq_true_1 (NoDup (ids_of demo_nodes))); vm_compute; reflexivity).
  split; [exact Hnd|].
  destruct (presentation_forest demo_nodes demo_edges "d1" Hnd) as (ns & es & h & H & _ & _ & _ & _ & Hc & _).
  exists ns, es, h. split; [exact H|exact Hc].
Defined.
