(* ===== verification/GraphPages.v ===== *)
(** * Graph queries and pages (internal/reporting: graph_assembly.go,
    graph_queries.go, graph_hierarchy.go, graph_projection.go)

    The statements of a graph request as functions of the stored projection,
    and the three ways a request is answered: a keyset page, a hierarchy and a
    recency snapshot.  Text is compared byte-wise, as under the C collation;
    ids are primary keys. *)

From S2P Require Import Prelude GoErrors GoStrings GoSort GoFloats QueryScope Pagination Graph GraphTree.
From Stdlib Require Import Sorted.
#[local] Open Scope go_scope.

(** ** The stored projection *)

Record topology_edge := {
  te_row : graphEdgeRow;
  te_expires_at : option time;
  te_range_valid_until : option time;
}.

(** The legacy tables, the stream topology, and the rows the reviewed identity
    clusters contribute to it. *)
Record graph_store := {
  legacy_nodes : list graphNodeRow;
  legacy_edges : list graphEdgeRow;
  topology_nodes : list graphNodeRow;
  topology_edges : list topology_edge;
  identity_nodes : list graphNodeRow;
  identity_edges : list graphEdgeRow;
}.

Definition later_than (now : time) (t : option time) : bool :=
  match t with Some t => now <? t | None => false end.

Definition live_edge (now : time) (e : topology_edge) : bool :=
  (bool_decide (te_expires_at e = None) || later_than now (te_expires_at e))
  && (negb (String.eqb (row_edge_kind (te_row e)) "calibrated_range")
      || later_than now (te_range_valid_until e)).

Definition graphNodesTable (st : graph_store) (f : GraphFilters) : list graphNodeRow :=
  if negb (String.eqb (Projection f) "stream") then legacy_nodes st
  else topology_nodes st ++ (if IncludeIdentity f then identity_nodes st else []).

Definition graphEdgesTable (st : graph_store) (now : time) (f : GraphFilters) : list graphEdgeRow :=
  if negb (String.eqb (Projection f) "stream") then legacy_edges st
  else (te_row <$> List.filter (live_edge now) (topology_edges st))
       ++ (if IncludeIdentity f then identity_edges st else []).

(** ** Conditions *)

Definition graphNodePageWhere (f : GraphFilters) (row : graphNodeRow) : bool :=
  in_list (LocationIDs f) (row_location_id row)
  && in_list (SensorIDs f) (row_sensor_id row)
  && (negb (FilterThreatOnly f) || row_is_threat row)
  && (is_empty (FilterSSID f) || bool_decide (row_ssid row = Some (FilterSSID f)))
  && match After f with Some t => is_true (row_observed_at row) (fun o => t <=? o) | None => true end
  && match Before f with Some t => is_true (row_observed_at row) (fun o => o <? t) | None => true end
  && in_list (graphNodeKindToDB <$> FilterKinds f) (Some (row_node_kind row)).

Definition edge_where (f : GraphFilters) (row : graphEdgeRow) : bool :=
  in_list (graphEdgeKindToDB <$> EdgeKinds f) (Some (row_edge_kind row)).

(** Both ends are in the list of ids. *)
Definition row_within (ids : list string) (row : graphEdgeRow) : bool :=
  bool_decide (row_source row ∈ ids) && bool_decide (row_target row ∈ ids).
(** One of its ends is. *)
Definition row_touches (ids : list string) (row : graphEdgeRow) : bool :=
  bool_decide (row_source row ∈ ids) || bool_decide (row_target row ∈ ids).

(** [ORDER BY observed_at DESC NULLS LAST, id] *)
Definition recency_less {A} (at_ : A -> option time) (key : A -> string) (a b : A) : bool :=
  match at_ a, at_ b with
  | Some s, Some t => if s =? t then str_ltb (key a) (key b) else t <? s
  | Some _, None => true
  | None, Some _ => false
  | None, None => str_ltb (key a) (key b)
  end.

(** ** Answers *)

Record GraphResponse := {
  ResponseHierarchy : option GraphHierarchy;
  Truncated : bool;
  Nodes : list GraphNode;
  Edges : list GraphEdge;
  NodeCount : Z;
  EdgeCount : Z;
  NextPageCursor : string;
  TotalNodeCount : option Z;
  TotalEdgeCount : option Z;
  FocusReason : string;
}.

(** The filters with the paging, scope or cursor fields replaced. *)
Definition with_paging (scope cursor : string) (limit size : Z) (f : GraphFilters) : GraphFilters := {|
  Hierarchy := Hierarchy f; RootBSSID := RootBSSID f; RootNodeID := RootNodeID f;
  Projection := Projection f; IncludeIdentity := IncludeIdentity f; LocationIDs := LocationIDs f;
  SensorIDs := SensorIDs f; FilterMAC := FilterMAC f; FilterSSID := FilterSSID f;
  FilterKinds := FilterKinds f; EdgeKinds := EdgeKinds f; FilterThreatOnly := FilterThreatOnly f;
  After := After f; Before := Before f; Hops := Hops f; Limit := limit; Scope := scope;
  PageCursor := cursor; PageSize := size |}.

Definition page_identity (f : GraphFilters) : GraphFilters := with_paging (Scope f) "" 0 0 f.

Section queries.
Context {J : GraphJSON} {C : CursorCodec} {RJ : RequestJSON GraphFilters}.
Context (st : graph_store) (now : time).

Definition filtered_ids (f : GraphFilters) (where_ : graphNodeRow -> bool) : list string :=
  row_node_id <$> List.filter where_ (graphNodesTable st f).

Definition graphNeighborIDs (f : GraphFilters) (frontier visited : list string) : list string :=
  let nodes := filtered_ids f (graphNodePageWhere f) in
  let neighbor e := if bool_decide (row_source e ∈ frontier) then row_target e else row_source e in
  remove_dups (List.filter (fun id => bool_decide (id ∉ visited))
    (neighbor <$> List.filter (fun e =>
       row_within nodes e && edge_where f e
       && (bool_decide (row_source e ∈ frontier) || bool_decide (row_target e ∈ frontier)))
     (graphEdgesTable st now f))).

Fixpoint focus_loop (f : GraphFilters) (hops : nat) (frontier visited : list string) : list string :=
  match hops with
  | O => visited
  | S hops =>
      match graphNeighborIDs f frontier visited with
      | [] => visited
      | neighbors => focus_loop f hops neighbors (visited ++ neighbors)
      end
  end.

Definition anchors (f : GraphFilters) (row : graphNodeRow) : bool :=
  let mac := ToLower (FilterMAC f) in
  graphNodePageWhere f row
  && (String.eqb (row_node_id row) ("device:" +:+ mac) || String.eqb (ToLower (default "" (row_mac row))) mac).

(** The neighbourhood of the source MAC; the anchor is the first match in table order. *)
Definition graphFocusNodeIDs (f : GraphFilters) : list string :=
  if is_empty (FilterMAC f) then []
  else match List.filter (anchors f) (graphNodesTable st f) with
       | [] => []
       | anchor :: _ => focus_loop f (Z.to_nat (Hops f)) [row_node_id anchor] [row_node_id anchor]
       end.

(** The node condition of a page: the filters, and the focus when there is one. *)
Definition page_where (f : GraphFilters) (row : graphNodeRow) : bool :=
  graphNodePageWhere f row && in_list (graphFocusNodeIDs f) (Some (row_node_id row)).

Definition page_nodes (f : GraphFilters) : list graphNodeRow :=
  List.filter (page_where f) (graphNodesTable st f).

Definition page_edges (f : GraphFilters) : list graphEdgeRow :=
  List.filter (fun e => row_within (row_node_id <$> page_nodes f) e && edge_where f e) (graphEdgesTable st now f).

(** The ids of the edges' ends that the nodes lack, in order of appearance. *)
Fixpoint missing_ids (known : list string) (ends : list string) : list string :=
  match ends with
  | [] => []
  | id :: ends => if bool_decide (id ∈ known) then missing_ids known ends else id :: missing_ids (id :: known) ends
  end.

Definition completeGraphEdgeEndpoints (f : GraphFilters) (nodes : list GraphNode) (edges : list GraphEdge)
    : list GraphNode :=
  let missing := missing_ids (ids_of nodes) (edges ≫= (fun e => [Source e; Target e])) in
  nodes ++ (graphNodeFromRow <$> sort_by (less_on row_node_id str_ltb)
              (List.filter (fun r => bool_decide (row_node_id r ∈ missing)) (graphNodesTable st f))).

Definition empty_response (reason : string) : GraphResponse := {|
  ResponseHierarchy := None; Truncated := false; Nodes := []; Edges := []; NodeCount := 0; EdgeCount := 0;
  NextPageCursor := ""; TotalNodeCount := Some 0; TotalEdgeCount := Some 0; FocusReason := reason |}.

Definition next_cursor (c : pageCursor) (nodeAfter edgeAfter : string) (nodesMore edgesMore : bool) : pageCursor := {|
  Version := Version c; Resource := Resource c; Fingerprint := Fingerprint c;
  NodeAfter := nodeAfter; EdgeAfter := edgeAfter; DeviceAfter := DeviceAfter c; TimeAfter := TimeAfter c;
  CountAfter := CountAfter c; NodesDone := negb nodesMore; EdgesDone := negb edgesMore |}.

Definition graphPage (f : GraphFilters) : GraphResponse + app_error :=
  match pageFingerprint (page_identity f) with
  | inr err => inr (Plain err)
  | inl fingerprint =>
      let! cursor := decodePageCursor (PageCursor f) "graph" fingerprint in
      if bool_decide (graphFocusNodeIDs f = []) && negb (is_empty (FilterMAC f))
      then inl (empty_response "Identifier not found in the selected projection scope.")
      else
        let '(nodeRows, nodesMore) :=
          fetch_page row_node_id (NodeAfter cursor) (NodesDone cursor) (PageSize f) (page_nodes f) in
        let '(edgeRows, edgesMore) :=
          fetch_page row_edge_id (EdgeAfter cursor) (EdgesDone cursor) (PageSize f) (page_edges f) in
        let own := graphNodeFromRow <$> nodeRows in
        let edges := (fun r => graphEdgeFromRow r now) <$> edgeRows in
        let nodes := completeGraphEdgeEndpoints f own edges in
        inl {| ResponseHierarchy := None; Truncated := false; Nodes := nodes; Edges := edges;
               NodeCount := Z.of_nat (length nodes); EdgeCount := Z.of_nat (length edges);
               NextPageCursor :=
                 if nodesMore || edgesMore
                 then encodePageCursor (next_cursor cursor (last_id NodeID (NodeAfter cursor) own)
                        (last_id EdgeID (EdgeAfter cursor) edges) nodesMore edgesMore)
                 else "";
               TotalNodeCount := Some (Z.of_nat (length (page_nodes f)));
               TotalEdgeCount := Some (Z.of_nat (length (page_edges f)));
               FocusReason := "" |}
  end.

(** ** The other two answers *)

(** The database's root and its walk: the node rows, the neighbourhood's size
    and the number of relationships with a missing end. *)
Context (resolveGraphRoot : GraphFilters -> string)
        (hierarchy_rows : GraphFilters -> string -> list graphNodeRow * Z * Z).

Definition fetchGraphHierarchyEdges (f : GraphFilters) (nodes : list GraphNode) : list GraphEdge :=
  (fun r => graphEdgeFromRow r now) <$>
    sort_by (less_on row_edge_id str_ltb) (List.filter (row_within (ids_of nodes)) (graphEdgesTable st now f)).

Definition limit_reason (limit shown total : Z) : string :=
  "Node limit " +:+ Itoa limit +:+ " reached; showing " +:+ Itoa shown +:+ " of " +:+ Itoa total
  +:+ " nodes in the root neighborhood.".

Definition missing_reason (missing : Z) : string :=
  Itoa missing +:+ " association relationships reference missing projected nodes.".

Definition graphHierarchy (f : GraphFilters) : option GraphResponse :=
  let root := resolveGraphRoot f in
  if is_empty root
  then Some {| ResponseHierarchy := Some {| RootID := ""; RootIDs := [] |}; Truncated := false; Nodes := [];
               Edges := []; NodeCount := 0; EdgeCount := 0; NextPageCursor := ""; TotalNodeCount := Some 0;
               TotalEdgeCount := Some 0; FocusReason := "Root not found in the selected projection scope." |}
  else
    let '(rows, totalNodes, missing) := hierarchy_rows f root in
    let nodes := graphNodeFromRow <$> rows in
    match buildPresentationTree nodes (fetchGraphHierarchyEdges f nodes) root with
    | None => None
    | Some (nodes, edges, hierarchy) =>
        let shown := Z.of_nat (length nodes) in
        let capped := shown <? totalNodes in
        let reason := if capped then limit_reason (Limit f) shown totalNodes else "" in
        let reason := if 0 <? missing
                      then (if is_empty reason then "" else reason +:+ " ") +:+ missing_reason missing
                      else reason in
        Some {| ResponseHierarchy := Some hierarchy; Truncated := capped || (0 <? missing);
                Nodes := nodes; Edges := edges; NodeCount := shown; EdgeCount := Z.of_nat (length edges);
                NextPageCursor := ""; TotalNodeCount := Some totalNodes; TotalEdgeCount := None;
                FocusReason := reason |}
    end.

Definition fetchGraphNodes (f : GraphFilters) : list GraphNode :=
  graphNodeFromRow <$> take (Z.to_nat (Limit f))
    (sort_by (recency_less row_observed_at row_node_id)
       (List.filter (graphNodePageWhere f) (graphNodesTable st f))).

Definition fetchGraphEdges (f : GraphFilters) (nodes : list GraphNode) (eitherEndpoint : bool) : list GraphEdge :=
  let joined := if eitherEndpoint then row_touches (ids_of nodes) else row_within (ids_of nodes) in
  match nodes with
  | [] => []
  | _ =>
      (fun r => graphEdgeFromRow r now) <$> take (Z.to_nat (Limit f))
        (sort_by (recency_less row_edge_observed_at row_edge_id)
           (List.filter (fun e => joined e && edge_where f e) (graphEdgesTable st now f)))
  end.

(** The recency snapshot, cut to the limit with the edges that keep both ends. *)
Definition graph_snapshot (f : GraphFilters) : GraphResponse :=
  let nodes := sortGraphNodes (fetchGraphNodes f) in
  let edges := sortGraphEdges (fetchGraphEdges f (fetchGraphNodes f) false) in
  let kept := if Limit f <? Z.of_nat (length nodes) then take (Z.to_nat (Limit f)) nodes else nodes in
  let edges := if Limit f <? Z.of_nat (length nodes) then List.filter (within (ids_of kept)) edges else edges in
  {| ResponseHierarchy := None; Truncated := false; Nodes := kept; Edges := edges;
     NodeCount := Z.of_nat (length kept); EdgeCount := Z.of_nat (length edges); NextPageCursor := "";
     TotalNodeCount := None; TotalEdgeCount := None; FocusReason := "" |}.

Definition with_projection (projection : string) (f : GraphFilters) : GraphFilters := {|
  Hierarchy := Hierarchy f; RootBSSID := RootBSSID f; RootNodeID := RootNodeID f;
  Projection := projection; IncludeIdentity := IncludeIdentity f; LocationIDs := LocationIDs f;
  SensorIDs := SensorIDs f; FilterMAC := FilterMAC f; FilterSSID := FilterSSID f;
  FilterKinds := FilterKinds f; EdgeKinds := EdgeKinds f; FilterThreatOnly := FilterThreatOnly f;
  After := After f; Before := Before f; Hops := Hops f; Limit := Limit f; Scope := Scope f;
  PageCursor := PageCursor f; PageSize := PageSize f |}.

(** Service.Graph; a hierarchy is always built (see the forest theorem). *)
Definition service_Graph (wirelessProjection : bool) (f : GraphFilters) : option (GraphResponse + app_error) :=
  let f := if is_empty (Projection f) && wirelessProjection then with_projection "stream" f else f in
  match NormalizeGraphFilters f with
  | inr err => Some (inr err)
  | inl f =>
      if Hierarchy f then inl <$> graphHierarchy f
      else if String.eqb (Scope f) "all" then Some (graphPage f)
      else if negb (is_empty (FilterMAC f))
      then Some (graphPage (with_paging "all" (PageCursor f) (Limit f) (Limit f) f))
      else Some (inl (graph_snapshot f))
  end.
End queries.

(** ** Following the cursors *)

Section pages.
Context {J : GraphJSON} {C : CursorCodec} {RJ : RequestJSON GraphFilters}.
Context (st : graph_store) (now : time).

Definition at_cursor (cursor : string) (f : GraphFilters) : GraphFilters :=
  with_paging (Scope f) cursor (Limit f) (PageSize f) f.

(** What a client gets for a cursor. *)
Definition graph_page_at (f : GraphFilters) (cursor : string) : option GraphResponse :=
  match graphPage st now (at_cursor cursor f) with inl page => Some page | inr _ => None end.

Lemma focus_loop_at_cursor cursor f hops frontier visited :
  focus_loop st now (at_cursor cursor f) hops frontier visited = focus_loop st now f hops frontier visited.
Proof.
  revert frontier visited. induction hops as [|hops IH]; intros; cbn [focus_loop]; [done|].
  change (graphNeighborIDs st now (at_cursor cursor f) frontier visited)
    with (graphNeighborIDs st now f frontier visited). by destruct (graphNeighborIDs _ _ _ _ _).
Qed.

Lemma focus_at_cursor cursor f : graphFocusNodeIDs st now (at_cursor cursor f) = graphFocusNodeIDs st now f.
Proof.
  unfold graphFocusNodeIDs. change (FilterMAC (at_cursor cursor f)) with (FilterMAC f).
  change (List.filter (anchors (at_cursor cursor f)) (graphNodesTable st (at_cursor cursor f)))
    with (List.filter (anchors f) (graphNodesTable st f)).
  destruct (is_empty (FilterMAC f)); [done|]. destruct (List.filter (anchors f) (graphNodesTable st f)); [done|].
  apply focus_loop_at_cursor.
Qed.

Lemma page_nodes_at_cursor cursor f : page_nodes st now (at_cursor cursor f) = page_nodes st now f.
Proof.
  unfold page_nodes. change (graphNodesTable st (at_cursor cursor f)) with (graphNodesTable st f).
  apply List.filter_ext. intros row. unfold page_where. by rewrite focus_at_cursor.
Qed.

Lemma page_edges_at_cursor cursor f : page_edges st now (at_cursor cursor f) = page_edges st now f.
Proof.
  unfold page_edges. change (graphEdgesTable st now (at_cursor cursor f)) with (graphEdgesTable st now f).
  by rewrite page_nodes_at_cursor.
Qed.

Lemma missing_ids_elem known ends x : x ∈ missing_ids known ends <-> x ∈ ends /\ x ∉ known.
Proof.
  revert known. induction ends as [|id ends IH]; intros known; cbn [missing_ids].
  { split; [intros ?%elem_of_nil; done|intros [?%elem_of_nil _]; done]. }
  destruct (bool_decide_reflect (id ∈ known)) as [Hk|Hk].
  - rewrite IH, elem_of_cons. naive_solver.
  - rewrite !elem_of_cons, IH, not_elem_of_cons. destruct (decide (x = id)) as [->|]; naive_solver.
Qed.

(** The ends of edges. *)
Definition ends_of (edges : list GraphEdge) : list string := edges ≫= (fun e => [Source e; Target e]).

Lemma ends_elem edges x : x ∈ ends_of edges <-> exists e, e ∈ edges /\ (x = Source e \/ x = Target e).
Proof.
  unfold ends_of. rewrite list_elem_of_bind. split.
  - intros (e & Hx & He). exists e. split; [done|]. by apply elem_of_cons in Hx as [->| ->%list_elem_of_singleton]; auto.
  - intros (e & He & Hx). exists e. split; [|done]. rewrite elem_of_cons, list_elem_of_singleton. done.
Qed.

(** A completed page has its own nodes and the ends of its edges. *)
Lemma complete_ids f nodes edges x :
  (forall y, y ∈ ends_of edges -> y ∈ row_node_id <$> graphNodesTable st f) ->
  x ∈ ids_of (completeGraphEdgeEndpoints st f nodes edges) <-> x ∈ ids_of nodes \/ x ∈ ends_of edges.
Proof.
  intros Ht. unfold completeGraphEdgeEndpoints. fold (ends_of edges). unfold ids_of at 1. rewrite fmap_app, elem_of_app.
  fold (ids_of nodes). rewrite <-list_fmap_compose. rewrite list_elem_of_fmap. setoid_rewrite sort_by_elem.
  setoid_rewrite list_elem_of_In. setoid_rewrite filter_In. setoid_rewrite <-list_elem_of_In.
  setoid_rewrite bool_decide_eq_true. setoid_rewrite missing_ids_elem. split.
  - intros [?|(r & -> & _ & ? & _)]; [by left|by right].
  - intros [?|Hx]; [by left|]. destruct (decide (x ∈ ids_of nodes)) as [?|Hn]; [by left|right].
    destruct (list_elem_of_fmap_1 _ _ _ (Ht x Hx)) as (r & -> & Hr). by exists r.
Qed.

(** And no node twice. *)
Lemma complete_NoDup f nodes edges :
  NoDup (row_node_id <$> graphNodesTable st f) -> NoDup (ids_of nodes) ->
  NoDup (ids_of (completeGraphEdgeEndpoints st f nodes edges)).
Proof.
  intros Ht Hn. unfold completeGraphEdgeEndpoints. fold (ends_of edges). unfold ids_of at 1. rewrite fmap_app.
  fold (ids_of nodes). rewrite <-list_fmap_compose. apply NoDup_app. split; [done|]. split.
  - intros x Hx (r & -> & Hr)%list_elem_of_fmap. rewrite sort_by_elem in Hr.
    apply list_elem_of_In, filter_In in Hr as [_ Hr]. apply bool_decide_eq_true, missing_ids_elem in Hr as [_ Hr].
    by apply Hr.
  - change (NodeID ∘ graphNodeFromRow) with row_node_id. rewrite (sort_by_perm (less_on row_node_id str_ltb)).
    eapply sublist_NoDup; [exact Ht|]. apply fmap_sublist, filter_sublist.
Qed.

Context {L : CursorLaws}.

(** What a request must satisfy for its pages to be well defined: a positive
    page size, a focus that exists, and primary keys. *)
Record pageable (f : GraphFilters) : Prop := {
  pg_size : 0 < PageSize f;
  pg_fingerprint : exists fp, pageFingerprint (page_identity f) = inl fp;
  pg_focus : FilterMAC f = "" \/ graphFocusNodeIDs st now f <> [];
  pg_nodes : NoDup (row_node_id <$> graphNodesTable st f);
  pg_node_ids : "" ∉ row_node_id <$> page_nodes st now f;
  pg_edges : NoDup (row_edge_id <$> page_edges st now f);
  pg_edge_ids : "" ∉ row_edge_id <$> page_edges st now f;
}.

Definition sorted_nodes (f : GraphFilters) := sort_by (less_on row_node_id str_ltb) (page_nodes st now f).
Definition sorted_edges (f : GraphFilters) := sort_by (less_on row_edge_id str_ltb) (page_edges st now f).
Definition as_edge (r : graphEdgeRow) : GraphEdge := graphEdgeFromRow r now.

(** A page has at most [size] edges with both ends of each, no node twice, and
    besides the ends of its edges at most [size] nodes. *)
Definition sound_page (size : Z) (page : GraphResponse) : Prop :=
  Z.of_nat (length (Edges page)) <= size /\ (forall x, x ∈ ends_of (Edges page) -> x ∈ ids_of (Nodes page)) /\
  NoDup (ids_of (Nodes page)) /\
  Z.of_nat (length (List.filter (fun x => negb (bool_decide (x ∈ ends_of (Edges page)))) (ids_of (Nodes page)))) <= size.

Lemma page_nodes_NoDup f : pageable f -> NoDup (row_node_id <$> page_nodes st now f).
Proof. intros Hf. eapply sublist_NoDup; [apply Hf|]. apply fmap_sublist, filter_sublist. Qed.

(** The cursor stands at node [k] and edge [m]. *)
Definition cursor_at (f : GraphFilters) (k m : nat) (c : pageCursor) : Prop :=
  Version c = 1 /\ Resource c = "graph" /\ pageFingerprint (page_identity f) = inl (Fingerprint c) /\
  at_position row_node_id (page_nodes st now f) k (NodeAfter c) (NodesDone c) /\
  at_position row_edge_id (page_edges st now f) m (EdgeAfter c) (EdgesDone c).

Lemma ids_of_rows rows : ids_of (graphNodeFromRow <$> rows) = row_node_id <$> rows.
Proof. unfold ids_of. rewrite <-list_fmap_compose. by apply list_fmap_ext. Qed.

Lemma last_id_fmap {A B} (g : A -> B) (key : B -> string) old rows :
  last_id key old (g <$> rows) = last_id (key ∘ g) old rows.
Proof. unfold last_id. rewrite fmap_last. by destruct (last rows). Qed.

(** The ends of the edges of a page are nodes of the page set. *)
Lemma page_edge_ends f rows x :
  (forall r, r ∈ rows -> r ∈ page_edges st now f) -> x ∈ ends_of (as_edge <$> rows) ->
  x ∈ row_node_id <$> page_nodes st now f.
Proof.
  intros Hr (e & (r & -> & Hin)%list_elem_of_fmap & Hx)%ends_elem. apply Hr in Hin.
  apply list_elem_of_In, filter_In in Hin as [_ Hw]. apply andb_true_iff in Hw as [Hw _].
  apply andb_true_iff in Hw as [Hs%bool_decide_eq_true Ht%bool_decide_eq_true]. by destruct Hx as [-> | ->].
Qed.

Lemma page_nodes_table f x : x ∈ row_node_id <$> page_nodes st now f -> x ∈ row_node_id <$> graphNodesTable st f.
Proof.
  intros (r & -> & Hr)%list_elem_of_fmap. apply list_elem_of_fmap_2.
  by apply list_elem_of_In, filter_In, proj1, list_elem_of_In in Hr.
Qed.

(** The positions a cursor stands at, and what is left behind them. *)
Notation position := (nat * nat)%type.

Definition graph_at (f : GraphFilters) (p : position) (cursor : string) : Prop :=
  exists c, cursor_at f (fst p) (snd p) c /\ decodePageCursor cursor "graph" (Fingerprint c) = inl c.

Definition graph_left (f : GraphFilters) (p : position) : bool :=
  (PageSize f <? Z.of_nat (length (page_nodes st now f) - fst p))
  || (PageSize f <? Z.of_nat (length (page_edges st now f) - snd p)).

Definition graph_advance (f : GraphFilters) (p : position) : position :=
  (advance (page_nodes st now f) (fst p) (PageSize f), advance (page_edges st now f) (snd p) (PageSize f)).

Definition graph_weight (f : GraphFilters) (p : position) : nat :=
  (length (page_nodes st now f) - fst p) + (length (page_edges st now f) - snd p).

(** The page at a position: the next edges, and the next nodes with the ends of those edges. *)
Definition graph_shows (f : GraphFilters) (p : position) (page : GraphResponse) : Prop :=
  Edges page = as_edge <$> take (Z.to_nat (PageSize f)) (drop (snd p) (sorted_edges f)) /\
  (forall x, x ∈ ids_of (Nodes page) <->
     x ∈ row_node_id <$> take (Z.to_nat (PageSize f)) (drop (fst p) (sorted_nodes f)) \/ x ∈ ends_of (Edges page)) /\
  NoDup (ids_of (Nodes page)).

Lemma one_page f p cursor :
  pageable f -> graph_at f p cursor ->
  exists page, graph_page_at f cursor = Some page /\ graph_shows f p page /\
    if graph_left f p
    then NextPageCursor page <> "" /\ graph_at f (graph_advance f p) (NextPageCursor page) /\
         (graph_weight f (graph_advance f p) < graph_weight f p)%nat
    else NextPageCursor page = "".
Proof.
  destruct p as [k m]. intros Hf (c & (Hv & Hr & Hp & Hn & He) & Hd). unfold graph_page_at, graphPage.
  change (page_identity (at_cursor cursor f)) with (page_identity f).
  change (PageCursor (at_cursor cursor f)) with cursor. rewrite Hp, Hd. cbn [sum_bind].
  change (FilterMAC (at_cursor cursor f)) with (FilterMAC f).
  change (PageSize (at_cursor cursor f)) with (PageSize f).
  rewrite focus_at_cursor, page_nodes_at_cursor, page_edges_at_cursor.
  assert (Hfoc : bool_decide (graphFocusNodeIDs st now f = []) && negb (is_empty (FilterMAC f)) = false).
  { destruct (pg_focus f Hf) as [->|Hne]; [by rewrite andb_false_r|]. by rewrite bool_decide_false. }
  rewrite Hfoc.
  pose proof (page_nodes_NoDup f Hf) as Hnd.
  rewrite (fetch_page_at row_node_id _ k) by (try done; by apply Hf).
  rewrite (fetch_page_at row_edge_id _ m) by (try done; by apply Hf).
  fold (sorted_nodes f) (sorted_edges f). fold as_edge.
  change ((_ <? _) || (_ <? _)) with (graph_left f (k, m)).
  set (nrows := take _ (drop k _)). set (erows := take _ (drop m _)).
  assert (Hends : forall y, y ∈ ends_of (as_edge <$> erows) -> y ∈ row_node_id <$> page_nodes st now f).
  { intros y. apply page_edge_ends. intros r Hr'. unfold erows in Hr'.
    eapply sublist_subseteq in Hr'; [|apply sublist_take]. eapply sublist_subseteq in Hr'; [|apply sublist_drop].
    by apply sort_by_elem in Hr'. }
  eexists. split; [reflexivity|]. split.
  { split; [done|]. cbn [Nodes Edges]. change (graphNodesTable st (at_cursor cursor f)) with (graphNodesTable st f). split.
    - intros x. rewrite complete_ids; [by rewrite ids_of_rows|]. intros y Hy. by apply (page_nodes_table f), Hends.
    - apply complete_NoDup; [apply Hf|]. rewrite ids_of_rows. eapply sublist_NoDup.
      + rewrite <-(sort_by_perm (less_on row_node_id str_ltb)) in Hnd. exact Hnd.
      + apply fmap_sublist. etrans; [apply sublist_take|apply sublist_drop]. }
  cbn [NextPageCursor]. destruct (graph_left f (k, m)) eqn:Hl; [|done].
  rewrite !last_id_fmap. change (NodeID ∘ graphNodeFromRow) with row_node_id. change (EdgeID ∘ as_edge) with row_edge_id.
  match goal with |- encodePageCursor ?n <> _ /\ _ => destruct (decode_encoded n "graph" (Fingerprint c)) as [Hne Hdec] end; [done..|].
  split; [intros E; by rewrite E in Hne|]. pose proof (pg_size f Hf) as Hsz. split.
  - match type of Hdec with _ = inl ?n => exists n end. split; [|exact Hdec]. split; [done|split; [done|split; [done|]]].
    cbn [next_cursor NodeAfter EdgeAfter NodesDone EdgesDone fst snd graph_advance].
    split; [by eapply (at_next row_node_id)|by eapply (at_next row_edge_id)].
  - unfold graph_left, graph_weight, graph_advance, advance in *. cbn [fst snd] in *.
    apply orb_true_iff in Hl as [H|H]; reflect_Z; lia.
Qed.

(** The pages from a position have the edges and nodes behind it. *)
Lemma graph_trail f p pages :
  pageable f -> trail (graph_left f) (graph_advance f) (graph_shows f) p pages ->
  (pages ≫= Edges) = as_edge <$> drop (snd p) (sorted_edges f) /\
  (forall x, x ∈ (pages ≫= (fun p => ids_of (Nodes p))) <->
     x ∈ row_node_id <$> drop (fst p) (sorted_nodes f) \/ x ∈ ends_of (as_edge <$> drop (snd p) (sorted_edges f))) /\
  Forall (sound_page (PageSize f)) pages.
Proof.
  intros Hf. assert (Hsz := pg_size f Hf).
  assert (Hsound : forall p page, graph_shows f p page -> sound_page (PageSize f) page).
  { intros q page (He & Hn & Hnd). split; [rewrite He, length_fmap, length_take; lia|].
    split; [intros x Hx; apply Hn; by right|]. split; [done|].
    set (own := take (Z.to_nat (PageSize f)) (drop (fst q) (sorted_nodes f))) in Hn.
    assert (Hle : (length (List.filter (fun x => negb (bool_decide (x ∈ ends_of (Edges page)))) (ids_of (Nodes page)))
      <= length (row_node_id <$> own))%nat).
    { apply submseteq_length, NoDup_submseteq; [eapply sublist_NoDup; [exact Hnd|apply filter_sublist]|].
      intros x Hx. apply list_elem_of_In, filter_In in Hx as [Hx Hf']. apply list_elem_of_In, Hn in Hx as [?|Hx]; [done|].
      by rewrite bool_decide_true in Hf'. }
    rewrite length_fmap in Hle. unfold own in Hle. rewrite length_take in Hle. lia. }
  induction 1 as [[k m] page Hm Hs|[k m] page pages Hm Hs _ (Hes & Hns & Hsd)].
  - unfold graph_left in Hm. cbn [fst snd] in *. apply orb_false_iff in Hm as [En Em]. reflect_Z.
    pose proof (Hsound _ _ Hs) as Hpage. destruct Hs as (He & Hn & _). cbn [fst snd] in He, Hn. rewrite !bind_singleton.
    rewrite (take_ge (drop m (sorted_edges f))) in He by (unfold sorted_edges; rewrite length_drop, sort_by_length; lia).
    rewrite (take_ge (drop k (sorted_nodes f))) in Hn by (unfold sorted_nodes; rewrite length_drop, sort_by_length; lia).
    rewrite He in Hn |- *.
    split; [done|split; [exact Hn|]]. by constructor.
  - destruct (Hs) as (He & Hn & _). cbn [fst snd graph_advance] in *. rewrite !bind_cons.
    assert (Hdn := drop_page row_node_id (page_nodes st now f) k (PageSize f)). fold (sorted_nodes f) in Hdn.
    assert (Hde := drop_page row_edge_id (page_edges st now f) m (PageSize f)). fold (sorted_edges f) in Hde.
    rewrite <-Hde, <-Hdn, !fmap_app. unfold ends_of. rewrite bind_app. fold (ends_of (as_edge <$> take (Z.to_nat (PageSize f)) (drop m (sorted_edges f)))).
    split; [by rewrite Hes, He|]. split; [|constructor; [by eapply Hsound|done]].
    intros x. rewrite !elem_of_app, Hns, Hn, He. unfold ends_of. tauto.
Qed.

(** C7. Pages cover the graph.  While the projection does not change, a client
    that follows the page cursors from the first page stops after at most one
    page per node and edge, and then has every edge between nodes in scope
    exactly once and in id order, and the nodes in scope and no others.  Every
    page has at most the page size of edges, both ends of each of them, no node
    twice, and at most the page size of nodes that are not ends of its edges
    (with the ends it may have more nodes than the page size). *)
Theorem pages_cover_graph f :
  pageable f ->
  exists pages,
    follow NextPageCursor (graph_page_at f) (S (length (page_nodes st now f) + length (page_edges st now f))) ""
    = Some pages /\
    (pages ≫= Edges) = as_edge <$> sorted_edges f /\
    (forall id, id ∈ (pages ≫= (fun p => ids_of (Nodes p))) <-> id ∈ row_node_id <$> page_nodes st now f) /\
    Forall (sound_page (PageSize f)) pages.
Proof.
  intros Hf. destruct (pg_fingerprint f Hf) as [fp Hfp].
  assert (Hat : graph_at f (0%nat, 0%nat) "").
  { exists (first_cursor "graph" fp). split; [|done]. repeat split; simpl; try done; lia. }
  destruct (follow_trail NextPageCursor (graph_page_at f) (graph_at f) (graph_left f) (graph_advance f)
    (graph_weight f) (graph_shows f) (fun p cursor => one_page f p cursor Hf)
    (S (length (page_nodes st now f) + length (page_edges st now f))) (0%nat, 0%nat) "" Hat)
    as (pages & Hall & Ht); [unfold graph_weight; simpl; lia|].
  destruct (graph_trail f _ _ Hf Ht) as (He & Hn & Hs). simpl in He, Hn.
  exists pages. split; [done|split; [done|split; [|done]]]. intros id. rewrite Hn, !drop_0. split.
  - intros [(r & -> & Hr)%list_elem_of_fmap|Hx].
    + apply list_elem_of_fmap_2. by apply sort_by_elem in Hr.
    + apply (page_edge_ends f (sorted_edges f)); [|done]. intros r Hr. by apply sort_by_elem in Hr.
  - intros (r & -> & Hr)%list_elem_of_fmap. left. apply list_elem_of_fmap_2. by apply sort_by_elem.
Qed.
End pages.

(** ** Witness: a small projection *)

Definition demo_requests : RequestJSON GraphFilters := fun f => inl (FilterMAC f).

Definition demo_json : GraphJSON := {|
  unmarshal_payload _ := None;
  unmarshal_evidence _ := None |}.

Definition demo_node_row (id kind : string) : graphNodeRow := {|
  row_node_id := id; row_node_kind := kind; row_label := None; row_payload := "{}"; row_location_id := None;
  row_sensor_id := None; row_mac := None; row_ssid := None; row_is_threat := false; row_observed_at := None |}.

Definition demo_edge_row (id s t : string) : graphEdgeRow := {|
  row_evidence := "{}"; row_edge_id := id; row_source := s; row_target := t; row_edge_kind := "observed_at";
  row_weight := f_zero; row_weight_basis := None; row_edge_label := None; row_edge_observed_at := None |}.

Definition demo_store : graph_store := {|
  legacy_nodes := [demo_node_row "d2" "device"; demo_node_row "a1" "access_point"; demo_node_row "d1" "device"];
  legacy_edges := [demo_edge_row "e2" "d2" "a1"; demo_edge_row "e1" "d1" "a1"; demo_edge_row "e3" "d1" "gone"];
  topology_nodes := []; topology_edges := []; identity_nodes := []; identity_edges := [] |}.

Definition demo_filters : GraphFilters := {|
  Hierarchy := false; RootBSSID := ""; RootNodeID := ""; Projection := ""; IncludeIdentity := false;
  LocationIDs := []; SensorIDs := []; FilterMAC := ""; FilterSSID := ""; FilterKinds := []; EdgeKinds := [];
  FilterThreatOnly := false; After := None; Before := None; Hops := 1; Limit := 200; Scope := "all";
  PageCursor := ""; PageSize := 1 |}.

Lemma pages_cover_graph_witness :
  pageable (RJ := demo_requests) demo_store 0 demo_filters /\
  exists pages, follow NextPageCursor
      (graph_page_at (J := demo_json) (C := demo_codec) (RJ := demo_requests) demo_store 0 demo_filters) 6 "" = Some pages /\
    EdgeID <$> (pages ≫= Edges) = ["e1"; "e2"].
Proof.
  assert (Hf : pageable (RJ := demo_requests) demo_store 0 demo_filters).
  { split; [done|by eexists|by left| | | |].
    - apply (bool_decide_eq_true_1 (NoDup _)). vm_compute. reflexivity.
    - apply (bool_decide_eq_true_1 (_ ∉ _)). vm_compute. reflexivity.
    - apply (bool_decide_eq_true_1 (NoDup _)). vm_compute. reflexivity.
    - apply (bool_decide_eq_true_1 (_ ∉ _)). vm_compute. reflexivity. }
  split; [exact Hf|].
  destruct (pages_cover_graph (J := demo_json) (C := demo_codec) (RJ := demo_requests) (L := demo_codec_laws)
    demo_store 0 demo_filters Hf) as (pages & Hall & He & _).
  exists pages. split; [exact Hall|]. rewrite He. vm_compute. reflexivity.
Defined.
