(* ===== verification/EtlHealth.v ===== *)
(** * The ETL health snapshot (internal/etlhealth/health.go)

    [snapshotFromDB] reads every gauge with a statement of its own, outside a
    transaction: [world] gives each statement the tables it sees, the clock of
    the server and the error it may end with.  The embedding queue is the one of
    LeaseQueue; the sync tables belong to another service and are lists of
    rows. *)

From S2P Require Import Prelude GoErrors GoStrings GoTime GoCrypto GoFloats GoSort LeaseQueue.

(** ** The tables *)

(** A row of octopus_core.sync_events, sync_batches, sync_jobs or sync_backlog. *)
Record sync_row := { sync_status : string; sync_created_at : option time }.

(** A row of worker_heartbeat; a NULL type cannot be scanned. *)
Record worker_row := {
  w_type : option string;
  w_last_seen_at : time;
  w_metadata : option string;
}.

(** The columns of search_documents that the queue does not read; a tsvector is
    its text. *)
Record doc_columns := { observed_at : option time; search_vector : string }.

Record tables := {
  queue : LeaseQueue.db;
  columns : string -> doc_columns;      (* by document_id *)
  job_created_at : string -> time;      (* by job_id *)
  sync_events : list sync_row;
  sync_batches : list sync_row;
  sync_jobs : list sync_row;
  sync_backlog : list sync_row;
  worker_heartbeat : gmap string worker_row;
}.

(** One statement: what it reads, CURRENT_TIMESTAMP, the error it ends with, and
    the row after which the iteration over its rows breaks off. *)
Record statement := {
  st_tables : tables;
  st_now : time;
  st_error : option error;
  st_broken : option (nat * error);
}.
Definition world : Type := nat -> statement.

(** COUNT( * ) FILTER, MAX, MIN and SUM. *)
Definition count_where {A} (p : A -> bool) (l : list A) : Z := Z.of_nat (length (List.filter p l)).
Definition sql_max (l : list time) : option time :=
  foldr (fun x acc => Some (from_option (Z.max x) x acc)) None l.
Definition sql_min (l : list time) : option time :=
  foldr (fun x acc => Some (from_option (Z.min x) x acc)) None l.
Definition sql_sum (l : list Z) : Z := foldr Z.add 0 l.

Definition has_status (s : string) (r : sync_row) : bool := String.eqb (sync_status r) s.

(** A comparison with NULL is not true. *)
Definition at_least (bound : time) (o : option time) : bool :=
  match o with Some t => bound <=? t | None => false end.

(** ** The snapshot *)

Record SemanticHealth := {
  PreflightState : string;
  CircuitState : string;
  BackendAvailable : bool;
  LastCheckAt : option time;
  LastSuccessAt : option time;
  RetryAt : option time;
}.

Definition no_semantic : SemanticHealth := {|
  PreflightState := ""; CircuitState := ""; BackendAvailable := false;
  LastCheckAt := None; LastSuccessAt := None; RetryAt := None;
|}.

Record WorkerHeartbeat := {
  WorkerID : string;
  WorkerType : string;
  LastSeenAt : time;
  Metadata : option string;
}.

Record SourceCoverage := {
  ID : string;
  Documents : Z;
  LexicalDocuments : Z;
  Documents24h : Z;
  LastObservedAt : option time;
  Vectors : Z;
}.

Record ETLHealth := {
  MeasuredAt : time;
  WirelessEvents24h : Z;
  WirelessLastObservedAt : option time;
  WirelessProjection : string;
  QuerySemantic : SemanticHealth;
  WorkerSemantic : SemanticHealth;
  IngestPending : Z;
  IngestProcessing : Z;
  IngestFailed : Z;
  BatchPending : Z;
  BatchProcessing : Z;
  BatchCompleted : Z;
  BatchFailed : Z;
  JobStoredPending : Z;
  JobStoredRunning : Z;
  JobStoredCompleted : Z;
  JobStoredFailed : Z;
  JobEffectivePending : Z;
  JobEffectiveRunning : Z;
  JobEffectiveCompleted : Z;
  JobEffectiveFailed : Z;
  JobOrphaned : Z;
  BacklogPending : Z;
  BacklogFailed : Z;
  EmbeddingPending : Z;
  EmbeddingLeased : Z;
  EmbeddingCompleted : Z;
  EmbeddingFailed : Z;
  EmbeddingRetryCount : Z;
  OldestEmbeddingJobAt : option time;
  EmbeddingDependency : string;
  Workers : list WorkerHeartbeat;
  HealthCoverage : list SourceCoverage;   (* SourceCoverage *)
}.

(** The zero value. *)
Definition no_health : ETLHealth := {|
  MeasuredAt := time_zero; WirelessEvents24h := 0; WirelessLastObservedAt := None; WirelessProjection := "";
  QuerySemantic := no_semantic; WorkerSemantic := no_semantic; IngestPending := 0; IngestProcessing := 0;
  IngestFailed := 0; BatchPending := 0; BatchProcessing := 0; BatchCompleted := 0; BatchFailed := 0;
  JobStoredPending := 0; JobStoredRunning := 0; JobStoredCompleted := 0; JobStoredFailed := 0;
  JobEffectivePending := 0; JobEffectiveRunning := 0; JobEffectiveCompleted := 0; JobEffectiveFailed := 0;
  JobOrphaned := 0; BacklogPending := 0; BacklogFailed := 0; EmbeddingPending := 0; EmbeddingLeased := 0;
  EmbeddingCompleted := 0; EmbeddingFailed := 0; EmbeddingRetryCount := 0; OldestEmbeddingJobAt := None;
  EmbeddingDependency := ""; Workers := []; HealthCoverage := [];
|}.

(** ** The constants *)

Definition snapshotCacheTTL : duration := 30 * Second.
Definition snapshotRefreshTimeout : duration := 30 * Second.
Definition embeddingBacklogAge : duration := Hour.
Definition wirelessProjectionFresh : duration := 30 * Minute.
Definition wirelessProjectionStale : duration := 2 * Hour.

(** ** The statements of snapshotFromDB *)

Definition read {A} (s : statement) (q : tables -> time -> A) : A + error :=
  match st_error s with Some err => inr err | None => inl (q (st_tables s) (st_now s)) end.

Definition event_observations (t : tables) : list (option time) :=
  (fun '(id, d) => observed_at (columns t id)) <$>
  List.filter (fun '(id, d) => String.eqb (source_kind d) "event") (map_to_list (documents (queue t))).

Definition wireless_gauges (t : tables) (now : time) : Z * option time :=
  (count_where (at_least (now - Day)) (event_observations t),
   sql_max (omap (fun o => o) (event_observations t))).

Definition ingest_gauges (t : tables) (now : time) : Z * Z * Z :=
  let rows := List.filter (fun r => one_of (sync_status r) ["pending"; "processing"; "failed"]) (sync_events t) in
  (count_where (has_status "pending") rows, count_where (has_status "processing") rows,
   count_where (has_status "failed") rows).

Definition batch_gauges (t : tables) (now : time) : Z * Z * Z * Z :=
  let rows := List.filter
    (fun r => one_of (sync_status r) ["processing"; "dispatched"; "completed"; "failed"]) (sync_batches t) in
  (count_where (has_status "pending") (sync_batches t),
   count_where (fun r => one_of (sync_status r) ["processing"; "dispatched"]) rows,
   count_where (has_status "completed") rows, count_where (has_status "failed") rows).

Definition open_job_gauges (t : tables) (now : time) : Z * Z * Z :=
  let rows := List.filter (fun r => one_of (sync_status r) ["pending"; "running"]) (sync_jobs t) in
  (count_where (has_status "pending") rows, count_where (has_status "running") rows,
   count_where (fun r => one_of (sync_status r) ["pending"; "running"]
                         && match sync_created_at r with Some c => c <? now - 5 * Minute | None => false end) rows).

Definition closed_job_gauges (t : tables) (now : time) : Z * Z :=
  let rows := List.filter (fun r => one_of (sync_status r) ["completed"; "failed"]) (sync_jobs t) in
  (count_where (has_status "completed") rows, count_where (has_status "failed") rows).

Definition backlog_gauges (t : tables) (now : time) : Z * Z :=
  (count_where (has_status "pending") (sync_backlog t), count_where (has_status "failed") (sync_backlog t)).

Definition job_is (sts : list job_status) (row : string * job_row) : bool :=
  existsb (fun st => bool_decide (status (snd row) = st)) sts.

(** pending, leased, completed, failed, retries and the oldest open job. *)
Definition embedding_gauges (t : tables) (now : time) : Z * Z * Z * Z * Z * option time :=
  let rows := map_to_list (jobs (queue t)) in
  (count_where (job_is [Pending]) rows, count_where (job_is [Leased]) rows,
   count_where (job_is [Completed]) rows, count_where (job_is [Failed]) rows,
   sql_sum ((fun row => attempt_count (snd row)) <$> List.filter (job_is [Pending; Leased; Failed]) rows),
   sql_min ((fun row => job_created_at t (fst row)) <$> List.filter (job_is [Pending; Leased]) rows)).

(** The heartbeat rows of the last five minutes, by worker_id; a row that does
    not scan is skipped, a broken iteration ends the list. *)
Definition worker_of (row : string * worker_row) : option WorkerHeartbeat :=
  kind ← w_type (snd row);
  Some {| WorkerID := fst row; WorkerType := kind; LastSeenAt := w_last_seen_at (snd row);
          Metadata := w_metadata (snd row) |}.

Definition live_workers (t : tables) (now : time) : list (string * worker_row) :=
  sort_by (fun a b => str_ltb (fst a) (fst b))
    (List.filter (fun row => now - 5 * Minute <=? w_last_seen_at (snd row)) (map_to_list (worker_heartbeat t))).

Definition rows_seen {A} (s : statement) (rows : list A) : list A :=
  match st_broken s with Some (n, _) => take n rows | None => rows end.

Definition read_workers (s : statement) : list WorkerHeartbeat :=
  match read s live_workers with
  | inr _ => []
  | inl rows => omap worker_of (rows_seen s rows)
  end.

(** ** Coverage of the sources *)

(** The inner product operator <#> of the vector type, which is not part of the
    repository: the negated inner product. *)
Class VectorOps := { neg_inner_product : list float32 -> list float32 -> float64 }.

Definition proxy_sources : list string := ["proxy_event"; "proxy_blocked_host_window"].
Definition covered_sources : list string :=
  ["proxy_event"; "proxy_blocked_host_window"; "event"; "device"; "device_profile"; "ap_profile";
   "identity_summary"; "observation_window"].

Definition source_of (d : doc_row) : string :=
  if one_of (source_kind d) proxy_sources then "proxy" else "wireless".

Definition vector_kind (d : doc_row) : string :=
  if one_of (source_kind d) proxy_sources then "event"
  else if one_of (source_kind d) ["device_profile"; "ap_profile"; "identity_summary"] then "device"
  else if String.eqb (source_kind d) "observation_window" then "behaviour"
  else source_kind d.

Definition countable (d : doc_row) : bool :=
  String.eqb (d_status d) "active" && negb (is_empty (normalized_text d))
  && String.eqb (normalized_sha256 d) (sha256Hex (normalized_text d))
  && one_of (source_kind d) covered_sources.

(** A completed job for the input the vector was computed from. *)
Definition job_completed (q : LeaseQueue.db) (id kind model revision sha : string) : bool :=
  existsb (fun row => let r := snd row in
    String.eqb (r_document_id r) id && String.eqb (r_embedding_kind r) kind
    && String.eqb (r_embedding_model r) model && String.eqb (r_input_revision r) revision
    && String.eqb (r_content_sha256 r) sha && job_is [Completed] row) (map_to_list (jobs q)).

(** The EXISTS subquery: (document, kind, model, revision) is the key of
    embeddings. *)
Definition vector_current `{VectorOps} (q : LeaseQueue.db) (model revision id : string) (d : doc_row) : bool :=
  match embeddings q !! (id, vector_kind d, model, revision) with
  | Some v =>
      String.eqb revision (d_input_revision d)
      && String.eqb (v_content_sha256 v) (normalized_sha256 d)
      && job_completed q id (vector_kind d) model revision (v_content_sha256 v)
      && f_ltb (neg_inner_product (v_embedding v) (v_embedding v)) f_zero
  | None => false
  end.

Definition covered_documents (t : tables) (source : string) : list (string * doc_row) :=
  List.filter (fun row => countable (snd row) && String.eqb (source_of (snd row)) source)
    (map_to_list (documents (queue t))).

Definition coverage_of `{VectorOps} (model revision : string) (t : tables) (now : time) (source : string)
    : SourceCoverage :=
  let rows := covered_documents t source in
  {| ID := source;
     Documents := Z.of_nat (length rows);
     LexicalDocuments := count_where (fun row => negb (is_empty (search_vector (columns t (fst row))))) rows;
     Documents24h := count_where (fun row => at_least (now - Day) (observed_at (columns t (fst row)))) rows;
     LastObservedAt := sql_max (omap (fun row => observed_at (columns t (fst row))) rows);
     Vectors := count_where (fun row => vector_current (queue t) model revision (fst row) (snd row)) rows |}.

(** GROUP BY 1: one row for each source that has a document. *)
Definition coverage_rows `{VectorOps} (model revision : string) (t : tables) (now : time) : list SourceCoverage :=
  coverage_of model revision t now <$>
  List.filter (fun source => negb (bool_decide (covered_documents t source = []))) ["proxy"; "wireless"].

Definition no_coverage (id : string) : SourceCoverage := {|
  ID := id; Documents := 0; LexicalDocuments := 0; Documents24h := 0; LastObservedAt := None; Vectors := 0;
|}.

Definition replace_source (result : list SourceCoverage) (source : SourceCoverage) : list SourceCoverage :=
  (fun c => if String.eqb (ID c) (ID source) then source else c) <$> result.

Definition sourceCoverage `{VectorOps} (s : statement) (model revision : string)
    : list SourceCoverage + error :=
  match read s (coverage_rows model revision) with
  | inr err => inr err
  | inl rows =>
      match st_broken s with
      | Some (_, err) => inr err
      | None => inl (foldl replace_source [no_coverage "proxy"; no_coverage "wireless"] rows)
      end
  end.

(** ** The derived states *)

Definition wirelessProjection (now : time) (lastObserved : option time) : string :=
  match lastObserved with
  | None => "unknown"
  | Some t =>
      let age := Sub now t in
      if age <=? wirelessProjectionFresh then "fresh"
      else if age <=? wirelessProjectionStale then "stale"
      else "critical"
  end.

Definition embeddingDependency (now : time) (h : ETLHealth) : string :=
  if 0 <? EmbeddingFailed h then "blocked"
  else if (0 <? EmbeddingPending h) && bool_decide (Workers h = []) then "waiting_for_worker"
  else if (0 <? EmbeddingPending h)
          && match OldestEmbeddingJobAt h with Some t => embeddingBacklogAge <? Sub now t | None => false end
  then "backlog"
  else if (EmbeddingPending h =? 0) && (EmbeddingCompleted h =? 0) then "waiting_for_source"
  else "healthy".

Definition set_derived (h : ETLHealth) (dependency : string) (coverage : list SourceCoverage) : ETLHealth := {|
  MeasuredAt := MeasuredAt h; WirelessEvents24h := WirelessEvents24h h;
  WirelessLastObservedAt := WirelessLastObservedAt h; WirelessProjection := WirelessProjection h;
  QuerySemantic := QuerySemantic h; WorkerSemantic := WorkerSemantic h;
  IngestPending := IngestPending h; IngestProcessing := IngestProcessing h; IngestFailed := IngestFailed h;
  BatchPending := BatchPending h; BatchProcessing := BatchProcessing h;
  BatchCompleted := BatchCompleted h; BatchFailed := BatchFailed h;
  JobStoredPending := JobStoredPending h; JobStoredRunning := JobStoredRunning h;
  JobStoredCompleted := JobStoredCompleted h; JobStoredFailed := JobStoredFailed h;
  JobEffectivePending := JobEffectivePending h; JobEffectiveRunning := JobEffectiveRunning h;
  JobEffectiveCompleted := JobEffectiveCompleted h; JobEffectiveFailed := JobEffectiveFailed h;
  JobOrphaned := JobOrphaned h; BacklogPending := BacklogPending h; BacklogFailed := BacklogFailed h;
  EmbeddingPending := EmbeddingPending h; EmbeddingLeased := EmbeddingLeased h;
  EmbeddingCompleted := EmbeddingCompleted h; EmbeddingFailed := EmbeddingFailed h;
  EmbeddingRetryCount := EmbeddingRetryCount h; OldestEmbeddingJobAt := OldestEmbeddingJobAt h;
  EmbeddingDependency := dependency; Workers := Workers h; HealthCoverage := coverage;
|}.

(** The embedding statement of an empty answer leaves the gauges at zero. *)
Definition read_embedding (s : statement) : (Z * Z * Z * Z * Z * option time) + error :=
  match read s embedding_gauges with
  | inr (Sentinel ErrNoRows) => inl (0, 0, 0, 0, 0, None)
  | answer => answer
  end.

(** [measured] and [now] are the clock at the start and at the end. *)
Definition snapshotFromDB `{VectorOps} (w : world) (measured now : time) (coverageModel coverageRevision : string)
    : ETLHealth + error :=
  (let! wireless := read (w 0%nat) wireless_gauges in
   let! ingest := read (w 1%nat) ingest_gauges in
   let! batch := read (w 2%nat) batch_gauges in
   let! opened := read (w 3%nat) open_job_gauges in
   let! closed := read (w 4%nat) closed_job_gauges in
   let! backlog := read (w 5%nat) backlog_gauges in
   let! embedding := read_embedding (w 6%nat) in
   let '(ingest_pending, ingest_processing, ingest_failed) := ingest in
   let '(batch_pending, batch_processing, batch_completed, batch_failed) := batch in
   let '(job_pending, job_running, job_orphaned) := opened in
   let '(job_completed, job_failed) := closed in
   let '(backlog_pending, backlog_failed) := backlog in
   let '(e_pending, e_leased, e_completed, e_failed, e_retries, e_oldest) := embedding in
   let health := {|
     MeasuredAt := measured;
     WirelessEvents24h := fst wireless; WirelessLastObservedAt := snd wireless;
     WirelessProjection := ""; QuerySemantic := no_semantic; WorkerSemantic := no_semantic;
     IngestPending := ingest_pending; IngestProcessing := ingest_processing; IngestFailed := ingest_failed;
     BatchPending := batch_pending; BatchProcessing := batch_processing;
     BatchCompleted := batch_completed; BatchFailed := batch_failed;
     JobStoredPending := job_pending; JobStoredRunning := job_running;
     JobStoredCompleted := job_completed; JobStoredFailed := job_failed;
     JobEffectivePending := job_pending; JobEffectiveRunning := job_running;
     JobEffectiveCompleted := job_completed; JobEffectiveFailed := job_failed;
     JobOrphaned := job_orphaned;
     BacklogPending := backlog_pending; BacklogFailed := backlog_failed;
     EmbeddingPending := e_pending; EmbeddingLeased := e_leased; EmbeddingCompleted := e_completed;
     EmbeddingFailed := e_failed; EmbeddingRetryCount := e_retries; OldestEmbeddingJobAt := e_oldest;
     EmbeddingDependency := ""; Workers := read_workers (w 7%nat); HealthCoverage := [];
   |} in
   let coverage :=
     if is_empty coverageModel then []
     else match sourceCoverage (w 8%nat) coverageModel coverageRevision with inl c => c | inr _ => [] end in
   inl (set_derived health (embeddingDependency now health) coverage))%go.

(** mergeLiveLocked: the live view over a cached snapshot. *)
Definition mergeLive (now : time) (live : option (SemanticHealth * SemanticHealth)) (h : ETLHealth) : ETLHealth := {|
  MeasuredAt := MeasuredAt h; WirelessEvents24h := WirelessEvents24h h;
  WirelessLastObservedAt := WirelessLastObservedAt h;
  WirelessProjection := wirelessProjection now (WirelessLastObservedAt h);
  QuerySemantic := match live with Some (q, _) => q | None => QuerySemantic h end;
  WorkerSemantic := match live with Some (_, wk) => wk | None => WorkerSemantic h end;
  IngestPending := IngestPending h; IngestProcessing := IngestProcessing h; IngestFailed := IngestFailed h;
  BatchPending := BatchPending h; BatchProcessing := BatchProcessing h;
  BatchCompleted := BatchCompleted h; BatchFailed := BatchFailed h;
  JobStoredPending := JobStoredPending h; JobStoredRunning := JobStoredRunning h;
  JobStoredCompleted := JobStoredCompleted h; JobStoredFailed := JobStoredFailed h;
  JobEffectivePending := JobEffectivePending h; JobEffectiveRunning := JobEffectiveRunning h;
  JobEffectiveCompleted := JobEffectiveCompleted h; JobEffectiveFailed := JobEffectiveFailed h;
  JobOrphaned := JobOrphaned h; BacklogPending := BacklogPending h; BacklogFailed := BacklogFailed h;
  EmbeddingPending := EmbeddingPending h; EmbeddingLeased := EmbeddingLeased h;
  EmbeddingCompleted := EmbeddingCompleted h; EmbeddingFailed := EmbeddingFailed h;
  EmbeddingRetryCount := EmbeddingRetryCount h; OldestEmbeddingJobAt := OldestEmbeddingJobAt h;
  EmbeddingDependency := EmbeddingDependency h; Workers := Workers h; HealthCoverage := HealthCoverage h;
|}.

(** ** Lemmas *)

Lemma count_where_range {A} (p : A -> bool) l : 0 <= count_where p l <= Z.of_nat (length l).
Proof. unfold count_where. pose proof (sublist_length _ _ (filter_sublist p l)). lia. Qed.

Lemma count_where_zero {A} (p : A -> bool) l : count_where p l = 0 <-> forall x, x ∈ l -> p x = false.
Proof.
  unfold count_where. induction l as [|x l IH]; simpl.
  { split; [|done]. intros _ x Hx. by apply elem_of_nil in Hx. }
  destruct (p x) eqn:E; simpl; split; [lia| | |].
  - intros H. specialize (H x (list_elem_of_here _ _)). congruence.
  - intros H y [->|Hy]%elem_of_cons; [done|]. by apply IH.
  - intros H. apply IH. intros y Hy. apply H. by right.
Qed.

Lemma count_where_pos {A} (p : A -> bool) l : 0 < count_where p l <-> exists x, x ∈ l /\ p x = true.
Proof.
  unfold count_where. induction l as [|x l IH]; simpl.
  { split; [lia|]. intros (x & Hx & _). by apply elem_of_nil in Hx. }
  destruct (p x) eqn:E; simpl; split; [|lia| |].
  - intros _. exists x. split; [left|done].
  - intros (y & Hy & Hp)%IH. exists y. split; [by right|done].
  - intros (y & [->|Hy]%elem_of_cons & Hp); [congruence|]. apply IH. eauto.
Qed.

Lemma count_where_all {A} (p : A -> bool) l :
  count_where p l = Z.of_nat (length l) <-> forall x, x ∈ l -> p x = true.
Proof.
  induction l as [|x l IH].
  { split; [|done]. intros _ x Hx. by apply elem_of_nil in Hx. }
  pose proof (count_where_range p l) as Hr. unfold count_where in *. simpl. destruct (p x) eqn:E; simpl; split.
  - intros H y [->|Hy]%elem_of_cons; [done|]. apply IH; [lia|done].
  - intros H. enough (Z.of_nat (length (List.filter p l)) = Z.of_nat (length l)) by lia.
    apply IH. intros y Hy. apply H. by right.
  - lia.
  - intros H. specialize (H x (list_elem_of_here _ _)). congruence.
Qed.

Lemma count_where_lt {A} (p : A -> bool) l :
  count_where p l < Z.of_nat (length l) <-> exists x, x ∈ l /\ p x = false.
Proof.
  induction l as [|x l IH]; [split; [done|]; intros (x & Hx & _); by apply elem_of_nil in Hx|].
  pose proof (count_where_range p l) as Hr. unfold count_where in *. simpl. destruct (p x) eqn:E; simpl; split.
  - intros H. destruct (proj1 IH) as (y & Hy & Hp); [lia|]. exists y. split; [by right|done].
  - intros (y & [->|Hy]%elem_of_cons & Hp); [congruence|]. enough (exists z, z ∈ l /\ p z = false) as H%IH by lia. eauto.
  - intros _. exists x. split; [left|done].
  - lia.
Qed.

Lemma read_inl {A} s (q : tables -> time -> A) a :
  read s q = inl a <-> st_error s = None /\ a = q (st_tables s) (st_now s).
Proof. unfold read. destruct (st_error s); naive_solver. Qed.

Lemma read_inr {A} s (q : tables -> time -> A) err : read s q = inr err <-> st_error s = Some err.
Proof. unfold read. destruct (st_error s); naive_solver. Qed.

Lemma read_embedding_inr s err :
  read_embedding s = inr err <-> st_error s = Some err /\ err <> Sentinel ErrNoRows.
Proof.
  unfold read_embedding, read. destruct (st_error s) as [e|]; [|naive_solver].
  destruct e as [[]| | | | |]; naive_solver.
Qed.

(** The smallest of a list, compared with a bound. *)
Lemma sql_min_lt l b : (exists t, sql_min l = Some t /\ t < b) <-> exists t, t ∈ l /\ t < b.
Proof.
  induction l as [|x l IH]; simpl.
  { split; [naive_solver|]. intros (t & Ht & _). by apply elem_of_nil in Ht. }
  transitivity (x < b \/ exists t, sql_min l = Some t /\ t < b).
  - destruct (sql_min l) as [m|]; simpl; split.
    + intros (t & [= <-] & Ht). destruct (Z.lt_ge_cases x b); [by left|right]. exists m. split; [done|lia].
    + intros [H|(t & [= <-] & Ht)]; eexists; (split; [done|lia]).
    + intros (t & [= <-] & Ht). by left.
    + intros [H|(t & [=] & _)]. by exists x.
  - rewrite IH. setoid_rewrite elem_of_cons. naive_solver.
Qed.

(** The outcome of a snapshot: the first failing gauge statement fails it. *)
Lemma sum_bind_inr {A B E} (x : A + E) (f : A -> B + E) e :
  sum_bind x f = inr e <-> x = inr e \/ exists a, x = inl a /\ f a = inr e.
Proof. destruct x; simpl; naive_solver. Qed.

(** The answer of the statement that the gauge [k] is read with. *)
Definition gauge_error (w : world) (k : nat) : option error :=
  match st_error (w k) with
  | Some (Sentinel ErrNoRows) => if (k =? 6)%nat then None else Some (Sentinel ErrNoRows)
  | answer => answer
  end.

Lemma read_gauge {A} w k (q : tables -> time -> A) :
  (k < 6)%nat -> read (w k) q = match gauge_error w k with
                                | Some err => inr err
                                | None => inl (q (st_tables (w k)) (st_now (w k)))
                                end.
Proof.
  intros Hk. unfold read, gauge_error. destruct (st_error (w k)) as [[[]| | | | |]|]; try done.
  destruct (Nat.eqb_spec k 6); [lia|done].
Qed.

Lemma read_embedding_gauge w :
  match gauge_error w 6 with
  | Some err => read_embedding (w 6%nat) = inr err
  | None => exists g, read_embedding (w 6%nat) = inl g
  end.
Proof.
  unfold read_embedding, read, gauge_error. destruct (st_error (w 6%nat)) as [[[]| | | | |]|]; simpl; eauto.
Qed.

#[local] Ltac gauge_step w k H Hstep :=
  rewrite (read_gauge w k) by lia; destruct (gauge_error w k) eqn:?;
  [exists k; split_and!; [lia|done|exact H]|]; pose proof (Hstep k H ltac:(done)); clear H; cbn [sum_bind].

(** A snapshot fails with the error of the first of the seven gauge statements
    that fails, and nothing else fails it. *)
Lemma snapshot_answer `{VectorOps} w measured now model revision :
  match snapshotFromDB w measured now model revision with
  | inr err => exists k, (k < 7)%nat /\ gauge_error w k = Some err /\
                         forall j, (j < k)%nat -> gauge_error w j = None
  | inl h => MeasuredAt h = measured /\ forall k, (k < 7)%nat -> gauge_error w k = None
  end.
Proof.
  assert (Hstep : forall n, (forall j, (j < n)%nat -> gauge_error w j = None) -> gauge_error w n = None ->
    forall j, (j < S n)%nat -> gauge_error w j = None).
  { intros n Hj Hn j Hlt. destruct (decide (j = n)) as [->|]; [done|]. apply Hj. lia. }
  unfold snapshotFromDB. assert (H0 : forall j, (j < 0)%nat -> gauge_error w j = None) by (intros; lia).
  gauge_step w 0%nat H0 Hstep. gauge_step w 1%nat H1 Hstep. gauge_step w 2%nat H0 Hstep.
  gauge_step w 3%nat H1 Hstep. gauge_step w 4%nat H0 Hstep. gauge_step w 5%nat H1 Hstep.
  pose proof (read_embedding_gauge w) as He. destruct (gauge_error w 6) eqn:E6.
  { rewrite He. exists 6%nat. split_and!; [lia|done|done]. }
  destruct He as [g ->]. destruct g as [[[[[? ?] ?] ?] ?] ?]. simpl. split; [done|]. by apply Hstep.
Qed.

(** What a snapshot says of the embedding queue and of its workers. *)
Record embedding_view `{VectorOps} (w : world) (now : time) (model revision : string) (h : ETLHealth) : Prop := {
  ev_gauges : st_error (w 6%nat) = None ->
              (EmbeddingPending h, EmbeddingLeased h, EmbeddingCompleted h, EmbeddingFailed h,
               EmbeddingRetryCount h, OldestEmbeddingJobAt h)
              = embedding_gauges (st_tables (w 6%nat)) (st_now (w 6%nat));
  ev_workers : Workers h = read_workers (w 7%nat);
  ev_dependency : EmbeddingDependency h = embeddingDependency now h;
  ev_coverage : HealthCoverage h =
    if is_empty model then []
    else match sourceCoverage (w 8%nat) model revision with inl c => c | inr _ => [] end;
}.

Lemma snapshot_view `{VectorOps} w measured now model revision h :
  snapshotFromDB w measured now model revision = inl h -> embedding_view w now model revision h.
Proof.
  unfold snapshotFromDB. intros Hs. do 6 (apply sum_bind_inl in Hs as (? & _ & Hs)).
  assert (He : st_error (w 6%nat) = None ->
    read_embedding (w 6%nat) = inl (embedding_gauges (st_tables (w 6%nat)) (st_now (w 6%nat)))).
  { intros H6. unfold read_embedding, read. by rewrite H6. }
  repeat match goal with x : (_ * _)%type |- _ => destruct x end.
  apply sum_bind_inl in Hs as ([[[[[? ?] ?] ?] ?] ?] & Hr & Hs). injection Hs as <-. split; try done.
  intros H6. rewrite (He H6) in Hr. apply (inj inl) in Hr. by rewrite Hr.
Qed.

(** Rows with one of the statuses. *)
Definition job_exists (q : LeaseQueue.db) (P : string -> job_row -> Prop) : Prop :=
  exists id r, jobs q !! id = Some r /\ P id r.

Lemma job_is_spec sts row : job_is sts row = true <-> status (snd row) ∈ sts.
Proof.
  unfold job_is. rewrite existsb_exists. split.
  - intros (st & Hin & ->%bool_decide_eq_true). by apply list_elem_of_In.
  - intros Hin. exists (status (snd row)). split; [by apply list_elem_of_In|]. by apply bool_decide_eq_true.
Qed.

Lemma job_rows_pos sts q :
  0 < count_where (job_is sts) (map_to_list (jobs q)) <-> job_exists q (fun _ r => status r ∈ sts).
Proof.
  rewrite count_where_pos. split.
  - intros ([id r] & Hin%elem_of_map_to_list & Hs%job_is_spec). by exists id, r.
  - intros (id & r & Hin%elem_of_map_to_list & Hs). exists (id, r). split; [done|]. by apply job_is_spec.
Qed.

Lemma oldest_open_lt t b :
  (exists c, sql_min ((fun row => job_created_at t (fst row)) <$>
     List.filter (job_is [Pending; Leased]) (map_to_list (jobs (queue t)))) = Some c /\ c < b) <->
  job_exists (queue t) (fun id r => status r ∈ [Pending; Leased] /\ job_created_at t id < b).
Proof.
  rewrite sql_min_lt. split.
  - intros (c & ([id r] & -> & [Hin Hs%job_is_spec]%filter_elem)%list_elem_of_fmap & Hc).
    apply elem_of_map_to_list in Hin. by exists id, r.
  - intros (id & r & Hin & Hs & Hc). exists (job_created_at t id). split; [|done].
    apply list_elem_of_fmap. exists (id, r). split; [done|]. apply filter_elem.
    split; [by apply elem_of_map_to_list|by apply job_is_spec].
Qed.

(** The workers of a heartbeat statement that answered in full. *)
Lemma read_workers_elem s x :
  st_error s = None -> st_broken s = None ->
  x ∈ read_workers s <->
  exists id r, worker_heartbeat (st_tables s) !! id = Some r /\
    st_now s - 5 * Minute <= w_last_seen_at r /\ worker_of (id, r) = Some x.
Proof.
  intros He Hb. unfold read_workers, read, rows_seen. rewrite He, Hb, list_elem_of_omap. split.
  - intros ([id r] & Hin & Hw). unfold live_workers in Hin.
    apply sort_by_elem, filter_elem in Hin as [Hin%elem_of_map_to_list Hs]. exists id, r.
    split_and!; [done| |done]. by apply Z.leb_le.
  - intros (id & r & Hr & Hs & Hw). exists (id, r). split; [|done].
    apply sort_by_elem, filter_elem. split; [by apply elem_of_map_to_list|]. by apply Z.leb_le.
Qed.

Lemma read_workers_nil s :
  st_error s = None -> st_broken s = None ->
  read_workers s = [] <->
  forall id r, worker_heartbeat (st_tables s) !! id = Some r ->
    w_last_seen_at r < st_now s - 5 * Minute \/ w_type r = None.
Proof.
  intros He Hb. pose proof (fun x => read_workers_elem s x He Hb) as Hx. split.
  - intros E id r Hr. destruct (w_type r) as [kind|] eqn:Ek; [left|by right].
    apply Z.lt_nge. intros Hle. rewrite E in Hx.
    eapply (elem_of_nil (A := WorkerHeartbeat)), Hx. exists id, r. split_and!; [done|done|].
    unfold worker_of. simpl. by rewrite Ek.
  - intros H. destruct (read_workers s) as [|x l]; [done|].
    destruct (proj1 (Hx x) (list_elem_of_here _ _)) as (id & r & Hr & Hs & Hw).
    unfold worker_of in Hw. simpl in Hw. destruct (H id r Hr) as [?|E]; [lia|]. by rewrite E in Hw.
Qed.

Lemma backlog_test now o :
  match o with Some t => embeddingBacklogAge <? Sub now t | None => false end = true <->
  exists t, o = Some t /\ t < now - Hour.
Proof.
  unfold embeddingBacklogAge. destruct o as [t|]; [|naive_solver]. rewrite Sub_gt by done. rewrite Z.ltb_lt.
  split; [intros H; exists t; split; [done|lia]|]. intros (? & [= <-] & ?). lia.
Qed.

(** The dependency of the gauges, in terms of the rows counted. *)
Lemma dependency_cases now h :
  0 <= EmbeddingPending h ->
  let failed := 0 < EmbeddingFailed h in
  let pending := 0 < EmbeddingPending h in
  let old := exists t, OldestEmbeddingJobAt h = Some t /\ t < now - Hour in
  let idle := EmbeddingPending h = 0 /\ EmbeddingCompleted h = 0 in
  let D := embeddingDependency now h in
  failed /\ D = "blocked" \/
  ~ failed /\ pending /\ Workers h = [] /\ D = "waiting_for_worker" \/
  ~ failed /\ pending /\ Workers h <> [] /\ old /\ D = "backlog" \/
  ~ failed /\ ~ (pending /\ (Workers h = [] \/ old)) /\ idle /\ D = "waiting_for_source" \/
  ~ failed /\ ~ (pending /\ (Workers h = [] \/ old)) /\
    (pending \/ EmbeddingCompleted h <> 0) /\ D = "healthy".
Proof.
  intros Hn failed pending old idle D. subst failed pending idle D. unfold embeddingDependency.
  pose proof (backlog_test now (OldestEmbeddingJobAt h)) as Hb. fold old in Hb.
  destruct (Z.ltb_spec 0 (EmbeddingFailed h)); [by left|right].
  destruct (Z.ltb_spec 0 (EmbeddingPending h)); simpl.
  - case_bool_decide as Hw; [left; split_and!; [lia|done|done|done]|right].
    destruct (match OldestEmbeddingJobAt h with Some t => _ | None => _ end) eqn:E.
    + left. split_and!; [lia|done|done|by apply Hb|done].
    + right. right. assert (~ old) by (rewrite <- Hb; done).
      destruct (Z.eqb_spec (EmbeddingPending h) 0); [lia|]. simpl. split_and!; [lia|tauto|lia|done].
  - right. right. destruct (Z.eqb_spec (EmbeddingPending h) 0); simpl;
      [destruct (Z.eqb_spec (EmbeddingCompleted h) 0)|]; [left|right|right]; split_and!;
      (intros [? _]; lia) || lia || done.
Qed.

(** The embedding dependency of a snapshot ranks the loudest problem of
    the queue first.  When the embedding statement answered, the snapshot says
    "blocked" exactly when a job has failed; otherwise "waiting_for_worker" when
    a job is pending and the snapshot has no worker; "backlog" when a job is
    pending, there are workers, and an open job is over an hour old;
    "waiting_for_source" when no job is pending or completed; and "healthy" in
    all other cases.  A heartbeat statement that answered in full leaves the
    snapshot without workers exactly when no typed heartbeat is younger than five
    minutes. *)
Theorem dependency_ranked `{VectorOps} w measured now model revision h :
  snapshotFromDB w measured now model revision = inl h -> st_error (w 6%nat) = None ->
  let t := st_tables (w 6%nat) in
  let some sts := job_exists (queue t) (fun _ r => status r ∈ sts) in
  let old := job_exists (queue t) (fun id r => status r ∈ [Pending; Leased] /\ job_created_at t id < now - Hour) in
  let D := EmbeddingDependency h in
  (D = "blocked" <-> some [Failed]) /\
  (D = "waiting_for_worker" <-> ~ some [Failed] /\ some [Pending] /\ Workers h = []) /\
  (D = "backlog" <-> ~ some [Failed] /\ some [Pending] /\ Workers h <> [] /\ old) /\
  (D = "waiting_for_source" <-> ~ some [Failed] /\ ~ some [Pending] /\ ~ some [Completed]) /\
  (D = "healthy" <-> ~ some [Failed] /\ (some [Pending] -> Workers h <> [] /\ ~ old) /\
                     (some [Pending] \/ some [Completed])) /\
  (st_error (w 7%nat) = None -> st_broken (w 7%nat) = None ->
   Workers h = [] <->
   forall id r, worker_heartbeat (st_tables (w 7%nat)) !! id = Some r ->
     w_last_seen_at r < st_now (w 7%nat) - 5 * Minute \/ w_type r = None).
Proof.
  intros Hs H6 t some old D. destruct (snapshot_view _ _ _ _ _ _ Hs) as [Hg Hw Hd _].
  specialize (Hg H6). fold t in Hg. unfold embedding_gauges in Hg. injection Hg as Ep El Ec Ef Er Eo.
  assert (Hf : 0 < EmbeddingFailed h <-> some [Failed]) by (rewrite Ef; apply job_rows_pos).
  assert (Hp : 0 < EmbeddingPending h <-> some [Pending]) by (rewrite Ep; apply job_rows_pos).
  assert (Hc : 0 < EmbeddingCompleted h <-> some [Completed]) by (rewrite Ec; apply job_rows_pos).
  assert (Hpr : 0 <= EmbeddingPending h) by (rewrite Ep; apply count_where_range).
  assert (Hcr : 0 <= EmbeddingCompleted h) by (rewrite Ec; apply count_where_range).
  assert (Ho : (exists c, OldestEmbeddingJobAt h = Some c /\ c < now - Hour) <-> old)
    by (rewrite Eo; apply oldest_open_lt).
  assert (Hz : EmbeddingPending h = 0 /\ EmbeddingCompleted h = 0 <-> ~ some [Pending] /\ ~ some [Completed])
    by (rewrite <- Hp, <- Hc; lia).
  assert (Hb : EmbeddingCompleted h <> 0 <-> some [Completed]) by (rewrite <- Hc; lia).
  pose proof (dependency_cases now h Hpr) as Hcases. cbv zeta in Hcases.
  rewrite Ho, Hf, Hp, Hz, Hb, <- Hd in Hcases. clear Ep El Ec Ef Er Eo Hf Hp Hc Hpr Hcr Ho Hz Hb.
  split_and!; [| | | | |rewrite Hw; apply read_workers_nil]; fold D in Hcases; clearbody D some old; clear Hs Hd;
    destruct Hcases as [(?&->)|[(?&?&?&->)|[(?&?&?&?&->)|[(?&?&?&->)|(?&?&?&->)]]]]; split; intros; try discriminate; tauto.
Qed.

(** ** Coverage *)

Lemma coverage_empty `{VectorOps} model revision t now source :
  covered_documents t source = [] -> coverage_of model revision t now source = no_coverage source.
Proof. intros E. unfold coverage_of. by rewrite E. Qed.

(** The answer is the coverage of both sources: a source without a document has
    no row, and keeps the zeroes it starts with. *)
Lemma sourceCoverage_value `{VectorOps} s model revision :
  sourceCoverage s model revision =
  match st_error s, st_broken s with
  | Some err, _ | None, Some (_, err) => inr err
  | None, None => inl (coverage_of model revision (st_tables s) (st_now s) <$> ["proxy"; "wireless"])
  end.
Proof.
  unfold sourceCoverage, read. destruct (st_error s); [done|]. destruct (st_broken s) as [[? ?]|]; [done|].
  f_equal. unfold coverage_rows. simpl.
  destruct (decide (covered_documents (st_tables s) "proxy" = [])) as [Ep|Ep];
    destruct (decide (covered_documents (st_tables s) "wireless" = [])) as [Ew|Ew];
    rewrite ?(bool_decide_eq_true_2 (covered_documents (st_tables s) "proxy" = []) Ep),
      ?(bool_decide_eq_false_2 (covered_documents (st_tables s) "proxy" = []) Ep),
      ?(bool_decide_eq_true_2 (covered_documents (st_tables s) "wireless" = []) Ew),
      ?(bool_decide_eq_false_2 (covered_documents (st_tables s) "wireless" = []) Ew); simpl;
    rewrite ?(coverage_empty _ _ _ _ _ Ep), ?(coverage_empty _ _ _ _ _ Ew); done.
Qed.

(** A document of a source that coverage counts. *)
Definition counted (t : tables) (source id : string) (d : doc_row) : Prop :=
  documents (queue t) !! id = Some d /\ countable d = true /\ source_of d = source.

Lemma covered_elem t source id d : (id, d) ∈ covered_documents t source <-> counted t source id d.
Proof.
  unfold covered_documents, counted. rewrite filter_elem, elem_of_map_to_list, andb_true_iff, String.eqb_eq.
  tauto.
Qed.

(** The kind a vector is looked up under is the kind the queue embeds the
    document as. *)
Lemma countable_kind d :
  countable d = true ->
  normalizeEmbeddingKind (embeddingKindForSource (source_kind d)) = inl (vector_kind d) /\
  embeddingKindForSource (source_kind d) = vector_kind d.
Proof.
  unfold countable, vector_kind. intros [_ Hk%one_of_elem]%andb_true_iff. revert Hk.
  generalize (source_kind d). intros k Hk. unfold covered_sources in Hk.
  repeat (apply elem_of_cons in Hk as [->|Hk]; [done|]). by apply elem_of_nil in Hk.
Qed.

Lemma snapshot_coverage `{VectorOps} w measured now model revision h :
  snapshotFromDB w measured now model revision = inl h ->
  HealthCoverage h = [] \/
  HealthCoverage h =
    map (coverage_of model revision (st_tables (w 8%nat)) (st_now (w 8%nat))) ["proxy"; "wireless"].
Proof.
  intros Hs. destruct (snapshot_view _ _ _ _ _ _ Hs) as [_ _ _ ->]. destruct (is_empty model); [by left|].
  rewrite sourceCoverage_value. destruct (st_error _); [by left|]. destruct (st_broken _) as [[? ?]|]; [by left|by right].
Qed.

(** A counted document whose vector is current. *)
Definition current_vector (q : LeaseQueue.db) `{VectorOps} (model revision id : string) (d : doc_row) : Prop :=
  exists v, embeddings q !! (id, vector_kind d, model, revision) = Some v /\
    d_input_revision d = revision /\ v_content_sha256 v = normalized_sha256 d /\
    job_completed q id (vector_kind d) model revision (normalized_sha256 d) = true /\
    f_ltb (neg_inner_product (v_embedding v) (v_embedding v)) f_zero = true.

Lemma vector_current_spec `{VectorOps} q model revision id d :
  vector_current q model revision id d = true <-> current_vector q model revision id d.
Proof.
  unfold vector_current, current_vector. split.
  - intros Hv. destruct (embeddings _ !! _) as [v|]; [|done]. exists v.
    rewrite !andb_true_iff, !String.eqb_eq in Hv. destruct Hv as [[[-> E] ?] ?]. rewrite E in *. done.
  - intros (v & -> & Hr & Hsh & Hj & Hn). by rewrite Hr, Hsh, Hj, Hn, !String.eqb_refl.
Qed.

Lemma documents_zero `{VectorOps} model revision t now source :
  Documents (coverage_of model revision t now source) = 0 <-> forall id d, ~ counted t source id d.
Proof.
  simpl. split.
  - intros Hz id d Hd%covered_elem. destruct (covered_documents t source); [by apply elem_of_nil in Hd|done].
  - intros Hn. destruct (covered_documents t source) as [|[id d] l] eqn:E; [done|]. destruct (Hn id d).
    apply covered_elem. rewrite E. left.
Qed.

Lemma vectors_all `{VectorOps} model revision t now source :
  Vectors (coverage_of model revision t now source) = Documents (coverage_of model revision t now source) <->
  forall id d, counted t source id d -> current_vector (queue t) model revision id d.
Proof.
  simpl. rewrite count_where_all. split.
  - intros Hall id d Hd%covered_elem. apply vector_current_spec. exact (Hall (id, d) Hd).
  - intros Hall [id d] Hd%covered_elem%Hall. by apply vector_current_spec.
Qed.

Lemma vectors_some `{VectorOps} model revision t now source :
  0 < Vectors (coverage_of model revision t now source) <->
  exists id d, counted t source id d /\ current_vector (queue t) model revision id d.
Proof.
  simpl. rewrite count_where_pos. split.
  - intros ([id d] & Hd%covered_elem & Hv%vector_current_spec). by exists id, d.
  - intros (id & d & Hd & Hv). exists (id, d). split; [by apply covered_elem|by apply vector_current_spec].
Qed.

Lemma vectors_range `{VectorOps} model revision t now source :
  0 <= Vectors (coverage_of model revision t now source) <= Documents (coverage_of model revision t now source).
Proof. apply count_where_range. Qed.

Lemma vectors_fewer `{VectorOps} model revision t now source :
  Vectors (coverage_of model revision t now source) < Documents (coverage_of model revision t now source) <->
  exists id d, counted t source id d /\ ~ current_vector (queue t) model revision id d.
Proof.
  simpl. rewrite count_where_lt. split.
  - intros ([id d] & Hd%covered_elem & Hv). exists id, d. split; [done|]. rewrite <- vector_current_spec.
    simpl in Hv. congruence.
  - intros (id & d & Hd & Hv). exists (id, d). split; [by apply covered_elem|]. rewrite <- vector_current_spec in Hv.
    simpl. by destruct (vector_current _ _ _ _ _).
Qed.

Lemma documents_some `{VectorOps} model revision t now source :
  0 < Documents (coverage_of model revision t now source) <-> exists id d, counted t source id d.
Proof.
  simpl. split.
  - intros Hz. destruct (covered_documents t source) as [|[id d] l] eqn:E; [done|]. exists id, d.
    apply covered_elem. rewrite E. left.
  - intros (id & d & Hd%covered_elem). destruct (covered_documents t source); [by apply elem_of_nil in Hd|simpl; lia].
Qed.

(** The coverage of a snapshot.  Every entry is the proxy or the wireless
    source; its lexical, recent and vector counts are at most its documents;
    it counts no document exactly when the source has none to count, and as many
    vectors as documents exactly when every counted document has a current
    vector: one of the configured model and revision, for the text the document
    has now, whose job completed. *)
Theorem coverage_counts `{VectorOps} w measured now model revision h c :
  snapshotFromDB w measured now model revision = inl h -> c ∈ HealthCoverage h ->
  let t := st_tables (w 8%nat) in
  (ID c = "proxy" \/ ID c = "wireless") /\
  0 <= LexicalDocuments c <= Documents c /\ 0 <= Documents24h c <= Documents c /\ 0 <= Vectors c <= Documents c /\
  (Documents c = 0 <-> forall id d, ~ counted t (ID c) id d) /\
  (Vectors c = Documents c <->
   forall id d, counted t (ID c) id d -> current_vector (queue t) model revision id d).
Proof.
  intros Hs Hc t. destruct (snapshot_coverage _ _ _ _ _ _ Hs) as [E|E]; rewrite E in Hc; [by apply elem_of_nil in Hc|].
  fold t in Hc. apply list_elem_of_fmap in Hc as (source & -> & Hsrc).
  split; [apply elem_of_cons in Hsrc as [->|Hsrc%list_elem_of_singleton]; auto|].
  do 3 (split; [apply count_where_range|]). split; [apply documents_zero|]. apply vectors_all.
Qed.

(** A completed job of the queue, found by the columns coverage joins on. *)
Lemma job_completed_intro q jid r :
  jobs q !! jid = Some r -> status r = Completed ->
  job_completed q (r_document_id r) (r_embedding_kind r) (r_embedding_model r) (r_input_revision r)
    (r_content_sha256 r) = true.
Proof.
  intros Hr Hs. unfold job_completed. apply existsb_exists. exists (jid, r). split.
  - apply list_elem_of_In. by apply elem_of_map_to_list.
  - simpl. by rewrite !String.eqb_refl, bool_decide_eq_true_2.
Qed.

(** Completion is what coverage counts.  After a worker's completion
    transaction commits for a document of a counted source, with a vector that is
    not zero, the document has a current vector under the job's model and
    revision: the coverage statement counts it. *)
Theorem completion_covered `{VectorOps} now guarded clock d j v d' doc :
  complete_one now guarded clock d j v = inl d' ->
  documents d !! DocumentID j = Some doc -> countable doc = true ->
  f_ltb (neg_inner_product v v) f_zero = true ->
  documents d' !! DocumentID j = Some doc /\
  vector_current d' (EmbeddingModel j) (job_revision j) (DocumentID j) doc = true.
Proof.
  intros Hc Hdoc Hcount Hv. pose proof (complete_one_outcome now guarded clock d j v) as Ho. rewrite Hc in Ho.
  destruct Ho as ((doc' & r & Hdoc' & _ & Hsha & Htext & Hrev & Hkind & Hr & _ & E1 & E2 & E3 & E4 & E5) & _ & _ &
    kind & r' & Hk & [Hst _] & Hr' & Hjobs & ->).
  rewrite Hdoc in Hdoc'. injection Hdoc' as <-. rewrite Hr in Hr'. injection Hr' as <-. split; [done|].
  destruct (countable_kind _ Hcount) as [Hn Hvk]. rewrite <- Hkind, Hn in Hk. injection Hk as <-.
  unfold vector_current. rewrite Hst, Hrev, <- Hsha, !String.eqb_refl. simpl. rewrite Hsha, andb_true_iff.
  split; [|done]. rewrite <- Hvk, Hkind, <- E1, <- E2, <- E3, <- E4, <- E5.
  apply (job_completed_intro d' (JobID j) (completed_row now r)); [|done].
  by rewrite Hjobs, lookup_insert_eq.
Qed.

(** ** Witnesses *)

(** The inner product, summed from the left in float64. *)
#[local] Instance float_dot : VectorOps := {|
  neg_inner_product u v :=
    foldl (fun acc xy => f64_sub acc (f64_mul (f64_of_f32 (fst xy)) (f64_of_f32 (snd xy)))) f_zero (zip u v);
|}.

Definition unit_vector : list float32 := f32_of_Z 1 :: repeat f_zero 767.

Definition held_db : LeaseQueue.db := Eval vm_compute in claimed_db first_claim.
Definition held_job : Job := Eval vm_compute in claimed_job first_claim.

Definition completed_queue : LeaseQueue.db :=
  match complete_one 2 2 2 held_db held_job unit_vector with
  | inl d => d
  | inr _ => sample_db
  end.

Lemma completion_covered_witness :
  vector_current completed_queue "m" "legacy_unknown" "d1" sample_doc = true.
Proof.
  destruct (complete_one 2 2 2 held_db held_job unit_vector) as [d|err] eqn:E.
  - unfold completed_queue. rewrite E.
    refine (proj2 (completion_covered 2 2 2 held_db held_job unit_vector d sample_doc E _ _ _)); vm_compute; reflexivity.
  - assert (Hok : match complete_one 2 2 2 held_db held_job unit_vector with inl _ => true | inr _ => false end = true)
      by (vm_compute; reflexivity). rewrite E in Hok. discriminate Hok.
Defined.

(** Two jobs, one of them failed, and a worker seen a minute ago. *)
Definition busy_queue : LeaseQueue.db :=
  set_jobs completed_queue (<["j2" := permanently_failed_row 2 "boom" sample_row]> (jobs completed_queue)).

Definition sample_tables : tables := {|
  queue := busy_queue;
  columns := fun _ => {| observed_at := Some 3; search_vector := "'hello':1" |};
  job_created_at := fun _ => 1;
  sync_events := [{| sync_status := "failed"; sync_created_at := None |}];
  sync_batches := []; sync_jobs := [{| sync_status := "pending"; sync_created_at := Some 0 |}]; sync_backlog := [];
  worker_heartbeat := {["w" := {| w_type := Some "pool"; w_last_seen_at := Hour; w_metadata := None |}]};
|}.

Definition sample_world : world := fun _ =>
  {| st_tables := sample_tables; st_now := Hour + Minute; st_error := None; st_broken := None |}.

Definition sample_health : ETLHealth + error :=
  snapshotFromDB sample_world (Hour + Minute) (Hour + Minute) "m" "legacy_unknown".

Definition sample_snapshot : ETLHealth := match sample_health with inl h => h | inr _ => no_health end.

Lemma sample_snapshot_read : sample_health = inl sample_snapshot.
Proof. unfold sample_snapshot. destruct sample_health eqn:E; [done|]. vm_compute in E. discriminate E. Qed.

Lemma dependency_ranked_witness :
  exists h, sample_health = inl h /\ WorkerID <$> Workers h = ["w"] /\ EmbeddingDependency h = "blocked".
Proof.
  destruct sample_health as [h|err] eqn:E; [|vm_compute in E; discriminate E].
  exists h. split; [done|]. split.
  - destruct (snapshot_view sample_world (Hour + Minute) (Hour + Minute) "m" "legacy_unknown" h E) as [_ -> _ _]. vm_compute. reflexivity.
  - apply (dependency_ranked sample_world (Hour + Minute) (Hour + Minute) "m" "legacy_unknown" h E eq_refl).
    exists "j2", (permanently_failed_row 2 "boom" sample_row). split; [vm_compute; reflexivity|]. left.
Defined.

Lemma coverage_counts_witness :
  exists h c, sample_health = inl h /\ c ∈ HealthCoverage h /\ Documents c = 1 /\ Vectors c = Documents c.
Proof.
  destruct sample_health as [h|err] eqn:E; [|vm_compute in E; discriminate E].
  assert (Hc : coverage_of "m" "legacy_unknown" sample_tables (Hour + Minute) "proxy" ∈ HealthCoverage h).
  { destruct (snapshot_view sample_world (Hour + Minute) (Hour + Minute) "m" "legacy_unknown" h E) as [_ _ _ ->]. rewrite sourceCoverage_value. simpl. left. }
  exists h, (coverage_of "m" "legacy_unknown" sample_tables (Hour + Minute) "proxy").
  split; [done|]. split; [done|]. split; [vm_compute; reflexivity|].
  apply (coverage_counts sample_world (Hour + Minute) (Hour + Minute) "m" "legacy_unknown" h _ E Hc).
  intros id d [Hd _]. change (documents busy_queue !! id = Some d) in Hd.
  assert (Hdocs : documents busy_queue = {["d1" := sample_doc]}) by (vm_compute; reflexivity).
  rewrite Hdocs in Hd. apply lookup_singleton_Some in Hd as [<- <-].
  eexists. split; [vm_compute; reflexivity|]. repeat split; vm_compute; reflexivity.
Defined.
