(* ===== verification/HealthMonitor.v ===== *)
(** * The health monitor (internal/etlhealth/health.go, HealthMonitor)

    Callers of [Snapshot] and the refresh goroutine interleave; what runs under
    [h.mu] is one step.  A channel is a number, [closed] the channels that were
    closed, and closing one twice panics.  [launched], [stored] and [observed]
    record the history the theorems are about. *)

From S2P Require Import Prelude GoErrors GoStrings GoTime GoFloats EtlHealth.

Record HealthMonitor := {
  cached : option ETLHealth;
  lastErr : option error;
  refreshing : bool;
  refreshDone : nat;
  cacheTTL : duration;
  has_observer : bool;
}.

Definition NewHealthMonitor : HealthMonitor := {|
  cached := None; lastErr := None; refreshing := false; refreshDone := 0; cacheTTL := snapshotCacheTTL;
  has_observer := false;
|}.

(** SetSnapshotObserver. *)
Definition SetSnapshotObserver (h : HealthMonitor) : HealthMonitor := {|
  cached := cached h; lastErr := lastErr h; refreshing := refreshing h; refreshDone := refreshDone h;
  cacheTTL := cacheTTL h; has_observer := true;
|}.

(** Where a goroutine that runs [refresh] is. *)
Inductive refresh_phase :=
| Launched                        (* before snapshotFromDB *)
| Reading (measured : time)       (* in snapshotFromDB *)
| Publishing (h : ETLHealth)      (* before the observer *)
| Finishing.                      (* before refreshing is cleared *)

(** Where a call of [Snapshot] is. *)
Inductive caller_phase :=
| AtLoop                          (* at the top of the loop *)
| WaitShared (done : nat)         (* waiting on the refresh of another caller *)
| WaitOwn (done : nat)            (* waiting on the refresh it started *)
| OwnDone                         (* before reading lastErr *)
| Returned (answer : ETLHealth + error).

Record system := {
  monitor : HealthMonitor;
  clock : time;
  goroutines : list refresh_phase;
  callers : gmap nat caller_phase;
  next_chan : nat;
  closed : gset nat;
  panicked : bool;
  launched : list time;             (* newest first *)
  stored : list ETLHealth;          (* newest first *)
  observed : list ETLHealth;        (* newest first *)
}.

(** startRefreshLocked, under the lock. *)
Definition startRefreshLocked (s : system) : system := {|
  monitor := {| cached := cached (monitor s); lastErr := lastErr (monitor s); refreshing := true;
                refreshDone := next_chan s; cacheTTL := cacheTTL (monitor s);
                has_observer := has_observer (monitor s) |};
  clock := clock s; goroutines := goroutines s ++ [Launched]; callers := callers s;
  next_chan := S (next_chan s); closed := closed s; panicked := panicked s;
  launched := clock s :: launched s; stored := stored s; observed := observed s;
|}.

Definition set_caller (c : nat) (p : caller_phase) (s : system) : system := {|
  monitor := monitor s; clock := clock s; goroutines := goroutines s; callers := <[c := p]> (callers s);
  next_chan := next_chan s; closed := closed s; panicked := panicked s;
  launched := launched s; stored := stored s; observed := observed s;
|}.

Definition snapshot_expired (now : time) (m : HealthMonitor) (h : ETLHealth) : bool :=
  cacheTTL m <=? Sub now (MeasuredAt h).

(** One turn of the loop of [Snapshot], up to the unlock; [live] is the semantic
    view. *)
Definition snapshot_turn (live : option (SemanticHealth * SemanticHealth)) (c : nat) (s : system) : system :=
  match cached (monitor s) with
  | Some health =>
      let s' := if snapshot_expired (clock s) (monitor s) health && negb (refreshing (monitor s))
                then startRefreshLocked s else s in
      set_caller c (Returned (inl (mergeLive (clock s) live health))) s'
  | None =>
      if refreshing (monitor s) then set_caller c (WaitShared (refreshDone (monitor s))) s
      else let s' := startRefreshLocked s in set_caller c (WaitOwn (refreshDone (monitor s'))) s'
  end.

(** After the caller's own refresh: the error of the last one, or another turn. *)
Definition own_done (c : nat) (s : system) : system :=
  match lastErr (monitor s) with
  | Some err => set_caller c (Returned (inr err)) s
  | None => set_caller c AtLoop s
  end.

(** The goroutine [i] moves to another phase. *)
Definition set_phase (i : nat) (p : refresh_phase) (s : system) : system := {|
  monitor := monitor s; clock := clock s; goroutines := <[i := p]> (goroutines s); callers := callers s;
  next_chan := next_chan s; closed := closed s; panicked := panicked s;
  launched := launched s; stored := stored s; observed := observed s;
|}.

(** [refresh] after snapshotFromDB, up to the unlock. *)
Definition refresh_store (i : nat) (answer : ETLHealth + error) (s : system) : system :=
  let m := monitor s in
  let with_monitor m' stored' := {|
    monitor := m'; clock := clock s; goroutines := goroutines s; callers := callers s;
    next_chan := next_chan s; closed := closed s; panicked := panicked s;
    launched := launched s; stored := stored'; observed := observed s |} in
  match answer with
  | inr err =>
      set_phase i Finishing
        (with_monitor {| cached := cached m; lastErr := Some err; refreshing := refreshing m;
                         refreshDone := refreshDone m; cacheTTL := cacheTTL m;
                         has_observer := has_observer m |} (stored s))
  | inl health =>
      set_phase i (if has_observer m then Publishing health else Finishing)
        (with_monitor {| cached := Some health; lastErr := None; refreshing := refreshing m;
                         refreshDone := refreshDone m; cacheTTL := cacheTTL m;
                         has_observer := has_observer m |} (health :: stored s))
  end.

(** The observer's call. *)
Definition observe (i : nat) (h : ETLHealth) (s : system) : system :=
  let s' := set_phase i Finishing s in {|
    monitor := monitor s'; clock := clock s'; goroutines := goroutines s'; callers := callers s';
    next_chan := next_chan s'; closed := closed s'; panicked := panicked s';
    launched := launched s'; stored := stored s'; observed := h :: observed s' |}.

(** The end of [refresh]: [refreshing = false; close(refreshDone)]. *)
Definition refresh_finish (i : nat) (s : system) : system :=
  let m := monitor s in {|
    monitor := {| cached := cached m; lastErr := lastErr m; refreshing := false; refreshDone := refreshDone m;
                  cacheTTL := cacheTTL m; has_observer := has_observer m |};
    clock := clock s; goroutines := delete i (goroutines s); callers := callers s;
    next_chan := next_chan s; closed := {[refreshDone m]} ∪ closed s;
    panicked := panicked s || bool_decide (refreshDone m ∈ closed s);
    launched := launched s; stored := stored s; observed := observed s |}.

Definition tick (d : duration) (s : system) : system := {|
  monitor := monitor s; clock := clock s + d; goroutines := goroutines s; callers := callers s;
  next_chan := next_chan s; closed := closed s; panicked := panicked s;
  launched := launched s; stored := stored s; observed := observed s |}.

(** ** The monitor as a transition system

    [worlds] are the databases a refresh may read from. *)

Section monitor.
Context `{vectors : VectorOps} (coverageModel coverageRevision : string) (worlds : world -> Prop).

(** The steps of a refresh goroutine. *)
Inductive refresh_step : system -> system -> Prop :=
| rs_read s i :
    goroutines s !! i = Some Launched -> refresh_step s (set_phase i (Reading (clock s)) s)
| rs_store s i measured w :
    goroutines s !! i = Some (Reading measured) -> worlds w ->
    refresh_step s
      (refresh_store i (snapshotFromDB w measured (clock s) coverageModel coverageRevision) s)
| rs_observe s i h :
    goroutines s !! i = Some (Publishing h) -> refresh_step s (observe i h s)
| rs_finish s i :
    goroutines s !! i = Some Finishing -> refresh_step s (refresh_finish i s).

(** The steps of the callers of [Snapshot]. *)
Inductive caller_step : system -> system -> Prop :=
| cs_call s c : callers s !! c = None -> caller_step s (set_caller c AtLoop s)
| cs_turn s c live : callers s !! c = Some AtLoop -> caller_step s (snapshot_turn live c s)
| cs_shared s c done :
    callers s !! c = Some (WaitShared done) -> done ∈ closed s -> caller_step s (set_caller c AtLoop s)
| cs_own s c done :
    callers s !! c = Some (WaitOwn done) -> done ∈ closed s -> caller_step s (set_caller c OwnDone s)
| cs_own_done s c : callers s !! c = Some OwnDone -> caller_step s (own_done c s)
| cs_cancel s c done err :
    callers s !! c = Some (WaitShared done) \/ callers s !! c = Some (WaitOwn done) ->
    caller_step s (set_caller c (Returned (inr err)) s).

Inductive monitor_step : system -> system -> Prop :=
| ms_tick s d : 0 <= d -> monitor_step s (tick d s)
| ms_refresh s s' : refresh_step s s' -> monitor_step s s'
| ms_caller s s' : caller_step s s' -> monitor_step s s'.

(** A monitor that no call has reached yet. *)
Definition monitor_init (m : HealthMonitor) (t : time) : system := {|
  monitor := m; clock := t; goroutines := []; callers := ∅; next_chan := 1; closed := ∅; panicked := false;
  launched := []; stored := []; observed := [];
|}.

Definition fresh_monitor (m : HealthMonitor) : Prop :=
  m = NewHealthMonitor \/ m = SetSnapshotObserver NewHealthMonitor.

(** ** The invariant *)

(** The goroutine list, the flag and the channel agree: nothing runs, or one
    goroutine runs and the channel its callers wait on is open. *)
Definition one_refresh (s : system) : Prop :=
  goroutines s = [] /\ refreshing (monitor s) = false \/
  exists p, goroutines s = [p] /\ refreshing (monitor s) = true /\
    refreshDone (monitor s) ∉ closed s /\ (refreshDone (monitor s) < next_chan s)%nat /\
    (forall h, p = Publishing h -> head (stored s) = Some h).

(** A caller waits on a closed channel or on the one of the running refresh. *)
Definition awaited (s : system) (done : nat) : Prop :=
  done ∈ closed s \/ refreshing (monitor s) = true /\ done = refreshDone (monitor s).

Definition caller_ok (s : system) (p : caller_phase) : Prop :=
  match p with
  | WaitShared done | WaitOwn done => awaited s done
  | Returned (inl h) => exists h0 now live, h0 ∈ stored s /\ h = mergeLive now live h0
  | _ => True
  end.

Record monitor_inv (s : system) : Prop := {
  mi_panicked : panicked s = false;
  mi_one : one_refresh s;
  mi_closed : forall ch, ch ∈ closed s -> (ch < next_chan s)%nat;
  mi_callers : map_Forall (fun _ => caller_ok s) (callers s);
  mi_cached : cached (monitor s) = head (stored s);
  mi_ttl : cacheTTL (monitor s) = snapshotCacheTTL;
  mi_reading : forall t i, goroutines s !! i = Some (Reading t) ->
    t <= clock s /\ forall h, h ∈ stored s -> MeasuredAt h <= t;
  mi_stored : StronglySorted (fun a b => MeasuredAt b <= MeasuredAt a) (stored s) /\
    forall h, h ∈ stored s -> MeasuredAt h <= clock s;
}.

Lemma init_inv m t : fresh_monitor m -> monitor_inv (monitor_init m t).
Proof.
  intros Hm. split; simpl; try done.
  - left. by destruct Hm as [->| ->].
  - by destruct Hm as [->| ->].
  - by destruct Hm as [->| ->].
  - split; [constructor|]. intros h Hh. by apply elem_of_nil in Hh.
Qed.

(** What a step may change without disturbing the callers. *)
Lemma caller_ok_weaken s s' p :
  closed s ⊆ closed s' -> (forall h, h ∈ stored s -> h ∈ stored s') ->
  (refreshing (monitor s) = true ->
   refreshDone (monitor s) ∈ closed s' \/
   refreshing (monitor s') = true /\ refreshDone (monitor s') = refreshDone (monitor s)) ->
  caller_ok s p -> caller_ok s' p.
Proof.
  intros Hc Hst Hr. assert (Ha : forall done, awaited s done -> awaited s' done).
  { intros done [Hd|[Hd ->]]; [left; by apply Hc|]. destruct (Hr Hd) as [?|[? <-]]; [by left|by right]. }
  destruct p as [| | | |[h|err]]; simpl; auto. intros (h0 & now & live & Hin & ->). eauto 6.
Qed.

Lemma set_caller_inv s c p : monitor_inv s -> caller_ok s p -> monitor_inv (set_caller c p s).
Proof.
  intros [H1 H2 H3 H4 H5 H6 H7 H8] Hp. split; simpl; try done. by apply map_Forall_insert_2.
Qed.

Lemma startRefresh_inv s :
  monitor_inv s -> refreshing (monitor s) = false -> monitor_inv (startRefreshLocked s).
Proof.
  intros [H1 H2 H3 H4 H5 H6 H7 H8] Hr. destruct H2 as [[Hg _]|(? & _ & ? & _)]; [|congruence].
  assert (Hn : next_chan s ∉ closed s) by (intros Hin%H3; lia).
  split; simpl; try done.
  - right. exists Launched. simpl. rewrite Hg. split_and!; [done|done|done|lia|done].
  - intros ch Hch%H3. lia.
  - eapply map_Forall_impl; [exact H4|]. intros c p. apply caller_ok_weaken; simpl; [done|done|congruence].
  - intros t i. rewrite Hg. by destruct i as [|[]].
Qed.

Lemma turn_inv live c s : monitor_inv s -> monitor_inv (snapshot_turn live c s).
Proof.
  intros Hi. unfold snapshot_turn. destruct (cached (monitor s)) as [h|] eqn:Ec.
  - assert (Hret : forall s', stored s' = stored s -> caller_ok s' (Returned (inl (mergeLive (clock s) live h)))).
    { intros s' E. simpl. exists h, (clock s), live. split; [|done]. rewrite E.
      destruct Hi as [_ _ _ _ Hc _ _ _]. rewrite Ec in Hc. destruct (stored s); [done|]. injection Hc as ->. left. }
    destruct (snapshot_expired _ _ _ && _) eqn:Ex; apply set_caller_inv; try apply Hret; try done.
    apply startRefresh_inv; [done|]. apply andb_true_iff in Ex as [_ Ex]. by apply negb_true_iff.
  - destruct (refreshing (monitor s)) eqn:Er; apply set_caller_inv; try done.
    + by right.
    + by apply startRefresh_inv.
    + by right.
Qed.

Lemma own_done_inv c s : monitor_inv s -> monitor_inv (own_done c s).
Proof. intros Hi. unfold own_done. by destruct (lastErr (monitor s)); apply set_caller_inv. Qed.

(** The only goroutine. *)
Lemma one_goroutine s i p :
  monitor_inv s -> goroutines s !! i = Some p ->
  i = 0%nat /\ goroutines s = [p] /\ refreshing (monitor s) = true /\ refreshDone (monitor s) ∉ closed s.
Proof.
  intros [_ [[-> _]|(q & -> & ? & ? & ? & _)] _ _ _ _ _ _] Hp; [done|].
  destruct i as [|[]]; simpl in Hp; simplify_eq. done.
Qed.

Lemma refresh_inv s s' : monitor_inv s -> refresh_step s s' -> monitor_inv s'.
Proof.
  intros Hi Hs. destruct Hs as [s i Hg|s i m w Hg Hw|s i h Hg|s i Hg];
    destruct (one_goroutine _ _ _ Hi Hg) as (-> & Hgs & Hr & Hnc); pose proof Hi as [H1 H2 H3 H4 H5 H6 H7 [H8 H8']];
    (destruct H2 as [[? _]|(q & Hq & _ & _ & Hlt & Hpub)]; [congruence|]); rewrite Hgs in Hq; injection Hq as <-.
  - split; simpl; try done.
    + right. exists (Reading (clock s)). simpl. rewrite Hgs. by split_and!.
    + rewrite Hgs. intros t [|[]] Ht; simpl in Ht; simplify_eq. split; [lia|]. apply H8'.
  - destruct (H7 m 0%nat Hg) as [Hm Hold]. unfold refresh_store.
    pose proof (snapshot_answer w m (clock s) coverageModel coverageRevision) as Ha.
    destruct (snapshotFromDB _ _ _ _ _) as [h|err].
    + destruct Ha as [Hh _].
      assert (Hcall : forall s', closed s' = closed s -> stored s' = h :: stored s ->
        refreshing (monitor s') = true -> refreshDone (monitor s') = refreshDone (monitor s) ->
        map_Forall (fun _ => caller_ok s') (callers s)).
      { intros s' E1 E2 E3 E4. eapply map_Forall_impl; [exact H4|]. intros c p.
        apply caller_ok_weaken; [by rewrite E1|intros h' Hh'; rewrite E2; by right|by right]. }
      split; simpl; try done.
      * right. exists (if has_observer (monitor s) then Publishing h else Finishing). simpl. rewrite Hgs.
        split_and!; try done. intros h'. destruct (has_observer _); congruence.
      * by apply Hcall.
      * rewrite Hgs. intros t [|[]] Ht; simpl in Ht; simplify_eq. by destruct (has_observer _).
      * split.
        -- constructor; [done|]. apply Forall_forall. rewrite Hh. exact Hold.
        -- intros h' [->|Hh']%elem_of_cons; [lia|by apply H8'].
    + split; simpl; try done.
      * right. exists Finishing. simpl. rewrite Hgs. by split_and!.
      * rewrite Hgs. intros t [|[]] Ht; simpl in Ht; simplify_eq.
  - split; simpl; try done.
    + right. exists Finishing. simpl. rewrite Hgs. by split_and!.
    + rewrite Hgs. intros t [|[]] Ht; simpl in Ht; simplify_eq.
  - split; simpl; try done.
    + rewrite H1, bool_decide_eq_false_2 by done. done.
    + left. simpl. by rewrite Hgs.
    + intros ch [->%elem_of_singleton|Hch%H3]%elem_of_union; lia.
    + eapply map_Forall_impl; [exact H4|]. intros c p. apply caller_ok_weaken; simpl; [set_solver|done|].
      intros _. left. set_solver.
    + rewrite Hgs. intros t i Ht. done.
Qed.

Lemma caller_inv s s' : monitor_inv s -> caller_step s s' -> monitor_inv s'.
Proof.
  intros Hi Hs. destruct Hs; try (by apply set_caller_inv); [by apply turn_inv|by apply own_done_inv].
Qed.

Lemma monitor_step_inv s s' : monitor_inv s -> monitor_step s s' -> monitor_inv s'.
Proof.
  intros Hi Hs. destruct Hs as [s d Hd|s s' Hs|s s' Hs]; [|by eapply refresh_inv|by eapply caller_inv].
  destruct Hi as [H1 H2 H3 H4 H5 H6 H7 [H8 H8']]. split; simpl; try done.
  - intros t i [Ht Hh]%H7. split; [lia|done].
  - split; [done|]. intros h Hh%H8'. lia.
Qed.

Lemma monitor_reachable m t s :
  fresh_monitor m -> steps monitor_step (monitor_init m t) s -> monitor_inv s.
Proof.
  intros Hm Hs. eapply steps_invariant; [exact monitor_step_inv|by apply init_inv|exact Hs].
Qed.

(** ** Later callers see later measurements *)

(** The newest stored snapshot was measured at [b] or later, and so was every
    snapshot returned to a caller outside [before]. *)
Record since (b : time) (before : gmap nat caller_phase) (s : system) : Prop := {
  si_inv : monitor_inv s;
  si_head : exists h, head (stored s) = Some h /\ b <= MeasuredAt h;
  si_returned : forall c h, callers s !! c = Some (Returned (inl h)) -> before !! c = None -> b <= MeasuredAt h;
}.

Lemma stored_head s h :
  monitor_inv s -> h ∈ stored s -> exists h0, head (stored s) = Some h0 /\ MeasuredAt h <= MeasuredAt h0.
Proof.
  intros [_ _ _ _ _ _ _ [Hs _]] Hin. destruct (stored s) as [|h0 l]; [by apply elem_of_nil in Hin|].
  exists h0. split; [done|]. apply elem_of_cons in Hin as [->|Hin]; [lia|].
  apply StronglySorted_inv in Hs as [_ Hs]. rewrite Forall_forall in Hs. by apply Hs.
Qed.

Lemma set_caller_since b before c p s :
  since b before s -> caller_ok s p -> (forall h, p = Returned (inl h) -> b <= MeasuredAt h) ->
  since b before (set_caller c p s).
Proof.
  intros [H1 H2 H3] Hp Hb. split; [by apply set_caller_inv|done|]. simpl. intros c' h.
  rewrite lookup_insert_Some. intros [[-> ->]|[_ Hc]] Hn; [by apply Hb|by eapply H3].
Qed.

Lemma startRefresh_since b before s :
  since b before s -> refreshing (monitor s) = false -> since b before (startRefreshLocked s).
Proof. intros [H1 H2 H3] Hr. split; [by apply startRefresh_inv|done|done]. Qed.

Lemma turn_since b before live c s : since b before s -> since b before (snapshot_turn live c s).
Proof.
  intros Hsi. pose proof Hsi as [Hi (h & Hh & Hb) _]. pose proof (mi_cached s Hi) as Hc. rewrite Hh in Hc.
  unfold snapshot_turn. rewrite Hc.
  assert (Hok : forall s', stored s' = stored s -> caller_ok s' (Returned (inl (mergeLive (clock s) live h)))).
  { intros s' E. simpl. exists h, (clock s), live. split; [|done]. rewrite E.
    destruct (stored s); [done|]. injection Hh as ->. left. }
  destruct (snapshot_expired _ _ _ && _) eqn:Ex; apply set_caller_since; try apply Hok; try done;
    try (intros h' [= <-]; exact Hb).
  apply startRefresh_since; [done|]. apply andb_true_iff in Ex as [_ Ex]. by apply negb_true_iff.
Qed.

Lemma refresh_since b before s s' : since b before s -> refresh_step s s' -> since b before s'.
Proof.
  intros [Hi (h & Hh & Hb) Hret] Hs. pose proof (refresh_inv s s' Hi Hs) as Hi'.
  assert (Hold : stored s' = stored s \/ exists h', stored s' = h' :: stored s).
  { destruct Hs as [| ? ? ? w| |]; try (by left). simpl. unfold refresh_store.
    destruct (snapshotFromDB _ _ _ _ _); simpl; [right; by eexists|by left]. }
  split; [done| |].
  - destruct Hold as [E|[h' E]]; [rewrite E; eauto|].
    destruct (stored_head s' h Hi') as (h0 & H0 & Hle).
    { rewrite E. right. destruct (stored s); [done|]. injection Hh as ->. left. }
    exists h0. split; [done|lia].
  - assert (Ec : callers s' = callers s).
    { destruct Hs as [| ? ? ? w| |]; try done. unfold refresh_store. by destruct (snapshotFromDB _ _ _ _ _). }
    rewrite Ec. exact Hret.
Qed.

Lemma step_since b before s s' : since b before s -> monitor_step s s' -> since b before s'.
Proof.
  intros Hsi Hs. destruct Hs as [s d Hd|s s' Hs|s s' Hs].
  - pose proof Hsi as [Hi Hh Hr]. split; [|done|done]. eapply monitor_step_inv; [exact Hi|by apply ms_tick].
  - by eapply refresh_since.
  - destruct Hs; try (by apply set_caller_since); [by apply turn_since|].
    unfold own_done. by destruct (lastErr (monitor s)); apply set_caller_since.
Qed.

(** A snapshot never goes back in time.  Once a call of Snapshot has returned
    a snapshot, every call that starts afterwards and returns one returns a
    measurement at least as recent; and each returned snapshot is a stored
    database snapshot under the live view of the moment. *)
Theorem snapshots_advance m t s s' c h c' h' :
  fresh_monitor m -> steps monitor_step (monitor_init m t) s ->
  callers s !! c = Some (Returned (inl h)) ->
  steps monitor_step s s' -> callers s !! c' = None ->
  callers s' !! c' = Some (Returned (inl h')) ->
  MeasuredAt h <= MeasuredAt h' /\
  exists h0 now live, h0 ∈ stored s' /\ h' = mergeLive now live h0.
Proof.
  intros Hm Hs Hc Hs' Hn Hc'. pose proof (monitor_reachable m t s Hm Hs) as Hi. split.
  - assert (Hsi : since (MeasuredAt h) (callers s) s).
    { destruct (mi_callers s Hi c _ Hc) as (h0 & now & live & Hin & ->).
      split; [done|exact (stored_head s h0 Hi Hin)|]. intros c0 h1 Hc0. congruence. }
    apply (steps_invariant monitor_step (since (MeasuredAt h) (callers s)) s s') in Hsi as [_ _ Hret];
      [by eapply Hret|by apply step_since|done].
  - assert (Hi' : monitor_inv s') by (eapply steps_invariant; [exact monitor_step_inv|exact Hi|exact Hs']).
    exact (mi_callers s' Hi' c' _ Hc').
Qed.

(** ** One refresh at a time, and no sooner than the TTL *)

Lemma expired_spec now m h :
  cacheTTL m = snapshotCacheTTL -> snapshot_expired now m h = true <-> MeasuredAt h + snapshotCacheTTL <= now.
Proof.
  intros E. unfold snapshot_expired, Sub. rewrite E, Z.leb_le. unfold snapshotCacheTTL, Second. lia.
Qed.

(** C24. Refresh discipline.  At any time at most one refresh runs, the flag says
    so, and no channel is closed twice; a caller that waits on a channel that is
    not closed waits for the refresh that runs.  A step that launches a refresh
    finds none running and every snapshot stored so far at least the cache TTL
    old: successful refreshes start 30 seconds apart or more. *)
Theorem refresh_discipline m t s s' :
  fresh_monitor m -> steps monitor_step (monitor_init m t) s -> monitor_step s s' ->
  panicked s' = false /\ (length (goroutines s') <= 1)%nat /\
  (refreshing (monitor s') = true <-> goroutines s' <> []) /\
  (forall c done, callers s' !! c = Some (WaitShared done) \/ callers s' !! c = Some (WaitOwn done) ->
     done ∉ closed s' -> goroutines s' <> [] /\ done = refreshDone (monitor s')) /\
  (launched s' <> launched s -> goroutines s = [] /\
     forall h, h ∈ stored s -> MeasuredAt h + 30 * Second <= clock s).
Proof.
  intros Hm Hs Hstep. pose proof (monitor_reachable m t s Hm Hs) as Hi.
  pose proof (monitor_step_inv s s' Hi Hstep) as Hi'. split; [apply Hi'|].
  assert (Hflag : (length (goroutines s') <= 1)%nat /\ (refreshing (monitor s') = true <-> goroutines s' <> [])).
  { destruct (mi_one s' Hi') as [[-> ->]|(p & -> & -> & _)]; simpl; split; try lia; by split. }
  destruct Hflag as [Hlen Hflag]. do 2 (split; [done|]). split.
  - intros c done Hc Hnc.
    assert (Ha : awaited s' done) by (destruct Hc as [Hc|Hc]; exact (mi_callers s' Hi' c _ Hc)).
    destruct Ha as [?|[Hr ->]]; [done|]. split; [by apply Hflag|done].
  - intros Hl. assert (Hno : refreshing (monitor s) = false -> goroutines s = []).
    { destruct (mi_one s Hi) as [[-> _]|(p & _ & -> & _)]; done. }
    destruct Hstep as [s d Hd|s s' Hr|s s' Hr]; [done| |].
    { destruct Hr as [| ? ? ? w| |]; try done. unfold refresh_store in Hl. by destruct (snapshotFromDB _ _ _ _ _). }
    destruct Hr as [|s c live Hc| | |s c Hc|]; try done; [|unfold own_done in Hl; by destruct (lastErr _)].
    unfold snapshot_turn in Hl. destruct (cached (monitor s)) as [h0|] eqn:Ec.
    + destruct (snapshot_expired _ _ _) eqn:Ex; [|done]. destruct (refreshing (monitor s)) eqn:Er; [done|].
      split; [by apply Hno|]. intros h Hh. destruct (stored_head s h Hi Hh) as (h1 & H1 & Hle).
      rewrite <- (mi_cached s Hi), Ec in H1. injection H1 as <-.
      apply expired_spec in Ex; [|apply Hi]. unfold snapshotCacheTTL in Ex. lia.
    + destruct (refreshing (monitor s)) eqn:Er; [done|]. split; [by apply Hno|]. intros h Hh.
      destruct (stored_head s h Hi Hh) as (h1 & H1 & _). rewrite <- (mi_cached s Hi), Ec in H1. done.
Qed.

(** ** Every call can return *)

(** The refresh that runs comes to its end, and leaves the callers alone. *)
Definition drained (s s' : system) : Prop :=
  steps monitor_step s s' /\ goroutines s' = [] /\ callers s' = callers s.

Lemma drained_after s s1 s2 :
  refresh_step s s1 -> callers s1 = callers s -> drained s1 s2 -> drained s s2.
Proof.
  intros H1 E (H2 & Hg & Hc). split_and!; [|done|congruence].
  eapply steps_trans; [apply steps_one, ms_refresh; exact H1|done].
Qed.

Lemma drain_finishing s : goroutines s = [Finishing] ->
  drained s (refresh_finish 0 s).
Proof.
  intros Hg. split_and!; [|simpl; by rewrite Hg|done]. apply steps_one, ms_refresh, rs_finish. by rewrite Hg.
Qed.

Lemma drain_stored s : (exists h, goroutines s = [Publishing h]) \/ goroutines s = [Finishing] ->
  exists s', drained s s' /\ cached (monitor s') = cached (monitor s) /\ lastErr (monitor s') = lastErr (monitor s).
Proof.
  intros [[h Hg]|Hg]; [|by exists (refresh_finish 0 s); split; [by apply drain_finishing|]].
  exists (refresh_finish 0 (observe 0 h s)). split; [|done].
  eapply drained_after; [apply (rs_observe s 0 h); by rewrite Hg|done|]. apply drain_finishing. simpl. by rewrite Hg.
Qed.

Lemma drain_reading s w t : worlds w -> goroutines s = [Reading t] ->
  exists s', drained s s' /\ (is_Some (cached (monitor s')) \/ is_Some (lastErr (monitor s'))).
Proof.
  intros Hw Hg. set (answer := snapshotFromDB w t (clock s) coverageModel coverageRevision).
  assert (Hs : refresh_step s (refresh_store 0 answer s)) by (apply rs_store; [by rewrite Hg|done]).
  destruct answer as [h|err] eqn:E.
  - destruct (drain_stored (refresh_store 0 (inl h) s)) as (s' & Hd & Hc & _).
    { simpl. rewrite Hg. simpl. destruct (has_observer _); [left; by eexists|by right]. }
    exists s'. split; [by eapply drained_after|]. left. rewrite Hc. by eexists.
  - destruct (drain_stored (refresh_store 0 (inr err) s)) as (s' & Hd & _ & Hl).
    { right. simpl. by rewrite Hg. }
    exists s'. split; [by eapply drained_after|]. right. rewrite Hl. by eexists.
Qed.

Lemma drain_launched s w : worlds w -> goroutines s = [Launched] ->
  exists s', drained s s' /\ (is_Some (cached (monitor s')) \/ is_Some (lastErr (monitor s'))).
Proof.
  intros Hw Hg. destruct (drain_reading (set_phase 0 (Reading (clock s)) s) w (clock s) Hw) as (s' & Hd & H').
  { simpl. by rewrite Hg. }
  exists s'. split; [|done]. eapply drained_after; [apply (rs_read s 0); by rewrite Hg|done|done].
Qed.

Lemma drain_any s w : worlds w -> monitor_inv s -> exists s', drained s s'.
Proof.
  intros Hw Hi. destruct (mi_one s Hi) as [[Hg _]|(p & Hg & _)].
  - exists s. split_and!; [apply steps_refl|done|done].
  - destruct p as [|t|h|].
    + destruct (drain_launched s w Hw Hg) as (s' & ? & _). eauto.
    + destruct (drain_reading s w t Hw Hg) as (s' & ? & _). eauto.
    + destruct (drain_stored s) as (s' & ? & _); eauto.
    + destruct (drain_stored s) as (s' & ? & _); eauto.
Qed.

Definition returns (s : system) (c : nat) : Prop :=
  exists s' answer, steps monitor_step s s' /\ callers s' !! c = Some (Returned answer).

Lemma returns_after s s' c : steps monitor_step s s' -> returns s' c -> returns s c.
Proof. intros H (s2 & a & H2 & Ha). exists s2, a. split; [by eapply steps_trans|done]. Qed.

(** A caller at the loop of a monitor with a snapshot returns it. *)
Lemma returns_cached s c :
  callers s !! c = Some AtLoop -> is_Some (cached (monitor s)) -> returns s c.
Proof.
  intros Hc [h Hh]. exists (snapshot_turn None c s), (inl (mergeLive (clock s) None h)).
  split; [apply steps_one, ms_caller; by apply cs_turn|]. unfold snapshot_turn. rewrite Hh. simpl.
  by rewrite lookup_insert_eq.
Qed.

Lemma returns_own_done s c :
  callers s !! c = Some OwnDone -> is_Some (cached (monitor s)) \/ is_Some (lastErr (monitor s)) -> returns s c.
Proof.
  intros Hc Hh. destruct (lastErr (monitor s)) as [err|] eqn:El.
  - exists (own_done c s), (inr err). split; [apply steps_one, ms_caller; by apply cs_own_done|].
    unfold own_done. rewrite El. simpl. by rewrite lookup_insert_eq.
  - apply (returns_after s (own_done c s)); [apply steps_one, ms_caller; by apply cs_own_done|].
    unfold own_done. rewrite El. apply returns_cached; [apply lookup_insert_eq|].
    destruct Hh as [?|Hh]; [done|by destruct Hh].
Qed.

(** At the loop with no refresh running. *)
Lemma returns_loop s w c :
  worlds w -> monitor_inv s -> callers s !! c = Some AtLoop -> goroutines s = [] -> returns s c.
Proof.
  intros Hw Hi Hc Hg. destruct (cached (monitor s)) as [h|] eqn:Eh; [by apply returns_cached; [|rewrite Eh]|].
  assert (Hr : refreshing (monitor s) = false).
  { destruct (mi_one s Hi) as [[_ ?]|(p & E & _)]; [done|congruence]. }
  set (s1 := snapshot_turn None c s).
  assert (H1 : monitor_step s s1) by (apply ms_caller; by apply cs_turn).
  pose proof (monitor_step_inv s s1 Hi H1) as Hi1. apply (returns_after s s1); [by apply steps_one|].
  assert (E1 : s1 = set_caller c (WaitOwn (next_chan s)) (startRefreshLocked s))
    by (unfold s1, snapshot_turn; by rewrite Eh, Hr).
  destruct (drain_launched s1 w Hw) as (s2 & (Hs2 & Hg2 & Hc2) & Hres); [by rewrite E1; simpl; rewrite Hg|].
  apply (returns_after s1 s2); [done|].
  assert (Hi2 : monitor_inv s2) by (eapply steps_invariant; [exact monitor_step_inv|exact Hi1|exact Hs2]).
  assert (Hw2 : callers s2 !! c = Some (WaitOwn (next_chan s))) by (rewrite Hc2, E1; apply lookup_insert_eq).
  assert (Hcl : next_chan s ∈ closed s2).
  { destruct (mi_callers s2 Hi2 c _ Hw2) as [?|[Hr2 _]]; [done|].
    destruct (mi_one s2 Hi2) as [[_ ?]|(p & E & _)]; congruence. }
  apply (returns_after s2 (set_caller c OwnDone s2));
    [apply steps_one, ms_caller; by apply (cs_own s2 c (next_chan s))|].
  apply returns_own_done; [apply lookup_insert_eq|done].
Qed.

(** No call is left waiting.  From every reachable state, every call of
    Snapshot that has not returned can return in finitely many further steps of
    the refresh goroutine and of the call itself, whatever the database that
    answers: there is no state in which a caller waits for a channel that
    nothing will close. *)
Theorem snapshot_returns m t s w c p :
  fresh_monitor m -> worlds w -> steps monitor_step (monitor_init m t) s -> callers s !! c = Some p ->
  exists s' answer, steps monitor_step s s' /\ callers s' !! c = Some (Returned answer).
Proof.
  intros Hm Hw Hs Hc. pose proof (monitor_reachable m t s Hm Hs) as Hi. fold (returns s c).
  destruct (drain_any s w Hw Hi) as (s1 & Hs1 & Hg1 & Hc1). apply (returns_after s s1); [done|].
  assert (Hi1 : monitor_inv s1) by (eapply steps_invariant; [exact monitor_step_inv|exact Hi|exact Hs1]).
  rewrite <- Hc1 in Hc. clear s t m Hm Hs Hi Hs1 Hc1.
  assert (Hdone : forall d, awaited s1 d -> d ∈ closed s1).
  { intros d [?|[Hr _]]; [done|]. destruct (mi_one s1 Hi1) as [[_ ?]|(q & E & _)]; congruence. }
  assert (Hloop : forall s2, monitor_inv s2 -> goroutines s2 = [] -> monitor_step s2 (set_caller c AtLoop s2) ->
    returns s2 c).
  { intros s2 Hi2 Hg2 Hst. apply (returns_after s2 (set_caller c AtLoop s2)); [by apply steps_one|].
    apply (returns_loop _ w); [done|by eapply monitor_step_inv|apply lookup_insert_eq|done]. }
  destruct p as [|d|d| |a].
  - by apply (returns_loop s1 w).
  - apply Hloop; [done|done|]. apply ms_caller. apply (cs_shared s1 c d); [done|].
    apply Hdone. exact (mi_callers s1 Hi1 c _ Hc).
  - apply (returns_after s1 (set_caller c OwnDone s1)).
    { apply steps_one, ms_caller. apply (cs_own s1 c d); [done|]. apply Hdone. exact (mi_callers s1 Hi1 c _ Hc). }
    assert (Hi2 : monitor_inv (set_caller c OwnDone s1)) by by apply set_caller_inv.
    apply (returns_after _ (own_done c (set_caller c OwnDone s1)));
      [apply steps_one, ms_caller, cs_own_done, lookup_insert_eq|].
    unfold own_done. destruct (lastErr _) as [err|] eqn:El.
    + eexists _, (inr err). split; [apply steps_refl|apply lookup_insert_eq].
    + apply (returns_loop _ w); [done|by apply set_caller_inv|apply lookup_insert_eq|done].
  - apply (returns_after s1 (own_done c s1)); [apply steps_one, ms_caller; by apply cs_own_done|].
    unfold own_done. destruct (lastErr _) as [err|] eqn:El.
    + eexists _, (inr err). split; [apply steps_refl|apply lookup_insert_eq].
    + apply (returns_loop _ w); [done|by apply set_caller_inv|apply lookup_insert_eq|done].
  - exists s1, a. split; [apply steps_refl|done].
Qed.
End monitor.

(** ** Two schedules

    An empty database, and one whose first statement fails. *)

#[local] Existing Instance float_dot.

Definition empty_tables : tables := {|
  queue := {| LeaseQueue.jobs := ∅; LeaseQueue.documents := ∅; LeaseQueue.embeddings := ∅;
              LeaseQueue.vectors := ∅ |};
  columns := fun _ => {| observed_at := None; search_vector := "" |}; job_created_at := fun _ => 0;
  sync_events := []; sync_batches := []; sync_jobs := []; sync_backlog := []; worker_heartbeat := ∅;
|}.

Definition answering (err : option error) : world := fun _ =>
  {| st_tables := empty_tables; st_now := 0; st_error := err; st_broken := None |}.

Definition down : error := Opaque "connection refused".
Definition flaky (w : world) : Prop := w = answering None \/ w = answering (Some down).

Notation demo_step := (monitor_step "" "" flaky).

(** The observer runs while the refresh is still marked running, but the
    snapshot is already cached: a second caller returns it before the gauges are
    published. *)
Theorem returned_before_published :
  exists s h, steps demo_step (monitor_init (SetSnapshotObserver NewHealthMonitor) 0) s /\
    callers s !! 1%nat = Some (Returned (inl h)) /\ goroutines s <> [] /\ observed s = [].
Proof.
  eexists _, _. split; [|split_and!].
  - eapply steps_next; [|apply ms_caller, (cs_turn _ 1 None)].
    + eapply steps_next; [|apply ms_caller, (cs_call _ 1)].
      * eapply steps_next; [|apply ms_refresh, (rs_store _ _ _ _ 0 0 (answering None)); [|by left]].
        -- eapply steps_next; [|apply ms_refresh, (rs_read _ _ _ _ 0)].
           ++ eapply steps_next; [|apply ms_caller, (cs_turn _ 0 None)].
              ** apply steps_one, ms_caller, (cs_call _ 0). reflexivity.
              ** reflexivity.
           ++ reflexivity.
        -- reflexivity.
      * reflexivity.
    + reflexivity.
  - vm_compute. reflexivity.
  - vm_compute. discriminate.
  - vm_compute. reflexivity.
Qed.

(** The call of [c] that launches a refresh, and that refresh, answered by the
    world [w]. *)
Definition round (c : nat) (w : world) (s : system) : system :=
  let s2 := snapshot_turn None c (set_caller c AtLoop s) in
  refresh_finish 0 (refresh_store 0 (snapshotFromDB w (clock s2) (clock s2) "" "")
    (set_phase 0 (Reading (clock s2)) s2)).

Lemma round_steps c w s :
  flaky w -> has_observer (monitor s) = false -> callers s !! c = None ->
  goroutines (snapshot_turn None c (set_caller c AtLoop s)) = [Launched] ->
  has_observer (monitor (snapshot_turn None c (set_caller c AtLoop s))) = false ->
  steps demo_step s (round c w s).
Proof.
  intros Hw Ho Hc Hg Ho2. unfold round.
  eapply steps_next; [eapply steps_next; [eapply steps_next; [eapply steps_next; [apply steps_one|]|]|]|].
  - by apply ms_caller, cs_call.
  - apply ms_caller, cs_turn, lookup_insert_eq.
  - apply ms_refresh, (rs_read _ _ _ _ 0). by rewrite Hg.
  - apply ms_refresh, (rs_store "" "" flaky _ 0 (clock (snapshot_turn None c (set_caller c AtLoop s))) w);
      [|done]. simpl. by rewrite Hg.
  - apply ms_refresh, (rs_finish _ _ _ _ 0). unfold refresh_store. destruct (snapshotFromDB _ _ _ _ _); simpl; rewrite Hg;
      [by rewrite Ho2|done].
Qed.

(** A refresh that fails is not paced: with an expired snapshot in the cache,
    the next caller launches another refresh at once. *)
Theorem failed_refresh_unpaced :
  exists s, steps demo_step (monitor_init NewHealthMonitor 0) s /\
    launched s = [30 * Second; 30 * Second; 0] /\ is_Some (cached (monitor s)).
Proof.
  set (s0 := monitor_init NewHealthMonitor 0). set (s1 := tick (30 * Second) (round 0 (answering None) s0)).
  set (s2 := round 1 (answering (Some down)) s1).
  exists (snapshot_turn None 2 (set_caller 2 AtLoop s2)). split_and!; [|vm_compute; reflexivity|vm_compute; by eexists].
  apply (steps_trans _ s0 s1); [|apply (steps_trans _ s1 s2)].
  - eapply steps_next; [apply round_steps; [by left|vm_compute; reflexivity..]|by apply ms_tick].
  - apply round_steps; [by right|vm_compute; reflexivity..].
  - eapply steps_next; [apply steps_one|].
    + apply ms_caller, (cs_call _ 2). vm_compute. reflexivity.
    + apply ms_caller, cs_turn, lookup_insert_eq.
Qed.

(** ** Witnesses *)

(** One call that waited for its refresh, and a second one 30 seconds later. *)
Definition first_round : system := round 0 (answering None) (monitor_init NewHealthMonitor 0).
Definition first_answer : system :=
  snapshot_turn None 0 (own_done 0 (set_caller 0 OwnDone first_round)).
Definition second_call : system := set_caller 1 AtLoop (tick (30 * Second) first_answer).
Definition second_answer : system := snapshot_turn None 1 second_call.

Lemma first_answer_steps : steps demo_step (monitor_init NewHealthMonitor 0) first_answer.
Proof.
  eapply steps_next; [eapply steps_next; [eapply steps_next; [apply (round_steps 0 (answering None))|]|]|].
  - by left.
  - vm_compute. reflexivity.
  - vm_compute. reflexivity.
  - vm_compute. reflexivity.
  - vm_compute. reflexivity.
  - apply ms_caller, (cs_own _ 0 1); vm_compute; reflexivity.
  - apply ms_caller, (cs_own_done _ 0). vm_compute. reflexivity.
  - apply ms_caller, (cs_turn _ 0 None). vm_compute. reflexivity.
Qed.

Lemma second_call_steps : steps demo_step first_answer second_call.
Proof.
  eapply steps_next; [apply steps_one, (ms_tick _ _ _ _ (30 * Second)); done|].
  apply ms_caller, (cs_call _ 1). vm_compute. reflexivity.
Qed.

Lemma second_answer_step : demo_step second_call second_answer.
Proof. apply ms_caller, (cs_turn _ 1 None). vm_compute. reflexivity. Qed.

Lemma snapshots_advance_witness :
  exists h h', callers first_answer !! 0%nat = Some (Returned (inl h)) /\
    callers second_answer !! 1%nat = Some (Returned (inl h')) /\ MeasuredAt h <= MeasuredAt h'.
Proof.
  destruct (callers first_answer !! 0%nat) as [[| | | |[h|err]]|] eqn:E; try (vm_compute in E; discriminate E).
  destruct (callers second_answer !! 1%nat) as [[| | | |[h'|err]]|] eqn:E'; try (vm_compute in E'; discriminate E').
  exists h, h'. split; [done|]. split; [done|].
  eapply (snapshots_advance "" "" flaky NewHealthMonitor 0 first_answer second_answer 0 h 1 h').
  - by left.
  - exact first_answer_steps.
  - exact E.
  - eapply steps_next; [exact second_call_steps|exact second_answer_step].
  - vm_compute. reflexivity.
  - exact E'.
Defined.

Lemma refresh_discipline_witness : launched second_answer <> launched second_call /\ goroutines second_call = [].
Proof.
  assert (Hl : launched second_answer <> launched second_call) by (vm_compute; discriminate).
  split; [exact Hl|].
  apply (refresh_discipline "" "" flaky NewHealthMonitor 0 second_call second_answer); [by left| |exact second_answer_step|exact Hl].
  eapply steps_trans; [exact first_answer_steps|exact second_call_steps].
Defined.

Lemma snapshot_returns_witness :
  exists s' answer, steps demo_step second_call s' /\ callers s' !! 1%nat = Some (Returned answer).
Proof.
  apply (snapshot_returns "" "" flaky NewHealthMonitor 0 second_call (answering None) 1 AtLoop).
  - by left.
  - by left.
  - eapply steps_trans; [exact first_answer_steps|exact second_call_steps].
  - vm_compute. reflexivity.
Defined.
