(* ===== verification/Readiness.v ===== *)
(** * Database health and readiness (internal/db/pool.go, internal/health/ready.go)

    The answers of the database are arguments; [WaitForSchemaReady] is given the
    attempts it makes, each with the answer of the query and what the select
    after it chose. *)

From S2P Require Import Prelude GoErrors GoStrings GoStrconv GoTime GoNet LeaseQueue.

(** ** The pool (internal/db/pool.go) *)

Definition expectedDatabase : string := "sync".
Definition expectedSchema : string := "atheros_search".

(** The fields of a parsed DSN that the checks read. *)
Record ConnConfig := { Host : string; User : string; Password : string; Database : string }.

Definition validateDriverConfig (cfg : ConnConfig) : option error :=
  let trimmedHost := Trim (ToLower (Host cfg)) "[]" in
  if is_empty trimmedHost || String.eqb trimmedHost "localhost"
     || match ParseIP trimmedHost with Some ip => IsLoopback ip || IsUnspecified ip | None => false end
  then Some (Opaque "ATHSEARCH_POSTGRES_DSN must use an external non-loopback host")
  else if is_empty (TrimSpace (User cfg)) || EqualFold (User cfg) "postgres" || EqualFold (User cfg) "root"
  then Some (Opaque "ATHSEARCH_POSTGRES_DSN must use a dedicated non-superuser role")
  else if is_empty (Password cfg)
  then Some (Opaque "ATHSEARCH_POSTGRES_DSN must include a non-empty credential")
  else if negb (String.eqb (Database cfg) expectedDatabase)
  then Some (Opaque ("ATHSEARCH_POSTGRES_DSN must select database " +:+ Quote expectedDatabase))
  else None.

Definition validatePostgresVersion (versionNum : Z) : option error :=
  if versionNum <? 160000
  then Some (Opaque ("PostgreSQL 16 or newer is required, got server_version_num " +:+ Itoa versionNum))
  else None.

(** What the session reports: database, schema, time zone and version. *)
Record Session := { s_database : string; s_schema : string; s_timezone : string; s_version : Z }.

(** [pool] is false for a nil pool. *)
Definition Health (pool : bool) (ping : option error) (session : Session + error) : option error :=
  if negb pool then Some (Opaque "postgres pool is not initialized")
  else
    match ping, session with
    | Some err, _ => Some (Wrapf ("postgres ping: " +:+ Error err) err)
    | None, inr err => Some (Wrapf ("postgres session health query: " +:+ Error err) err)
    | None, inl s =>
        if negb (String.eqb (s_database s) expectedDatabase)
        then Some (Opaque ("postgres selected database " +:+ Quote (s_database s) +:+ ", expected "
                           +:+ Quote expectedDatabase))
        else if negb (String.eqb (s_schema s) expectedSchema)
        then Some (Opaque ("postgres selected schema " +:+ Quote (s_schema s) +:+ ", expected "
                           +:+ Quote expectedSchema))
        else if negb (EqualFold (s_timezone s) "UTC") && negb (EqualFold (s_timezone s) "Etc/UTC")
        then Some (Opaque ("postgres session time_zone is " +:+ Quote (s_timezone s) +:+ ", expected UTC"))
        else validatePostgresVersion (s_version s)
    end.

Record SchemaReadyStatus := {
  Ready : bool;
  VectorReady : bool;
  ManifestSHA256 : string;
  ExpectedSHA256 : string;
}.

(** [row] is the row of schema_readiness: the checksum applied and the flag. *)
Definition SchemaReady (expectedManifest : string) (row : (string * bool) + error) : SchemaReadyStatus + error :=
  match row with
  | inr err =>
      if errors_Is err ErrNoRows
      then inl {| Ready := false; VectorReady := false; ManifestSHA256 := ""; ExpectedSHA256 := expectedManifest |}
      else inr (Wrapf ("postgres schema readiness query: " +:+ Error err) err)
  | inl (checksum, ready) =>
      let manifest := ToLower checksum in
      inl {| Ready := ready && String.eqb manifest expectedManifest; VectorReady := ready;
             ManifestSHA256 := manifest; ExpectedSHA256 := expectedManifest |}
  end.

(** [Pool.expectedManifest], set by NewPool. *)
Definition expected_manifest (SchemaManifestSHA256 : string) : string := ToLower SchemaManifestSHA256.

Record EmbeddingCounts := {
  Event : Z;
  Device : Z;
  Behaviour : Z;
  Sequence : Z;
  HasEventDocuments : bool;
  HasDeviceDocuments : bool;
}.

Definition no_counts : EmbeddingCounts := {|
  Event := 0; Device := 0; Behaviour := 0; Sequence := 0; HasEventDocuments := false; HasDeviceDocuments := false;
|}.

(** CountEmbeddings, a statement over the tables of the queue. *)
Definition kind_count (d : LeaseQueue.db) (kind : string) : Z :=
  Z.of_nat (length (List.filter (fun row => String.eqb (fst row).1.1.2 kind) (map_to_list (embeddings d)))).

Definition has_documents (d : LeaseQueue.db) (kinds : list string) : bool :=
  existsb (fun row => String.eqb (d_status (snd row)) "active" && one_of (source_kind (snd row)) kinds)
    (map_to_list (documents d)).

Definition CountEmbeddings (d : LeaseQueue.db) : EmbeddingCounts := {|
  Event := kind_count d "event"; Device := kind_count d "device";
  Behaviour := kind_count d "behaviour"; Sequence := kind_count d "sequence";
  HasEventDocuments := has_documents d ["event"; "proxy_event"; "proxy_blocked_host_window"; "proxy_flow"];
  HasDeviceDocuments := has_documents d ["device"];
|}.

Definition EmptyKinds (c : EmbeddingCounts) : list string :=
  (if (Event c =? 0) && HasEventDocuments c then ["event"] else [])
  ++ (if (Device c =? 0) && HasDeviceDocuments c then ["device"] else []).

(** ** Readiness (internal/health/ready.go) *)

Record Readiness := {
  has_db : bool;                    (* DB != nil *)
  SchemaReadyRequired : bool;
  counts : EmbeddingCounts;
  countsExpiresAt : time;
}.

Definition bool_text (b : bool) : string := if b then "true" else "false".

Definition schemaStatusSummary (s : SchemaReadyStatus) : string :=
  "ready=" +:+ bool_text (Ready s) +:+ " vector_ready=" +:+ bool_text (VectorReady s)
  +:+ " manifest_sha256=" +:+ ManifestSHA256 s +:+ " expected_sha256=" +:+ ExpectedSHA256 s.

(** [now] and [after] are the clock before and after the query; the boolean says
    that the counts were refreshed. *)
Definition embeddingCounts (now after : time) (answer : EmbeddingCounts + error) (r : Readiness)
    : Readiness * ((EmbeddingCounts * bool) + error) :=
  if now <? countsExpiresAt r then (r, inl (counts r, false))
  else
    match answer with
    | inr err => (r, inr err)
    | inl c =>
        ({| has_db := has_db r; SchemaReadyRequired := SchemaReadyRequired r; counts := c;
            countsExpiresAt := after + Minute |}, inl (c, true))
    end.

(** The answers of the store during one check. *)
Record store_answers := {
  a_health : option error;
  a_schema : SchemaReadyStatus + error;
  a_counts : EmbeddingCounts + error;
}.

(** Check returns the error and, when it warns, the empty kinds. *)
Definition Check (now after : time) (a : store_answers) (r : Readiness)
    : Readiness * option error * list string :=
  if negb (has_db r) then (r, Some (Opaque "postgres pool is not initialized"), [])
  else
    match a_health a with
    | Some err => (r, Some err, [])
    | None =>
        let schema_error :=
          if SchemaReadyRequired r then
            match a_schema a with
            | inr err => Some (Wrapf ("schema readiness: " +:+ Error err) err)
            | inl status =>
                if Ready status then None
                else Some (Opaque ("schema not ready: " +:+ schemaStatusSummary status))
            end
          else None in
        match schema_error with
        | Some err => (r, Some err, [])
        | None =>
            match embeddingCounts now after (a_counts a) r with
            | (r, inr err) => (r, Some (Wrapf ("count embeddings: " +:+ Error err) err), [])
            | (r, inl (c, refreshed)) => (r, None, if refreshed then EmptyKinds c else [])
            end
        end
    end.

(** ** Waiting for the schema *)

(** What the select chose: the ticker, or the end of the wait context. *)
Inductive select_case := Ticked | WaitDone (ctx_err : error).

Definition is_context_error (err : error) : bool := errors_Is err DeadlineExceeded || errors_Is err Canceled.

Definition end_of_wait (timeout : duration) (ctx_err : error) (lastStatus : option SchemaReadyStatus)
    (lastErr : option error) : error :=
  let after := "schema readiness timeout after " +:+ Duration_String timeout in
  if errors_Is ctx_err Canceled then Wrapf ("schema readiness canceled: " +:+ Error ctx_err) ctx_err
  else if errors_Is ctx_err DeadlineExceeded then
    match lastErr, lastStatus with
    | Some err, _ => Wrapf (after +:+ ": " +:+ Error err) err
    | None, Some status => Opaque (after +:+ ": " +:+ schemaStatusSummary status)
    | None, None => Opaque after
    end
  else Wrapf ("schema readiness wait ended: " +:+ Error ctx_err) ctx_err.

(** The error kept after a failed query. *)
Definition keep_error (lastErr : option error) (err : error) : option error :=
  match lastErr with
  | Some e => if is_context_error err then Some e else Some err
  | None => Some err
  end.

(** [Some r] is the return of [r]; [None], that the attempts ran out before. *)
Fixpoint wait_loop (timeout : duration) (lastStatus : option SchemaReadyStatus) (lastErr : option error)
    (attempts : list ((SchemaReadyStatus + error) * select_case)) : option (option error) :=
  match attempts with
  | [] => None
  | (answer, choice) :: rest =>
      let '(ready, lastStatus, lastErr) :=
        match answer with
        | inl status => (Ready status, Some status, None)
        | inr err => (false, lastStatus, keep_error lastErr err)
        end in
      if ready then Some None
      else
        match choice with
        | WaitDone ctx_err => Some (Some (end_of_wait timeout ctx_err lastStatus lastErr))
        | Ticked => wait_loop timeout lastStatus lastErr rest
        end
  end.

Definition wait_timeout (timeout : duration) : duration := if timeout <=? 0 then 60 * Second else timeout.
Definition wait_interval (pollInterval : duration) : duration := if pollInterval <=? 0 then Second else pollInterval.

Definition WaitForSchemaReady (timeout : duration)
    (attempts : list ((SchemaReadyStatus + error) * select_case)) : option (option error) :=
  wait_loop (wait_timeout timeout) None None attempts.

(** ** Lemmas *)

(** A wait whose queries answered [answers], the context ending after the last
    one. *)
Definition attempts_of (answers : list (SchemaReadyStatus + error)) (ctx_err : error)
    : list ((SchemaReadyStatus + error) * select_case) :=
  imap (fun i a => (a, if (S i =? length answers)%nat then WaitDone ctx_err else Ticked)) answers.

Definition not_ready (a : SchemaReadyStatus + error) : Prop := forall s, a = inl s -> Ready s = false.

(** The state of the loop after some answers. *)
Fixpoint after_answers (lastStatus : option SchemaReadyStatus) (lastErr : option error)
    (answers : list (SchemaReadyStatus + error)) : option SchemaReadyStatus * option error :=
  match answers with
  | [] => (lastStatus, lastErr)
  | inl status :: rest => after_answers (Some status) None rest
  | inr err :: rest => after_answers lastStatus (keep_error lastErr err) rest
  end.

Lemma after_answers_app st le l1 l2 :
  after_answers st le (l1 ++ l2) = let '(st', le') := after_answers st le l1 in after_answers st' le' l2.
Proof. revert st le. induction l1 as [|[s|e] l1 IH]; intros st le; [done|apply IH|apply IH]. Qed.

(** Answers after which the context ends, for the loop. *)
Lemma wait_loop_end timeout ctx_err answers last choices st le :
  Forall not_ready (answers ++ [last]) -> choices = ((fun a => (a, Ticked)) <$> answers) ++ [(last, WaitDone ctx_err)] ->
  wait_loop timeout st le choices =
  let '(st', le') := after_answers st le (answers ++ [last]) in
  Some (Some (end_of_wait timeout ctx_err st' le')).
Proof.
  intros Hn ->. revert st le. induction answers as [|a answers IH]; intros st le; simpl in *.
  - apply Forall_inv in Hn. destruct last as [s|e]; [by rewrite (Hn s eq_refl)|done].
  - apply Forall_cons in Hn as [Ha Hn]. destruct a as [s|e]; [rewrite (Ha s eq_refl)|]; by apply IH.
Qed.

Lemma attempts_of_app answers last ctx_err :
  attempts_of (answers ++ [last]) ctx_err = ((fun a => (a, Ticked)) <$> answers) ++ [(last, WaitDone ctx_err)].
Proof.
  unfold attempts_of. rewrite imap_app. f_equal.
  - rewrite <- imap_const. apply imap_ext. intros i x Hx%lookup_lt_Some.
    unfold compose. rewrite length_app. cbn [length]. by rewrite (proj2 (Nat.eqb_neq _ _)) by lia.
  - cbn [imap]. unfold compose. rewrite length_app. cbn [length]. by rewrite (proj2 (Nat.eqb_eq _ _)) by lia.
Qed.

Lemma wait_end timeout ctx_err answers :
  answers <> [] -> Forall not_ready answers ->
  WaitForSchemaReady timeout (attempts_of answers ctx_err) =
  let '(st, le) := after_answers None None answers in
  Some (Some (end_of_wait (wait_timeout timeout) ctx_err st le)).
Proof.
  intros Hne Hn. destruct (exists_last Hne) as (l & a & ->). unfold WaitForSchemaReady.
  by rewrite (wait_loop_end _ ctx_err l a) by (done || apply attempts_of_app).
Qed.

(** Context errors do not displace an error that is kept. *)
Lemma after_context_errors st e post :
  Forall (fun a => exists c, a = inr c /\ is_context_error c = true) post ->
  after_answers st (Some e) post = (st, Some e).
Proof.
  intros H. induction H as [|a l (c & -> & Hc) _ IH]; [done|]. simpl. by rewrite Hc.
Qed.

(** What a wait that timed out reports.  When the deadline ends a wait that
    never found the schema ready, the error carries the last database error that
    was not a context error, if no status came after it: the context errors the
    deadline itself causes do not hide it.  A wait that ended on a status reports
    that status, and one that ended on context errors alone, after a status or
    from the start, the first of them. *)
Theorem schema_wait_explains timeout pre post e status c :
  Forall not_ready pre -> Ready status = false -> is_context_error e = false -> is_context_error c = true ->
  Forall (fun a => exists c, a = inr c /\ is_context_error c = true) post ->
  let run answers := WaitForSchemaReady timeout (attempts_of answers (Sentinel DeadlineExceeded)) in
  let after := "schema readiness timeout after " +:+ Duration_String (wait_timeout timeout) +:+ ": " in
  run (pre ++ inr e :: post) = Some (Some (Wrapf (after +:+ Error e) e)) /\
  run (pre ++ [inl status]) = Some (Some (Opaque (after +:+ schemaStatusSummary status))) /\
  run (pre ++ inl status :: inr c :: post) = Some (Some (Wrapf (after +:+ Error c) c)) /\
  run (inr c :: post) = Some (Some (Wrapf (after +:+ Error c) c)).
Proof.
  intros Hpre Hst He Hc Hpost run after.
  assert (Hp : Forall not_ready post).
  { eapply Forall_impl; [exact Hpost|]. intros a (x & -> & _) s. discriminate. }
  assert (Hs : not_ready (inl status)) by (intros s [= <-]; done).
  assert (Hr : forall x, not_ready (inr x)) by (intros x s [=]).
  assert (Hne : forall a l, pre ++ a :: l <> []) by (intros a l; by destruct pre).
  unfold run, after. rewrite !wait_end by
    first [apply Hne|done|apply Forall_app_2; [done|repeat constructor; auto]|repeat constructor; auto].
  rewrite !after_answers_app. destruct (after_answers None None pre) as [st le]. simpl.
  assert (Hk : keep_error le e = Some e) by (unfold keep_error; rewrite He; by destruct le).
  rewrite Hk, !after_context_errors by done. unfold end_of_wait. simpl. by rewrite <- !append_assoc.
Qed.

(** When the wait succeeds: an answer was ready, and no earlier one was, nor did
    the context end before. *)
Theorem schema_wait_ready timeout attempts :
  WaitForSchemaReady timeout attempts = Some None <->
  exists pre status choice post, attempts = pre ++ (inl status, choice) :: post /\ Ready status = true /\
    Forall (fun x => not_ready (fst x) /\ snd x = Ticked) pre.
Proof.
  unfold WaitForSchemaReady. cut (forall st le, wait_loop (wait_timeout timeout) st le attempts = Some None <->
    exists pre status choice post, attempts = pre ++ (inl status, choice) :: post /\ Ready status = true /\
      Forall (fun x => not_ready (fst x) /\ snd x = Ticked) pre); [by auto|].
  induction attempts as [|[a choice] rest IH]; intros st le; simpl.
  { split; [done|]. intros ([|] & ? & ? & ? & [=] & _). }
  split.
  - destruct a as [s|e].
    + destruct (Ready s) eqn:Er.
      * intros _. exists [], s, choice, rest. by split_and!.
      * destruct choice; [|intros [=]]. intros (pre & s' & ch & post & -> & Hs & Hf)%IH.
        exists ((inl s, Ticked) :: pre), s', ch, post. split_and!; [done|done|].
        constructor; [|done]. split; [|done]. by intros x [= <-].
    + destruct choice; [|intros [=]]. intros (pre & s' & ch & post & -> & Hs & Hf)%IH.
      exists ((inr e, Ticked) :: pre), s', ch, post. split_and!; [done|done|].
        constructor; [split; [by intros x [=]|done]|done].
  - intros ([|[a' ch'] pre] & s & ch & post & [= -> -> ->] & Hs & Hf); [by rewrite Hs|].
    apply Forall_cons in Hf as [[Hn E] Hf]. simpl in Hn, E. subst ch'.
    destruct a' as [s'|e]; [rewrite (Hn s' eq_refl)|]; apply IH; by exists pre, s, ch, post.
Qed.

(** ** The readiness check *)

Lemma kind_count_zero d kind :
  kind_count d kind = 0 <-> forall id m rev, embeddings d !! (id, kind, m, rev) = None.
Proof.
  unfold kind_count. split.
  - intros Hz id m rev. destruct (embeddings d !! _) as [v|] eqn:E; [|done]. exfalso.
    assert (Hin : ((id, kind, m, rev), v) ∈ List.filter (fun row => String.eqb (fst row).1.1.2 kind)
      (map_to_list (embeddings d))).
    { apply filter_elem. rewrite elem_of_map_to_list. split; [done|apply String.eqb_refl]. }
    destruct (List.filter _ _); [by apply elem_of_nil in Hin|done].
  - intros Hn. destruct (List.filter _ _) as [|[[[[id k] m] rev] v] l] eqn:E; [done|]. exfalso.
    assert (Hin : ((id, k, m, rev), v) ∈ List.filter (fun row => String.eqb (fst row).1.1.2 kind)
      (map_to_list (embeddings d))) by (rewrite E; left).
    apply filter_elem in Hin as [Hin%elem_of_map_to_list Ek%String.eqb_eq]. simpl in Ek. subst k.
    by rewrite Hn in Hin.
Qed.

Lemma has_documents_spec d kinds :
  has_documents d kinds = true <->
  exists id doc, documents d !! id = Some doc /\ d_status doc = "active" /\ source_kind doc ∈ kinds.
Proof.
  unfold has_documents. rewrite existsb_exists. split.
  - intros ([id doc] & Hin & [Hs%String.eqb_eq Hk%one_of_elem]%andb_true_iff).
    apply list_elem_of_In, elem_of_map_to_list in Hin. by exists id, doc.
  - intros (id & doc & Hin & Hs & Hk). exists (id, doc). split.
    + by apply list_elem_of_In, elem_of_map_to_list.
    + simpl. by rewrite Hs, (proj2 (one_of_elem _ _) Hk).
Qed.

(** Readiness.  A check passes exactly when the pool is there and healthy,
    the schema is ready if that is required, and the vector counts are known:
    cached for at most a minute, or answered now.  The embedding backend is not
    part of it.  When it refreshed the counts, the check warns of exactly the
    kinds that have active documents and no embedding; it never warns from the
    cache. *)
Theorem readiness_check now after h schema d r :
  let a := {| a_health := h; a_schema := schema; a_counts := inl (CountEmbeddings d) |} in
  let '(r', err, warned) := Check now after a r in
  (err = None <-> has_db r = true /\ h = None /\
     (SchemaReadyRequired r = true -> exists st, schema = inl st /\ Ready st = true)) /\
  (err = None -> countsExpiresAt r <= now ->
     countsExpiresAt r' = after + Minute /\ counts r' = CountEmbeddings d /\
     forall kind, kind ∈ warned <->
       exists kinds, (kind, kinds) ∈ [("event", ["event"; "proxy_event"; "proxy_blocked_host_window"; "proxy_flow"]);
                                      ("device", ["device"])] /\
       (exists id doc, documents d !! id = Some doc /\ d_status doc = "active" /\ source_kind doc ∈ kinds) /\
       forall id m rev, embeddings d !! (id, kind, m, rev) = None) /\
  (now < countsExpiresAt r -> r' = r /\ warned = []).
Proof.
  intros a. unfold Check. destruct (has_db r) eqn:Edb; simpl; [|naive_solver].
  destruct h as [e|]; [naive_solver|].
  set (schema_error := if SchemaReadyRequired r then _ else None).
  assert (Hs : schema_error = None <->
    (SchemaReadyRequired r = true -> exists st, schema = inl st /\ Ready st = true)).
  { unfold schema_error. destruct (SchemaReadyRequired r); [|by split].
    destruct schema as [st|e]; [destruct (Ready st) eqn:Er|]; split; intros H; try done; [by eauto| |];
      destruct (H eq_refl) as (st' & [=] & Hr); congruence. }
  destruct schema_error as [e|]; [naive_solver|].
  unfold embeddingCounts. destruct (Z.ltb_spec now (countsExpiresAt r)) as [Hlt|Hge].
  { split; [naive_solver|]. split; [lia|done]. }
  split; [naive_solver|]. split; [|lia]. intros _ _. split; [done|]. split; [done|]. intros kind.
  unfold EmptyKinds. simpl. rewrite elem_of_app.
  transitivity ((kind = "event" /\ has_documents d ["event"; "proxy_event"; "proxy_blocked_host_window"; "proxy_flow"] = true
                  /\ kind_count d "event" = 0) \/
                (kind = "device" /\ has_documents d ["device"] = true /\ kind_count d "device" = 0)).
  - destruct (Z.eqb_spec (kind_count d "event") 0), (Z.eqb_spec (kind_count d "device") 0);
      destruct (has_documents d ["event"; _; _; _]), (has_documents d ["device"]); simpl;
      rewrite ?list_elem_of_singleton, ?elem_of_nil; naive_solver.
  - rewrite !has_documents_spec, !kind_count_zero. split.
    + intros [(-> & Hd & Hz)|(-> & Hd & Hz)]; eexists; (split; [|by split]); [left|right; left].
    + intros (kinds & Hin & Hd & Hz). apply elem_of_cons in Hin as [[= -> ->]|[= -> ->]%list_elem_of_singleton];
        [by left|by right].
Qed.

(** ** Witnesses *)

Definition db_down : error := Wrapf "postgres schema readiness query: relation does not exist" (Opaque "relation does not exist").
Definition query_cut : error := Wrapf "postgres schema readiness query: context deadline exceeded" (Sentinel DeadlineExceeded).
Definition pending_schema : SchemaReadyStatus := {|
  Ready := false; VectorReady := true; ManifestSHA256 := "aa"; ExpectedSHA256 := "bb" |}.

Lemma schema_wait_explains_witness :
  WaitForSchemaReady 0 (attempts_of [inl pending_schema; inr db_down; inr query_cut] (Sentinel DeadlineExceeded))
  = Some (Some (Wrapf ("schema readiness timeout after 1m0s: " +:+ Error db_down) db_down)).
Proof.
  apply (schema_wait_explains 0 [inl pending_schema] [inr query_cut] db_down pending_schema query_cut);
    [|reflexivity..|].
  - constructor; [|constructor]. intros s E. injection E as <-. reflexivity.
  - constructor; [|constructor]. exists query_cut. split; reflexivity.
Defined.
