(* ===== verification/Upstream.v ===== *)
(** * The shared upstream reader (internal/operations/upstream.go)

    [snapshotReader] as a transition system over readers and refreshes, for any
    validation with a state of its own; the proxy and statistics reports are its
    two uses.  [json.Unmarshal] into the program's structures is the class
    [OpsJSON].  What runs under [s.mu] is one step; a channel is a number. *)

From S2P Require Import Prelude GoErrors GoStrings GoTime GoFloats.

Definition upstreamTimeout : duration := 2 * Second.
Definition maxSnapshotBytes : Z := 2 ^ 20.

(** The freshness of a measurement (operations.go). *)
Definition measurementStatus (measured now : time) (staleAfter : duration) : string :=
  if IsZero measured || (now + Second <? measured) then "unavailable"
  else if staleAfter <? Sub now measured then "stale"
  else "current".

Lemma measurementStatus_elem m now d : measurementStatus m now d ∈ ["unavailable"; "stale"; "current"].
Proof. unfold measurementStatus. repeat case_match; set_solver. Qed.

(** ** fetch *)

Inductive http_answer :=
| RequestFailed (err : error)                                   (* building or sending it *)
| Response (status : Z) (body : string) (read_err : option error).

Definition fetch (a : http_answer) : string + error :=
  match a with
  | RequestFailed err => inr err
  | Response status body read_err =>
      if negb (status =? 200) then inr (Opaque "measurement unavailable")
      else match read_err with
           | Some err => inr err
           | None => if maxSnapshotBytes <? len body then inr (Opaque "measurement too large") else inl body
           end
  end.

(** ** The reader *)

Record snapshotReader := {
  url : string;
  ttl : duration;
  nextAttempt : time;
  refreshDone : option nat;
  cached : option string;           (* nil or the bytes *)
}.

Definition newSnapshotReader (url : string) (ttl : duration) : snapshotReader :=
  {| url := url; ttl := ttl; nextAttempt := time_zero; refreshDone := None; cached := None |}.

Section reader.
Context {X : Type} (validate : time -> string -> X -> X * bool).

(** Where a call of [read] is. *)
Inductive read_phase :=
| Entering
| Waiting (done : nat)
| Got (data : option string).

Record system := {
  reader : snapshotReader;
  owner : X;                        (* the state the validation updates *)
  clock : time;
  inflight : nat;                   (* refresh goroutines that run *)
  readers : gmap nat read_phase;
  next_chan : nat;
  closed : gset nat;
  panicked : bool;
  launched : list time;             (* newest first *)
}.

Definition set_reader (c : nat) (p : read_phase) (s : system) : system := {|
  reader := reader s; owner := owner s; clock := clock s; inflight := inflight s;
  readers := <[c := p]> (readers s); next_chan := next_chan s; closed := closed s; panicked := panicked s;
  launched := launched s |}.

(** The refresh that [read] launches. *)
Definition launch (s : system) : system := {|
  reader := {| url := url (reader s); ttl := ttl (reader s); nextAttempt := clock s + ttl (reader s);
               refreshDone := Some (next_chan s); cached := cached (reader s) |};
  owner := owner s; clock := clock s; inflight := S (inflight s); readers := readers s;
  next_chan := S (next_chan s); closed := closed s; panicked := panicked s; launched := clock s :: launched s |}.

(** [read] up to the unlock; [s.now] is read twice in it, at one instant here. *)
Definition read_enter (c : nat) (s : system) : system :=
  if is_empty (url (reader s)) then set_reader c (Got None) s
  else
    let s := if negb (clock s <? nextAttempt (reader s)) && bool_decide (refreshDone (reader s) = None)
             then launch s else s in
    match cached (reader s), refreshDone (reader s) with
    | None, Some done => set_reader c (Waiting done) s
    | data, _ => set_reader c (Got data) s
    end.

(** [refresh] after the fetch; closing a nil or a closed channel panics. *)
Definition reader_refresh (answer : http_answer) (s : system) : system :=
  let '(owner', data) :=
    match fetch answer with
    | inr _ => (owner s, cached (reader s))
    | inl body =>
        let '(x, ok) := validate (clock s) body (owner s) in
        (x, if ok then Some body else cached (reader s))
    end in {|
    reader := {| url := url (reader s); ttl := ttl (reader s); nextAttempt := nextAttempt (reader s);
                 refreshDone := None; cached := data |};
    owner := owner'; clock := clock s; inflight := Nat.pred (inflight s); readers := readers s;
    next_chan := next_chan s;
    closed := match refreshDone (reader s) with Some done => {[done]} ∪ closed s | None => closed s end;
    panicked := panicked s || match refreshDone (reader s) with
                              | Some done => bool_decide (done ∈ closed s)
                              | None => true
                              end;
    launched := launched s |}.

Definition tick (d : duration) (s : system) : system := {|
  reader := reader s; owner := owner s; clock := clock s + d; inflight := inflight s; readers := readers s;
  next_chan := next_chan s; closed := closed s; panicked := panicked s; launched := launched s |}.

Inductive reader_step : system -> system -> Prop :=
| us_tick s d : 0 <= d -> reader_step s (tick d s)
| us_call s c : readers s !! c = None -> reader_step s (set_reader c Entering s)
| us_enter s c : readers s !! c = Some Entering -> reader_step s (read_enter c s)
| us_done s c done :
    readers s !! c = Some (Waiting done) -> done ∈ closed s ->
    reader_step s (set_reader c (Got (cached (reader s))) s)
| us_cancel s c done :
    readers s !! c = Some (Waiting done) -> reader_step s (set_reader c (Got None) s)
| us_refresh s answer : (0 < inflight s)%nat -> reader_step s (reader_refresh answer s).

Definition reader_init (u : string) (t : duration) (x : X) (now : time) : system := {|
  reader := newSnapshotReader u t; owner := x; clock := now; inflight := 0; readers := ∅; next_chan := 1;
  closed := ∅; panicked := false; launched := [] |}.

(** ** The invariant *)

(** A validation that accepted the bytes, at some time and in some state that the
    validations before it left. *)
Definition accepted (s : system) (data : string) : Prop :=
  exists now x x', now <= clock s /\ validate now data x = (x', true).

Record reader_inv (t : duration) (s : system) : Prop := {
  ri_panicked : panicked s = false;
  ri_ttl : ttl (reader s) = t;
  ri_flight : match refreshDone (reader s) with
              | Some done => inflight s = 1%nat /\ done ∉ closed s /\ (done < next_chan s)%nat
              | None => inflight s = 0%nat
              end;
  ri_closed : forall ch, ch ∈ closed s -> (ch < next_chan s)%nat;
  ri_waiting : forall c done, readers s !! c = Some (Waiting done) ->
    done ∈ closed s \/ refreshDone (reader s) = Some done;
  ri_cached : forall data, cached (reader s) = Some data -> accepted s data;
  ri_got : forall c data, readers s !! c = Some (Got (Some data)) -> accepted s data;
  ri_launched : match launched s with
                | last :: _ => nextAttempt (reader s) = last + t /\ last <= clock s
                | [] => True
                end /\ StronglySorted (fun later earlier => earlier + t <= later) (launched s);
}.

Lemma reader_init_inv u t x now : reader_inv t (reader_init u t x now).
Proof.
  split; simpl; try done.
  split; [done|constructor].
Qed.

Lemma accepted_later s s' data : clock s <= clock s' -> accepted s data -> accepted s' data.
Proof. intros H (n & x & x' & Hn & Hv). exists n, x, x'. split; [lia|done]. Qed.

Lemma set_reader_inv t c p s :
  reader_inv t s ->
  (forall done, p = Waiting done -> done ∈ closed s \/ refreshDone (reader s) = Some done) ->
  (forall data, p = Got (Some data) -> accepted s data) ->
  reader_inv t (set_reader c p s).
Proof.
  intros [H1 H2 H3 H4 H5 H6 H7 H8] Hw Hg. split; simpl; try done.
  - intros c' done. rewrite lookup_insert_Some. intros [[_ ->]|[_ Hc]]; [by apply Hw|by eapply H5].
  - intros c' data. rewrite lookup_insert_Some. intros [[_ ->]|[_ Hc]]; [by apply Hg|by eapply H7].
Qed.

Lemma launch_inv t s :
  0 <= t -> reader_inv t s -> nextAttempt (reader s) <= clock s -> refreshDone (reader s) = None -> reader_inv t (launch s).
Proof.
  intros Ht [H1 H2 H3 H4 H5 H6 H7 [H8 H9]] Hn Hr. rewrite Hr in H3, H5. split; simpl; try done.
  - rewrite H3. split_and!; [done| |lia]. intros Hin%H4. lia.
  - intros ch Hch%H4. lia.
  - intros c done Hc. left. by destruct (H5 c done Hc).
  - rewrite H2. split; [split; [done|lia]|]. constructor; [done|].
    destruct (launched s) as [|last l]; [constructor|]. destruct H8 as [E Hl].
    apply StronglySorted_inv in H9 as [_ H9]. constructor; [lia|].
    eapply Forall_impl; [exact H9|]. simpl. intros x Hx. lia.
Qed.

Lemma read_enter_inv t c s : 0 <= t -> reader_inv t s -> reader_inv t (read_enter c s).
Proof.
  intros Ht Hi. unfold read_enter. destruct (is_empty (url (reader s))); [by apply set_reader_inv|].
  assert (Hl : reader_inv t (if negb (clock s <? nextAttempt (reader s)) && bool_decide (refreshDone (reader s) = None)
                             then launch s else s)).
  { destruct (_ && _) eqn:E; [|done]. apply andb_true_iff in E as [E1 E2%bool_decide_eq_true].
    apply launch_inv; [done|done| |done]. apply negb_true_iff, Z.ltb_ge in E1. lia. }
  revert Hl. cbv zeta. generalize (if negb (clock s <? nextAttempt (reader s)) && bool_decide (refreshDone (reader s) = None)
    then launch s else s). clear s Hi. intros s Hi.
  destruct (cached (reader s)) as [data|] eqn:Ec.
  - apply set_reader_inv; [done|done|]. intros d [= <-]. by apply Hi.
  - destruct (refreshDone (reader s)) as [ch|] eqn:Er; (apply set_reader_inv; [exact Hi| |by intros ? [=]]);
      [|by intros ? [=]]. intros d [= <-]. by right.
Qed.

Lemma upstream_refresh_inv t answer s : reader_inv t s -> (0 < inflight s)%nat -> reader_inv t (reader_refresh answer s).
Proof.
  intros [H1 H2 H3 H4 H5 H6 H7 H8] Hf. destruct (refreshDone (reader s)) as [done|] eqn:Er; [|lia].
  destruct H3 as (E1 & Hnc & Hlt). unfold reader_refresh. rewrite Er.
  set (res := match fetch answer with inl body => _ | inr _ => _ end).
  assert (Hres : forall data, res.2 = Some data -> accepted s data).
  { unfold res. destruct (fetch answer) as [body|err]; [|by intros ? [=]%H6 || auto].
    destruct (validate (clock s) body (owner s)) as [x ok] eqn:Ev. simpl. destruct ok; [|auto].
    intros data [= <-]. exists (clock s), (owner s), x. split; [lia|done]. }
  destruct res as [x data]. simpl in Hres. split; simpl.
  - rewrite H1, bool_decide_eq_false_2 by done. done.
  - done.
  - by rewrite E1.
  - intros ch [->%elem_of_singleton|Hch%H4]%elem_of_union; lia.
  - intros c d [Hd|[= <-]]%H5; left; set_solver.
  - intros d Hd. eapply accepted_later; [|by apply Hres]. simpl. lia.
  - intros c d Hd%H7. eapply accepted_later; [|exact Hd]. simpl. lia.
  - exact H8.
Qed.

Lemma reader_step_inv t s s' : 0 <= t -> reader_inv t s -> reader_step s s' -> reader_inv t s'.
Proof.
  intros Ht Hi Hs. destruct Hs as [s d Hd|s c Hc|s c Hc|s c done Hc Hcl|s c done Hc|s answer Hf].
  - pose proof Hi as [H1 H2 H3 H4 H5 H6 H7 [H8 H9]]. split; simpl; try done.
    + intros data Hdata%H6. eapply accepted_later; [|exact Hdata]. simpl. lia.
    + intros c data Hdata%H7. eapply accepted_later; [|exact Hdata]. simpl. lia.
    + split; [|done]. destruct (launched s); [done|]. destruct H8. split; [done|lia].
  - by apply set_reader_inv.
  - by apply read_enter_inv.
  - apply set_reader_inv; [done|done|]. intros data [= E]. by apply Hi.
  - by apply set_reader_inv.
  - by apply upstream_refresh_inv.
Qed.

Lemma reader_reachable u t x now s :
  0 <= t -> steps reader_step (reader_init u t x now) s -> reader_inv t s.
Proof.
  intros Ht Hs. eapply steps_invariant; [|apply reader_init_inv|exact Hs].
  intros a b Ha. by apply reader_step_inv.
Qed.

(** The shared reader.  In every reachable state the refresh has not
    panicked on a nil or closed channel; at most one refresh runs; launches are
    the reader's TTL apart or more, whether the refreshes succeed or fail; a
    caller that waits on an open channel waits for the refresh that runs; and
    bytes that are cached or handed to a caller passed the validation. *)
Theorem shared_reader u t x now s :
  0 <= t -> steps reader_step (reader_init u t x now) s ->
  panicked s = false /\ (inflight s <= 1)%nat /\
  StronglySorted (fun later earlier => earlier + t <= later) (launched s) /\
  (forall c done, readers s !! c = Some (Waiting done) -> done ∉ closed s ->
     inflight s = 1%nat /\ refreshDone (reader s) = Some done) /\
  (forall c data, cached (reader s) = Some data \/ readers s !! c = Some (Got (Some data)) ->
     exists now' x x', now' <= clock s /\ validate now' data x = (x', true)).
Proof.
  intros Ht Hs. destruct (reader_reachable u t x now s Ht Hs) as [H1 H2 H3 H4 H5 H6 H7 [H8 H9]].
  split; [done|]. split; [destruct (refreshDone (reader s)); lia|]. split; [done|]. split.
  - intros c done Hc Hn. destruct (H5 c done Hc) as [?|E]; [done|]. rewrite E in H3. by destruct H3.
  - intros c data [Hd|Hd]; [by apply H6|by eapply H7].
Qed.

(** No call is left waiting: a caller that entered [read] can be answered in at
    most three more steps, whatever the upstream answers. *)
Theorem shared_reader_returns u t x now s c p (answer : http_answer) :
  0 <= t -> steps reader_step (reader_init u t x now) s -> readers s !! c = Some p ->
  exists s' data, steps reader_step s s' /\ readers s' !! c = Some (Got data).
Proof.
  intros Ht Hs Hc. pose proof (reader_reachable u t x now s Ht Hs) as Hi. clear Hs.
  assert (Hw : forall s1 done, reader_inv t s1 -> readers s1 !! c = Some (Waiting done) ->
    exists s' data, steps reader_step s1 s' /\ readers s' !! c = Some (Got data)).
  { intros s1 done Hi1 Hc1. destruct (ri_waiting _ _ Hi1 c done Hc1) as [Hd|Hd].
    - eexists _, _. split; [apply steps_one; by eapply us_done|apply lookup_insert_eq].
    - pose proof (ri_flight _ _ Hi1) as Hf. rewrite Hd in Hf. destruct Hf as (Hf & _).
      set (s2 := reader_refresh answer s1).
      assert (E2 : readers s2 !! c = Some (Waiting done) /\ done ∈ closed s2).
      { unfold s2, reader_refresh. rewrite Hd. by destruct (match fetch answer with inl _ => _ | inr _ => _ end); simpl;
          split; [|set_solver]. }
      exists (set_reader c (Got (cached (reader s2))) s2), (cached (reader s2)). split; [|apply lookup_insert_eq].
      eapply steps_next; [apply steps_one, (us_refresh s1 answer); lia|]. apply (us_done s2 c done); apply E2. }
  destruct p as [|done|data].
  - assert (Hstep : reader_step s (read_enter c s)) by by apply us_enter.
    pose proof (reader_step_inv t _ _ Ht Hi Hstep) as Hi'.
    assert (Hcase : (exists done, readers (read_enter c s) !! c = Some (Waiting done)) \/
                    (exists data, readers (read_enter c s) !! c = Some (Got data))).
    { unfold read_enter. destruct (is_empty _); [right; eexists; apply lookup_insert_eq|]. cbv zeta.
      destruct (cached _); [right; eexists; apply lookup_insert_eq|].
      destruct (refreshDone _); [left|right]; eexists; apply lookup_insert_eq. }
    destruct Hcase as [[done Hd]|[data Hd]].
    + destruct (Hw _ _ Hi' Hd) as (s' & data & Hs' & Hg). exists s', data. split; [|done].
      eapply steps_trans; [apply steps_one; exact Hstep|exact Hs'].
    + exists (read_enter c s), data. split; [by apply steps_one|done].
  - by apply (Hw s done).
  - exists s, data. split; [apply steps_refl|done].
Qed.

(** The state of the validation, by induction on the steps. *)
Lemma owner_reachable (P : X -> Prop) u t x now s :
  P x -> (forall n data y, P y -> P (fst (validate n data y))) ->
  steps reader_step (reader_init u t x now) s -> P (owner s).
Proof.
  intros Hx Hv Hs. refine (steps_invariant reader_step (fun s => P (owner s)) (reader_init u t x now) s _ Hx Hs).
  intros a b Ha Hstep. destruct Hstep as [| |a c| | |a answer]; try done.
  - unfold read_enter. repeat case_match; try done; simpl in *; unfold launch in *; simplify_eq/=; done.
  - unfold reader_refresh. destruct (fetch answer) as [body|]; [|done].
    pose proof (Hv (clock a) body (owner a) Ha) as Hp. by destruct (validate _ _ _).
Qed.
End reader.

(** ** The proxy report *)

Record Counters := {
  TunnelsOpened : Z;
  BytesUp : Z;
  BytesDown : Z;
  Blocked : Z;
  Allowed : Z;
  Obfuscated : Z;
  HostStatsDropped : Z;
}.

Record Classifications := {
  AdsTracker : Z;
  Analytics : Z;
  CDN : Z;
  EssentialAPI : Z;
  AuthCount : Z;                    (* Auth *)
  UnknownCount : Z;                 (* Unknown *)
}.

Record Publisher := {
  Configured : bool;
  PublisherStatus : string;         (* Status *)
  QueueDepth : Z;
  QueueCapacity : Z;
  SpooledTotal : Z;
  EnqueueTimeoutsTotal : Z;
  LastAttemptAt : option time;
  LastPublishAt : option time;
}.

Record proxySnapshot := {
  SchemaVersion : Z;
  ps_measured_at : time;            (* MeasuredAt *)
  InstanceID : string;
  ActiveTunnels : option Z;
  ps_counters : option Counters;
  ps_classifications : option Classifications;
  ps_publisher : option Publisher;
}.

Record Rates := {
  TunnelsPerSecond : float64;
  BytesUpPerSecond : float64;
  BytesDownPerSecond : float64;
}.

Record ProxyLive := {
  pl_scope : string;
  pl_status : string;
  pl_measured_at : option time;
  pl_active_tunnels : option Z;
  pl_counters : option Counters;
  pl_classifications : option Classifications;
  pl_publisher : option Publisher;
  pl_rates : option Rates;
}.

(** The statistics documents (statsSnapshot). *)
Record statsThroughput := { th_bucket : string; th_series : list (time * Z) }.

Record LiveStrip := {
  IngestProcessedRatePerSec : option float64;
  PendingLedgerCount : option Z;
  BrokerLagCount : option Z;
  LastIngestSuccessAt : option time;
  BackpressureActive : option bool;
}.

Record statsSnapshot := {
  AsOf : time;
  ss_peaks_computed_at : option time;
  ss_peak_records_day : option Z;
  ss_peak_records_week : option Z;
  ss_live_strip : option LiveStrip;
  ss_throughput_24h : option statsThroughput;
  ss_throughput_7d : option statsThroughput;
}.

(** json.Unmarshal into a proxySnapshot, into a map of raw messages, and into a
    statsSnapshot; [None] is an error. *)
Class OpsJSON := {
  parse_proxy : string -> option proxySnapshot;
  parse_fields : string -> option (gmap string string);
  parse_stats : string -> option statsSnapshot;
}.

Section proxy.
Context `{OpsJSON}.

(** The [proxyReader] without its reader. *)
Record proxyReader := { last : option proxySnapshot; rates : option Rates }.
Definition newProxyReader : proxyReader := {| last := None; rates := None |}.

(** A missing field is empty input. *)
Definition requiredFields (data : option string) (keys : list string) : bool :=
  match data ≫= parse_fields with
  | None => false
  | Some fields =>
      forallb (fun key => match fields !! key with
                          | Some raw => negb (is_empty raw) && negb (String.eqb (TrimSpace raw) "null")
                          | None => false
                          end) keys
  end.

Definition counter_fields : list string :=
  ["tunnels_opened"; "bytes_up"; "bytes_down"; "blocked"; "allowed"; "obfuscated"; "host_stats_dropped"].
Definition classification_fields : list string :=
  ["ads_tracker"; "analytics"; "cdn"; "essential_api"; "auth"; "unknown"].
Definition publisher_fields : list string :=
  ["configured"; "status"; "queue_depth"; "queue_capacity"; "spooled_total"; "enqueue_timeouts_total"].

Definition completeProxy (data : string) : bool :=
  match parse_fields data with
  | None => false
  | Some fields =>
      requiredFields (fields !! "counters") counter_fields
      && requiredFields (fields !! "classifications") classification_fields
      && requiredFields (fields !! "publisher") publisher_fields
  end.

Definition validProxy (s : proxySnapshot) (now : time) : bool :=
  (SchemaVersion s =? 1) && negb (IsZero (ps_measured_at s)) && negb (now + Second <? ps_measured_at s)
  && (1 <=? len (InstanceID s)) && (len (InstanceID s) <=? 128)
  && bool_decide (is_Some (ActiveTunnels s)) && bool_decide (is_Some (ps_counters s))
  && bool_decide (is_Some (ps_classifications s))
  && match ps_publisher s with
     | Some p => existsb (String.eqb (PublisherStatus p)) ["disabled"; "pending"; "ok"; "degraded"]
     | None => false
     end.

Definition countersIncrease (previous current : Counters) : bool :=
  (TunnelsOpened previous <=? TunnelsOpened current) && (BytesUp previous <=? BytesUp current)
  && (BytesDown previous <=? BytesDown current) && (Blocked previous <=? Blocked current)
  && (Allowed previous <=? Allowed current) && (Obfuscated previous <=? Obfuscated current)
  && (HostStatsDropped previous <=? HostStatsDropped current).

(** Duration.Seconds *)
Definition Seconds (d : duration) : float64 :=
  f64_add (f64_of_Z (Z.quot d Second)) (f64_div (f64_of_Z (Z.rem d Second)) (f64_of_Z Second)).

(** [float64(current - previous) / seconds] on uint64 counters. *)
Definition rate (previous current : Z) (seconds : float64) : float64 :=
  f64_div (f64_of_Z ((current - previous) mod 2 ^ 64)) seconds.

Definition rates_between (previous current : Counters) (seconds : float64) : Rates := {|
  TunnelsPerSecond := rate (TunnelsOpened previous) (TunnelsOpened current) seconds;
  BytesUpPerSecond := rate (BytesUp previous) (BytesUp current) seconds;
  BytesDownPerSecond := rate (BytesDown previous) (BytesDown current) seconds;
|}.

(** The counters are there: only validated snapshots are observed. *)
Definition observe (snapshot : proxySnapshot) (x : proxyReader) : proxyReader :=
  match last x with
  | Some l =>
      if String.eqb (InstanceID snapshot) (InstanceID l)
      then
        if negb (ps_measured_at l <? ps_measured_at snapshot) then x
        else {|
          last := Some snapshot;
          rates := match ps_counters l, ps_counters snapshot with
                   | Some previous, Some current =>
                       if countersIncrease previous current
                       then Some (rates_between previous current (Seconds (Sub (ps_measured_at snapshot) (ps_measured_at l))))
                       else None
                   | _, _ => None
                   end |}
      else {| last := Some snapshot; rates := None |}
  | None => {| last := Some snapshot; rates := None |}
  end.

(** The validation newProxyReader gives its reader. *)
Definition validate_proxy (now : time) (data : string) (x : proxyReader) : proxyReader * bool :=
  match parse_proxy data with
  | Some snapshot =>
      if validProxy snapshot now && completeProxy data then (observe snapshot x, true) else (x, false)
  | None => (x, false)
  end.

Definition live_status (status : string) : ProxyLive := {|
  pl_scope := "global"; pl_status := status; pl_measured_at := None; pl_active_tunnels := None;
  pl_counters := None; pl_classifications := None; pl_publisher := None; pl_rates := None;
|}.

(** [read] after the shared read returned [data]. *)
Definition proxy_live (url : string) (now : time) (data : option string) (x : proxyReader) : ProxyLive :=
  if is_empty url then live_status "disabled"
  else
    match data ≫= parse_proxy with
    | None => live_status "unavailable"
    | Some s =>
        if 60 * Second <? Sub now (ps_measured_at s)
        then {| pl_scope := "global"; pl_status := "unavailable"; pl_measured_at := Some (ps_measured_at s);
                pl_active_tunnels := None; pl_counters := None; pl_classifications := None; pl_publisher := None;
                pl_rates := None |}
        else
          let status := measurementStatus (ps_measured_at s) now (15 * Second) in
          {| pl_scope := "global"; pl_status := status; pl_measured_at := Some (ps_measured_at s);
             pl_active_tunnels := ActiveTunnels s; pl_counters := ps_counters s;
             pl_classifications := ps_classifications s; pl_publisher := ps_publisher s;
             pl_rates := match last x with
                         | Some l =>
                             if String.eqb status "current" && String.eqb (InstanceID l) (InstanceID s)
                                && (ps_measured_at l =? ps_measured_at s)
                             then rates x else None
                         | None => None
                         end |}
    end.

(** ** The statistics report *)

Definition validate_stats (now : time) (data : string) (x : unit) : unit * bool :=
  (tt, match parse_stats data with
       | Some s => negb (String.eqb (measurementStatus (AsOf s) now (180 * Second)) "unavailable")
       | None => false
       end).

Definition mapThroughput (input : option statsThroughput) : option statsThroughput :=
  match input with
  | None => None
  | Some t =>
      if (1000 <? Z.of_nat (length (th_series t)))
         || (negb (String.eqb (th_bucket t) "hour") && negb (String.eqb (th_bucket t) "day"))
      then None
      else if existsb (fun p => IsZero (fst p) || (snd p <? 0)) (th_series t) then None
      else Some {| th_bucket := th_bucket t; th_series := th_series t |}
  end.

Record History := {
  hi_status : string;
  hi_as_of : option time;
  hi_peaks_status : string;
  hi_peaks_computed_at : option time;
  hi_peak_records_day : option Z;
  hi_peak_records_week : option Z;
  hi_live_strip : option LiveStrip;
  hi_throughput_24h : option statsThroughput;
  hi_throughput_7d : option statsThroughput;
}.

(** statsReader.read, the clock being read once here. *)
Definition history (now : time) (data : option string) : History :=
  match data ≫= parse_stats with
  | None => {| hi_status := "unavailable"; hi_as_of := None; hi_peaks_status := "unavailable";
               hi_peaks_computed_at := None; hi_peak_records_day := None; hi_peak_records_week := None;
               hi_live_strip := None; hi_throughput_24h := None; hi_throughput_7d := None |}
  | Some s =>
      let status := measurementStatus (AsOf s) now (180 * Second) in
      let peaks := match ss_peaks_computed_at s with
                   | Some t => measurementStatus t now (360 * Second)
                   | None => "unavailable"
                   end in
      let peaks_current := String.eqb peaks "current" in
      {| hi_status := status; hi_as_of := Some (AsOf s); hi_peaks_status := peaks;
         hi_peaks_computed_at := ss_peaks_computed_at s;
         hi_peak_records_day := if peaks_current then ss_peak_records_day s else None;
         hi_peak_records_week := if peaks_current then ss_peak_records_week s else None;
         hi_live_strip := if String.eqb status "current" then ss_live_strip s else None;
         hi_throughput_24h := mapThroughput (ss_throughput_24h s);
         hi_throughput_7d := mapThroughput (ss_throughput_7d s) |}
  end.

(** ** Rates *)

Definition uint64 (z : Z) : Prop := 0 <= z < 2 ^ 64.

(** The counters a snapshot decodes to are Go's uint64. *)
Class OpsJSONLaws : Prop := {
  parse_uint64 data s c : parse_proxy data = Some s -> ps_counters s = Some c ->
    uint64 (TunnelsOpened c) /\ uint64 (BytesUp c) /\ uint64 (BytesDown c);
}.
Context {laws : OpsJSONLaws}.

(** A snapshot that was decoded and found valid at some time. *)
Definition was_valid (s : proxySnapshot) : Prop :=
  exists now data, parse_proxy data = Some s /\ validProxy s now = true.

Definition no_reset (previous current : Counters) : Prop :=
  TunnelsOpened previous <= TunnelsOpened current /\ BytesUp previous <= BytesUp current /\
  BytesDown previous <= BytesDown current /\ Blocked previous <= Blocked current /\
  Allowed previous <= Allowed current /\ Obfuscated previous <= Obfuscated current /\
  HostStatsDropped previous <= HostStatsDropped current.

Lemma countersIncrease_spec p c : countersIncrease p c = true <-> no_reset p c.
Proof. unfold countersIncrease, no_reset. rewrite !andb_true_iff, !Z.leb_le. tauto. Qed.

(** [r] are the rates of [cur] over the earlier [prev] of the same instance. *)
Definition sampled (prev cur : proxySnapshot) (r : Rates) : Prop :=
  InstanceID prev = InstanceID cur /\ ps_measured_at prev < ps_measured_at cur /\
  exists cp cc, ps_counters prev = Some cp /\ ps_counters cur = Some cc /\ no_reset cp cc /\
    let seconds := Seconds (Sub (ps_measured_at cur) (ps_measured_at prev)) in
    r = {| TunnelsPerSecond := f64_div (f64_of_Z (TunnelsOpened cc - TunnelsOpened cp)) seconds;
           BytesUpPerSecond := f64_div (f64_of_Z (BytesUp cc - BytesUp cp)) seconds;
           BytesDownPerSecond := f64_div (f64_of_Z (BytesDown cc - BytesDown cp)) seconds |}.

Lemma rate_exact p c seconds :
  uint64 p -> uint64 c -> p <= c -> rate p c seconds = f64_div (f64_of_Z (c - p)) seconds.
Proof. intros [] [] Hle. unfold rate. rewrite Z.mod_small by lia. done. Qed.

Lemma rates_between_exact data1 data2 s1 s2 p c seconds :
  parse_proxy data1 = Some s1 -> ps_counters s1 = Some p -> parse_proxy data2 = Some s2 -> ps_counters s2 = Some c ->
  no_reset p c ->
  rates_between p c seconds =
  {| TunnelsPerSecond := f64_div (f64_of_Z (TunnelsOpened c - TunnelsOpened p)) seconds;
     BytesUpPerSecond := f64_div (f64_of_Z (BytesUp c - BytesUp p)) seconds;
     BytesDownPerSecond := f64_div (f64_of_Z (BytesDown c - BytesDown p)) seconds |}.
Proof.
  intros H1 Hp H2 Hc (I1 & I2 & I3 & _). destruct (parse_uint64 _ _ _ H1 Hp) as (? & ? & ?).
  destruct (parse_uint64 _ _ _ H2 Hc) as (? & ? & ?). unfold rates_between. by rewrite !rate_exact.
Qed.

(** The baseline was valid, and the rates compare it with an earlier one. *)
Definition baseline_ok (x : proxyReader) : Prop :=
  (forall l, last x = Some l -> was_valid l) /\
  (forall r, rates x = Some r -> exists p l, last x = Some l /\ was_valid p /\ sampled p l r).

Lemma observe_ok s x : baseline_ok x -> was_valid s -> baseline_ok (observe s x).
Proof.
  intros [Hl Hr] Hs. unfold observe.
  assert (Hnew : baseline_ok {| last := Some s; rates := None |}) by (split; [by intros l [= <-]|done]).
  destruct (last x) as [l|] eqn:El; [|done].
  destruct (String.eqb_spec (InstanceID s) (InstanceID l)) as [Ei|]; [|done].
  destruct (Z.ltb_spec (ps_measured_at l) (ps_measured_at s)) as [Hlt|]; simpl; [|by split; rewrite ?El].
  split; simpl; [by intros ? [= <-]|]. intros r Hr'.
  destruct (ps_counters l) as [cp|] eqn:Ep; [|done]. destruct (ps_counters s) as [cc|] eqn:Ec; [|done].
  destruct (countersIncrease cp cc) eqn:Ei'; [|done]. apply countersIncrease_spec in Ei'. injection Hr' as <-.
  exists l, s. split; [done|]. split; [by apply Hl|]. split; [done|]. split; [done|]. exists cp, cc.
  do 3 (split; [done|]). destruct (Hl l eq_refl) as (n1 & d1 & H1 & _). destruct Hs as (n2 & d2 & H2 & _).
  by apply (rates_between_exact d1 d2 l s).
Qed.

Lemma validate_proxy_ok now data x : baseline_ok x -> baseline_ok (fst (validate_proxy now data x)).
Proof.
  intros Hx. unfold validate_proxy. destruct (parse_proxy data) as [s|] eqn:Ep; [|done].
  destruct (validProxy s now && completeProxy data) eqn:Ev; [|done]. apply andb_true_iff in Ev as [Ev _].
  apply observe_ok; [done|]. by exists now, data.
Qed.

Lemma measurement_current m now d : - 2 ^ 63 <= d < 2 ^ 63 - 1 ->
  measurementStatus m now d = "current" <-> m <> 0 /\ m <= now + Second /\ now - m <= d.
Proof.
  intros Hd. unfold measurementStatus, IsZero. rewrite Sub_gt by done.
  destruct (Z.eqb_spec m 0), (Z.ltb_spec (now + Second) m), (Z.ltb_spec d (now - m)); simpl; split; intros;
    first [done|lia].
Qed.

(** Rates are real differences.  Whatever responses the upstream gave and
    however calls interleaved, rates that a report shows compare two valid
    snapshots of one proxy instance, the second measured after the first and
    shown as the report's measurement, at most 15 seconds old; no counter went
    down between them, so each rate is the exact difference of the counters,
    without wrap-around, over the time between the measurements. *)
Theorem proxy_rates u t now0 s now data r :
  steps (reader_step validate_proxy) (reader_init u t newProxyReader now0) s ->
  pl_rates (proxy_live u now data (owner s)) = Some r ->
  exists prev cur, was_valid prev /\ was_valid cur /\ sampled prev cur r /\
    pl_status (proxy_live u now data (owner s)) = "current" /\
    pl_measured_at (proxy_live u now data (owner s)) = Some (ps_measured_at cur) /\
    now - ps_measured_at cur <= 15 * Second.
Proof.
  intros Hs. assert (Hb : baseline_ok (owner s)).
  { eapply owner_reachable; [|apply validate_proxy_ok|exact Hs]. by split. }
  unfold proxy_live. destruct (is_empty u); [done|]. destruct (data ≫= parse_proxy) as [c|]; [|done].
  destruct (60 * Second <? _); [done|]. cbn [pl_rates pl_status pl_measured_at].
  destruct (last (owner s)) as [l|] eqn:El; [|done].
  destruct (_ && _ && _) eqn:E; [|done]. rewrite !andb_true_iff, !String.eqb_eq, Z.eqb_eq in E.
  destruct E as [[Ec Ei] Em]. intros Hr. destruct Hb as [Hl Hsam]. destruct (Hsam r Hr) as (p & l' & E' & Hp & Hsp).
  rewrite El in E'. injection E' as <-. exists p, l. rewrite Em. split_and!; try done; [by apply Hl|].
  apply measurement_current in Ec; [lia|done].
Qed.
End proxy.

Lemma mapThroughput_spec input th :
  mapThroughput input = Some th ->
  th_bucket th ∈ ["hour"; "day"] /\ (length (th_series th) <= 1000)%nat /\
  Forall (fun p => fst p <> 0 /\ 0 <= snd p) (th_series th).
Proof.
  destruct input as [t|]; [|done]. unfold mapThroughput. destruct (_ || _) eqn:E; [done|].
    destruct (existsb _ _) eqn:Ee; [done|]. intros [= <-]. simpl.
    apply orb_false_iff in E as [E1%Z.ltb_ge E2%andb_false_iff]. split; [|split; [lia|]].
    - destruct E2 as [E2%negb_false_iff%String.eqb_eq|E2%negb_false_iff%String.eqb_eq]; rewrite E2; set_solver.
    - apply Forall_forall. intros p Hp. rewrite <- not_true_iff_false, existsb_exists in Ee.
      destruct (IsZero p.1 || (p.2 <? 0)) eqn:Epp; [destruct Ee; exists p; split; [by apply list_elem_of_In|done]|].
      apply orb_false_iff in Epp as [E3%Z.eqb_neq E4%Z.ltb_ge]. done.
Qed.

(** Every string of a statistics report is from a fixed vocabulary. *)
Definition public_history (r : History) : Prop :=
  hi_status r ∈ ["unavailable"; "stale"; "current"] /\ hi_peaks_status r ∈ ["unavailable"; "stale"; "current"] /\
  forall th, hi_throughput_24h r = Some th \/ hi_throughput_7d r = Some th ->
    th_bucket th ∈ ["hour"; "day"] /\ (length (th_series th) <= 1000)%nat.

Lemma history_public `{OpsJSON} now data : public_history (history now data).
Proof.
  unfold history. destruct (data ≫= parse_stats) as [s|].
  - split; [apply measurementStatus_elem|]. split.
    + cbn [hi_peaks_status]. destruct (ss_peaks_computed_at s); [apply measurementStatus_elem|left].
    + cbn [hi_throughput_24h hi_throughput_7d]. intros th [(? & ? & _)%mapThroughput_spec|(? & ? & _)%mapThroughput_spec]; done.
  - split; [left|]. split; [left|]. by intros th [|].
Qed.

(** What the statistics report shows is as fresh as it says: the live strip is at
    most three minutes old, the peaks six, and bucketed history is bounded. *)
Theorem history_gated `{OpsJSON} now data :
  let r := history now data in
  (is_Some (hi_live_strip r) -> hi_status r = "current" /\ exists t, hi_as_of r = Some t /\ now - t <= 180 * Second) /\
  (is_Some (hi_peak_records_day r) \/ is_Some (hi_peak_records_week r) ->
     exists t, hi_peaks_computed_at r = Some t /\ now - t <= 360 * Second) /\
  (forall th, hi_throughput_24h r = Some th \/ hi_throughput_7d r = Some th ->
     th_bucket th ∈ ["hour"; "day"] /\ (length (th_series th) <= 1000)%nat /\
     Forall (fun p => fst p <> 0 /\ 0 <= snd p) (th_series th)).
Proof.
  unfold history. destruct (data ≫= parse_stats) as [s|]; simpl.
  2:{ split; [by intros []|]. split; [by intros [[]|[]]|]. by intros th [|]. }
  split; [|split].
  - destruct (String.eqb_spec (measurementStatus (AsOf s) now (180 * Second)) "current") as [E|]; [|by intros []].
    intros _. split; [done|]. exists (AsOf s). split; [done|].
    apply measurement_current in E; [lia|done].
  - destruct (ss_peaks_computed_at s) as [t|]; [|by intros [[]|[]]].
    destruct (String.eqb_spec (measurementStatus t now (360 * Second)) "current") as [E|]; [|by intros [[]|[]]].
    intros _. exists t. split; [done|]. apply measurement_current in E; [lia|done].
  - intros th [Hh|Hh]; by eapply mapThroughput_spec.
Qed.

(** ** Witnesses *)

(** Two documents of one instance, ten seconds apart. *)
Definition sample_counters (n : Z) : Counters := {|
  TunnelsOpened := n; BytesUp := 100 * n; BytesDown := 0; Blocked := 0; Allowed := n; Obfuscated := 0;
  HostStatsDropped := 0 |}.

Definition sample_snapshot (at_ n : Z) : proxySnapshot := {|
  SchemaVersion := 1; ps_measured_at := at_; InstanceID := "p1"; ActiveTunnels := Some 1;
  ps_counters := Some (sample_counters n);
  ps_classifications := Some {| AdsTracker := 0; Analytics := 0; CDN := 0; EssentialAPI := 0; AuthCount := 0;
                                UnknownCount := 0 |};
  ps_publisher := Some {| Configured := true; PublisherStatus := "ok"; QueueDepth := 0; QueueCapacity := 1;
                          SpooledTotal := 0; EnqueueTimeoutsTotal := 0; LastAttemptAt := None;
                          LastPublishAt := None |} |}.

Definition all_ones (keys : list string) : gmap string string := list_to_map ((fun k => (k, "1")) <$> keys).

#[local] Instance two_documents : OpsJSON := {|
  parse_proxy data := if String.eqb data "a" then Some (sample_snapshot Hour 5)
                      else if String.eqb data "b" then Some (sample_snapshot (Hour + 10 * Second) 25) else None;
  parse_fields data :=
    if String.eqb data "a" || String.eqb data "b"
    then Some (list_to_map [("counters", "c"); ("classifications", "k"); ("publisher", "p")])
    else if String.eqb data "c" then Some (all_ones counter_fields)
    else if String.eqb data "k" then Some (all_ones classification_fields)
    else if String.eqb data "p" then Some (all_ones publisher_fields) else None;
  parse_stats _ := None;
|}.

#[local] Instance two_documents_laws : OpsJSONLaws.
Proof.
  split. intros data s c. simpl. destruct (String.eqb data "a"); [|destruct (String.eqb data "b"); [|done]];
    intros [= <-] [= <-]; unfold uint64; simpl; lia.
Qed.

Notation proxy_step := (reader_step validate_proxy).
Definition proxy_start : system (X := proxyReader) := reader_init "http://proxy" (5 * Second) newProxyReader Hour.
Definition got {X} (c : nat) (s : system (X := X)) : option string :=
  match readers s !! c with Some (Got data) => data | _ => None end.

(** A call, its refresh with the answer [body], and its return. *)
Definition fetched (c : nat) (body : string) (s : system (X := proxyReader)) : system (X := proxyReader) :=
  let s := reader_refresh validate_proxy (Response 200 body None) (read_enter c (set_reader c Entering s)) in
  set_reader c (Got (cached (reader s))) s.

Definition proxy_first : system (X := proxyReader) := fetched 0 "a" proxy_start.
Definition proxy_later : system (X := proxyReader) :=
  reader_refresh validate_proxy (Response 200 "b" None)
    (read_enter 1 (set_reader 1 Entering (tick (10 * Second) proxy_first))).

Lemma proxy_first_steps : steps proxy_step proxy_start proxy_first.
Proof.
  eapply steps_next; [eapply steps_next; [eapply steps_next; [apply steps_one|]|]|].
  - by apply (us_call _ _ 0).
  - by apply (us_enter _ _ 0).
  - apply (us_refresh _ _ (Response 200 "a" None)). vm_compute. lia.
  - apply (us_done _ _ 0 1); vm_compute; reflexivity.
Qed.

Lemma proxy_later_steps : steps proxy_step proxy_first proxy_later.
Proof.
  eapply steps_next; [eapply steps_next; [eapply steps_next; [apply steps_one|]|]|].
  - by apply (us_tick _ _ (10 * Second)).
  - apply (us_call _ _ 1). vm_compute. reflexivity.
  - apply (us_enter _ _ 1). vm_compute. reflexivity.
  - apply (us_refresh _ _ (Response 200 "b" None)). vm_compute. lia.
Qed.

Lemma proxy_rates_witness :
  exists r prev cur, pl_rates (proxy_live "http://proxy" (Hour + 11 * Second) (Some "b") (owner proxy_later)) = Some r /\
    r = rates_between (sample_counters 5) (sample_counters 25) (f64_of_Z 10) /\
    was_valid prev /\ was_valid cur /\ sampled prev cur r.
Proof.
  set (r := rates_between (sample_counters 5) (sample_counters 25) (f64_of_Z 10)).
  assert (Hr : pl_rates (proxy_live "http://proxy" (Hour + 11 * Second) (Some "b") (owner proxy_later)) = Some r)
    by (vm_compute; reflexivity).
  destruct (proxy_rates "http://proxy" (5 * Second) Hour proxy_later (Hour + 11 * Second) (Some "b") r)
    as (prev & cur & H1 & H2 & H3 & _).
  - eapply steps_trans; [exact proxy_first_steps|exact proxy_later_steps].
  - exact Hr.
  - exists r, prev, cur. split; [exact Hr|]. split; [reflexivity|]. split; [exact H1|]. split; [exact H2|exact H3].
Defined.

Lemma shared_reader_witness : got 0 proxy_first = Some "a" /\ (inflight proxy_first <= 1)%nat.
Proof.
  split; [vm_compute; reflexivity|].
  apply (shared_reader validate_proxy "http://proxy" (5 * Second) newProxyReader Hour proxy_first); [done|].
  exact proxy_first_steps.
Defined.
