(* ===== verification/Operations.v ===== *)
(** * Operations measurements (internal/operations)

    The pipeline and source reports over the ETL health snapshot; the pipeline
    report carries the statistics report of [Upstream]. *)

From S2P Require Import Prelude GoErrors GoStrings GoTime GoFloats Upstream EtlHealth.

(** ** The pipeline report (operations.go) *)

Record Stage := {
  st_id : string;
  st_label : string;
  st_owner : string;
  st_status : string;
  st_pending : option Z;
  st_running : option Z;
  st_completed : option Z;
  st_failed : option Z;
}.

Record Worker := { wk_type : string; wk_last_seen_at : time }.

Record Embedding := {
  e_dependency : string;
  e_pending : option Z;
  e_leased : option Z;
  e_completed : option Z;
  e_failed : option Z;
  e_retry_count : option Z;
  e_oldest_job_at : option time;
  e_query_backend : SemanticHealth;
  e_worker_backend : SemanticHealth;
}.

Record Pipeline := {
  p_scope : string;
  p_measured_at : option time;
  p_status : string;
  p_stages : list Stage;
  p_workers : list Worker;
  p_embedding : Embedding;
  p_history : History;
}.

Definition safeSemantic (input : SemanticHealth) : SemanticHealth := {|
  PreflightState :=
    if LeaseQueue.one_of (PreflightState input) ["disabled"; "pending"; "compatible"; "incompatible"; "unavailable"]
    then PreflightState input else "unknown";
  CircuitState :=
    if LeaseQueue.one_of (CircuitState input) ["closed"; "open"; "half_open"] then CircuitState input else "unknown";
  BackendAvailable := BackendAvailable input;
  LastCheckAt := LastCheckAt input; LastSuccessAt := LastSuccessAt input; RetryAt := RetryAt input;
|}.

(** Service.snapshot: [monitor] is [None] for a nil monitor. *)
Definition usable_snapshot (now : time) (monitor : option (ETLHealth + error)) : option ETLHealth :=
  match monitor with
  | Some (inl h) => if negb (IsZero (MeasuredAt h)) && negb (now + Second <? MeasuredAt h) then Some h else None
  | _ => None
  end.

Definition knownDependency (value : string) : string :=
  if LeaseQueue.one_of value ["blocked"; "waiting_for_worker"; "backlog"; "waiting_for_source"; "healthy"]
  then value else "unknown".

Definition new_stage (id label owner : string) : Stage := {|
  st_id := id; st_label := label; st_owner := owner; st_status := "unknown";
  st_pending := None; st_running := None; st_completed := None; st_failed := None;
|}.

Definition set_status (s : Stage) (status : string) : Stage := {|
  st_id := st_id s; st_label := st_label s; st_owner := st_owner s; st_status := status;
  st_pending := st_pending s; st_running := st_running s; st_completed := st_completed s; st_failed := st_failed s;
|}.

Definition setStage (s : Stage) (pending running : Z) (completed : option Z) (failed : Z) : Stage := {|
  st_id := st_id s; st_label := st_label s; st_owner := st_owner s;
  st_status := if 0 <? failed then "failed"
               else if (0 <? pending) || (0 <? running) then "active" else "idle";
  st_pending := Some pending; st_running := Some running; st_completed := completed; st_failed := Some failed;
|}.

Definition clear_running (s : Stage) : Stage := {|
  st_id := st_id s; st_label := st_label s; st_owner := st_owner s; st_status := st_status s;
  st_pending := st_pending s; st_running := None; st_completed := st_completed s; st_failed := st_failed s;
|}.

Definition public_worker (w : WorkerHeartbeat) : Worker := {|
  wk_type := if LeaseQueue.one_of (WorkerType w) ["pool"; "embedding"; "projection"] then WorkerType w else "other";
  wk_last_seen_at := LastSeenAt w;
|}.

Definition ingestion_stage : Stage := new_stage "sync-scan-ingestion" "Ingestion" "octopus".
Definition planning_stage : Stage := new_stage "sync-job-planner" "Planning" "octopus".
Definition projection_stage : Stage := new_stage "sync-load-consumer" "Projection batches" "octopus".
Definition backlog_stage : Stage := new_stage "sync-backlog-recovery" "Coordinator backlog" "octopus".
Definition embedding_stage : Stage := new_stage "embedding-completer" "Embedding execution" "atheros-search".
Definition recovery_stage : Stage := new_stage "embedding-lease-recovery" "Embedding lease recovery" "atheros-search".

Definition measured_stages (h : ETLHealth) : list Stage :=
  [setStage ingestion_stage (IngestPending h) (IngestProcessing h) None (IngestFailed h);
   setStage planning_stage (JobStoredPending h) (JobStoredRunning h) (Some (JobStoredCompleted h)) (JobStoredFailed h);
   setStage projection_stage (BatchPending h) (BatchProcessing h) (Some (BatchCompleted h)) (BatchFailed h);
   clear_running (setStage backlog_stage (BacklogPending h) 0 None (BacklogFailed h));
   set_status (setStage embedding_stage (EmbeddingPending h) (EmbeddingLeased h) (Some (EmbeddingCompleted h))
                 (EmbeddingFailed h)) (knownDependency (EmbeddingDependency h));
   recovery_stage].

Definition no_embedding : Embedding := {|
  e_dependency := "unknown"; e_pending := None; e_leased := None; e_completed := None; e_failed := None;
  e_retry_count := None; e_oldest_job_at := None; e_query_backend := no_semantic; e_worker_backend := no_semantic;
|}.

(** Service.Pipeline, [now] being read three times: for the snapshot, the status
    and the statistics; [data] is what the shared reader has of those. *)
Definition pipeline_report `{OpsJSON} (now1 now2 now3 : time) (monitor : option (ETLHealth + error)) (data : option string)
    : Pipeline :=
  match usable_snapshot now1 monitor with
  | None => {|
      p_scope := "global"; p_measured_at := None; p_status := "unavailable";
      p_stages := [ingestion_stage; planning_stage; projection_stage; backlog_stage; embedding_stage; recovery_stage];
      p_workers := []; p_embedding := no_embedding; p_history := history now3 data |}
  | Some h =>
      let status := measurementStatus (MeasuredAt h) now2 (60 * Second) in {|
        p_scope := "global"; p_measured_at := Some (MeasuredAt h); p_status := status;
        p_stages := if String.eqb status "stale"
                    then (fun s => set_status s "stale") <$> measured_stages h else measured_stages h;
        p_workers := public_worker <$> take 128 (Workers h);
        p_embedding := {|
          e_dependency := knownDependency (EmbeddingDependency h);
          e_pending := Some (EmbeddingPending h); e_leased := Some (EmbeddingLeased h);
          e_completed := Some (EmbeddingCompleted h); e_failed := Some (EmbeddingFailed h);
          e_retry_count := Some (EmbeddingRetryCount h); e_oldest_job_at := OldestEmbeddingJobAt h;
          e_query_backend := safeSemantic (QuerySemantic h);
          e_worker_backend := safeSemantic (WorkerSemantic h) |};
        p_history := history now3 data |}
  end.

(** ** The source report *)

Record Source := {
  src_id : string;
  src_label : string;
  src_ingestion : string;
  src_projection : string;
  src_lexical : string;
  src_semantic : string;
  src_documents : option Z;
  src_documents_24h : option Z;
  src_last_observed_at : option time;
  src_vectors : option Z;
}.

Record Sources := {
  s_scope : string;
  s_measured_at : option time;
  s_status : string;
  s_sources : list Source;
}.

Definition new_source (id label : string) : Source := {|
  src_id := id; src_label := label; src_ingestion := "unknown"; src_projection := "unknown";
  src_lexical := "unknown"; src_semantic := "unknown"; src_documents := None; src_documents_24h := None;
  src_last_observed_at := None; src_vectors := None;
|}.

Definition lexical_state (c : SourceCoverage) : string :=
  if 0 <? Documents c then
    if LexicalDocuments c =? Documents c then "available"
    else if 0 <? LexicalDocuments c then "partial" else "missing"
  else "empty".

Definition semantic_state (c : SourceCoverage) : string :=
  if 0 <? Documents c then
    if Vectors c =? Documents c then "covered"
    else if 0 <? Vectors c then "partial" else "missing"
  else "empty".

Definition projection_state (now : time) (before : string) (c : SourceCoverage) : string :=
  match LastObservedAt c with
  | Some t =>
      if negb (now + Second <? t)
      then if 30 * Minute <? Sub now t then "stale" else "fresh"
      else before
  | None => before
  end.

(** One turn of the loop over the coverage of a source. *)
Definition apply_coverage (now : time) (stale : bool) (s : Source) (c : SourceCoverage) : Source :=
  if negb (String.eqb (ID c) (src_id s)) then s
  else {|
    src_id := src_id s; src_label := src_label s; src_ingestion := src_ingestion s;
    src_projection := if stale then "stale" else projection_state now (src_projection s) c;
    src_lexical := if stale then "stale" else lexical_state c;
    src_semantic := if stale then "stale" else semantic_state c;
    src_documents := Some (Documents c); src_documents_24h := Some (Documents24h c);
    src_last_observed_at := LastObservedAt c; src_vectors := Some (Vectors c) |}.

(** Service.Sources; the clock is read for the snapshot and for the rest. *)
Definition source_report (now1 now2 : time) (monitor : option (ETLHealth + error)) : Sources :=
  let initial := [new_source "proxy" "Proxy observations"; new_source "wireless" "Wireless observations"] in
  match usable_snapshot now1 monitor with
  | None => {| s_scope := "global"; s_measured_at := None; s_status := "unavailable"; s_sources := initial |}
  | Some h =>
      let status := measurementStatus (MeasuredAt h) now2 (60 * Second) in {|
        s_scope := "global"; s_measured_at := Some (MeasuredAt h); s_status := status;
        s_sources := (fun s => foldl (apply_coverage now2 (String.eqb status "stale")) s (HealthCoverage h))
                       <$> initial |}
  end.

(** ** Lemmas and theorems on the reports *)

Lemma one_of_if (x : string) (l : list string) (d : string) :
  (if LeaseQueue.one_of x l then x else d) ∈ d :: l.
Proof. destruct (LeaseQueue.one_of x l) eqn:E; [right; by apply LeaseQueue.one_of_elem|left]. Qed.

Lemma setStage_status s p r c f : st_status (setStage s p r c f) ∈ ["failed"; "active"; "idle"].
Proof. simpl. repeat case_match; set_solver. Qed.

(** The statuses a stage may have. *)
Definition stage_statuses : list string :=
  ["unknown"; "idle"; "active"; "failed"; "stale"; "blocked"; "waiting_for_worker"; "backlog";
   "waiting_for_source"; "healthy"].

Lemma dependency_elem v :
  knownDependency v ∈ ["unknown"; "blocked"; "waiting_for_worker"; "backlog"; "waiting_for_source"; "healthy"].
Proof. apply one_of_if. Qed.

Lemma measured_stage_statuses h s : s ∈ measured_stages h -> st_status s ∈ stage_statuses.
Proof.
  assert (Hset : forall s p r c f, st_status (setStage s p r c f) ∈ stage_statuses).
  { intros s0 p r c f. pose proof (setStage_status s0 p r c f) as Hin. unfold stage_statuses. set_solver. }
  unfold measured_stages. rewrite !elem_of_cons, elem_of_nil.
  intros [->|[->|[->|[->|[->|[->|[]]]]]]]; try apply Hset.
  - pose proof (dependency_elem (EmbeddingDependency h)) as Hd. unfold stage_statuses. set_solver.
  - unfold stage_statuses. set_solver.
Qed.

Definition public_semantic (s : SemanticHealth) : Prop :=
  PreflightState s ∈ [""; "unknown"; "disabled"; "pending"; "compatible"; "incompatible"; "unavailable"] /\
  CircuitState s ∈ [""; "unknown"; "closed"; "open"; "half_open"].

Lemma safeSemantic_public s : public_semantic (safeSemantic s).
Proof. split; right; apply one_of_if. Qed.

Lemma no_semantic_public : public_semantic no_semantic.
Proof. split; left. Qed.

(** C25. The pipeline report is allowlisted.  Whatever the monitor answers, with
    whatever worker identities, types, metadata and dependency strings the
    database held, and whatever statistics the upstream sent, the report has the
    six catalogued stages in order, and every other string in it comes from a
    fixed vocabulary: the statuses, the worker categories and the bucket names of
    the history; at most 128 workers are shown, each by category and heartbeat
    alone, and a history series has at most 1000 points. *)
Theorem pipeline_allowlisted `{OpsJSON} now1 now2 now3 monitor data :
  let p := pipeline_report now1 now2 now3 monitor data in
  p_scope p = "global" /\ p_status p ∈ ["unavailable"; "stale"; "current"] /\
  st_id <$> p_stages p = ["sync-scan-ingestion"; "sync-job-planner"; "sync-load-consumer";
                          "sync-backlog-recovery"; "embedding-completer"; "embedding-lease-recovery"] /\
  st_label <$> p_stages p = ["Ingestion"; "Planning"; "Projection batches"; "Coordinator backlog";
                             "Embedding execution"; "Embedding lease recovery"] /\
  st_owner <$> p_stages p = (repeat "octopus" 4 ++ repeat "atheros-search" 2) /\
  Forall (fun s => st_status s ∈ stage_statuses /\ (p_status p = "stale" -> st_status s = "stale")) (p_stages p) /\
  (length (p_workers p) <= 128)%nat /\
  Forall (fun w => wk_type w ∈ ["other"; "pool"; "embedding"; "projection"]) (p_workers p) /\
  e_dependency (p_embedding p) ∈ ["unknown"; "blocked"; "waiting_for_worker"; "backlog"; "waiting_for_source"; "healthy"] /\
  public_semantic (e_query_backend (p_embedding p)) /\ public_semantic (e_worker_backend (p_embedding p)) /\
  public_history (p_history p).
Proof.
  intros p. subst p. unfold pipeline_report. destruct (usable_snapshot now1 monitor) as [h|].
  - cbn [p_scope p_status p_stages p_workers p_embedding p_history e_dependency e_query_backend e_worker_backend].
    split; [done|]. split; [apply measurementStatus_elem|]. do 3 (split; [by destruct (String.eqb _ _)|]). split.
    { apply Forall_forall. intros s Hs. destruct (String.eqb_spec (measurementStatus (MeasuredAt h) now2 (60 * Second)) "stale")
        as [E|E].
      - apply list_elem_of_fmap in Hs as (s0 & -> & _). simpl. split; [|done]. unfold stage_statuses. set_solver.
      - split; [by eapply measured_stage_statuses|done]. }
    split; [rewrite length_fmap, length_take; lia|]. split.
    { apply Forall_forall. intros w (w0 & -> & _)%list_elem_of_fmap. apply one_of_if. }
    split; [apply dependency_elem|]. split; [apply safeSemantic_public|]. split; [apply safeSemantic_public|apply history_public].
  - cbn -[history]. split; [done|]. split; [set_solver|]. do 3 (split; [done|]). split.
    { repeat constructor; simpl; try (unfold stage_statuses; set_solver); done. }
    split; [lia|]. split; [constructor|]. split; [set_solver|]. split; [apply no_semantic_public|].
    split; [apply no_semantic_public|apply history_public].
Qed.

(** The stages of a current measurement: a stage over a queue has failed jobs, or
    work, or neither. *)
Lemma stage_status_spec s p r c f :
  0 <= p -> 0 <= r -> 0 <= f ->
  (st_status (setStage s p r c f) = "failed" <-> 0 < f) /\
  (st_status (setStage s p r c f) = "idle" <-> p = 0 /\ r = 0 /\ f = 0).
Proof.
  intros Hp Hr Hf. simpl. destruct (Z.ltb_spec 0 f), (Z.ltb_spec 0 p), (Z.ltb_spec 0 r); simpl; split; split;
    intros; try lia; done.
Qed.

(** The entry of a source in a report over the coverage of both. *)
Lemma source_entry `{VectorOps} now stale model revision t cnow id label :
  (id = "proxy" \/ id = "wireless") ->
  foldl (apply_coverage now stale) (new_source id label) (map (coverage_of model revision t cnow) ["proxy"; "wireless"])
  = apply_coverage now stale (new_source id label) (coverage_of model revision t cnow id).
Proof. by intros [-> | ->]. Qed.

(** The semantic state, in terms of the counts. *)
Lemma semantic_cases c :
  0 <= Vectors c <= Documents c ->
  (semantic_state c = "empty" <-> ~ 0 < Documents c) /\
  (semantic_state c = "covered" <-> 0 < Documents c /\ ~ Vectors c < Documents c) /\
  (semantic_state c = "partial" <-> 0 < Vectors c /\ Vectors c < Documents c) /\
  (semantic_state c = "missing" <-> 0 < Documents c /\ ~ 0 < Vectors c).
Proof.
  intros Hr. unfold semantic_state.
  destruct (Z.ltb_spec 0 (Documents c)); [|split_and!; split; intros; first [lia|done]].
  destruct (Z.eqb_spec (Vectors c) (Documents c)); [split_and!; split; intros; first [lia|done]|].
  destruct (Z.ltb_spec 0 (Vectors c)); split_and!; split; intros; first [lia|done].
Qed.

(** The source report tells what the database covers.  Over a snapshot read
    from the database, under any live view, and with a current measurement, a
    source is "unknown" when its coverage was not measured; measured, its
    semantic state is "empty" exactly when it has no document to count, "covered"
    when it has some and all have a current vector of the model and revision,
    "partial" when some do and some do not, and "missing" when none does. *)
Theorem source_semantics `{VectorOps} w measured now model revision h t live now1 now2 s :
  snapshotFromDB w measured now model revision = inl h ->
  let r := source_report now1 now2 (Some (inl (mergeLive t live h))) in
  s_status r = "current" -> s ∈ s_sources r ->
  let tab := st_tables (w 8%nat) in
  let current id d := current_vector (queue tab) model revision id d in
  let some P := exists id d, counted tab (src_id s) id d /\ P id d in
  (HealthCoverage h = [] -> src_semantic s = "unknown") /\
  (HealthCoverage h <> [] ->
   (src_semantic s = "empty" <-> ~ some (fun _ _ => True)) /\
   (src_semantic s = "covered" <-> some (fun _ _ => True) /\ ~ some (fun id d => ~ current id d)) /\
   (src_semantic s = "partial" <-> some current /\ some (fun id d => ~ current id d)) /\
   (src_semantic s = "missing" <-> some (fun _ _ => True) /\ ~ some current)).
Proof.
  intros Hs r Hst Hin tab current some. subst r. unfold source_report in *.
  destruct (usable_snapshot now1 _) as [h0|] eqn:Eu; [|discriminate Hst].
  assert (Ec : HealthCoverage h0 = HealthCoverage h).
  { unfold usable_snapshot in Eu. destruct (negb _ && negb _); [|done]. by injection Eu as <-. }
  cbn [s_status s_sources] in Hst, Hin. rewrite Hst, Ec in Hin. apply list_elem_of_fmap in Hin as (s0 & Es & Hs0).
  split.
  { intros E. rewrite E in Es. rewrite Es. by apply elem_of_cons in Hs0 as [->|Hs0%list_elem_of_singleton]; [|subst s0]. }
  intros Hne. destruct (snapshot_coverage _ _ _ _ _ _ Hs) as [E|E]; [done|]. rewrite E in Es.
  assert (Hid : exists id label, (id = "proxy" \/ id = "wireless") /\ s0 = new_source id label).
  { apply elem_of_cons in Hs0 as [->|Hs0%list_elem_of_singleton]; [by eauto|]. subst s0. eauto. }
  destruct Hid as (id & label & Hid & ->). rewrite source_entry in Es by done.
  change (st_tables (w 8%nat)) with tab in Es. set (c := coverage_of model revision tab (st_now (w 8%nat)) id) in Es.
  assert (Eid : src_id s = id) by (rewrite Es; unfold apply_coverage; by destruct (negb _)).
  assert (Esem : src_semantic s = semantic_state c).
  { rewrite Es. unfold apply_coverage. change (ID c) with id. change (src_id (new_source id label)) with id.
    by rewrite String.eqb_refl. }
  pose proof (documents_some model revision tab (st_now (w 8%nat)) id) as Hd.
  pose proof (vectors_some model revision tab (st_now (w 8%nat)) id) as Hv.
  pose proof (vectors_fewer model revision tab (st_now (w 8%nat)) id) as Hf.
  pose proof (vectors_range model revision tab (st_now (w 8%nat)) id) as Hr.
  fold c in Hd, Hv, Hf, Hr. subst id. unfold some, current. cbv beta.
  assert (Hd' : 0 < Documents c <-> exists id d, counted tab (src_id s) id d /\ True).
  { rewrite Hd. split; intros (i & d & ?); exists i, d; tauto. }
  rewrite Esem, <- Hd', <- Hf, <- Hv. apply semantic_cases. lia.
Qed.

(** ** Witnesses *)

#[local] Existing Instance float_dot.

Definition sample_report : Sources :=
  source_report (Hour + Minute) (Hour + Minute) (Some (inl (mergeLive (Hour + Minute) None sample_snapshot))).

Definition sample_source : Source := match s_sources sample_report with s :: _ => s | [] => new_source "" "" end.

Lemma source_semantics_witness :
  src_semantic sample_source = "covered" /\
  exists id d, counted sample_tables (src_id sample_source) id d.
Proof.
  assert (Hin : sample_source ∈ s_sources sample_report) by (vm_compute; left).
  assert (Hst : s_status sample_report = "current") by (vm_compute; reflexivity).
  assert (Hcov : HealthCoverage sample_snapshot <> []) by (vm_compute; discriminate).
  assert (Hsem : src_semantic sample_source = "covered") by (vm_compute; reflexivity).
  split; [exact Hsem|].
  destruct (source_semantics sample_world (Hour + Minute) (Hour + Minute) "m" "legacy_unknown" sample_snapshot
    (Hour + Minute) None (Hour + Minute) (Hour + Minute) sample_source sample_snapshot_read Hst Hin) as [_ H].
  destruct (H Hcov) as (_ & Hc & _). destruct (proj1 Hc Hsem) as [(id & d & Hd & _) _]. exists id, d. exact Hd.
Defined.
