(* ===== verification/App.v ===== *)
(** * The process (internal/app/app.go)

    What [Run] builds from a configuration, in which order it starts and stops
    the parts, the live semantic status it publishes from the gate and the
    breakers, and the container health check. *)

From S2P Require Import Prelude GoErrors GoStrings GoStrconv GoTime GoFloats Circuit Scheduler Preflight EmbedClient.
From S2P Require Import WorkerPool EtlHealth Auth Config.

(** ** The lane clients (embed/circuit.go) *)

Record LaneClient := { ClientLane : Lane; LaneCircuit : option Circuit }.

Definition NewLaneClient (lane : Lane) : LaneClient :=
  {| ClientLane := lane; LaneCircuit := Some NewCircuit |}.

Definition no_snapshot : CircuitSnapshot := {|
  Snap_State := CircuitClosed; Snap_Failures := 0; Snap_RetryAt := time_zero; Snap_LastCheckAt := time_zero;
  Snap_LastSuccessAt := time_zero; Snap_LastFailureAt := time_zero |}.

Definition LaneClient_State (now : time) (c : LaneClient) : LaneClient * Circuit.CircuitState :=
  match LaneCircuit c with
  | None => (c, CircuitClosed)
  | Some circuit =>
      let '(circuit, s) := Circuit.State now circuit in ({| ClientLane := ClientLane c; LaneCircuit := Some circuit |}, s)
  end.

Definition LaneClient_Snapshot (now : time) (c : LaneClient) : LaneClient * CircuitSnapshot :=
  match LaneCircuit c with
  | None => (c, no_snapshot)
  | Some circuit =>
      let '(circuit, s) := Snapshot now circuit in ({| ClientLane := ClientLane c; LaneCircuit := Some circuit |}, s)
  end.

(** The lanes after the client that [Lane lane] answers with has changed. *)
Definition set_lane (lane : Lane) (client : LaneClient) (l : LanedClient LaneClient) : LanedClient LaneClient :=
  match lane, Worker l with
  | LaneWorker, Some _ => {| Interactive := Interactive l; Worker := Some client |}
  | _, _ => {| Interactive := Some client; Worker := Worker l |}
  end.

(** ** The semantic status *)

Definition preflight_text (s : Preflight.PreflightState) : string :=
  match s with
  | PreflightPending => "pending"
  | PreflightCompatible => "compatible"
  | PreflightIncompatible => "incompatible"
  | PreflightDisabled => "disabled"
  end.

Definition circuit_text (s : Circuit.CircuitState) : string :=
  match s with CircuitClosed => "closed" | CircuitOpen => "open" | CircuitHalfOpen => "half_open" end.

Definition timeOrNil (value : time) : option time := if IsZero value then None else Some value.

(** [if x := timeOrNil(value); x != nil { field = x }] *)
Definition or_keep (value : time) (field : option time) : option time :=
  match timeOrNil value with Some t => Some t | None => field end.

Definition forLane (now : time) (preflight : option Preflight) (lanes : option (LanedClient LaneClient)) (lane : Lane)
    : SemanticHealth * option (LanedClient LaneClient) :=
  let state := match preflight with Some p => PSnap_State (PreflightSnapshotOf p) | None => PreflightDisabled end in
  let ready := match preflight with Some p => bool_decide (PSnap_State (PreflightSnapshotOf p) = PreflightCompatible)
               | None => false end in
  let check := match preflight with Some p => timeOrNil (PSnap_LastCheckAt (PreflightSnapshotOf p)) | None => None end in
  let success := match preflight with Some p => timeOrNil (PSnap_LastSuccessAt (PreflightSnapshotOf p)) | None => None end in
  match LanedClient_Lane lanes lane with
  | None =>
      ({| PreflightState := preflight_text state; CircuitState := circuit_text CircuitClosed;
          BackendAvailable := ready && negb (String.eqb (circuit_text CircuitClosed) (circuit_text CircuitOpen));
          LastCheckAt := check; LastSuccessAt := success; RetryAt := None |}, lanes)
  | Some laneClient =>
      let '(laneClient, circuit) := LaneClient_Snapshot now laneClient in
      ({| PreflightState := preflight_text state; CircuitState := circuit_text (Snap_State circuit);
          BackendAvailable := ready && negb (String.eqb (circuit_text (Snap_State circuit)) (circuit_text CircuitOpen));
          LastCheckAt := or_keep (Snap_LastCheckAt circuit) check;
          LastSuccessAt := or_keep (Snap_LastSuccessAt circuit) success;
          RetryAt := timeOrNil (Snap_RetryAt circuit) |},
       set_lane lane laneClient <$> lanes)
  end.

(** ** The gauges *)

Record lane_gauges := {
  GaugeLane : Lane;
  GaugeCircuit : string;
  GaugeInUse : Z;
  GaugeCapacity : Z;
  GaugeAvailable : bool;
}.

Definition Lanes : list Lane := [LaneInteractive; LaneWorker].

(** One turn of the loop over the lanes, at the time its State reads. *)
Definition publish_lane (now : time) (scheduler : Scheduler) (ready : bool) (lanes : LanedClient LaneClient) (lane : Lane)
    : lane_gauges * LanedClient LaneClient :=
  let '(lanes, state) :=
    match LanedClient_Lane (Some lanes) lane with
    | None => (lanes, CircuitClosed)
    | Some client => let '(client, s) := LaneClient_State now client in (set_lane lane client lanes, s)
    end in
  ({| GaugeLane := lane; GaugeCircuit := circuit_text state; GaugeInUse := InUse scheduler lane;
      GaugeCapacity := if decide (lane = LaneWorker) then workerMax scheduler else total scheduler;
      GaugeAvailable := ready && negb (bool_decide (state = CircuitOpen)) |}, lanes).

Fixpoint publish_lanes (now : time) (scheduler : Scheduler) (ready : bool) (lanes : LanedClient LaneClient) (l : list Lane)
    : list lane_gauges :=
  match l with
  | [] => []
  | lane :: l =>
      let '(g, lanes) := publish_lane now scheduler ready lanes lane in g :: publish_lanes now scheduler ready lanes l
  end.

(** publish in publishEmbeddingGauges: the state of the gate and the series of the lanes. *)
Definition publish (now : time) (preflight : option Preflight) (scheduler : option Scheduler)
    (lanes : option (LanedClient LaneClient)) : option string * list lane_gauges :=
  ((fun p => preflight_text (PSnap_State (PreflightSnapshotOf p))) <$> preflight,
   match scheduler, lanes with
   | Some scheduler, Some lanes =>
       publish_lanes now scheduler (match preflight with Some p => Ready p | None => false end) lanes Lanes
   | _, _ => []
   end).

(** Seconds() of a Duration. *)
Definition Seconds (d : duration) : float64 :=
  f64_add (f64_of_Z (Z.quot d Second)) (f64_div (f64_of_Z (Z.rem d Second)) (f64_of_Z Second)).

Definition oldestJobAge (now : time) (oldest : option time) : float64 :=
  match oldest with
  | None => f_zero
  | Some t => let age := Seconds (Sub now t) in if f_ltb age f_zero then f_zero else age
  end.

(** float64(newest.Unix()) *)
Definition newestObservationUnix (newest : option time) : float64 :=
  match newest with None => f_zero | Some t => f64_of_Z (t / Second - 62135596800) end.

(** ** The health check *)

(** strconv.Atoi *)
Definition Atoi (s : string) : Z + error :=
  match ParseInt64 s with
  | Some n => inl n
  | None =>
      let digits := match bytes s with
                    | c :: l => if Ascii.eqb c "+" || Ascii.eqb c "-" then l else c :: l
                    | [] => []
                    end in
      inr (Opaque ("strconv.Atoi: parsing " +:+ Quote s +:+ ": "
                   +:+ if forallb is_digit digits && negb (length digits =? 0)%nat
                       then "value out of range" else "invalid syntax"))
  end.

Definition healthcheck_port (getenv : environment) : Z + error :=
  let raw := getenv "ATHSEARCH_HTTP_PORT" in
  (let! port := if is_empty raw then inl 8080
                else match Atoi raw with
                     | inl parsed => inl parsed
                     | inr err => inr (Wrapf ("invalid ATHSEARCH_HTTP_PORT: " +:+ Error err) err)
                     end in
   if (port <? 1) || (65535 <? port)
   then inr (Opaque "invalid ATHSEARCH_HTTP_PORT: must be between 1 and 65535")
   else inl port)%go.

(** runHealthcheck; [get] answers a request to /readyz on a port of the
    loopback with a status code and its text. *)
Definition runHealthcheck (getenv : environment) (get : Z -> (Z * string) + error) : option error :=
  match healthcheck_port getenv with
  | inr err => Some err
  | inl port =>
      match get port with
      | inr err => Some (Wrapf ("readyz request failed: " +:+ Error err) err)
      | inl (StatusCode, Status) =>
          if (StatusCode <? 200) || (300 <=? StatusCode) then Some (Opaque ("readyz returned " +:+ Status)) else None
      end
  end.

(** ** What is built from a configuration *)

Definition new_auth (cfg : Config) : TokenAuth + error :=
  if negb (is_empty (JWTIssuer cfg))
  then (let! a := NewJWTTokenAuth {| Issuer := JWTIssuer cfg; JWKSURI := JWTJWKSURI cfg; Audience := JWTAudience cfg;
                                     ClientID := JWTClientID cfg |} in
        inl (fst a))%go
  else NewTokenAuth (APIKeySHA256 cfg).

Definition http_embedder (cfg : Config) : HTTPClient :=
  let c := NewHTTPClient (EmbeddingBackend cfg) (EmbeddingModel cfg) (EmbeddingDimensions cfg) in
  {| PrefixOwner := EmbeddingPrefixOwner cfg; BaseURL := BaseURL c; Model := Model c; Dimensions := Dimensions c;
     PackTokenLimit := PackTokenLimit c; TokenizerConcurrency := EmbeddingTokenizerConcurrency cfg;
     MaxChunksPerInput := EmbeddingMaxChunksPerInput cfg |}.

(** The embedder ([None] is the zero-vector client), the admission point, the
    lanes and the gate. *)
Record embedding := {
  embedder : option HTTPClient;
  scheduler : option Scheduler;
  lanes : option (LanedClient LaneClient);
  preflight : Preflight;
}.

Definition build_embedding (cfg : Config) : embedding :=
  if is_empty (EmbeddingBackend cfg)
  then {| embedder := None; scheduler := None; lanes := None; preflight := NewPreflight false |}
  else {| embedder := Some (http_embedder cfg);
          scheduler := Some (NewScheduler (EmbeddingRequestConcurrency cfg) (EmbeddingQueryReservedSlots cfg));
          lanes := Some (NewLanedClient NewLaneClient); preflight := NewPreflight true |}.

Definition cache_namespace (cfg : Config) : string := EmbeddingModel cfg +:+ ":" +:+ EmbeddingInputRevision cfg.

Definition worker_pool (cfg : Config) : PoolConfig := {|
  CfgSourceKinds := WorkerSourceKinds cfg; CfgEmbeddingModel := EmbeddingModel cfg;
  CfgInputRevision := EmbeddingInputRevision cfg; WorkerPool.WorkerCount := Config.WorkerCount cfg;
  WorkerPool.LeaseSeconds := Config.LeaseSeconds cfg; PollInterval := WorkerPollInterval cfg;
  BatchSize := EmbeddingBatchSize cfg |}.

(** workerEmbedderAdapter.Embed tags the context of every call. *)
Definition worker_lane : option Lane := WithLane LaneWorker.

(** ** Starting and stopping *)

Inductive resource := Signals | Tracing | Database | Workers | MetricsServer | GRPCServer | HTTPServer.

#[export] Instance resource_eq_dec : EqDecision resource.
Proof. solve_decision. Defined.

Inductive background := PreflightLoop | HealthWarm | Gauges.

(** What a run does, in order.  [Stopped HTTPServer] is a Shutdown after which no
    connection is left, [Abandoned HTTPServer] one that leaves some open;
    whatever Shutdown leaves of the metrics server is closed by the deferred
    Close. *)
Inductive action :=
| Started (r : resource)
| Launched (b : background)
| SchemaWaited
| ShutdownRequested
| GRPCDrained
| Abandoned (r : resource)
| Stopped (r : resource).

(** Go functions with deferred calls: the actions so far, and the calls still
    deferred, the last one first. *)
Record frame := { done_actions : list action; deferred : list (list action) }.

Definition proc (A : Type) : Type := frame -> (A + error) * frame.

Definition ret {A} (x : A) : proc A := fun f => (inl x, f).
Definition emit (acts : list action) : proc unit :=
  fun f => (inl (), {| done_actions := done_actions f ++ acts; deferred := deferred f |}).
Definition defer (acts : list action) : proc unit :=
  fun f => (inl (), {| done_actions := done_actions f; deferred := acts :: deferred f |}).
(** An error that is returned under a heading. *)
Definition check (heading : string) (err : option error) : proc unit :=
  fun f => (match err with Some e => inr (Wrapf (heading +:+ ": " +:+ Error e) e) | None => inl () end, f).
Definition bind {A B} (m : proc A) (k : A -> proc B) : proc B :=
  fun f => let '(r, f) := m f in match r with inl x => k x f | inr e => (inr e, f) end.

Notation "m ;; k" := (bind m (fun _ => k)) (at level 100, right associativity) : go_scope.

(** The error a function returns, and its actions with those deferred. *)
Definition run_proc {A} (m : proc A) : option error * list action :=
  let '(r, f) := m {| done_actions := []; deferred := [] |} in
  (match r with inl _ => None | inr e => Some e end, done_actions f ++ concat (deferred f)).

(** How the steps that can fail end, and whether the servers drain within the time
    of the shutdown.  The HTTP server does not when a connection is still active
    after ten seconds (Shutdown then returns an error, which is only logged) or
    when a health socket is open: hijacked connections are neither closed nor
    waited for. *)
Record run_world := {
  trace_provider : option error;
  connect : option error;
  schema_wait : option error;
  listen_metrics : option error;
  listen_grpc : option error;
  listen_http : option error;
  http_drains : bool;
  grpc_drains : bool;
}.

Definition error_of {A} (r : A + error) : option error := match r with inl _ => None | inr e => Some e end.

(** Run after the configuration is loaded. *)
Definition serve (cfg : Config) (w : run_world) : proc unit :=
  (emit [Started Signals] ;; defer [Stopped Signals] ;;
   check "configure OTLP tracing" (trace_provider w) ;;
   emit [Started Tracing] ;; defer [Stopped Tracing] ;;
   check "connect Postgres" (connect w) ;;
   emit [Started Database] ;; defer [Stopped Database] ;;
   (if SchemaReadyRequired cfg
    then emit [SchemaWaited] ;; check "schema readiness gate failed" (schema_wait w) else ret ()) ;;
   check "configure auth" (error_of (new_auth cfg)) ;;
   (if is_empty (EmbeddingBackend cfg) then ret () else emit [Launched PreflightLoop]) ;;
   emit [Launched HealthWarm; Launched Gauges] ;;
   (if WorkerEnabled cfg then emit [Started Workers] ;; defer [Stopped Signals; Stopped Workers] else ret ()) ;;
   check "start metrics server" (listen_metrics w) ;;
   emit [Started MetricsServer] ;; defer [Stopped MetricsServer] ;;
   check "start grpc server" (listen_grpc w) ;;
   emit [Started GRPCServer] ;; defer [Stopped GRPCServer] ;;
   check "start http gateway" (listen_http w) ;;
   emit [Started HTTPServer; ShutdownRequested] ;;
   (if WorkerEnabled cfg then emit [Stopped Workers] else ret ()) ;;
   emit [if http_drains w then Stopped HTTPServer else Abandoned HTTPServer; Stopped MetricsServer] ;;
   emit [if grpc_drains w then GRPCDrained else Stopped GRPCServer])%go.

Definition Run `{std : ConfigStd} (shuffle : list (string * string) -> list (string * string)) (args : list string)
    (getenv : environment) (readFile : string -> string + error) (get : Z -> (Z * string) + error) (w : run_world)
    : option error * list action :=
  if bool_decide (args !! 1%nat = Some "healthcheck") then (runHealthcheck getenv get, [])
  else
    match Load shuffle getenv readFile with
    | inr err => (Some (Wrapf ("load config: " +:+ Error err) err), [])
    | inl cfg => run_proc (serve cfg w)
    end.

(** ** Starting and stopping: the order *)

(** The resources that a part uses while it runs. *)
Definition needs (r : resource) : list resource :=
  match r with
  | Workers | GRPCServer | HTTPServer => [Database]
  | _ => []
  end.

(** The open resources after a run that respects the order: nothing starts
    before what it needs or twice, and nothing is stopped under a part that
    still uses it.  Stopping what is not open does nothing, and what is abandoned
    stays open. *)
Fixpoint settle (open : list resource) (acts : list action) : option (list resource) :=
  match acts with
  | [] => Some open
  | Started r :: acts =>
      if bool_decide (r ∉ open) && bool_decide (Forall (fun x => x ∈ open) (needs r)) then settle (r :: open) acts else None
  | Stopped r :: acts =>
      if bool_decide (Forall (fun x => r ∉ needs x) open)
      then settle (List.filter (fun x => negb (bool_decide (x = r))) open) acts else None
  | Launched _ :: acts => if bool_decide (Database ∈ open) then settle open acts else None
  | _ :: acts => settle open acts
  end.

(** The run without what it does to the HTTP server. *)
Definition besides_http (acts : list action) : list action :=
  List.filter (fun a => match a with Started HTTPServer | Stopped HTTPServer | Abandoned HTTPServer => false | _ => true end) acts.

(** The steps that can fail, in their order. *)
Definition failing_steps (cfg : Config) (w : run_world) : list (string * option error) :=
  [("configure OTLP tracing", trace_provider w); ("connect Postgres", connect w);
   ("schema readiness gate failed", if SchemaReadyRequired cfg then schema_wait w else None);
   ("configure auth", error_of (new_auth cfg)); ("start metrics server", listen_metrics w);
   ("start grpc server", listen_grpc w); ("start http gateway", listen_http w)].

Fixpoint first_failure (steps : list (string * option error)) : option error :=
  match steps with
  | [] => None
  | (heading, Some e) :: _ => Some (Wrapf (heading +:+ ": " +:+ Error e) e)
  | (_, None) :: steps => first_failure steps
  end.

Definition is_shutdown (a : action) : bool := match a with ShutdownRequested => true | _ => false end.

Lemma shutdown_elem acts : ShutdownRequested ∈ acts <-> existsb is_shutdown acts = true.
Proof.
  rewrite existsb_exists. split.
  - intros H%list_elem_of_In. by exists ShutdownRequested.
  - intros (a & Ha%list_elem_of_In & E). by destruct a.
Qed.

(** A run whose failures are known. *)
Ltac shut_down :=
  vm_compute; repeat split; congruence.

(** C21. However it ends, a run leaves nothing but the HTTP server open, and stops
    the database only after the workers, the metrics and the gRPC server.  The
    HTTP server is settled too, except when the run serves and a connection
    outlives Shutdown, by the ten seconds or as a hijacked health socket: then
    the database is closed under it.  The run returns the first of the failures,
    and serves until the shutdown exactly when there is none. *)
Theorem run_lifecycle cfg w :
  let '(err, acts) := run_proc (serve cfg w) in
  settle [] (besides_http acts) = Some [] /\
  settle [] acts = (if bool_decide (err = None) && negb (http_drains w) then None else Some []) /\
  err = first_failure (failing_steps cfg w) /\ (err = None <-> ShutdownRequested ∈ acts).
Proof.
  cut (let '(err, acts) := run_proc (serve cfg w) in
       settle [] (besides_http acts) = Some [] /\
       settle [] acts = (if match err with None => true | Some _ => false end && negb (http_drains w) then None else Some []) /\
       err = first_failure (failing_steps cfg w) /\ (err = None <-> existsb is_shutdown acts = true)).
  { destruct (run_proc _) as [err acts]. rewrite shutdown_elem. destruct err; [rewrite bool_decide_false by done|rewrite bool_decide_true by done]; done. }
  unfold failing_steps, run_proc, serve.
  destruct w as [tr co sc me gr ht hd dr];
    cbn [trace_provider connect schema_wait listen_metrics listen_grpc listen_http http_drains grpc_drains].
  destruct tr as [e1|]; [shut_down|]. destruct co as [e2|]; [shut_down|].
  (destruct (SchemaReadyRequired cfg); [destruct sc as [e3|]; [shut_down|]|]);
    (destruct (error_of (new_auth cfg)) as [e4|]; [shut_down|]);
    destruct (is_empty (EmbeddingBackend cfg)), (WorkerEnabled cfg); (destruct me as [e5|]; [shut_down|]);
    (destruct gr as [e6|]; [shut_down|]); (destruct ht as [e7|]; [shut_down|]); destruct hd, dr; shut_down.
Qed.

(** ** The semantic status: what it tells *)

Lemma LanedClient_Lane_set (l : LanedClient LaneClient) lane client :
  LanedClient_Lane (Some (set_lane lane client l)) lane = Some client.
Proof. destruct l as [[i|] [w|]], lane; reflexivity. Qed.

Lemma circuit_text_open s : String.eqb (circuit_text s) (circuit_text CircuitOpen) = bool_decide (s = CircuitOpen).
Proof. by destruct s. Qed.

Lemma Snapshot_state now c : Snap_State (snd (LaneClient_Snapshot now c)) = snd (LaneClient_State now c).
Proof. unfold LaneClient_Snapshot, LaneClient_State. by destruct (LaneCircuit c). Qed.

Lemma State_Snapshot_fst now c : fst (LaneClient_State now c) = fst (LaneClient_Snapshot now c).
Proof. unfold LaneClient_Snapshot, LaneClient_State. by destruct (LaneCircuit c). Qed.

(** An open breaker refuses, until the time it says. *)
Lemma open_refuses now t c :
  circuit_wf now c -> state (advanceLocked now c) = CircuitOpen -> now <= t < openedUntil (advanceLocked now c) ->
  now < openedUntil (advanceLocked now c) /\
  circuit_admit t (advanceLocked now c) =
    (advanceLocked now c, {| retryAt := openedUntil (advanceLocked now c); admitted := false; probe := false |}).
Proof.
  intros Hwf%advance_wf Hs Ht. split; [lia|]. destruct Hwf as [_ Ho _ _]. specialize (Ho ltac:(congruence)).
  unfold circuit_admit. set (c' := advanceLocked now c) in *.
  assert (E : advanceLocked t c' = c').
  { unfold advanceLocked. rewrite Hs. unfold IsZero, time_zero.
    destruct (negb (t <? openedUntil c')) eqn:Et; [|by rewrite andb_false_r].
    apply negb_true_iff, Z.ltb_ge in Et. lia. }
  by rewrite E, Hs.
Qed.

Lemma advance_open_later now c :
  circuit_wf now c -> state (advanceLocked now c) = CircuitOpen -> now < openedUntil (advanceLocked now c).
Proof.
  intros [_ Ho _ _]. unfold advanceLocked. destruct (bool_decide _ && _ && _) eqn:E; [done|]. intros Hs.
  specialize (Ho ltac:(congruence)). rewrite bool_decide_eq_true_2 in E by done. unfold IsZero, time_zero in E.
  destruct (Z.eqb_spec (openedUntil c) 0); [lia|]. simpl in E. apply negb_false_iff, Z.ltb_lt in E. done.
Qed.

(** The published status of a lane is the truth about its next call: it is
    unavailable exactly when the gate is not compatible or the breaker is open;
    an open breaker refuses every call until the published retry time; and a
    lane that is available admits a call unless its one probe is in flight. *)
Theorem semantic_status_truthful now p (lanes : LanedClient LaneClient) lane client circuit :
  LanedClient_Lane (Some lanes) lane = Some client -> LaneCircuit client = Some circuit -> circuit_wf now circuit ->
  let '(status, lanes') := forLane now (Some p) (Some lanes) lane in
  exists client' circuit', LanedClient_Lane lanes' lane = Some client' /\ LaneCircuit client' = Some circuit' /\
    (BackendAvailable status = true <-> Ready p = true /\ state circuit' <> CircuitOpen) /\
    (state circuit' = CircuitOpen -> exists r, RetryAt status = Some r /\ now < r /\
       forall t, now <= t < r -> circuit_admit t circuit' = (circuit', {| retryAt := r; admitted := false; probe := false |})) /\
    (BackendAvailable status = true -> admitted (snd (circuit_admit now circuit')) = true \/ probing circuit' = true).
Proof.
  intros Hl Hc Hwf. unfold forLane. rewrite Hl. unfold LaneClient_Snapshot. rewrite Hc. cbn -[circuit_text set_lane LanedClient_Lane].
  set (c' := advanceLocked now circuit).
  exists {| ClientLane := ClientLane client; LaneCircuit := Some c' |}, c'.
  rewrite circuit_text_open. split; [|split; [done|split; [|split]]].
  - apply LanedClient_Lane_set.
  - rewrite andb_true_iff, negb_true_iff, bool_decide_eq_false. unfold Ready. reflexivity.
  - intros Hs. assert (Hlt := advance_open_later now circuit Hwf Hs). fold c' in Hlt. exists (openedUntil c').
    assert (Hr : retryAtLocked c' = openedUntil c') by (unfold retryAtLocked; by rewrite bool_decide_eq_true_2).
    rewrite Hr. unfold timeOrNil, IsZero, time_zero. pose proof (advance_wf _ _ Hwf) as [_ Ho _ _].
    specialize (Ho ltac:(fold c'; congruence)). fold c' in Ho. rewrite (proj2 (Z.eqb_neq _ _)) by lia.
    split_and!; [done|done|]. intros t Ht. exact (proj2 (open_refuses now t circuit Hwf Hs Ht)).
  - rewrite andb_true_iff, negb_true_iff, bool_decide_eq_false. intros [_ Hs]. unfold circuit_admit.
    assert (E : advanceLocked now c' = c') by (unfold advanceLocked at 1; by rewrite bool_decide_eq_false_2).
    rewrite E. destruct (state c'); [by left|done|]. destruct (probing c'); [by right|by left].
Qed.

Lemma advance_twice now c : advanceLocked now (advanceLocked now c) = advanceLocked now c.
Proof.
  unfold advanceLocked at 2 3. destruct (bool_decide _ && _ && _) eqn:E; [done|]. unfold advanceLocked. by rewrite E.
Qed.

Lemma LaneClient_State_twice now c :
  LaneClient_State now (fst (LaneClient_State now c)) = LaneClient_State now c.
Proof.
  destruct c as [l [c|]]; [|done]. unfold LaneClient_State. cbn. by rewrite advance_twice.
Qed.

Lemma publish_lane_status now p scheduler l lane :
  let '(status, lanes') := forLane now (Some p) (Some l) lane in
  publish_lane now scheduler (Ready p) l lane =
  ({| GaugeLane := lane; GaugeCircuit := CircuitState status; GaugeInUse := InUse scheduler lane;
      GaugeCapacity := if decide (lane = LaneWorker) then workerMax scheduler else total scheduler;
      GaugeAvailable := BackendAvailable status |}, default l lanes').
Proof.
  unfold publish_lane, forLane. destruct (LanedClient_Lane (Some l) lane) as [c|]; [|done].
  assert (Hs := Snapshot_state now c). assert (Hf := State_Snapshot_fst now c).
  destruct (LaneClient_Snapshot now c) as [c1 snap], (LaneClient_State now c) as [c2 s]. cbn [fst snd] in Hs, Hf. subst.
  cbn -[circuit_text]. rewrite circuit_text_open. reflexivity.
Qed.

(** Reading the interactive lane does not change what the worker lane reads. *)
Lemma forLane_after_interactive now p l :
  fst (forLane now (Some p) (snd (forLane now (Some p) (Some l) LaneInteractive)) LaneWorker) =
  fst (forLane now (Some p) (Some l) LaneWorker).
Proof.
  destruct l as [[[li [ci|]]|] [[lw [cw|]]|]]; try reflexivity; unfold forLane; cbn -[circuit_text]; 
    by rewrite ?advance_twice.
Qed.

(** The two views of the breakers agree: the gauges of a lane are what the
    health report says of it at the same time, and its capacity is the part of
    the backend's slots that the lane may take. *)
Theorem gauges_agree now p scheduler l :
  snd (publish now (Some p) (Some scheduler) (Some l)) =
  map (fun lane =>
         let status := fst (forLane now (Some p) (Some l) lane) in
         {| GaugeLane := lane; GaugeCircuit := CircuitState status; GaugeInUse := InUse scheduler lane;
            GaugeCapacity := if decide (lane = LaneWorker) then workerMax scheduler else total scheduler;
            GaugeAvailable := BackendAvailable status |}) Lanes.
Proof.
  unfold publish, Lanes. cbn [snd publish_lanes map].
  assert (H1 := publish_lane_status now p scheduler l LaneInteractive).
  assert (H2 := forLane_after_interactive now p l).
  destruct (forLane now (Some p) (Some l) LaneInteractive) as [s1 l1] eqn:E1. rewrite H1. cbn [fst snd] in H2 |- *.
  assert (exists l', l1 = Some l') as [l' ->].
  { revert E1. unfold forLane. destruct (LanedClient_Lane _ _) as [c|]; [|intros [= _ <-]; by eexists].
    destruct (LaneClient_Snapshot now c) as [c' sn]. intros [= _ <-]. by eexists. }
  change (default l (Some l')) with l'. assert (H3 := publish_lane_status now p scheduler l' LaneWorker).
  destruct (forLane now (Some p) (Some l') LaneWorker) as [s2 l2]. rewrite H3. cbn [fst] in H2. by rewrite H2.
Qed.

(** ** The health check: which port it asks *)

Lemma parse_digits_space acc l n : parse_digits acc l = Some n -> forallb (fun c => negb (is_space c)) l = true.
Proof.
  revert acc. induction l as [|c l IH]; intros acc; [done|]. cbn [parse_digits forallb].
  destruct (is_digit c) eqn:E; [|done]. intros H. rewrite (IH _ H), andb_true_r.
  unfold is_digit, is_space, in_range in *. lia.
Qed.

Lemma drop_while_none {A} (p : A -> bool) l : forallb (fun x => negb (p x)) l = true -> drop_while p l = l.
Proof. destruct l as [|x l]; [done|]. simpl. destruct (p x); [done|]. done. Qed.

Lemma TrimSpace_fixed s : forallb (fun c => negb (is_space c)) (bytes s) = true -> TrimSpace s = s.
Proof.
  intros H. unfold TrimSpace, TrimFunc, strip. rewrite (drop_while_none _ (bytes s)) by done.
  rewrite drop_while_none, rev_involutive; [apply of_bytes_bytes|].
  rewrite forallb_forall in *. intros c Hc. apply H. by apply in_rev.
Qed.

Lemma ParseInt64_trimmed s n : ParseInt64 s = Some n -> TrimSpace s = s.
Proof.
  intros H. apply TrimSpace_fixed. unfold ParseInt64 in H.
  destruct (bytes s) as [|c l]; [done|]. cbn [forallb].
  assert (Hd : forall l' b, match l' with [] => None | _ =>
      match parse_digits 0 l' with
      | Some n => let n := if (b : bool) then - n else n in if (- 2 ^ 63 <=? n) && (n <? 2 ^ 63) then Some n else None
      | None => None end end = Some n -> forallb (fun c => negb (is_space c)) l' = true).
  { intros l' b. destruct l' as [|d l']; [done|]. destruct (parse_digits 0 _) eqn:E; [|done]. intros _.
    exact (parse_digits_space _ _ _ E). }
  destruct (Z.eqb_spec (code c) 45) as [E|]; [|destruct (Z.eqb_spec (code c) 43) as [E|]].
  - rewrite (Hd l true H), andb_true_r. unfold is_space, in_range. lia.
  - rewrite (Hd l false H), andb_true_r. unfold is_space, in_range. lia.
  - exact (Hd (c :: l) false H).
Qed.

(** The port that a successful health check asks is the one the server was
    told to listen on. *)
Lemma healthcheck_port_served `{std : ConfigStd} getenv dsn ca port :
  healthcheck_port getenv = inl port -> HTTPPort (read_config getenv dsn ca) = port /\ 1 <= port <= 65535.
Proof.
  unfold healthcheck_port, HTTPPort, read_config, envInt, trimmed, Atoi.
  set (raw := getenv "ATHSEARCH_HTTP_PORT"). clearbody raw.
  destruct (is_empty raw) eqn:E.
  - apply is_empty_true in E as ->. cbn. intros [= <-]. lia.
  - destruct (ParseInt64 raw) as [n|] eqn:En; [|done]. rewrite (ParseInt64_trimmed _ _ En), E, En. cbn.
    destruct (_ || _) eqn:Er; [done|]. intros [= <-]. lia.
Qed.

(** The other way fails: a setting with a space around it, or one that is not a
    number, starts a server whose health check always fails. *)
Lemma healthcheck_misses_server `{std : ConfigStd} dsn ca get :
  (forall raw, raw = " 8090" \/ raw = "none" ->
    let getenv := fun key => if String.eqb key "ATHSEARCH_HTTP_PORT" then raw else "" in
    HTTPPort (read_config getenv dsn ca) = (if String.eqb raw "none" then 8080 else 8090) /\
    runHealthcheck getenv get <> None).
Proof. intros raw [->| ->]; split; [reflexivity|done|reflexivity|done]. Qed.

(** ** An accepted configuration *)

Lemma hex_decode_length l r : hex_decode l = Some r -> length l = (2 * length r)%nat.
Proof.
  revert l r. fix IH 1. intros [|a [|b l]] r; cbn [hex_decode]; [by intros [= <-]|done|].
  destruct (hex_value a); [|done]. destruct (hex_value b); [|done]. destruct (hex_decode l) as [r'|] eqn:E; [|done].
  intros [= <-]. cbn [length]. rewrite (IH l r' E). lia.
Qed.

Lemma NewTokenAuth_digest d :
  TrimSpace (ToLower d) = d -> d <> "" -> sha256_text d -> exists digest,
    NewTokenAuth d = inl {| expectedDigest := digest; jwt := None |} /\ digest <> [].
Proof.
  intros E Hd [Hl [digest Hx]]. unfold NewTokenAuth. rewrite E, (proj2 (is_empty_false _) Hd), Hx.
  assert (Hlen := hex_decode_length _ _ Hx). rewrite len_bytes in Hl.
  destruct (Z.eqb_spec (Z.of_nat (length digest)) 32) as [E32|]; [|lia]. exists digest. split; [done|].
  intros ->. done.
Qed.

(** What the constructors make of the settings. *)
Record wired (cfg : Config) : Prop := {
  wired_auth : exists a, new_auth cfg = inl a /\ (Enabled a = true <-> JWTIssuer cfg <> "" \/ APIKeySHA256 cfg <> "") /\
    (DQEnabled cfg = true -> Enabled a = true);
  wired_worker : WorkerEnabled cfg = true ->
    EmbeddingBackend cfg <> "" /\ NewPool (worker_pool cfg) = worker_pool cfg;
  wired_scheduler : forall s, scheduler (build_embedding cfg) = Some s ->
    total s = EmbeddingRequestConcurrency cfg /\ reserved s = EmbeddingQueryReservedSlots cfg /\
    1 <= workerMax s <= total s;
  wired_client : forall c, embedder (build_embedding cfg) = Some c ->
    tokenizerConcurrency c = EmbeddingTokenizerConcurrency cfg /\ 0 <= MaxChunksPerInput c /\
    (PrefixOwner c = "legacy" \/ PrefixOwner c = "client") /\ Dimensions c = DefaultEmbeddingDimensions;
}.

Section accepted.
Context `{std : ConfigStd} (shuffle : list (string * string) -> list (string * string)).
Context (shuffle_perm : forall l, shuffle l ≡ₚ l).

(** A URL of slashes alone has no host. *)
Definition host_named : Prop :=
  forall s u, url_ParseRequestURI s = inl u -> Host u <> "" -> is_empty (TrimRight s "/") = false.

Lemma new_auth_accepted cfg getenv dsn ca :
  host_named -> cfg = read_config getenv dsn ca -> validate shuffle cfg = None ->
  exists a, new_auth cfg = inl a /\ (Enabled a = true <-> JWTIssuer cfg <> "" \/ APIKeySHA256 cfg <> "").
Proof.
  intros Hhost Ecfg Hv. apply (validate_spec shuffle shuffle_perm) in Hv as [Hv _].
  assert (Ek : TrimSpace (ToLower (APIKeySHA256 cfg)) = APIKeySHA256 cfg).
  { rewrite Ecfg. cbn [APIKeySHA256 read_config]. unfold trimmed. by rewrite ToLower_idem, ToLower_TrimSpace, TrimSpace_idem. }
  assert (Et : forall f, f = JWTIssuer \/ f = JWTJWKSURI \/ f = JWTAudience \/ f = JWTClientID ->
    TrimSpace (f cfg) = f cfg).
  { rewrite Ecfg. intros f Hf. unfold read_config, trimmed in *. destruct Hf as [->|[->|[->| ->]]]; apply TrimSpace_idem. }
  unfold new_auth. destruct (ok_auth _ Hv) as [(Hkey & Hi & _)|(Hkey & Ha & Hc & Hi & (u & Hu & Hh & _) & Hj & _)].
  - rewrite Hi. cbn [is_empty negb String.eqb]. destruct Hkey as [Hkey|Hkey].
    + rewrite Hkey. eexists. split; [reflexivity|]. split; [done|]. intros [?|?]; done.
    + destruct (decide (APIKeySHA256 cfg = "")) as [E|Hne].
      { rewrite E. eexists. split; [reflexivity|]. split; [done|]. intros [?|?]; done. }
      destruct (NewTokenAuth_digest _ Ek Hne Hkey) as (digest & -> & Hd). eexists. split; [reflexivity|].
      unfold Enabled. cbn [expectedDigest]. rewrite bool_decide_eq_false_2 by done. split; [by right|done].
  - rewrite (proj2 (is_empty_false _) Hi). cbn [negb]. unfold NewJWTTokenAuth. cbn [Issuer JWKSURI Audience ClientID].
    rewrite !Et by tauto. rewrite (Hhost _ _ Hu Hh), !(proj2 (is_empty_false _)) by done. cbn.
    eexists. split; [reflexivity|]. split; [by left|done].
Qed.

(** C22. A configuration that is accepted is used as it is: the authentication it
    names can be set up and protects data quality, workers have a backend, and
    no constructor has a setting to correct. *)
Theorem accepted_configuration getenv readFile cfg :
  host_named -> Load shuffle getenv readFile = inl cfg -> wired cfg.
Proof.
  intros Hhost (dsn & ca & Ecfg & Hv & Hdq)%load_value.
  destruct (new_auth_accepted _ _ _ _ Hhost Ecfg Hv) as (a & Ha & Hen).
  apply (validate_spec shuffle shuffle_perm) in Hv as [Hv _]. split.
  - exists a. split_and!; [done|done|]. intros Hd. apply Hen. apply or_comm. by destruct (proj1 (validateDQ_None cfg) Hdq Hd).
  - intros Hw. destruct (ok_workers _ Hv Hw) as (Hb & Hc & Hs & Hl & Hp). split; [done|].
    assert (Hr : is_empty (EmbeddingInputRevision cfg) = false).
    { rewrite Ecfg. cbn [EmbeddingInputRevision read_config]. unfold envString. by destruct (is_empty (trimmed _ _)) eqn:E. }
    unfold NewPool, worker_pool.
    cbn [CfgInputRevision CfgSourceKinds CfgEmbeddingModel WorkerPool.WorkerCount WorkerPool.LeaseSeconds PollInterval BatchSize].
    rewrite Hr.
    rewrite !(proj2 (Z.ltb_ge _ _)), (proj2 (Z.leb_gt _ _)) by lia. done.
  - intros s. unfold build_embedding. destruct (is_empty _); [done|]. intros [= <-].
    destruct (ok_embedding _ Hv) as (_ & Hr & _ & _). unfold NewScheduler. cbn.
    rewrite (proj2 (Z.ltb_ge _ _)) by lia. rewrite (proj2 (Z.ltb_ge _ _)) by lia. rewrite (proj2 (Z.leb_gt _ _)) by lia. lia.
  - intros c. unfold build_embedding. destruct (is_empty _); [done|]. intros [= <-].
    destruct (ok_embedding _ Hv) as (_ & _ & Ht & Hm). destruct (ok_model _ Hv) as [_ Hd].
    unfold http_embedder, tokenizerConcurrency. cbn. rewrite (proj2 (Z.ltb_lt _ _)) by lia. split_and!; try done.
    assert (Ho : EmbeddingPrefixOwner cfg <> "").
    { rewrite Ecfg. cbn [EmbeddingPrefixOwner read_config]. unfold envString.
      destruct (is_empty (trimmed _ _)) eqn:E; [done|]. by apply is_empty_false in E. }
    destruct (ok_revision _ Hv) as [[_ [?|?]]|(_ & _ & ?)]; [done|by left|by right].
Qed.
End accepted.

Lemma sample_host_named : host_named (std := Sample.std).
Proof.
  intros s u. cbn. destruct (HasPrefix s "http") eqn:E; [|done]. intros _ _.
  apply HasPrefix_bytes in E as [rest E]. apply is_empty_false. intros Hn.
  assert (Hd : drop_while (in_set "/") (rev (bytes s)) = []).
  { unfold TrimRight in Hn. apply (f_equal bytes) in Hn. rewrite bytes_of_bytes in Hn.
    apply (f_equal (@rev ascii)) in Hn. by rewrite rev_involutive in Hn. }
  apply drop_while_nil in Hd. rewrite forallb_forall in Hd. specialize (Hd "h"%char).
  rewrite <- in_rev, E in Hd. discriminate (Hd (or_introl eq_refl)).
Qed.

Lemma accepted_configuration_witness : wired sample_config.
Proof.
  exact (accepted_configuration (std := Sample.std) id (fun l => Permutation_refl l)
           (Sample.env "ATHSEARCH_WORKER_SOURCE_KINDS" "event, device") Sample.no_file sample_config
           sample_host_named ltac:(vm_compute; reflexivity)).
Defined.

(** ** Examples *)

Definition open_lanes : LanedClient LaneClient := {|
  Interactive := Some {| ClientLane := LaneInteractive; LaneCircuit := Some open_example |};
  Worker := Some {| ClientLane := LaneWorker; LaneCircuit := Some NewCircuit |} |}.

Definition compatible_gate : Preflight := after_checks (NewPreflight true) [(2, None)].

Lemma open_example_wf : circuit_wf 4 open_example.
Proof.
  split.
  - intros H. vm_compute in H. discriminate H.
  - intros _. vm_compute. repeat split; discriminate.
  - intros H. vm_compute in H. discriminate H.
  - intros H. vm_compute in H. discriminate H.
Qed.

Lemma semantic_status_truthful_witness :
  exists r, RetryAt (fst (forLane 4 (Some compatible_gate) (Some open_lanes) LaneInteractive)) = Some r /\ 4 < r.
Proof.
  destruct (semantic_status_truthful 4 compatible_gate open_lanes LaneInteractive
    {| ClientLane := LaneInteractive; LaneCircuit := Some open_example |} open_example eq_refl eq_refl open_example_wf)
    as (client & circuit & Hl & Hc & _ & Ho & _).
  vm_compute in Hl. injection Hl as <-. cbn [LaneCircuit] in Hc. injection Hc as <-.
  destruct (Ho eq_refl) as (r & Hr & Hlt & _). exists r. exact (conj Hr Hlt).
Defined.
