(* ===== verification/SqlGroup.v ===== *)
(** * Grouping and aggregates in SQL

    [GROUP BY] of a list of rows by a key, the aggregates over the rows of a
    group, and statements of a transaction that may fail. *)

From S2P Require Import Prelude GoErrors GoSort.

(** ** Groups *)

Section groups.
Context {A K : Type} `{EqDecision K} (key : A -> K).

Definition group_keys (rows : list A) : list K := remove_dups (key <$> rows).
Definition members (rows : list A) (k : K) : list A := List.filter (fun r => bool_decide (key r = k)) rows.

Lemma group_keys_elem rows k : k ∈ group_keys rows <-> exists r, r ∈ rows /\ key r = k.
Proof.
  unfold group_keys. rewrite elem_of_remove_dups, list_elem_of_fmap. split; intros (r & H1 & H2); by exists r.
Qed.

Lemma group_keys_NoDup rows : NoDup (group_keys rows).
Proof. apply NoDup_remove_dups. Qed.

Lemma members_elem rows k r : r ∈ members rows k <-> r ∈ rows /\ key r = k.
Proof. unfold members. by rewrite filter_elem, bool_decide_eq_true. Qed.

Lemma members_nonempty rows k : k ∈ group_keys rows -> members rows k <> [].
Proof.
  intros (r & Hr & Hk)%group_keys_elem Hn. assert (H : r ∈ members rows k) by (by apply members_elem).
  rewrite Hn in H. by apply elem_of_nil in H.
Qed.
End groups.

(** ** Aggregates *)

(** [COUNT(DISTINCT key)] over rows where the key is not null. *)
Definition count_distinct {A K} `{EqDecision K} (key : A -> K) (rows : list A) : Z :=
  Z.of_nat (length (group_keys key rows)).

(** [MAX] and [MIN] of a group, which has a row. *)
Definition max_of (l : list Z) : Z := match l with [] => 0 | x :: l => fold_left Z.max l x end.
Definition min_of (l : list Z) : Z := match l with [] => 0 | x :: l => fold_left Z.min l x end.

Definition sum_of (l : list Z) : Z := fold_right Z.add 0 l.

(** [BOOL_OR], which ignores NULL. *)
Definition bool_or (l : list (option bool)) : option bool :=
  match omap id l with [] => None | bs => Some (existsb id bs) end.

(** *** Sums *)

Lemma sum_of_cons x l : sum_of (x :: l) = x + sum_of l.
Proof. done. Qed.

Lemma sum_indicator {K} `{EqDecision K} (k0 : K) x ks :
  NoDup ks -> sum_of ((fun k => if bool_decide (k0 = k) then x else 0) <$> ks) = if bool_decide (k0 ∈ ks) then x else 0.
Proof.
  induction 1 as [|k ks Hk _ IH]; [done|]. rewrite fmap_cons, sum_of_cons, IH.
  destruct (decide (k0 = k)) as [->|Hne].
  - rewrite (bool_decide_eq_true_2 (k = k)), (bool_decide_eq_true_2 (k ∈ k :: ks)), (bool_decide_eq_false_2 (k ∈ ks)) by (done || left). lia.
  - rewrite (bool_decide_eq_false_2 (k0 = k)) by done. rewrite (bool_decide_ext (k0 ∈ k :: ks) (k0 ∈ ks)); [lia|].
    rewrite elem_of_cons. tauto.
Qed.

Lemma sum_of_plus {A} (f g : A -> Z) l : sum_of ((fun a => f a + g a) <$> l) = sum_of (f <$> l) + sum_of (g <$> l).
Proof. induction l as [|a l IH]; [done|]. rewrite !fmap_cons, !sum_of_cons, IH. lia. Qed.

Lemma sum_of_perm l l' : l ≡ₚ l' -> sum_of l = sum_of l'.
Proof. induction 1; rewrite ?sum_of_cons; lia. Qed.

(** Sums over the groups add up to the sum over the rows. *)
Lemma sum_over_groups {A K} `{EqDecision K} (key : A -> K) (g : A -> Z) ks rows :
  NoDup ks -> (forall r, r ∈ rows -> key r ∈ ks) ->
  sum_of ((fun k => sum_of (g <$> members key rows k)) <$> ks) = sum_of (g <$> rows).
Proof.
  intros Hnd. induction rows as [|r rows IH]; intros Hin.
  { clear Hin. induction ks as [|k ks IHk]; [done|]. apply NoDup_cons in Hnd as [_ Hnd]. rewrite fmap_cons, sum_of_cons, IHk; done. }
  rewrite fmap_cons, sum_of_cons, <-IH by (intros s Hs; apply Hin; by right).
  replace (g r) with (sum_of ((fun k => if bool_decide (key r = k) then g r else 0) <$> ks))
    by (rewrite sum_indicator by done; rewrite bool_decide_eq_true_2; [done|apply Hin; left]).
  rewrite <-sum_of_plus. f_equal. apply list_fmap_ext. intros i k _. unfold members. cbn [List.filter].
  destruct (bool_decide (key r = k)); [by rewrite fmap_cons, sum_of_cons|lia].
Qed.

(** *** Largest and smallest *)

Lemma fold_max_spec l x : x <= fold_left Z.max l x /\ (forall y, y ∈ l -> y <= fold_left Z.max l x) /\
  fold_left Z.max l x ∈ x :: l.
Proof.
  revert x. induction l as [|z l IH]; intros x; cbn [fold_left].
  { split; [lia|]. split; [intros y Hy; by apply elem_of_nil in Hy|left]. }
  destruct (IH (Z.max x z)) as (H1 & H2 & H3). split; [lia|]. split.
  - intros y [->|Hy]%elem_of_cons; [lia|]. by apply H2.
  - rewrite elem_of_cons in H3. rewrite !elem_of_cons.
    destruct (Z.max_spec x z) as [[_ E]|[_ E]]; rewrite E in H3 |- *; tauto.
Qed.

Lemma max_of_spec l : l <> [] -> max_of l ∈ l /\ forall y, y ∈ l -> y <= max_of l.
Proof.
  destruct l as [|x l]; [done|]. intros _. cbn [max_of]. destruct (fold_max_spec l x) as (H1 & H2 & H3).
  split; [done|]. intros y [->|Hy]%elem_of_cons; [done|]. by apply H2.
Qed.

Lemma fold_min_spec l x : fold_left Z.min l x <= x /\ (forall y, y ∈ l -> fold_left Z.min l x <= y) /\
  fold_left Z.min l x ∈ x :: l.
Proof.
  revert x. induction l as [|z l IH]; intros x; cbn [fold_left].
  { split; [lia|]. split; [intros y Hy; by apply elem_of_nil in Hy|left]. }
  destruct (IH (Z.min x z)) as (H1 & H2 & H3). split; [lia|]. split.
  - intros y [->|Hy]%elem_of_cons; [lia|]. by apply H2.
  - rewrite elem_of_cons in H3. rewrite !elem_of_cons.
    destruct (Z.min_spec x z) as [[_ E]|[_ E]]; rewrite E in H3 |- *; tauto.
Qed.

Lemma min_of_spec l : l <> [] -> min_of l ∈ l /\ forall y, y ∈ l -> min_of l <= y.
Proof.
  destruct l as [|x l]; [done|]. intros _. cbn [min_of]. destruct (fold_min_spec l x) as (H1 & H2 & H3).
  split; [done|]. intros y [->|Hy]%elem_of_cons; [done|]. by apply H2.
Qed.

Lemma min_of_le l y : y ∈ l -> min_of l <= y.
Proof. intros H. apply min_of_spec; [|done]. intros ->. by apply elem_of_nil in H. Qed.

(** The least and the greatest value of [f] over some rows. *)
Definition least {A} (f : A -> Z) (rows : list A) (x : Z) : Prop :=
  (exists r, r ∈ rows /\ f r = x) /\ forall r, r ∈ rows -> x <= f r.
Definition greatest {A} (f : A -> Z) (rows : list A) (x : Z) : Prop :=
  (exists r, r ∈ rows /\ f r = x) /\ forall r, r ∈ rows -> f r <= x.

Lemma min_of_least {A} (f : A -> Z) rows : rows <> [] -> least f rows (min_of (f <$> rows)).
Proof.
  intros Hn. destruct (min_of_spec (f <$> rows)) as [Hin Hle]; [by destruct rows|].
  apply list_elem_of_fmap in Hin as (r & E & Hr). split; [by exists r|].
  intros r' Hr'. by apply Hle, list_elem_of_fmap_2.
Qed.

Lemma max_of_greatest {A} (f : A -> Z) rows : rows <> [] -> greatest f rows (max_of (f <$> rows)).
Proof.
  intros Hn. destruct (max_of_spec (f <$> rows)) as [Hin Hle]; [by destruct rows|].
  apply list_elem_of_fmap in Hin as (r & E & Hr). split; [by exists r|].
  intros r' Hr'. by apply Hle, list_elem_of_fmap_2.
Qed.

Lemma max_of_le l y : y ∈ l -> y <= max_of l.
Proof. intros H. apply max_of_spec; [|done]. intros ->. by apply elem_of_nil in H. Qed.

Lemma count_distinct_pos {A K} `{EqDecision K} (key : A -> K) rows : rows <> [] -> 1 <= count_distinct key rows.
Proof.
  intros Hn. destruct rows as [|r rows]; [done|]. unfold count_distinct.
  destruct (group_keys key (r :: rows)) as [|k l] eqn:E; [|cbn; lia].
  assert (H : key r ∈ group_keys key (r :: rows)) by (apply group_keys_elem; exists r; split; [left|done]).
  rewrite E in H. by apply elem_of_nil in H.
Qed.

(** At least two distinct keys: two rows that differ. *)
Lemma count_distinct_two {A K} `{EqDecision K} (key : A -> K) rows :
  2 <= count_distinct key rows <-> exists r s, r ∈ rows /\ s ∈ rows /\ key r <> key s.
Proof.
  unfold count_distinct. assert (Hnd := group_keys_NoDup key rows). assert (He := group_keys_elem key rows).
  destruct (group_keys key rows) as [|a [|b l]].
  - split; [cbn; lia|]. intros (r & s & Hr & _). exfalso. apply (not_elem_of_nil (key r)), He. by exists r.
  - split; [cbn; lia|]. intros (r & s & Hr & Hs & Hne). exfalso. apply Hne.
    assert (H : forall x, x ∈ rows -> key x = a).
    { intros x Hx. apply list_elem_of_singleton, He. by exists x. }
    by rewrite (H r), (H s).
  - split; [|cbn; lia]. intros _. apply NoDup_cons in Hnd as [Ha _].
    destruct (proj1 (He a)) as (r & Hr & Er); [left|]. destruct (proj1 (He b)) as (s & Hs & Es); [right; left|].
    exists r, s. split_and!; [done|done|]. rewrite Er, Es. intros ->. apply Ha. left.
Qed.

(** ** Statements *)

(** ** Orders *)

(** [a DESC] for a truth value, then an order. *)
Definition true_first {A} (p : A -> bool) (less : A -> A -> bool) (a b : A) : bool :=
  match p a, p b with true, false => true | false, true => false | _, _ => less a b end.

(** [a DESC NULLS LAST], then an order. *)
Definition latest_first {A} (at_ : A -> option time) (less : A -> A -> bool) (a b : A) : bool :=
  match at_ a, at_ b with
  | Some s, Some t => if s =? t then less a b else t <? s
  | Some _, None => true
  | None, Some _ => false
  | None, None => less a b
  end.

(** [a DESC] of a nullable column, where NULL comes first, then an order. *)
Definition nulls_first {A} (at_ : A -> option time) (less : A -> A -> bool) (a b : A) : bool :=
  match at_ a, at_ b with
  | None, None => less a b
  | None, Some _ => true
  | Some _, None => false
  | Some s, Some t => if s =? t then less a b else t <? s
  end.

#[export] Instance true_first_order {A} (p : A -> bool) less : WeakOrder less -> WeakOrder (true_first p less).
Proof.
  intros H. unfold true_first. split.
  - intros a. destruct (p a); apply less_irrefl.
  - intros a b. destruct (p a), (p b); try done; apply less_asym.
  - intros a b c. destruct (p a), (p b), (p c); try done; apply ngt_trans.
Qed.

#[export] Instance latest_first_order {A} (at_ : A -> option time) less : WeakOrder less -> WeakOrder (latest_first at_ less).
Proof.
  intros H. unfold latest_first. split.
  - intros a. destruct (at_ a) as [s|]; [rewrite Z.eqb_refl|]; apply less_irrefl.
  - intros a b. destruct (at_ a) as [s|], (at_ b) as [t|]; try done; [|apply less_asym].
    rewrite (Z.eqb_sym t s). destruct (Z.eqb_spec s t); [apply less_asym|]. rewrite Z.ltb_lt, Z.ltb_ge. lia.
  - intros a b c. destruct (at_ a) as [s|], (at_ b) as [t|], (at_ c) as [u|]; try done; [|apply ngt_trans].
    destruct (Z.eqb_spec t s), (Z.eqb_spec u t), (Z.eqb_spec u s); rewrite ?Z.ltb_ge; try lia; apply ngt_trans.
Qed.

#[export] Instance nulls_first_order {A} (at_ : A -> option time) less : WeakOrder less -> WeakOrder (nulls_first at_ less).
Proof.
  intros H. unfold nulls_first. split.
  - intros a. destruct (at_ a) as [s|]; [rewrite Z.eqb_refl|]; apply less_irrefl.
  - intros a b. destruct (at_ a) as [s|], (at_ b) as [t|]; try done; [|apply less_asym].
    rewrite (Z.eqb_sym t s). destruct (Z.eqb_spec s t); [apply less_asym|]. rewrite Z.ltb_lt, Z.ltb_ge. lia.
  - intros a b c. destruct (at_ a) as [s|], (at_ b) as [t|], (at_ c) as [u|]; try done; [|apply ngt_trans].
    destruct (Z.eqb_spec t s), (Z.eqb_spec u t), (Z.eqb_spec u s); rewrite ?Z.ltb_ge; try lia; apply ngt_trans.
Qed.

(** [ORDER BY ... LIMIT n] *)
Definition ordered {A} (less : A -> A -> bool) (n : Z) (rows : list A) : list A := take (Z.to_nat n) (sort_by less rows).

Lemma ordered_elem {A} (less : A -> A -> bool) n rows x : x ∈ ordered less n rows -> x ∈ rows.
Proof. intros H. apply (sort_by_elem less). by eapply subseteq_take. Qed.

Lemma ordered_length {A} (less : A -> A -> bool) n rows : 0 <= n -> Z.of_nat (length (ordered less n rows)) <= n.
Proof. intros Hn. unfold ordered. rewrite length_take. lia. Qed.

Lemma ordered_all {A} (less : A -> A -> bool) n rows :
  Z.of_nat (length rows) <= n -> ordered less n rows = sort_by less rows.
Proof. intros Hn. unfold ordered. apply take_ge. rewrite sort_by_length. lia. Qed.
