(* ===== verification/Investigation.v ===== *)
(** * Investigations (reporting/investigation_*.go, record_evidence.go)

    The evidence about one access point or device: the roster of observed
    devices, pages of signal summaries, and links made of association frames,
    confirmed identities and overlapping sensor windows.  All statements of a
    request read one snapshot; [fails] says which of them fail. *)

From S2P Require Import Prelude GoErrors GoStrings GoStrconv GoTime GoSort GoFloats QueryScope Annotations Graph SqlGroup.

(** ** Data *)

Definition InvestigationDefaultNodes : Z := 200.
Definition InvestigationDefaultEdges : Z := 400.
Definition InvestigationDefaultRows : Z := 50.

Definition associationFrameSubtypes : list string :=
  ["association_request"; "association_response"; "reassociation_request"; "reassociation_response"; "authentication";
   "disassociation"; "deauthentication"].

Record InvestigationAnchor := { AnchorKind : string; AnchorID : string }.

Record InvestigationRequest := {
  Anchor : InvestigationAnchor;
  APBSSID : string;
  DeviceMAC : string;
  LocationIDs : list string;
  SensorIDs : list string;
  SSID : string;
  ObservedAfter : option time;
  ObservedBefore : option time;
  NodeLimit : Z;
  EdgeLimit : Z;
  EvidencePage : Z;
  EvidenceSize : Z;
}.

Record InvestigationEvidence := {
  Reference : string;
  WindowStart : time;
  EvSensorID : string;
  EvLocationID : string;
  EvBSSID : string;
  EvDeviceMAC : string;
  FrameCount : Z;
  RSSIAvgDBM : option float64;
  RSSIMinDBM : option Z;
  RSSIMaxDBM : option Z;
  RSSISampleCount : Z;
  FirstObservedAt : time;
  LastObservedAt : time;
}.

Record InvestigationLink := {
  LinkID : string;
  LinkWeight : float64;
  LinkWeightBasis : string;
  LinkSource : string;
  LinkTarget : string;
  LinkType : string;
  LinkEvidence : list string;
  LinkConfidence : string;
  LinkFresh : bool;
}.

Record InvestigationFreshness := {
  SourceWatermark : option time;
  ProjectionWatermark : option time;
  CoverageStatus : string;
  CoverageReason : string;
}.

(** network.go *)
Record RosterMember := {
  MemberMAC : string;
  MemberName : string;
  MemberFirst : time;
  MemberLast : time;
  MemberRecords : Z;
}.

(** The part of an InvestigationResponse that the link queries extend. *)
Record findings := {
  Nodes : list GraphNode;
  Links : list InvestigationLink;
  Roster : list RosterMember;
  RFProximity : string;
  rfProximityReason : string;
}.

Record InvestigationResponse := {
  ResponseAnchor : InvestigationAnchor;
  Found : findings;
  Evidence : list InvestigationEvidence;
  EvidencePageNumber : Z;
  EvidencePageSize : Z;
  EvidenceTotal : Z;
  SignalQuality : string;
  Confidence : string;
  Freshness : InvestigationFreshness;
  FocusReason : string;
  GeneratedAt : time;
}.

(** ** The tables *)

Record SummaryRow := {
  window_start : time;
  s_sensor_id : string;
  s_location_id : option string;
  s_bssid : string;
  s_source_mac : string;
  frame_count : Z;
  rssi_sample_count : Z;
  rssi_min_dbm : option Z;
  rssi_max_dbm : option Z;
  rssi_avg_dbm : option float64;
  first_observed_at : time;
  last_observed_at : time;
}.

(** A row of search_documents. *)
Record event_row := { doc_id : string; doc_source_kind : string; doc_status : string; doc : document }.

(** The row of investigation_watermarks for wireless_evidence. *)
Record watermark_row := {
  source_watermark_at : option time;
  projection_watermark_at : option time;
  coverage_status : string;
  coverage_reason : option string;
}.

Record evidence_store := {
  summaries : list SummaryRow;
  (** display_name of the devices, by MAC. *)
  display_names : gmap string (option string);
  asset_annotations : gmap (string * string) annotation_row;
  graph_edges : list graphEdgeRow;
  documents : list event_row;
  watermarks : option watermark_row;
}.

(** ** Requests *)

Definition with_anchor (anchor : InvestigationAnchor) (bssid mac : string) (r : InvestigationRequest) : InvestigationRequest := {|
  Anchor := anchor; APBSSID := bssid; DeviceMAC := mac; LocationIDs := LocationIDs r; SensorIDs := SensorIDs r;
  SSID := SSID r; ObservedAfter := ObservedAfter r; ObservedBefore := ObservedBefore r; NodeLimit := NodeLimit r;
  EdgeLimit := EdgeLimit r; EvidencePage := EvidencePage r; EvidenceSize := EvidenceSize r |}.

(** A limit that is not positive is the default, and none exceeds it. *)
Definition clamp_limit (limit default_ : Z) : Z :=
  let limit := if limit <=? 0 then default_ else limit in
  if default_ <? limit then default_ else limit.

(** The anchor, the AP and the device of a request, with the anchor first. *)
Definition focus_of (r : InvestigationRequest) : (string * string) + app_error :=
  let kind := AnchorKind (Anchor r) in
  (let! focus :=
     if is_empty kind then inl (APBSSID r, DeviceMAC r)
     else if negb (String.eqb kind "ap") && negb (String.eqb kind "device")
     then inr (Validation "investigation anchor kind must be ap or device")
     else if negb (MacPattern (AnchorID (Anchor r)))
     then inr (Validation "investigation anchor id must be a MAC address")
     else if String.eqb kind "ap" then inl (AnchorID (Anchor r), DeviceMAC r)
     else inl (APBSSID r, AnchorID (Anchor r)) in
   if negb (is_empty (fst focus)) && negb (MacPattern (fst focus)) then inr (Validation "invalid AP BSSID")
   else if negb (is_empty (snd focus)) && negb (MacPattern (snd focus)) then inr (Validation "invalid device MAC")
   else if negb (is_empty (fst focus)) && negb (is_empty (snd focus))
   then inr (Validation "investigation accepts one focused anchor")
   else inl focus)%go.

(** [now] is what the clock reads if no end is given. *)
Definition NormalizeInvestigationRequest (now : time) (request : InvestigationRequest)
    : InvestigationRequest + app_error :=
  let trim s := ToLower (TrimSpace s) in
  let anchor := {| AnchorKind := trim (AnchorKind (Anchor request)); AnchorID := trim (AnchorID (Anchor request)) |} in
  let request := with_anchor anchor (trim (APBSSID request)) (trim (DeviceMAC request)) request in
  (let! focus := focus_of request in
   let bssid := fst focus in
   let mac := snd focus in
   let anchor := if negb (is_empty (AnchorKind anchor)) then anchor
                 else if negb (is_empty mac) then {| AnchorKind := "device"; AnchorID := mac |}
                 else if negb (is_empty bssid) then {| AnchorKind := "ap"; AnchorID := bssid |}
                 else anchor in
   let before := default now (ObservedBefore request) in
   let after := default (before - Day) (ObservedAfter request) in
   if negb (after <? before) then inr (Validation "observed_after must be before observed_before")
   else if EvidencePage request <? 0 then inr (Validation "evidence_page must not be negative")
   else inl {|
     Anchor := anchor; APBSSID := bssid; DeviceMAC := mac; LocationIDs := NormalizeGraphList (LocationIDs request);
     SensorIDs := NormalizeGraphList (SensorIDs request); SSID := SSID request; ObservedAfter := Some after;
     ObservedBefore := Some before; NodeLimit := clamp_limit (NodeLimit request) InvestigationDefaultNodes;
     EdgeLimit := clamp_limit (EdgeLimit request) InvestigationDefaultEdges; EvidencePage := EvidencePage request;
     EvidenceSize := clamp_limit (EvidenceSize request) InvestigationDefaultRows |})%go.

(** ** Statements *)

Inductive statement :=
| BeginTx | WatermarkQuery | RosterQuery | CountQuery | EvidenceQuery | AssociationQuery | IdentityQuery | RFQuery
| CommitTx.

Section investigation.
Context (st : evidence_store) (fails : statement -> option error).

(** The rows a statement answers with, or its error. *)
Definition query {A} (s : statement) (rows : A) : A + app_error :=
  match fails s with Some err => inr (Plain err) | None => inl rows end.

(** The ends of the interval; a normalized request has both. *)
Definition after_of (r : InvestigationRequest) : time := default time_zero (ObservedAfter r).
Definition before_of (r : InvestigationRequest) : time := default time_zero (ObservedBefore r).

Definition investigationScopeWith (r : InvestigationRequest) (deviceAnchor : bool) (row : SummaryRow) : bool :=
  (after_of r <=? window_start row) && (window_start row <? before_of r)
  && in_list (LocationIDs r) (s_location_id row) && in_list (SensorIDs r) (Some (s_sensor_id row))
  && (is_empty (APBSSID r) || String.eqb (s_bssid row) (APBSSID r))
  && (negb deviceAnchor || is_empty (DeviceMAC r) || String.eqb (s_source_mac row) (DeviceMAC r)).

Definition InvestigationScope (r : InvestigationRequest) : SummaryRow -> bool := investigationScopeWith r true.

Definition in_scope (r : InvestigationRequest) : list SummaryRow := List.filter (InvestigationScope r) (summaries st).

Definition InvestigationWatermarks : InvestigationFreshness + app_error :=
  (let! row := query WatermarkQuery (watermarks st) in
   inl match row with
       | None => {| SourceWatermark := None; ProjectionWatermark := None; CoverageStatus := "unknown"; CoverageReason := "" |}
       | Some row => {| SourceWatermark := source_watermark_at row; ProjectionWatermark := projection_watermark_at row;
                        CoverageStatus := coverage_status row; CoverageReason := default "" (coverage_reason row) |}
       end)%go.

(** ** The roster *)

Record roster_row := {
  ro_bssid : string;
  ro_mac : string;
  ro_count : Z;
  ro_first : time;
  ro_last : time;
  ro_sensors : Z;
  ro_label : string;
  ro_pinned : bool;
}.

Definition annotation_of (mac : string) : option annotation_row := asset_annotations st !! ("device", mac).

(** [COALESCE(annotation.label, NULLIF(device.display_name,''), source_mac)] *)
Definition label_of (mac : string) : string :=
  match annotation_of mac ≫= ann_label with
  | Some label => label
  | None => default mac (QueryScope.null_if_empty (mjoin (display_names st !! mac)))
  end.

Definition roster_key (row : SummaryRow) : string * string := (s_bssid row, s_source_mac row).

Definition roster_group (rows : list SummaryRow) (k : string * string) : roster_row :=
  let group := members roster_key rows k in
  {| ro_bssid := fst k; ro_mac := snd k; ro_count := sum_of (frame_count <$> group);
     ro_first := min_of (first_observed_at <$> group); ro_last := max_of (last_observed_at <$> group);
     ro_sensors := count_distinct s_sensor_id group; ro_label := label_of (snd k);
     ro_pinned := match annotation_of (snd k) with Some a => ann_pinned a | None => false end |}.

Definition roster_less : roster_row -> roster_row -> bool :=
  less_then ro_pinned bool_desc id
    (less_then ro_last (flip_less Z.ltb) id (less_then ro_bssid str_ltb id (less_on ro_mac str_ltb))).

Definition roster_rows (r : InvestigationRequest) : list roster_row :=
  ordered roster_less (NodeLimit r) (roster_group (in_scope r) <$> group_keys roster_key (in_scope r)).

(** A composite literal of a node with these fields. *)
Definition plain_node (id kind label mac bssid : string) (observed first last : option time) : GraphNode := {|
  ParentID := None; Depth := None; Graph.Role := ""; NodeID := id; NodeKind := kind; NodeLabel := label; MAC := mac;
  DisplayName := ""; Username := ""; Hostname := ""; OSHint := ""; NodeSSID := ""; NodeBSSID := bssid;
  NodeLocationID := ""; NodeSensorID := ""; ClusterSize := None; RiskScore := None; AlertType := "";
  AlertSeverity := ""; Threat := false; ExplainSourceKey := ""; ExplainKind := ""; NodeObservedAt := observed;
  NodeFirstSeen := first; NodeLastSeen := last |}.

Definition ap_id (bssid : string) : string := "ap:" +:+ bssid.
Definition device_id (mac : string) : string := "device:" +:+ mac.

Definition ap_node (row : roster_row) : GraphNode :=
  plain_node (ap_id (ro_bssid row)) "ap" (ro_bssid row) "" (ro_bssid row) (Some (ro_last row)) None None.
Definition device_node (row : roster_row) : GraphNode :=
  plain_node (device_id (ro_mac row)) "device" (ro_label row) (ro_mac row) "" None (Some (ro_first row)) (Some (ro_last row)).

Definition confidenceFor (frames sensors : Z) : string :=
  if (10 <=? frames) && (2 <=? sensors) then "repeated multi-sensor evidence"
  else if 3 <=? frames then "repeated evidence"
  else "limited observed evidence".

Definition observed_link (freshCutoff : time) (row : roster_row) : InvestigationLink := {|
  LinkID := "observed:" +:+ ro_mac row +:+ ":" +:+ ro_bssid row; LinkSource := device_id (ro_mac row);
  LinkTarget := ap_id (ro_bssid row); LinkType := "observed_ap_context"; LinkWeight := f64_of_Z (ro_count row);
  LinkWeightBasis := "frame_count"; LinkEvidence := []; LinkConfidence := confidenceFor (ro_count row) (ro_sensors row);
  LinkFresh := negb (ro_last row <? freshCutoff) |}.

Definition roster_member (row : roster_row) : RosterMember := {|
  MemberMAC := ro_mac row; MemberName := ro_label row; MemberFirst := ro_first row; MemberLast := ro_last row;
  MemberRecords := ro_count row |}.

(** The loop over the rows: an AP keeps its first node, a device its last. *)
Definition add_roster_row (nodes : gmap string GraphNode) (row : roster_row) : gmap string GraphNode :=
  let nodes := match nodes !! ap_id (ro_bssid row) with
               | Some _ => nodes
               | None => <[ap_id (ro_bssid row) := ap_node row]> nodes
               end in
  <[device_id (ro_mac row) := device_node row]> nodes.

Definition roster_nodes (rows : list roster_row) : list GraphNode :=
  snd <$> map_to_list (fold_left add_roster_row rows ∅).

Definition with_links (links : list InvestigationLink) (f : findings) : findings := {|
  Nodes := Nodes f; Links := links; Roster := Roster f; RFProximity := RFProximity f;
  rfProximityReason := rfProximityReason f |}.

Definition investigationRoster (r : InvestigationRequest) (freshCutoff : time) (f : findings) : findings + app_error :=
  (let! rows := query RosterQuery (roster_rows r) in
   inl {| Nodes := sortGraphNodes (Nodes f ++ roster_nodes rows); Links := Links f ++ (observed_link freshCutoff <$> rows);
          Roster := Roster f ++ (roster_member <$> rows); RFProximity := RFProximity f;
          rfProximityReason := rfProximityReason f |})%go.

(** ** The evidence page *)

Definition evidence_less : SummaryRow -> SummaryRow -> bool :=
  less_then window_start (flip_less Z.ltb) id
    (less_then s_sensor_id str_ltb id (less_then s_bssid str_ltb id (less_on s_source_mac str_ltb))).

Definition evidence_of (row : SummaryRow) : InvestigationEvidence := {|
  WindowStart := window_start row; EvSensorID := s_sensor_id row; EvLocationID := default "" (s_location_id row);
  EvBSSID := s_bssid row; EvDeviceMAC := s_source_mac row; FrameCount := frame_count row;
  RSSISampleCount := rssi_sample_count row; RSSIMinDBM := rssi_min_dbm row; RSSIMaxDBM := rssi_max_dbm row;
  RSSIAvgDBM := rssi_avg_dbm row; FirstObservedAt := first_observed_at row; LastObservedAt := last_observed_at row;
  Reference := "signal-summary:" +:+ FormatRFC3339 (window_start row) +:+ ":" +:+ s_sensor_id row +:+ ":"
               +:+ s_bssid row +:+ ":" +:+ s_source_mac row |}.

(** [LIMIT size OFFSET offset]; the offset is an int64 product. *)
Definition evidence_rows (r : InvestigationRequest) : list SummaryRow + app_error :=
  let offset := wrap64 (EvidencePage r * EvidenceSize r) in
  if offset <? 0 then inr (Plain (Opaque "OFFSET must not be negative"))
  else inl (take (Z.to_nat (EvidenceSize r)) (drop (Z.to_nat offset) (sort_by evidence_less (in_scope r)))).

Definition investigationEvidence (r : InvestigationRequest) : (Z * list InvestigationEvidence) + app_error :=
  (let! total := query CountQuery (Z.of_nat (length (in_scope r))) in
   let! rows := evidence_rows r in
   let! rows := query EvidenceQuery rows in
   inl (total, evidence_of <$> rows))%go.

(** ** Links *)

(** nodeIdentifiers: the device MACs and the AP BSSIDs. *)
Definition nodeIdentifiers (nodes : list GraphNode) : list string * list string :=
  (List.filter (fun m => negb (is_empty m)) (MAC <$> List.filter (fun n => String.eqb (NodeKind n) "device") nodes),
   List.filter (fun b => negb (is_empty b)) (NodeBSSID <$> List.filter (fun n => String.eqb (NodeKind n) "ap") nodes)).

Definition remaining (r : InvestigationRequest) (f : findings) : Z := EdgeLimit r - Z.of_nat (length (Links f)).

Record association_row := {
  as_mac : string;
  as_bssid : string;
  as_frames : Z;
  as_last : time;
  as_handshake : option bool;
}.

Definition association_event (r : InvestigationRequest) (devices aps : list string) (row : event_row) : bool :=
  let d := doc row in
  String.eqb (doc_source_kind row) "event" && String.eqb (doc_status row) "active"
  && is_true (c_observed_at d) (fun t => after_of r <=? t) && is_true (c_observed_at d) (fun t => t <? before_of r)
  && (is_true (c_frame_subtype d) (fun s => bool_decide (s ∈ associationFrameSubtypes))
      || is_true (c_handshake_captured d) id)
  && in_list (LocationIDs r) (c_location_id d) && in_list (SensorIDs r) (c_sensor_id d)
  && in_list devices (c_source_mac d) && in_list aps (c_bssid d).

Definition association_key (row : event_row) : string * string :=
  (coalesce (c_source_mac (doc row)), coalesce (c_bssid (doc row))).

Definition association_group (rows : list event_row) (k : string * string) : association_row :=
  let group := members association_key rows k in
  {| as_mac := fst k; as_bssid := snd k; as_frames := Z.of_nat (length group);
     as_last := max_of (default time_zero <$> (c_observed_at ∘ doc <$> group));
     as_handshake := bool_or (c_handshake_captured ∘ doc <$> group) |}.

Definition association_less : association_row -> association_row -> bool :=
  less_then as_last (flip_less Z.ltb) id (less_then as_mac str_ltb id (less_on as_bssid str_ltb)).

Definition association_rows (r : InvestigationRequest) (devices aps : list string) (limit : Z) : list association_row :=
  let rows := List.filter (association_event r devices aps) (documents st) in
  ordered association_less limit (association_group rows <$> group_keys association_key rows).

(** Frames are evidence of their own quality, not of a session. *)
Definition associationConfidence (frames : Z) (handshake : bool) : string :=
  if handshake then "captured handshake with association frames"
  else if 3 <=? frames then "repeated association frames"
  else "single association frame".

Definition association_id (mac bssid : string) : string := "assoc:" +:+ mac +:+ ":" +:+ bssid.

Definition association_link (freshCutoff : time) (row : association_row) (handshake : bool) : InvestigationLink := {|
  LinkID := association_id (as_mac row) (as_bssid row); LinkSource := device_id (as_mac row);
  LinkTarget := ap_id (as_bssid row); LinkType := "association_frame_evidence"; LinkWeight := f64_of_Z (as_frames row);
  LinkWeightBasis := "frame_count";
  LinkEvidence := ["association-frame:" +:+ as_mac row +:+ ":" +:+ as_bssid row +:+ ":" +:+ FormatRFC3339 (as_last row)];
  LinkConfidence := associationConfidence (as_frames row) handshake; LinkFresh := negb (as_last row <? freshCutoff) |}.

(** The loop over the rows; a NULL cannot be scanned into a bool. *)
Fixpoint association_loop (limit : Z) (freshCutoff : time) (seen : list string) (links : list InvestigationLink)
    (rows : list association_row) : list InvestigationLink + app_error :=
  match rows with
  | [] => inl links
  | row :: rows =>
      match as_handshake row with
      | None => inr (Plain (Opaque "sql: Scan error: converting NULL to bool is unsupported"))
      | Some handshake =>
          let id := association_id (as_mac row) (as_bssid row) in
          if bool_decide (id ∈ seen) || (limit <=? Z.of_nat (length links))
          then association_loop limit freshCutoff seen links rows
          else association_loop limit freshCutoff (id :: seen) (links ++ [association_link freshCutoff row handshake]) rows
      end
  end.

Definition investigationAssociationLinks (r : InvestigationRequest) (freshCutoff : time) (f : findings)
    : findings + app_error :=
  if remaining r f <=? 0 then inl f
  else
    let '(devices, aps) := nodeIdentifiers (Nodes f) in
    match devices, aps with
    | [], _ | _, [] => inl f
    | _, _ =>
        (let! rows := query AssociationQuery (association_rows r devices aps (remaining r f)) in
         let! links := association_loop (EdgeLimit r) freshCutoff (LinkID <$> Links f) (Links f) rows in
         inl (with_links links f))%go
    end.

(** Confirmed identities are edges of the reviewed graph. *)
Definition identity_less : graphEdgeRow -> graphEdgeRow -> bool :=
  less_then (fun e => default time_zero (row_edge_observed_at e)) (flip_less Z.ltb) id (less_on row_edge_id str_ltb).

Definition identity_rows (r : InvestigationRequest) (ids : list string) (limit : Z) : list graphEdgeRow :=
  ordered identity_less limit
    (List.filter (fun e => String.eqb (row_edge_kind e) "same_device"
                           && is_true (row_edge_observed_at e) (fun t => after_of r <=? t)
                           && bool_decide (row_source e ∈ ids) && bool_decide (row_target e ∈ ids)) (graph_edges st)).

Definition identity_link (freshCutoff : time) (e : graphEdgeRow) : InvestigationLink := {|
  LinkID := row_edge_id e; LinkSource := row_source e; LinkTarget := row_target e; LinkType := "confirmed_identity";
  LinkWeight := f_zero; LinkWeightBasis := "operator_confirmation"; LinkEvidence := [];
  LinkConfidence := "operator-confirmed identity";
  LinkFresh := negb (default time_zero (row_edge_observed_at e) <? freshCutoff) |}.

Definition add_identity (limit : Z) (freshCutoff : time) (known : list string) (links : list InvestigationLink)
    (e : graphEdgeRow) : list InvestigationLink :=
  if bool_decide (row_source e ∈ known) && bool_decide (row_target e ∈ known) && (Z.of_nat (length links) <? limit)
  then links ++ [identity_link freshCutoff e] else links.

Definition investigationTypedLinks (r : InvestigationRequest) (freshCutoff : time) (f : findings) : findings + app_error :=
  if (remaining r f <=? 0) || bool_decide (Nodes f = []) then inl f
  else
    let ids := NodeID <$> Nodes f in
    (let! rows := query IdentityQuery (identity_rows r ids (remaining r f)) in
     inl (with_links (fold_left (add_identity (EdgeLimit r) freshCutoff ids) rows (Links f)) f))%go.

(** *** RF similarity *)

(** A row of rf_sensor_windows: the two summaries of one sensor window. *)
Definition pair_row : Type := SummaryRow * SummaryRow.

Definition same_window (a b : SummaryRow) : bool :=
  (window_start b =? window_start a) && String.eqb (s_sensor_id b) (s_sensor_id a) && String.eqb (s_bssid b) (s_bssid a)
  && str_ltb (s_source_mac a) (s_source_mac b).

Definition rf_pair (r : InvestigationRequest) (devices : list string) (p : pair_row) : bool :=
  let '(a, b) := p in
  same_window a b && investigationScopeWith r false a
  && in_list devices (Some (s_source_mac a)) && in_list devices (Some (s_source_mac b))
  && (is_empty (DeviceMAC r) || String.eqb (s_source_mac a) (DeviceMAC r) || String.eqb (s_source_mac b) (DeviceMAC r)).

Definition rf_sensor_windows (r : InvestigationRequest) (devices : list string) : list pair_row :=
  List.filter (rf_pair r devices) (list_prod (summaries st) (summaries st)).

Definition pair_key (p : pair_row) : string * string := (s_source_mac (fst p), s_source_mac (snd p)).

Record rf_row := {
  rf_left : string;
  rf_right : string;
  rf_windows : Z;
  rf_sensors : Z;
  rf_last : time;
  rf_refs : string;
}.

(** The references of the three latest windows; windows of one start are
    numbered in the order of the table. *)
Definition evidence_refs (group : list pair_row) : list string :=
  (fun p => "signal-summary:" +:+ FormatRFC3339 (window_start (fst p)) +:+ ":" +:+ s_sensor_id (fst p) +:+ ":"
            +:+ s_bssid (fst p) +:+ ":" +:+ s_source_mac (fst p))
  <$> take 3 (sort_by (less_on (fun p => window_start (fst p)) (flip_less Z.ltb)) group).

Definition rf_group (rows : list pair_row) (k : string * string) : rf_row :=
  let group := members pair_key rows k in
  {| rf_left := fst k; rf_right := snd k; rf_windows := count_distinct (window_start ∘ fst) group;
     rf_sensors := count_distinct (s_sensor_id ∘ fst) group; rf_last := max_of (last_observed_at ∘ fst <$> group);
     rf_refs := Join (evidence_refs group) "|" |}.

Definition rf_less : rf_row -> rf_row -> bool :=
  less_then rf_sensors (flip_less Z.ltb) id
    (less_then rf_windows (flip_less Z.ltb) id (less_then rf_left str_ltb id (less_on rf_right str_ltb))).

Definition rf_rows (r : InvestigationRequest) (devices : list string) (limit : Z) : list rf_row :=
  let rows := rf_sensor_windows r devices in ordered rf_less limit (rf_group rows <$> group_keys pair_key rows).

Definition QualifiesRFOverlap (sensors windows : Z) : bool := (2 <=? sensors) && (2 <=? windows).

Definition RFConfidence (sensors windows : Z) : string :=
  "inferred from " +:+ Itoa windows +:+ " window(s) of overlap across " +:+ Itoa sensors
  +:+ " sensors; a proximity hint, not a measured distance".

Definition splitEvidenceRefs (raw : string) : list string := if is_empty raw then [] else Split raw "|"%char.

Definition rf_id (left right : string) : string := "rf-sim:" +:+ left +:+ ":" +:+ right.

Definition rf_link (freshCutoff : time) (row : rf_row) : InvestigationLink := {|
  LinkID := rf_id (rf_left row) (rf_right row); LinkSource := device_id (rf_left row);
  LinkTarget := device_id (rf_right row); LinkType := "inferred_rf_similarity"; LinkWeight := f64_of_Z (rf_windows row);
  LinkWeightBasis := "time_overlap_windows"; LinkEvidence := splitEvidenceRefs (rf_refs row);
  LinkConfidence := RFConfidence (rf_sensors row) (rf_windows row); LinkFresh := negb (rf_last row <? freshCutoff) |}.

(** The larger of the best overlap so far and this one. *)
Definition better (best : Z * Z) (row : rf_row) : Z * Z :=
  if (fst best <? rf_sensors row) || ((rf_sensors row =? fst best) && (snd best <? rf_windows row))
  then (rf_sensors row, rf_windows row) else best.

Definition rf_qualifies (row : rf_row) : bool := QualifiesRFOverlap (rf_sensors row) (rf_windows row).

Definition add_rf (limit : Z) (freshCutoff : time) (links : list InvestigationLink) (row : rf_row) : list InvestigationLink :=
  if negb (rf_qualifies row) || (limit <=? Z.of_nat (length links)) then links else links ++ [rf_link freshCutoff row].

Definition unknown_reason (best : Z * Z) : string :=
  if fst best =? 0 then "RF proximity is unknown: no two devices share a retained sensor window in this scope."
  else "RF proximity is unknown: the best observed overlap was " +:+ Itoa (snd best) +:+ " window(s) across "
       +:+ Itoa (fst best) +:+ " sensor(s), and two sensors with repeated overlap are required.".

Definition investigationRFSimilarityLinks (r : InvestigationRequest) (freshCutoff : time) (f : findings)
    : findings + app_error :=
  let devices := fst (nodeIdentifiers (Nodes f)) in
  if (length devices <? 2)%nat || (remaining r f <=? 0) then inl f
  else
    (let! rows := query RFQuery (rf_rows r devices (remaining r f)) in
     let links := fold_left (add_rf (EdgeLimit r) freshCutoff) rows (Links f) in
     let inferred := (length (Links f) <? length links)%nat in
     let proximity := if inferred then "inferred" else RFProximity f in
     inl {| Nodes := Nodes f; Links := links; Roster := Roster f; RFProximity := proximity;
            rfProximityReason := if negb (bool_decide (rows = [])) && negb (String.eqb proximity "inferred")
                                 then unknown_reason (fold_left better rows (0, 0)) else rfProximityReason f |})%go.

(** ** The response *)

Definition no_findings : findings := {|
  Nodes := []; Links := []; Roster := []; RFProximity := "unknown"; rfProximityReason := "" |}.

Definition focus_reason (total : Z) (freshness : InvestigationFreshness) (rfReason : string) : string :=
  let reason := if total =? 0
    then "No retained evidence matches this scope. A partial or stalled projection does not establish that no devices were observed."
    else "" in
  let reason := if negb (String.eqb (CoverageStatus freshness) "complete")
    then TrimSpace (reason +:+ " Evidence coverage is " +:+ CoverageStatus freshness +:+ ": " +:+ CoverageReason freshness)
    else reason in
  if negb (is_empty rfReason) then TrimSpace (reason +:+ " " +:+ rfReason) else reason.

(** Investigation; [now1] is read while the request is normalized and [now2]
    after the watermarks. *)
Definition Investigation (now1 now2 : time) (request : InvestigationRequest) : InvestigationResponse + app_error :=
  (let! r := NormalizeInvestigationRequest now1 request in
   let! _ := query BeginTx tt in
   let! freshness := InvestigationWatermarks in
   let freshCutoff := now2 - Day in
   let! f := investigationRoster r freshCutoff no_findings in
   let! page := investigationEvidence r in
   let! f := investigationAssociationLinks r freshCutoff f in
   let! f := investigationTypedLinks r freshCutoff f in
   let! f := investigationRFSimilarityLinks r freshCutoff f in
   let! _ := query CommitTx tt in
   inl {| ResponseAnchor := Anchor r; Found := f; Evidence := snd page; EvidencePageNumber := EvidencePage r;
          EvidencePageSize := EvidenceSize r; EvidenceTotal := fst page;
          SignalQuality := if existsb (fun e => 0 <? RSSISampleCount e) (snd page)
                           then "sensor-measured RSSI available" else "RSSI unavailable";
          Confidence := "evidence quality is based on retained frame and sensor coverage; it is not a probability or physical distance";
          Freshness := freshness; FocusReason := focus_reason (fst page) freshness (rfProximityReason f);
          GeneratedAt := now2 |})%go.

(** RecordEvidence, on what the caller has found so far. *)
Definition RecordEvidence (r : InvestigationRequest) (cutoff : time) (includeRF : bool) (f : findings)
    : findings + app_error :=
  (let! f := investigationRoster r cutoff f in
   let! f := investigationAssociationLinks r cutoff f in
   let! f := investigationTypedLinks r cutoff f in
   if includeRF then investigationRFSimilarityLinks r cutoff f else inl f)%go.
End investigation.

(** ** Lemmas: requests *)

Lemma clamp_limit_bounds limit default_ : 0 < default_ -> 1 <= clamp_limit limit default_ <= default_.
Proof. intros H. unfold clamp_limit. split_ifs; lia. Qed.

(** The limit a request gets: its own within 1 to the default, else the default. *)
Definition granted (asked most limit : Z) : Prop :=
  (1 <= asked <= most -> limit = asked) /\ (asked < 1 \/ most < asked -> limit = most).

Lemma clamp_limit_granted limit default_ : 0 < default_ -> granted limit default_ (clamp_limit limit default_).
Proof. intros H. unfold granted, clamp_limit. split_ifs; lia. Qed.

Lemma normalized_granted now request r :
  NormalizeInvestigationRequest now request = inl r ->
  granted (NodeLimit request) 200 (NodeLimit r) /\ granted (EdgeLimit request) 400 (EdgeLimit r) /\
  granted (EvidenceSize request) 50 (EvidenceSize r).
Proof.
  unfold NormalizeInvestigationRequest. intros (focus & _ & H)%sum_bind_inl. cbv zeta in H.
  destruct (negb _); [done|]. destruct (_ <? 0); [done|]. injection H as <-.
  cbn [NodeLimit EdgeLimit EvidenceSize]. split_and!; by apply clamp_limit_granted.
Qed.

Lemma normalized_limits now request r :
  NormalizeInvestigationRequest now request = inl r ->
  1 <= NodeLimit r <= 200 /\ 1 <= EdgeLimit r <= 400 /\ 1 <= EvidenceSize r <= 50 /\ 0 <= EvidencePage r.
Proof.
  unfold NormalizeInvestigationRequest. intros (focus & _ & H)%sum_bind_inl. cbv zeta in H.
  destruct (negb _); [done|]. destruct (_ <? 0) eqn:E; [done|]. apply Z.ltb_ge in E. injection H as <-.
  cbn [NodeLimit EdgeLimit EvidenceSize EvidencePage]. split; [by apply clamp_limit_bounds|].
  split; [by apply clamp_limit_bounds|]. split; [by apply clamp_limit_bounds|done].
Qed.

Lemma query_inl fails {A} s (rows x : A) : query fails s rows = inl x -> x = rows.
Proof. unfold query. destruct (fails s); [done|]. by intros [= ->]. Qed.

(** ** Lemmas: the nodes *)

(** A node of the roster: its identifier is made of its address. *)
Definition formed (n : GraphNode) : Prop :=
  NodeKind n = "device" /\ NodeID n = device_id (MAC n) \/ NodeKind n = "ap" /\ NodeID n = ap_id (NodeBSSID n).

Definition roster_map (rows : list roster_row) : gmap string GraphNode := fold_left add_roster_row rows ∅.

Lemma add_roster_row_formed m row :
  map_Forall (fun k n => NodeID n = k /\ formed n) m ->
  map_Forall (fun k n => NodeID n = k /\ formed n) (add_roster_row m row).
Proof.
  intros Hm. unfold add_roster_row. apply map_Forall_insert_2; [split; [done|by left]|].
  destruct (m !! _); [done|]. apply map_Forall_insert_2; [split; [done|by right]|done].
Qed.

Lemma roster_map_formed rows : map_Forall (fun k n => NodeID n = k /\ formed n) (roster_map rows).
Proof.
  unfold roster_map. assert (H := map_Forall_empty (fun (k : string) n => NodeID n = k /\ formed n) : map_Forall _ ∅).
  revert H. generalize (∅ : gmap string GraphNode). induction rows as [|row rows IH]; intros m H; [done|].
  apply IH, add_roster_row_formed, H.
Qed.

Lemma add_roster_row_grows m row k : is_Some (m !! k) -> is_Some (add_roster_row m row !! k).
Proof.
  intros H. unfold add_roster_row. destruct (decide (k = device_id (ro_mac row))) as [->|Hn].
  { rewrite lookup_insert_eq. done. }
  rewrite lookup_insert_ne by done. destruct (m !! ap_id _) eqn:E; [done|].
  destruct (decide (k = ap_id (ro_bssid row))) as [->|Hn']; [by rewrite lookup_insert_eq|by rewrite lookup_insert_ne].
Qed.

Lemma add_roster_row_ends m row :
  is_Some (add_roster_row m row !! ap_id (ro_bssid row)) /\ is_Some (add_roster_row m row !! device_id (ro_mac row)).
Proof.
  unfold add_roster_row. split.
  - destruct (decide (ap_id (ro_bssid row) = device_id (ro_mac row))) as [E|Hn]; [by rewrite E, lookup_insert_eq|].
    rewrite lookup_insert_ne by done. destruct (m !! ap_id _) eqn:E; [by rewrite E|by rewrite lookup_insert_eq].
  - by rewrite lookup_insert_eq.
Qed.

Lemma roster_map_ends rows row :
  row ∈ rows -> is_Some (roster_map rows !! ap_id (ro_bssid row)) /\ is_Some (roster_map rows !! device_id (ro_mac row)).
Proof.
  unfold roster_map. generalize (∅ : gmap string GraphNode). induction rows as [|x rows IH]; intros m Hr; [by apply elem_of_nil in Hr|].
  assert (Hkeep : forall k l m, is_Some (m !! k) -> is_Some (fold_left add_roster_row l m !! k)).
  { intros k l. induction l as [|y l IHl]; intros m' H; [done|]. apply IHl, add_roster_row_grows, H. }
  apply elem_of_cons in Hr as [->|Hr]; [|by apply IH].
  destruct (add_roster_row_ends m x) as [H1 H2]. cbn [fold_left]. by split; apply Hkeep.
Qed.

Lemma roster_map_size rows : (size (roster_map rows) <= 2 * length rows)%nat.
Proof.
  unfold roster_map. enough (H : forall m, (size (fold_left add_roster_row rows m) <= size m + 2 * length rows)%nat).
  { specialize (H ∅). by rewrite map_size_empty in H. }
  assert (Hi : forall (m : gmap string GraphNode) k n, (size (<[k := n]> m) <= S (size m))%nat).
  { intros m k n. rewrite map_size_insert. destruct (m !! k); simpl; lia. }
  induction rows as [|row rows IH]; intros m; cbn [fold_left length]; [lia|]. etransitivity; [apply IH|].
  enough (size (add_roster_row m row) <= size m + 2)%nat by lia. unfold add_roster_row. etransitivity; [apply Hi|].
  destruct (m !! _); [lia|]. pose proof (Hi m (ap_id (ro_bssid row)) (ap_node row)). lia.
Qed.

Lemma roster_ids rows : NodeID <$> roster_nodes rows = (map_to_list (roster_map rows)).*1.
Proof.
  unfold roster_nodes. fold (roster_map rows). rewrite <-list_fmap_compose. apply list_fmap_ext.
  intros i [k n] Hi. cbn. apply list_elem_of_lookup_2, elem_of_map_to_list in Hi.
  by destruct (roster_map_formed rows k n Hi).
Qed.

Lemma roster_nodes_elem rows n : n ∈ roster_nodes rows -> formed n.
Proof.
  intros ([k x] & -> & H)%list_elem_of_fmap. apply elem_of_map_to_list in H. by destruct (roster_map_formed rows k x H).
Qed.

Lemma roster_ids_elem rows k : is_Some (roster_map rows !! k) -> k ∈ NodeID <$> roster_nodes rows.
Proof.
  intros [n Hn]. rewrite roster_ids. apply list_elem_of_fmap. exists (k, n). split; [done|]. by apply elem_of_map_to_list.
Qed.

(** The identifiers that the link queries are given. *)
Lemma nodeIdentifiers_devices nodes m :
  Forall formed nodes -> m ∈ fst (nodeIdentifiers nodes) -> device_id m ∈ NodeID <$> nodes.
Proof.
  intros Hf [(n & -> & [Hn Hk]%filter_elem)%list_elem_of_fmap _]%filter_elem. apply String.eqb_eq in Hk.
  apply list_elem_of_fmap. exists n. split; [|done]. rewrite Forall_forall in Hf.
  destruct (Hf n Hn) as [[_ ->]|[Hk' _]]; [done|congruence].
Qed.

Lemma nodeIdentifiers_aps nodes b :
  Forall formed nodes -> b ∈ snd (nodeIdentifiers nodes) -> ap_id b ∈ NodeID <$> nodes.
Proof.
  intros Hf [(n & -> & [Hn Hk]%filter_elem)%list_elem_of_fmap _]%filter_elem. apply String.eqb_eq in Hk.
  apply list_elem_of_fmap. exists n. split; [|done]. rewrite Forall_forall in Hf.
  destruct (Hf n Hn) as [[Hk' _]|[_ ->]]; [congruence|done].
Qed.

Lemma in_list_some values v : values <> [] -> in_list values (Some v) = true -> v ∈ values.
Proof. destruct values; [done|]. intros _ H. by apply bool_decide_eq_true in H. Qed.

Lemma in_list_elem values v : values <> [] -> in_list values v = true -> exists x, v = Some x /\ x ∈ values.
Proof. destruct values; [done|]. intros _ H. destruct v as [x|]; [|done]. exists x. split; [done|]. by apply bool_decide_eq_true in H. Qed.

(** ** Lemmas: the links *)

(** Every link of [l] joins two of the nodes named. *)
Definition joins (ids : list string) (l : list InvestigationLink) : Prop :=
  Forall (fun link => LinkSource link ∈ ids /\ LinkTarget link ∈ ids) l.

(** What every stage keeps: identifiers made of addresses, without repetition,
    closed links, and a number of links that only the roster may take over the
    limit. *)
Record report_ok (limit : Z) (f : findings) : Prop := {
  rep_formed : Forall formed (Nodes f);
  rep_nodup : NoDup (NodeID <$> Nodes f);
  rep_closed : joins (NodeID <$> Nodes f) (Links f);
  rep_links : Z.of_nat (length (Links f)) <= Z.max limit (Z.of_nat (length (Roster f)));
}.

Lemma joins_snoc ids l link : joins ids l -> LinkSource link ∈ ids -> LinkTarget link ∈ ids -> joins ids (l ++ [link]).
Proof. intros H1 H2 H3. apply Forall_app. split; [done|]. by constructor. Qed.

Lemma report_ok_links limit f links :
  report_ok limit f -> joins (NodeID <$> Nodes f) links ->
  Z.of_nat (length links) <= Z.max limit (Z.of_nat (length (Links f))) -> report_ok limit (with_links links f).
Proof. intros [H1 H2 H3 H4] Hj Hl. split; try done. cbn. lia. Qed.

Lemma investigationRoster_ok st fails r cutoff f :
  0 <= NodeLimit r -> investigationRoster st fails r cutoff no_findings = inl f ->
  report_ok (EdgeLimit r) f /\ (exists rows, rows = roster_rows st r /\ Roster f = roster_member <$> rows /\
    Links f = observed_link cutoff <$> rows /\ Nodes f = sortGraphNodes (roster_nodes rows)) /\
  RFProximity f = "unknown" /\ rfProximityReason f = "".
Proof.
  intros Hn. unfold investigationRoster. intros (rows & ->%query_inl & [= <-])%sum_bind_inl. cbn [no_findings Nodes Links Roster].
  set (rows := roster_rows st r).
  assert (Hperm : NodeID <$> sortGraphNodes (roster_nodes rows) ≡ₚ NodeID <$> roster_nodes rows).
  { apply fmap_Permutation, sort_by_perm. }
  split; [|split; [by exists rows|done]]. split; cbn.
  - apply Forall_forall. intros n Hin. apply (roster_nodes_elem rows). by apply sort_by_elem in Hin.
  - rewrite Hperm, roster_ids. apply NoDup_fst_map_to_list.
  - apply Forall_forall. intros link (row & -> & Hrow)%list_elem_of_fmap. rewrite !Hperm. cbn.
    destruct (roster_map_ends rows row Hrow) as [Ha Hd]. by split; apply roster_ids_elem.
  - rewrite !length_fmap. lia.
Qed.

Lemma association_loop_ok (P : association_row -> Prop) ids limit cutoff rows seen links links' :
  (forall row b, P row -> LinkSource (association_link cutoff row b) ∈ ids /\ LinkTarget (association_link cutoff row b) ∈ ids) ->
  Forall P rows -> joins ids links -> association_loop limit cutoff seen links rows = inl links' ->
  joins ids links' /\ Z.of_nat (length links') <= Z.max limit (Z.of_nat (length links)).
Proof.
  intros HP. revert seen links. induction rows as [|row rows IH]; intros seen links Hrows Hj; cbn [association_loop].
  { intros [= <-]. split; [done|lia]. }
  apply Forall_cons in Hrows as [Hrow Hrows]. destruct (as_handshake row) as [b|]; [|done].
  destruct (bool_decide _ || _) eqn:E; [by apply IH|]. intros H. apply orb_false_iff in E as [_ E]. apply Z.leb_gt in E.
  destruct (HP row b Hrow) as [Hs Ht]. destruct (IH _ _ Hrows (joins_snoc _ _ _ Hj Hs Ht) H) as [H1 H2].
  split; [done|]. rewrite length_app in H2. cbn in H2. lia.
Qed.

Lemma association_rows_ends st r devices aps limit row :
  devices <> [] -> aps <> [] -> row ∈ association_rows st r devices aps limit -> as_mac row ∈ devices /\ as_bssid row ∈ aps.
Proof.
  intros Hd Ha H%ordered_elem. apply list_elem_of_fmap in H as (k & -> & (e & [_ He]%filter_elem & <-)%group_keys_elem).
  unfold association_event in He. cbn [as_mac as_bssid association_group association_key fst snd].
  apply andb_true_iff in He as [He H2]. apply andb_true_iff in He as [_ H1].
  destruct (in_list_elem _ _ Hd H1) as (m & -> & Hm). destruct (in_list_elem _ _ Ha H2) as (b & -> & Hb). done.
Qed.

Lemma investigationAssociationLinks_ok st fails r cutoff f f' :
  report_ok (EdgeLimit r) f -> investigationAssociationLinks st fails r cutoff f = inl f' ->
  exists links, f' = with_links links f /\ report_ok (EdgeLimit r) f' /\ joins (NodeID <$> Nodes f) links.
Proof.
  intros Hok. unfold investigationAssociationLinks.
  assert (Hself : exists links, f = with_links links f /\ report_ok (EdgeLimit r) f /\ joins (NodeID <$> Nodes f) links).
  { exists (Links f). destruct f. by destruct Hok. }
  destruct (Z.leb_spec (remaining r f) 0) as [|Hrem]; [by intros [= <-]|].
  destruct (nodeIdentifiers (Nodes f)) as [devices aps] eqn:E.
  destruct devices as [|d ds]; [by intros [= <-]|]. destruct aps as [|a al]; [by intros [= <-]|].
  intros (rows & ->%query_inl & (links & Hl & [= <-])%sum_bind_inl)%sum_bind_inl. exists links.
  assert (Hends : forall row b, as_mac row ∈ d :: ds /\ as_bssid row ∈ a :: al ->
    LinkSource (association_link cutoff row b) ∈ NodeID <$> Nodes f /\
    LinkTarget (association_link cutoff row b) ∈ NodeID <$> Nodes f).
  { intros row b [Hd Ha]. split; [apply nodeIdentifiers_devices|apply nodeIdentifiers_aps];
      try apply (rep_formed _ _ Hok); by rewrite E. }
  assert (Hrows : Forall (fun row => as_mac row ∈ d :: ds /\ as_bssid row ∈ a :: al)
    (association_rows st r (d :: ds) (a :: al) (remaining r f))).
  { apply Forall_forall. intros row Hrow. by apply (association_rows_ends st r _ _ (remaining r f)). }
  destruct (association_loop_ok _ _ _ _ _ _ _ _ Hends Hrows (rep_closed _ _ Hok) Hl) as [Hj Hlen].
  split; [done|]. split; [|done]. by apply report_ok_links.
Qed.

(** A loop that appends one closed link at a time, within the limit. *)
Lemma fold_links_ok {A} (P : A -> Prop) (add : list InvestigationLink -> A -> list InvestigationLink) ids limit rows links :
  (forall links x, P x -> joins ids links -> joins ids (add links x)) ->
  (forall links x, Z.of_nat (length (add links x)) <= Z.max limit (Z.of_nat (length links))) ->
  Forall P rows -> joins ids links ->
  joins ids (fold_left add rows links) /\
  Z.of_nat (length (fold_left add rows links)) <= Z.max limit (Z.of_nat (length links)).
Proof.
  intros Hj Hl. revert links. induction rows as [|x rows IH]; intros links HP Hlinks; cbn [fold_left]; [split; [done|lia]|].
  apply Forall_cons in HP as [Hx HP]. destruct (IH (add links x) HP (Hj _ _ Hx Hlinks)) as [H1 H2].
  split; [done|]. specialize (Hl links x). lia.
Qed.

Lemma investigationTypedLinks_ok st fails r cutoff f f' :
  report_ok (EdgeLimit r) f -> investigationTypedLinks st fails r cutoff f = inl f' ->
  exists links, f' = with_links links f /\ report_ok (EdgeLimit r) f'.
Proof.
  intros Hok. unfold investigationTypedLinks. destruct (_ || _).
  { intros [= <-]. exists (Links f). by destruct f. }
  intros (rows & ->%query_inl & [= <-])%sum_bind_inl. eexists. split; [reflexivity|].
  destruct (fold_links_ok (fun _ => True) (add_identity (EdgeLimit r) cutoff (NodeID <$> Nodes f)) (NodeID <$> Nodes f)
    (EdgeLimit r) (identity_rows st r (NodeID <$> Nodes f) (remaining r f)) (Links f)) as [Hj Hl].
  - intros links e _ Hlinks. unfold add_identity. destruct (_ && _) eqn:E; [|done].
    rewrite !andb_true_iff, !bool_decide_eq_true in E. destruct E as [[Hs Ht] _]. by apply joins_snoc.
  - intros links e. unfold add_identity. destruct (_ && _) eqn:E; [|lia]. rewrite !andb_true_iff, Z.ltb_lt in E.
    rewrite length_app. cbn. lia.
  - by apply Forall_true.
  - apply (rep_closed _ _ Hok).
  - by apply report_ok_links.
Qed.

Lemma add_rf_length limit cutoff links row :
  Z.of_nat (length (add_rf limit cutoff links row)) <= Z.max limit (Z.of_nat (length links)).
Proof.
  unfold add_rf. destruct (_ || _) eqn:E; [lia|]. apply orb_false_iff in E as [_ E]. apply Z.leb_gt in E.
  rewrite length_app. cbn. lia.
Qed.

Lemma rf_sensor_windows_elem st r devices a b :
  (a, b) ∈ rf_sensor_windows st r devices <-> a ∈ summaries st /\ b ∈ summaries st /\ rf_pair r devices (a, b) = true.
Proof.
  unfold rf_sensor_windows. rewrite filter_elem, !list_elem_of_In, in_prod_iff. tauto.
Qed.

Lemma rf_rows_ends st r devices limit row :
  devices <> [] -> row ∈ rf_rows st r devices limit -> rf_left row ∈ devices /\ rf_right row ∈ devices.
Proof.
  intros Hd H%ordered_elem. apply list_elem_of_fmap in H as (k & -> & ([a b] & Hp & <-)%group_keys_elem).
  apply rf_sensor_windows_elem in Hp as (_ & _ & Hp). unfold rf_pair in Hp. rewrite !andb_true_iff in Hp.
  destruct Hp as [[[_ Ha] Hb] _]. by split; apply in_list_some.
Qed.

Lemma investigationRFSimilarityLinks_ok st fails r cutoff f f' :
  report_ok (EdgeLimit r) f -> investigationRFSimilarityLinks st fails r cutoff f = inl f' ->
  report_ok (EdgeLimit r) f' /\ Roster f' = Roster f.
Proof.
  intros Hok. unfold investigationRFSimilarityLinks. destruct (_ || _) eqn:Ec; [by intros [= <-]|].
  intros (rows & ->%query_inl & [= <-])%sum_bind_inl. split; [|done]. cbv zeta. set (devices := fst _) in *.
  assert (Hd : devices <> []) by (destruct devices; [done|done]).
  destruct (fold_links_ok (fun row => row ∈ rf_rows st r devices (remaining r f)) (add_rf (EdgeLimit r) cutoff)
    (NodeID <$> Nodes f) (EdgeLimit r) (rf_rows st r devices (remaining r f)) (Links f)) as [Hj Hl].
  - intros links row Hrow Hlinks. unfold add_rf. clear Ec. destruct (_ || _); [done|].
    destruct (rf_rows_ends _ _ _ _ _ Hd Hrow) as [H1 H2].
    apply joins_snoc; [done| |]; apply nodeIdentifiers_devices; done || apply (rep_formed _ _ Hok).
  - intros links row. apply add_rf_length.
  - by apply Forall_forall.
  - apply (rep_closed _ _ Hok).
  - destruct Hok as [H1 H2 H3 H4]. split; [exact H1|exact H2|exact Hj|]. eapply Z.le_trans; [exact Hl|]. cbn [Roster]. lia.
Qed.

(** C33. A report is a closed graph within the limits of its request: a limit
    that is asked for between 1 and its most (200 rows of the roster, 400 links,
    50 rows of evidence) is kept, any other is its most.  The roster has no
    more rows than the node limit; the nodes are distinct and at most two for a
    row, so they can be twice the node limit; the links join two of the nodes
    and are at most the edge limit or the rows of the roster, whichever is more;
    the evidence is at most its page size; and the device of every row of the
    roster is a node. *)
Theorem investigation_closed st fails now1 now2 request resp :
  Investigation st fails now1 now2 request = inl resp ->
  exists nodes edges size,
    granted (NodeLimit request) 200 nodes /\ granted (EdgeLimit request) 400 edges /\
    granted (EvidenceSize request) 50 size /\
  let ids := NodeID <$> Nodes (Found resp) in
  let rows := Z.of_nat (length (Roster (Found resp))) in
  rows <= nodes /\ NoDup ids /\ Z.of_nat (length ids) <= 2 * rows /\
  joins ids (Links (Found resp)) /\ Z.of_nat (length (Links (Found resp))) <= Z.max edges rows /\
  Z.of_nat (length (Evidence resp)) <= size /\
  (forall m, m ∈ Roster (Found resp) -> device_id (MemberMAC m) ∈ ids).
Proof.
  unfold Investigation. intros (r & Hr & H)%sum_bind_inl. revert H.
  destruct (normalized_limits _ _ _ Hr) as (Hn & He & Hs & Hp), (normalized_granted _ _ _ Hr) as (Gn & Ge & Gs).
  intros (_ & _ & (fresh & _ & (f1 & H1 & (page & H2 & (f2 & H3 & (f3 & H4 & (f4 & H5 & (_ & _ & [= <-])%sum_bind_inl)%sum_bind_inl)%sum_bind_inl)%sum_bind_inl)%sum_bind_inl)%sum_bind_inl)%sum_bind_inl)%sum_bind_inl.
  destruct (investigationRoster_ok st fails r _ f1 ltac:(lia) H1) as (Hok1 & (rows & Erows & Er & _ & Enodes) & _).
  destruct (investigationAssociationLinks_ok _ _ _ _ _ _ Hok1 H3) as (l2 & -> & Hok2 & _).
  destruct (investigationTypedLinks_ok _ _ _ _ _ _ Hok2 H4) as (l3 & -> & Hok3).
  destruct (investigationRFSimilarityLinks_ok _ _ _ _ _ _ Hok3 H5) as [[_ Hnd Hj Hl] Ero].
  assert (Enod : Nodes f4 = Nodes f1).
  { revert H5. unfold investigationRFSimilarityLinks. destruct (_ || _); [by intros [= <-]|].
    by intros (? & _ & [= <-])%sum_bind_inl. }
  exists (NodeLimit r), (EdgeLimit r), (EvidenceSize r). split; [done|]. split; [done|]. split; [done|].
  cbn [Found Evidence]. cbv zeta. rewrite Ero, Enod in *. cbn [Roster with_links] in *. rewrite Er in *.
  split.
  { rewrite length_fmap, Erows. pose proof (ordered_length roster_less (NodeLimit r)
      (roster_group st (in_scope st r) <$> group_keys roster_key (in_scope st r)) ltac:(lia)).
    unfold roster_rows. lia. }
  split; [done|]. split.
  { enough (length (NodeID <$> Nodes f1) <= 2 * length (roster_member <$> rows))%nat by lia. rewrite !length_fmap, Enodes. unfold sortGraphNodes. rewrite sort_by_length. unfold roster_nodes.
    rewrite length_fmap, length_map_to_list. apply roster_map_size. }
  split; [done|]. split; [done|]. split.
  - revert H2. unfold investigationEvidence. intros (t & _ & (es & He2 & (es' & ->%query_inl & [= <-])%sum_bind_inl)%sum_bind_inl)%sum_bind_inl.
    cbn. rewrite length_fmap. unfold evidence_rows in He2. destruct (_ <? 0); [done|]. injection He2 as <-.
    rewrite length_take. lia.
  - intros m (row & -> & Hrow)%list_elem_of_fmap. rewrite Enodes.
    assert (Hperm : NodeID <$> sortGraphNodes (roster_nodes rows) ≡ₚ NodeID <$> roster_nodes rows).
    { apply fmap_Permutation, sort_by_perm. }
    rewrite Hperm. apply roster_ids_elem. by destruct (roster_map_ends rows row Hrow).
Qed.

(** ** RF similarity: which pairs are linked *)

(** A sensor window that the two devices share, among those a request reads. *)
Definition shared (st : evidence_store) (r : InvestigationRequest) (devices : list string) (left right : string)
    (p : pair_row) : Prop := p ∈ rf_sensor_windows st r devices /\ pair_key p = (left, right).

(** Two sensors saw them together, and so did two windows. *)
Definition proximate (st : evidence_store) (r : InvestigationRequest) (devices : list string) (left right : string) : Prop :=
  (exists p q, shared st r devices left right p /\ shared st r devices left right q /\
     s_sensor_id (fst p) <> s_sensor_id (fst q)) /\
  (exists p q, shared st r devices left right p /\ shared st r devices left right q /\
     window_start (fst p) <> window_start (fst q)).

Lemma rf_qualifies_proximate st r devices k :
  rf_qualifies (rf_group (rf_sensor_windows st r devices) k) = true <-> proximate st r devices (fst k) (snd k).
Proof.
  unfold rf_qualifies, QualifiesRFOverlap. cbn [rf_group rf_sensors rf_windows].
  rewrite andb_true_iff, !Z.leb_le, !count_distinct_two. unfold proximate, shared. destruct k as [left right].
  cbn [fst snd]. split; intros [(p & q & Hp & Hq & H) (p' & q' & Hp' & Hq' & H')];
    [apply members_elem in Hp, Hq, Hp', Hq'|]; (split; [exists p, q|exists p', q']); rewrite ?members_elem; done.
Qed.

Lemma fold_add_rf limit cutoff rows links :
  Z.of_nat (length links + length rows) <= limit ->
  fold_left (add_rf limit cutoff) rows links = links ++ (rf_link cutoff <$> List.filter rf_qualifies rows).
Proof.
  revert links. induction rows as [|row rows IH]; intros links Hl; cbn [fold_left List.filter]; [by rewrite app_nil_r|].
  cbn [length] in Hl. unfold add_rf at 2. destruct (Z.leb_spec limit (Z.of_nat (length links))); [lia|].
  destruct (rf_qualifies row); cbn [negb orb].
  - rewrite IH by (rewrite length_app; cbn; lia). rewrite <-app_assoc. done.
  - apply IH. lia.
Qed.

Lemma device_id_inj a b : device_id a = device_id b -> a = b.
Proof. unfold device_id. intros H. by injection H. Qed.

(** With room for every pair, the pairs linked are exactly the proximate ones,
    and proximity is inferred exactly when there is one. *)
Theorem rf_similarity_exact st fails r cutoff f f' :
  let devices := fst (nodeIdentifiers (Nodes f)) in
  investigationRFSimilarityLinks st fails r cutoff f = inl f' -> (2 <= length devices)%nat -> 0 < remaining r f ->
  Z.of_nat (length (group_keys pair_key (rf_sensor_windows st r devices))) <= remaining r f -> RFProximity f = "unknown" ->
  exists links, Links f' = Links f ++ links /\
    (forall left right, (exists l, l ∈ links /\ LinkSource l = device_id left /\ LinkTarget l = device_id right) <->
       proximate st r devices left right) /\
    (RFProximity f' = "inferred" <-> exists left right, proximate st r devices left right).
Proof.
  intros devices. unfold investigationRFSimilarityLinks. fold devices. intros H Hd Hrem Hroom Hunk.
  destruct (_ || _) eqn:Ec. { apply orb_true_iff in Ec. rewrite Nat.ltb_lt, Z.leb_le in Ec. lia. }
  revert H. intros (rows & ->%query_inl & [= <-])%sum_bind_inl.
  assert (Hrows : rf_rows st r devices (remaining r f) =
    sort_by rf_less (rf_group (rf_sensor_windows st r devices) <$> group_keys pair_key (rf_sensor_windows st r devices))).
  { apply ordered_all. by rewrite length_fmap. }
  rewrite Hrows. clear Hrows. set (rows := rf_group (rf_sensor_windows st r devices) <$> _).
  rewrite fold_add_rf. 2:{ rewrite sort_by_length. unfold rows. rewrite length_fmap. unfold remaining in *. lia. }
  assert (Hlinks : forall left right, (exists l, l ∈ rf_link cutoff <$> List.filter rf_qualifies (sort_by rf_less rows) /\
    LinkSource l = device_id left /\ LinkTarget l = device_id right) <-> proximate st r devices left right).
  { intros left right. split.
    - intros (l & (row & -> & [Hrow Hq]%filter_elem)%list_elem_of_fmap & Hs & Ht). apply sort_by_elem in Hrow.
      apply list_elem_of_fmap in Hrow as (k & -> & _). apply rf_qualifies_proximate in Hq.
      apply device_id_inj in Hs as <-. by apply device_id_inj in Ht as <-.
    - intros Hp. exists (rf_link cutoff (rf_group (rf_sensor_windows st r devices) (left, right))). split; [|done].
      apply list_elem_of_fmap_2, filter_elem. rewrite sort_by_elem. split; [|by apply rf_qualifies_proximate].
      apply list_elem_of_fmap_2, group_keys_elem. destruct Hp as [(p & _ & [Hp1 Hp2] & _) _]. by exists p. }
  cbn [Links RFProximity]. eexists. split; [reflexivity|]. split; [exact Hlinks|].
  rewrite length_app. set (links := rf_link cutoff <$> _) in *. rewrite Hunk.
  destruct links as [|l0 links0] eqn:El; cbn [length].
  - rewrite Nat.add_0_r, Nat.ltb_irrefl. split; [done|]. intros (left & right & Hp).
    apply Hlinks in Hp as (l & Hl & _). by apply elem_of_nil in Hl.
  - rewrite (proj2 (Nat.ltb_lt _ _)) by lia. split; [|done]. intros _.
    assert (Hl : l0 ∈ rf_link cutoff <$> List.filter rf_qualifies (sort_by rf_less rows)) by (fold links; rewrite El; left).
    apply list_elem_of_fmap in Hl as (row & -> & [Hrow Hq]%filter_elem). apply sort_by_elem in Hrow.
    apply list_elem_of_fmap in Hrow as (k & -> & _). exists (fst k), (snd k). by apply rf_qualifies_proximate.
Qed.

(** When pairs were compared the reason names the best of them: the text for no
    shared window is not used, and without one there is no text. *)
Lemma unknown_reason_unused st r devices limit :
  rf_rows st r devices limit <> [] -> fst (fold_left better (rf_rows st r devices limit) (0, 0)) <> 0.
Proof.
  intros Hn.
  assert (Hpos : Forall (fun row => 1 <= rf_sensors row) (rf_rows st r devices limit)).
  { apply Forall_forall. intros row Hrow%ordered_elem. apply list_elem_of_fmap in Hrow as (k & -> & Hk).
    by apply count_distinct_pos, members_nonempty. }
  revert Hn Hpos. generalize (rf_rows st r devices limit). intros rows Hn Hpos.
  assert (Hmono : forall rows best, fst best <= fst (fold_left better rows best)).
  { intros l. induction l as [|row l IH]; intros best; cbn [fold_left]; [lia|]. etransitivity; [|apply IH].
    unfold better. destruct (_ || _) eqn:E; [|cbn; lia]. cbn [fst].
    apply orb_true_iff in E. rewrite andb_true_iff in E. destruct E as [E%Z.ltb_lt|[E%Z.eqb_eq _]]; lia. }
  destruct rows as [|row rows]; [done|]. apply Forall_cons in Hpos as [Hpos _]. cbn [fold_left].
  assert (E : better (0, 0) row = (rf_sensors row, rf_windows row)).
  { unfold better. cbn [fst]. by rewrite (proj2 (Z.ltb_lt _ _)) by lia. }
  specialize (Hmono rows (rf_sensors row, rf_windows row)). rewrite E. cbn [fst] in Hmono. lia.
Qed.

(** ** The evidence pages *)

Definition at_page (k : Z) (r : InvestigationRequest) : InvestigationRequest := {|
  Anchor := Anchor r; APBSSID := APBSSID r; DeviceMAC := DeviceMAC r; LocationIDs := LocationIDs r; SensorIDs := SensorIDs r;
  SSID := SSID r; ObservedAfter := ObservedAfter r; ObservedBefore := ObservedBefore r; NodeLimit := NodeLimit r;
  EdgeLimit := EdgeLimit r; EvidencePage := k; EvidenceSize := EvidenceSize r |}.

Lemma join_fmap_list {A B} (f : A -> B) (ls : list (list A)) : f <$> mjoin ls = mjoin (fmap f <$> ls).
Proof.
  induction ls as [|l ls IH]; [done|].
  change (f <$> (l ++ mjoin ls) = (f <$> l) ++ mjoin (fmap f <$> ls)). by rewrite fmap_app, IH.
Qed.

Lemma pages_cover {A} (l : list A) size n :
  mjoin ((fun k => take size (drop (k * size) l)) <$> seq 0 n) = take (n * size) l.
Proof.
  induction n as [|n IH]; [done|]. rewrite seq_S, fmap_app, join_app, IH.
  change (take (n * size) l ++ (take size (drop (n * size) l) ++ []) = take (S n * size) l).
  rewrite app_nil_r, take_take_drop. f_equal. lia.
Qed.

(** Over an unchanged store, the pages of a request show every summary in scope
    once, the latest windows first, and each says how many there are. *)
Theorem evidence_pages_cover st fails r n :
  fails CountQuery = None -> fails EvidenceQuery = None -> 0 < EvidenceSize r ->
  Z.of_nat n * EvidenceSize r < 2 ^ 63 -> Z.of_nat (length (in_scope st r)) <= Z.of_nat n * EvidenceSize r ->
  exists pages, (forall k, (k < n)%nat -> exists page, pages !! k = Some page /\
      investigationEvidence st fails (at_page (Z.of_nat k) r) = inl (Z.of_nat (length (in_scope st r)), page)) /\
    length pages = n /\ mjoin pages = evidence_of <$> sort_by evidence_less (in_scope st r).
Proof.
  intros H1 H2 Hs Hn Hl. set (rows := sort_by evidence_less (in_scope st r)). set (size := Z.to_nat (EvidenceSize r)).
  exists (fmap evidence_of <$> ((fun k => take size (drop (k * size) rows)) <$> seq 0 n)). split; [|split].
  - intros k Hk. eexists. rewrite !list_lookup_fmap, lookup_seq_lt by done. split; [reflexivity|].
    unfold investigationEvidence, query, evidence_rows. rewrite H1, H2.
    change (in_scope st (at_page (Z.of_nat k) r)) with (in_scope st r). cbn [sum_bind EvidencePage EvidenceSize at_page].
    rewrite wrap64_id by (unfold int64_range; nia). destruct (Z.ltb_spec (Z.of_nat k * EvidenceSize r) 0); [nia|].
    cbn [sum_bind]. do 5 f_equal. unfold size. lia.
  - by rewrite !length_fmap, length_seq.
  - rewrite <-join_fmap_list, pages_cover, take_ge; [done|]. unfold rows, size. rewrite sort_by_length. nia.
Qed.

(** ** Examples *)

Module Sample.
Definition noon : time := 63900000000 * Second.
Definition minute (n : Z) : time := noon + n * Minute.

Definition seen (mac bssid sensor : string) (n : Z) : SummaryRow := {|
  window_start := minute n; s_sensor_id := sensor; s_location_id := None; s_bssid := bssid; s_source_mac := mac;
  frame_count := 1; rssi_sample_count := 0; rssi_min_dbm := None; rssi_max_dbm := None; rssi_avg_dbm := None;
  first_observed_at := minute n; last_observed_at := minute n |}.

Definition store (rows : list SummaryRow) : evidence_store := {|
  summaries := rows; display_names := ∅; asset_annotations := ∅; graph_edges := []; documents := []; watermarks := None |}.

Definition request (nodes edges : Z) : InvestigationRequest := {|
  Anchor := {| AnchorKind := ""; AnchorID := "" |}; APBSSID := ""; DeviceMAC := ""; LocationIDs := []; SensorIDs := [];
  SSID := ""; ObservedAfter := None; ObservedBefore := None; NodeLimit := nodes; EdgeLimit := edges; EvidencePage := 0;
  EvidenceSize := 0 |}.

Definition up (s : statement) : option error := None.

Definition ap1 : string := "02:00:00:00:00:01".
Definition ap2 : string := "02:00:00:00:00:02".
Definition dev (c : ascii) : string := "0a:00:00:00:00:0" +:+ String c "".

(** Two devices share one window at three sensors, two others two windows at two. *)
Definition crowded : list SummaryRow :=
  [seen (dev "1") ap1 "s1" 0; seen (dev "1") ap1 "s2" 0; seen (dev "1") ap1 "s3" 0;
   seen (dev "2") ap1 "s1" 0; seen (dev "2") ap1 "s2" 0; seen (dev "2") ap1 "s3" 0;
   seen (dev "3") ap1 "s1" 5; seen (dev "3") ap1 "s2" 10; seen (dev "4") ap1 "s1" 5; seen (dev "4") ap1 "s2" 10].

Definition answer (rows : list SummaryRow) (nodes edges : Z) : InvestigationResponse + app_error :=
  Investigation (store rows) up (minute 60) (minute 60) (request nodes edges).
End Sample.

(** The limit is applied to the pairs before the threshold: with room for one
    more link, a pair of many sensors and one window hides the pair that
    qualifies, and proximity is reported as unknown. *)
Lemma rf_limit_hides_pair :
  match Sample.answer Sample.crowded 200 5, Sample.answer Sample.crowded 200 6 with
  | inl a, inl b => RFProximity (Found a) = "unknown" /\ RFProximity (Found b) = "inferred"
  | _, _ => False
  end.
Proof. vm_compute. by split. Qed.

(** A device observed at two access points carries the times of the older one. *)
Lemma device_times_of_older_ap :
  match Sample.answer [Sample.seen (Sample.dev "1") Sample.ap1 "s1" 30; Sample.seen (Sample.dev "1") Sample.ap2 "s1" 0] 200 400 with
  | inl a => map NodeLastSeen (List.filter (fun n => String.eqb (NodeKind n) "device") (Nodes (Found a))) = [Some (Sample.minute 0)]
             /\ map MemberLast (Roster (Found a)) = [Sample.minute 30; Sample.minute 0]
  | inr _ => False
  end.
Proof. vm_compute. by split. Qed.

(** One row of the roster makes two nodes, and the links of the roster ignore
    the edge limit. *)
Lemma roster_over_budget :
  match Sample.answer Sample.crowded 4 1 with
  | inl a => length (Nodes (Found a)) = 5%nat /\ length (Links (Found a)) = 4%nat
  | inr _ => False
  end.
Proof. vm_compute. by split. Qed.

(** Without a shared window there is no reason at all. *)
Lemma no_overlap_no_reason :
  match Sample.answer [Sample.seen (Sample.dev "1") Sample.ap1 "s1" 0; Sample.seen (Sample.dev "2") Sample.ap1 "s2" 0] 200 400 with
  | inl a => RFProximity (Found a) = "unknown" /\ rfProximityReason (Found a) = ""
  | inr _ => False
  end.
Proof. vm_compute. by split. Qed.

Definition sample_request : InvestigationRequest :=
  Eval vm_compute in
    match NormalizeInvestigationRequest (Sample.minute 60) (Sample.request 200 400) with inl r => r | inr _ => Sample.request 200 400 end.

Definition small_response : option InvestigationResponse :=
  Eval vm_compute in match Sample.answer Sample.crowded 4 1 with inl a => Some a | inr _ => None end.

(** A report of at most four rows and one link: five nodes and four links. *)
Lemma investigation_closed_witness :
  exists resp, small_response = Some resp /\ length (Nodes (Found resp)) = 5%nat /\
    length (Links (Found resp)) = 4%nat /\ joins (NodeID <$> Nodes (Found resp)) (Links (Found resp)) /\
    exists nodes, granted 4 200 nodes /\ Z.of_nat (length (Roster (Found resp))) <= nodes.
Proof.
  eexists. split; [reflexivity|]. split; [reflexivity|]. split; [reflexivity|].
  match goal with |- joins _ (Links (Found ?r)) /\ _ =>
    destruct (investigation_closed (Sample.store Sample.crowded) Sample.up (Sample.minute 60) (Sample.minute 60)
      (Sample.request 4 1) r ltac:(vm_compute; reflexivity)) as (nodes & edges & size & Hg & _ & _ & Hrows & _ & _ & Hj & _)
  end.
  exact (conj Hj (ex_intro _ nodes (conj Hg Hrows))).
Defined.

Definition sample_findings : findings :=
  Eval vm_compute in
    match investigationRoster (Sample.store Sample.crowded) Sample.up sample_request (Sample.minute 0) no_findings with
    | inl f => f | inr _ => no_findings end.

Definition sample_linked : findings :=
  Eval vm_compute in
    match investigationRFSimilarityLinks (Sample.store Sample.crowded) Sample.up sample_request (Sample.minute 0) sample_findings with
    | inl f => f | inr _ => no_findings end.

Lemma rf_similarity_exact_witness :
  exists left right, proximate (Sample.store Sample.crowded) sample_request (fst (nodeIdentifiers (Nodes sample_findings))) left right.
Proof.
  destruct (rf_similarity_exact (Sample.store Sample.crowded) Sample.up sample_request (Sample.minute 0) sample_findings
    sample_linked ltac:(vm_compute; reflexivity) ltac:(vm_compute; lia) ltac:(vm_compute; reflexivity)
    ltac:(vm_compute; discriminate) ltac:(reflexivity)) as (links & _ & _ & H).
  apply (proj1 H). reflexivity.
Defined.

Lemma evidence_pages_cover_witness :
  exists pages, length pages = 3%nat /\
    mjoin pages = evidence_of <$> sort_by evidence_less (in_scope (Sample.store Sample.crowded) sample_request).
Proof.
  destruct (evidence_pages_cover (Sample.store Sample.crowded) Sample.up sample_request 3 eq_refl eq_refl
    ltac:(vm_compute; reflexivity) ltac:(vm_compute; reflexivity) ltac:(vm_compute; discriminate)) as (pages & _ & Hl & Hj).
  exists pages. exact (conj Hl Hj).
Defined.
