(* ===== verification/Network.v ===== *)
(** * The network report (reporting/network.go)

    Access points by how many identifiers were observed at them, and the roster
    of one access point with its graph, in pages over one evidence set. *)

From S2P Require Import Prelude GoErrors GoStrings GoSort GoFloats GoCrypto QueryScope ReportMeta Pagination Annotations Graph.
From S2P Require Import GraphTree GraphPages SqlGroup Investigation.
From Stdlib Require Import Sorted.
#[local] Open Scope go_scope.

(** ** Data *)

Record NetworkFilters := {
  NetLocationIDs : list string;
  NetSensorIDs : list string;
  NetObservedAfter : option time;
  NetObservedBefore : option time;
  SourceMAC : string;
  SourceMACs : list string;
  NetSSID : string;
  Query : string;
  NetAPBSSID : string;
  NetPageSize : Z;
  NetPageCursor : string;
  IncludeHints : bool;
}.

Record AccessPointOverview := {
  BSSID : string;
  Name : string;
  IdentifierCount : Z;
  FirstObserved : time;
  LastObserved : time;
  EvidenceStatus : string;
}.

Record NetworkResponse := {
  AccessPoints : list AccessPointOverview;
  NetRoster : list RosterMember;
  NetNodes : list GraphNode;
  NetEdges : list GraphEdge;
  NetGeneratedAt : time;
  NetNextPageCursor : string;
  NetTotalRows : Z;
  NetFocusReason : string;
  Report : Metadata NetworkFilters;
}.

(** ** Requests *)

Definition with_page (cursor : string) (size : Z) (f : NetworkFilters) : NetworkFilters := {|
  NetLocationIDs := NetLocationIDs f; NetSensorIDs := NetSensorIDs f; NetObservedAfter := NetObservedAfter f;
  NetObservedBefore := NetObservedBefore f; SourceMAC := SourceMAC f; SourceMACs := SourceMACs f; NetSSID := NetSSID f;
  Query := Query f; NetAPBSSID := NetAPBSSID f; NetPageSize := size; NetPageCursor := cursor;
  IncludeHints := IncludeHints f |}.

Definition network_page_size (size : Z) : Z :=
  let size := if size <=? 0 then 50 else size in if 199 <? size then 199 else size.

Definition normalize_network (f : NetworkFilters) : NetworkFilters + app_error :=
  let f := {|
    NetLocationIDs := NormalizeGraphList (NetLocationIDs f); NetSensorIDs := NormalizeGraphList (NetSensorIDs f);
    NetObservedAfter := NetObservedAfter f; NetObservedBefore := NetObservedBefore f;
    SourceMAC := ToLower (TrimSpace (SourceMAC f)); SourceMACs := NormalizeLowerList (SourceMACs f);
    NetSSID := TrimSpace (NetSSID f); Query := TrimSpace (Query f); NetAPBSSID := ToLower (TrimSpace (NetAPBSSID f));
    NetPageSize := network_page_size (NetPageSize f); NetPageCursor := NetPageCursor f;
    IncludeHints := IncludeHints f |} in
  if negb (is_empty (NetAPBSSID f)) && negb (MacPattern (NetAPBSSID f))
  then inr (Validation "unsupported graph kind: invalid AP BSSID")
  else if match NetObservedAfter f, NetObservedBefore f with Some a, Some b => negb (a <? b) | _, _ => false end
  then inr (Validation "observed_after must be before observed_before")
  else inl f.

(** ** The evidence *)

Section network.
Context {J : GraphJSON} {C : CursorCodec} {RJ : RequestJSON NetworkFilters}.
Context (st : evidence_store) (graph : graph_store) (now : time).

Definition display_name (mac : string) : option string := mjoin (display_names st !! mac).

(** The conditions of networkEvidence on a row of search_documents. *)
Definition networkEvidence (f : NetworkFilters) (row : event_row) : bool :=
  let d := doc row in
  String.eqb (doc_source_kind row) "event" && String.eqb (doc_status row) "active"
  && clause_holds display_name d QualifyingAP
  && in_list (NetLocationIDs f) (c_location_id d) && in_list (NetSensorIDs f) (c_sensor_id d)
  && in_list (NormalizeLowerList (SourceMACs f ++ [SourceMAC f])) (c_source_mac d)
  && (is_empty (NetAPBSSID f) || is_true (c_bssid d) (fun b => String.eqb b (NetAPBSSID f)))
  && match NetObservedAfter f with Some t => is_true (c_observed_at d) (fun o => t <=? o) | None => true end
  && match NetObservedBefore f with Some t => is_true (c_observed_at d) (fun o => o <? t) | None => true end
  && (is_empty (Query f) || clause_holds display_name d (EntityScope (ToLower (Query f))))
  && (is_empty (NetSSID f) || Contains (ToLower (coalesce (c_ssid d))) (ToLower (NetSSID f))).

Definition evidence (f : NetworkFilters) : list event_row := List.filter (networkEvidence f) (documents st).

(** The columns of the evidence, none of which is null there. *)
Definition e_bssid (row : event_row) : string := coalesce (c_bssid (doc row)).
Definition e_mac (row : event_row) : string := coalesce (c_source_mac (doc row)).
Definition e_time (row : event_row) : time := default time_zero (c_observed_at (doc row)).

Definition null_time (f : list Z -> Z) (l : list Z) : option time := match l with [] => None | _ => Some (f l) end.

(** [MAX] of texts, where there is one. *)
Definition max_text (l : list string) : option string :=
  match l with [] => None | x :: l => Some (fold_left (fun a b => if str_ltb a b then b else a) l x) end.

(** ** Access points *)

Definition overview_of (rows : list event_row) (bssid : string) : AccessPointOverview :=
  let group := members e_bssid rows bssid in
  {| BSSID := bssid; Name := default "" (max_text (omap (fun row => QueryScope.null_if_empty (c_ssid (doc row))) group));
     IdentifierCount := count_distinct e_mac group; FirstObserved := min_of (e_time <$> group);
     LastObserved := max_of (e_time <$> group);
     EvidenceStatus := "searchable evidence; freshness and capture coverage unverified" |}.

Definition overviews (f : NetworkFilters) : list AccessPointOverview :=
  overview_of (evidence f) <$> group_keys e_bssid (evidence f).

(** [ORDER BY COUNT(DISTINCT source_mac) DESC,bssid ASC] *)
Definition overview_less : AccessPointOverview -> AccessPointOverview -> bool :=
  less_then IdentifierCount (flip_less Z.ltb) id (less_on BSSID str_ltb).

(** [HAVING count < c OR (count = c AND bssid > b)], once there is a cursor. *)
Definition overview_after (c : pageCursor) (ap : AccessPointOverview) : bool :=
  is_empty (NodeAfter c)
  || (IdentifierCount ap <? CountAfter c)
  || ((IdentifierCount ap =? CountAfter c) && str_ltb (NodeAfter c) (BSSID ap)).

Definition with_node_after (bssid : string) (count : Z) (c : pageCursor) : pageCursor := {|
  Version := Version c; Resource := Resource c; Fingerprint := Fingerprint c; NodeAfter := bssid;
  EdgeAfter := EdgeAfter c; DeviceAfter := DeviceAfter c; TimeAfter := TimeAfter c; CountAfter := count;
  NodesDone := NodesDone c; EdgesDone := EdgesDone c |}.

(** Rows behind a cursor in an order, one more than a page, and the cursor that
    stands behind the page when the extra row is there. *)
Definition keyset_page {A} (less : A -> A -> bool) (after : pageCursor -> A -> bool)
    (move : A -> pageCursor -> pageCursor) (size : Z) (c : pageCursor) (rows : list A) : list A * string :=
  let '(page, more) := cut_page size (ordered less (size + 1) (List.filter (after c) rows)) in
  (page, if more then match last page with Some end_ => encodePageCursor (move end_ c) | None => "" end else "").

Definition overview_page (f : NetworkFilters) (c : pageCursor) : list AccessPointOverview * string :=
  keyset_page overview_less overview_after (fun end_ => with_node_after (BSSID end_) (IdentifierCount end_))
    (NetPageSize f) c (overviews f).

(** ** The roster of an access point *)

Definition member_of (rows : list event_row) (mac : string) : RosterMember :=
  let group := members e_mac rows mac in
  {| MemberMAC := mac; MemberName := default "" (display_name mac); MemberFirst := min_of (e_time <$> group);
     MemberLast := max_of (e_time <$> group); MemberRecords := count_distinct doc_id group |}.

Definition roster (f : NetworkFilters) : list RosterMember := member_of (evidence f) <$> group_keys e_mac (evidence f).

Definition with_device_after (mac : string) (c : pageCursor) : pageCursor := {|
  Version := Version c; Resource := Resource c; Fingerprint := Fingerprint c; NodeAfter := NodeAfter c;
  EdgeAfter := EdgeAfter c; DeviceAfter := mac; TimeAfter := TimeAfter c; CountAfter := CountAfter c;
  NodesDone := NodesDone c; EdgesDone := EdgesDone c |}.

(** [ORDER BY e.source_mac] *)
Definition member_less : RosterMember -> RosterMember -> bool := less_on MemberMAC str_ltb.

(** [WHERE e.source_mac > m], once there is a cursor. *)
Definition member_after (c : pageCursor) (m : RosterMember) : bool :=
  is_empty (DeviceAfter c) || str_ltb (DeviceAfter c) (MemberMAC m).

Definition roster_page (f : NetworkFilters) (c : pageCursor) : list RosterMember * string :=
  keyset_page member_less member_after (fun end_ => with_device_after (MemberMAC end_)) (NetPageSize f) c (roster f).

(** *** Its graph *)

Definition member_node (m : RosterMember) : GraphNode :=
  plain_node (device_id (MemberMAC m)) "device" (if is_empty (MemberName m) then MemberMAC m else MemberName m) (MemberMAC m)
    "" None (Some (MemberFirst m)) (Some (MemberLast m)).

Definition member_edge (bssid : string) (m : RosterMember) : GraphEdge := {|
  EvidenceStart := None; EvidenceEnd := None; ExpiresAt := None; Graph.ProjectionWatermark := None; ProjectedAt := None;
  Range := None; EdgeID := "observed:" +:+ MemberMAC m +:+ ":" +:+ bssid; Source := device_id (MemberMAC m);
  Target := ap_id bssid; EdgeKind := "association"; Weight := Some (f64_of_Z (MemberRecords m));
  WeightBasis := "searchable_record_count"; EdgeLabel := "Observed AP context"; TreeRole := "" |}.

Definition hint_kinds : list string := ["cluster_member"; "rf_proximity"; "roaming"; "same_channel"; "vendor_link"].

Definition hint_filters : GraphFilters := {|
  Hierarchy := false; RootBSSID := ""; RootNodeID := ""; Projection := ""; IncludeIdentity := false;
  Graph.LocationIDs := []; Graph.SensorIDs := []; FilterMAC := ""; FilterSSID := ""; FilterKinds := [];
  EdgeKinds := hint_kinds; FilterThreatOnly := false; After := None; Before := None; Hops := 0; Limit := 200;
  Scope := ""; PageCursor := ""; PageSize := 0 |}.

(** The identity clusters that the hints name as targets and the nodes lack. *)
Definition cluster_ids (nodes : list GraphNode) (hints : list GraphEdge) : list string :=
  missing_ids (ids_of nodes) (Target <$> List.filter (fun e => String.eqb (EdgeKind e) "cluster_member") hints).

Definition cluster_rows (nodes : list GraphNode) (hints : list GraphEdge) : list graphNodeRow :=
  let ids := cluster_ids nodes hints in
  let budget := 200 - Z.of_nat (length nodes) in
  if (0 <? Z.of_nat (length ids)) && (0 <? budget)
  then ordered (less_on row_node_id str_ltb) budget
         (List.filter (fun r => String.eqb (row_node_kind r) "identity_cluster" && bool_decide (row_node_id r ∈ ids))
            (legacy_nodes graph))
  else [].

(** Clusters up to 200 nodes, and the hints between known nodes. *)
Definition add_hints (nodes : list GraphNode) (edges : list GraphEdge) : list GraphNode * list GraphEdge :=
  let hints := fetchGraphEdges graph now hint_filters nodes true in
  let clusters := cluster_rows nodes hints in
  let keep := ids_of nodes ++ (row_node_id <$> clusters) in
  (nodes ++ (graphNodeFromRow <$> clusters),
   edges ++ List.filter (fun e => bool_decide (Source e ∈ keep) && bool_decide (Target e ∈ keep)) hints).

Definition focus_node (bssid : string) (last : option time) : GraphNode :=
  plain_node (ap_id bssid) "ap" bssid "" bssid last None None.

Definition roster_graph (f : NetworkFilters) (last : option time) (page : list RosterMember)
    : list GraphNode * list GraphEdge :=
  let nodes := focus_node (NetAPBSSID f) last :: (member_node <$> page) in
  let edges := member_edge (NetAPBSSID f) <$> page in
  if IncludeHints f then add_hints nodes edges else (nodes, edges).

(** ** The report *)

Definition network_basis : string :=
  "retained active searchable wireless records; unknown roles included, self/broadcast/unspecified addresses excluded; multi-AP identifiers count at each AP".

Definition network_meta (identity : NetworkFilters) (grain meaning : string) (first last : option time)
    (loaded total : Z) : Metadata NetworkFilters :=
  observed_between first last (New identity grain meaning network_basis loaded (Some total)).

Definition no_focus_reason : string :=
  "No qualifying AP evidence in the selected searchable scope. Capture coverage is unverified.".

(** The statements of the transaction, for normalized filters at a cursor. *)
Definition network_report (f : NetworkFilters) (c : pageCursor) : NetworkResponse :=
  let identity := with_page "" 0 f in
  let first := null_time min_of (e_time <$> evidence f) in
  let last := null_time max_of (e_time <$> evidence f) in
  if is_empty (NetAPBSSID f) then
    let total := count_distinct e_bssid (evidence f) in
    let '(page, next) := overview_page f c in
    {| AccessPoints := page; NetRoster := []; NetNodes := []; NetEdges := []; NetGeneratedAt := now;
       NetNextPageCursor := next; NetTotalRows := total; NetFocusReason := "";
       Report := network_meta identity "access point BSSID"
                   "APs with qualifying searchable wireless records; per-AP counts are distinct MACs" first last
                   (Z.of_nat (length page)) total |}
  else
    let total := count_distinct e_mac (evidence f) in
    let '(page, next) := roster_page f c in
    let '(nodes, edges) := if 0 <? total then roster_graph f last page else ([], []) in
    {| AccessPoints := []; NetRoster := page; NetNodes := nodes; NetEdges := edges; NetGeneratedAt := now;
       NetNextPageCursor := next; NetTotalRows := total; NetFocusReason := if total =? 0 then no_focus_reason else "";
       Report := network_meta identity "observed MAC identifier"
                   "distinct qualifying source MACs for the selected AP" first last
                   (Z.of_nat (length page)) total |}.

Definition Network (filters : NetworkFilters) : NetworkResponse + app_error :=
  let! f := normalize_network filters in
  let! fingerprint := plain (pageFingerprint (with_page "" 0 f)) in
  let! cursor := decodePageCursor (NetPageCursor f) "network" fingerprint in
  inl (network_report f cursor).
End network.

(** ** Properties *)

(** *** The evidence *)

Section evidence.
Context (st : evidence_store).

Lemma evidence_qualifies f row :
  row ∈ evidence st f -> exists m b t, c_source_mac (doc row) = Some m /\ c_bssid (doc row) = Some b /\
    c_observed_at (doc row) = Some t /\ MacPattern m = true /\ MacPattern b = true.
Proof.
  unfold evidence. rewrite filter_elem. intros [_ H]. unfold networkEvidence in H. repeat (apply andb_prop in H as [H ?]).
  match goal with H0 : clause_holds _ _ QualifyingAP = true |- _ => rename H0 into Hq end. simpl in Hq.
  destruct (c_source_mac (doc row)) as [m|]; [|done]. destruct (c_bssid (doc row)) as [b|]; [|done]. simpl in Hq.
  unfold qualifying_ap in Hq. repeat (apply andb_prop in Hq as [Hq ?]). apply bool_decide_eq_true in Hq as [t Ht].
  exists m, b, t. done.
Qed.

Lemma evidence_mac f row : row ∈ evidence st f -> e_mac row <> "".
Proof.
  intros (m & b & t & Em & _ & _ & Hm & _)%evidence_qualifies. unfold e_mac. rewrite Em. cbn. by intros ->.
Qed.

Lemma evidence_bssid f row : row ∈ evidence st f -> e_bssid row <> "".
Proof.
  intros (m & b & t & _ & Eb & _ & _ & Hb)%evidence_qualifies. unfold e_bssid. rewrite Eb. cbn. by intros ->.
Qed.

Lemma overview_ids f : BSSID <$> overviews st f = group_keys e_bssid (evidence st f).
Proof. unfold overviews. rewrite <-list_fmap_compose. apply list_fmap_id. Qed.

Lemma roster_macs f : MemberMAC <$> roster st f = group_keys e_mac (evidence st f).
Proof. unfold roster. rewrite <-list_fmap_compose. apply list_fmap_id. Qed.

Lemma overview_bssid f ap : ap ∈ overviews st f -> BSSID ap <> "".
Proof.
  intros H. apply (list_elem_of_fmap_2 BSSID) in H. rewrite overview_ids in H.
  apply group_keys_elem in H as (row & Hr & <-). by eapply evidence_bssid.
Qed.

Lemma roster_mac f m : m ∈ roster st f -> MemberMAC m <> "".
Proof.
  intros H. apply (list_elem_of_fmap_2 MemberMAC) in H. rewrite roster_macs in H.
  apply group_keys_elem in H as (row & Hr & <-). by eapply evidence_mac.
Qed.

Lemma overviews_NoDup f : NoDup (BSSID <$> overviews st f).
Proof. rewrite overview_ids. apply group_keys_NoDup. Qed.

Lemma roster_NoDup f : NoDup (MemberMAC <$> roster st f).
Proof. rewrite roster_macs. apply group_keys_NoDup. Qed.
End evidence.

(** *** The order of a listing *)

Lemma overview_after_less x y c :
  BSSID x <> "" -> overview_after (with_node_after (BSSID x) (IdentifierCount x) c) y = overview_less x y.
Proof.
  intros Hx. unfold overview_after, overview_less, less_then, less_on, flip_less, id. cbn [NodeAfter CountAfter with_node_after].
  destruct (is_empty (BSSID x)) eqn:E; [by apply is_empty_true in E|]. cbn [orb].
  destruct (Z.ltb_spec (IdentifierCount y) (IdentifierCount x)); [done|].
  destruct (Z.ltb_spec (IdentifierCount x) (IdentifierCount y)), (Z.eqb_spec (IdentifierCount y) (IdentifierCount x)); try lia; done.
Qed.

Lemma overview_less_total x y :
  overview_less x y = false -> overview_less y x = false -> BSSID x = BSSID y.
Proof.
  unfold overview_less, less_then, less_on, flip_less, id.
  destruct (Z.ltb_spec (IdentifierCount y) (IdentifierCount x)); [done|].
  destruct (Z.ltb_spec (IdentifierCount x) (IdentifierCount y)); [done|]. intros. by apply str_ltb_total.
Qed.

Lemma member_after_less x y c :
  MemberMAC x <> "" -> member_after (with_device_after (MemberMAC x) c) y = member_less x y.
Proof.
  intros Hx. unfold member_after, member_less, less_on. cbn [DeviceAfter with_device_after].
  destruct (is_empty (MemberMAC x)) eqn:E; [by apply is_empty_true in E|done].
Qed.

(** A page behind the first [i] rows. *)
Lemma keyset_page_at `{CursorCodec} {A} (less : A -> A -> bool) `{!WeakOrder less} after move size c rows i :
  let whole := sort_by less rows in
  0 < size -> List.filter (after c) whole = drop i whole ->
  keyset_page less after move size c rows
  = (take (Z.to_nat size) (drop i whole),
     if rows_left whole (Z.to_nat size) i
     then match whole !! (i + Z.to_nat size - 1)%nat with Some e => encodePageCursor (move e c) | None => "" end
     else "").
Proof.
  intros whole Hs Hf. unfold keyset_page, ordered. rewrite sort_by_filter by done. fold whole. rewrite Hf. unfold cut_page, rows_left.
  destruct (Nat.ltb_spec (Z.to_nat size) (length (drop i whole))) as [Hm|Hm].
  - rewrite (proj2 (Z.ltb_lt _ _)) by (rewrite length_take; lia). rewrite take_take, Nat.min_l by lia. f_equal.
    rewrite last_lookup, length_take, Nat.min_l by lia. rewrite lookup_take_lt by lia. rewrite lookup_drop.
    by replace (i + Nat.pred (Z.to_nat size))%nat with (i + Z.to_nat size - 1)%nat by lia.
  - rewrite (proj2 (Z.ltb_ge _ _)) by (rewrite length_take; lia). by rewrite !take_ge by lia.
Qed.

(** *** Following the cursors *)

Lemma page_size_bounds size : 1 <= network_page_size size <= 199.
Proof. unfold network_page_size. destruct (Z.leb_spec size 0), (Z.ltb_spec 199 size); simpl; lia. Qed.

Section pages.
Context {J : GraphJSON} {C : CursorCodec} {RJ : RequestJSON NetworkFilters} {L : CursorLaws}.
Context (st : evidence_store) (graph : graph_store) (now : time).

(** The page of a request at a cursor. *)
Definition network_at (f : NetworkFilters) (cursor : string) : option NetworkResponse :=
  match Network st graph now (with_page cursor (NetPageSize f) f) with inl page => Some page | inr _ => None end.

Context (f g : NetworkFilters) (fp : string).
Context (Hnorm : normalize_network f = inl g) (Hfp : pageFingerprint (with_page "" 0 g) = inl fp).

Lemma normalized_size : 1 <= NetPageSize g <= 199.
Proof.
  clear Hfp. unfold normalize_network in Hnorm. destruct (_ && _) in Hnorm; [done|].
  destruct (match _ with Some _ => _ | None => _ end) in Hnorm; [done|]. injection Hnorm as <-. apply page_size_bounds.
Qed.

Lemma normalize_at cursor :
  normalize_network (with_page cursor (NetPageSize f) f) = inl (with_page cursor (NetPageSize g) g).
Proof.
  clear Hfp. revert Hnorm. unfold normalize_network.
  cbn [NetLocationIDs NetSensorIDs NetObservedAfter NetObservedBefore SourceMAC SourceMACs NetSSID Query NetAPBSSID NetPageSize
    NetPageCursor IncludeHints with_page].
  destruct (_ && _); [done|]. destruct (match _ with Some _ => _ | None => _ end); [done|]. by intros [= <-].
Qed.

Lemma network_at_cursor cursor c :
  decodePageCursor cursor "network" fp = inl c ->
  network_at f cursor = Some (network_report st graph now (with_page cursor (NetPageSize g) g) c).
Proof.
  intros Hc. unfold network_at, Network. rewrite normalize_at. cbn [sum_bind].
  change (with_page "" 0 (with_page cursor (NetPageSize g) g)) with (with_page "" 0 g). rewrite Hfp. cbn [plain sum_bind].
  change (NetPageCursor (with_page cursor (NetPageSize g) g)) with cursor. by rewrite Hc.
Qed.

(** A listing of the report: its rows, their order and cursors, and where a
    page shows them. *)
Section listing.
Context {A : Type} (less : A -> A -> bool) `{!WeakOrder less} (after : pageCursor -> A -> bool).
Context (move : A -> pageCursor -> pageCursor) (rows : list A) (items : NetworkResponse -> list A) (total : Z).
Let whole := sort_by less rows.
Context (Hreport : forall cursor c, let r := network_report st graph now (with_page cursor (NetPageSize g) g) c in
  (items r, NetNextPageCursor r) = keyset_page less after move (NetPageSize g) c rows /\ NetTotalRows r = total).
Context (Hfirst : List.filter (after (first_cursor "network" fp)) whole = whole).
Context (Hafter : forall x j c, whole !! j = Some x -> List.filter (after (move x c)) whole = drop (S j) whole).
Context (Hmove : forall x c, Version (move x c) = Version c /\ Resource (move x c) = Resource c /\
  Fingerprint (move x c) = Fingerprint c).

Definition listing_at (i : nat) (cursor : string) : Prop :=
  exists c, decodePageCursor cursor "network" fp = inl c /\ List.filter (after c) whole = drop i whole.

Lemma listing_step i cursor :
  listing_at i cursor ->
  exists page, network_at f cursor = Some page /\
    (items page = take (Z.to_nat (NetPageSize g)) (drop i whole) /\ NetTotalRows page = total) /\
    if rows_left whole (Z.to_nat (NetPageSize g)) i
    then NetNextPageCursor page <> "" /\ listing_at (i + Z.to_nat (NetPageSize g)) (NetNextPageCursor page) /\
         (length (drop (i + Z.to_nat (NetPageSize g)) whole) < length (drop i whole))%nat
    else NetNextPageCursor page = "".
Proof.
  intros (c & Hd & Hc). pose proof normalized_size as Hs. eexists. split; [by apply network_at_cursor|].
  destruct (Hreport cursor c) as [Hp Ht]. set (r := network_report _ _ _ _ _) in *. clearbody r.
  rewrite (keyset_page_at less after move (NetPageSize g) c rows i) in Hp by (lia || done). injection Hp as -> Hnext. fold whole in Hnext |- *.
  split; [done|]. unfold rows_left in Hnext |- *.
  destruct (Nat.ltb_spec (Z.to_nat (NetPageSize g)) (length (drop i whole))) as [Hm|Hm]; [|done].
  rewrite length_drop in Hm. destruct (whole !! _) as [x|] eqn:Ex in Hnext; [|apply lookup_ge_None in Ex; lia].
  destruct (decode_foreign _ _ _ _ Hd) as (Hv & Hr & Hf). destruct (Hmove x c) as (Ev & Er & Ef).
  destruct (decode_encoded (move x c) "network" fp) as [Hne Hdec]; [by rewrite Ev|by rewrite Er|by rewrite Ef|].
  rewrite Hnext. split; [intros E; by rewrite E in Hne|]. split; [|rewrite !length_drop; lia].
  exists (move x c). split; [done|]. rewrite (Hafter x _ c Ex). f_equal. lia.
Qed.

Lemma listing_cover :
  exists pages, follow NetNextPageCursor (network_at f) (S (length rows)) "" = Some pages /\
    (pages ≫= items) = whole /\
    Forall (fun page => Z.of_nat (length (items page)) <= 199 /\ NetTotalRows page = total) pages.
Proof.
  pose proof normalized_size as Hs.
  destruct (follow_trail NetNextPageCursor (network_at f) listing_at (rows_left whole (Z.to_nat (NetPageSize g)))
    (fun i => (i + Z.to_nat (NetPageSize g))%nat) (fun i => length (drop i whole))
    (fun i page => items page = take (Z.to_nat (NetPageSize g)) (drop i whole) /\ NetTotalRows page = total)
    listing_step (S (length rows)) 0%nat "") as (pages & Hp & Ht).
  { exists (first_cursor "network" fp). by rewrite drop_0. }
  { rewrite drop_0. unfold whole. rewrite sort_by_length. lia. }
  destruct (trail_chunks whole _ (fun chunk page => items page = chunk /\ NetTotalRows page = total) _ _ Ht)
    as (chunks & Hf & Hj & Hl). rewrite drop_0 in Hj.
  exists pages. split; [done|]. clear Ht Hp. rewrite <-Hj. clear Hj. induction Hf as [|chunk page chunks pages [E Et] _ IH]; [done|].
  apply Forall_cons in Hl as [Hc Hl]. destruct (IH Hl) as [Hb Hp]. split; [by rewrite bind_cons, E, Hb|].
  constructor; [split; [rewrite E; lia|done]|done].
Qed.
End listing.
End pages.

Section reports.
Context {J : GraphJSON} {C : CursorCodec} {RJ : RequestJSON NetworkFilters} {L : CursorLaws}.
Context (st : evidence_store) (graph : graph_store) (now : time).

(** C32. Access points come in pages.  A client that follows the cursors of a report
    without a focus stops after at most one page per access point and has each
    access point with qualifying evidence exactly once, by how many identifiers
    were observed at it and then by BSSID; every page holds at most 199 and says
    how many there are. *)
Theorem access_points_cover f g fp :
  normalize_network f = inl g -> NetAPBSSID g = "" -> pageFingerprint (with_page "" 0 g) = inl fp ->
  exists pages ranked,
    follow NetNextPageCursor (network_at st graph now f) (S (length (overviews st g))) "" = Some pages /\
    (pages ≫= AccessPoints) = ranked /\ ranked ≡ₚ overviews st g /\ StronglySorted (before overview_less) ranked /\
    NoDup (BSSID <$> ranked) /\
    (forall b, b ∈ BSSID <$> ranked <-> exists row, row ∈ evidence st g /\ e_bssid row = b) /\
    Forall (fun page => Z.of_nat (length (AccessPoints page)) <= 199 /\
                        NetTotalRows page = Z.of_nat (length (overviews st g))) pages.
Proof.
  intros Hn Hb Hfp. set (ranked := sort_by overview_less (overviews st g)).
  assert (Hperm : ranked ≡ₚ overviews st g) by apply sort_by_perm.
  assert (Hids : BSSID <$> ranked ≡ₚ group_keys e_bssid (evidence st g)) by (by rewrite Hperm, overview_ids).
  destruct (listing_cover st graph now f g fp Hn Hfp overview_less overview_after
    (fun x => with_node_after (BSSID x) (IdentifierCount x)) (overviews st g) AccessPoints
    (Z.of_nat (length (overviews st g)))) as (pages & Hf & He & Hl).
  - intros cursor c. unfold network_report. change (NetAPBSSID (with_page cursor (NetPageSize g) g)) with (NetAPBSSID g).
    rewrite Hb. change (is_empty "") with true. cbv match beta zeta. destruct (overview_page st _ c) as [page next] eqn:Ep.
    cbn [AccessPoints NetNextPageCursor NetTotalRows]. split; [by rewrite <-Ep|]. by rewrite <-(length_fmap BSSID (overviews st g)), overview_ids.
  - apply List.forallb_filter_id, List.forallb_forall. done.
  - intros x j c Hx. rewrite <-(sort_by_after overview_less (overviews st g) j x); [| |..|exact Hx].
    + apply List.filter_ext. intros y. apply overview_after_less. apply (overview_bssid st g), (sort_by_elem overview_less).
      by eapply list_elem_of_lookup_2.
    + apply (NoDup_fmap_1 BSSID), overviews_NoDup.
    + intros a b Ha Hb' Hab Hba. apply (NoDup_key_inj BSSID (overviews st g)); [apply overviews_NoDup|done|done|].
      by apply overview_less_total.
  - done.
  - exists pages, ranked. split_and!; [exact Hf|exact He|exact Hperm|apply sort_by_sorted, _|by rewrite Hids; apply group_keys_NoDup| |exact Hl].
    intros b. rewrite Hids. apply group_keys_elem.
Qed.

(** The roster of an access point comes in pages.  A client that follows the
    cursors has every identifier with qualifying evidence at the access point
    exactly once, in the order of their MACs, in pages of at most 199. *)
Theorem roster_cover f g fp :
  normalize_network f = inl g -> NetAPBSSID g <> "" -> pageFingerprint (with_page "" 0 g) = inl fp ->
  exists pages members,
    follow NetNextPageCursor (network_at st graph now f) (S (length (roster st g))) "" = Some pages /\
    (pages ≫= NetRoster) = members /\ members ≡ₚ roster st g /\ StronglySorted (before member_less) members /\
    NoDup (MemberMAC <$> members) /\
    (forall m, m ∈ MemberMAC <$> members <-> exists row, row ∈ evidence st g /\ e_mac row = m) /\
    Forall (fun page => Z.of_nat (length (NetRoster page)) <= 199 /\
                        NetTotalRows page = Z.of_nat (length (roster st g))) pages.
Proof.
  intros Hn Hb Hfp. set (members := sort_by member_less (roster st g)).
  assert (Hperm : members ≡ₚ roster st g) by apply sort_by_perm.
  assert (Hids : MemberMAC <$> members ≡ₚ group_keys e_mac (evidence st g)) by (by rewrite Hperm, roster_macs).
  destruct (listing_cover st graph now f g fp Hn Hfp member_less member_after (fun x => with_device_after (MemberMAC x))
    (roster st g) NetRoster (Z.of_nat (length (roster st g)))) as (pages & Hf & He & Hl).
  - intros cursor c. unfold network_report. change (NetAPBSSID (with_page cursor (NetPageSize g) g)) with (NetAPBSSID g).
    destruct (is_empty (NetAPBSSID g)) eqn:E; [by apply is_empty_true in E|].
    cbv match beta zeta. destruct (roster_page st _ c) as [page next] eqn:Ep. destruct (if 0 <? _ then _ else _) as [nodes edges].
    cbn [NetRoster NetNextPageCursor NetTotalRows]. split; [by rewrite <-Ep|]. by rewrite <-(length_fmap MemberMAC (roster st g)), roster_macs.
  - apply List.forallb_filter_id, List.forallb_forall. done.
  - intros x j c Hx. rewrite <-(sort_by_after member_less (roster st g) j x); [| |..|exact Hx].
    + apply List.filter_ext. intros y. apply member_after_less. apply (roster_mac st g), (sort_by_elem member_less).
      by eapply list_elem_of_lookup_2.
    + apply (NoDup_fmap_1 MemberMAC), roster_NoDup.
    + intros a b Ha Hb' Hab Hba. apply (NoDup_key_inj MemberMAC (roster st g)); [apply roster_NoDup|done|done|].
      by apply str_ltb_total.
  - done.
  - exists pages, members. split_and!; [exact Hf|exact He|exact Hperm|apply sort_by_sorted, _|by rewrite Hids; apply group_keys_NoDup| |exact Hl].
    intros m. rewrite Hids. apply group_keys_elem.
Qed.
End reports.

(** *** An access point and its roster *)

(** The same request focused on an access point. *)
Definition focused (bssid : string) (f : NetworkFilters) : NetworkFilters := {|
  NetLocationIDs := NetLocationIDs f; NetSensorIDs := NetSensorIDs f; NetObservedAfter := NetObservedAfter f;
  NetObservedBefore := NetObservedBefore f; SourceMAC := SourceMAC f; SourceMACs := SourceMACs f; NetSSID := NetSSID f;
  Query := Query f; NetAPBSSID := bssid; NetPageSize := NetPageSize f; NetPageCursor := NetPageCursor f;
  IncludeHints := IncludeHints f |}.

Lemma focused_evidence st f bssid :
  NetAPBSSID f = "" -> bssid <> "" -> evidence st (focused bssid f) = members e_bssid (evidence st f) bssid.
Proof.
  intros Hf Hb. unfold evidence, members. rewrite <-filter_andb. apply List.filter_ext. intros row.
  unfold networkEvidence. cbn [focused NetLocationIDs NetSensorIDs NetObservedAfter NetObservedBefore SourceMAC SourceMACs
    NetSSID Query NetAPBSSID]. rewrite Hf. destruct (is_empty bssid) eqn:E; [by apply is_empty_true in E|]. cbn [is_empty orb].
  assert (Eb : bool_decide (e_bssid row = bssid) = is_true (c_bssid (doc row)) (fun b => String.eqb b bssid)).
  { unfold e_bssid. destruct (c_bssid (doc row)) as [b|]; cbn.
    - destruct (String.eqb_spec b bssid); [by apply bool_decide_eq_true|by apply bool_decide_eq_false].
    - apply bool_decide_eq_false. by intros <-. }
  rewrite Eb. destruct (is_true (c_bssid (doc row)) _); [by rewrite !andb_true_r|]. by rewrite !andb_false_r.
Qed.

(** The number of identifiers an overview gives for an access point is the
    number of members on its roster, the same request focused on it, and the
    first and last observation of an overview are those of its roster's report. *)
Theorem overview_count_is_roster {J : GraphJSON} {C : CursorCodec} st graph now f c ap :
  NetAPBSSID f = "" -> ap ∈ overviews st f ->
  let r := network_report st graph now (focused (BSSID ap) f) c in
  Z.of_nat (length (roster st (focused (BSSID ap) f))) = IdentifierCount ap /\ NetTotalRows r = IdentifierCount ap /\
  0 < IdentifierCount ap /\ NetFocusReason r = "" /\
  ObservationStart (Report r) = Some (FirstObserved ap) /\ ObservationEnd (Report r) = Some (LastObserved ap) /\
  (forall mac, mac ∈ MemberMAC <$> roster st (focused (BSSID ap) f) <->
     exists row, row ∈ evidence st f /\ e_bssid row = BSSID ap /\ e_mac row = mac).
Proof.
  intros Hf Hap. assert (Hb := overview_bssid st f ap Hap). assert (Hev := focused_evidence st f (BSSID ap) Hf Hb).
  apply list_elem_of_fmap in Hap as (b & E & Hin). assert (Eb : BSSID ap = b) by (by rewrite E). rewrite Eb in Hev, Hb |- *.
  assert (Hne := members_nonempty e_bssid (evidence st f) b Hin). assert (Hpos := count_distinct_pos e_mac _ Hne).
  rewrite E. cbn [IdentifierCount FirstObserved LastObserved overview_of].
  assert (Hlen : Z.of_nat (length (roster st (focused b f))) = count_distinct e_mac (members e_bssid (evidence st f) b)).
  { by rewrite <-(length_fmap MemberMAC), roster_macs, Hev. }
  unfold network_report. change (NetAPBSSID (focused b f)) with b. destruct (is_empty b) eqn:Ee; [by apply is_empty_true in Ee|].
  destruct (roster_page st _ c) as [page next]. destruct (if 0 <? _ then _ else _) as [nodes edges].
  cbn [NetTotalRows NetFocusReason Report network_meta observed_between New ObservationStart ObservationEnd]. rewrite Hev.
  split; [exact Hlen|]. split; [done|]. split; [lia|]. split; [by rewrite (proj2 (Z.eqb_neq _ _)) by lia|].
  destruct (members e_bssid (evidence st f) b) as [|row rows] eqn:Em; [done|]. split; [done|]. split; [done|].
  intros mac. rewrite roster_macs, group_keys_elem, Hev, <-Em. setoid_rewrite members_elem. naive_solver.
Qed.

(** *** The graph of a roster *)

Section graph.
Context {J : GraphJSON} {C : CursorCodec}.
Context (st : evidence_store) (graph : graph_store) (now : time).

Lemma cluster_rows_elem nodes hints r :
  r ∈ cluster_rows graph nodes hints -> r ∈ legacy_nodes graph /\ row_node_id r ∉ ids_of nodes.
Proof.
  unfold cluster_rows. destruct (_ && _); [|by intros ?%elem_of_nil]. intros [Hr H]%ordered_elem%filter_elem.
  split; [done|]. apply andb_prop in H as [_ H]. apply bool_decide_eq_true in H.
  unfold cluster_ids in H. by apply missing_ids_elem in H as [_ H].
Qed.

Lemma cluster_rows_length nodes hints :
  Z.of_nat (length nodes) <= 200 -> Z.of_nat (length nodes + length (cluster_rows graph nodes hints)) <= 200.
Proof.
  intros Hn. unfold cluster_rows. destruct (_ && _) eqn:E; [|cbn [length]; lia].
  pose proof (ordered_length (less_on row_node_id str_ltb) (200 - Z.of_nat (length nodes))
    (List.filter (fun r => String.eqb (row_node_kind r) "identity_cluster" && bool_decide (row_node_id r ∈ cluster_ids nodes hints))
       (legacy_nodes graph))) as H. lia.
Qed.

Lemma cluster_rows_NoDup nodes hints :
  NoDup (row_node_id <$> legacy_nodes graph) -> NoDup (row_node_id <$> cluster_rows graph nodes hints).
Proof.
  intros Hnd. unfold cluster_rows. destruct (_ && _); [|constructor]. unfold ordered. rewrite fmap_take.
  eapply sublist_NoDup; [|apply sublist_take]. rewrite sort_by_perm.
  eapply sublist_NoDup; [exact Hnd|]. apply fmap_sublist, filter_sublist.
Qed.

(** A graph whose edges join its nodes, which are distinct and at most 200. *)
Definition closed_graph (nodes : list GraphNode) (edges : list GraphEdge) : Prop :=
  NoDup (ids_of nodes) /\ Z.of_nat (length nodes) <= 200 /\
  Forall (fun e => Source e ∈ ids_of nodes /\ Target e ∈ ids_of nodes) edges.

Lemma add_hints_closed nodes edges :
  NoDup (row_node_id <$> legacy_nodes graph) -> closed_graph nodes edges ->
  closed_graph (fst (add_hints graph now nodes edges)) (snd (add_hints graph now nodes edges)).
Proof.
  intros Hpk (Hnd & Hlen & Hed). unfold add_hints. set (hints := fetchGraphEdges graph now hint_filters nodes true). cbn [fst snd].
  set (clusters := cluster_rows graph nodes hints).
  assert (Hids : ids_of (nodes ++ (graphNodeFromRow <$> clusters)) = ids_of nodes ++ (row_node_id <$> clusters)).
  { unfold ids_of. by rewrite fmap_app, <-list_fmap_compose. }
  unfold closed_graph. rewrite Hids, length_app, length_fmap. split; [|split].
  - apply NoDup_app. split; [done|]. split; [|by apply cluster_rows_NoDup].
    intros x Hx (r & -> & Hr)%list_elem_of_fmap. by apply cluster_rows_elem in Hr as [_ Hr].
  - by apply cluster_rows_length.
  - apply Forall_app. split; [eapply Forall_impl; [exact Hed|]; cbn; intros e [? ?]; split; by apply elem_of_app; left|].
    apply Forall_forall. intros e [_ H]%filter_elem. apply andb_prop in H as [H1 H2]. by apply bool_decide_eq_true in H1, H2.
Qed.

Lemma roster_graph_closed f last page :
  NoDup (row_node_id <$> legacy_nodes graph) -> NoDup (MemberMAC <$> page) -> Z.of_nat (length page) <= 199 ->
  closed_graph (fst (roster_graph graph now f last page)) (snd (roster_graph graph now f last page)).
Proof.
  intros Hpk Hnd Hlen. unfold roster_graph.
  assert (H : closed_graph (focus_node (NetAPBSSID f) last :: (member_node <$> page)) (member_edge (NetAPBSSID f) <$> page)).
  { assert (Hids : ids_of (focus_node (NetAPBSSID f) last :: (member_node <$> page)) = ap_id (NetAPBSSID f) :: (device_id <$> (MemberMAC <$> page))).
    { unfold ids_of. by rewrite fmap_cons, <-!list_fmap_compose. }
    unfold closed_graph. rewrite Hids. split; [|split].
    - apply NoDup_cons. split; [by intros (m & E & _)%list_elem_of_fmap|].
      apply NoDup_fmap_2; [intros a b; apply device_id_inj|done].
    - cbn [length]. rewrite length_fmap. lia.
    - apply Forall_fmap, Forall_forall. intros m Hm. cbn. split; [right; by do 2 apply list_elem_of_fmap_2|left]. }
  destruct (IncludeHints f); [by apply add_hints_closed|done].
Qed.

Lemma roster_graph_members f last page nodes edges :
  roster_graph graph now f last page = (nodes, edges) ->
  ap_id (NetAPBSSID f) ∈ ids_of nodes /\
  Forall (fun m => device_id (MemberMAC m) ∈ ids_of nodes /\
            exists e, e ∈ edges /\ Source e = device_id (MemberMAC m) /\ Target e = ap_id (NetAPBSSID f)) page.
Proof.
  intros Hg. assert (H : ids_of (focus_node (NetAPBSSID f) last :: (member_node <$> page)) ⊆ ids_of nodes /\
    (member_edge (NetAPBSSID f) <$> page) ⊆ edges).
  { unfold roster_graph in Hg. destruct (IncludeHints f); [unfold add_hints in Hg|]; apply pair_equal_spec in Hg as [<- <-]; [|done].
    split; [unfold ids_of; rewrite fmap_app|]; intros x Hx; by apply elem_of_app; left. }
  destruct H as [Hi He]. split; [apply Hi; left|]. apply Forall_forall. intros m Hm. split.
  - apply Hi. right. apply list_elem_of_fmap. exists (member_node m). split; [done|]. by apply list_elem_of_fmap_2.
  - exists (member_edge (NetAPBSSID f) m). split; [apply He; by apply list_elem_of_fmap_2|done].
Qed.

Lemma roster_page_spec f c :
  0 < NetPageSize f ->
  NoDup (MemberMAC <$> fst (roster_page st f c)) /\ Z.of_nat (length (fst (roster_page st f c))) <= NetPageSize f /\
  fst (roster_page st f c) ⊆ roster st f.
Proof.
  intros Hs. unfold roster_page, keyset_page, cut_page.
  set (rows := ordered member_less (NetPageSize f + 1) (List.filter (member_after c) (roster st f))).
  assert (Hnd : NoDup (MemberMAC <$> rows)).
  { unfold rows, ordered. rewrite fmap_take. eapply sublist_NoDup; [|apply sublist_take]. rewrite sort_by_perm.
    eapply sublist_NoDup; [apply roster_NoDup|]. apply fmap_sublist, filter_sublist. }
  assert (Hin : rows ⊆ roster st f) by (by intros m [H _]%ordered_elem%filter_elem).
  destruct (Z.ltb_spec (NetPageSize f) (Z.of_nat (length rows))); cbn [fst].
  - split; [rewrite fmap_take; eapply sublist_NoDup; [exact Hnd|apply sublist_take]|].
    split; [rewrite length_take; lia|]. intros m Hm. apply Hin. by eapply subseteq_take.
  - done.
Qed.

(** Every answer is a graph: the edges join nodes of the answer, the ids of the
    nodes are distinct, and there are at most 200 nodes, hints included.
    Without a focus, or evidence at the focus, the graph is empty; otherwise it
    has the access point and a device for each member of the page. *)
Theorem network_graph_closed {RJ : RequestJSON NetworkFilters} filters r :
  NoDup (row_node_id <$> legacy_nodes graph) -> Network st graph now filters = inl r ->
  closed_graph (NetNodes r) (NetEdges r) /\
  (NetTotalRows r = 0 \/ ToLower (TrimSpace (NetAPBSSID filters)) = "" -> NetNodes r = [] /\ NetEdges r = []) /\
  (0 < NetTotalRows r -> ToLower (TrimSpace (NetAPBSSID filters)) <> "" ->
     ap_id (ToLower (TrimSpace (NetAPBSSID filters))) ∈ ids_of (NetNodes r) /\
     Forall (fun m => device_id (MemberMAC m) ∈ ids_of (NetNodes r) /\
               exists e, e ∈ NetEdges r /\ Source e = device_id (MemberMAC m) /\
                 Target e = ap_id (ToLower (TrimSpace (NetAPBSSID filters)))) (NetRoster r)).
Proof.
  intros Hpk. unfold Network. destruct (normalize_network filters) as [f|] eqn:Hn; [|done]. cbn [sum_bind].
  destruct (plain _) as [fp|]; [|done]. cbn [sum_bind]. destruct (decodePageCursor _ _ _) as [c|]; [|done]. cbn [sum_bind].
  intros [= <-]. pose proof (normalized_size filters f Hn) as Hs.
  assert (Hb : NetAPBSSID f = ToLower (TrimSpace (NetAPBSSID filters))).
  { revert Hn. unfold normalize_network. destruct (_ && _); [done|]. destruct (match _ with Some _ => _ | None => _ end); [done|].
    by intros [= <-]. }
  rewrite <-Hb. unfold network_report. destruct (is_empty (NetAPBSSID f)) eqn:E.
  - apply is_empty_true in E. rewrite E. destruct (overview_page st f c) as [page next]. cbn [NetNodes NetEdges NetRoster NetTotalRows].
    split; [|done]. split; [constructor|]. split; [cbn [length]; lia|constructor].
  - assert (E' : NetAPBSSID f <> "") by (intros H; by rewrite H in E).
    destruct (roster_page_spec f c) as (Hnd & Hl & _); [lia|]. destruct (roster_page st f c) as [page next]. cbn [fst] in Hnd, Hl.
    assert (Hpos : 0 <= count_distinct e_mac (evidence st f)) by (unfold count_distinct; lia).
    destruct (Z.ltb_spec 0 (count_distinct e_mac (evidence st f))) as [Ht|Ht].
    + assert (Hl' : Z.of_nat (length page) <= 199) by lia.
      assert (Hc := roster_graph_closed f (null_time max_of (e_time <$> evidence st f)) page Hpk Hnd Hl').
      destruct (roster_graph graph now f _ page) as [nodes edges] eqn:Eg. cbn [fst snd] in Hc. cbn [NetNodes NetEdges NetRoster NetTotalRows].
      split; [done|]. split; [intros [H|H]; [lia|done]|]. intros _ _. by eapply roster_graph_members.
    + cbn [NetNodes NetEdges NetRoster NetTotalRows]. split; [|split; [done|lia]].
      split; [constructor|]. split; [cbn [length]; lia|constructor].
Qed.
End graph.

(** ** Witnesses *)

Module NetworkSample.
Definition event (id mac bssid : string) (at_ : time) : event_row := {|
  doc_id := id; doc_source_kind := "event"; doc_status := "active";
  doc := {| c_location_id := Some "lab"; c_sensor_id := Some "s1"; c_source_mac := Some mac; c_bssid := Some bssid;
            c_ssid := Some "guest"; c_host := None; c_frame_subtype := None; c_proxy_event_type := None;
            c_proxy_device_id := None; c_classification := None; c_blocked := None; c_observed_at := Some at_;
            c_security_flags := None; c_handshake_captured := None; c_tags := [] |} |}.

Definition dev (c : ascii) : string := "0a:00:00:00:00:0" +:+ String c "".
Definition ap (c : ascii) : string := "02:00:00:00:00:0" +:+ String c "".

(** Two devices at the second access point, one at the first; a broadcast and a
    beacon of its own do not count. *)
Definition store : evidence_store := {|
  summaries := []; display_names := {[dev "1" := Some "Desk"]}; asset_annotations := ∅; graph_edges := [];
  documents := [event "r1" (dev "1") (ap "2") 5; event "r2" (dev "2") (ap "2") 3; event "r3" (dev "1") (ap "2") 9;
                event "r4" (dev "1") (ap "1") 4; event "r5" "ff:ff:ff:ff:ff:ff" (ap "1") 1; event "r6" (ap "1") (ap "1") 2];
  watermarks := None |}.

Definition hint (id s t kind : string) : graphEdgeRow := {|
  row_evidence := "{}"; row_edge_id := id; row_source := s; row_target := t; row_edge_kind := kind;
  row_weight := f_zero; row_weight_basis := None; row_edge_label := None; row_edge_observed_at := None |}.

Definition graph : graph_store := {|
  legacy_nodes := [demo_node_row "cluster:7" "identity_cluster"; demo_node_row "cluster:8" "identity_cluster"];
  legacy_edges := [hint "h1" (device_id (dev "1")) "cluster:7" "identity_member"; hint "h2" (device_id (dev "2")) "elsewhere" "roaming"];
  topology_nodes := []; topology_edges := []; identity_nodes := []; identity_edges := [] |}.

Definition request (size : Z) (bssid : string) : NetworkFilters := {|
  NetLocationIDs := ["lab"]; NetSensorIDs := []; NetObservedAfter := None; NetObservedBefore := None; SourceMAC := "";
  SourceMACs := []; NetSSID := ""; Query := ""; NetAPBSSID := bssid; NetPageSize := size; NetPageCursor := "";
  IncludeHints := true |}.

Definition keys : RequestJSON NetworkFilters := fun f => inl (NetAPBSSID f).

Definition answer (bssid : string) : NetworkResponse + app_error :=
  Network (J := demo_json) (C := demo_codec) (RJ := keys) store graph 10 (request 5 bssid).
End NetworkSample.

Lemma access_points_cover_witness :
  exists pages, follow NetNextPageCursor
      (network_at (J := demo_json) (C := demo_codec) (RJ := NetworkSample.keys) NetworkSample.store NetworkSample.graph 10
         (NetworkSample.request 1 "")) 3 "" = Some pages /\
    length (pages ≫= AccessPoints) = 2%nat.
Proof.
  destruct (access_points_cover (J := demo_json) (C := demo_codec) (RJ := NetworkSample.keys) (L := demo_codec_laws)
    NetworkSample.store NetworkSample.graph 10 (NetworkSample.request 1 "") (NetworkSample.request 1 "")
    (sha256Hex "") ltac:(vm_compute; reflexivity) ltac:(reflexivity) ltac:(reflexivity)) as (pages & ranked & Hp & He & Hperm & _).
  exists pages. split; [exact Hp|]. rewrite He. exact (Permutation_length Hperm).
Defined.

Lemma roster_cover_witness :
  exists pages, follow NetNextPageCursor
      (network_at (J := demo_json) (C := demo_codec) (RJ := NetworkSample.keys) NetworkSample.store NetworkSample.graph 10
         (NetworkSample.request 1 (NetworkSample.ap "2"))) 3 "" = Some pages /\
    length (pages ≫= NetRoster) = 2%nat.
Proof.
  destruct (roster_cover (J := demo_json) (C := demo_codec) (RJ := NetworkSample.keys) (L := demo_codec_laws)
    NetworkSample.store NetworkSample.graph 10 (NetworkSample.request 1 (NetworkSample.ap "2"))
    (NetworkSample.request 1 (NetworkSample.ap "2")) (sha256Hex (NetworkSample.ap "2"))
    ltac:(vm_compute; reflexivity) ltac:(discriminate) ltac:(reflexivity)) as (pages & ranked & Hp & He & Hperm & _).
  exists pages. split; [exact Hp|]. rewrite He. exact (Permutation_length Hperm).
Defined.

Definition sample_overview : AccessPointOverview :=
  Eval vm_compute in default (overview_of [] "") (overviews NetworkSample.store (NetworkSample.request 1 "") !! 0%nat).

Lemma overview_count_is_roster_witness :
  IdentifierCount sample_overview = 2 /\
  Z.of_nat (length (roster NetworkSample.store (focused (BSSID sample_overview) (NetworkSample.request 1 "")))) = 2.
Proof.
  destruct (overview_count_is_roster (J := demo_json) (C := demo_codec) NetworkSample.store NetworkSample.graph 10
    (NetworkSample.request 1 "") (first_cursor "network" "") sample_overview ltac:(reflexivity)
    ltac:(apply list_elem_of_lookup; exists 0%nat; vm_compute; reflexivity)) as (H & _).
  split; [reflexivity|exact H].
Defined.

Definition sample_network : option NetworkResponse :=
  Eval vm_compute in match NetworkSample.answer (NetworkSample.ap "2") with inl r => Some r | inr _ => None end.

Lemma network_graph_closed_witness :
  exists r, sample_network = Some r /\ length (NetNodes r) = 4%nat /\ length (NetEdges r) = 3%nat /\
    closed_graph (NetNodes r) (NetEdges r).
Proof.
  eexists. split; [reflexivity|]. split; [reflexivity|]. split; [reflexivity|].
  match goal with |- closed_graph (NetNodes ?r) _ =>
    destruct (network_graph_closed (J := demo_json) (C := demo_codec) (RJ := NetworkSample.keys) NetworkSample.store NetworkSample.graph 10
      (NetworkSample.request 5 (NetworkSample.ap "2")) r
      ltac:(apply (bool_decide_eq_true_1 (NoDup _)); vm_compute; reflexivity) ltac:(vm_compute; reflexivity)) as (H & _)
  end.
  exact H.
Defined.
