(* ===== verification/Dq.v ===== *)
(** * The DQ client (internal/dedup)

    Requests to the DQ manager as actions that extend a list of what was sent,
    against any server; the operations of the workspace check what they ask and
    what they are answered.  encoding/json and net/url are the class [DqStd]. *)

From S2P Require Import Prelude GoErrors GoStrings GoStrconv GoSort Upstream.

Declare Scope io_scope.

(** ** Data *)

(** What a map[string]any holds. *)
Inductive any :=
| ANil
| ABool (b : bool)
| AInt (n : Z)
| ANumber (text : string)           (* a float64, as it is written *)
| AString (s : string)
| AList (l : list any)
| AMap (members : list (string * any)).

Definition object : Type := gmap string any.

(** The parts of a url.URL that are read. *)
Record parsed_url := {
  u_scheme : string;
  u_host : string;
  u_hostname : string;
  u_has_user : bool;
  u_path : string;
  u_raw_path : string;
  u_raw_query : string;
  u_fragment : string;
}.

Record Request := {
  Operation : string;
  ProcessorVersion : string;
  AuthorizedScope : string;
  SnapshotRevision : string;
  PolicyVersion : string;
  MaxCandidates : Z;
  CandidateID : string;
  IdempotencyKey : string;
}.

Record Run := {
  RunID : string;
  RunInstallation : string;
  RunNamespace : string;
  RunProcessor : string;
  RunVersion : string;
  RunOperation : string;
  RunParameters : string;
  RunStatus : string;
  StateRevision : Z;
  ExecutionMode : string;
  ProjectionApplied : bool;
  CreatedAt : string;
  CompletedAt : string;
  ErrorCode : string;
  SanitizedError : string;
}.

Record Options := {
  Enabled : bool;
  ManagerURL : string;
  ServiceToken : string;
  InstallationID : string;
  Namespace : string;
  RemoteOrigin : string;
}.

Record UIContext_t := {
  UIEnabled : bool;
  BetaEnabled : bool;
  UIRemoteOrigin : string;
  BridgeVersion : Z;
}.

Record Remote := {
  ImmutableURL : string;
  BundleDigest : string;
  HostAPIVersion : string;
  ParameterForm : bool;
  RunInspector : bool;
  ArtifactPreview : bool;
}.

Record Manifest := {
  ManifestInstallation : string;
  ManifestNamespace : string;
  ManifestProcessor : string;
  ManifestVersion : string;
  OwnerTeam : string;
  ImplementationDigest : string;
  ManifestPolicy : string;
  ParameterSchema : string;         (* the bytes of the JSON value *)
  UIRemote : option Remote;
}.

Record Admission := {
  AdmitProcessorID : string;
  AdmitVersion : string;
  AdmitOperation : string;
  AdmitParameters : option object;  (* nil or a map *)
  AdmitKey : string;
}.

Record Attempt := {
  AttemptID : string;
  AttemptNumber : Z;
  AttemptStatus : string;
  LeaseExpiresAt : string;
}.

Record Artifact_t := {
  ArtifactID : string;
  ArtifactInstallation : string;
  ArtifactNamespace : string;
  URI : string;
  VersionID : string;
  ETag : string;
  SHA256 : string;
  SchemaID : string;
  MediaType : string;
  SizeBytes : Z;
  ProducerRunID : string;
}.

Record WorkspaceRun := {
  run_of : Run;                     (* embedded *)
  WorkDigest : string;
  WorkPolicy : string;
  DeadlineAt : string;
  InputRefs : list Artifact_t;
  OutputRefs : list Artifact_t;
  CurrentAttempt : option Attempt;
}.

Record ArtifactAccess := {
  DownloadURL : string;
  AccessURL : string;
  ExpiresAt : string;
}.

(** ** The standard library *)

(** encoding/json and net/url.  [Marshal] writes the members in the order
    given and fails on a number it cannot write; a decoder answers [None] for
    an error. *)
Class DqStd := {
  Marshal : list (string * any) -> option string;
  Valid : string -> bool;
  unmarshal_object : string -> option (option object);      (* nil for null *)
  unmarshal_Run : string -> option Run;
  unmarshal_Catalog : string -> option (option (list Manifest));
  unmarshal_Manifest : string -> option Manifest;
  unmarshal_WorkspaceRun : string -> option WorkspaceRun;
  unmarshal_Artifact : string -> option Artifact_t;
  unmarshal_ArtifactAccess : string -> option ArtifactAccess;
  Parse : string -> option parsed_url;
}.

(** url.QueryEscape and url.PathEscape. *)
Definition unreserved (c : ascii) : bool := is_letter c || is_digit c || in_set "-_.~" c.

Definition upper_hex (n : Z) : ascii := ascii_of_nat (Z.to_nat (if n <? 10 then 48 + n else 55 + n)).

Definition percent (c : ascii) : list ascii :=
  ["%"%char; upper_hex (Z.shiftr (code c) 4); upper_hex (Z.land (code c) 15)].

Definition QueryEscape (s : string) : string :=
  of_bytes (bytes s ≫= fun c => if unreserved c then [c] else if code c =? 32 then ["+"%char] else percent c).

Definition PathEscape (s : string) : string :=
  of_bytes (bytes s ≫= fun c => if unreserved c || in_set "$&+:=@" c then [c] else percent c).

(** A map is written in the order of its keys. *)
Definition sorted_members (m : object) : list (string * any) := sort_by (less_on fst str_ltb) (map_to_list m).

(** ** Actions *)

Record http_request := {
  Method : string;
  RequestURL : string;
  Authorization : string;
  Body : string;
}.

(** An action reads what was sent so far and extends it. *)
Definition io (A : Type) : Type := list http_request -> list http_request * (A + app_error).

Definition ret {A} (a : A) : io A := fun sent => (sent, inl a).
Definition fail {A} (e : app_error) : io A := fun sent => (sent, inr e).
Definition bind {A B} (m : io A) (f : A -> io B) : io B := fun sent =>
  match m sent with (sent, inl a) => f a sent | (sent, inr e) => (sent, inr e) end.

Notation "'do!' x ':=' a 'in' b" := (bind a (fun x => b)) (at level 200, x name, a at level 100, b at level 200) : io_scope.
#[local] Open Scope io_scope.

(** An early return with an error. *)
Definition guard (refused : bool) (e : app_error) : io unit := if refused then fail e else ret tt.
Definition lift {A} (r : A + app_error) : io A := match r with inl a => ret a | inr e => fail e end.

Definition maxControlBytes : Z := 65536.

(** ** Checks *)

Definition id_char (c : ascii) : bool := is_letter c || is_digit c || in_set "-_." c.

Definition validID (value : string) : bool :=
  negb (is_empty value || (200 <? len value) || String.eqb value "." || String.eqb value "..")
  && forallb id_char (bytes value).

Definition validSHA256 (value : string) : bool :=
  match hex_decode (bytes value) with Some decoded => Z.of_nat (length decoded) =? 32 | None => false end.

Definition invalidResponse : app_error := AppError ErrUnavailable "invalid DQ metadata".
Definition invalid_status : app_error := AppError ErrUnavailable "invalid DQ status response".
Definition manager_unavailable : app_error := AppError ErrUnavailable "DQ manager is unavailable".
Definition beta_disabled : app_error := AppError ErrForbidden "DQ dedup beta is disabled".
Definition unsupported_operation : app_error := Validation "unsupported dedup operation".
Definition invalid_request : app_error := Validation "invalid DQ request".

Section client.
Context {Std : DqStd} (options : Options).
(** What the manager answers, after the requests before. *)
Context (server : list http_request -> http_request -> http_answer).

Definition UIContext : UIContext_t := {|
  UIEnabled := Enabled options; BetaEnabled := Enabled options; UIRemoteOrigin := RemoteOrigin options;
  BridgeVersion := 1 |}.

Definition sameScope (installation namespace : string) : bool :=
  String.eqb installation (InstallationID options) && String.eqb namespace (Namespace options).

Definition scope_query : string :=
  "installation_id=" +:+ QueryEscape (InstallationID options) +:+ "&namespace=" +:+ QueryEscape (Namespace options).

Definition scopedPath (path : string) : string := path +:+ "?" +:+ scope_query.

Definition scoped (m : object) : object :=
  <["namespace" := AString (Namespace options)]> (<["installation_id" := AString (InstallationID options)]> m).

(** The members of a value become a map, which gets the scope. *)
Definition scopedBody (members : list (string * any)) : string + app_error :=
  match Marshal members with
  | None => inr invalid_request
  | Some data =>
      match unmarshal_object data with
      | Some (Some body) =>
          match Marshal (sorted_members (scoped body)) with
          | Some data => inl data
          | None => inr invalid_request
          end
      | _ => inr invalid_request
      end
  end.

(** ** Requests *)

Definition status_error (status : Z) : app_error :=
  if (status =? 400) || (status =? 422) then Validation "DQ rejected the dedup parameters"
  else if (status =? 401) || (status =? 403) then AppError ErrForbidden "DQ access is unavailable for this scope"
  else if status =? 404 then AppError ErrNotFound "DQ run or processor version not found"
  else if status =? 409 then AppError ErrConflict "DQ invocation identity conflicts with an existing run"
  else if status =? 429 then AppError ErrCapacity "DQ admission capacity is exhausted"
  else manager_unavailable.

Definition answer_of (a : http_answer) : string + app_error :=
  match a with
  | RequestFailed err =>
      if errors_Is err DeadlineExceeded || errors_Is err Canceled then inr (Plain err) else inr manager_unavailable
  | Response status data read_err =>
      if negb (status =? 200) && negb (status =? 202) then inr (status_error status)
      else if negb (bool_decide (read_err = None)) || (maxControlBytes <? len data) then inr invalid_status
      else if negb (Valid data) then inr invalid_status
      else inl data
  end.

Definition do (method path body : string) : io string :=
  do! _ := guard (negb (Enabled options)) (AppError ErrForbidden "DQ beta is disabled") in
  do! _ := guard (maxControlBytes <? len body) (Validation "DQ metadata exceeds 64 KiB") in
  let url := TrimRight (ManagerURL options) "/" +:+ path in
  do! _ := guard (bool_decide (Parse url = None)) manager_unavailable in
  fun sent =>
    let req := {| Method := method; RequestURL := url; Authorization := "Bearer " +:+ ServiceToken options;
                  Body := body |} in
    (sent ++ [req], answer_of (server sent req)).

Definition request (method path body : string) : io Run :=
  do! data := do method path body in
  match unmarshal_Run data with
  | Some run =>
      if negb (validID (RunID run)) || negb (String.eqb (RunProcessor run) "atheros.dedup")
         || negb (String.eqb (RunInstallation run) (InstallationID options))
         || negb (String.eqb (RunNamespace run) (Namespace options))
      then fail invalid_status else ret run
  | None => fail invalid_status
  end.

(** ** Dedup runs *)

Definition admit_parameters (r : Request) : object :=
  let m : object := {["authorized_scope" := AString (AuthorizedScope r); "policy_version" := AString (PolicyVersion r);
                      "max_candidates" := AInt (MaxCandidates r)]} in
  let m := if negb (is_empty (SnapshotRevision r)) then <["snapshot_revision" := AString (SnapshotRevision r)]> m else m in
  if negb (is_empty (CandidateID r)) then <["candidate_id" := AString (CandidateID r)]> m else m.

Definition admit_body (r : Request) : object :=
  {["installation_id" := AString (InstallationID options); "namespace" := AString (Namespace options);
    "processor_id" := AString "atheros.dedup"; "processor_version" := AString (ProcessorVersion r);
    "operation" := AString (Operation r); "parameters" := AMap (sorted_members (admit_parameters r));
    "idempotency_key" := AString (IdempotencyKey r)]}.

Definition Admit (r : Request) : io Run :=
  do! _ := guard (negb (Enabled options)) beta_disabled in
  do! _ := guard (negb (String.eqb (Operation r) "prepare_candidates") && negb (String.eqb (Operation r) "reconcile_decision"))
             unsupported_operation in
  do! _ := guard (negb (String.eqb (AuthorizedScope r) "*") && negb (validID (AuthorizedScope r)))
             (Validation "authorized_scope is required") in
  do! _ := guard (negb (validID (PolicyVersion r)) || negb (validID (IdempotencyKey r)) || (MaxCandidates r <? 1)
                  || (1000 <? MaxCandidates r))
             (Validation "policy_version, idempotency_key and max_candidates (1..1000) are required") in
  do! _ := guard ((negb (is_empty (ProcessorVersion r)) && negb (validID (ProcessorVersion r)))
                  || (200 <? len (SnapshotRevision r))
                  || (negb (is_empty (CandidateID r)) && negb (validID (CandidateID r))))
             (Validation "invalid version or source revision") in
  do! _ := guard (String.eqb (Operation r) "reconcile_decision" && is_empty (CandidateID r))
             (Validation "candidate_id is required for reconciliation") in
  match Marshal (sorted_members (admit_body r)) with
  | Some body => request "POST" "/v1/runs" body
  | None => fail (Validation "invalid dedup parameters")
  end.

Definition Service_Run (runID : string) : io Run :=
  do! _ := guard (negb (Enabled options)) beta_disabled in
  do! _ := guard (negb (validID runID)) (Validation "invalid run_id") in
  do! run := request "GET" (scopedPath ("/v1/runs/" +:+ PathEscape runID)) "" in
  if negb (String.eqb (RunID run) runID) then fail invalid_status else ret run.

(** ** The workspace *)

Definition remote_refused (m : Manifest) (r : Remote) : bool :=
  match Parse (ImmutableURL r) with
  | None => true
  | Some u =>
      u_has_user u || negb (String.eqb (u_scheme u +:+ "://" +:+ u_host u) (RemoteOrigin options))
      || negb (is_empty (u_raw_query u)) || negb (is_empty (u_fragment u)) || negb (is_empty (u_raw_path u))
      || negb (validSHA256 (BundleDigest r))
      || negb (String.eqb (u_path u)
                 ("/" +:+ ManifestProcessor m +:+ "/" +:+ ManifestVersion m +:+ "/" +:+ BundleDigest r +:+ "/index.html"))
  end.

Definition validManifest (m : Manifest) : bool :=
  if negb (sameScope (ManifestInstallation m) (ManifestNamespace m)) || negb (validID (ManifestProcessor m))
     || negb (validID (ManifestVersion m))
     || match unmarshal_object (ParameterSchema m) with Some (Some _) => false | _ => true end
  then false
  else match UIRemote m with Some r => negb (remote_refused m r) | None => true end.

Definition validArtifact (ref : Artifact_t) : bool :=
  sameScope (ArtifactInstallation ref) (ArtifactNamespace ref) && validID (ArtifactID ref) && validID (ProducerRunID ref)
  && negb (is_empty (VersionID ref)) && negb (String.eqb (VersionID ref) "null") && (0 <=? SizeBytes ref)
  && validSHA256 (SHA256 ref).

Definition Catalog : io (list Manifest) :=
  do! data := do "GET" (scopedPath "/v1/processors") "" in
  match unmarshal_Catalog data with
  | Some (Some items) => if forallb validManifest items then ret items else fail invalidResponse
  | _ => fail invalidResponse
  end.

Definition Service_Version (id version : string) : io Manifest :=
  do! _ := guard (negb (validID id) || negb (validID version)) (Validation "invalid processor version") in
  do! data := do "GET" (scopedPath ("/v1/processor-versions/" +:+ id +:+ "/" +:+ version)) "" in
  match unmarshal_Manifest data with
  | Some m =>
      if negb (validManifest m) || negb (String.eqb (ManifestProcessor m) id) || negb (String.eqb (ManifestVersion m) version)
      then fail invalidResponse else ret m
  | None => fail invalidResponse
  end.

Definition workspaceRun (method path body expected : string) : io WorkspaceRun :=
  do! data := do method path body in
  match unmarshal_WorkspaceRun data with
  | Some result =>
      let run := run_of result in
      if negb (sameScope (RunInstallation run) (RunNamespace run)) || negb (validID (RunID run))
         || negb (validID (RunProcessor run)) || negb (validID (RunVersion run))
         || (negb (is_empty expected) && negb (String.eqb (RunID run) expected))
      then fail invalidResponse
      else if forallb validArtifact (InputRefs result ++ OutputRefs result) then ret result else fail invalidResponse
  | None => fail invalidResponse
  end.

Definition admission_members (req : Admission) (parameters : object) : list (string * any) :=
  [("processor_id", AString (AdmitProcessorID req)); ("processor_version", AString (AdmitVersion req));
   ("operation", AString (AdmitOperation req)); ("parameters", AMap (sorted_members parameters));
   ("idempotency_key", AString (AdmitKey req))].

Definition reserved_keys : list string := ["installation_id"; "namespace"; "execution_mode"].

Definition scope_refused (parameters : object) : bool :=
  match parameters !! "authorized_scope" with
  | Some (AString scope) => negb (String.eqb scope "*") && negb (validID scope)
  | _ => true
  end.

Definition AdmitProcessor (req : Admission) : io WorkspaceRun :=
  match AdmitParameters req with
  | None => fail (Validation "invalid invocation")
  | Some parameters =>
      do! _ := guard (negb (validID (AdmitProcessorID req)) || negb (validID (AdmitVersion req))
                      || negb (validID (AdmitOperation req)) || negb (validID (AdmitKey req)))
                 (Validation "invalid invocation") in
      do! _ := guard (String.eqb (AdmitProcessorID req) "atheros.dedup"
                      && negb (String.eqb (AdmitOperation req) "prepare_candidates")) unsupported_operation in
      do! _ := guard (existsb (fun key => bool_decide (is_Some (parameters !! key))) reserved_keys)
                 (Validation "deployment scope cannot be overridden") in
      do! _ := guard (scope_refused parameters) (Validation "authorized_scope is required") in
      do! body := lift (scopedBody (admission_members req parameters)) in
      do! result := workspaceRun "POST" "/v1/runs" body "" in
      let run := run_of result in
      if negb (String.eqb (RunProcessor run) (AdmitProcessorID req)) || negb (String.eqb (RunVersion run) (AdmitVersion req))
         || negb (String.eqb (RunOperation run) (AdmitOperation req))
      then fail invalidResponse else ret result
  end.

Definition Inspect (id : string) : io WorkspaceRun :=
  do! _ := guard (negb (validID id)) (Validation "invalid run_id") in
  workspaceRun "GET" (scopedPath ("/v1/runs/" +:+ id)) "" id.

Definition Cancel (id : string) : io WorkspaceRun :=
  do! _ := guard (negb (validID id)) (Validation "invalid run_id") in
  do! body := lift (scopedBody []) in
  workspaceRun "POST" ("/v1/runs/" +:+ id +:+ "/cancel") body id.

Definition key_members (key : string) : list (string * any) :=
  if is_empty key then [] else [("idempotency_key", AString key)].

Definition Replay (id key : string) : io WorkspaceRun :=
  do! _ := guard (negb (validID id) || negb (validID key)) (Validation "invalid replay identity") in
  do! source := Inspect id in
  let src := run_of source in
  do! _ := guard (String.eqb (RunProcessor src) "atheros.dedup"
                  && negb (String.eqb (RunOperation src) "prepare_candidates")) unsupported_operation in
  do! body := lift (scopedBody (key_members key)) in
  do! result := workspaceRun "POST" ("/v1/runs/" +:+ id +:+ "/replay") body "" in
  let run := run_of result in
  if String.eqb (RunID run) id || negb (String.eqb (RunProcessor run) (RunProcessor src))
     || negb (String.eqb (RunVersion run) (RunVersion src)) || negb (String.eqb (RunOperation run) (RunOperation src))
  then fail invalidResponse else ret result.

Definition Artifact (id : string) : io Artifact_t :=
  do! _ := guard (negb (validID id)) (Validation "invalid artifact_id") in
  do! data := do "GET" (scopedPath ("/v1/artifacts/" +:+ id)) "" in
  match unmarshal_Artifact data with
  | Some result =>
      if negb (validArtifact result) || negb (String.eqb (ArtifactID result) id) then fail invalidResponse else ret result
  | None => fail invalidResponse
  end.

Definition download_refused (raw : string) : bool :=
  match Parse raw with
  | None => true
  | Some u =>
      is_empty (u_host u) || u_has_user u || negb (is_empty (u_fragment u))
      || (negb (String.eqb (u_scheme u) "https")
          && (negb (String.eqb (u_scheme u) "http")
              || (negb (String.eqb (u_hostname u) "localhost") && negb (String.eqb (u_hostname u) "127.0.0.1"))))
  end.

Definition access_url (a : ArtifactAccess) : string := if is_empty (DownloadURL a) then AccessURL a else DownloadURL a.

Definition Access (id : string) : io ArtifactAccess :=
  do! _ := Artifact id in
  do! body := lift (scopedBody []) in
  do! data := do "POST" ("/v1/artifacts/" +:+ id +:+ "/access") body in
  match unmarshal_ArtifactAccess data with
  | Some result => if download_refused (access_url result) then fail invalidResponse else ret result
  | None => fail invalidResponse
  end.
End client.

(** ** Assets of the shell (assets.go) *)

Record asset_request := {
  AssetMethod : string;
  AssetPath : string;
  AssetRawPath : string;
  AssetQuery : string;
}.

Inductive asset_reply :=
| StatusOnly (status : Z)
| HTTPError (status : Z) (message : string)
| NotFound
| Served (headers : list (string * string)) (written : string).

Definition asset_char (c : ascii) : bool := is_letter c || is_digit c || in_set "_-" c.

(** ^/dq-ui/assets/[a-zA-Z0-9_-]+\.(js|css|woff2|svg|png)$ *)
Definition shellAsset (path : string) : bool :=
  HasPrefix path "/dq-ui/assets/"
  && existsb (fun ext => let rest := TrimPrefix path "/dq-ui/assets/" in
                HasSuffix rest ext && (let name := TrimSuffix rest ext in
                  negb (is_empty name) && forallb asset_char (bytes name)))
       [".js"; ".css"; ".woff2"; ".svg"; ".png"].

Definition max_asset : Z := 8 * 2 ^ 20.

Definition asset_policy (options : Options) : string :=
  "default-src 'self'; script-src 'self'; style-src 'self'; img-src 'self' data:; connect-src 'none'; frame-src "
  +:+ (if is_empty (RemoteOrigin options) then "'none'" else RemoteOrigin options)
  +:+ "; object-src 'none'; base-uri 'none'; form-action 'none'; frame-ancestors 'self'".

Definition asset_unavailable : asset_reply := HTTPError 503 "DQ is unavailable".

(** The request to the manager, if there is one, and the reply to its answer,
    which has a content type. *)
Definition ServeAssets {Std : DqStd} (options : Options) (server : http_request -> http_answer * string)
    (r : asset_request) : option http_request * asset_reply :=
  if negb (String.eqb (AssetMethod r) "GET") && negb (String.eqb (AssetMethod r) "HEAD") then (None, StatusOnly 405)
  else if negb (Enabled options) then (None, HTTPError 404 "DQ is disabled")
  else if negb (is_empty (AssetQuery r)) || negb (is_empty (AssetRawPath r))
          || (negb (String.eqb (AssetPath r) "/dq-ui/embedded.html") && negb (shellAsset (AssetPath r)))
  then (None, NotFound)
  else
    let url := TrimRight (ManagerURL options) "/" +:+ AssetPath r in
    if bool_decide (Parse url = None) then (None, asset_unavailable)
    else
      let req := {| Method := AssetMethod r; RequestURL := url; Authorization := ""; Body := "" |} in
      (Some req,
       match server req with
       | (RequestFailed _, _) => asset_unavailable
       | (Response status data read_err, content_type) =>
           if negb (status =? 200) then asset_unavailable
           else if negb (bool_decide (read_err = None)) || (max_asset <? len data) then asset_unavailable
           else Served [("Content-Security-Policy", asset_policy options); ("Content-Type", content_type);
                        ("Access-Control-Allow-Origin", "*"); ("X-Content-Type-Options", "nosniff");
                        ("Referrer-Policy", "no-referrer"); ("Cache-Control", "no-store")]
                  (if String.eqb (AssetMethod r) "GET" then data else "")
       end).

(** ** Reasoning about actions *)

(** From requests that are [P], an action sends requests that are [P], and a
    result it returns is [Q]. *)
Definition triple {A} (P : http_request -> Prop) (m : io A) (Q : A -> Prop) : Prop :=
  forall sent, Forall P sent -> Forall P (fst (m sent)) /\ forall a, snd (m sent) = inl a -> Q a.

Section rules.
Context (P : http_request -> Prop).

Lemma triple_ret {A} (a : A) (Q : A -> Prop) : Q a -> triple P (ret a) Q.
Proof. intros Ha sent Hs. split; [done|]. by intros b [= <-]. Qed.

Lemma triple_fail {A} e (Q : A -> Prop) : triple P (fail e) Q.
Proof. intros sent Hs. by split. Qed.

Lemma triple_bind {A B} (m : io A) (f : A -> io B) (R : A -> Prop) (Q : B -> Prop) :
  triple P m R -> (forall a, R a -> triple P (f a) Q) -> triple P (bind m f) Q.
Proof.
  intros Hm Hf sent Hs. unfold bind. destruct (Hm sent Hs) as [H1 H2]. destruct (m sent) as [sent' [a|e]]; [|by split].
  apply Hf; [by apply H2|done].
Qed.

Lemma triple_guard refused e : triple P (guard refused e) (fun _ => refused = false).
Proof. destruct refused; [apply triple_fail|by apply triple_ret]. Qed.

Lemma triple_lift {A} (r : A + app_error) : triple P (lift r) (fun a => r = inl a).
Proof. destruct r; [by apply triple_ret|apply triple_fail]. Qed.
End rules.

(** A check whose refusal is a failure. *)
Ltac passed E :=
  match goal with |- triple _ (if ?c then _ else _) _ => destruct c eqn:E; [apply triple_fail|] end.

(** An action after a condition that holds in what follows. *)
Ltac after_guard H := eapply triple_bind; [apply triple_guard|]; intros [] H.


(** ** Properties *)

Lemma sorted_members_elem m k v : (k, v) ∈ sorted_members m <-> m !! k = Some v.
Proof. unfold sorted_members. rewrite sort_by_elem. apply elem_of_map_to_list. Qed.

Lemma sorted_members_keys m : NoDup ((sorted_members m).*1).
Proof. unfold sorted_members. rewrite sort_by_perm. apply NoDup_fst_map_to_list. Qed.

Section sent.
Context {Std : DqStd} (options : Options) (server : list http_request -> http_request -> http_answer).

(** A body that carries the scope of the deployment, whatever else it has. *)
Definition scoped_body (body : string) : Prop :=
  exists members, Marshal members = Some body /\ NoDup members.*1 /\
    ("installation_id", AString (InstallationID options)) ∈ members /\ ("namespace", AString (Namespace options)) ∈ members.

Definition scoped_target (method path body : string) : Prop :=
  (method = "GET" /\ body = "" /\ exists p, path = scopedPath options ("/v1/" +:+ p)) \/
  (method = "POST" /\ scoped_body body /\ exists p, path = "/v1/" +:+ p).

(** What the client may send: to the manager, with the service token, in the
    scope of the deployment and in bounds. *)
Record scoped_request (r : http_request) : Prop := {
  sr_enabled : Enabled options = true;
  sr_token : Authorization r = "Bearer " +:+ ServiceToken options;
  sr_size : len (Body r) <= maxControlBytes;
  sr_target : exists path, RequestURL r = TrimRight (ManagerURL options) "/" +:+ path /\ scoped_target (Method r) path (Body r);
}.

Lemma scopedBody_scoped members body : scopedBody options members = inl body -> scoped_body body.
Proof.
  unfold scopedBody. destruct (Marshal members) as [data|]; [|done]. destruct (unmarshal_object data) as [[m|]|]; [|done|done].
  destruct (Marshal (sorted_members _)) as [data'|] eqn:E; [|done]. intros [= <-]. exists (sorted_members (scoped options m)).
  split; [done|]. split; [apply sorted_members_keys|]. rewrite !sorted_members_elem. unfold scoped, object in *.
  split; by simplify_map_eq.
Qed.

Lemma triple_do method path body :
  scoped_target method path body ->
  triple scoped_request (do options server method path body) (fun _ => Enabled options = true).
Proof.
  intros Ht. unfold do. after_guard He. after_guard Hs. after_guard Hp. apply negb_false_iff in He. apply Z.ltb_ge in Hs.
  intros sent Hsent. split; [|done]. apply Forall_app. split; [done|]. apply Forall_singleton. split; [exact He|done|exact Hs|by exists path].
Qed.

(** A GET within the scope, and a POST of a scoped body. *)
Lemma triple_get p : triple scoped_request (do options server "GET" (scopedPath options ("/v1/" +:+ p)) "") (fun _ => Enabled options = true).
Proof. apply triple_do. left. split_and!; [done|done|by exists p]. Qed.

Lemma triple_post p body :
  scoped_body body -> triple scoped_request (do options server "POST" ("/v1/" +:+ p) body) (fun _ => Enabled options = true).
Proof. intros H. apply triple_do. right. split_and!; [done|done|by exists p]. Qed.

(** *** What the answers are checked for *)

Definition run_in_scope (r : Run) : Prop :=
  validID (RunID r) = true /\ RunInstallation r = InstallationID options /\ RunNamespace r = Namespace options.

Record artifact_ok (a : Artifact_t) : Prop := {
  ao_scope : ArtifactInstallation a = InstallationID options /\ ArtifactNamespace a = Namespace options;
  ao_ids : validID (ArtifactID a) = true /\ validID (ProducerRunID a) = true;
  ao_version : VersionID a <> "" /\ VersionID a <> "null";
  ao_size : 0 <= SizeBytes a;
  ao_digest : validSHA256 (SHA256 a) = true;
}.

(** A bundle of the remote origin, at the path of its processor, version and digest. *)
Definition remote_ok (m : Manifest) (r : Remote) : Prop :=
  exists u, Parse (ImmutableURL r) = Some u /\ u_scheme u +:+ "://" +:+ u_host u = RemoteOrigin options /\
    u_has_user u = false /\ u_raw_query u = "" /\ u_fragment u = "" /\ u_raw_path u = "" /\
    validSHA256 (BundleDigest r) = true /\
    u_path u = "/" +:+ ManifestProcessor m +:+ "/" +:+ ManifestVersion m +:+ "/" +:+ BundleDigest r +:+ "/index.html".

Record manifest_ok (m : Manifest) : Prop := {
  mo_scope : ManifestInstallation m = InstallationID options /\ ManifestNamespace m = Namespace options;
  mo_ids : validID (ManifestProcessor m) = true /\ validID (ManifestVersion m) = true;
  mo_schema : exists schema, unmarshal_object (ParameterSchema m) = Some (Some schema);
  mo_remote : forall r, UIRemote m = Some r -> remote_ok m r;
}.

(** An absolute URL without user or fragment, over TLS or to this machine. *)
Definition download_ok (raw : string) : Prop :=
  exists u, Parse raw = Some u /\ u_host u <> "" /\ u_has_user u = false /\ u_fragment u = "" /\
    (u_scheme u = "https" \/ u_scheme u = "http" /\ (u_hostname u = "localhost" \/ u_hostname u = "127.0.0.1")).

Definition work_ok (w : WorkspaceRun) : Prop :=
  run_in_scope (run_of w) /\ validID (RunProcessor (run_of w)) = true /\ validID (RunVersion (run_of w)) = true /\
  Forall artifact_ok (InputRefs w) /\ Forall artifact_ok (OutputRefs w).

Lemma sameScope_true i n : sameScope options i n = true <-> i = InstallationID options /\ n = Namespace options.
Proof. unfold sameScope. by rewrite andb_true_iff, !String.eqb_eq. Qed.

Lemma validArtifact_ok a : validArtifact options a = true -> artifact_ok a.
Proof.
  unfold validArtifact. rewrite !andb_true_iff, !negb_true_iff, !String.eqb_neq, is_empty_false, Z.leb_le, sameScope_true.
  intros [[[[[[H1 H2] H3] H4] H5] H6] H7]. by constructor.
Qed.

Lemma remote_refused_ok m r : remote_refused options m r = false -> remote_ok m r.
Proof.
  unfold remote_refused. destruct (Parse (ImmutableURL r)) as [u|] eqn:E; [|done]. intros H. exists u.
  repeat (apply orb_false_iff in H as [H ?]). rewrite negb_false_iff in *. rewrite ?String.eqb_eq, ?is_empty_true in *. done.
Qed.

Lemma validManifest_ok m : validManifest options m = true -> manifest_ok m.
Proof.
  unfold validManifest. destruct (_ || _) eqn:E; [done|]. intros H. repeat (apply orb_false_iff in E as [E ?]).
  rewrite negb_false_iff in *. apply sameScope_true in E. constructor; [done|done| |].
  - destruct (unmarshal_object _) as [[schema|]|]; [by exists schema|done..].
  - intros r Hr. rewrite Hr in H. apply remote_refused_ok. by apply negb_true_iff.
Qed.

Lemma download_refused_ok raw : download_refused raw = false -> download_ok raw.
Proof.
  unfold download_refused. destruct (Parse raw) as [u|] eqn:E; [|done]. intros H. exists u. split; [done|].
  apply orb_false_iff in H as [H Hs]. repeat (apply orb_false_iff in H as [H ?]).
  rewrite andb_false_iff, orb_false_iff, andb_false_iff, !negb_false_iff, !String.eqb_eq in *. rewrite is_empty_true, is_empty_false in *. tauto.
Qed.

Lemma triple_request method path body :
  scoped_target method path body ->
  triple scoped_request (request options server method path body) (fun r => run_in_scope r /\ RunProcessor r = "atheros.dedup").
Proof.
  intros Ht. unfold request. eapply triple_bind; [by apply triple_do|]. intros data _. destruct (unmarshal_Run data) as [r|]; [|apply triple_fail].
  passed E. apply triple_ret.
  repeat (apply orb_false_iff in E as [E ?]). rewrite negb_false_iff in *. rewrite String.eqb_eq in *. done.
Qed.

Lemma triple_workspaceRun method path body expected :
  scoped_target method path body ->
  triple scoped_request (workspaceRun options server method path body expected)
    (fun w => work_ok w /\ (expected = "" \/ RunID (run_of w) = expected)).
Proof.
  intros Ht. unfold workspaceRun. eapply triple_bind; [by apply triple_do|]. intros data _.
  destruct (unmarshal_WorkspaceRun data) as [w|]; [|apply triple_fail]. cbn zeta. passed E.
  destruct (forallb _ _) eqn:Ef; [|apply triple_fail]. apply triple_ret.
  apply orb_false_iff in E as [E Hid]. repeat (apply orb_false_iff in E as [E ?]). rewrite negb_false_iff in *.
  apply sameScope_true in E. rewrite forallb_app in Ef. apply andb_prop in Ef as [Hi Ho].
  split.
  - rewrite !List.forallb_forall in *. split_and!; [split; [done|exact E]|done|done| |]; apply Forall_forall; intros a Ha%list_elem_of_In;
      apply validArtifact_ok; [by apply Hi|by apply Ho].
  - apply andb_false_iff in Hid as [Hx|Hx]; rewrite negb_false_iff in Hx; [left; by apply is_empty_true|right; by apply String.eqb_eq].
Qed.

(** ** The operations *)

Definition body_of (r : string + app_error) : option string := match r with inl body => Some body | inr _ => None end.

Inductive operation :=
| OpAdmit (r : Request)
| OpRun (id : string)
| OpCatalog
| OpVersion (id version : string)
| OpAdmitProcessor (req : Admission)
| OpInspect (id : string)
| OpCancel (id : string)
| OpReplay (id key : string)
| OpArtifact (id : string)
| OpAccess (id : string).

Inductive answer :=
| ARun (r : Run)
| AItems (l : list Manifest)
| AManifest (m : Manifest)
| AWork (w : WorkspaceRun)
| AArtifact (a : Artifact_t)
| AAccess (a : ArtifactAccess).

Definition returning {A} (f : A -> answer) (m : io A) : io answer := bind m (fun a => ret (f a)).

Definition perform (op : operation) : io answer :=
  match op with
  | OpAdmit r => returning ARun (Admit options server r)
  | OpRun id => returning ARun (Service_Run options server id)
  | OpCatalog => returning AItems (Catalog options server)
  | OpVersion id version => returning AManifest (Service_Version options server id version)
  | OpAdmitProcessor req => returning AWork (AdmitProcessor options server req)
  | OpInspect id => returning AWork (Inspect options server id)
  | OpCancel id => returning AWork (Cancel options server id)
  | OpReplay id key => returning AWork (Replay options server id key)
  | OpArtifact id => returning AArtifact (Artifact options server id)
  | OpAccess id => returning AAccess (Access options server id)
  end.

(** What an operation promises about what it returns, asked after the requests
    [before].  Admit checks the scope and the processor of its run only. *)
Definition promised (op : operation) (before : list http_request) (a : answer) : Prop :=
  match op, a with
  | OpAdmit _, ARun r => run_in_scope r /\ RunProcessor r = "atheros.dedup"
  | OpRun id, ARun r => run_in_scope r /\ RunProcessor r = "atheros.dedup" /\ RunID r = id
  | OpCatalog, AItems l => Forall manifest_ok l
  | OpVersion id version, AManifest m => manifest_ok m /\ ManifestProcessor m = id /\ ManifestVersion m = version
  | OpAdmitProcessor req, AWork w =>
      work_ok w /\ RunProcessor (run_of w) = AdmitProcessorID req /\ RunVersion (run_of w) = AdmitVersion req /\
      RunOperation (run_of w) = AdmitOperation req /\
      (AdmitProcessorID req = "atheros.dedup" -> AdmitOperation req = "prepare_candidates")
  | OpInspect id, AWork w | OpCancel id, AWork w => work_ok w /\ RunID (run_of w) = id
  | OpReplay id _, AWork w =>
      work_ok w /\ RunID (run_of w) <> id /\
      exists mid source, Inspect options server id before = (mid, inl source) /\ RunID (run_of source) = id /\
        RunProcessor (run_of w) = RunProcessor (run_of source) /\ RunVersion (run_of w) = RunVersion (run_of source) /\
        RunOperation (run_of w) = RunOperation (run_of source) /\
        (RunProcessor (run_of w) = "atheros.dedup" -> RunOperation (run_of w) = "prepare_candidates")
  | OpArtifact id, AArtifact a => artifact_ok a /\ ArtifactID a = id
  | OpAccess id, AAccess a =>
      download_ok (access_url a) /\
      exists mid ref, Artifact options server id before = (mid, inl ref) /\ artifact_ok ref /\ ArtifactID ref = id
  | _, _ => False
  end.

(** The requests an operation makes, in order: method, URL and body. *)
Definition asks (op : operation) : list (string * string * option string) :=
  let url path := TrimRight (ManagerURL options) "/" +:+ path in
  let get path := ("GET", url (scopedPath options path), Some "") in
  let post path members := ("POST", url path, body_of (scopedBody options members)) in
  match op with
  | OpAdmit r => [("POST", url "/v1/runs", Marshal (sorted_members (admit_body options r)))]
  | OpRun id => [get ("/v1/runs/" +:+ PathEscape id)]
  | OpCatalog => [get "/v1/processors"]
  | OpVersion id version => [get ("/v1/processor-versions/" +:+ id +:+ "/" +:+ version)]
  | OpAdmitProcessor req => [post "/v1/runs" (admission_members req (default ∅ (AdmitParameters req)))]
  | OpInspect id => [get ("/v1/runs/" +:+ id)]
  | OpCancel id => [post ("/v1/runs/" +:+ id +:+ "/cancel") []]
  | OpReplay id key => [get ("/v1/runs/" +:+ id); post ("/v1/runs/" +:+ id +:+ "/replay") (key_members key)]
  | OpArtifact id => [get ("/v1/artifacts/" +:+ id)]
  | OpAccess id => [get ("/v1/artifacts/" +:+ id); post ("/v1/artifacts/" +:+ id +:+ "/access") []]
  end.

Lemma returning_triple {A} (f : A -> answer) (m : io A) (R : A -> Prop) Q :
  triple scoped_request m R -> (forall a, R a -> Q (f a)) -> triple scoped_request (returning f m) Q.
Proof. intros Hm Hf. unfold returning. eapply triple_bind; [exact Hm|]. intros a Ha. by apply triple_ret, Hf. Qed.

Lemma Admit_triple r : triple scoped_request (Admit options server r) (fun r => run_in_scope r /\ RunProcessor r = "atheros.dedup").
Proof.
  unfold Admit. do 6 (eapply triple_bind; [apply triple_guard|]; intros [] _).
  destruct (Marshal _) as [body|] eqn:E; [|apply triple_fail]. apply triple_request. right. split_and!; [done| |by exists "runs"].
  exists (sorted_members (admit_body options r)). split; [done|]. split; [apply sorted_members_keys|].
  rewrite !sorted_members_elem. unfold admit_body, object. split; by simplify_map_eq.
Qed.

Lemma Service_Run_triple id :
  triple scoped_request (Service_Run options server id) (fun r => run_in_scope r /\ RunProcessor r = "atheros.dedup" /\ RunID r = id).
Proof.
  unfold Service_Run. after_guard He. after_guard Hi. eapply triple_bind.
  { apply triple_request. left. split_and!; [done|done|by exists ("runs/" +:+ PathEscape id)]. }
  intros r [Hr Hp]. passed E. apply triple_ret.
  apply negb_false_iff, String.eqb_eq in E. done.
Qed.

Lemma Catalog_triple : triple scoped_request (Catalog options server) (Forall manifest_ok).
Proof.
  unfold Catalog. eapply triple_bind; [apply (triple_get "processors")|]. intros data _.
  destruct (unmarshal_Catalog data) as [[items|]|]; [|apply triple_fail..]. destruct (forallb _ _) eqn:E; [|apply triple_fail].
  apply triple_ret, Forall_forall. intros m Hm%list_elem_of_In. rewrite List.forallb_forall in E.
  by apply validManifest_ok, E.
Qed.

Lemma Version_triple id version :
  triple scoped_request (Service_Version options server id version)
    (fun m => manifest_ok m /\ ManifestProcessor m = id /\ ManifestVersion m = version).
Proof.
  unfold Service_Version. after_guard Hi. eapply triple_bind; [apply (triple_get ("processor-versions/" +:+ id +:+ "/" +:+ version))|].
  intros data _. destruct (unmarshal_Manifest data) as [m|]; [|apply triple_fail]. passed E.
  apply triple_ret. repeat (apply orb_false_iff in E as [E ?]). rewrite negb_false_iff in *. rewrite String.eqb_eq in *.
  apply validManifest_ok in E. done.
Qed.

Lemma Inspect_triple id : triple scoped_request (Inspect options server id) (fun w => work_ok w /\ RunID (run_of w) = id).
Proof.
  unfold Inspect. after_guard Hi. apply negb_false_iff in Hi. assert (Hne : id <> "") by (by intros ->). intros sent Hs.
  destruct (triple_workspaceRun "GET" (scopedPath options ("/v1/runs/" +:+ id)) "" id) with (sent := sent) as [H1 H2]; [|done|].
  { left. split_and!; [done|done|by exists ("runs/" +:+ id)]. }
  split; [done|]. intros w Hw. destruct (H2 w Hw) as [Hok [H|H]]; done.
Qed.

Lemma Cancel_triple id : triple scoped_request (Cancel options server id) (fun w => work_ok w /\ RunID (run_of w) = id).
Proof.
  unfold Cancel. after_guard Hi. apply negb_false_iff in Hi. assert (Hne : id <> "") by (by intros ->).
  eapply triple_bind; [apply triple_lift|]. intros body Hb. intros sent Hs.
  destruct (triple_workspaceRun "POST" ("/v1/runs/" +:+ id +:+ "/cancel") body id) with (sent := sent) as [H1 H2]; [|done|].
  { right. split_and!; [done|exact (scopedBody_scoped _ _ Hb)|by exists ("runs/" +:+ id +:+ "/cancel")]. }
  split; [done|]. intros w Hw. destruct (H2 w Hw) as [Hok [H|H]]; done.
Qed.

Lemma AdmitProcessor_triple req :
  triple scoped_request (AdmitProcessor options server req) (fun w => forall before, promised (OpAdmitProcessor req) before (AWork w)).
Proof.
  unfold AdmitProcessor. destruct (AdmitParameters req) as [parameters|]; [|apply triple_fail].
  after_guard Hi. after_guard Ho. after_guard Hk. after_guard Hs. eapply triple_bind; [apply triple_lift|]. intros body Hb.
  eapply triple_bind.
  { apply triple_workspaceRun. right. split_and!; [done|exact (scopedBody_scoped _ _ Hb)|by exists "runs"]. }
  intros w [Hw _]. cbn zeta. passed E. apply triple_ret. intros before. cbn.
  repeat (apply orb_false_iff in E as [E ?]). rewrite negb_false_iff in *. rewrite String.eqb_eq in *. split_and!; [done..|].
  intros Hp. rewrite Hp in Ho. cbn in Ho. rewrite negb_false_iff in Ho. by apply String.eqb_eq in Ho.
Qed.

Lemma Replay_triple id key : triple scoped_request (Replay options server id key) work_ok.
Proof.
  unfold Replay. after_guard Hi. eapply triple_bind; [apply Inspect_triple|]. intros source [Hsrc Hid]. cbn zeta.
  after_guard Ho. eapply triple_bind; [apply triple_lift|]. intros body Hb. eapply triple_bind.
  { apply triple_workspaceRun. right. split_and!; [done|exact (scopedBody_scoped _ _ Hb)|by exists ("runs/" +:+ id +:+ "/replay")]. }
  intros w [Hw _]. cbn zeta. passed E. by apply triple_ret.
Qed.

Lemma Artifact_triple id :
  triple scoped_request (Artifact options server id) (fun a => artifact_ok a /\ ArtifactID a = id).
Proof.
  unfold Artifact. after_guard Hi. eapply triple_bind; [apply (triple_get ("artifacts/" +:+ id))|]. intros data _.
  destruct (unmarshal_Artifact data) as [a|]; [|apply triple_fail]. passed E.
  apply triple_ret. apply orb_false_iff in E as [E H]. rewrite negb_false_iff in *. apply String.eqb_eq in H.
  apply validArtifact_ok in E. done.
Qed.

Lemma Access_triple id :
  triple scoped_request (Access options server id) (fun a => download_ok (access_url a)).
Proof.
  unfold Access. eapply triple_bind; [apply Artifact_triple|]. intros a Ha. eapply triple_bind; [apply triple_lift|]. intros body Hb.
  eapply triple_bind; [apply (triple_post ("artifacts/" +:+ id +:+ "/access")); exact (scopedBody_scoped _ _ Hb)|]. intros data _.
  destruct (unmarshal_ArtifactAccess data) as [x|]; [|apply triple_fail]. passed E.
  by apply triple_ret, download_refused_ok.
Qed.

Lemma perform_scoped op : triple scoped_request (perform op) (fun _ => True).
Proof.
  destruct op; cbn [perform]; eapply returning_triple;
    first [apply Admit_triple|apply Service_Run_triple|apply Catalog_triple|apply Version_triple|apply AdmitProcessor_triple
          |apply Inspect_triple|apply Cancel_triple|apply Replay_triple|apply Artifact_triple|apply Access_triple|idtac];
    done.
Qed.

(** *** What was read first *)

Lemma bind_inl {A B} (m : io A) (f : A -> io B) sent sent' b :
  bind m f sent = (sent', inl b) -> exists mid a, m sent = (mid, inl a) /\ f a mid = (sent', inl b).
Proof. unfold bind. destruct (m sent) as [mid [a|e]]; [|done]. intros H. by exists mid, a. Qed.

Lemma guard_inl refused e sent sent' x : guard refused e sent = (sent', inl x) -> refused = false /\ sent' = sent.
Proof. destruct refused; [done|]. by intros [= <- <-]. Qed.

(** What an action returns is what its triple says. *)
Lemma triple_inl {A} (m : io A) (Q : A -> Prop) sent sent' a :
  triple scoped_request m Q -> Forall scoped_request sent -> m sent = (sent', inl a) -> Q a.
Proof. intros Hm Hs E. destruct (Hm sent Hs) as [_ H]. apply H. by rewrite E. Qed.

Lemma Replay_inl id key sent sent' w :
  Forall scoped_request sent -> Replay options server id key sent = (sent', inl w) -> promised (OpReplay id key) sent (AWork w).
Proof.
  intros Hs H. assert (Hw := triple_inl _ _ _ _ _ (Replay_triple id key) Hs H).
  unfold Replay in H. apply bind_inl in H as (? & [] & [_ ->]%guard_inl & H).
  apply bind_inl in H as (mid & source & Hi & H). destruct (triple_inl _ _ _ _ _ (Inspect_triple id) Hs Hi) as [_ Hid].
  apply bind_inl in H as (? & [] & [Ho ->]%guard_inl & H). apply bind_inl in H as (? & body & _ & H).
  apply bind_inl in H as (? & w' & _ & H). cbn zeta in H. destruct (_ || _) eqn:E in H; [done|]. injection H as _ <-.
  repeat (apply orb_false_iff in E as [E ?]). rewrite negb_false_iff in *. rewrite String.eqb_eq in *. apply String.eqb_neq in E.
  split; [done|]. split; [done|]. exists mid, source. split_and!; [done..|].
  intros Hd. replace (RunProcessor (run_of source)) with "atheros.dedup" in Ho by congruence.
  cbn in Ho. rewrite negb_false_iff in Ho. apply String.eqb_eq in Ho. congruence.
Qed.

Lemma Access_inl id sent sent' a :
  Forall scoped_request sent -> Access options server id sent = (sent', inl a) -> promised (OpAccess id) sent (AAccess a).
Proof.
  intros Hs H. split; [exact (triple_inl _ _ _ _ _ (Access_triple id) Hs H)|].
  unfold Access in H. apply bind_inl in H as (mid & ref & Ha & _). exists mid, ref. split; [done|].
  exact (triple_inl _ _ _ _ _ (Artifact_triple id) Hs Ha).
Qed.

Lemma perform_promised op sent sent' a :
  Forall scoped_request sent -> perform op sent = (sent', inl a) -> promised op sent a.
Proof.
  intros Hs H. destruct op; cbn [perform] in H; unfold returning in H; apply bind_inl in H as (mid & x & H & [= _ <-]);
    first [by apply (Replay_inl _ _ _ mid)|by apply (Access_inl _ _ mid)|idtac].
  - exact (triple_inl _ _ _ _ _ (Admit_triple _) Hs H).
  - exact (triple_inl _ _ _ _ _ (Service_Run_triple _) Hs H).
  - exact (triple_inl _ _ _ _ _ Catalog_triple Hs H).
  - exact (triple_inl _ _ _ _ _ (Version_triple _ _) Hs H).
  - exact (triple_inl _ _ _ _ _ (AdmitProcessor_triple _) Hs H sent).
  - exact (triple_inl _ _ _ _ _ (Inspect_triple _) Hs H).
  - exact (triple_inl _ _ _ _ _ (Cancel_triple _) Hs H).
  - exact (triple_inl _ _ _ _ _ (Artifact_triple _) Hs H).
Qed.

(** *** What is sent *)

Definition target (r : http_request) : string * string * option string := (Method r, RequestURL r, Some (Body r)).

(** An action extends what was sent by some first requests of a list, and by all
    of them if it returns. *)
Definition sends {A} (m : io A) (l : list (string * string * option string)) : Prop :=
  forall sent, exists reqs, fst (m sent) = sent ++ reqs /\ target <$> reqs `prefix_of` l /\
    forall a, snd (m sent) = inl a -> target <$> reqs = l.

Lemma sends_ret {A} (a : A) : sends (ret a) [].
Proof. intros sent. exists []. split; [by rewrite app_nil_r|]. by split. Qed.

Lemma sends_fail {A} e l : sends (A := A) (fail e) l.
Proof. intros sent. exists []. split; [by rewrite app_nil_r|]. split; [apply prefix_nil|done]. Qed.

Lemma sends_bind {A B} (m : io A) (f : A -> io B) l1 l2 :
  sends m l1 -> (forall a, sends (f a) l2) -> sends (bind m f) (l1 ++ l2).
Proof.
  intros Hm Hf sent. unfold bind. destruct (Hm sent) as (r1 & E1 & Hp1 & H1). destruct (m sent) as [mid [a|e]]; cbn [fst snd] in *.
  - destruct (Hf a mid) as (r2 & E2 & Hp2 & H2). exists (r1 ++ r2). rewrite E2, fmap_app, (H1 a eq_refl).
    split; [by rewrite E1, app_assoc|]. split; [by apply prefix_app|]. intros b Hb. by rewrite (H2 b Hb).
  - exists r1. split; [done|]. split; [|done]. by apply prefix_app_r.
Qed.

Lemma sends_guard {B} refused e (f : unit -> io B) l : sends (f tt) l -> sends (bind (guard refused e) f) l.
Proof. intros Hf. destruct refused; [apply sends_fail|exact Hf]. Qed.

Lemma sends_body {B} r (f : string -> io B) l : (forall body, r = inl body -> sends (f body) l) -> sends (bind (lift r) f) l.
Proof. intros Hf. destruct r as [body|e]; [by apply Hf|apply sends_fail]. Qed.

Lemma sends_do method path body :
  sends (do options server method path body) [(method, TrimRight (ManagerURL options) "/" +:+ path, Some body)].
Proof.
  unfold do. do 3 apply sends_guard. intros sent. eexists [_]. cbn [fst snd]. split; [reflexivity|]. by split.
Qed.

(** The rest of an action sends nothing more. *)
Lemma sends_then {A B} (m : io A) (f : A -> io B) l : sends m l -> (forall a, sends (f a) []) -> sends (bind m f) l.
Proof. intros Hm Hf. rewrite <-(app_nil_r l). by apply sends_bind. Qed.

Ltac sends_step :=
  first [apply sends_ret|apply sends_fail|apply sends_do|apply sends_guard
        |apply sends_then; [|intro]
        |match goal with |- sends (match ?x with _ => _ end) _ => destruct x end].

Lemma sends_workspaceRun method path body expected :
  sends (workspaceRun options server method path body expected)
    [(method, TrimRight (ManagerURL options) "/" +:+ path, Some body)].
Proof. unfold workspaceRun. repeat sends_step. Qed.

Lemma perform_sends op : sends (perform op) (asks op).
Proof.
  destruct op; cbn [perform asks]; unfold returning; (apply sends_then; [|intros; apply sends_ret]).
  - unfold Admit, request. do 6 apply sends_guard. destruct (Marshal _); repeat sends_step.
  - unfold Service_Run, request. repeat sends_step.
  - unfold Catalog. repeat sends_step.
  - unfold Service_Version. repeat sends_step.
  - unfold AdmitProcessor. destruct (AdmitParameters req) as [parameters|]; [|apply sends_fail]. do 4 apply sends_guard.
    change (default ∅ (Some parameters)) with parameters. apply sends_body. intros body ->. cbn [body_of]. apply sends_then; [apply sends_workspaceRun|]. intros. repeat sends_step.
  - unfold Inspect. apply sends_guard, sends_workspaceRun.
  - unfold Cancel. apply sends_guard, sends_body. intros body ->. apply sends_workspaceRun.
  - unfold Replay. apply sends_guard. apply (sends_bind _ _ [_] [_]).
    { unfold Inspect. apply sends_guard, sends_workspaceRun. }
    intros source. apply sends_guard, sends_body. intros body ->. apply sends_then; [apply sends_workspaceRun|].
    intros. repeat sends_step.
  - unfold Artifact. repeat sends_step.
  - unfold Access. apply (sends_bind _ _ [_] [_]); [unfold Artifact; repeat sends_step|]. intros _.
    apply sends_body. intros body ->. cbn [body_of]. repeat sends_step.
Qed.

(** Operations one after the other, each with the requests before and after it. *)
Fixpoint session (ops : list operation) (before : list http_request)
    : list (list http_request * operation * list http_request * (answer + app_error)) * list http_request :=
  match ops with
  | [] => ([], before)
  | op :: ops =>
      let '(after, r) := perform op before in
      let '(steps, sent) := session ops after in ((before, op, after, r) :: steps, sent)
  end.

(** The requests of one operation and its result. *)
Definition step_sound (step : list http_request * operation * list http_request * (answer + app_error)) : Prop :=
  let '(before, op, after, r) := step in
  exists reqs, after = before ++ reqs /\ target <$> reqs `prefix_of` asks op /\
    forall a, r = inl a -> target <$> reqs = asks op /\ promised op before a.

Lemma session_sound ops before :
  Forall scoped_request before ->
  let '(steps, sent) := session ops before in
  Forall scoped_request sent /\ Forall step_sound steps /\ (fun step => snd (fst (fst step))) <$> steps = ops.
Proof.
  revert before. induction ops as [|op ops IH]; intros before Hs; [by split_and!|]. cbn [session].
  destruct (perform_scoped op before Hs) as [H1 _]. destruct (perform_sends op before) as (reqs & E & Hp & Hr).
  assert (Ha := perform_promised op before). destruct (perform op before) as [after r]. cbn [fst snd] in *.
  specialize (IH after H1). destruct (session ops after) as [steps sent]. destruct IH as (IH1 & IH2 & IH3).
  split; [done|]. split; [|cbn; by rewrite <-IH3]. constructor; [|done]. exists reqs. split; [done|]. split; [done|].
  intros a ->. split; [by apply (Hr a)|]. by apply (Ha after).
Qed.

(** C34. Whatever is asked of the client and whatever the manager answers, each
    request goes to the manager under /v1/ with the service token, at most
    64 KiB, and names the installation and the namespace of the deployment, in
    the query of a GET or among the members of a POST; a disabled client sends
    nothing.  Each operation makes the requests that ask for it, in order, all
    of them when it returns a result, and a result passed its checks: runs,
    manifests and artifacts are in the scope of the deployment; a run, version
    or artifact that is read is the one named, a cancelled run the one named;
    the workspace admits the processor, version and operation asked for; a
    replay is another run of the processor, version and operation of the run
    that was read first; access is a URL of the safe form for an artifact whose
    metadata was read first.  Of a run that Admit returns only the scope and the
    processor are checked. *)
Theorem dq_session_scoped ops :
  let '(steps, sent) := session ops [] in
  (fun step => snd (fst (fst step))) <$> steps = ops /\
  Forall scoped_request sent /\ (Enabled options = false -> sent = []) /\ Forall step_sound steps.
Proof.
  assert (H := session_sound ops [] (Forall_nil_2 _)). destruct (session ops []) as [steps sent]. destruct H as (H1 & H2 & H3).
  split; [done|]. split; [done|]. split; [|done]. intros Hd. destruct sent as [|r sent]; [done|].
  apply Forall_cons in H1 as [[He _ _ _] _]. congruence.
Qed.
End sent.

(** An id is one segment of a path: it needs no escaping, and has no separator. *)
Lemma validID_segment id :
  validID id = true -> PathEscape id = id /\ QueryEscape id = id /\ forall c, c ∈ bytes id -> in_set "/?#%&=" c = false.
Proof.
  unfold validID. intros [_ Hc]%andb_prop. rewrite List.forallb_forall in Hc.
  assert (Hu : forall c, id_char c = true -> unreserved c = true /\ in_set "/?#%&=" c = false).
  { intros [[] [] [] [] [] [] [] []]; vm_compute; try discriminate; by split. }
  assert (Hb : forall l, (forall c, c ∈ l -> id_char c = true) ->
    (l ≫= fun c => if unreserved c || in_set "$&+:=@" c then [c] else percent c) = l /\
    (l ≫= fun c => if unreserved c then [c] else if code c =? 32 then ["+"%char] else percent c) = l).
  { induction l as [|c l IH]; intros Hl; [done|]. destruct (Hu c) as [E _]; [apply Hl; left|].
    destruct IH as [H1 H2]; [intros d Hd; apply Hl; by right|]. rewrite !bind_cons, E, H1, H2. done. }
  assert (Hin : forall c, c ∈ bytes id -> id_char c = true) by (intros c H; apply Hc; by apply list_elem_of_In).
  destruct (Hb (bytes id) Hin) as [H1 H2]. unfold PathEscape, QueryEscape. rewrite H1, H2.
  split_and!; [apply String.string_of_list_ascii_of_string..|]. intros c H. apply Hu. by apply Hin.
Qed.

(** The shell's files are asked for without credentials, and only by a path of
    the list. *)
Theorem assets_anonymous {Std : DqStd} options server r req reply :
  ServeAssets options server r = (Some req, reply) ->
  Enabled options = true /\ Authorization req = "" /\ Body req = "" /\ (Method req = "GET" \/ Method req = "HEAD") /\
  exists path, RequestURL req = TrimRight (ManagerURL options) "/" +:+ path /\
    (path = "/dq-ui/embedded.html" \/ shellAsset path = true).
Proof.
  unfold ServeAssets. destruct (_ && _) eqn:Em; [done|]. destruct (negb (Enabled options)) eqn:Ee; [done|].
  destruct (_ || _) eqn:Ep; [done|]. destruct (bool_decide _); [done|]. intros [= <- _].
  apply negb_false_iff in Ee. repeat (apply orb_false_iff in Ep as [Ep ?]). apply andb_false_iff in Em.
  split_and!; [done|done|done| |].
  - destruct Em as [E|E]; rewrite negb_false_iff, String.eqb_eq in E; auto.
  - exists (AssetPath r). split; [done|]. match goal with H : _ && _ = false |- _ => apply andb_false_iff in H as [H|H] end;
      rewrite negb_false_iff in *; [left; by apply String.eqb_eq|by right].
Qed.

(** ** Witness: a manager that answers with the id of a run *)

Module DqSample.
Definition run (id : string) : WorkspaceRun := {|
  run_of := {| RunID := id; RunInstallation := "site"; RunNamespace := "lab"; RunProcessor := "atheros.dedup";
               RunVersion := "1"; RunOperation := "prepare_candidates"; RunParameters := "{}"; RunStatus := "queued";
               StateRevision := 1; ExecutionMode := "shadow"; ProjectionApplied := false; CreatedAt := ""; CompletedAt := "";
               ErrorCode := ""; SanitizedError := "" |};
  WorkDigest := ""; WorkPolicy := ""; DeadlineAt := ""; InputRefs := []; OutputRefs := []; CurrentAttempt := None |}.

Definition artifact (id : string) : Artifact_t := {|
  ArtifactID := id; ArtifactInstallation := "site"; ArtifactNamespace := "lab"; URI := ""; VersionID := "v"; ETag := "";
  SHA256 := of_bytes (repeat "a"%char 64); SchemaID := ""; MediaType := ""; SizeBytes := 0; ProducerRunID := "r1" |}.

Definition url : parsed_url := {|
  u_scheme := "https"; u_host := "dq"; u_hostname := "dq"; u_has_user := false; u_path := ""; u_raw_path := "";
  u_raw_query := ""; u_fragment := "" |}.

Definition std : DqStd := {|
  Marshal members := Some (Join (members.*1) ","); Valid _ := true; unmarshal_object _ := Some (Some ∅);
  unmarshal_Run _ := None; unmarshal_Catalog _ := None; unmarshal_Manifest _ := None;
  unmarshal_WorkspaceRun data := Some (run data); unmarshal_Artifact data := Some (artifact data);
  unmarshal_ArtifactAccess data := Some {| DownloadURL := data; AccessURL := ""; ExpiresAt := "" |};
  Parse _ := Some url |}.

Definition options : Options := {|
  Enabled := true; ManagerURL := "https://dq/"; ServiceToken := "secret"; InstallationID := "site"; Namespace := "lab";
  RemoteOrigin := "" |}.

Definition server (sent : list http_request) (r : http_request) : http_answer :=
  Response 200 (if String.eqb (Method r) "GET" then "r1" else "r2") None.
End DqSample.

(** A replay reads the run and then posts its replay. *)
Example replay_requests :
  match Replay (Std := DqSample.std) DqSample.options DqSample.server "r1" "k" [] with
  | (sent, inl w) => RequestURL <$> sent = ["https://dq/v1/runs/r1?installation_id=site&namespace=lab"; "https://dq/v1/runs/r1/replay"]
                     /\ RunID (run_of w) = "r2"
  | _ => False
  end.
Proof. vm_compute. by split. Qed.

(** The access to an artifact takes two requests. *)
Example access_requests :
  Method <$> fst (Access (Std := DqSample.std) DqSample.options DqSample.server "r1" []) = ["GET"; "POST"].
Proof. vm_compute. reflexivity. Qed.
