(* ===== verification/RecordContext.v ===== *)
(** * The context of a record (search/record_context.go, scoped_explain.go)

    One stored document with the observed rate, the neighbourhood of the
    identifier it carries, and the state of its embeddings.  The document is read
    before the transaction, whose statements share one snapshot; each statement
    may fail. *)

From S2P Require Import Prelude GoErrors GoStrings GoTime GoSort GoFloats GoCrypto QueryScope SearchResults SearchService SqlGroup.
From S2P Require Import Annotations Graph Investigation.

(** ** Data *)

Definition RecordContextDefaultWindow : duration := 24 * Hour.
Definition RecordContextMaxWindow : duration := 7 * 24 * Hour.
Definition RecordContextDefaultBuckets : Z := 15.
Definition recordContextMaxBuckets : Z := 24 * 60.
Definition recordContextNeighbourLimit : Z := 100.

Record RecordFields := {
  DocumentID : string;
  RecordSourceKey : string;
  SourceTable : string;
  RecordSourceKind : string;
  RecordStatus : string;
  RecordMAC : string;
  RecordBSSID : string;
  RecordSSID : string;
  RecordLocation : string;
  RecordSensor : string;
  RecordSubtype : string;
  RecordClassification : string;
  Title : string;
  Producer : string;
  RecordTags : list string;
  RecordFlags : Z;
  Handshake : bool;
  RecordHost : string;
  RecordBlocked : option bool;
  RecordEventType : string;
  RecordDeviceID : string;
  RecordObservedAt : option time;
  RecordWindowStart : option time;
  RecordWindowEnd : option time;
  NormalizedSHA : string;
  DetailJSON : string;
  SequenceTokens : list string;
}.

Record ActivityBucket := {
  BucketStart : time;
  BucketFrames : Z;
  FramesPerMin : float64;
  SensorCount : Z;
  APCount : Z;
  BucketRSSI : option float64;
  FirstSeen : time;
  LastSeen : time;
}.

Record ActivityTotals := {
  Buckets : Z;
  TotalFrames : Z;
  TotalPerMin : float64;
  PeakFrameRate : float64;
  PeakWindow : option time;
  PeakSensors : Z;
  PeakAPs : Z;
  TotalFirst : option time;
  TotalLast : option time;
}.

Record Communication := {
  CommType : string;
  From : string;
  To : string;
  CommWeight : float64;
  CommWeightBasis : string;
  CommConfidence : string;
  CommFresh : bool;
  CommEvidence : list string;
}.

Record Neighbour := {
  PeerMAC : string;
  PeerLabel : string;
  PeerAPs : Z;
  WindowCount : Z;
  PeerSensors : Z;
  PeerFrames : Z;
  PeerRSSI : option float64;
  PeerFirst : time;
  PeerLast : time;
  Qualifies : bool;
}.

Record RelatedContext := {
  RelatedKind : string;
  RelatedID : string;
  Neighbours : list Neighbour;
  RelatedLinks : list Communication;
  RelatedProximity : string;
  RelatedSignal : string;
  RelatedConfidence : string;
  RelatedFocus : string;
}.

Record EmbeddingWork := {
  WorkKind : string;
  WorkModel : string;
  WorkRevision : string;
  WorkStatus : string;
  AttemptCount : Z;
  MaxAttempts : Z;
  NextAttemptAt : option time;
  LastError : string;
  CompletedAt : option time;
  EmbeddedAt : option time;
  ContentSHA : string;
  HasVector : bool;
  ContentCurrent : bool;
}.

Record RecordContextRequest := {
  ContextKey : string;
  ContextKind : SearchKind;
  ContextFilters : option SearchFilters;
  Window : duration;
  RequestBucket : Z;
}.

Record RecordContext_t := {
  SourceKey : string;
  FoundRecord : bool;
  TheRecord : option RecordFields;
  ContextStart : time;
  ContextEnd : time;
  BucketMinutes : Z;
  Activity : list ActivityBucket;
  ActivityTotal : ActivityTotals;
  Related : option RelatedContext;
  RelatedReason : string;
  Embedding : list EmbeddingWork;
  EmbeddingNote : string;
  ContextFreshness : InvestigationFreshness;
  ContextGenerated : time;
}.

(** ** The tables *)

(** A row of search_documents with the columns a record shows. *)
Record record_row := {
  rr_event : event_row;
  rr_source_id : string;
  rr_source_table : option string;
  rr_title : option string;
  rr_producer : option string;      (* metadata ->> 'producer' *)
  rr_tags : string;                 (* tags::text, empty for NULL *)
  rr_window_start : option time;
  rr_window_end : option time;
  rr_normalized_sha256 : option string;
  rr_detail_json : option string;
}.

Record job_row := {
  job_document : string;
  job_kind : string;
  job_model : string;
  job_revision : string;
  job_status : string;
  job_attempts : option Z;
  job_max_attempts : option Z;
  job_next_attempt : option time;
  job_last_error : option string;
  job_completed_at : option time;
  job_sha : option string;
}.

(** [v_nonzero]: the product of the vector with itself, negated, is below 0. *)
Record vector_row := {
  v_document : string;
  v_kind : string;
  v_model : string;
  v_revision : string;
  v_sha : option string;
  v_embedded_at : option time;
  v_nonzero : option bool;
}.

Record text_row := {
  t_document : string;
  t_status : string;
  t_sha : option string;
  t_text : option string;
  t_revision : option string;
}.

(** The tables of the transaction, besides those of an investigation. *)
Record embedding_store := {
  jobs : list job_row;
  vectors : list vector_row;
  texts : list text_row;
}.

(** encoding/json on a list of texts, and on the tokens of a detail payload. *)
Class RecordJSON := {
  unmarshal_strings : string -> option (list string);
  unmarshal_tokens : string -> option (list string);
}.

Inductive record_statement := ResolveQuery | RecordBegin | ActivityQuery | NeighbourQuery | EmbeddingQuery | RecordCommit.

(** ** Numbers *)

(** math.Round: to the nearest integer, halves away from zero. *)
Definition Round (x : float64) : float64 :=
  match x with
  | S754_finite s m e =>
      if 0 <=? e then x
      else
        let n := (Zpos m + 2 ^ (- e - 1)) / 2 ^ (- e) in
        if n =? 0 then S754_zero s else f64_of_Z (if s then - n else n)
  | _ => x
  end.

Definition round2 (value : float64) : float64 :=
  if is_nan value || is_inf value then f_zero
  else f64_div (Round (f64_mul value (f64_of_Z 100))) (f64_of_Z 100).

(** Truth in SQL. *)
Definition sql_and (a b : option bool) : option bool :=
  match a, b with
  | Some false, _ | _, Some false => Some false
  | Some true, b => b
  | a, Some true => a
  | None, None => None
  end.

Definition sql_eq (a b : option string) : option bool :=
  match a, b with Some a, Some b => Some (String.eqb a b) | _, _ => None end.

(** ** The stored document *)

Definition proxy_kind (kind : string) : bool :=
  String.eqb kind "proxy_event" || String.eqb kind "proxy_blocked_host_window".

(** What an investigation can be focused on: a device, an access point or
    nothing, with an empty kind. *)
Definition anchor (f : RecordFields) : string * string :=
  if proxy_kind (RecordSourceKind f) then ("", "")
  else if MacPattern (RecordMAC f) then ("device", RecordMAC f)
  else if MacPattern (RecordBSSID f) then ("ap", RecordBSSID f)
  else ("", "").

Section record.
Context {J : RecordJSON}.
(** AVG of a column of floats, in the order the database adds them. *)
Context (sql_avg : list float64 -> float64).
(** The documents as the first statement sees them; the snapshot of the
    transaction; what the clock reads; the statements that fail. *)
Context (records : list record_row) (st : evidence_store) (es : embedding_store) (now : time).
Context (fails : record_statement -> option error) (tx_fails : statement -> option error).

Definition answered {A} (s : record_statement) (rows : A) : A + app_error :=
  match fails s with Some err => inr (Plain err) | None => inl rows end.

Definition average (l : list (option float64)) : option float64 :=
  match omap id l with [] => None | l => Some (sql_avg l) end.

Definition decodeStringList (raw : string) : list string :=
  if is_empty raw then [] else default [] (unmarshal_strings raw).

Definition sequenceTokensFromDetail (detail : string) : list string :=
  if is_empty (TrimSpace detail) then [] else default [] (unmarshal_tokens detail).

Definition record_matches (key : string) (kinds : list string) (f : option SearchFilters) (row : record_row) : bool :=
  let e := rr_event row in
  String.eqb (rr_source_id row) key && in_list kinds (Some (doc_source_kind e)) && String.eqb (doc_status e) "active"
  && match f with Some f => in_document_scope (fun mac => mjoin (display_names st !! mac)) f (doc e) | None => true end.

Definition fields_of (row : record_row) : RecordFields :=
  let e := rr_event row in
  let d := doc e in
  let detail := default "{}" (rr_detail_json row) in
  {| DocumentID := doc_id e; RecordSourceKey := rr_source_id row; SourceTable := coalesce (rr_source_table row);
     RecordSourceKind := doc_source_kind e; RecordStatus := doc_status e; RecordMAC := coalesce (c_source_mac d);
     RecordBSSID := coalesce (c_bssid d); RecordSSID := coalesce (c_ssid d); RecordLocation := coalesce (c_location_id d);
     RecordSensor := coalesce (c_sensor_id d); RecordSubtype := coalesce (c_frame_subtype d);
     RecordClassification := coalesce (c_classification d); Title := coalesce (rr_title row);
     Producer := coalesce (rr_producer row); RecordTags := decodeStringList (rr_tags row);
     RecordFlags := default 0 (c_security_flags d); Handshake := default false (c_handshake_captured d);
     RecordHost := coalesce (c_host d); RecordBlocked := c_blocked d; RecordEventType := coalesce (c_proxy_event_type d);
     RecordDeviceID := coalesce (c_proxy_device_id d); RecordObservedAt := c_observed_at d;
     RecordWindowStart := rr_window_start row; RecordWindowEnd := rr_window_end row;
     NormalizedSHA := btrim (coalesce (rr_normalized_sha256 row)); DetailJSON := detail;
     SequenceTokens := sequenceTokensFromDetail detail |}.

(** The document a key names, if there is one. *)
Definition resolveDocument (key : string) (kinds : list string) (f : option SearchFilters) : option RecordFields + app_error :=
  answered ResolveQuery
    (fields_of <$> head (ordered (less_on (fun row => doc_source_kind (rr_event row)) str_ltb) 1
                           (List.filter (record_matches key kinds f) records))).

(** ** Activity *)

Definition unix_epoch : time := 62135596800 * Second.

(** The start of the bucket of an instant, on the epoch's grid. *)
Definition bucket_of (minutes : Z) (t : time) : time :=
  let width := minutes * 60 * Second in unix_epoch + (t - unix_epoch) / width * width.

Definition activity_row (kind id : string) (start end_ : time) (row : SummaryRow) : bool :=
  String.eqb (if String.eqb kind "ap" then s_bssid row else s_source_mac row) id
  && (start <=? window_start row) && (window_start row <? end_).

Definition activity_rows (kind id : string) (start end_ : time) : list SummaryRow :=
  List.filter (activity_row kind id start end_) (summaries st).

Definition bucket_group (minutes : Z) (rows : list SummaryRow) (b : time) : ActivityBucket :=
  let group := members (bucket_of minutes ∘ window_start) rows b in
  let frames := sum_of (frame_count <$> group) in
  {| BucketStart := b; BucketFrames := frames;
     FramesPerMin := round2 (f64_div (f64_of_Z frames) (f64_of_Z minutes));
     SensorCount := count_distinct s_sensor_id group; APCount := count_distinct s_bssid group;
     BucketRSSI := average (rssi_avg_dbm <$> group); FirstSeen := min_of (first_observed_at <$> group);
     LastSeen := max_of (last_observed_at <$> group) |}.

Definition activity_of (minutes : Z) (rows : list SummaryRow) : list ActivityBucket :=
  sort_by (less_on BucketStart Z.ltb)
    (bucket_group minutes rows <$> group_keys (bucket_of minutes ∘ window_start) rows).

Definition no_totals : ActivityTotals := {|
  Buckets := 0; TotalFrames := 0; TotalPerMin := f_zero; PeakFrameRate := f_zero; PeakWindow := None; PeakSensors := 0;
  PeakAPs := 0; TotalFirst := None; TotalLast := None |}.

Definition add_bucket (t : ActivityTotals) (item : ActivityBucket) : ActivityTotals :=
  let peak := f_gtb (FramesPerMin item) (PeakFrameRate t) in
  {| Buckets := Buckets t; TotalFrames := TotalFrames t + BucketFrames item; TotalPerMin := TotalPerMin t;
     PeakFrameRate := if peak then FramesPerMin item else PeakFrameRate t;
     PeakWindow := if peak then Some (BucketStart item) else PeakWindow t;
     PeakSensors := if PeakSensors t <? SensorCount item then SensorCount item else PeakSensors t;
     PeakAPs := if PeakAPs t <? APCount item then APCount item else PeakAPs t;
     TotalFirst := match TotalFirst t with
                   | Some first => if FirstSeen item <? first then Some (FirstSeen item) else Some first
                   | None => Some (FirstSeen item)
                   end;
     TotalLast := match TotalLast t with
                  | Some last => if last <? LastSeen item then Some (LastSeen item) else Some last
                  | None => Some (LastSeen item)
                  end |}.

Definition totals_of (minutes : Z) (activity : list ActivityBucket) : ActivityTotals :=
  let t := fold_left add_bucket activity no_totals in
  let n := Z.of_nat (length activity) in
  {| Buckets := n; TotalFrames := TotalFrames t;
     TotalPerMin := if 0 <? n then round2 (f64_div (f64_of_Z (TotalFrames t)) (f64_mul (f64_of_Z minutes) (f64_of_Z n)))
                    else f_zero;
     PeakFrameRate := PeakFrameRate t; PeakWindow := PeakWindow t; PeakSensors := PeakSensors t; PeakAPs := PeakAPs t;
     TotalFirst := TotalFirst t; TotalLast := TotalLast t |}.

Definition loadRecordActivity (kind id : string) (start end_ : time) (minutes : Z)
    : (list ActivityBucket * ActivityTotals) + app_error :=
  (let! activity := answered ActivityQuery (activity_of minutes (activity_rows kind id start end_)) in
   inl (activity, totals_of minutes activity))%go.

(** ** Neighbours *)

Definition window_key (row : SummaryRow) : time * string * string := (window_start row, s_sensor_id row, s_bssid row).

(** The CTE anchor: the windows of the device. *)
Definition anchor_windows (mac : string) (start end_ : time) : list (time * string * string) :=
  remove_dups (window_key <$> List.filter (activity_row "device" mac start end_) (summaries st)).

(** A window of the anchor with a summary of another device in it. *)
Definition shared_row : Type := (time * string * string) * SummaryRow.

Definition shared_with (mac : string) (p : shared_row) : bool :=
  bool_decide (window_key (snd p) = fst p) && negb (String.eqb (s_source_mac (snd p)) mac)
  && MacPattern (s_source_mac (snd p)).

Definition shared_rows (mac : string) (start end_ : time) : list shared_row :=
  List.filter (shared_with mac) (list_prod (anchor_windows mac start end_) (summaries st)).

Definition peer_mac (p : shared_row) : string := s_source_mac (snd p).

Definition neighbour_group (rows : list shared_row) (mac : string) : Neighbour :=
  let group := members peer_mac rows mac in
  let windows := count_distinct (fun p => fst (fst (fst p))) group in
  let sensors := count_distinct (fun p => snd (fst (fst p))) group in
  {| PeerMAC := mac; PeerLabel := label_of st mac; WindowCount := windows; PeerSensors := sensors;
     PeerAPs := count_distinct (fun p => snd (fst p)) group; PeerFrames := sum_of (frame_count ∘ snd <$> group);
     PeerRSSI := average (rssi_avg_dbm ∘ snd <$> group); PeerFirst := min_of (first_observed_at ∘ snd <$> group);
     PeerLast := max_of (last_observed_at ∘ snd <$> group); Qualifies := QualifiesRFOverlap sensors windows |}.

Definition neighbour_less : Neighbour -> Neighbour -> bool :=
  less_then WindowCount (flip_less Z.ltb) id
    (less_then PeerSensors (flip_less Z.ltb) id (less_then PeerFrames (flip_less Z.ltb) id (less_on PeerMAC str_ltb))).

Definition loadRecordNeighbours (mac : string) (start end_ : time) : list Neighbour + app_error :=
  let rows := shared_rows mac start end_ in
  answered NeighbourQuery (ordered neighbour_less recordContextNeighbourLimit (neighbour_group rows <$> group_keys peer_mac rows)).

(** ** The neighbourhood *)

Definition peer_link (mac : string) (cutoff : time) (peer : Neighbour) : Communication := {|
  CommType := "inferred_rf_similarity"; From := device_id mac; To := device_id (PeerMAC peer);
  CommWeight := f64_of_Z (WindowCount peer); CommWeightBasis := "time_overlap_windows";
  CommConfidence := RFConfidence (PeerSensors peer) (WindowCount peer); CommFresh := negb (PeerLast peer <? cutoff);
  CommEvidence := [] |}.

Definition member_neighbour (m : RosterMember) : Neighbour := {|
  PeerMAC := MemberMAC m; PeerLabel := MemberName m; PeerAPs := 0; WindowCount := 1; PeerSensors := 0;
  PeerFrames := MemberRecords m; PeerRSSI := None; PeerFirst := MemberFirst m; PeerLast := MemberLast m;
  Qualifies := false |}.

Definition communication_of (l : InvestigationLink) : Communication := {|
  CommType := LinkType l; From := LinkSource l; To := LinkTarget l; CommWeight := LinkWeight l;
  CommWeightBasis := LinkWeightBasis l; CommConfidence := LinkConfidence l; CommFresh := LinkFresh l;
  CommEvidence := LinkEvidence l |}.

Definition related_request (kind id : string) (start end_ : time) : InvestigationRequest := {|
  Anchor := {| AnchorKind := kind; AnchorID := id |}; APBSSID := ""; DeviceMAC := ""; LocationIDs := []; SensorIDs := [];
  SSID := ""; Investigation.ObservedAfter := Some start; Investigation.ObservedBefore := Some end_;
  NodeLimit := InvestigationDefaultNodes; EdgeLimit := InvestigationDefaultEdges; EvidencePage := 0;
  EvidenceSize := InvestigationDefaultRows |}.

Definition loadRecordRelated (kind id : string) (start end_ : time) : RelatedContext + app_error :=
  (let! request := NormalizeInvestigationRequest now (related_request kind id start end_) in
   let cutoff := now - 24 * Hour in
   let device := String.eqb kind "device" in
   let! f := RecordEvidence st tx_fails request cutoff (negb device) no_findings in
   let! peers := if device then loadRecordNeighbours id start end_ else inl (member_neighbour <$> Roster f) in
   let corroborated := if device then List.filter Qualifies peers else [] in
   inl {| RelatedKind := kind; RelatedID := id; Neighbours := peers;
          RelatedLinks := (peer_link id cutoff <$> corroborated) ++ (communication_of <$> Links f);
          RelatedProximity := if device then match corroborated with [] => "unknown" | _ => "inferred" end
                              else RFProximity f;
          RelatedSignal := if existsb (fun p => bool_decide (is_Some (PeerRSSI p))) peers
                           then "sensor-measured RSSI available" else "RSSI unavailable";
          RelatedConfidence := "evidence quality is based on retained frame and sensor coverage; it is not a probability or physical distance";
          RelatedFocus := TrimSpace (" " +:+ rfProximityReason f) |})%go.

(** ** Embeddings *)

Definition vector_matches (j : job_row) (v : vector_row) : bool :=
  String.eqb (v_document v) (job_document j) && String.eqb (v_kind v) (job_kind j) && String.eqb (v_model v) (job_model j)
  && String.eqb (v_revision v) (job_revision j) && bool_decide (sql_eq (v_sha v) (job_sha j) = Some true).

(** LEFT JOIN: the vectors of a job, or one row without. *)
Definition vectors_of (j : job_row) : list (option vector_row) :=
  match List.filter (vector_matches j) (vectors es) with [] => [None] | l => Some <$> l end.

Definition content_current (j : job_row) (t : text_row) (v : option vector_row) : option bool :=
  foldl sql_and (Some (bool_decide (is_Some v)))
    [Some (String.eqb (job_status j) "completed"); Some (String.eqb (t_status t) "active");
     sql_eq (job_sha j) (t_sha t); sql_eq (Some (job_revision j)) (t_revision t);
     sql_eq (t_sha t) (sha256Hex <$> t_text t); v ≫= v_nonzero].

(** A row of the statement, and what is scanned of it. *)
Definition work_row : Type := job_row * text_row * option vector_row.

Definition work_less : work_row -> work_row -> bool :=
  less_then (job_kind ∘ fst ∘ fst) str_ltb id
    (less_then (job_model ∘ fst ∘ fst) str_ltb id (less_on (job_revision ∘ fst ∘ fst) str_ltb)).

Definition work_rows (document : string) : list work_row :=
  sort_by work_less
    (List.filter (fun j => String.eqb (job_document j) document) (jobs es) ≫= fun j =>
     List.filter (fun t => String.eqb (t_document t) (job_document j)) (texts es) ≫= fun t =>
     (fun v => (j, t, v)) <$> vectors_of j).

Definition scan_work (row : work_row) : EmbeddingWork + app_error :=
  let '(j, t, v) := row in
  match content_current j t v with
  | None => inr (Plain (Opaque "sql: Scan error: converting NULL to bool is unsupported"))
  | Some current => inl {|
      WorkKind := job_kind j; WorkModel := job_model j; WorkRevision := job_revision j; WorkStatus := job_status j;
      AttemptCount := default 0 (job_attempts j); MaxAttempts := default 0 (job_max_attempts j);
      NextAttemptAt := job_next_attempt j; LastError := coalesce (job_last_error j); CompletedAt := job_completed_at j;
      EmbeddedAt := v ≫= v_embedded_at; ContentSHA := btrim (coalesce (job_sha j)); HasVector := bool_decide (is_Some v);
      ContentCurrent := current |}
  end.

Fixpoint scan_all (rows : list work_row) : list EmbeddingWork + app_error :=
  match rows with
  | [] => inl []
  | row :: rows => (let! w := scan_work row in let! ws := scan_all rows in inl (w :: ws))%go
  end.

Definition loadRecordEmbedding (document : string) : list EmbeddingWork + app_error :=
  (let! rows := answered EmbeddingQuery (work_rows document) in scan_all rows)%go.

Definition embeddingContractNote (sha : string) : string :=
  if is_empty (TrimSpace sha) then "This document has no content hash, so embedding freshness cannot be compared."
  else "content_current requires a completed job and a nonzero vector matching the active document text hash and input revision.".

(** ** The context *)

Definition clamp_window (window : duration) : duration :=
  let window := if window <=? 0 then RecordContextDefaultWindow else window in
  if RecordContextMaxWindow <? window then RecordContextMaxWindow else window.

Definition clamp_bucket (bucket : Z) : Z :=
  let bucket := if bucket <=? 0 then RecordContextDefaultBuckets else bucket in
  if recordContextMaxBuckets <? bucket then recordContextMaxBuckets else bucket.

(** The end of the window: a minute after the record when it has a time. *)
Definition window_end (document : option RecordFields) : time :=
  match document ≫= RecordObservedAt with Some t => t + Minute | None => now end.

Definition unanchored_reason (f : RecordFields) : string :=
  if proxy_kind (RecordSourceKind f)
  then "Proxy timeline evidence is unavailable; wireless activity and neighbourhood projections do not describe proxy records."
  else "This record carries no device MAC and no AP BSSID, so the evidence projection has no neighbourhood to report for it.".

Definition unknown_freshness : InvestigationFreshness := {|
  SourceWatermark := None; Investigation.ProjectionWatermark := None; CoverageStatus := ""; CoverageReason := "" |}.

Definition empty_context (key : string) (start end_ : time) (bucket : Z) : RecordContext_t := {|
  SourceKey := key; FoundRecord := false; TheRecord := None; ContextStart := start; ContextEnd := end_; BucketMinutes := bucket;
  Activity := []; ActivityTotal := no_totals; Related := None; RelatedReason := ""; Embedding := []; EmbeddingNote := "";
  ContextFreshness := unknown_freshness; ContextGenerated := now |}.

Definition RecordContext (req : RecordContextRequest) : RecordContext_t + app_error :=
  let key := TrimSpace (ContextKey req) in
  if is_empty key then inr (Validation "source_key is required")
  else
    (let! kinds := requestKinds (ContextKind req) in
     let! document := resolveDocument key kinds (ContextFilters req) in
     let bucket := clamp_bucket (RequestBucket req) in
     let end_ := window_end document in
     let start := end_ - clamp_window (Window req) in
     match document with
     | None => inl (empty_context key start end_ bucket)
     | Some record =>
         let! _ := answered RecordBegin tt in
         let! freshness := InvestigationWatermarks st tx_fails in
         let kind := fst (anchor record) in
         let id := snd (anchor record) in
         let! found :=
           (if is_empty kind then inl ([], no_totals, None)
            else
              let! activity := loadRecordActivity kind id start end_ bucket in
              let! related := loadRecordRelated kind id start end_ in
              inl (activity, Some related)) in
         let! embedding := loadRecordEmbedding (DocumentID record) in
         let! _ := answered RecordCommit tt in
         inl {| SourceKey := key; FoundRecord := true; TheRecord := Some record; ContextStart := start; ContextEnd := end_;
                BucketMinutes := bucket; Activity := fst (fst found); ActivityTotal := snd (fst found); Related := snd found;
                RelatedReason := if is_empty kind then unanchored_reason record else "";
                Embedding := embedding; EmbeddingNote := embeddingContractNote (NormalizedSHA record);
                ContextFreshness := freshness; ContextGenerated := now |}
     end)%go.

(** ** Explanations *)

Record ExplainDetails_t := {
  RankingMethod : string;
  ExplainKey : string;
  DenseScore : float32;
  SparseScore : float32;
  FusedScore : float32;
  ExplainBoost : float32;
  ExplainReasons : list string;
  ExplainLogProb : float64;
  ExplainFound : bool;
  ScoresAvailable : bool;
  ExplainKind : string;
  ExplainDetail : string;
  ExplainTokens : list string;
  ExplainRecord : option RecordFields;
}.

Definition f32_sub : float32 -> float32 -> float32 := SFsub 24 128.

Definition no_details (key : string) : ExplainDetails_t := {|
  RankingMethod := ""; ExplainKey := key; DenseScore := f_zero; SparseScore := f_zero; FusedScore := f_zero;
  ExplainBoost := f_zero; ExplainReasons := []; ExplainLogProb := f_zero; ExplainFound := false; ScoresAvailable := false;
  ExplainKind := ""; ExplainDetail := ""; ExplainTokens := []; ExplainRecord := None |}.

(** The details of a record, without scores. *)
Definition record_details (key : string) (f : RecordFields) : ExplainDetails_t := {|
  RankingMethod := ""; ExplainKey := key; DenseScore := f_zero; SparseScore := f_zero; FusedScore := f_zero;
  ExplainBoost := f_zero; ExplainReasons := []; ExplainLogProb := f_zero; ExplainFound := true; ScoresAvailable := false;
  ExplainKind := RecordSourceKind f; ExplainDetail := DetailJSON f; ExplainTokens := SequenceTokens f;
  ExplainRecord := Some f |}.

Definition with_sparse (score : float32) (d : ExplainDetails_t) : ExplainDetails_t := {|
  RankingMethod := "scoped_sparse_direct"; ExplainKey := ExplainKey d; DenseScore := DenseScore d; SparseScore := score;
  FusedScore := FusedScore d; ExplainBoost := ExplainBoost d; ExplainReasons := ExplainReasons d;
  ExplainLogProb := ExplainLogProb d; ExplainFound := ExplainFound d; ScoresAvailable := true; ExplainKind := ExplainKind d;
  ExplainDetail := ExplainDetail d; ExplainTokens := ExplainTokens d; ExplainRecord := ExplainRecord d |}.

(** A result of the search, with the record that was resolved. *)
Definition result_details (mode : SearchMode) (record : RecordFields) (r : RawResult) : ExplainDetails_t := {|
  RankingMethod := modeName mode; ExplainKey := SearchResults.SourceKey r; DenseScore := CosineSimilarity r;
  SparseScore := KeywordRank r; FusedScore := f32_sub (Score r) (ThreatBoost r); ExplainBoost := ThreatBoost r;
  ExplainReasons := BoostReasons r; ExplainLogProb := SequenceLogProb r; ExplainFound := true; ScoresAvailable := true;
  ExplainKind := SourceKind r; ExplainDetail := SearchResults.DetailJSON r; ExplainTokens := [];
  ExplainRecord := Some record |}.

(** The search of the service, and the rank of a document for a query. *)
Context (search : SearchRequest -> SearchResponse + app_error) (rank : string -> string -> option float32 + error).

Definition explain_request (query : string) (kind : SearchKind) : SearchRequest := {|
  SearchService.Query := query; SearchService.Kind := kind; SearchService.Mode := MODE_HYBRID; ReqTopK := 50; ReqMinSimilarity := f_zero; ReqFilters := None |}.

Definition ExplainDetails (sourceKey query : string) (kind : SearchKind) : ExplainDetails_t + app_error :=
  if is_empty sourceKey then inr (Validation "source_key is required")
  else
    (let! kinds := requestKinds kind in
     let key := TrimSpace sourceKey in
     let! document := resolveDocument key kinds None in
     match document with
     | None => inl (no_details key)
     | Some record =>
         if negb (hasMeaningfulSearchTerms query) then inl (record_details key record)
         else
           let! resp := search (explain_request query kind) in
           inl match List.find (fun r => String.eqb (SearchResults.SourceKey r) sourceKey) (Results resp) with
               | Some r => result_details (ModeUsed resp) record r
               | None => record_details key record
               end
     end)%go.

Definition ExplainScoped (sourceKey query : string) (kind : SearchKind) (f : option SearchFilters) : ExplainDetails_t + app_error :=
  let key := TrimSpace sourceKey in
  if is_empty key then inr (Validation "source_key is required")
  else
    (let! kinds := requestKinds kind in
     let! document := resolveDocument key kinds f in
     match document with
     | None => inl (no_details key)
     | Some record =>
         if negb (hasMeaningfulSearchTerms query) then inl (record_details key record)
         else
           let! score := plain (rank (DocumentID record) query) in
           inl match score with
               | Some score => with_sparse score (record_details key record)
               | None => record_details key record
               end
     end)%go.
End record.

(** ** Activity: the buckets partition the rows *)

Lemma bucket_of_spec minutes t :
  0 < minutes -> exists k, bucket_of minutes t = unix_epoch + k * (minutes * 60 * Second) /\
    bucket_of minutes t <= t < bucket_of minutes t + minutes * 60 * Second.
Proof.
  intros Hm. unfold bucket_of. set (width := minutes * 60 * Second).
  assert (Hw : 0 < width) by (unfold width; zarith). exists ((t - unix_epoch) / width). split; [done|].
  pose proof (Z.div_mod (t - unix_epoch) width ltac:(lia)). pose proof (Z.mod_pos_bound (t - unix_epoch) width Hw). nia.
Qed.

Lemma add_buckets_frames l t : TotalFrames (fold_left add_bucket l t) = TotalFrames t + sum_of (BucketFrames <$> l).
Proof. revert t. induction l as [|b l IH]; intros t; [cbn; lia|]. cbn [fold_left]. rewrite IH, fmap_cons, sum_of_cons. cbn [TotalFrames add_bucket]. lia. Qed.

(** The first and the last observation of the totals are those of the buckets. *)
Lemma add_buckets_first l t x :
  TotalFirst t = Some x -> TotalFirst (fold_left add_bucket l t) = Some (fold_left Z.min (FirstSeen <$> l) x).
Proof.
  revert t x. induction l as [|b l IH]; intros t x Hx; [done|]. rewrite fmap_cons. cbn [fold_left]. apply IH.
  cbn [TotalFirst add_bucket]. rewrite Hx. destruct (Z.ltb_spec (FirstSeen b) x); f_equal; lia.
Qed.

Lemma add_buckets_last l t x :
  TotalLast t = Some x -> TotalLast (fold_left add_bucket l t) = Some (fold_left Z.max (LastSeen <$> l) x).
Proof.
  revert t x. induction l as [|b l IH]; intros t x Hx; [done|]. rewrite fmap_cons. cbn [fold_left]. apply IH.
  cbn [TotalLast add_bucket]. rewrite Hx. destruct (Z.ltb_spec x (LastSeen b)); f_equal; lia.
Qed.

Lemma totals_span minutes l : l <> [] ->
  TotalFirst (totals_of minutes l) = Some (min_of (FirstSeen <$> l)) /\
  TotalLast (totals_of minutes l) = Some (max_of (LastSeen <$> l)).
Proof.
  destruct l as [|b l]; [done|]. intros _. cbn [totals_of TotalFirst TotalLast fold_left]. rewrite !fmap_cons.
  split; [by apply add_buckets_first|by apply add_buckets_last].
Qed.

(** The rows of a bucket: those whose window starts within its width. *)
Definition bucket_rows (minutes : Z) (rows : list SummaryRow) (b : ActivityBucket) : list SummaryRow :=
  List.filter (fun r => (BucketStart b <=? window_start r)
                        && (window_start r <? BucketStart b + minutes * 60 * Second)) rows.

Lemma bucket_of_iff minutes t k :
  0 < minutes -> let start := unix_epoch + k * (minutes * 60 * Second) in
  bucket_of minutes t = start <-> start <= t < start + minutes * 60 * Second.
Proof.
  intros Hm start. destruct (bucket_of_spec minutes t Hm) as (k' & E & Hb). split; [by intros <-|].
  rewrite E in Hb |- *. unfold start. intros Hs. f_equal. f_equal.
  assert (Hw : 0 < minutes * 60 * Second) by zarith. nia.
Qed.

Section activity.
Context (sql_avg : list float64 -> float64).

Notation activity := (activity_of sql_avg).
Notation grid minutes := (bucket_of minutes ∘ window_start).

Lemma activity_starts minutes rows : BucketStart <$> activity minutes rows ≡ₚ group_keys (grid minutes) rows.
Proof. unfold activity_of. rewrite sort_by_perm, <-list_fmap_compose. by rewrite (list_fmap_id (group_keys _ _)). Qed.

Lemma bucket_group_rows minutes rows k :
  0 < minutes -> k ∈ group_keys (grid minutes) rows ->
  bucket_rows minutes rows (bucket_group sql_avg minutes rows k) = members (grid minutes) rows k.
Proof.
  intros Hm Hk. unfold bucket_rows, members. cbn [BucketStart bucket_group]. apply List.filter_ext. intros r.
  apply group_keys_elem in Hk as (r0 & _ & <-).
  destruct (bucket_of_spec minutes (window_start r0) Hm) as (n & En & _). unfold compose. rewrite En.
  pose proof (bucket_of_iff minutes (window_start r) n Hm) as Hiff. cbv zeta in Hiff.
  apply Bool.eq_iff_eq_true. rewrite andb_true_iff, Z.leb_le, Z.ltb_lt, bool_decide_eq_true. by rewrite Hiff.
Qed.

Lemma activity_elem minutes rows b : b ∈ activity minutes rows <->
  exists k, k ∈ group_keys (grid minutes) rows /\ b = bucket_group sql_avg minutes rows k.
Proof. unfold activity_of. rewrite sort_by_elem, list_elem_of_fmap. split; intros (k & ? & ?); by exists k. Qed.

(** A bucket aggregates exactly its rows. *)
Lemma activity_bucket minutes rows b :
  0 < minutes -> b ∈ activity minutes rows ->
  let group := bucket_rows minutes rows b in
  (exists k, BucketStart b = unix_epoch + k * (minutes * 60 * Second)) /\ group <> [] /\
  BucketFrames b = sum_of (frame_count <$> group) /\
  least first_observed_at group (FirstSeen b) /\ greatest last_observed_at group (LastSeen b).
Proof.
  intros Hm (k & Hk & ->)%activity_elem group. unfold group. rewrite bucket_group_rows by done.
  pose proof (members_nonempty (grid minutes) rows k Hk) as Hn. split.
  - apply group_keys_elem in Hk as (r & _ & <-). destruct (bucket_of_spec minutes (window_start r) Hm) as (n & En & _).
    by exists n.
  - split; [done|]. split; [done|]. cbn [FirstSeen LastSeen bucket_group].
    split; [by apply min_of_least|by apply max_of_greatest].
Qed.

Lemma activity_row_bucket minutes rows r :
  0 < minutes -> r ∈ rows -> exists b, b ∈ activity minutes rows /\ r ∈ bucket_rows minutes rows b.
Proof.
  intros Hm Hr. set (k := bucket_of minutes (window_start r)).
  assert (Hk : k ∈ group_keys (grid minutes) rows) by (apply group_keys_elem; by exists r).
  exists (bucket_group sql_avg minutes rows k). split; [apply activity_elem; by exists k|].
  rewrite bucket_group_rows by done. by apply members_elem.
Qed.

(** C37. The activity of a record cuts the rows of its window into buckets of a
    fixed grid: they ascend without a repetition, each starts a whole number of
    widths after the epoch, every row falls into one of them, and a bucket has
    rows, the sum of their frames and their earliest and latest observation.
    The frames and the first and last observation of the totals are the sum, the
    earliest and the latest of all rows, and there are none without rows. *)
Theorem activity_partition minutes rows :
  0 < minutes ->
  let width := minutes * 60 * Second in
  let buckets := activity minutes rows in
  let totals := totals_of minutes buckets in
  NoDup (BucketStart <$> buckets) /\ StronglySorted (before (less_on BucketStart Z.ltb)) buckets /\
  (forall b, b ∈ buckets ->
     let group := bucket_rows minutes rows b in
     (exists k, BucketStart b = unix_epoch + k * width) /\ group <> [] /\
     BucketFrames b = sum_of (frame_count <$> group) /\
     least first_observed_at group (FirstSeen b) /\ greatest last_observed_at group (LastSeen b)) /\
  (forall r, r ∈ rows -> exists b, b ∈ buckets /\ r ∈ bucket_rows minutes rows b) /\
  TotalFrames totals = sum_of (frame_count <$> rows) /\ Buckets totals = Z.of_nat (length buckets) /\
  (rows = [] -> buckets = [] /\ TotalFirst totals = None /\ TotalLast totals = None) /\
  (rows <> [] -> exists first last, TotalFirst totals = Some first /\ TotalLast totals = Some last /\
     least first_observed_at rows first /\ greatest last_observed_at rows last).
Proof.
  intros Hm width buckets totals. pose proof (activity_starts minutes rows) as Hids. fold buckets in Hids.
  assert (Hgroup : forall b, b ∈ buckets -> _) by (intros b; exact (activity_bucket minutes rows b Hm)).
  assert (Hrow : forall r, r ∈ rows -> _) by (intros r; exact (activity_row_bucket minutes rows r Hm)).
  assert (Hsub : forall b r, r ∈ bucket_rows minutes rows b -> r ∈ rows).
  { intros b r [Hr _]%filter_elem. exact Hr. }
  split_and!; [rewrite Hids; apply group_keys_NoDup|apply sort_by_sorted, _|exact Hgroup|exact Hrow| |done| |].
  - change (TotalFrames totals) with (TotalFrames (fold_left add_bucket buckets no_totals)). rewrite add_buckets_frames.
    cbn [TotalFrames no_totals]. rewrite Z.add_0_l, <-(sum_over_groups (grid minutes) frame_count (group_keys (grid minutes) rows)).
    + unfold buckets, activity_of. rewrite (sum_of_perm _ _ (fmap_Permutation BucketFrames _ _ (sort_by_perm _ _))).
      by rewrite <-list_fmap_compose.
    + apply group_keys_NoDup.
    + intros r Hr. apply group_keys_elem. by exists r.
  - intros ->. done.
  - intros Hn. assert (Hb : buckets <> []).
    { destruct rows as [|r rows']; [done|]. destruct (Hrow r) as (b & Hb & _); [left|]. intros E.
      apply (not_elem_of_nil b). by rewrite <-E. }
    destruct (totals_span minutes buckets Hb) as [Ef El]. eexists _, _. split; [exact Ef|]. split; [exact El|].
    destruct (min_of_least FirstSeen buckets Hb) as [(b & Hbin & <-) Hmin].
    destruct (max_of_greatest LastSeen buckets Hb) as [(b' & Hbin' & <-) Hmax]. split; split.
    + destruct (Hgroup b Hbin) as (_ & _ & _ & [(r & Hr & E) _] & _). exists r. split; [by eapply Hsub|done].
    + intros r Hr. destruct (Hrow r Hr) as (b1 & Hb1 & Hr1). destruct (Hgroup b1 Hb1) as (_ & _ & _ & [_ Hle] & _).
      etrans; [by apply Hmin|by apply Hle].
    + destruct (Hgroup b' Hbin') as (_ & _ & _ & _ & [(r & Hr & E) _]). exists r. split; [by eapply Hsub|done].
    + intros r Hr. destruct (Hrow r Hr) as (b1 & Hb1 & Hr1). destruct (Hgroup b1 Hb1) as (_ & _ & _ & _ & [_ Hle]).
      etrans; [by apply Hle|by apply Hmax].
Qed.
End activity.

(** ** Neighbours: what corroborates them *)

Section neighbours.
Context (sql_avg : list float64 -> float64) (st : evidence_store) (es : embedding_store) (now : time).
Context (fails : record_statement -> option error) (tx_fails : statement -> option error).
Context (mac : string) (start end_ : time).

(** A summary of the device and one of [peer] of the same sensor window and
    access point. *)
Record meets (peer : string) (a p : SummaryRow) : Prop := {
  meets_a : a ∈ summaries st /\ s_source_mac a = mac /\ start <= window_start a < end_;
  meets_p : p ∈ summaries st /\ s_source_mac p = peer;
  meets_key : window_key p = window_key a;
}.

Definition peer_of (peer : string) : Prop := peer <> mac /\ MacPattern peer = true /\ exists a p, meets peer a p.

(** Two windows and two sensors at which they meet. *)
Definition corroborated (peer : string) : Prop :=
  peer <> mac /\ MacPattern peer = true /\
  (exists a p a' p', meets peer a p /\ meets peer a' p' /\ window_start a <> window_start a') /\
  (exists a p a' p', meets peer a p /\ meets peer a' p' /\ s_sensor_id a <> s_sensor_id a').

Notation rows := (shared_rows st mac start end_).

Lemma anchor_windows_elem k :
  k ∈ anchor_windows st mac start end_ <->
  exists a, a ∈ summaries st /\ s_source_mac a = mac /\ start <= window_start a < end_ /\ window_key a = k.
Proof.
  unfold anchor_windows. rewrite elem_of_remove_dups, list_elem_of_fmap. unfold activity_row. cbn [String.eqb].
  split.
  - intros (a & -> & Ha). apply filter_elem in Ha as [Ha H]. apply andb_prop in H as [H H2]. apply andb_prop in H as [H H1].
    exists a. split_and!; [done|by apply String.eqb_eq|by apply Z.leb_le|by apply Z.ltb_lt|done].
  - intros (a & Ha & Hm & [H1 H2] & <-). exists a. split; [done|]. apply filter_elem. split; [done|].
    rewrite !andb_true_iff. split_and!; [by apply String.eqb_eq|by apply Z.leb_le|by apply Z.ltb_lt].
Qed.

Lemma shared_members_elem peer k p :
  peer <> mac -> MacPattern peer = true ->
  (k, p) ∈ members peer_mac rows peer <-> exists a, meets peer a p /\ window_key a = k.
Proof.
  intros Hne Hp. rewrite members_elem. unfold shared_rows. rewrite filter_elem, list_elem_of_In, in_prod_iff, <-!list_elem_of_In.
  rewrite anchor_windows_elem. unfold shared_with, peer_mac. cbn [fst snd]. rewrite !andb_true_iff, bool_decide_eq_true, negb_true_iff.
  rewrite String.eqb_neq. split.
  - intros [[[(a & Ha & Hm & Hw & Hk) Hin] [[Hkey Hn] Hpat]] Hpeer]. exists a. split; [|done]. split; [done|done|congruence].
  - intros (a & [(Ha & Hm & Hw) (Hin & Hpeer) Hkey] & Hk). subst peer. split_and!; [|done|congruence|done|done|done]. by exists a.
Qed.

Lemma peer_keys peer : peer ∈ group_keys peer_mac rows <-> peer_of peer.
Proof.
  rewrite group_keys_elem. split.
  - intros ([k p] & Hr & Hpeer).
    assert (Hq : peer <> mac /\ MacPattern peer = true).
    { unfold shared_rows in Hr. apply filter_elem in Hr as [_ Hr]. unfold shared_with in Hr. cbn [fst snd] in Hr.
      unfold peer_mac in Hpeer. cbn [snd] in Hpeer. rewrite Hpeer in Hr. rewrite !andb_true_iff, negb_true_iff, String.eqb_neq in Hr. tauto. }
    destruct Hq as [Hne Hp]. split_and!; [done|done|].
    destruct (proj1 (shared_members_elem peer k p Hne Hp)) as (a & Ha & _); [by apply members_elem|]. by exists a, p.
  - intros (Hne & Hp & a & p & Hm). exists (window_key a, p).
    apply members_elem, (shared_members_elem peer (window_key a) p Hne Hp). by exists a.
Qed.

Lemma qualifies_spec peer :
  peer_of peer -> Qualifies (neighbour_group sql_avg st rows peer) = true <-> corroborated peer.
Proof.
  intros (Hne & Hp & _). cbn [Qualifies neighbour_group]. unfold QualifiesRFOverlap. rewrite andb_true_iff, !Z.leb_le, !count_distinct_two.
  assert (He := shared_members_elem peer). split.
  - intros [([k p] & [k' p'] & H1 & H2 & Hs) ([l q] & [l' q'] & H3 & H4 & Hw)]. cbn [fst snd] in Hs, Hw.
    apply He in H1 as (a & Ha & <-), H2 as (a' & Ha' & <-), H3 as (b & Hb & <-), H4 as (b' & Hb' & <-); [|done..].
    split_and!; [done|done|by exists b, q, b', q'|by exists a, p, a', p'].
  - intros (_ & _ & (b & q & b' & q' & Hb & Hb' & Hw) & (a & p & a' & p' & Ha & Ha' & Hs)). split.
    + exists (window_key a, p), (window_key a', p'). split_and!; [apply He; eauto|apply He; eauto|done].
    + exists (window_key b, q), (window_key b', q'). split_and!; [apply He; eauto|apply He; eauto|done].
Qed.

(** C36. The neighbourhood of a device, when at most a hundred devices share a window
    with it: its neighbours are exactly those devices, each once; one is
    corroborated exactly when they meet in two windows and at two sensors; and
    proximity is inferred exactly if one is, with a link to each that is. *)
Theorem corroboration_exact rel :
  loadRecordRelated sql_avg st now fails tx_fails "device" mac start end_ = inl rel ->
  Z.of_nat (length (group_keys peer_mac rows)) <= recordContextNeighbourLimit ->
  NoDup (PeerMAC <$> Neighbours rel) /\
  (forall m, m ∈ PeerMAC <$> Neighbours rel <-> peer_of m) /\
  (forall peer, peer ∈ Neighbours rel -> Qualifies peer = true <-> corroborated (PeerMAC peer)) /\
  (RelatedProximity rel = "inferred" <-> exists m, corroborated m) /\
  (forall m, corroborated m -> exists link, link ∈ RelatedLinks rel /\ CommType link = "inferred_rf_similarity" /\
     From link = device_id mac /\ To link = device_id m).
Proof.
  intros Hrel Hlen. unfold loadRecordRelated in Hrel. change (String.eqb "device" "device") with true in Hrel.
  destruct (NormalizeInvestigationRequest _ _) as [request|]; [|done]. cbn [sum_bind] in Hrel.
  destruct (RecordEvidence _ _ _ _ _ _) as [f|]; [|done]. cbn [sum_bind] in Hrel.
  destruct (loadRecordNeighbours _ _ _ _ _ _) as [peers|] eqn:Ep; [|done]. cbn [sum_bind] in Hrel.
  unfold loadRecordNeighbours, answered in Ep. destruct (fails NeighbourQuery); [done|]. injection Ep as Ep.
  assert (Hperm : peers ≡ₚ neighbour_group sql_avg st rows <$> group_keys peer_mac rows).
  { rewrite <-Ep, ordered_all by (by rewrite length_fmap). apply sort_by_perm. }
  assert (Hids : PeerMAC <$> peers ≡ₚ group_keys peer_mac rows) by (rewrite Hperm, <-list_fmap_compose; by rewrite (list_fmap_id (group_keys _ _))).
  assert (Hin : forall x, x ∈ peers -> peer_of (PeerMAC x) /\ x = neighbour_group sql_avg st rows (PeerMAC x)).
  { intros x Hx. rewrite Hperm in Hx. apply list_elem_of_fmap in Hx as (m & -> & Hm). split; [by apply peer_keys|done]. }
  assert (Hq : forall x, x ∈ peers -> Qualifies x = true <-> corroborated (PeerMAC x)).
  { intros x Hx. destruct (Hin x Hx) as [Hp ->]. by apply qualifies_spec. }
  assert (Hcor : forall m, corroborated m <-> exists x, x ∈ List.filter Qualifies peers /\ PeerMAC x = m).
  { intros m. split.
    - intros Hm. assert (Hp : peer_of m) by (destruct Hm as (? & ? & (a & p & _ & _ & ? & _) & _); split_and!; eauto).
      assert (Hx : m ∈ PeerMAC <$> peers) by (by rewrite Hids, peer_keys). apply list_elem_of_fmap in Hx as (x & -> & Hx).
      exists x. split; [|done]. apply filter_elem. split; [done|]. by apply Hq.
    - intros (x & [Hx Hxq]%filter_elem & <-). by apply Hq. }
  injection Hrel as <-. cbn [Neighbours RelatedProximity RelatedLinks]. split_and!.
  - rewrite Hids. apply group_keys_NoDup.
  - intros m. rewrite Hids. apply peer_keys.
  - exact Hq.
  - destruct (List.filter Qualifies peers) as [|x l] eqn:El; split; try done.
    + intros (m & Hm). apply Hcor in Hm as (x & Hx & _). by apply elem_of_nil in Hx.
    + intros _. exists (PeerMAC x). apply Hcor. exists x. split; [left|done].
  - intros m Hm. apply Hcor in Hm as (x & Hx & <-). exists (peer_link mac (now - 24 * Hour) x). split; [|done].
    apply elem_of_app. left. by apply list_elem_of_fmap_2.
Qed.
End neighbours.

(** ** Embeddings: when the content is current *)

Lemma sql_and_true a b : sql_and a b = Some true <-> a = Some true /\ b = Some true.
Proof. destruct a as [[]|], b as [[]|]; cbn; intuition congruence. Qed.

Lemma sql_eq_true a b : sql_eq a b = Some true <-> exists x, a = Some x /\ b = Some x.
Proof.
  destruct a as [x|], b as [y|]; cbn; split; try done; try (by intros (? & ? & ?)).
  - intros [= ->%String.eqb_eq]. by exists y.
  - intros (z & [= ->] & [= ->]). by rewrite String.eqb_refl.
Qed.

Lemma scan_all_elem rows ws w : scan_all rows = inl ws -> w ∈ ws -> exists row, row ∈ rows /\ scan_work row = inl w.
Proof.
  revert ws. induction rows as [|row rows IH]; intros ws; cbn [scan_all].
  { intros [= <-] H. by apply elem_of_nil in H. }
  destruct (scan_work row) as [w0|] eqn:E; [|done]. cbn [sum_bind]. destruct (scan_all rows) as [ws'|]; [|done]. cbn [sum_bind].
  intros [= <-] [->|H]%elem_of_cons; [exists row; split; [left|done]|]. destruct (IH ws' eq_refl H) as (r & Hr & Hw).
  exists r. split; [by right|done].
Qed.

Lemma scan_all_covers rows ws row : scan_all rows = inl ws -> row ∈ rows -> exists w, w ∈ ws /\ scan_work row = inl w.
Proof.
  revert ws. induction rows as [|r rows IH]; intros ws; cbn [scan_all]; [intros _ H; by apply elem_of_nil in H|].
  destruct (scan_work r) as [w0|] eqn:E; [|done]. cbn [sum_bind]. destruct (scan_all rows) as [ws'|]; [|done]. cbn [sum_bind].
  intros [= <-] [->|H]%elem_of_cons; [exists w0; split; [left|done]|]. destruct (IH ws' eq_refl H) as (w & Hw & Hs).
  exists w. split; [by right|done].
Qed.

Lemma work_rows_elem es document j t v :
  (j, t, v) ∈ work_rows es document <->
  j ∈ jobs es /\ job_document j = document /\ t ∈ texts es /\ t_document t = job_document j /\ v ∈ vectors_of es j.
Proof.
  unfold work_rows. rewrite sort_by_elem, list_elem_of_bind. split.
  - intros (j' & (t' & Hrow & Ht)%list_elem_of_bind & Hj). apply list_elem_of_fmap in Hrow as (v' & [= -> -> ->] & Hv).
    apply filter_elem in Hj as [Hj Hjd]. apply filter_elem in Ht as [Ht Htd]. by apply String.eqb_eq in Hjd, Htd.
  - intros (Hj & Hjd & Ht & Htd & Hv). exists j. split; [|apply filter_elem; split; [done|by apply String.eqb_eq]].
    apply list_elem_of_bind. exists t. split; [by apply list_elem_of_fmap_2|]. apply filter_elem. split; [done|]. by apply String.eqb_eq.
Qed.

(** The vector of a job embeds the text the document has now. *)
Record current_vector (es : embedding_store) (document : string) (j : job_row) (t : text_row) (v : vector_row) : Prop := {
  cv_job : j ∈ jobs es /\ job_document j = document;
  cv_text : t ∈ texts es /\ t_document t = document /\ t_status t = "active";
  cv_vector : v ∈ vectors es /\ v_document v = document /\ v_kind v = job_kind j /\ v_model v = job_model j /\
    v_revision v = job_revision j /\ v_nonzero v = Some true;
  cv_done : job_status j = "completed";
  cv_revision : t_revision t = Some (job_revision j);
  cv_hash : exists text, t_text t = Some text /\ t_sha t = Some (sha256Hex text) /\ job_sha j = Some (sha256Hex text) /\
    v_sha v = Some (sha256Hex text);
}.

Lemma vectors_of_elem es j v : Some v ∈ vectors_of es j <-> v ∈ vectors es /\ vector_matches j v = true.
Proof.
  rewrite <-filter_elem. unfold vectors_of. destruct (List.filter _ _) as [|x l].
  - split; [intros H; apply list_elem_of_singleton in H; done|intros H; by apply elem_of_nil in H].
  - rewrite list_elem_of_fmap. split; [by intros (y & [= ->] & Hy)|intros H; by exists v].
Qed.

Lemma vector_matches_true j v :
  vector_matches j v = true <->
  v_document v = job_document j /\ v_kind v = job_kind j /\ v_model v = job_model j /\ v_revision v = job_revision j /\
  exists x, v_sha v = Some x /\ job_sha j = Some x.
Proof.
  unfold vector_matches. rewrite !andb_true_iff, !String.eqb_eq, bool_decide_eq_true, sql_eq_true. tauto.
Qed.

Lemma content_current_true j t v :
  content_current j t v = Some true <->
  exists x, v = Some x /\ job_status j = "completed" /\ t_status t = "active" /\ t_revision t = Some (job_revision j) /\
    v_nonzero x = Some true /\ exists text, t_text t = Some text /\ t_sha t = Some (sha256Hex text) /\ job_sha j = Some (sha256Hex text).
Proof.
  unfold content_current. cbn [foldl]. rewrite !sql_and_true, !sql_eq_true. split.
  - intros ((((((Hv & Hj) & Ht) & (x & Hx & Hx')) & (y & [= <-] & Hy)) & (z & Hz & Hz')) & Hn).
    injection Hv as Hv. apply bool_decide_eq_true in Hv as [u ->]. injection Hj as Hj%String.eqb_eq. injection Ht as Ht%String.eqb_eq.
    destruct (t_text t) as [text|]; [|done]. injection Hz' as <-. exists u. split_and!; [done..|]. exists text. split_and!; [done|done|congruence].
  - intros (u & -> & Hj & Ht & Hr & Hn & text & Etext & Esha & Ejob). rewrite Etext, Hj, Ht.
    split_and!; [done|by rewrite String.eqb_refl|by rewrite String.eqb_refl| | | |exact Hn].
    + by exists (sha256Hex text).
    + by exists (job_revision j).
    + by exists (sha256Hex text).
Qed.

(** The work that is reported for a job. *)
Definition work_of (w : EmbeddingWork) (j : job_row) : Prop :=
  WorkKind w = job_kind j /\ WorkModel w = job_model j /\ WorkRevision w = job_revision j.

(** Content is reported as current exactly for a completed job of an active
    document whose input revision it has, with a vector that is not zero, and
    one hash: of the text as it is stored, of the document, of the job and of
    the vector. *)
Theorem content_current_exact fails es document ws :
  loadRecordEmbedding es fails document = inl ws ->
  (forall w, w ∈ ws -> ContentCurrent w = true ->
     HasVector w = true /\ exists j t v, current_vector es document j t v /\ work_of w j) /\
  (forall j t v, current_vector es document j t v -> exists w, w ∈ ws /\ work_of w j /\ HasVector w = true /\ ContentCurrent w = true).
Proof.
  unfold loadRecordEmbedding, answered. destruct (fails EmbeddingQuery); [done|]. cbn [sum_bind]. intros Hs. split.
  - intros w Hw Hc. destruct (scan_all_elem _ _ _ Hs Hw) as ([[j t] v] & Hrow & Hscan).
    apply work_rows_elem in Hrow as (Hj & Hjd & Ht & Htd & Hv). unfold scan_work in Hscan.
    destruct (content_current j t v) as [c|] eqn:Ec; [|done]. injection Hscan as <-. cbn [ContentCurrent HasVector] in *. subst c.
    apply content_current_true in Ec as (x & -> & Hst & Hact & Hrev & Hn & text & E1 & E2 & E3).
    apply vectors_of_elem in Hv as [Hv Hm]. apply vector_matches_true in Hm as (Hd & Hk & Hmo & Hr & y & Ey & Ey').
    split; [done|]. exists j, t, x. split; [|done]. split; try done.
    + split_and!; [done|congruence|done].
    + split_and!; [done|congruence|done..].
    + exists text. split_and!; [done..|congruence].
  - intros j t v [[Hj Hjd] (Ht & Htd & Hact) (Hv & Hvd & Hk & Hm & Hr & Hn) Hst Hrev (text & E1 & E2 & E3 & E4)].
    destruct (scan_all_covers _ _ (j, t, Some v) Hs) as (w & Hw & Hscan).
    { apply work_rows_elem. split_and!; [done|done|done|congruence|]. apply vectors_of_elem. split; [done|].
      apply vector_matches_true. split_and!; [congruence|done..|]. by eexists. }
    unfold scan_work in Hscan. rewrite (proj2 (content_current_true j t (Some v))) in Hscan.
    + injection Hscan as <-. by eexists.
    + exists v. split_and!; [done..|]. by exists text.
Qed.

(** ** The context as a whole *)

Section context.
Context {J : RecordJSON} (sql_avg : list float64 -> float64) (records : list record_row) (st : evidence_store).
Context (es : embedding_store) (now : time) (fails : record_statement -> option error) (tx_fails : statement -> option error).

Lemma clamp_window_bounds window :
  0 < clamp_window window <= RecordContextMaxWindow /\
  (Minute <= clamp_window window <-> window <= 0 \/ Minute <= window).
Proof.
  unfold clamp_window. destruct (Z.leb_spec window 0).
  - change (RecordContextMaxWindow <? RecordContextDefaultWindow) with false. cbv match.
    unfold RecordContextDefaultWindow, RecordContextMaxWindow, Hour. zarith.
  - destruct (Z.ltb_spec RecordContextMaxWindow window); unfold RecordContextMaxWindow, Hour in *; zarith.
Qed.

Lemma clamp_bucket_bounds bucket : 1 <= clamp_bucket bucket <= 1440.
Proof.
  unfold clamp_bucket. destruct (Z.leb_spec bucket 0); [by vm_compute|].
  destruct (Z.ltb_spec recordContextMaxBuckets bucket); unfold recordContextMaxBuckets in *; lia.
Qed.

Lemma resolveDocument_spec key kinds f record :
  resolveDocument records st fails key kinds f = inl (Some record) ->
  exists row, row ∈ records /\ record_matches st key kinds f row = true /\ record = fields_of row.
Proof.
  unfold resolveDocument, answered. destruct (fails ResolveQuery); [done|]. intros [= H].
  destruct (head _) as [row|] eqn:E; [|done]. injection H as <-. apply head_Some_elem_of in E.
  apply ordered_elem, filter_elem in E as [Hr Hm]. by exists row.
Qed.

(** C35. Every answer covers a window of at most a week in buckets of at most a day.
    What is found is an active document of the kinds and the scope asked for.
    The window ends a minute after the time of the document, and contains that
    time exactly when the width asked for is the default or a minute or more: a
    narrower window begins after the very record it is about.  A document that
    is found has activity and a neighbourhood exactly when it carries a MAC
    address that can be focused on, and a reason otherwise, as every proxy record
    has; without a document there is nothing. *)
Theorem record_context_sound req c :
  RecordContext sql_avg records st es now fails tx_fails req = inl c ->
  0 < ContextEnd c - ContextStart c <= RecordContextMaxWindow /\ 1 <= BucketMinutes c <= 1440 /\
  match TheRecord c with
  | None => FoundRecord c = false /\ Activity c = [] /\ Related c = None /\ Embedding c = []
  | Some f =>
      FoundRecord c = true /\ RecordSourceKey f = SourceKey c /\ RecordStatus f = "active" /\
      (exists row kinds, row ∈ records /\ f = fields_of row /\ requestKinds (ContextKind req) = inl kinds /\
         record_matches st (SourceKey c) kinds (ContextFilters req) row = true) /\
      (forall t, RecordObservedAt f = Some t ->
         ContextEnd c = t + Minute /\ (ContextStart c <= t < ContextEnd c <-> Window req <= 0 \/ Minute <= Window req)) /\
      (Related c = None <-> fst (anchor f) = "") /\ (Related c = None -> Activity c = [] /\ RelatedReason c <> "") /\
      (proxy_kind (RecordSourceKind f) = true -> Related c = None)
  end.
Proof.
  unfold RecordContext. destruct (is_empty _); [done|]. destruct (requestKinds (ContextKind req)) as [kinds|] eqn:Ek; [|done]. cbn [sum_bind].
  destruct (resolveDocument _ _ _ _ _ _) as [document|] eqn:Ed; [|done]. cbn [sum_bind].
  destruct (clamp_window_bounds (Window req)) as [Hw Hmin]. pose proof (clamp_bucket_bounds (RequestBucket req)) as Hb.
  destruct document as [f|]; [|intros [= <-]; cbn; split_and!; (done || lia)].
  destruct (answered fails RecordBegin tt); [|done]. cbn [sum_bind]. destruct (InvestigationWatermarks _ _) as [fr|]; [|done]. cbn [sum_bind].
  destruct (resolveDocument_spec _ _ _ _ Ed) as (row & Hrow & Hm & Ef).
  set (found := if is_empty (fst (anchor f)) then _ else _). assert (Hfound : forall x, found = inl x ->
    (snd x = None <-> fst (anchor f) = "") /\ (snd x = None -> fst (fst x) = [])).
  { intros x. unfold found. destruct (is_empty (fst (anchor f))) eqn:Ea.
    - apply is_empty_true in Ea. intros [= <-]. done.
    - destruct (loadRecordActivity _ _ _ _ _ _ _ _) as [a|]; [|done]. cbn [sum_bind]. destruct (loadRecordRelated _ _ _ _ _ _ _ _ _) as [rel|]; [|done].
      intros [= <-]. cbn. split; [|done]. split; [done|]. intros E. by rewrite E in Ea. }
  clearbody found. destruct found as [x|]; [|done]. cbn [sum_bind]. destruct (Hfound x eq_refl) as [Hr Hact]. clear Hfound.
  destruct (loadRecordEmbedding _ _ _) as [emb|]; [|done]. cbn [sum_bind]. destruct (answered fails RecordCommit tt); [|done]. cbn [sum_bind].
  intros [= <-]. cbn [ContextEnd ContextStart BucketMinutes TheRecord FoundRecord SourceKey Related Activity RelatedReason].
  split; [lia|]. split; [done|]. split; [done|].
  assert (Hm' := Hm). unfold record_matches in Hm'. repeat (apply andb_prop in Hm' as [Hm' ?]). rewrite String.eqb_eq in *.
  split_and!; [by rewrite Ef|by rewrite Ef|by exists row, kinds| |exact Hr| |].
  - intros t Ht. unfold window_end. cbn. rewrite Ht. cbn. split; [done|]. rewrite <-Hmin. zarith.
  - intros Hn. split; [by apply Hact|]. apply Hr in Hn. rewrite Hn. cbn. unfold unanchored_reason. by destruct (proxy_kind _).
  - intros Hp. apply Hr. unfold anchor. by rewrite Hp.
Qed.
End context.

(** Scores come from the result of the search with the key as it was given, and
    then the sequence tokens of the record are left out. *)
Lemma explain_details_scores {J : RecordJSON} records st fails search sourceKey query kind d :
  ExplainDetails records st fails search sourceKey query kind = inl d -> ScoresAvailable d = true ->
  ExplainTokens d = [] /\
  exists resp r record kinds, search (explain_request query kind) = inl resp /\ r ∈ Results resp /\
    SearchResults.SourceKey r = sourceKey /\ FusedScore d = f32_sub (Score r) (ThreatBoost r) /\
    resolveDocument records st fails (TrimSpace sourceKey) kinds None = inl (Some record) /\ ExplainRecord d = Some record.
Proof.
  unfold ExplainDetails. destruct (is_empty _); [done|]. destruct (requestKinds kind) as [kinds|]; [|done]. cbn [sum_bind].
  destruct (resolveDocument _ _ _ _ _ _) as [[record|]|] eqn:Er; [| |done]; cbn [sum_bind]; [|by intros [= <-]].
  destruct (negb _); [by intros [= <-]|]. destruct (search _) as [resp|] eqn:Es; [|done]. cbn [sum_bind]. intros [= <-].
  destruct (List.find _ _) as [r|] eqn:Ef; [|done]. intros _. split; [done|]. apply List.find_some in Ef as [Hin E%String.eqb_eq].
  exists resp, r, record, kinds. split_and!; [done|by apply list_elem_of_In|done..].
Qed.

(** ** Witnesses *)

Module RecordSample.
Definition average (l : list float64) : float64 := f_zero.
Definition works {S : Type} (s : S) : option error := None.
Definition rows : list SummaryRow := Sample.crowded.
Definition store : evidence_store := Sample.store rows.
Definition start : time := Sample.minute 0.
Definition end_ : time := Sample.minute 60.

Definition text : string := "probe request".

Definition tables : embedding_store := {|
  jobs := [{| job_document := "d1"; job_kind := "event"; job_model := "m"; job_revision := "r"; job_status := "completed";
              job_attempts := Some 1; job_max_attempts := None; job_next_attempt := None; job_last_error := None;
              job_completed_at := Some 5; job_sha := Some (sha256Hex text) |}];
  vectors := [{| v_document := "d1"; v_kind := "event"; v_model := "m"; v_revision := "r"; v_sha := Some (sha256Hex text);
                 v_embedded_at := Some 5; v_nonzero := Some true |}];
  texts := [{| t_document := "d1"; t_status := "active"; t_sha := Some (sha256Hex text); t_text := Some text;
               t_revision := Some "r" |}] |}.

Definition json : RecordJSON := {| unmarshal_strings _ := None; unmarshal_tokens _ := None |}.

Definition observed : record_row := {|
  rr_event := {| doc_id := "d1"; doc_source_kind := "event"; doc_status := "active";
    doc := {| c_location_id := None; c_sensor_id := Some "s1"; c_source_mac := Some (Sample.dev "3"); c_bssid := Some Sample.ap1;
              c_ssid := None; c_host := None; c_frame_subtype := None; c_proxy_event_type := None; c_proxy_device_id := None;
              c_classification := None; c_blocked := None; c_observed_at := Some (Sample.minute 20); c_security_flags := None;
              c_handshake_captured := None; c_tags := [] |} |};
  rr_source_id := "k1"; rr_source_table := None; rr_title := None; rr_producer := None; rr_tags := ""; rr_window_start := None;
  rr_window_end := None; rr_normalized_sha256 := Some (sha256Hex text); rr_detail_json := None |}.

Definition request : RecordContextRequest := {|
  ContextKey := " k1 "; ContextKind := KIND_EVENT; ContextFilters := None; Window := 0; RequestBucket := 0 |}.

Definition answer : option RecordContext_t :=
  Eval vm_compute in
    match RecordContext (J := json) average [observed] store tables (Sample.minute 60) works works request with
    | inl c => Some c | inr _ => None end.

Definition related : option RelatedContext :=
  Eval vm_compute in
    match loadRecordRelated average store (Sample.minute 60) works works "device" (Sample.dev "3") start end_ with
    | inl rel => Some rel | inr _ => None end.

Definition work : list EmbeddingWork :=
  Eval vm_compute in match loadRecordEmbedding tables works "d1" with inl ws => ws | inr _ => [] end.
End RecordSample.

(** Fifteen minutes hold the three times of the sample. *)
Lemma activity_partition_witness :
  let buckets := activity_of RecordSample.average 15 RecordSample.rows in
  length buckets = 1%nat /\ TotalFrames (totals_of 15 buckets) = sum_of (frame_count <$> RecordSample.rows).
Proof.
  split; [vm_compute; reflexivity|].
  destruct (activity_partition RecordSample.average 15 RecordSample.rows ltac:(reflexivity)) as (_ & _ & _ & _ & H & _). exact H.
Defined.

Lemma corroboration_exact_witness :
  exists rel, RecordSample.related = Some rel /\ RelatedProximity rel = "inferred" /\
    exists m, corroborated RecordSample.store (Sample.dev "3") RecordSample.start RecordSample.end_ m.
Proof.
  eexists. split; [reflexivity|]. split; [reflexivity|].
  destruct (corroboration_exact RecordSample.average RecordSample.store (Sample.minute 60) RecordSample.works RecordSample.works
    (Sample.dev "3") RecordSample.start RecordSample.end_ (default {| RelatedKind := ""; RelatedID := ""; Neighbours := [];
      RelatedLinks := []; RelatedProximity := ""; RelatedSignal := ""; RelatedConfidence := ""; RelatedFocus := "" |} RecordSample.related)
    ltac:(vm_compute; reflexivity) ltac:(vm_compute; discriminate)) as (_ & _ & _ & H & _).
  apply H. reflexivity.
Defined.

Lemma content_current_exact_witness :
  exists w, w ∈ RecordSample.work /\ ContentCurrent w = true /\
    exists j t v, current_vector RecordSample.tables "d1" j t v /\ work_of w j.
Proof.
  destruct (content_current_exact RecordSample.works RecordSample.tables "d1" RecordSample.work ltac:(vm_compute; reflexivity)) as [H _].
  unfold RecordSample.work in *. eexists. split; [left|]. split; [reflexivity|]. apply H; [left|reflexivity].
Defined.

Lemma record_context_sound_witness :
  exists c f, RecordSample.answer = Some c /\ TheRecord c = Some f /\ RecordSourceKey f = "k1" /\ length (Activity c) = 1%nat /\
    ContextStart c <= Sample.minute 20 < ContextEnd c.
Proof.
  eexists _, _. split; [reflexivity|]. split; [reflexivity|]. split; [reflexivity|]. split; [reflexivity|].
  destruct (record_context_sound (J := RecordSample.json) RecordSample.average [RecordSample.observed] RecordSample.store
    RecordSample.tables (Sample.minute 60) RecordSample.works RecordSample.works RecordSample.request
    (default (empty_context 0 "" 0 0 0) RecordSample.answer) ltac:(vm_compute; reflexivity)) as (Hw & _ & _ & _ & _ & _ & Ht & _).
  apply (proj2 (Ht (Sample.minute 20) ltac:(reflexivity))). left. vm_compute. discriminate.
Defined.
