(* ===== verification/Pair.v ===== *)
(** * The detail of a merge candidate (reporting/pair.go)

    One candidate with its recorded decision and the devices of its two MACs, as
    their inventory nodes. *)

From S2P Require Import Prelude GoErrors GoStrings GoSort GoFloats QueryScope Inventory InventoryPages.

(** A row of merge_candidates joined with its row of merge_decisions. *)
Record pair_candidate := {
  pc_id : string;
  pc_mac_a : string;
  pc_mac_b : string;
  pc_confidence : float64;
  pc_computed_at : time;
  pc_status : string;
  pc_evidence : string;
  pc_run : string;
}.

Record pair_decision := { pd_candidate : string; pd_decision : string; pd_by : option string; pd_at : option time }.

Record pair_store := {
  pair_candidates : list pair_candidate;
  pair_decisions : list pair_decision;
  pair_devices : list device_row;
}.

Record PairDetail_t := {
  CandidateID : string;
  MACA : string;
  MACB : string;
  PairConfidence : float64;
  ComputedAt : time;
  PairStatus : string;
  PairEvidence : string;
  ProjectionRunID : string;
  Decision : string;
  DecidedBy : string;
  DecidedAt : option time;
  PairDevices : list InventoryNode;
}.

Inductive pair_statement := PairBegin | CandidateQuery | DevicesQuery | PairCommit.

Section pair.
Context (st : pair_store) (fails : pair_statement -> option error).

Definition pair_answer {A} (s : pair_statement) (rows : A) : A + app_error :=
  match fails s with Some err => inr (Plain err) | None => inl rows end.

(** The first row of the join for an id, which is a primary key. *)
Definition pair_row (id : string) : option (pair_candidate * option pair_decision) :=
  (fun c => (c, List.find (fun d => String.eqb (pd_candidate d) (pc_id c)) (pair_decisions st)))
  <$> List.find (fun c => String.eqb (pc_id c) id) (pair_candidates st).

Definition pair_device_rows (a b : string) : list device_row :=
  sort_by (less_on mac str_ltb) (List.filter (fun d => String.eqb (mac d) a || String.eqb (mac d) b) (pair_devices st)).

(** The loop over the rows: a node is looked up under the MAC as it is stored,
    in a map that its row has just extended. *)
Fixpoint pair_nodes (m : assembly) (rows : list device_row) : list InventoryNode :=
  match rows with
  | [] => []
  | d :: rows =>
      let m := (fst (addInventoryDevice InventoryGroupingRegistry (fst m, ∅) (scan_row d)), ∅) in
      default zero_node (fst m !! ("device:" +:+ mac d)) :: pair_nodes m rows
  end.

Definition PairDetail (id : string) : PairDetail_t + app_error :=
  if is_empty (TrimSpace id) then inr (Validation "candidate_id is required")
  else
    (let! _ := pair_answer PairBegin tt in
     let! row := pair_answer CandidateQuery (pair_row id) in
     match row with
     | None => inr (AppError ErrNotFound "merge candidate not found")
     | Some (c, d) =>
         let! rows := pair_answer DevicesQuery (pair_device_rows (pc_mac_a c) (pc_mac_b c)) in
         let! _ := pair_answer PairCommit tt in
         inl {| CandidateID := pc_id c; MACA := pc_mac_a c; MACB := pc_mac_b c; PairConfidence := pc_confidence c;
                ComputedAt := pc_computed_at c; PairStatus := pc_status c; PairEvidence := pc_evidence c;
                ProjectionRunID := pc_run c; Decision := from_option pd_decision "" d;
                DecidedBy := default "" (d ≫= pd_by); DecidedAt := d ≫= pd_at; PairDevices := pair_nodes (∅, ∅) rows |}
     end)%go.

(** MACs are lower-case addresses and the primary key of devices. *)
Definition pair_registry_ok : Prop :=
  NoDup (mac <$> pair_devices st) /\ Forall (fun m => MacPattern m = true) (mac <$> pair_devices st).

Lemma pair_nodes_spec m rows :
  Forall (fun d => MacPattern (mac d) = true) rows -> pair_nodes m rows = device_node ∘ scan_row <$> rows.
Proof.
  intros Hr. revert m. induction Hr as [|d rows Hd _ IH]; intros m; [done|]. cbn [pair_nodes]. rewrite fmap_cons, IH. f_equal.
  cbn. unfold addInventoryDevice, put_node. cbn. rewrite deviceID_mac by done. by rewrite lookup_insert_eq.
Qed.

(** What a candidate shows besides its own row: the registered devices among its
    two MACs, each once, in the order of their MACs, as their inventory nodes,
    and the decision recorded for it, if there is one. *)
Theorem pair_detail_devices id p :
  pair_registry_ok -> PairDetail id = inl p ->
  exists ds, PairDevices p = device_node ∘ scan_row <$> ds /\ NoDup (mac <$> ds) /\
    StronglySorted (before (less_on mac str_ltb)) ds /\
    (forall d, d ∈ ds <-> d ∈ pair_devices st /\ (mac d = MACA p \/ mac d = MACB p)) /\
    (length (PairDevices p) <= 2)%nat /\ CandidateID p = id.
Proof.
  intros [Hnd Hm]. unfold PairDetail. destruct (is_empty _); [done|]. destruct (pair_answer PairBegin tt); [|done]. cbn [sum_bind].
  unfold pair_answer at 1. destruct (fails CandidateQuery); [done|]. cbn [sum_bind]. unfold pair_row.
  destruct (List.find _ (pair_candidates st)) as [c|] eqn:Ec; [|done]. cbn [fmap option_fmap option_map].
  unfold pair_answer at 1. destruct (fails DevicesQuery); [done|]. cbn [sum_bind]. destruct (pair_answer PairCommit tt); [|done]. cbn [sum_bind].
  intros [= <-]. cbn [PairDevices MACA MACB CandidateID]. set (ds := pair_device_rows (pc_mac_a c) (pc_mac_b c)).
  assert (Hin : forall d, d ∈ ds <-> d ∈ pair_devices st /\ (mac d = pc_mac_a c \/ mac d = pc_mac_b c)).
  { intros d. unfold ds, pair_device_rows. rewrite sort_by_elem, filter_elem, orb_true_iff, !String.eqb_eq. done. }
  assert (Hk : NoDup (mac <$> ds)).
  { unfold ds, pair_device_rows. rewrite sort_by_perm. eapply sublist_NoDup; [exact Hnd|]. apply fmap_sublist, filter_sublist. }
  exists ds. split; [|split_and!; [exact Hk|apply sort_by_sorted, _|exact Hin| |]].
  - apply pair_nodes_spec. apply Forall_forall. intros d [Hd _]%Hin. rewrite Forall_fmap, Forall_forall in Hm. by apply Hm.
  - rewrite pair_nodes_spec.
    + rewrite length_fmap, <-(length_fmap mac). change 2%nat with (length [pc_mac_a c; pc_mac_b c]).
      apply submseteq_length, NoDup_submseteq; [exact Hk|]. intros m (d & -> & Hd)%list_elem_of_fmap. apply Hin in Hd as [_ [->| ->]]; set_solver.
    + apply Forall_forall. intros d [Hd _]%Hin. rewrite Forall_fmap, Forall_forall in Hm. by apply Hm.
  - apply List.find_some in Ec as [_ E]. by apply String.eqb_eq.
Qed.
End pair.
