(* ===== verification/GoDuration.v ===== *)
(** * Texts of durations, truth values and integers in requests

    time.ParseDuration, strconv.ParseBool and the [%d] verb of fmt.Sscanf. *)

From S2P Require Import Prelude GoStrings GoStrconv GoFloats.

Fixpoint take_while {A} (p : A -> bool) (l : list A) : list A :=
  match l with x :: l => if p x then x :: take_while p l else [] | [] => [] end.

(** [uint64(x)] truncates a number that is not negative and in range. *)
Definition uint64_of_f64 (x : float64) : Z :=
  match x with S754_finite false m e => if 0 <=? e then Z.shiftl (Zpos m) e else Z.shiftr (Zpos m) (- e) | _ => 0 end.

(** ** time.ParseDuration *)

(** [leadingInt]: the digits at the front, in 64 bits. *)
Fixpoint leadingInt (x : Z) (l : list ascii) : option (Z * list ascii) :=
  match l with
  | c :: rest =>
      if is_digit c then
        if 2 ^ 63 / 10 <? x then None
        else
          let x := x * 10 + (code c - 48) in
          if 2 ^ 63 <? x then None else leadingInt x rest
      else Some (x, l)
  | [] => Some (x, [])
  end.

(** [leadingFraction]: further digits are read and dropped when there are too
    many. *)
Fixpoint leadingFraction (overflow : bool) (x : Z) (scale : float64) (l : list ascii) : Z * float64 * list ascii :=
  match l with
  | c :: rest =>
      if is_digit c then
        if overflow || ((2 ^ 63 - 1) / 10 <? x) then leadingFraction true x scale rest
        else
          let y := x * 10 + (code c - 48) in
          if 2 ^ 63 <? y then leadingFraction true x scale rest
          else leadingFraction false y (f64_mul scale (f64_of_Z 10)) rest
      else (x, scale, l)
  | [] => (x, scale, [])
  end.

(** The units; micro is written with u, U+00B5 or U+03BC. *)
Definition duration_unit (u : list ascii) : option Z :=
  let text s := bool_decide (u = bytes s) in
  let is_code cs := bool_decide (u = (ascii_of_nat <$> cs) ++ ["s"%char]) in
  if text "ns" then Some 1
  else if text "us" || is_code [194; 181]%nat || is_code [206; 188]%nat then Some 1000
  else if text "ms" then Some Millisecond
  else if text "s" then Some Second
  else if text "m" then Some Minute
  else if text "h" then Some Hour
  else None.

Definition unit_char (c : ascii) : bool := negb (Ascii.eqb c ".") && negb (is_digit c).

(** One number with its unit, and what is left. *)
Definition duration_term (l : list ascii) : option (Z * list ascii) :=
  if negb (match l with c :: _ => Ascii.eqb c "." || is_digit c | [] => false end) then None
  else
    match leadingInt 0 l with
    | None => None
    | Some (v, rest) =>
        let pre := negb (bool_decide (length rest = length l)) in
        let '(f, scale, rest, post) :=
          match rest with
          | c :: after =>
              if Ascii.eqb c "." then
                let '(f, scale, rest) := leadingFraction false 0 (f64_of_Z 1) after in
                (f, scale, rest, negb (bool_decide (length rest = length after)))
              else (0, f64_of_Z 1, rest, false)
          | [] => (0, f64_of_Z 1, rest, false)
          end in
        if negb pre && negb post then None
        else
          let '(u, rest) := (take_while unit_char rest, drop_while unit_char rest) in
          match duration_unit u with
          | None => None
          | Some unit =>
              if 2 ^ 63 / unit <? v then None
              else
                let v := v * unit in
                let v := if 0 <? f then v + uint64_of_f64 (f64_mul (f64_of_Z f) (f64_div (f64_of_Z unit) scale)) else v in
                if 2 ^ 63 <? v then None else Some (v, rest)
          end
    end.

(** The loop over the terms; a term is not empty, so one turn per byte is
    enough.  The sum is a uint64. *)
Fixpoint duration_terms (fuel : nat) (d : Z) (l : list ascii) : option Z :=
  match l with
  | [] => Some d
  | _ =>
      match fuel with
      | O => None
      | S fuel =>
          match duration_term l with
          | None => None
          | Some (v, rest) =>
              let d := (d + v) mod 2 ^ 64 in
              if 2 ^ 63 <? d then None else duration_terms fuel d rest
          end
      end
  end.

Definition ParseDuration (s : string) : option duration :=
  let '(neg, l) := match bytes s with
                   | c :: l => if Ascii.eqb c "-" then (true, l) else if Ascii.eqb c "+" then (false, l) else (false, c :: l)
                   | [] => (false, [])
                   end in
  if bool_decide (l = ["0"%char]) then Some 0
  else
    match l with
    | [] => None
    | _ =>
        match duration_terms (length l) 0 l with
        | None => None
        | Some d => if (neg : bool) then Some (wrap64 (- d)) else if 2 ^ 63 - 1 <? d then None else Some d
        end
    end.

(** ** strconv.ParseBool *)

Definition ParseBool (s : string) : option bool :=
  if existsb (String.eqb s) ["1"; "t"; "T"; "true"; "TRUE"; "True"] then Some true
  else if existsb (String.eqb s) ["0"; "f"; "F"; "false"; "FALSE"; "False"] then Some false
  else None.

(** ** fmt.Sscanf(s, "%d", &n) *)

(** White space, a sign and digits are read; what follows them is ignored. *)
Definition Sscanf_d (s : string) : option Z :=
  let l := drop_while is_space (bytes s) in
  let '(sign, l) := match l with
                    | c :: rest => if Ascii.eqb c "+" || Ascii.eqb c "-" then ([c], rest) else ([], l)
                    | [] => ([], l)
                    end in
  match take_while is_digit l with
  | [] => None
  | digits => ParseInt64 (of_bytes (sign ++ digits))
  end.

(** ** Lemmas *)

Lemma drop_while_length {A} (p : A -> bool) l : (length (drop_while p l) <= length l)%nat.
Proof. induction l as [|a l IH]; simpl; [done|]. destruct (p a); simpl; lia. Qed.

Lemma leadingInt_bounds x l v rest :
  0 <= x <= 2 ^ 63 -> leadingInt x l = Some (v, rest) -> 0 <= v <= 2 ^ 63 /\ (length rest <= length l)%nat.
Proof.
  revert x. induction l as [|c l IH]; intros x Hx; cbn [leadingInt]; [by intros [= <- <-]|].
  destruct (is_digit c) eqn:Ec; [|by intros [= <- <-]]. destruct (_ <? x); [done|]. cbv zeta.
  destruct (Z.ltb_spec (2 ^ 63) (x * 10 + (code c - 48))); [done|]. intros H1.
  apply is_digit_code in Ec. apply (IH (x * 10 + (code c - 48))) in H1 as [? ?]; [|lia]. simpl. split; [done|lia].
Qed.

Lemma leadingFraction_bounds o x s l f scale rest :
  0 <= x -> leadingFraction o x s l = (f, scale, rest) -> 0 <= f /\ (length rest <= length l)%nat.
Proof.
  revert o x s. induction l as [|c l IH]; intros o x s Hx; cbn [leadingFraction]; [by intros [= <- <- <-]|].
  destruct (is_digit c) eqn:Ec; [|by intros [= <- <- <-]]. apply is_digit_code in Ec.
  assert (0 <= x * 10 + (code c - 48)) by lia. destruct (o || _); [|cbv zeta; destruct (_ <? _)]; intros Hl.
  all: apply IH in Hl as [? ?]; [|lia]; simpl; split; lia.
Qed.

Lemma duration_unit_pos u n : duration_unit u = Some n -> 0 < n /\ u <> [].
Proof.
  unfold duration_unit. intros H. repeat (match type of H with context [if ?b then _ else _] => destruct b eqn:?; [injection H as <-|] end);
  try done; (split; [done|]); intros ->; vm_compute in *; congruence.
Qed.

(** A term is at most 2^63 and takes a byte or more. *)
Lemma duration_term_spec l v rest : duration_term l = Some (v, rest) -> v <= 2 ^ 63 /\ (length rest < length l)%nat.
Proof.
  unfold duration_term. destruct (negb _); [done|]. destruct (leadingInt 0 l) as [[n r]|] eqn:En; [|done].
  apply leadingInt_bounds in En as [Hn Hr]; [|lia].
  set (frac := match r with [] => _ | _ => _ end). assert (Hf : (length (snd (fst frac)) <= length r)%nat).
  { subst frac. destruct r as [|c after]; [done|]. destruct (Ascii.eqb c "."); [|done].
    destruct (leadingFraction false 0 (f64_of_Z 1) after) as [[f s] r'] eqn:Ef. apply leadingFraction_bounds in Ef; [|done]. simpl. lia. }
  destruct frac as [[[f s] r'] post]. cbn [fst snd] in Hf. destruct (negb _ && _); [done|].
  destruct (duration_unit (take_while unit_char r')) as [unit|] eqn:Eu; [|done]. apply duration_unit_pos in Eu as [_ Hu].
  destruct (_ <? _); [done|]. cbv zeta. destruct (Z.ltb_spec (2 ^ 63) (if 0 <? f then n * unit + uint64_of_f64 (f64_mul (f64_of_Z f) (f64_div (f64_of_Z unit) s)) else n * unit)); [done|].
  intros [= <- <-]. split; [done|]. destruct r' as [|c r']; [done|]. cbn in *. destruct (unit_char c); [|done].
  pose proof (drop_while_length unit_char r'). lia.
Qed.

(** One turn per byte is enough: more fuel changes nothing. *)
Lemma duration_terms_fuel n m d l : (length l <= n)%nat -> (n <= m)%nat -> duration_terms m d l = duration_terms n d l.
Proof.
  revert m d l. induction n as [|n IH]; intros m d l Hl Hm; (destruct l as [|c l]; [by destruct m|]); [by simpl in Hl; lia|].
  destruct m as [|m]; [lia|]. cbn [duration_terms]. destruct (duration_term (c :: l)) as [[v rest]|] eqn:E; [|done].
  apply duration_term_spec in E as [_ ?]. cbv zeta. destruct (_ <? _); [done|]. apply IH; lia.
Qed.

Lemma duration_terms_range n d l r : 0 <= d <= 2 ^ 63 -> duration_terms n d l = Some r -> 0 <= r <= 2 ^ 63.
Proof.
  revert d l. induction n as [|n IH]; intros d l Hd; (destruct l as [|c l]; [by intros [= <-]|]); [done|].
  cbn [duration_terms]. destruct (duration_term (c :: l)) as [[v rest]|] eqn:E; [|done]. cbv zeta.
  destruct (Z.ltb_spec (2 ^ 63) ((d + v) mod 2 ^ 64)); [done|]. apply IH. pose proof (Z.mod_pos_bound (d + v) (2 ^ 64)). lia.
Qed.

Lemma ParseDuration_range s d : ParseDuration s = Some d -> int64_range d.
Proof.
  unfold ParseDuration, int64_range. set (parts := match bytes s with [] => _ | _ => _ end). destruct parts as [neg l].
  destruct (bool_decide _); [by intros [= <-]|]. destruct l as [|c l]; [done|]. set (l' := c :: l).
  destruct (duration_terms (length l') 0 l') as [r|] eqn:E; [|done]. apply duration_terms_range in E; [|lia].
  destruct neg.
  - intros [= <-]. unfold wrap64. pose proof (Z.mod_pos_bound (- r + 2 ^ 63) (2 ^ 64)). lia.
  - destruct (Z.ltb_spec (2 ^ 63 - 1) r); [done|]. intros [= <-]. lia.
Qed.

Example ParseDuration_day : ParseDuration "24h" = Some (24 * Hour).
Proof. reflexivity. Qed.
Example ParseDuration_mixed : ParseDuration "-1h30m1.5s" = Some (- (90 * Minute + 1500 * Millisecond)).
Proof. vm_compute. reflexivity. Qed.
Example ParseDuration_bare : ParseDuration "24" = None.
Proof. reflexivity. Qed.
Example ParseDuration_largest : ParseDuration "9223372036854775807ns" = Some (2 ^ 63 - 1) /\ ParseDuration "9223372036854775808ns" = None.
Proof. split; vm_compute; reflexivity. Qed.

(** Two terms of 2^63 each wrap to nothing, which is accepted as zero. *)
Example ParseDuration_wrap : ParseDuration "9223372036854775808ns9223372036854775808ns" = Some 0.
Proof. vm_compute. reflexivity. Qed.

Example Sscanf_d_rest : Sscanf_d "25 rows" = Some 25 /\ Sscanf_d "-5_0" = Some (-5) /\ Sscanf_d "x1" = None.
Proof. repeat split. Qed.
