(* ===== verification/Http.v ===== *)
(** * The HTTP layer: requests, replies and the calls between them (transport/httpapi)

    A handler is a program that calls services and ends in a reply.  The file
    has the programs, the reading of bodies and parameters, the writing of
    replies and errors, authorization, CORS and the routing (http.go), and the
    status codes of the gRPC transport (grpcapi/service.go).  The routes are in
    Handlers. *)

From S2P Require Import Prelude GoErrors GoStrings GoStrconv GoTime GoFloats GoDuration.
From S2P Require Import SearchService Graph GraphPages Inventory InventoryPages Investigation Network Pair RecordContext.
From S2P Require Import Entities Annotations SavedViews Dq EtlHealth Operations Upstream Auth.

(** ** Requests and replies *)

(** What arrives of a body, and the error after it. *)
Record incoming := { arrived : string; read_failure : option error }.

(** The path is clean: net/http redirects the others. *)
Record http_request := {
  ReqMethod : string;
  Path : string;
  RawPath : string;
  RawQuery : string;
  QueryValues : gmap string (list string);
  AuthorizationHeader : string;
  OriginHeader : string;
  ReqBody : incoming;
}.

Notation params := (gmap string string) (only parsing).

(** The value of a path parameter; an absent key is the empty text. *)
Definition param (p : gmap string string) (key : string) : string := default "" (p !! key).

(** url.Values *)
Definition Has (q : gmap string (list string)) (key : string) : bool := bool_decide (is_Some (q !! key)).
Definition Get (q : gmap string (list string)) (key : string) : string := default "" (q !! key ≫= head).

(** What is encoded in a reply. *)
Inductive payload :=
| Texts (members : list (string * string))
| Numbers (members : list (string * Z))
| PSearch (r : SearchResponse)
| PExplain (d : ExplainDetails_t)
| PContext (c : RecordContext_t)
| PSuggestions (s : suggestions)
| PPair (p : PairDetail_t)
| PInventory (r : InventoryResponse)
| PNetwork (r : NetworkResponse)
| PInvestigation (r : InvestigationResponse)
| PGraph (r : GraphResponse)
| PEntities (r : EntitiesResponse)
| PAnnotation (a : AssetAnnotation)
| PDecision (r : MergeDecisionResponse)
| PViews (l : list SavedGraphView)
| PView (v : SavedGraphView)
| PUIContext (c : UIContext_t)
| PManager (a : Dq.answer)
| PPipeline (p : Pipeline)
| PSources (s : Sources)
| PProxyLive (p : ProxyLive)
| PHealth (h : ETLHealth)
| PWorkers (h : ETLHealth).

(** A line of a stream of results. *)
Inductive line := ResultLine (r : SearchResults.RawResult) | DoneLine (meta : SearchResponse).

(** A message on the health socket. *)
Inductive message := SnapshotMessage (h : ETLHealth) | PingMessage | CloseNormal.

Inductive content :=
| Nothing
| JSON (p : payload)
| Lines (l : list line)
| Messages (l : list message)
| AssetContent (a : asset_reply)
| Unrouted.

Record reply := { Status : Z; Headers : gmap string string; Content : content }.

Definition with_header (key value : string) (r : reply) : reply :=
  {| Status := Status r; Headers := <[key := value]> (Headers r); Content := Content r |}.

(** ** Services (services.go) *)

(** What the select of the health socket receives: the end of the connection, of
    the request, or a tick; a snapshot can fail, encode or not, and a message is
    written or not. *)
Inductive stream_event :=
| Disconnected
| ContextDone
| Tick (snapshot : ETLHealth + error) (deadline_set written : bool)
| PingTick (deadline_set written : bool).

(** The calls to the services, with their results. *)
Inductive call : Type -> Type :=
| CallSearch (r : SearchRequest) : call (SearchResponse + app_error)
| CallExplain (source_key query : string) (kind : SearchKind) : call (ExplainDetails_t + app_error)
| CallExplainScoped (source_key query : string) (kind : SearchKind) (filters : option QueryScope.SearchFilters)
    : call (ExplainDetails_t + app_error)
| CallRecordContext (r : RecordContextRequest) : call (RecordContext_t + app_error)
| CallSuggest (prefix : string) : call (suggestions + app_error)
| CallPair (id : string) : call (PairDetail_t + app_error)
| CallInventory (f : InventoryFilters) : call (InventoryResponse + app_error)
| CallNetwork (f : NetworkFilters) : call (NetworkResponse + app_error)
| CallInvestigation (r : InvestigationRequest) : call (InvestigationResponse + app_error)
| CallEvidence (r : InvestigationRequest) : call (InvestigationResponse + app_error)
| CallGraph (f : GraphFilters) : call (GraphResponse + app_error)
| CallEntities (kind query cursor : string) (size : Z) : call (EntitiesResponse + app_error)
| CallAnnotation (kind id : string) : call (option AssetAnnotation + app_error)
| CallAnnotate (kind id : string) (update : AssetAnnotationUpdate) (actor : string) : call (AssetAnnotation + app_error)
| CallDecision (candidate decision subject : string) : call (MergeDecisionResponse + app_error)
| CallListViews (owner surface : string) : call (list SavedGraphView + view_error)
| CallCreateView (owner : string) (input : SavedViewCreate) : call (SavedGraphView + view_error)
| CallUpdateView (owner id : string) (input : SavedViewUpdate) : call (SavedGraphView + view_error)
| CallDeleteView (owner id : string) : call (unit + view_error)
| CallManager (op : Dq.operation) : call (Dq.answer + app_error)
| CallAssets (r : asset_request) : call asset_reply
| CallPipeline : call Pipeline
| CallSources : call Sources
| CallProxyLive : call ProxyLive
| CallReady : call (option error)
| CallHealth : call (ETLHealth + error)
| CallUpgrade : call (option (list stream_event)).

(** The services, whatever they answer. *)
Definition services : Type := forall A, call A -> A.

(** ** Programs *)

Inductive prog : Type :=
| Reply (r : reply)
| Call {A : Type} (c : call A) (k : A -> prog).

Fixpoint map_reply (f : reply -> reply) (p : prog) : prog :=
  match p with
  | Reply r => Reply (f r)
  | Call c k => Call c (fun a => map_reply f (k a))
  end.

(** A run against services: the calls in their order, and the reply. *)
Fixpoint run (s : services) (p : prog) : list {A & call A} * reply :=
  match p with
  | Reply r => ([], r)
  | @Call A c k => let '(calls, r) := run s (k (s A c)) in (existT A c :: calls, r)
  end.

(** Every call a program can make is [P], and every reply is [Q], as long as the
    services answer as in [Ans]. *)
Fixpoint post (Ans : forall A, call A -> A -> Prop) (P : forall A, call A -> Prop) (Q : reply -> Prop) (p : prog) : Prop :=
  match p with
  | Reply r => Q r
  | @Call A c k => P A c /\ forall a, Ans A c a -> post Ans P Q (k a)
  end.

(** At most one call is made. *)
Definition at_most_one (p : prog) : Prop :=
  match p with Reply _ => True | Call c k => forall a, exists r, k a = Reply r end.

(** ** Errors (http.go httpStatusFromError, apperror) *)

(** [errors.Is] for the kinds of apperror. *)
Definition has_kind (e : app_error) (k : error_kind) : bool :=
  match e, k with
  | AppError ErrNotFound _, ErrNotFound | AppError ErrConflict _, ErrConflict | AppError ErrForbidden _, ErrForbidden
  | AppError ErrUnavailable _, ErrUnavailable | AppError ErrCapacity _, ErrCapacity => true
  | UnavailableError _ _ _, ErrUnavailable => true
  | _, _ => false
  end.

Definition is_validation (e : app_error) : bool := match e with Validation _ => true | _ => false end.

(** [errors.Is] for the other sentinels. *)
Definition app_Is (e : app_error) (target : sentinel) : bool :=
  match e with Plain err => errors_Is err target | _ => false end.

Definition app_text (e : app_error) : string :=
  match e with
  | Validation m | AppError _ m => m
  | UnavailableError code _ m =>
      let message := if is_empty m then "semantic backend unavailable" else m in
      if is_empty code then message else message +:+ " (code=" +:+ code +:+ ")"
  | Plain err => Error err
  end.

(** The errors of saved views (savedviews.go). *)
Definition view_app_error (e : view_error) : app_error :=
  match e with
  | ErrSavedViewNotFound => AppError ErrNotFound "saved view not found"
  | ErrSavedViewDuplicateName => AppError ErrConflict "saved view name already exists"
  | ErrSavedViewStaleRevision => AppError ErrConflict "saved view revision conflict"
  | ErrSavedViewLimitReached => AppError ErrConflict "saved view limit reached"
  | ErrSavedViewUnavailable => AppError ErrForbidden "saved views require a signed-in user"
  | InvalidView m => Validation m
  | ViewFailure err => Plain err
  end.

(** What the reading of a body or a service fails with. *)
Inductive http_error := MaxBytesError | Failed (e : app_error).

Definition httpStatusFromError (err : option http_error) : Z :=
  match err with
  | None => 200
  | Some MaxBytesError => 413
  | Some (Failed e) =>
      if app_Is e DeadlineExceeded || app_Is e Canceled then 504
      else if is_validation e || app_Is e ErrInvalidRequest || app_Is e ErrOversizedInput then 400
      else if has_kind e ErrNotFound then 404
      else if has_kind e ErrConflict then 409
      else if has_kind e ErrForbidden then 403
      else if has_kind e ErrCapacity then 429
      else if has_kind e ErrUnavailable then 503
      else 500
  end.

Definition http_text (e : http_error) : string :=
  match e with MaxBytesError => "http: request body too large" | Failed e => app_text e end.

(** ** Bodies *)

Definition maxRequestBodyBytes : Z := 2 ^ 20.

(** io.ReadAll over an http.MaxBytesReader *)
Definition ReadAll (limit : Z) (b : incoming) : string + http_error :=
  if limit <? len (arrived b) then inr MaxBytesError
  else match read_failure b with
       | Some err => inr (Failed (Plain err))
       | None => inl (arrived b)
       end.

(** ** Encoding and decoding *)

(** A decoder that refuses unknown fields gives the first value and the rest. *)
Definition decoded (A : Type) : Type := (A * string) + string.

Record scoped_payload := { ScopedKey : string; ScopedQuery : string; ScopedKind : string; ScopedFilters : string }.

(** encoding/json and protojson: which payloads and lines they can encode, and the
    texts they decode, with the error otherwise. *)
Class HttpJSON := {
  encodable : payload -> bool;
  encodable_line : line -> bool;
  encodable_snapshot : ETLHealth -> bool;
  unmarshal_search : string -> SearchRequest + string;
  unmarshal_search_filters : string -> QueryScope.SearchFilters + string;
  unmarshal_scoped : string -> scoped_payload + string;
  unmarshal_inventory : string -> InventoryFilters + string;
  unmarshal_graph : string -> GraphFilters + string;
  unmarshal_decision : string -> string + string;
  decode_network : string -> decoded NetworkFilters;
  decode_investigation : string -> decoded InvestigationRequest;
  decode_annotation : string -> decoded AssetAnnotationUpdate;
  decode_view_create : string -> decoded SavedViewCreate;
  decode_view_update : string -> decoded SavedViewUpdate;
  decode_dedup : string -> decoded Dq.Request;
  decode_admission : string -> decoded Dq.Admission;
  decode_nothing : string -> decoded unit;
  decode_key : string -> decoded string;
  has_member : string -> string -> option bool;
}.

(** A further Decode answers io.EOF when only white space is left. *)
Definition json_space (c : ascii) : bool := in_set " " c || (code c =? 9) || (code c =? 10) || (code c =? 13).
Definition at_eof (rest : string) : bool := forallb json_space (bytes rest).

(** ** Replies (http.go) *)

Section replies.
Context {J : HttpJSON}.

Definition json_reply (status : Z) (p : payload) : reply :=
  {| Status := status; Headers := {["Content-Type" := "application/json"]}; Content := JSON p |}.

(** A map of texts is always encoded. *)
Definition marshals (p : payload) : bool := match p with Texts _ | Numbers _ => true | _ => encodable p end.

Definition internal_error : payload := Texts [("error", "internal server error")].

Definition writeJSON (status : Z) (value : payload) : reply :=
  if marshals value then json_reply status value else json_reply 500 internal_error.

Definition writeError (status : Z) (message : string) : reply :=
  let message := if 500 <=? status then "internal server error" else message in
  writeJSON status (Texts [("error", message)]).

Definition writeProtoJSON (status : Z) (msg : payload) : reply :=
  if encodable msg then json_reply status msg else writeError 500 "marshal protobuf response".

Definition writeAuthorizationError (d : Decision) : reply :=
  match d with
  | DecisionForbidden => writeError 403 "insufficient role"
  | _ => with_header "WWW-Authenticate" ("Bearer realm=" +:+ Quote "atheros-search") (writeError 401 "missing or invalid bearer token")
  end.

(** [int(d.Seconds())] *)
Definition whole_seconds (d : duration) : Z :=
  match f64_add (f64_of_Z (Z.quot d Second)) (f64_div (f64_of_Z (Z.rem d Second)) (f64_of_Z Second)) with
  | S754_finite s m e =>
      let v := if 0 <=? e then Z.shiftl (Zpos m) e else Z.shiftr (Zpos m) (- e) in if s then - v else v
  | _ => 0
  end.

Definition writeSearchError (now : time) (err : app_error) : reply :=
  match err with
  | UnavailableError code retryAt message =>
      let r := writeJSON 503 (Texts [("error", message); ("code", code)]) in
      let seconds := whole_seconds (Sub retryAt now) in
      if negb (IsZero retryAt) && (0 <? seconds) then with_header "Retry-After" (Itoa seconds) r else r
  | _ => writeError (httpStatusFromError (Some (Failed err))) (app_text err)
  end.

(** [writeError(w, httpStatusFromError(err), err.Error())] *)
Definition service_error (err : app_error) : reply :=
  writeError (httpStatusFromError (Some (Failed err))) (app_text err).

(** The common end of a handler: a call, its error or its value. *)
Definition answer_with {A} (write : A -> reply) (r : A + app_error) : prog :=
  match r with inl a => Reply (write a) | inr err => Reply (service_error err) end.

Definition ask {A} (c : call (A + app_error)) (write : A -> reply) : prog := Call c (answer_with write).

(** readRequestBody *)
Definition readRequestBody (r : http_request) (k : string -> prog) : prog :=
  match ReadAll maxRequestBodyBytes (ReqBody r) with
  | inl body => k body
  | inr MaxBytesError => Reply (writeError 413 "request body too large")
  | inr (Failed err) => Reply (writeError 400 (app_text err))
  end.

(** An unmarshalled body, or a bad request with the error of the decoder. *)
Definition unmarshalled {A} (r : A + string) (k : A -> prog) : prog :=
  match r with inl a => k a | inr message => Reply (writeError 400 message) end.

(** The first value of a body that may have more behind it. *)
Definition first_value {A} (r : decoded A) (message : string -> string) (k : A -> string -> prog) : prog :=
  match r with inl (a, rest) => k a rest | inr err => Reply (writeError 400 (message err)) end.

(** Nothing may follow. *)
Definition only_value {A} (r : decoded A) (message : string -> string) (more : string) (k : A -> prog) : prog :=
  first_value r message (fun a rest => if at_eof rest then k a else Reply (writeError 400 more)).
End replies.

(** ** Parameters *)

Definition parseDurationParam (value : string) (fallback ceiling : duration) : duration + string :=
  let trimmed := TrimSpace value in
  if is_empty trimmed then inl fallback
  else
    match ParseDuration trimmed with
    | None => inr "window must be a duration such as 24h"
    | Some parsed =>
        if parsed <=? 0 then inr "window must be positive"
        else if ceiling <? parsed then inl ceiling
        else inl parsed
    end.

Definition parseIntParam (value : string) (fallback min max : Z) : Z + string :=
  let trimmed := TrimSpace value in
  if is_empty trimmed then inl fallback
  else
    match ParseInt64 trimmed with
    | None => inr "bucket_minutes must be an integer"
    | Some parsed =>
        if (parsed <? min) || (max <? parsed)
        then inr ("bucket_minutes must be between " +:+ Itoa min +:+ " and " +:+ Itoa max)
        else inl parsed
    end.

Definition parseKind (value : string) : SearchKind :=
  let value := ToLower value in
  let among := existsb (String.eqb value) in
  if among ["behaviour"; "behavior"; "behaviour_window"; "search_kind_behaviour"] then KIND_BEHAVIOUR
  else if among ["sequence"; "frame_sequence"; "search_kind_sequence"] then KIND_SEQUENCE
  else if among ["device"; "search_kind_device"] then KIND_DEVICE
  else if among ["cross"; "search_kind_cross"] then KIND_CROSS
  else if among ["proxy_event"; "proxy-event"; "search_kind_proxy_event"] then KIND_PROXY_EVENT
  else if among ["proxy_blocked_host_window"; "proxy-window"; "blocked_host_window"; "search_kind_proxy_blocked_host_window"]
  then KIND_PROXY_BLOCKED_HOST_WINDOW
  else KIND_EVENT.

(** ** Routes (http.go registerJSON, registerJSONRoles) *)

Definition handler : Type := http_request -> Identity -> gmap string string -> prog.

(** Without roles a route is open. *)
Record route := { RouteMethod : string; Pattern : string; RouteRoles : option (list string); Handle : handler }.

Definition all_roles : list string := [RoleViewer; RoleOperator; RoleAdmin].
Definition writer_roles : list string := [RoleOperator; RoleAdmin].

Definition registerJSONRoles (method pattern : string) (allowedRoles : list string) (h : handler) : route :=
  {| RouteMethod := method; Pattern := pattern; RouteRoles := Some allowedRoles; Handle := h |}.

Definition registerJSON (method pattern : string) (h : handler) : route := registerJSONRoles method pattern all_roles h.

Definition open_route (method pattern : string) (h : handler) : route :=
  {| RouteMethod := method; Pattern := pattern; RouteRoles := None; Handle := h |}.

(** What the process registers routes for. *)
Record deployment := {
  HasDedup : bool;
  HasDQ : bool;
  DQOptions : Dq.Options;
  HasOperations : bool;
  HasMonitor : bool;
  WsEnabled : bool;
  AllowedOrigins : list string;
}.

(** ** Serving *)

Section serving.
Context {J : HttpJSON} {JW : JWTJSON}.
Context (tokenAuth : TokenAuth) (w : lookup_world) (now1 now2 : time) (v : jwtVerifier).

(** The function that registerJSONRoles hands to the gateway. *)
Definition guarded (r : http_request) (p : gmap string string) (rt : route) : jwtVerifier * prog :=
  match RouteRoles rt with
  | None => (v, Handle rt r no_identity p)
  | Some allowed =>
      let '(v', (decision, identity)) := AuthorizeIdentity tokenAuth w now1 now2 v (AuthorizationHeader r) allowed in
      match decision with
      | DecisionAuthorized => (v', Handle rt r identity p)
      | _ => (v', Reply (writeAuthorizationError decision))
      end
  end.

(** The headers that corsMiddleware sets; a handler can replace them. *)
Definition cors_headers (allowedOrigins : list string) (origin : string) : gmap string string :=
  let allowed := List.filter (fun o => negb (is_empty o)) (TrimSpace <$> allowedOrigins) in
  let base : gmap string string :=
    <["Access-Control-Allow-Methods" := "GET, POST, PUT, DELETE, OPTIONS"]>
    (<["Access-Control-Allow-Headers" := "Content-Type, Authorization"]> {["Access-Control-Max-Age" := "86400"]}) in
  if is_empty origin then base
  else
    let base := <["Vary" := "Origin"]> base in
    if bool_decide (origin ∈ allowed) then <["Access-Control-Allow-Origin" := origin]> base else base.

Definition add_headers (h : gmap string string) (r : reply) : reply :=
  {| Status := Status r; Headers := Headers r ∪ h; Content := Content r |}.

Definition corsMiddleware (next : http_request -> jwtVerifier * prog) (allowedOrigins : list string) (r : http_request)
    : jwtVerifier * prog :=
  let headers := cors_headers allowedOrigins (OriginHeader r) in
  if String.eqb (ReqMethod r) "OPTIONS" then (v, Reply {| Status := 204; Headers := headers; Content := Nothing |})
  else let '(v', p) := next r in (v', map_reply (add_headers headers) p).

(** The reply to an asset request, as it was written (dedup/assets.go). *)
Definition asset_response (a : asset_reply) : reply :=
  {| Status := match a with StatusOnly s | HTTPError s _ => s | NotFound => 404 | Served _ _ => 200 end;
     Headers := match a with Served hs _ => list_to_map hs | _ => ∅ end;
     Content := AssetContent a |}.

Definition asset_of (r : http_request) : asset_request := {|
  AssetMethod := ReqMethod r; AssetPath := Path r; AssetRawPath := RawPath r; AssetQuery := RawQuery r |}.

(** The gateway picks the registered pattern that a request matches, with its
    parameters, or answers by itself. *)
Context (pick : list (string * string) -> http_request -> option (nat * gmap string string)) (unrouted : http_request -> Z).

Definition gateway (routes : list route) (r : http_request) : jwtVerifier * prog :=
  match pick ((fun rt => (RouteMethod rt, Pattern rt)) <$> routes) r with
  | Some (i, p) =>
      match routes !! i with
      | Some rt => guarded r p rt
      | None => (v, Reply {| Status := unrouted r; Headers := ∅; Content := Unrouted |})
      end
  | None => (v, Reply {| Status := unrouted r; Headers := ∅; Content := Unrouted |})
  end.

(** The handler of the server that StartHTTP starts. *)
Definition serve_with (routes : list route) (d : deployment) : http_request -> jwtVerifier * prog :=
  corsMiddleware
    (fun r => if HasDQ d && HasPrefix (Path r) "/dq-ui/"
              then (v, Call (CallAssets (asset_of r)) (fun a => Reply (asset_response a)))
              else gateway routes r)
    (AllowedOrigins d).
End serving.

(** ** The gRPC transport (grpcapi/service.go, server.go) *)

Inductive grpc_code :=
| CodeCanceled | CodeUnknown | CodeInvalidArgument | CodeDeadlineExceeded | CodeNotFound | CodePermissionDenied
| CodeAborted | CodeUnavailable | CodeUnauthenticated.

Definition grpc_code_of (e : app_error) : grpc_code :=
  if app_Is e DeadlineExceeded then CodeDeadlineExceeded
  else if app_Is e Canceled then CodeCanceled
  else if is_validation e || app_Is e ErrInvalidRequest || app_Is e ErrOversizedInput then CodeInvalidArgument
  else if has_kind e ErrNotFound then CodeNotFound
  else if has_kind e ErrConflict then CodeAborted
  else if has_kind e ErrForbidden then CodePermissionDenied
  else if has_kind e ErrUnavailable then CodeUnavailable
  else CodeUnknown.

(** The code and the text of the status error. *)
Definition translateError (e : app_error) : grpc_code * string := (grpc_code_of e, app_text e).

Section grpc.
Context {JW : JWTJSON} (w : lookup_world) (now1 now2 : time) (v : jwtVerifier).

(** server.go authorized; [tokenAuth] can be nil, and so can the metadata. *)
Definition authorized (tokenAuth : option TokenAuth) (metadata : option (list string)) : jwtVerifier * bool :=
  match tokenAuth with
  | None => (v, true)
  | Some a =>
      if negb (Auth.Enabled a) then (v, true)
      else match metadata with
           | None | Some [] => (v, false)
           | Some values =>
               let '(v', (decision, _)) := AuthorizeIdentity a w now1 now2 v (Join values " ") all_roles in
               (v', match decision with DecisionAuthorized => true | _ => false end)
           end
  end.

(** unaryAuth and streamAuth *)
Definition unaryAuth {A} (tokenAuth : option TokenAuth) (metadata : option (list string)) (h : A + (grpc_code * string))
    : jwtVerifier * (A + (grpc_code * string)) :=
  let '(v', ok) := authorized tokenAuth metadata in
  (v', if ok then h else inr (CodeUnauthenticated, "missing or invalid bearer token")).
End grpc.

Definition grpc_result {A} (r : A + app_error) : A + (grpc_code * string) :=
  match r with inl a => inl a | inr e => inr (translateError e) end.

(** SearchStream: what was sent, and the status; [send] fails at the results it
    refuses. *)
Fixpoint send_results {E} (send : SearchResults.RawResult -> option E) (l : list SearchResults.RawResult)
    : list SearchResults.RawResult * option E :=
  match l with
  | [] => ([], None)
  | r :: l =>
      match send r with
      | Some err => ([], Some err)
      | None => let '(sent, err) := send_results send l in (r :: sent, err)
      end
  end.

Definition SearchStream (send : SearchResults.RawResult -> option (grpc_code * string)) (r : SearchResponse + app_error)
    : list SearchResults.RawResult * option (grpc_code * string) :=
  match r with
  | inr e => ([], Some (translateError e))
  | inl resp => send_results send (Results resp)
  end.
