(* ===== verification/Handlers.v ===== *)
(** * The routes of the HTTP layer (transport/httpapi)

    Every handler of search_handlers.go, reporting_handlers.go,
    assets_handlers.go, savedviews.go, dedup_handlers.go, dq_handlers.go,
    operations_handlers.go and health_handlers.go, in the order StartHTTP
    registers them.  Logging is left out. *)

From S2P Require Import Prelude GoErrors GoStrings GoStrconv GoTime GoFloats GoDuration.
From S2P Require Import SearchService Graph GraphPages Inventory InventoryPages Investigation Network Pair RecordContext.
From S2P Require Import Entities Annotations SavedViews Dq EtlHealth Operations Upstream Auth Http.

Section handlers.
Context {J : HttpJSON}.

(** ** Search (search_handlers.go) *)

(** The lines of the stream up to the first that cannot be encoded. *)
Fixpoint stream_lines (results : list SearchResults.RawResult) (meta : SearchResponse) : list line :=
  match results with
  | [] => if encodable_line (DoneLine meta) then [DoneLine meta] else []
  | r :: results => if encodable_line (ResultLine r) then ResultLine r :: stream_lines results meta else []
  end.

Definition without_results (r : SearchResponse) : SearchResponse := {|
  ModeUsed := ModeUsed r; FallbackReason := FallbackReason r; FallbackCode := FallbackCode r;
  FallbackRetryAt := FallbackRetryAt r; DenseResultCount := DenseResultCount r; SparseResultCount := SparseResultCount r;
  FusedResultCount := FusedResultCount r; Results := []; ObservationStart := ObservationStart r;
  ObservationEnd := ObservationEnd r |}.

Definition stream_reply (r : SearchResponse) : reply := {|
  Status := 200; Headers := {["Content-Type" := "application/x-ndjson"]};
  Content := Lines (stream_lines (Results r) (without_results r)) |}.

Definition search_with (now : time) (write : SearchResponse -> reply) (r : http_request) : prog :=
  readRequestBody r (fun body =>
    unmarshalled (unmarshal_search body) (fun req =>
      Call (CallSearch req) (fun a =>
        Reply match a with inl resp => write resp | inr err => writeSearchError now err end))).

Definition search_handler (now : time) : handler := fun r _ _ => search_with now (fun resp => writeProtoJSON 200 (PSearch resp)) r.
Definition stream_handler (now : time) : handler := fun r _ _ => search_with now stream_reply r.

Definition explain_handler : handler := fun r _ p =>
  ask (CallExplain (param p "source_key") (Get (QueryValues r) "query") (parseKind (Get (QueryValues r) "kind")))
    (fun d => writeJSON 200 (PExplain d)).

Definition context_handler : handler := fun r _ p =>
  let q := QueryValues r in
  match parseDurationParam (Get q "window") RecordContextDefaultWindow RecordContextMaxWindow with
  | inr message => Reply (writeError 400 message)
  | inl window =>
      match parseIntParam (Get q "bucket_minutes") RecordContextDefaultBuckets 1 (24 * 60) with
      | inr message => Reply (writeError 400 message)
      | inl bucket =>
          ask (CallRecordContext {| ContextKey := param p "source_key"; ContextKind := parseKind (Get q "kind");
                                    ContextFilters := None; Window := window; RequestBucket := bucket |})
            (fun c => writeJSON 200 (PContext c))
      end
  end.

Definition suggest_handler : handler := fun r _ _ =>
  Call (CallSuggest (Get (QueryValues r) "prefix")) (fun a =>
    Reply match a with inl s => writeProtoJSON 200 (PSuggestions s) | inr err => writeError 500 (app_text err) end).

Definition scoped_handler : handler := fun r _ _ =>
  readRequestBody r (fun body =>
    unmarshalled (unmarshal_scoped body) (fun pl =>
      let explain filters :=
        ask (CallExplainScoped (ScopedKey pl) (ScopedQuery pl) (parseKind (ScopedKind pl)) filters)
          (fun d => writeJSON 200 (PExplain d)) in
      if (0 <? len (ScopedFilters pl)) && negb (String.eqb (ScopedFilters pl) "null") then
        match unmarshal_search_filters (ScopedFilters pl) with
        | inl filters => explain (Some filters)
        | inr _ => Reply (writeError 400 "invalid scoped explain filters")
        end
      else explain None)).

Definition search_routes (now : time) : list route := [
  registerJSON "POST" "/v1/search" (search_handler now);
  registerJSON "POST" "/v1/search/stream" (stream_handler now);
  registerJSON "GET" "/v1/explain/{source_key}" explain_handler;
  registerJSON "GET" "/v1/records/{source_key}/context" context_handler;
  registerJSON "GET" "/v1/suggest/filters" suggest_handler;
  registerJSON "POST" "/v1/explain/scoped" scoped_handler].

(** ** Assets (assets_handlers.go) *)

Definition entities_handler : handler := fun r _ _ =>
  let q := QueryValues r in
  let entities size :=
    ask (CallEntities (Get q "kind") (Get q "q") (Get q "page_cursor") size) (fun e => writeJSON 200 (PEntities e)) in
  let raw := TrimSpace (Get q "page_size") in
  if is_empty raw then entities 0
  else match Sscanf_d raw with
       | Some size => entities size
       | None => Reply (writeError 400 "invalid entity page_size")
       end.

Definition annotation_handler : handler := fun r _ p =>
  ask (CallAnnotation (param p "kind") (param p "id")) (fun a =>
    match a with
    | Some a => writeJSON 200 (PAnnotation a)
    | None => writeError 404 "asset annotation not found"
    end).

Definition annotate_handler : handler := fun r id p =>
  readRequestBody r (fun body =>
    first_value (decode_annotation body) (fun m => m) (fun update _ =>
      ask (CallAnnotate (param p "kind") (param p "id") update (Display id)) (fun a => writeJSON 200 (PAnnotation a)))).

(** An empty body decides nothing. *)
Definition decision_handler : handler := fun r id p =>
  readRequestBody r (fun body =>
    let decide_on decision :=
      ask (CallDecision (param p "candidate_id") decision (Display id)) (fun d => writeJSON 200 (PDecision d)) in
    if 0 <? len (TrimSpace body) then unmarshalled (unmarshal_decision body) decide_on else decide_on "").

Definition assets_routes : list route := [
  registerJSON "GET" "/v1/entities" entities_handler;
  registerJSON "GET" "/v1/asset-annotations/{kind}/{id}" annotation_handler;
  registerJSONRoles "PUT" "/v1/asset-annotations/{kind}/{id}" writer_roles annotate_handler;
  registerJSONRoles "POST" "/v1/inventory/merge-candidates/{candidate_id}/decision" writer_roles decision_handler].

(** ** Reports (reporting_handlers.go) *)

Definition no_inventory_filters : InventoryFilters := {|
  FilterRegistered := None; NeedsIdentityReview := false; Inventory.Query := ""; Inventory.SourceMACs := [];
  Inventory.SensorIDs := []; Inventory.ObservedAfter := None; Inventory.ObservedBefore := None; Inventory.Sort := "";
  Inventory.Grouping := ""; Inventory.LocationIDs := []; Inventory.OwnerIDs := []; Inventory.ActiveOnly := false;
  MinDedupConfidence := None; FilterTags := []; Inventory.Limit := 0; Inventory.Scope := ""; Inventory.PageCursor := "";
  Inventory.PageSize := 0 |}.

Definition no_graph_filters : GraphFilters := {|
  Hierarchy := false; RootBSSID := ""; RootNodeID := ""; Projection := ""; IncludeIdentity := false;
  Graph.LocationIDs := []; Graph.SensorIDs := []; FilterMAC := ""; FilterSSID := ""; FilterKinds := []; EdgeKinds := [];
  FilterThreatOnly := false; After := None; Before := None; Hops := 0; Graph.Limit := 0; Graph.Scope := ""; Graph.PageCursor := "";
  Graph.PageSize := 0 |}.

Definition pair_handler : handler := fun r _ p =>
  ask (CallPair (param p "candidate_id")) (fun d => writeJSON 200 (PPair d)).

Definition inventory_handler : handler := fun r _ _ =>
  readRequestBody r (fun body =>
    let inventory f := ask (CallInventory f) (fun a => writeJSON 200 (PInventory a)) in
    if 0 <? len (TrimSpace body) then unmarshalled (unmarshal_inventory body) inventory else inventory no_inventory_filters).

Definition network_handler : handler := fun r _ _ =>
  readRequestBody r (fun body =>
    only_value (decode_network body) (fun _ => "Invalid network scope.") "Invalid network scope." (fun filters =>
      match has_member "ap_bssid" body with
      | None => Reply (writeError 400 "Invalid network scope.")
      | Some focused =>
          if (focused : bool) && is_empty (TrimSpace (NetAPBSSID filters))
          then Reply (writeError 400 "AP focus requires a BSSID.")
          else ask (CallNetwork filters) (fun a => writeJSON 200 (PNetwork a))
      end)).

Definition investigation_handler : handler := fun r _ _ =>
  readRequestBody r (fun body =>
    first_value (decode_investigation body) (fun _ => "invalid investigation scope") (fun request _ =>
      ask (CallInvestigation request) (fun a => writeJSON 200 (PInvestigation a)))).

Definition evidence_handler : handler := fun r _ _ =>
  readRequestBody r (fun body =>
    first_value (decode_investigation body) (fun _ => "invalid evidence scope") (fun request _ =>
      ask (CallEvidence request) (fun a => writeJSON 200 (PInvestigation a)))).

(** The two maps of applyGraphQueryFilters: the targets of a key, by name. *)
Definition graph_texts (f : GraphFilters) : list (string * string) := [
  ("root_bssid", RootBSSID f); ("root_node_id", RootNodeID f); ("source_mac", FilterMAC f); ("projection", Projection f);
  ("scope", Graph.Scope f); ("page_cursor", Graph.PageCursor f)].

Definition graph_numbers (f : GraphFilters) : list (string * Z) := [
  ("limit", Graph.Limit f); ("hops", Hops f); ("page_size", Graph.PageSize f)].

(** The filters behind the pointers. *)
Definition with_targets (hierarchy : bool) (texts : gmap string string) (numbers : gmap string Z) (f : GraphFilters)
    : GraphFilters :=
  let text key := default "" (texts !! key) in
  let number key := default 0 (numbers !! key) in {|
  Hierarchy := hierarchy; RootBSSID := text "root_bssid"; RootNodeID := text "root_node_id"; Projection := text "projection";
  IncludeIdentity := IncludeIdentity f; Graph.LocationIDs := Graph.LocationIDs f; Graph.SensorIDs := Graph.SensorIDs f;
  FilterMAC := text "source_mac"; FilterSSID := FilterSSID f; FilterKinds := FilterKinds f; EdgeKinds := EdgeKinds f;
  FilterThreatOnly := FilterThreatOnly f; After := After f; Before := Before f; Hops := number "hops";
  Graph.Limit := number "limit"; Graph.Scope := text "scope"; Graph.PageCursor := text "page_cursor";
  Graph.PageSize := number "page_size" |}.

Definition put_text (q : gmap string (list string)) (m : gmap string string) (key : string) : gmap string string :=
  if Has q key then <[key := Get q key]> m else m.

Definition put_number (q : gmap string (list string)) (m : option (gmap string Z)) (key : string) : option (gmap string Z) :=
  match m with
  | None => None
  | Some m =>
      if Has q key then match ParseInt64 (Get q key) with Some n => Some (<[key := n]> m) | None => None end
      else Some m
  end.

(** [order] is the order in which Go ranges over the maps. *)
Definition applyGraphQueryFilters (order : list string -> list string) (f : GraphFilters) (q : gmap string (list string))
    : option GraphFilters :=
  match (if Has q "hierarchy" then ParseBool (Get q "hierarchy") else Some (Hierarchy f)) with
  | None => None
  | Some hierarchy =>
      let texts := foldl (put_text q) (list_to_map (graph_texts f)) (order (fst <$> graph_texts f)) in
      match foldl (put_number q) (Some (list_to_map (graph_numbers f))) (order (fst <$> graph_numbers f)) with
      | None => None
      | Some numbers => Some (with_targets hierarchy texts numbers f)
      end
  end.

Definition graph_handler (order : list string -> list string) : handler := fun r _ _ =>
  readRequestBody r (fun body =>
    let graph f :=
      match applyGraphQueryFilters order f (QueryValues r) with
      | None => Reply (writeError 400 "Invalid graph query filters.")
      | Some f => ask (CallGraph f) (fun a => writeJSON 200 (PGraph a))
      end in
    if 0 <? len (TrimSpace body) then unmarshalled (unmarshal_graph body) graph else graph no_graph_filters).

Definition reporting_routes (order : list string -> list string) : list route := [
  registerJSON "GET" "/v1/inventory/merge-candidates/{candidate_id}" pair_handler;
  registerJSON "POST" "/v1/inventory" inventory_handler;
  registerJSON "POST" "/v1/network-map" network_handler;
  registerJSON "POST" "/v1/investigation" investigation_handler;
  registerJSON "POST" "/v1/evidence" evidence_handler;
  registerJSON "POST" "/v1/graph" (graph_handler order);
  registerJSON "GET" "/v1/graph" (graph_handler order)].

(** ** Saved views (savedviews.go) *)

Definition writeUnavailable : reply := writeError 403 (app_text (view_app_error ErrSavedViewUnavailable)).

Definition owned_views (id : Identity) (k : string -> prog) : prog :=
  let owner := savedViewsOwner id in if is_empty owner then Reply writeUnavailable else k owner.

Definition ask_views {A} (c : call (A + view_error)) (write : A -> reply) : prog :=
  Call c (fun a => Reply match a with inl a => write a | inr err => service_error (view_app_error err) end).

Definition list_views_handler : handler := fun r id _ =>
  owned_views id (fun owner =>
    ask_views (CallListViews owner (Get (QueryValues r) "surface")) (fun views => writeJSON 200 (PViews views))).

Definition create_view_handler : handler := fun r id _ =>
  owned_views id (fun owner =>
    readRequestBody r (fun body =>
      only_value (decode_view_create body) (fun m => m) "invalid saved view payload" (fun input =>
        ask_views (CallCreateView owner input) (fun view => writeJSON 201 (PView view))))).

Definition update_view_handler : handler := fun r id p =>
  owned_views id (fun owner =>
    readRequestBody r (fun body =>
      only_value (decode_view_update body) (fun m => m) "invalid saved view payload" (fun input =>
        ask_views (CallUpdateView owner (param p "id") input) (fun view => writeJSON 200 (PView view))))).

Definition delete_view_handler : handler := fun r id p =>
  owned_views id (fun owner =>
    ask_views (CallDeleteView owner (param p "id")) (fun _ => {| Status := 204; Headers := ∅; Content := Nothing |})).

Definition registerSavedViews : list route := [
  registerJSON "GET" "/v1/saved-views" list_views_handler;
  registerJSON "POST" "/v1/saved-views" create_view_handler;
  registerJSON "PUT" "/v1/saved-views/{id}" update_view_handler;
  registerJSON "DELETE" "/v1/saved-views/{id}" delete_view_handler].

(** ** Deduplication runs (dedup_handlers.go) *)

Definition dedup_disabled : reply := writeError 403 "DQ dedup beta is disabled".

Definition ask_manager (status : Z) (op : Dq.operation) : prog := ask (CallManager op) (fun a => writeJSON status (PManager a)).

Definition admit_handler (d : deployment) : handler := fun r _ _ =>
  if negb (HasDedup d) then Reply dedup_disabled
  else
    match ReadAll 65536 (ReqBody r) with
    | inr err => Reply (writeError (httpStatusFromError (Some err)) "invalid dedup request body")
    | inl body =>
        only_value (decode_dedup body) (fun _ => "invalid dedup request") "dedup request must contain one JSON object"
          (fun request => ask_manager 202 (OpAdmit request))
    end.

Definition dedup_run_handler (d : deployment) : handler := fun _ _ p =>
  if negb (HasDedup d) then Reply dedup_disabled else ask_manager 200 (OpRun (param p "run_id")).

Definition dedup_routes (d : deployment) : list route := [
  registerJSONRoles "POST" "/v1/dedup/runs" writer_roles (admit_handler d);
  registerJSON "GET" "/v1/dedup/runs/{run_id}" (dedup_run_handler d)].

(** ** Data quality (dq_handlers.go) *)

Definition dqBody {A} (decode : string -> decoded A) (r : http_request) (k : A -> prog) : prog :=
  match ReadAll 65536 (ReqBody r) with
  | inr err => Reply (writeError (httpStatusFromError (Some err)) "invalid DQ body")
  | inl data =>
      if String.eqb (TrimSpace data) "null" then Reply (writeError 400 "invalid DQ request")
      else only_value (decode data) (fun _ => "invalid DQ request") "invalid DQ request" k
  end.

Record dq_route := { DQMethod : string; DQPath : string; Mutation : bool; DQHandle : http_request -> gmap string string -> prog }.

(** The status of a value: runs are accepted. *)
Definition dq_status (path : string) : Z :=
  if String.eqb path "/v1/dq/runs" || String.eqb path "/v1/dq/runs/{run_id}/replay" then 202 else 200.

Definition dq_context (d : deployment) : UIContext_t :=
  if HasDQ d then UIContext (DQOptions d)
  else {| UIEnabled := false; BetaEnabled := false; UIRemoteOrigin := ""; BridgeVersion := 1 |}.

Definition dq_entries (d : deployment) : list dq_route :=
  let asking path op := ask_manager (dq_status path) op in [
  {| DQMethod := "GET"; DQPath := "/v1/dq/context"; Mutation := false;
     DQHandle := fun _ _ => Reply (writeJSON (dq_status "/v1/dq/context") (PUIContext (dq_context d))) |};
  {| DQMethod := "GET"; DQPath := "/v1/dq/processors"; Mutation := false;
     DQHandle := fun _ _ => asking "/v1/dq/processors" OpCatalog |};
  {| DQMethod := "GET"; DQPath := "/v1/dq/processor-versions/{processor_id}/{version}"; Mutation := false;
     DQHandle := fun _ p => asking "/v1/dq/processor-versions/{processor_id}/{version}"
                              (OpVersion (param p "processor_id") (param p "version")) |};
  {| DQMethod := "POST"; DQPath := "/v1/dq/runs"; Mutation := true;
     DQHandle := fun r _ => dqBody decode_admission r (fun req => asking "/v1/dq/runs" (OpAdmitProcessor req)) |};
  {| DQMethod := "GET"; DQPath := "/v1/dq/runs/{run_id}"; Mutation := false;
     DQHandle := fun _ p => asking "/v1/dq/runs/{run_id}" (OpInspect (param p "run_id")) |};
  {| DQMethod := "POST"; DQPath := "/v1/dq/runs/{run_id}/cancel"; Mutation := true;
     DQHandle := fun r p => dqBody decode_nothing r (fun _ => asking "/v1/dq/runs/{run_id}/cancel" (OpCancel (param p "run_id"))) |};
  {| DQMethod := "POST"; DQPath := "/v1/dq/runs/{run_id}/replay"; Mutation := true;
     DQHandle := fun r p => dqBody decode_key r (fun key =>
                              asking "/v1/dq/runs/{run_id}/replay" (OpReplay (param p "run_id") key)) |};
  {| DQMethod := "GET"; DQPath := "/v1/dq/artifacts/{artifact_id}"; Mutation := false;
     DQHandle := fun _ p => asking "/v1/dq/artifacts/{artifact_id}" (OpArtifact (param p "artifact_id")) |};
  {| DQMethod := "POST"; DQPath := "/v1/dq/artifacts/{artifact_id}/access"; Mutation := false;
     DQHandle := fun r p => dqBody decode_nothing r (fun _ =>
                              asking "/v1/dq/artifacts/{artifact_id}/access" (OpAccess (param p "artifact_id"))) |}].

(** What every entry does first. *)
Definition dq_handler (d : deployment) (e : dq_route) : handler := fun r _ p =>
  map_reply (with_header "Cache-Control" "no-store")
    (if negb (is_empty (RawQuery r)) then Reply (writeError 400 "DQ query overrides are not allowed")
     else if negb (String.eqb (DQPath e) "/v1/dq/context") && (negb (HasDQ d) || negb (UIEnabled (UIContext (DQOptions d))))
     then Reply (writeError 403 "DQ is disabled")
     else DQHandle e r p).

Definition registerDQRoutes (d : deployment) : list route :=
  (fun e => registerJSONRoles (DQMethod e) (DQPath e) (if Mutation e then writer_roles else all_roles) (dq_handler d e))
  <$> dq_entries d.

(** ** Operations (operations_handlers.go) *)

Definition no_store {A} (c : call A) (write : A -> payload) : handler := fun _ _ _ =>
  Call c (fun a => Reply (with_header "Cache-Control" "no-store" (writeJSON 200 (write a)))).

Definition registerOperationsRoutes (d : deployment) : list route :=
  if negb (HasOperations d) then []
  else [
  registerJSON "GET" "/v1/operations/pipeline" (no_store CallPipeline PPipeline);
  registerJSON "GET" "/v1/operations/sources" (no_store CallSources PSources);
  registerJSONRoles "GET" "/v1/operations/proxy/live" writer_roles (no_store CallProxyLive PProxyLive)].

(** ** Health (health_handlers.go) *)

Definition healthz : handler := fun _ _ _ => Reply (writeJSON 200 (Texts [("status", "ok")])).

Definition readyz : handler := fun _ _ _ =>
  Call CallReady (fun err =>
    Reply match err with
          | Some err => writeError 503 (Error err)
          | None => writeJSON 200 (Texts [("status", "ready")])
          end).

Definition with_snapshot (write : ETLHealth -> payload) : handler := fun _ _ _ =>
  Call CallHealth (fun a =>
    Reply match a with inr err => writeError 500 (Error err) | inl snapshot => writeJSON 200 (write snapshot) end).

Definition embedding_jobs (h : ETLHealth) : payload :=
  Numbers [("pending", EmbeddingPending h); ("leased", EmbeddingLeased h); ("completed", EmbeddingCompleted h);
           ("failed", EmbeddingFailed h)].

Definition CheckOrigin (d : deployment) (r : http_request) : bool :=
  bool_decide (AllowedOrigins d = []) || existsb (String.eqb (OriginHeader r)) (AllowedOrigins d).

(** The loop of the health socket: what it writes until it returns. *)
Fixpoint etl_stream (events : list stream_event) : list message :=
  match events with
  | [] | Disconnected :: _ => []
  | ContextDone :: _ => [CloseNormal]
  | Tick snapshot deadline_set written :: events =>
      match snapshot with
      | inr _ => etl_stream events
      | inl h =>
          if negb (encodable_snapshot h) then etl_stream events
          else if (deadline_set : bool) && (written : bool) then SnapshotMessage h :: etl_stream events
          else []
      end
  | PingTick deadline_set written :: events =>
      if (deadline_set : bool) && (written : bool) then PingMessage :: etl_stream events else []
  end.

(** A refused origin ends the handshake; the library answers what fails. *)
Definition stream_health (d : deployment) : handler := fun r _ _ =>
  if negb (CheckOrigin d r) then Reply {| Status := 403; Headers := ∅; Content := Unrouted |}
  else Call CallUpgrade (fun events =>
         Reply match events with
               | None => {| Status := 400; Headers := ∅; Content := Unrouted |}
               | Some events => {| Status := 101; Headers := ∅; Content := Messages (etl_stream events) |}
               end).

Definition registerHealthRoutes (d : deployment) : list route :=
  [open_route "GET" "/healthz" healthz; open_route "GET" "/v1/healthz" healthz; open_route "GET" "/readyz" readyz]
  ++ (if HasMonitor d then
        [registerJSON "GET" "/v1/etl/health" (with_snapshot PHealth);
         registerJSON "GET" "/v1/etl/embedding/jobs" (with_snapshot embedding_jobs);
         registerJSON "GET" "/v1/etl/workers" (with_snapshot PWorkers)]
        ++ (if WsEnabled d then [registerJSON "GET" "/v1/etl/stream" (stream_health d)] else [])
      else []).

(** ** The server (http.go StartHTTP) *)

Definition routes (now : time) (order : list string -> list string) (d : deployment) : list route :=
  search_routes now ++ assets_routes ++ reporting_routes order ++ registerSavedViews ++ dedup_routes d
  ++ registerDQRoutes d ++ registerOperationsRoutes d ++ registerHealthRoutes d.
End handlers.

(** ** Reasoning about programs *)

(** Who may make a call: no one in particular, or a caller with a role. *)
Definition needs {A} (c : call A) : option (list string) :=
  match c with
  | CallReady | CallAssets _ => None
  | CallAnnotate _ _ _ _ | CallDecision _ _ _ | CallProxyLive => Some writer_roles
  | CallManager op =>
      Some match op with OpAdmit _ | OpAdmitProcessor _ | OpCancel _ | OpReplay _ _ => writer_roles | _ => all_roles end
  | _ => Some all_roles
  end.

(** Calls on behalf of the caller name the caller. *)
Definition attributed {A} (id : Identity) (c : call A) : Prop :=
  match c with
  | CallListViews owner _ | CallCreateView owner _ | CallUpdateView owner _ _ | CallDeleteView owner _ =>
      owner = savedViewsOwner id /\ owner <> ""
  | CallAnnotate _ _ _ actor | CallDecision _ _ actor => actor = Display id
  | _ => True
  end.

(** The most that is read of a body for a call, if it is made from one. *)
Definition body_limit {A} (c : call A) : option Z :=
  match c with
  | CallSearch _ | CallExplainScoped _ _ _ _ | CallInventory _ | CallNetwork _ | CallInvestigation _ | CallEvidence _
  | CallGraph _ | CallAnnotate _ _ _ _ | CallDecision _ _ _ | CallCreateView _ _ | CallUpdateView _ _ _ => Some (2 ^ 20)
  | CallManager (OpAdmit _ | OpAdmitProcessor _ | OpCancel _ | OpReplay _ _ | OpAccess _) => Some 65536
  | _ => None
  end.

Definition within {A} (r : http_request) (c : call A) : Prop :=
  match body_limit c with
  | Some limit => len (arrived (ReqBody r)) <= limit /\ read_failure (ReqBody r) = None
  | None => True
  end /\
  match c with
  | CallRecordContext q => 0 < Window q <= 7 * 24 * Hour /\ 1 <= RequestBucket q <= 1440
  | _ => True
  end.

(** What the services promise: a search that lacks its semantic backend says so
    with a fixed code and message ([search_unavailable] shows it of [Search]), and
    assets are served by [ServeAssets]. *)
Definition honest (A : Type) (c : call A) : A -> Prop :=
  match c in call A return A -> Prop with
  | CallSearch _ => fun a =>
      match a with inr (UnavailableError code _ message) => exists err, semanticFallbackCode err = (code, message) | _ => True end
  | CallAssets req => fun a => exists (Std : DqStd) options server, a = snd (ServeAssets options server req)
  | _ => fun _ => True
  end.

(** What the reply of a failure shows: the text of an internal error to no one. *)
Definition masked (r : reply) : Prop :=
  500 <= Status r ->
  match Content r with
  | JSON (Texts [("error", message)]) => message = "internal server error"
  | JSON (Texts [("error", message); ("code", code)]) =>
      Status r = 503 /\
      (code, message) ∈ [(FallbackBackendUnavailable, msgBackendUnavailable); (FallbackCapacityExhausted, msgCapacityExhausted);
                         (FallbackInvalidResponse, msgInvalidResponse)]
  | AssetContent a => a = HTTPError 503 "DQ is unavailable"
  | _ => False
  end.

Section reasoning.
Context (Ans : forall A, call A -> A -> Prop) (P : forall A, call A -> Prop) (Q : reply -> Prop).

(** The calls are [P] against any services, the reply is [Q] against those that
    answer as in [Ans]. *)
Lemma run_calls s p :
  post Ans P Q p -> at_most_one p -> Forall (fun c => P (projT1 c) (projT2 c)) (fst (run s p)).
Proof.
  destruct p as [r|A c k]; cbn [run post]; [by constructor|]. intros [Hc _] H. destruct (H (s A c)) as [r ->].
  by constructor.
Qed.

Lemma run_reply s p : (forall A c, Ans A c (s A c)) -> post Ans P Q p -> Q (snd (run s p)).
Proof.
  intros Hs. induction p as [r|A c k IH]; cbn [run post]; [done|]. intros [_ Hk].
  specialize (IH (s A c) (Hk _ (Hs _ _))). by destruct (run s (k (s A c))) as [calls r].
Qed.

Lemma post_map_reply f p : post Ans P (fun r => Q (f r)) p -> post Ans P Q (map_reply f p).
Proof. induction p as [r|A c k IH]; cbn; [done|]. intros [? H]. split; [done|]. intros a Ha. by apply IH, H. Qed.

Lemma post_impl (P' : forall A, call A -> Prop) (Q' : reply -> Prop) p :
  (forall A c, P' A c -> P A c) -> (forall r, Q' r -> Q r) -> post Ans P' Q' p -> post Ans P Q p.
Proof.
  intros HP HQ. induction p as [r|A c k IH]; cbn; [by apply HQ|]. intros [? H]. split; [by apply HP|]. intros a Ha. by apply IH, H.
Qed.
End reasoning.

Lemma run_map_reply s f p : run s (map_reply f p) = let '(calls, r) := run s p in (calls, f r).
Proof.
  induction p as [r|A c k IH]; cbn; [done|]. rewrite IH. by destruct (run s (k (s A c))).
Qed.

Lemma run_at_most_one s p : at_most_one p -> (length (fst (run s p)) <= 1)%nat.
Proof. destruct p as [r|A c k]; cbn; [lia|]. intros H. destruct (H (s A c)) as [r ->]. cbn. lia. Qed.

Lemma at_most_one_map f p : at_most_one p -> at_most_one (map_reply f p).
Proof. destruct p as [r|A c k]; cbn; [done|]. intros H a. destruct (H a) as [r ->]. by eexists. Qed.

Section handler_rules.
Context {J : HttpJSON} (P : forall A, call A -> Prop).

Lemma masked_low r : Status r < 500 -> masked r.
Proof. unfold masked. lia. Qed.

Lemma writeJSON_masked status p : status < 500 -> masked (writeJSON status p).
Proof. unfold writeJSON. intros H. destruct (marshals p); [by apply masked_low|]. by intros _. Qed.

Lemma writeError_masked status message : masked (writeError status message).
Proof. unfold writeError, writeJSON, masked. cbn. intros H. by rewrite (proj2 (Z.leb_le _ _) H). Qed.

Lemma writeProtoJSON_masked p : masked (writeProtoJSON 200 p).
Proof. unfold writeProtoJSON. destruct (encodable p); [by apply masked_low|apply writeError_masked]. Qed.

Lemma with_header_masked k v r : masked r -> masked (with_header k v r).
Proof. done. Qed.

Lemma service_error_masked e : masked (service_error e).
Proof. apply writeError_masked. Qed.

Lemma writeSearchError_masked now e :
  match e with UnavailableError code _ message => exists err, semanticFallbackCode err = (code, message) | _ => True end ->
  masked (writeSearchError now e).
Proof.
  unfold writeSearchError. destruct e as [| |code retryAt message|]; try (intros _; apply writeError_masked).
  intros [err E]. assert (H : masked (writeJSON 503 (Texts [("error", message); ("code", code)]))); [|by destruct (negb _ && _)].
  intros _. cbn. split; [done|]. unfold semanticFallbackCode in E.
  repeat case_match; injection E as <- <-; rewrite !elem_of_cons; auto.
Qed.

Lemma asset_masked req a : honest _ (CallAssets req) a -> masked (asset_response a).
Proof.
  intros (Std & options & server & ->). unfold ServeAssets. repeat case_match; unfold masked, asset_response; cbn; intros Hs; (reflexivity || lia).
Qed.

Lemma post_ask {A} (c : call (A + app_error)) write :
  P _ c -> (forall a, masked (write a)) -> post honest P masked (ask c write) /\ at_most_one (ask c write).
Proof.
  intros Hc Hw. split; cbn.
  - split; [done|]. intros [a|e] _; cbn; [apply Hw|apply service_error_masked].
  - intros [a|e]; by eexists.
Qed.

Lemma post_ask_views {A} (c : call (A + view_error)) write :
  P _ c -> (forall a, masked (write a)) -> post honest P masked (ask_views c write) /\ at_most_one (ask_views c write).
Proof.
  intros Hc Hw. split; cbn.
  - split; [done|]. intros [a|e] _; cbn; [apply Hw|apply service_error_masked].
  - intros a. by eexists.
Qed.

(** A program that is fine: calls are [P], replies are masked, one call. *)
Definition fine (p : prog) : Prop := post honest P masked p /\ at_most_one p.

Lemma fine_reply r : masked r -> fine (Reply r).
Proof. by split. Qed.

Lemma fine_call {A} (c : call A) (f : A -> reply) :
  P _ c -> (forall a, honest _ c a -> masked (f a)) -> fine (Call c (fun a => Reply (f a))).
Proof. intros Hc Hf. split; cbn; [done|]. intros a. by eexists. Qed.

Lemma fine_read r k :
  (forall body, len (arrived (ReqBody r)) <= 2 ^ 20 /\ read_failure (ReqBody r) = None -> fine (k body)) ->
  fine (readRequestBody r k).
Proof.
  intros Hk. unfold readRequestBody, ReadAll. destruct (Z.ltb_spec maxRequestBodyBytes (len (arrived (ReqBody r)))).
  - apply fine_reply, writeError_masked.
  - destruct (read_failure (ReqBody r)) eqn:E; [apply fine_reply, writeError_masked|by apply Hk].
Qed.

Lemma fine_unmarshalled {A} (x : A + string) k : (forall a, fine (k a)) -> fine (unmarshalled x k).
Proof. intros Hk. destruct x; [apply Hk|apply fine_reply, writeError_masked]. Qed.

Lemma fine_first {A} (x : decoded A) m k : (forall a rest, fine (k a rest)) -> fine (first_value x m k).
Proof. intros Hk. destruct x as [[a rest]|]; [apply Hk|apply fine_reply, writeError_masked]. Qed.

Lemma fine_only {A} (x : decoded A) m more k : (forall a, fine (k a)) -> fine (only_value x m more k).
Proof. intros Hk. apply fine_first. intros a rest. destruct (at_eof rest); [apply Hk|apply fine_reply, writeError_masked]. Qed.

Lemma fine_dqBody {A} (decode : string -> decoded A) r k :
  (forall a, len (arrived (ReqBody r)) <= 65536 /\ read_failure (ReqBody r) = None -> fine (k a)) -> fine (dqBody decode r k).
Proof.
  intros Hk. unfold dqBody, ReadAll. destruct (Z.ltb_spec 65536 (len (arrived (ReqBody r)))).
  - apply fine_reply, writeError_masked.
  - destruct (read_failure (ReqBody r)) eqn:E; [apply fine_reply, writeError_masked|].
    destruct (String.eqb _ _); [apply fine_reply, writeError_masked|]. apply fine_only. intros a. by apply Hk.
Qed.

Lemma fine_owned id k : (forall owner, owner = savedViewsOwner id -> owner <> "" -> fine (k owner)) -> fine (owned_views id k).
Proof.
  intros Hk. unfold owned_views. destruct (is_empty _) eqn:E; [apply fine_reply, writeError_masked|]. apply Hk; [done|].
  by apply String.eqb_neq.
Qed.

Lemma fine_map f p : (forall r, masked r -> masked (f r)) -> fine p -> fine (map_reply f p).
Proof. intros Hf [H1 H2]. split; [|by apply at_most_one_map]. apply post_map_reply. eapply post_impl; [..|exact H1]; eauto. Qed.

Lemma fine_if (b : bool) p q : fine p -> fine q -> fine (if b then p else q).
Proof. by destruct b. Qed.
End handler_rules.

(** *** The routes *)

Section routes.
Context {J : HttpJSON} (now : time) (order : list string -> list string) (d : deployment).

(** What a route may call, for a caller. *)
Definition permitted (roles : option (list string)) (id : Identity) (r : http_request) (A : Type) (c : call A) : Prop :=
  (needs c = None \/ needs c = roles) /\ attributed id c /\ within r c.

(** Every route calls at most one service, one that its roles allow, on behalf
    of its caller and within its bounds. *)
Definition route_fine (rt : route) : Prop := forall r id p, fine (permitted (RouteRoles rt) id r) (Handle rt r id p).

Lemma ask_fine {A} roles id r (c : call (A + app_error)) write :
  permitted roles id r _ c -> (forall a, masked (write a)) -> fine (permitted roles id r) (ask c write).
Proof. apply post_ask. Qed.

Lemma parseDurationParam_bounds value fallback ceiling window :
  0 < fallback <= ceiling -> parseDurationParam value fallback ceiling = inl window -> 0 < window <= ceiling.
Proof.
  intros Hf. unfold parseDurationParam. destruct (is_empty _); [by intros [= <-]|]. destruct (ParseDuration _) as [x|]; [|done].
  destruct (Z.leb_spec x 0); [done|]. destruct (Z.ltb_spec ceiling x); intros [= <-]; lia.
Qed.

Lemma parseIntParam_bounds value fallback min max n :
  min <= fallback <= max -> parseIntParam value fallback min max = inl n -> min <= n <= max.
Proof.
  intros Hf. unfold parseIntParam. destruct (is_empty _); [by intros [= <-]|]. destruct (ParseInt64 _) as [x|]; [|done].
  destruct (Z.ltb_spec x min); [done|]. destruct (Z.ltb_spec max x); [done|]. intros [= <-]. lia.
Qed.

Lemma context_fine id r p : fine (permitted (Some all_roles) id r) (context_handler r id p).
Proof.
  unfold context_handler. destruct (parseDurationParam _ _ _) as [window|m] eqn:Ew; [|apply fine_reply, writeError_masked].
  destruct (parseIntParam _ _ _ _) as [bucket|m] eqn:Eb; [|apply fine_reply, writeError_masked].
  apply parseDurationParam_bounds in Ew; [|vm_compute; intuition congruence].
  apply parseIntParam_bounds in Eb; [|vm_compute; intuition congruence].
  apply ask_fine; [|intros a; by apply writeJSON_masked]. split; [by right|]. split; [done|]. split; [done|]. cbn.
  unfold RecordContextMaxWindow in Ew. lia.
Qed.

Lemma stream_masked resp : masked (stream_reply resp).
Proof. by apply masked_low. Qed.

(** Discharges what a handler needs: the shape of its program, rights, bounds. *)
Ltac permit := split; [first [by right | by left]|split; [by cbn|split; cbn; repeat split; assumption]].

Ltac handled :=
  repeat match goal with
  | |- fine _ (readRequestBody _ _) => apply fine_read; intros ? []
  | |- fine _ (unmarshalled _ _) => apply fine_unmarshalled; intros ?
  | |- fine _ (first_value _ _ _) => apply fine_first; intros ? ?
  | |- fine _ (only_value _ _ _ _) => apply fine_only; intros ?
  | |- fine _ (dqBody _ _ _) => apply fine_dqBody; intros ? []
  | |- fine _ (owned_views _ _) => apply fine_owned; intros ? ? ?
  | |- fine _ (map_reply _ _) => apply fine_map; [intros ?; apply with_header_masked|]
  | |- fine _ (ask_manager _ _) => unfold ask_manager
  | |- fine _ (ask_views _ _) => apply post_ask_views; [permit|intros ?]
  | |- fine _ (ask _ _) => apply ask_fine; [permit|intros ?]
  | |- fine _ (Call _ _) => apply fine_call; [permit|intros ? ?]
  | |- fine _ (Reply _) => apply fine_reply
  | |- fine _ (if ?b then _ else _) => destruct b
  | |- fine _ (match ?x with _ => _ end) => destruct x
  | |- masked (match ?x with _ => _ end) => destruct x
  | |- masked _ => first [apply writeError_masked | (apply writeSearchError_masked; assumption) | apply service_error_masked
                         | apply stream_masked | apply with_header_masked | apply writeProtoJSON_masked
                         | by apply writeJSON_masked | by apply masked_low]
  end.

Lemma search_routes_fine : Forall route_fine (search_routes now).
Proof.
  repeat apply Forall_cons_2; [..|apply Forall_nil_2]; intros r id p; cbn [Handle RouteRoles registerJSON registerJSONRoles].
  4: apply context_fine.
  all: unfold search_handler, stream_handler, search_with, explain_handler, suggest_handler, scoped_handler; handled.
Qed.

Lemma assets_routes_fine : Forall route_fine assets_routes.
Proof.
  repeat apply Forall_cons_2; [..|apply Forall_nil_2]; intros r id p; cbn [Handle RouteRoles registerJSON registerJSONRoles].
  all: unfold entities_handler, annotation_handler, annotate_handler, decision_handler; cbv zeta; handled.
Qed.

Lemma reporting_routes_fine : Forall route_fine (reporting_routes order).
Proof.
  repeat apply Forall_cons_2; [..|apply Forall_nil_2]; intros r id p; cbn [Handle RouteRoles registerJSON registerJSONRoles].
  all: unfold pair_handler, inventory_handler, network_handler, investigation_handler, evidence_handler, graph_handler; cbv zeta; handled.
Qed.

Lemma saved_routes_fine : Forall route_fine registerSavedViews.
Proof.
  repeat apply Forall_cons_2; [..|apply Forall_nil_2]; intros r id p; cbn [Handle RouteRoles registerJSON registerJSONRoles].
  all: unfold list_views_handler, create_view_handler, update_view_handler, delete_view_handler; handled.
Qed.

Lemma dedup_routes_fine : Forall route_fine (dedup_routes d).
Proof.
  repeat apply Forall_cons_2; [..|apply Forall_nil_2]; intros r id p; cbn [Handle RouteRoles registerJSON registerJSONRoles].
  - unfold admit_handler, ReadAll. destruct (negb _); [handled|]. destruct (Z.ltb_spec 65536 (len (arrived (ReqBody r)))); [handled|].
    destruct (read_failure (ReqBody r)) eqn:E; handled.
  - unfold dedup_run_handler. handled.
Qed.

Lemma dq_routes_fine : Forall route_fine (registerDQRoutes d).
Proof.
  unfold registerDQRoutes. apply Forall_fmap. unfold dq_entries. cbv zeta.
  repeat apply Forall_cons_2; [..|apply Forall_nil_2]; intros r id p; cbn [Handle RouteRoles registerJSONRoles Mutation].
  all: unfold dq_handler; cbn [DQHandle]; handled.
Qed.

Lemma operations_routes_fine : Forall route_fine (registerOperationsRoutes d).
Proof.
  unfold registerOperationsRoutes. destruct (negb _); [apply Forall_nil_2|].
  repeat apply Forall_cons_2; [..|apply Forall_nil_2]; intros r id p; cbn [Handle RouteRoles registerJSON registerJSONRoles].
  all: unfold no_store; handled.
Qed.

Lemma health_routes_fine : Forall route_fine (registerHealthRoutes d).
Proof.
  unfold registerHealthRoutes. destruct (HasMonitor d), (WsEnabled d); cbn [app].
  all: repeat apply Forall_cons_2; [..|apply Forall_nil_2]; intros r id p;
    cbn [Handle RouteRoles registerJSON registerJSONRoles open_route].
  all: unfold healthz, readyz, with_snapshot, stream_health; handled.
Qed.

Lemma routes_fine : Forall route_fine (routes now order d).
Proof.
  unfold routes. apply Forall_app_2; [exact search_routes_fine|]. apply Forall_app_2; [exact assets_routes_fine|].
  apply Forall_app_2; [exact reporting_routes_fine|]. apply Forall_app_2; [exact saved_routes_fine|].
  apply Forall_app_2; [exact dedup_routes_fine|]. apply Forall_app_2; [exact dq_routes_fine|].
  apply Forall_app_2; [exact operations_routes_fine|exact health_routes_fine].
Qed.
End routes.

(** ** Access *)

Section access.
Context {J : HttpJSON} {JW : JWTJSON} (tokenAuth : TokenAuth) (w : lookup_world) (now1 now2 : time) (v : jwtVerifier).
Context (pick : list (string * string) -> http_request -> option (nat * gmap string string)) (unrouted : http_request -> Z).
Context (now : time) (order : list string -> list string) (d : deployment).

(** A call that was let through: open to all, or made for a caller with one of
    its roles, in the caller's name and within bounds. *)
Definition let_through (r : http_request) (v' : jwtVerifier) (A : Type) (c : call A) : Prop :=
  within r c /\
  match needs c with
  | None => True
  | Some roles =>
      exists id, AuthorizeIdentity tokenAuth w now1 now2 v (AuthorizationHeader r) roles = (v', (DecisionAuthorized, id)) /\ attributed id c
  end.

Definition answer_request (r : http_request) : jwtVerifier * prog :=
  serve_with tokenAuth w now1 now2 v pick unrouted (routes now order d) d r.

Lemma guarded_fine r p rt :
  route_fine rt -> let '(v', q) := guarded tokenAuth w now1 now2 v r p rt in fine (let_through r v') q.
Proof.
  intros Hrt. unfold guarded. specialize (Hrt r). destruct (RouteRoles rt) as [allowed|].
  - destruct (AuthorizeIdentity tokenAuth w now1 now2 v (AuthorizationHeader r) allowed) as [v' [decision id]] eqn:E.
    destruct decision; [apply fine_reply, with_header_masked, writeError_masked|apply fine_reply, writeError_masked|].
    destruct (Hrt id p) as [H1 H2]. split; [|done]. eapply post_impl; [..|exact H1]; [|done].
    intros A c (Hn & Ha & Hw). split; [done|]. destruct Hn as [-> | ->]; [done|]. by exists id.
  - destruct (Hrt no_identity p) as [H1 H2]. split; [|done]. eapply post_impl; [..|exact H1]; [|done].
    intros A c (Hn & Ha & Hw). split; [done|]. by destruct Hn as [-> | ->].
Qed.

(** The router's own reply to a request without a route, or a program that is fine. *)
Lemma serve_fine r v' q : answer_request r = (v', q) ->
  (exists h, q = Reply {| Status := unrouted r; Headers := h; Content := Unrouted |}) \/ fine (let_through r v') q.
Proof.
  unfold answer_request, serve_with, corsMiddleware. destruct (String.eqb _ _).
  { intros [= <- <-]. right. by apply fine_reply, masked_low. }
  match goal with |- context [if ?b then (v, ?x) else ?y] => set (next := if b then (v, x) else y) end.
  assert (Hnext : let '(v', q) := next in
    q = Reply {| Status := unrouted r; Headers := ∅; Content := Unrouted |} \/ fine (let_through r v') q).
  { subst next. destruct (HasDQ d && _).
    - right. apply fine_call; [done|]. apply asset_masked.
    - unfold gateway. destruct (pick _ _) as [[i p]|]; [|by left].
      destruct (routes now order d !! i) as [rt|] eqn:E; [|by left].
      pose proof (guarded_fine r p rt (Forall_lookup_1 _ _ _ _ (routes_fine now order d) E)) as H.
      destruct (guarded _ _ _ _ _ _ _ _). by right. }
  destruct next as [v1 q1]. intros [= <- <-]. destruct Hnext as [->|Hf]; [left; by eexists|right].
  apply fine_map; [|done]. by intros x.
Qed.

Lemma serve_runs r v' q : answer_request r = (v', q) ->
  at_most_one q /\ forall s, Forall (fun c => let_through r v' (projT1 c) (projT2 c)) (fst (run s q)).
Proof.
  intros [[h ->]|[H1 H2]]%serve_fine; [split; [done|by constructor]|]. split; [done|]. intros s. by eapply run_calls.
Qed.

(** C3. Whatever a client sends, the server calls one service at most, never for a
    preflight request, and then one that is open to all or that the caller
    has a role for: annotating, deciding on a merge, admitting, cancelling and
    replaying runs and the live proxy need an operator or an administrator.
    Saved views are asked for in the name of the subject of the token, and
    annotations and decisions are signed with the caller's name. *)
Theorem http_access r v' q s :
  answer_request r = (v', q) ->
  (length (fst (run s q)) <= 1)%nat /\
  (ReqMethod r = "OPTIONS" -> fst (run s q) = []) /\
  Forall (fun c =>
    match needs (projT2 c) with
    | None => True
    | Some roles =>
        exists id, AuthorizeIdentity tokenAuth w now1 now2 v (AuthorizationHeader r) roles = (v', (DecisionAuthorized, id)) /\
          attributed id (projT2 c)
    end) (fst (run s q)).
Proof.
  intros E. destruct (serve_runs r v' q E) as [H2 H1]. specialize (H1 s). split; [by apply run_at_most_one|]. split.
  - intros Ho. unfold answer_request, serve_with, corsMiddleware in E. rewrite Ho in E. by injection E as _ <-.
  - eapply Forall_impl; [exact H1|]. by intros c [_ H].
Qed.

(** C6. What reaches a service is bounded: the body it was decoded from was read to
    its end within a mebibyte, within 64 KiB for the manager, and the context of a
    record is asked for a positive window of at most seven days in buckets of a
    minute to a day. *)
Theorem http_bounds r v' q s : answer_request r = (v', q) -> Forall (fun c => within r (projT2 c)) (fst (run s q)).
Proof.
  intros E. destruct (serve_runs r v' q E) as [_ H1]. specialize (H1 s). eapply Forall_impl; [exact H1|]. by intros c [H _].
Qed.

(** C9. The text of an internal failure never leaves the server.  As long as the
    search service words a missing backend with one of its fixed codes and
    messages and the shell files come from the asset handler, a reply of 500 or
    more says "internal server error"; or it is the 503 of a search with one of
    three fixed messages and its code, or the 503 "DQ is unavailable" for a shell
    file.  A request without a route gets the router's own reply, and then no
    service was called. *)
Theorem http_masks_failures r v' q s :
  (forall A c, honest A c (s A c)) -> answer_request r = (v', q) ->
  masked (snd (run s q)) \/ (fst (run s q) = [] /\ Content (snd (run s q)) = Unrouted).
Proof.
  intros Hs [[h ->]|[H1 _]]%serve_fine; [by right|left]. by eapply run_reply.
Qed.
End access.

(** ** The query of a graph request *)

(** What a query does to a filter, read off its keys. *)
Definition texted (q : gmap string (list string)) (key old : string) : string := if Has q key then Get q key else old.

Definition numbered (q : gmap string (list string)) (key : string) (old : Z) : option Z :=
  if Has q key then ParseInt64 (Get q key) else Some old.

Definition graph_query_spec (f : GraphFilters) (q : gmap string (list string)) : option GraphFilters :=
  h ← (if Has q "hierarchy" then ParseBool (Get q "hierarchy") else Some (Hierarchy f));
  limit ← numbered q "limit" (Graph.Limit f);
  hops ← numbered q "hops" (Hops f);
  size ← numbered q "page_size" (Graph.PageSize f);
  Some {|
  Hierarchy := h; RootBSSID := texted q "root_bssid" (RootBSSID f); RootNodeID := texted q "root_node_id" (RootNodeID f);
  Projection := texted q "projection" (Projection f); IncludeIdentity := IncludeIdentity f;
  Graph.LocationIDs := Graph.LocationIDs f; Graph.SensorIDs := Graph.SensorIDs f;
  FilterMAC := texted q "source_mac" (FilterMAC f); FilterSSID := FilterSSID f; FilterKinds := FilterKinds f;
  EdgeKinds := EdgeKinds f; FilterThreatOnly := FilterThreatOnly f; After := After f; Before := Before f; Hops := hops;
  Graph.Limit := limit; Graph.Scope := texted q "scope" (Graph.Scope f);
  Graph.PageCursor := texted q "page_cursor" (Graph.PageCursor f); Graph.PageSize := size |}.

Section query.
Context (q : gmap string (list string)).

Lemma put_texts keys m key :
  foldl (put_text q) m keys !! key = if bool_decide (key ∈ keys) && Has q key then Some (Get q key) else m !! key.
Proof.
  revert m. induction keys as [|k keys IH]; intros m; cbn [foldl]; [done|]. rewrite IH. unfold put_text.
  destruct (decide (key = k)) as [->|Hk].
  - rewrite (bool_decide_eq_true_2 (k ∈ k :: keys)) by left. destruct (bool_decide (k ∈ keys)), (Has q k); cbn; try done.
    by rewrite lookup_insert_eq.
  - replace (bool_decide (key ∈ k :: keys)) with (bool_decide (key ∈ keys)) by (apply bool_decide_ext; rewrite elem_of_cons; naive_solver).
    destruct (_ && Has q key); [done|]. destruct (Has q k); [|done]. by rewrite lookup_insert_ne.
Qed.

Lemma put_numbers_none keys : foldl (put_number q) None keys = None.
Proof. induction keys; [done|]. exact IHkeys. Qed.

(** All the keys parse, or the result is an error whatever their order. *)
Lemma put_numbers keys m :
  match foldl (put_number q) (Some m) keys with
  | Some m' =>
      (forall key, key ∈ keys -> Has q key = true -> ParseInt64 (Get q key) <> None) /\
      forall key, m' !! key = if bool_decide (key ∈ keys) && Has q key then ParseInt64 (Get q key) else m !! key
  | None => exists key, key ∈ keys /\ Has q key = true /\ ParseInt64 (Get q key) = None
  end.
Proof.
  revert m. induction keys as [|k keys IH]; intros m; cbn [foldl].
  { split; [by intros key H%elem_of_nil|done]. }
  unfold put_number at 2. destruct (Has q k) eqn:Hk.
  - destruct (ParseInt64 (Get q k)) as [n|] eqn:En.
    + specialize (IH (<[k := n]> m)). destruct (foldl _ _ keys) as [m'|].
      * destruct IH as [H1 H2]. split; [intros key [->|H]%elem_of_cons; [congruence|by apply H1]|]. intros key. rewrite H2.
        destruct (decide (key = k)) as [->|Hne].
        -- rewrite (bool_decide_eq_true_2 (k ∈ k :: keys)), Hk by left. cbn. rewrite lookup_insert_eq. by destruct (bool_decide _).
        -- replace (bool_decide (key ∈ k :: keys)) with (bool_decide (key ∈ keys)) by (apply bool_decide_ext; rewrite elem_of_cons; naive_solver).
           by rewrite lookup_insert_ne.
      * destruct IH as (key & ? & ? & ?). exists key. split; [by right|done].
    + rewrite put_numbers_none. exists k. split; [left|done].
  - specialize (IH m). destruct (foldl _ _ keys) as [m'|].
    + destruct IH as [H1 H2]. split; [intros key [->|H]%elem_of_cons; [congruence|by apply H1]|]. intros key. rewrite H2.
      destruct (decide (key = k)) as [->|Hne]; [by rewrite Hk, !andb_false_r|].
      by replace (bool_decide (key ∈ k :: keys)) with (bool_decide (key ∈ keys)) by (apply bool_decide_ext; rewrite elem_of_cons; naive_solver).
    + destruct IH as (key & ? & ? & ?). exists key. split; [by right|done].
Qed.

(** C38. Go ranges over the targets in any order; the filters are the same, or the
    query is refused in every order. *)
Theorem graph_query_order order f :
  (forall l, order l ≡ₚ l) -> applyGraphQueryFilters order f q = graph_query_spec f q.
Proof.
  intros Hord. unfold applyGraphQueryFilters, graph_query_spec. destruct (if Has q "hierarchy" then _ else _) as [h|]; [|done].
  cbn [mbind option_bind]. set (texts := foldl (put_text q) _ _).
  assert (Ht : forall key old, list_to_map (M := gmap string string) (graph_texts f) !! key = Some old ->
    default "" (texts !! key) = texted q key old).
  { intros key old H. unfold texts, texted. rewrite put_texts. rewrite bool_decide_eq_true_2.
    - destruct (Has q key); [done|]. change (default "" ((list_to_map (graph_texts f) : gmap string string) !! key) = old). by rewrite H.
    - rewrite Hord. apply elem_of_list_to_map_2 in H. exact (list_elem_of_fmap_2 fst _ _ H). }
  clearbody texts. pose proof (put_numbers (order (fst <$> graph_numbers f)) (list_to_map (graph_numbers f))) as Hn.
  assert (Hin : forall key, key ∈ order (fst <$> graph_numbers f) <-> key ∈ ["limit"; "hops"; "page_size"]) by (intros key; by rewrite Hord).
  destruct (foldl (put_number q) _ _) as [numbers|].
  - destruct Hn as [Hok Hn].
    assert (Hnum : forall key old, list_to_map (M := gmap string Z) (graph_numbers f) !! key = Some old ->
      numbered q key old = Some (default 0 (numbers !! key))).
    { intros key old H. rewrite Hn. assert (Hk : key ∈ order (fst <$> graph_numbers f)).
      { rewrite Hord. apply elem_of_list_to_map_2 in H. exact (list_elem_of_fmap_2 fst _ _ H). }
      rewrite bool_decide_eq_true_2 by done. unfold numbered. destruct (Has q key) eqn:E;
        [|change (Some old = Some (default 0 ((list_to_map (graph_numbers f) : gmap string Z) !! key))); by rewrite H].
      change (ParseInt64 (Get q key) = Some (default 0 (ParseInt64 (Get q key)))).
      destruct (ParseInt64 (Get q key)) eqn:Ep; [done|]. by destruct (Hok key Hk E). }
    rewrite (Hnum "limit" (Graph.Limit f)), (Hnum "hops" (Hops f)), (Hnum "page_size" (Graph.PageSize f)) by reflexivity.
    cbn [mbind option_bind]. unfold with_targets. f_equal.
    rewrite (Ht "root_bssid" (RootBSSID f)), (Ht "root_node_id" (RootNodeID f)), (Ht "source_mac" (FilterMAC f)),
      (Ht "projection" (Projection f)), (Ht "scope" (Graph.Scope f)), (Ht "page_cursor" (Graph.PageCursor f)) by reflexivity.
    reflexivity.
  - destruct Hn as (key & Hk & Hh & Hp). apply Hin in Hk.
    assert (Hnone : forall old, numbered q key old = None) by (intros old; unfold numbered; by rewrite Hh).
    rewrite !elem_of_cons, elem_of_nil in Hk. destruct Hk as [->|[->|[->|[]]]].
    + by rewrite Hnone.
    + destruct (numbered q "limit" _); cbn; [by rewrite Hnone|done].
    + destruct (numbered q "limit" _); cbn; [|done]. destruct (numbered q "hops" _); cbn; [by rewrite Hnone|done].
Qed.
End query.

(** ** Plain and streamed results *)

Section stream.
Context {J : HttpJSON} (now : time).

Lemma stream_lines_spec results meta :
  let all := (ResultLine <$> results) ++ [DoneLine meta] in
  stream_lines results meta `prefix_of` all /\ (forallb encodable_line all = true -> stream_lines results meta = all).
Proof.
  induction results as [|r results [IH1 IH2]]; cbn in *.
  - destruct (encodable_line _); cbn; [done|]. split; [apply prefix_nil|done].
  - destruct (encodable_line (ResultLine r)); cbn; [|split; [apply prefix_nil|done]].
    split; [by apply prefix_cons|]. intros H. by rewrite IH2.
Qed.

(** The streamed search is the plain one: it makes the same call, fails with the
    same reply, and otherwise its lines are the results of the plain reply in
    their order and then the response without them, as far as they can be
    encoded. *)
Theorem stream_is_search r id p s :
  let '(calls, plain_reply) := run s (search_handler now r id p) in
  let '(stream_calls, streamed) := run s (stream_handler now r id p) in
  stream_calls = calls /\
  (streamed = plain_reply \/
   exists resp, plain_reply = writeProtoJSON 200 (PSearch resp) /\ Status streamed = 200 /\
     exists lines, Content streamed = Lines lines /\
       let all := (ResultLine <$> Results resp) ++ [DoneLine (without_results resp)] in
       lines `prefix_of` all /\ (forallb encodable_line all = true -> lines = all)).
Proof.
  unfold search_handler, stream_handler, search_with, readRequestBody. destruct (ReadAll _ _) as [body|[|e]]; cbn; [|by auto..].
  unfold unmarshalled. destruct (unmarshal_search body) as [req|m]; cbn; [|by auto]. split; [done|].
  destruct (s _ (CallSearch req)) as [resp|e]; [|by auto]. right. exists resp. split; [done|]. split; [done|].
  eexists. split; [done|]. apply stream_lines_spec.
Qed.
End stream.

(** ** The two transports *)

(** The HTTP status of a gRPC code; a cancelled call is answered like one that
    timed out. *)
Definition status_of_code (c : grpc_code) : Z :=
  match c with
  | CodeCanceled | CodeDeadlineExceeded => 504
  | CodeInvalidArgument => 400
  | CodeNotFound => 404
  | CodeAborted => 409
  | CodePermissionDenied => 403
  | CodeUnavailable => 503
  | CodeUnauthenticated => 401
  | CodeUnknown => 500
  end.

(** Both transports classify an error of a service alike, except that exhausted
    capacity is 429 over HTTP and an unknown error over gRPC; and a caller is let
    through by one exactly when by the other. *)
Theorem transports_agree {JW : JWTJSON} (w : lookup_world) now1 now2 v a header e :
  (httpStatusFromError (Some (Failed e)) =
     if has_kind e ErrCapacity then 429 else status_of_code (grpc_code_of e)) /\
  (has_kind e ErrCapacity = true -> grpc_code_of e = CodeUnknown) /\
  authorized w now1 now2 v (Some a) (Some [header]) =
    (let '(v', (decision, _)) := AuthorizeIdentity a w now1 now2 v header all_roles in
     (v', match decision with DecisionAuthorized => true | _ => false end)).
Proof.
  split; [|split].
  - destruct e as [m|k m|c t m|err]; [reflexivity|by destruct k|reflexivity|]. unfold httpStatusFromError, grpc_code_of. cbn.
    destruct (errors_Is err DeadlineExceeded); [done|]. destruct (errors_Is err Canceled); [done|].
    destruct (errors_Is err ErrInvalidRequest); [done|]. by destruct (errors_Is err ErrOversizedInput).
  - destruct e as [m|[] m|c t m|err]; done.
  - unfold authorized. destruct (Auth.Enabled a) eqn:E; cbn; [done|]. unfold AuthorizeIdentity. by rewrite E.
Qed.

(** ** Cross-origin headers *)

(** Only a configured origin is allowed to read, and only its own requests. *)
Lemma cors_allowed allowedOrigins origin o :
  cors_headers allowedOrigins origin !! "Access-Control-Allow-Origin" = Some o ->
  o = origin /\ o ∈ TrimSpace <$> allowedOrigins.
Proof.
  unfold cors_headers. destruct (is_empty origin); [done|]. cbv zeta. case_bool_decide as Hin; [|done].
  rewrite lookup_insert_eq. intros [= <-]. split; [done|]. by apply filter_elem in Hin as [? _].
Qed.

(** ** Witnesses *)

Module HttpSample.
(** The decoders refuse everything, except a search. *)
Definition json : HttpJSON := {|
  encodable _ := true; encodable_line _ := true; encodable_snapshot _ := true;
  unmarshal_search _ := inl {| SearchService.Query := "probe"; SearchService.Kind := KIND_EVENT; Mode := MODE_SPARSE; ReqTopK := 5;
                               ReqMinSimilarity := f_zero; ReqFilters := None |};
  unmarshal_search_filters _ := inr ""; unmarshal_scoped _ := inr ""; unmarshal_inventory _ := inr ""; unmarshal_graph _ := inr "";
  unmarshal_decision _ := inr ""; decode_network _ := inr ""; decode_investigation _ := inr ""; decode_annotation _ := inr "";
  decode_view_create _ := inr ""; decode_view_update _ := inr ""; decode_dedup _ := inr ""; decode_admission _ := inr "";
  decode_nothing _ := inr ""; decode_key _ := inr ""; has_member _ _ := None |}.

(** Without a manager. *)
Definition no_manager : Dq.Options :=
  {| Dq.Enabled := false; ManagerURL := ""; ServiceToken := ""; InstallationID := ""; Namespace := ""; RemoteOrigin := "" |}.

(** A database that is down. *)
Definition down : services.
Proof.
  intros A c. destruct c;
    first [exact (inr (Plain (Opaque "connection refused"))) | exact (inr (ViewFailure (Opaque "connection refused")))
          | exact (inr (Opaque "connection refused"))
          | match goal with r : asset_request |- _ =>
              exact (snd (ServeAssets (Std := DqSample.std) no_manager (fun _ => (RequestFailed (Opaque "connection refused"), "")) r)) end
          | repeat first [exact None | exact "" | exact 0 | exact [] | exact false | constructor]].
Defined.

Lemma down_honest A (c : call A) : honest A c (down A c).
Proof. destruct c; first [exact I | by do 3 eexists]. Qed.

Definition request (method path : string) (q : gmap string (list string)) : http_request := {|
  ReqMethod := method; Path := path; RawPath := ""; RawQuery := ""; QueryValues := q;
  AuthorizationHeader := "Bearer " +:+ Auth.sample_token; OriginHeader := "https://console";
  ReqBody := {| arrived := "{}"; read_failure := None |} |}.

(** A gateway for patterns without parameters, and the records of one key. *)
Definition pick (l : list (string * string)) (r : http_request) : option (nat * gmap string string) :=
  (fun x => (fst x, {["source_key" := "k1"]})) <$> list_find (fun mp => fst mp = ReqMethod r /\ snd mp = Path r) l.

Definition deployed : deployment := {|
  HasDedup := false; HasDQ := false;
  DQOptions := no_manager;
  HasOperations := true; HasMonitor := true; WsEnabled := false; AllowedOrigins := ["https://console"] |}.

Definition auth : TokenAuth := {| expectedDigest := []; jwt := Some Auth.sample_config |}.
Definition unrouted (r : http_request) : Z := 404.

Definition served (r : http_request) : jwtVerifier * prog :=
  answer_request (J := json) (JW := Auth.sample_json) auth Auth.sample_world
    Auth.sample_now Auth.sample_now Auth.sample_verifier pick unrouted Auth.sample_now id deployed r.

Definition views : http_request := request "GET" "/v1/saved-views" ∅.
Definition context : http_request := request "GET" "/v1/records/{source_key}/context" {["window" := ["90m"]]}.
Definition search : http_request := request "POST" "/v1/search" ∅.
End HttpSample.

Lemma http_access_witness :
  exists v' q, HttpSample.served HttpSample.views = (v', q) /\
    fst (run HttpSample.down q) = [existT _ (CallListViews "subject-1" "")] /\
    exists id, AuthorizeIdentity (J := Auth.sample_json) HttpSample.auth
      Auth.sample_world Auth.sample_now Auth.sample_now Auth.sample_verifier (AuthorizationHeader HttpSample.views) all_roles
      = (v', (DecisionAuthorized, id)) /\ "subject-1" = savedViewsOwner id.
Proof.
  destruct (HttpSample.served HttpSample.views) as [v' q] eqn:E. exists v', q. split; [reflexivity|].
  destruct (http_access (J := HttpSample.json) (JW := Auth.sample_json) HttpSample.auth Auth.sample_world Auth.sample_now Auth.sample_now
    Auth.sample_verifier HttpSample.pick HttpSample.unrouted Auth.sample_now id HttpSample.deployed HttpSample.views v' q HttpSample.down E)
    as (_ & _ & H).
  assert (Ec : fst (run HttpSample.down q) = [existT _ (CallListViews "subject-1" "")]).
  { replace q with (snd (HttpSample.served HttpSample.views)) by (rewrite E; reflexivity). vm_compute. reflexivity. }
  split; [exact Ec|]. rewrite Ec in H. apply Forall_inv in H. cbn in H. destruct H as (id & Ha & Ho & _). exists id. split; [exact Ha|exact Ho].
Defined.

Lemma http_bounds_witness :
  exists v' q c, HttpSample.served HttpSample.context = (v', q) /\ fst (run HttpSample.down q) = [existT _ (CallRecordContext c)] /\
    Window c = 90 * Minute /\ within HttpSample.context (CallRecordContext c).
Proof.
  destruct (HttpSample.served HttpSample.context) as [v' q] eqn:E.
  pose proof (http_bounds (J := HttpSample.json) (JW := Auth.sample_json) HttpSample.auth Auth.sample_world Auth.sample_now Auth.sample_now
    Auth.sample_verifier HttpSample.pick HttpSample.unrouted Auth.sample_now id HttpSample.deployed HttpSample.context v' q HttpSample.down E) as H.
  exists v', q, {| ContextKey := "k1"; ContextKind := KIND_EVENT; ContextFilters := None; Window := 90 * Minute; RequestBucket := 15 |}.
  split; [reflexivity|].
  assert (Ec : fst (run HttpSample.down q) = [existT _ (CallRecordContext {| ContextKey := "k1"; ContextKind := KIND_EVENT;
    ContextFilters := None; Window := 90 * Minute; RequestBucket := 15 |})]).
  { replace q with (snd (HttpSample.served HttpSample.context)) by (rewrite E; reflexivity). vm_compute. reflexivity. }
  split; [exact Ec|]. split; [reflexivity|]. rewrite Ec in H. apply Forall_inv in H. exact H.
Defined.

(** A search whose service fails: the error of the database is not shown. *)
Lemma http_masks_failures_witness :
  exists v' q, HttpSample.served HttpSample.search = (v', q) /\ masked (snd (run HttpSample.down q)) /\
    Status (snd (run HttpSample.down q)) = 500 /\ Content (snd (run HttpSample.down q)) = JSON internal_error.
Proof.
  destruct (HttpSample.served HttpSample.search) as [v' q] eqn:E. exists v', q. split; [reflexivity|].
  assert (Hc : Status (snd (run HttpSample.down q)) = 500 /\ Content (snd (run HttpSample.down q)) = JSON internal_error).
  { replace q with (snd (HttpSample.served HttpSample.search)) by (rewrite E; reflexivity). split; vm_compute; reflexivity. }
  split; [|exact Hc].
  destruct (http_masks_failures (J := HttpSample.json) (JW := Auth.sample_json) HttpSample.auth Auth.sample_world Auth.sample_now Auth.sample_now
    Auth.sample_verifier HttpSample.pick HttpSample.unrouted Auth.sample_now id HttpSample.deployed HttpSample.search v' q HttpSample.down
    HttpSample.down_honest E) as [H|[_ H]]; [exact H|].
  destruct Hc as [_ Hc]. rewrite Hc in H. discriminate H.
Defined.

Lemma graph_query_order_witness :
  let q : gmap string (list string) := {["limit" := ["7"]; "scope" := ["ap"]]} in
  exists f, applyGraphQueryFilters (@rev string) no_graph_filters q = Some f /\ Graph.Limit f = 7 /\ Graph.Scope f = "ap".
Proof.
  cbv zeta. rewrite (graph_query_order _ (@rev string) no_graph_filters (fun l => symmetry (Permutation_rev l))).
  eexists. split; [vm_compute; reflexivity|]. split; reflexivity.
Defined.
