(* ===== verification/GraphWalk.v ===== *)
(** * The root and the walk of a hierarchy (reporting/graph_hierarchy_queries.go)

    The statement that resolves the root of a hierarchy and the recursive
    statement that collects its neighbourhood, which [GraphPages] takes as
    parameters of a hierarchical answer. *)

From S2P Require Import Prelude GoErrors GoStrings GoSort GoFloats QueryScope Pagination Graph GraphTree GraphPages SqlGroup.
From Stdlib Require Import Sorted.

(** A row of ap_catalog. *)
Record catalog_ap := { ca_bssid : string; ca_authorized : option bool; ca_last_observed_at : option time }.

(** ** The root *)

Section root.
Context (st : graph_store) (catalog : list catalog_ap).

(** A node with the row of the catalog it is joined to, if there is one. *)
Definition joined_node : Type := graphNodeRow * option catalog_ap.

Definition is_ap_of (n : graphNodeRow) (ap : catalog_ap) : bool :=
  String.eqb (row_node_kind n) "access_point"
  && (is_true (row_mac n) (fun mac => String.eqb (ToLower mac) (ca_bssid ap))
      || String.eqb (row_node_id n) ("ap:" +:+ ca_bssid ap)).

Definition with_catalog (n : graphNodeRow) : list joined_node :=
  match List.filter (is_ap_of n) catalog with
  | [] => [(n, None)]
  | aps => (fun ap => (n, Some ap)) <$> aps
  end.

Definition without_kinds (f : GraphFilters) : GraphFilters := {|
  Hierarchy := Hierarchy f; RootBSSID := RootBSSID f; RootNodeID := RootNodeID f; Projection := Projection f;
  IncludeIdentity := IncludeIdentity f; LocationIDs := LocationIDs f; SensorIDs := SensorIDs f; FilterMAC := FilterMAC f;
  FilterSSID := FilterSSID f; FilterKinds := []; EdgeKinds := EdgeKinds f; FilterThreatOnly := false; After := After f;
  Before := Before f; Hops := Hops f; Limit := Limit f; Scope := Scope f; PageCursor := PageCursor f; PageSize := PageSize f |}.

(** lower(n.normalized_mac) = mac *)
Definition has_mac (n : graphNodeRow) (mac : string) : bool := is_true (row_mac n) (fun m => String.eqb (ToLower m) mac).

(** The condition for the root that is asked for. *)
Definition root_asked (f : GraphFilters) (n : graphNodeRow) : bool :=
  if negb (is_empty (RootNodeID f)) then String.eqb (row_node_id n) (RootNodeID f)
  else if negb (is_empty (RootBSSID f))
  then String.eqb (row_node_kind n) "access_point"
       && (String.eqb (row_node_id n) ("ap:" +:+ RootBSSID f) || has_mac n (RootBSSID f))
  else if negb (is_empty (FilterMAC f))
  then String.eqb (row_node_id n) ("device:" +:+ FilterMAC f) || has_mac n (FilterMAC f)
  else true.

Definition root_less : joined_node -> joined_node -> bool :=
  true_first (fun x => default false (snd x ≫= ca_authorized))
    (latest_first (fun x => snd x ≫= ca_last_observed_at)
      (latest_first (fun x => row_observed_at (fst x)) (less_on (fun x => row_node_id (fst x)) str_ltb))).

Definition kind_first (kind : string) : joined_node -> joined_node -> bool :=
  true_first (fun x => String.eqb (row_node_kind (fst x)) kind) root_less.

Definition root_order (f : GraphFilters) : joined_node -> joined_node -> bool :=
  if negb (is_empty (RootNodeID f)) || negb (is_empty (RootBSSID f)) then root_less
  else if negb (is_empty (FilterMAC f)) then kind_first "device"
  else kind_first "access_point".

Definition root_rows (f : GraphFilters) : list joined_node :=
  sort_by (root_order f)
    (List.filter (fun n => graphNodePageWhere (without_kinds f) n && root_asked f n) (graphNodesTable st f) ≫= with_catalog).

Definition resolveGraphRoot (f : GraphFilters) : string :=
  match root_rows f with [] => "" | (n, _) :: _ => row_node_id n end.
End root.

(** ** The walk *)

(** [UNION] in a recursive statement: the working table joins the rows that
    are not in the result yet, until there are none. *)
Section walk.
Context (next : string -> list string).

Definition fresh (result working : list string) : list string :=
  remove_dups (List.filter (fun x => bool_decide (x ∉ result)) (working ≫= next)).

Fixpoint walk_loop (fuel : nat) (result working : list string) : list string :=
  match fuel, working with
  | O, _ | _, [] => result
  | S fuel, _ => let new := fresh result working in walk_loop fuel (result ++ new) new
  end.
End walk.

Section hierarchy.
Context (st : graph_store) (now : time).

Definition associationKind (kind : string) : bool := String.eqb kind "observed_at" || String.eqb kind "observed_association".

Definition filtered_nodes (f : GraphFilters) (root : string) : list graphNodeRow :=
  List.filter (fun n => graphNodePageWhere f n || String.eqb (row_node_id n) root) (graphNodesTable st f).

Definition associations (f : GraphFilters) (root : string) : list graphEdgeRow :=
  List.filter (fun e => associationKind (row_edge_kind e) && row_within (row_node_id <$> filtered_nodes f root) e)
    (graphEdgesTable st now f).

(** The join of a row of the walk with the associations. *)
Definition walk_next (edges : list graphEdgeRow) (id : string) : list string :=
  (fun e => if String.eqb (row_source e) id then row_target e else row_source e) <$>
    List.filter (fun e => String.eqb (row_source e) id || String.eqb (row_target e) id) edges.

(** One turn per node is enough. *)
Definition walk (f : GraphFilters) (root : string) : list string :=
  let start := remove_dups (row_node_id <$> List.filter (fun n => String.eqb (row_node_id n) root) (filtered_nodes f root)) in
  walk_loop (walk_next (associations f root)) (S (length (filtered_nodes f root))) start start.

Definition unfocused (f : GraphFilters) : bool :=
  is_empty (RootNodeID f) && is_empty (RootBSSID f) && is_empty (FilterMAC f).

Definition selected_nodes (f : GraphFilters) (root : string) : list string :=
  remove_dups (walk f root ++ (if unfocused f then row_node_id <$> filtered_nodes f root else [])).

(** There is an association between the root and the node. *)
Definition beside_root (f : GraphFilters) (root id : string) : bool :=
  existsb (fun e => (String.eqb (row_source e) root && String.eqb (row_target e) id)
                    || (String.eqb (row_target e) root && String.eqb (row_source e) id)) (associations f root).

Definition walk_order (f : GraphFilters) (root : string) : graphNodeRow -> graphNodeRow -> bool :=
  true_first (fun n => String.eqb (row_node_id n) root)
    (true_first (fun n => beside_root f root (row_node_id n))
      (true_first (fun n => bool_decide (row_node_id n ∈ walk f root)) (less_on row_node_id str_ltb))).

(** Associations of the selected nodes with an end that has no node. *)
Definition missing_relationships (f : GraphFilters) (root : string) : Z :=
  let selected := selected_nodes f root in
  let known := row_node_id <$> graphNodesTable st f in
  Z.of_nat (length (List.filter (fun e =>
    associationKind (row_edge_kind e) && negb (row_within known e) && row_touches selected e) (graphEdgesTable st now f))).

(** fetchGraphHierarchyNodes: the rows, and the two counts that each of them
    carries. *)
Definition fetchGraphHierarchyNodes (f : GraphFilters) (root : string) : list graphNodeRow * Z * Z :=
  let rows := ordered (walk_order f root) (Limit f)
                (List.filter (fun n => bool_decide (row_node_id n ∈ selected_nodes f root)) (filtered_nodes f root)) in
  match rows with
  | [] => ([], 0, 0)
  | _ => (rows, Z.of_nat (length (selected_nodes f root)), missing_relationships f root)
  end.
End hierarchy.

(** ** What the walk reaches *)

Section reach.
Context (next : string -> list string) (root : string) (universe : list string).
Context (Hnext : forall x y, x ∈ universe -> y ∈ next x -> y ∈ universe) (Hroot : root ∈ universe).

Notation reached := (rtc (fun x y => y ∈ next x) root).

Lemma fresh_elem result working y :
  y ∈ fresh next result working <-> (exists x, x ∈ working /\ y ∈ next x) /\ y ∉ result.
Proof.
  unfold fresh. rewrite elem_of_remove_dups, filter_elem, bool_decide_eq_true, list_elem_of_bind. split.
  - intros [(x & ? & ?) ?]. split; [by exists x|done].
  - intros [(x & ? & ?) ?]. split; [by exists x|done].
Qed.

(** The rows so far are reached, and closed but for the working table. *)
Record walked (result working : list string) : Prop := {
  walked_unique : NoDup result;
  walked_within : result ⊆ universe;
  walked_root : root ∈ result;
  walked_working : working ⊆ result;
  walked_reached x : x ∈ result -> reached x;
  walked_closed x y : x ∈ result -> x ∉ working -> y ∈ next x -> y ∈ result;
}.

Lemma walked_step result working : walked result working -> walked (result ++ fresh next result working) (fresh next result working).
Proof.
  intros [Hu Hw Hr Hs Hc Hd]. split.
  - apply NoDup_app. split; [done|]. split; [|apply NoDup_remove_dups]. intros x Hx Hf. by apply fresh_elem in Hf as [_ ?].
  - intros y [Hy|Hy]%elem_of_app; [by apply Hw|]. apply fresh_elem in Hy as [(x & Hx & Hy) _]. eapply Hnext; [|exact Hy]. by apply Hw, Hs.
  - apply elem_of_app. by left.
  - intros y Hy. apply elem_of_app. by right.
  - intros y [Hy|Hy]%elem_of_app; [by apply Hc|]. apply fresh_elem in Hy as [(x & Hx & Hy) _]. eapply rtc_r; [by apply Hc, Hs|done].
  - intros x y Hx Hnf Hy. apply elem_of_app in Hx as [Hx|]; [|done]. destruct (decide (y ∈ result)) as [|Hn]; [apply elem_of_app; by left|].
    destruct (decide (x ∈ working)) as [Hxw|Hxw]; [|by destruct Hn; eapply Hd]. apply elem_of_app. right. apply fresh_elem.
    split; [by exists x|done].
Qed.

Lemma walked_done result x : walked result [] -> x ∈ result <-> reached x.
Proof.
  intros [Hu Hw Hr Hs Hc Hd]. split; [apply Hc|]. revert x. apply rtc_ind_r; [done|]. intros y z _ Hz IH.
  eapply Hd; [exact IH|apply not_elem_of_nil|exact Hz].
Qed.

Lemma walked_length result working : walked result working -> (length result <= length universe)%nat.
Proof. intros [Hu Hw _ _ _ _]. by apply submseteq_length, NoDup_submseteq. Qed.

(** A turn that is not the last adds a row, so one per node is enough. *)
Lemma walk_loop_spec fuel result working :
  walked result working -> (length universe < fuel + length result)%nat ->
  walked (walk_loop next fuel result working) [].
Proof.
  revert result working. induction fuel as [|fuel IH]; intros result working Hwalk Hlen; cbn [walk_loop].
  { apply walked_length in Hwalk. lia. }
  destruct working as [|x working]; [done|]. set (w := x :: working) in *. set (new := fresh next result w). cbv zeta.
  pose proof (walked_step _ _ Hwalk) as Hstep. fold new in Hstep. destruct new as [|y l] eqn:E.
  - rewrite app_nil_r in *. by destruct fuel.
  - apply IH; [done|]. rewrite length_app. simpl. lia.
Qed.
End reach.

Section component.
Context (st : graph_store) (now : time) (f : GraphFilters) (root : string).

Let nodes := filtered_nodes st f root.

(** Two nodes joined by an association within the filtered nodes. *)
Definition associated (x y : string) : Prop :=
  exists e, e ∈ associations st now f root /\
    ((row_source e = x /\ row_target e = y) \/ (row_target e = x /\ row_source e = y)).

Lemma walk_next_elem edges x y :
  y ∈ walk_next edges x <-> exists e, e ∈ edges /\ ((row_source e = x /\ row_target e = y) \/ (row_target e = x /\ row_source e = y)).
Proof.
  unfold walk_next. rewrite list_elem_of_fmap. split.
  - intros (e & -> & [He Hx]%filter_elem). exists e. split; [done|]. apply orb_true_iff in Hx. rewrite !String.eqb_eq in Hx.
    destruct (String.eqb_spec (row_source e) x); [by left|right]. by destruct Hx.
  - intros (e & He & Hxy). exists e. rewrite filter_elem, orb_true_iff, !String.eqb_eq.
    destruct (String.eqb_spec (row_source e) x) as [Es|Es]; destruct Hxy as [[E1 E2]|[E1 E2]]; (split; [|by auto]); congruence.
Qed.

Lemma associations_within e : e ∈ associations st now f root -> row_source e ∈ row_node_id <$> nodes /\ row_target e ∈ row_node_id <$> nodes.
Proof.
  unfold associations. rewrite filter_elem. intros [_ H]. apply andb_true_iff in H as [_ H]. unfold row_within in H.
  apply andb_true_iff in H. by rewrite !bool_decide_eq_true in H.
Qed.

(** The root has a node, and node ids are a primary key. *)
Context (Hroot : root ∈ row_node_id <$> graphNodesTable st f) (Hids : NoDup (row_node_id <$> graphNodesTable st f)).

Lemma filtered_root : root ∈ row_node_id <$> nodes.
Proof.
  apply list_elem_of_fmap in Hroot as (n & -> & Hn). apply list_elem_of_fmap. exists n. split; [done|]. apply filter_elem. split; [done|].
  by rewrite String.eqb_refl, orb_true_r.
Qed.

Lemma filtered_ids_NoDup : NoDup (row_node_id <$> nodes).
Proof. eapply sublist_NoDup; [exact Hids|]. apply fmap_sublist, filter_sublist. Qed.

Lemma walk_start : remove_dups (row_node_id <$> List.filter (fun n => String.eqb (row_node_id n) root) nodes) = [root].
Proof.
  set (start := remove_dups _). assert (Hin : forall x, x ∈ start <-> x = root).
  { intros x. unfold start. rewrite elem_of_remove_dups, list_elem_of_fmap. split.
    - intros (n & -> & [_ H]%filter_elem). by apply String.eqb_eq.
    - intros ->. pose proof filtered_root as H. apply list_elem_of_fmap in H as (n & E & Hn). exists n. split; [done|].
      apply filter_elem. split; [done|]. by apply String.eqb_eq. }
  assert (Hnd : NoDup start) by apply NoDup_remove_dups. clearbody start. destruct start as [|a [|b start]].
  - exfalso. by apply (not_elem_of_nil root), Hin.
  - f_equal. apply Hin. left.
  - exfalso. apply NoDup_cons in Hnd as [Hn _]. apply Hn. rewrite (proj1 (Hin a)) by left.
    rewrite <-(proj1 (Hin b)) by (right; left). left.
Qed.

(** The walk is the component of the root. *)
Lemma walk_component : NoDup (walk st now f root) /\ forall x, x ∈ walk st now f root <-> rtc associated root x.
Proof.
  assert (Hnext : forall x y, x ∈ row_node_id <$> nodes -> y ∈ walk_next (associations st now f root) x -> y ∈ row_node_id <$> nodes).
  { intros x y _ (e & He & Hxy)%walk_next_elem. apply associations_within in He as [? ?]. by destruct Hxy as [[_ <-]|[_ <-]]. }
  assert (Hw : walked (walk_next (associations st now f root)) root (row_node_id <$> nodes) (walk st now f root) []).
  { unfold walk. fold nodes. rewrite walk_start. apply walk_loop_spec; [exact Hnext| |cbn; rewrite length_fmap; unfold nodes; lia]. split.
    - apply NoDup_singleton.
    - intros x ->%list_elem_of_singleton. apply filtered_root.
    - left.
    - done.
    - intros x ->%list_elem_of_singleton. apply rtc_refl.
    - intros x y -> %list_elem_of_singleton Hn. destruct Hn. left. }
  split; [by destruct Hw|]. intros x. rewrite (walked_done _ _ _ _ _ Hw).
  split; apply rtc_congruence with (f := id); intros a b; apply walk_next_elem.
Qed.

(** *** The rows *)

(** The order of the rows: the root, then the nodes that share an association
    with it, then the rest of its component, then the others; nothing else is
    said of distance. *)
Inductive tier : string -> Z -> Prop :=
| tier_root : tier root 0
| tier_beside x : x <> root -> associated root x -> tier x 1
| tier_component x : x <> root -> ~ associated root x -> rtc associated root x -> tier x 2
| tier_rest x : ~ rtc associated root x -> tier x 3.

(** [x] stands before [y]: in an earlier tier, or in the same one by id. *)
Definition precedes (x y : string) : Prop :=
  exists i j, tier x i /\ tier y j /\ (i < j \/ i = j /\ str_ltb x y = true).

(** The tier the statement computes. *)
Definition tier_of (id : string) : Z :=
  if String.eqb id root then 0
  else if beside_root st now f root id then 1
  else if bool_decide (id ∈ walk st now f root) then 2 else 3.

Lemma beside_root_iff x : beside_root st now f root x = true <-> associated root x.
Proof.
  unfold beside_root, associated. rewrite existsb_exists. split; intros (e & He & Hx); exists e.
  - rewrite list_elem_of_In. split; [done|]. by rewrite orb_true_iff, !andb_true_iff, !String.eqb_eq in Hx.
  - rewrite <-list_elem_of_In. split; [done|]. by rewrite orb_true_iff, !andb_true_iff, !String.eqb_eq.
Qed.

Lemma tier_of_spec x : tier x (tier_of x).
Proof.
  unfold tier_of. destruct (String.eqb_spec x root) as [->|Hx]; [constructor|].
  destruct (beside_root st now f root x) eqn:Eb; [apply beside_root_iff in Eb; by constructor|].
  assert (Hb : ~ associated root x) by (by rewrite <-beside_root_iff, Eb).
  case_bool_decide as Hw; rewrite (proj2 walk_component x) in Hw; by constructor.
Qed.

Lemma walk_order_precedes n m :
  walk_order st now f root m n = false -> row_node_id n <> row_node_id m -> precedes (row_node_id n) (row_node_id m).
Proof.
  intros H Hne. exists (tier_of (row_node_id n)), (tier_of (row_node_id m)).
  split; [apply tier_of_spec|]. split; [apply tier_of_spec|]. revert H. unfold walk_order, true_first, tier_of, less_on.
  assert (Hid : str_ltb (row_node_id m) (row_node_id n) = false -> str_ltb (row_node_id n) (row_node_id m) = true).
  { intros H. destruct (str_ltb (row_node_id n) (row_node_id m)) eqn:E; [done|]. by destruct Hne; apply str_ltb_total. }
  assert (Hwalk : forall x, beside_root st now f root x = true -> bool_decide (x ∈ walk st now f root) = true).
  { intros x Hx%beside_root_iff. apply bool_decide_eq_true, (proj2 walk_component x). by apply rtc_once. }
  pose proof (Hwalk (row_node_id m)) as Hm. pose proof (Hwalk (row_node_id n)) as Hn.
  destruct (String.eqb_spec (row_node_id m) root), (String.eqb_spec (row_node_id n) root); try congruence.
  all: destruct (beside_root st now f root (row_node_id m)), (beside_root st now f root (row_node_id n)).
  all: try rewrite Hm by done; try rewrite Hn by done.
  all: repeat case_bool_decide; intros Hless; first [done | left; lia | right; by split; [|apply Hid]].
Qed.

(** Only the root itself is not after the root. *)
Lemma before_root n m : row_node_id m = root -> walk_order st now f root m n = false -> row_node_id n = root.
Proof.
  intros Em H. destruct (String.eqb_spec (row_node_id n) root) as [|Hn]; [done|].
  unfold walk_order, true_first in H. apply String.eqb_neq in Hn. by rewrite Em, String.eqb_refl, Hn in H.
Qed.

Let selected_rows := List.filter (fun n => bool_decide (row_node_id n ∈ selected_nodes st now f root)) nodes.

Lemma selected_elem x :
  x ∈ selected_nodes st now f root <-> rtc associated root x \/ (unfocused f = true /\ x ∈ row_node_id <$> nodes).
Proof.
  unfold selected_nodes. rewrite elem_of_remove_dups, elem_of_app, (proj2 walk_component x). fold nodes.
  destruct (unfocused f); [naive_solver|]. rewrite elem_of_nil. naive_solver.
Qed.

Lemma associated_filtered x y : associated x y -> y ∈ row_node_id <$> nodes.
Proof. intros (e & He & Hxy). apply associations_within in He as [? ?]. by destruct Hxy as [[_ <-]|[_ <-]]. Qed.

Lemma selected_filtered x : x ∈ selected_nodes st now f root -> x ∈ row_node_id <$> nodes.
Proof.
  rewrite selected_elem. intros [H|[_ H]]; [|done]. apply rtc_inv_r in H as [<-|(y & _ & H)]; [apply filtered_root|].
  by eapply associated_filtered.
Qed.

Lemma selected_rows_ids : row_node_id <$> selected_rows ≡ₚ selected_nodes st now f root.
Proof.
  apply NoDup_Permutation.
  - eapply sublist_NoDup; [exact filtered_ids_NoDup|]. apply fmap_sublist, filter_sublist.
  - apply NoDup_remove_dups.
  - intros x. unfold selected_rows. rewrite list_elem_of_fmap. split.
    + intros (n & -> & [_ H]%filter_elem). by apply bool_decide_eq_true in H.
    + intros Hx. assert (Hn := selected_filtered x Hx). apply list_elem_of_fmap in Hn as (n & -> & Hn). exists n. split; [done|].
      apply filter_elem. split; [done|]. by apply bool_decide_eq_true.
Qed.
End component.

Lemma sorted_prefix {A} (R : A -> A -> Prop) n l x y :
  StronglySorted R l -> x ∈ take n l -> y ∈ drop n l -> R x y.
Proof.
  revert l. induction n as [|n IH]; intros [|a l] Hs Hx Hy; try by apply elem_of_nil in Hx.
  apply StronglySorted_inv in Hs as [Hs Ha]. cbn in Hx, Hy. apply elem_of_cons in Hx as [->|Hx]; [|by eapply IH].
  rewrite Forall_forall in Ha. apply Ha. rewrite <-(take_drop n l). apply elem_of_app. by right.
Qed.

Lemma sorted_by_key {A} (R : A -> A -> Prop) (S : string -> string -> Prop) (key : A -> string) l :
  (forall a b, R a b -> key a <> key b -> S (key a) (key b)) ->
  NoDup (key <$> l) -> StronglySorted R l -> StronglySorted S (key <$> l).
Proof.
  intros HRS. induction l as [|a l IH]; intros Hnd Hs; [constructor|]. rewrite fmap_cons in *.
  apply NoDup_cons in Hnd as [Hn Hnd]. apply StronglySorted_inv in Hs as [Hs Ha]. constructor; [by apply IH|].
  rewrite Forall_forall in Ha. apply Forall_forall. intros k (b & -> & Hb)%list_elem_of_fmap. apply HRS; [by apply Ha|].
  intros E. apply Hn. rewrite E. by apply list_elem_of_fmap_2.
Qed.

Lemma hierarchy_rows_spec st now f root rows total missing :
  NoDup (row_node_id <$> graphNodesTable st f) -> root ∈ row_node_id <$> graphNodesTable st f -> 0 < Limit f ->
  fetchGraphHierarchyNodes st now f root = (rows, total, missing) ->
  NoDup (row_node_id <$> rows) /\ head (row_node_id <$> rows) = Some root /\
  Z.of_nat (length rows) = Z.min (Limit f) total /\
  exists selected, NoDup selected /\ total = Z.of_nat (length selected) /\
    (forall x, x ∈ selected <->
       rtc (associated st now f root) root x \/ (unfocused f = true /\ x ∈ row_node_id <$> filtered_nodes st f root)) /\
    (forall x, x ∈ row_node_id <$> rows -> x ∈ selected) /\
    (total <= Limit f -> forall x, x ∈ selected -> x ∈ row_node_id <$> rows) /\
    StronglySorted (precedes st now f root) (row_node_id <$> rows) /\
    (forall x y, x ∈ row_node_id <$> rows -> y ∈ selected -> y ∉ row_node_id <$> rows -> precedes st now f root x y).
Proof.
  intros Hids Hroot Hlim. unfold fetchGraphHierarchyNodes. set (all := List.filter _ _). set (less := walk_order st now f root).
  assert (Hall : row_node_id <$> all ≡ₚ selected_nodes st now f root) by (by apply selected_rows_ids).
  assert (Hsorted : row_node_id <$> sort_by less all ≡ₚ selected_nodes st now f root) by (by rewrite <-Hall, sort_by_perm).
  assert (Hrs : root ∈ selected_nodes st now f root) by (apply selected_elem; [done..|left; apply rtc_refl]).
  assert (Hhead : exists n l, sort_by less all = n :: l /\ row_node_id n = root).
  { assert (Hso := sort_by_sorted less all). rewrite <-Hsorted in Hrs. destruct (sort_by less all) as [|n l] eqn:E; [by apply elem_of_nil in Hrs|].
    exists n, l. split; [done|]. apply StronglySorted_inv in Hso as [_ Hso]. rewrite Forall_forall in Hso.
    apply list_elem_of_fmap in Hrs as (m & Em & Hm). apply elem_of_cons in Hm as [->|Hm]; [done|].
    exact (before_root _ _ _ _ n m (eq_sym Em) (Hso m Hm)). }
  destruct Hhead as (n & l & El & En). unfold ordered. rewrite El. destruct (Z.to_nat (Limit f)) as [|k] eqn:Ek; [lia|]. cbn [take].
  intros [= <- <- <-]. replace (n :: take k l) with (take (S k) (sort_by less all)) by (by rewrite El).
  assert (Hlen : length (sort_by less all) = length (selected_nodes st now f root)) by (rewrite <-Hsorted; by rewrite length_fmap).
  assert (Hnd : NoDup (row_node_id <$> sort_by less all)) by (rewrite Hsorted; apply NoDup_remove_dups).
  split_and!.
  - eapply sublist_NoDup; [exact Hnd|]. apply fmap_sublist, sublist_take.
  - rewrite El. cbn. by rewrite En.
  - rewrite length_take, Hlen. lia.
  - exists (selected_nodes st now f root). split_and!; [apply NoDup_remove_dups|done|intros x; by apply selected_elem|..].
    + intros x Hx. rewrite <-Hsorted. apply list_elem_of_fmap in Hx as (m & -> & Hm). apply list_elem_of_fmap_2. by eapply subseteq_take.
    + intros Ht x Hx. rewrite take_ge by (rewrite Hlen; lia). by rewrite Hsorted.
    + apply (sorted_by_key (before less)); [|eapply sublist_NoDup; [exact Hnd|apply fmap_sublist, sublist_take]|].
      * intros m m' H Hne. by apply walk_order_precedes.
      * assert (Hso := sort_by_sorted less all). rewrite <-(take_drop (S k) (sort_by less all)) in Hso.
        by apply StronglySorted_app in Hso as (_ & ? & _).
    + intros x y Hx Hy Hny. apply list_elem_of_fmap in Hx as (m & -> & Hm). rewrite <-Hsorted in Hy.
      rewrite <-(take_drop (S k) (sort_by less all)), fmap_app in Hy. apply elem_of_app in Hy as [Hy|Hy]; [done|].
      apply list_elem_of_fmap in Hy as (m' & -> & Hm'). apply walk_order_precedes; [done..| |].
      * exact (sorted_prefix _ _ _ m m' (sort_by_sorted less all) Hm Hm').
      * intros E. apply Hny. rewrite <-E. by apply list_elem_of_fmap_2.
Qed.

(** C17. The rows of a hierarchy: the root comes first, every row once and no more
    than the limit.  What is selected is exactly the component of the root by
    associations between filtered nodes, and without a focus every filtered node
    too; its size is the total.  Within the limit all of it is shown; otherwise
    the rows are its first nodes in the order root, nodes that share an
    association with the root, rest of its component, other nodes, each by id.
    (Within the component the distance from the root beyond one step does not
    count.) *)
Theorem hierarchy_component st now f root rows total missing :
  NoDup (row_node_id <$> graphNodesTable st f) -> root ∈ row_node_id <$> graphNodesTable st f -> 0 < Limit f ->
  fetchGraphHierarchyNodes st now f root = (rows, total, missing) ->
  NoDup (row_node_id <$> rows) /\ head (row_node_id <$> rows) = Some root /\
  Z.of_nat (length rows) = Z.min (Limit f) total /\
  exists selected, NoDup selected /\ total = Z.of_nat (length selected) /\
    (forall x, x ∈ selected <->
       rtc (associated st now f root) root x \/ (unfocused f = true /\ x ∈ row_node_id <$> filtered_nodes st f root)) /\
    (forall x, x ∈ row_node_id <$> rows -> x ∈ selected) /\
    (total <= Limit f -> forall x, x ∈ selected -> x ∈ row_node_id <$> rows) /\
    StronglySorted (precedes st now f root) (row_node_id <$> rows) /\
    (forall x y, x ∈ row_node_id <$> rows -> y ∈ selected -> y ∉ row_node_id <$> rows -> precedes st now f root x y).
Proof. apply hierarchy_rows_spec. Qed.

(** ** The root that is resolved *)

#[export] Instance root_less_order : WeakOrder root_less.
Proof. apply _. Qed.

#[export] Instance kind_first_order kind : WeakOrder (kind_first kind).
Proof. apply _. Qed.

#[export] Instance root_order_order f : WeakOrder (root_order f).
Proof. unfold root_order. destruct (_ || _); [|destruct (negb _)]; apply _. Qed.

Section resolved.
Context (st : graph_store) (catalog : list catalog_ap) (f : GraphFilters).





End resolved.


(** ** Witnesses *)

Module WalkSample.
(** A root with two devices, and an access point apart. *)
Definition store : graph_store := {|
  legacy_nodes := [demo_node_row "device:2" "device"; demo_node_row "ap:1" "access_point"; demo_node_row "device:1" "device";
                   demo_node_row "ap:9" "access_point"; demo_node_row "device:3" "device"];
  legacy_edges := [demo_edge_row "e2" "device:2" "ap:1"; demo_edge_row "e1" "device:1" "ap:1"; demo_edge_row "e3" "device:3" "gone";
                   demo_edge_row "e4" "device:3" "device:2"];
  topology_nodes := []; topology_edges := []; identity_nodes := []; identity_edges := [] |}.

Definition catalog : list catalog_ap := [{| ca_bssid := "1"; ca_authorized := Some true; ca_last_observed_at := None |}].

Definition request (root : string) (limit : Z) : GraphFilters := {|
  Hierarchy := true; RootBSSID := ""; RootNodeID := root; Projection := ""; IncludeIdentity := false;
  LocationIDs := []; SensorIDs := []; FilterMAC := ""; FilterSSID := ""; FilterKinds := []; EdgeKinds := [];
  FilterThreatOnly := false; After := None; Before := None; Hops := 1; Limit := limit; Scope := "";
  PageCursor := ""; PageSize := 1 |}.

Definition rows (f : GraphFilters) (root : string) : list string * Z * Z :=
  let '(rows, total, missing) := fetchGraphHierarchyNodes store 0 f root in (row_node_id <$> rows, total, missing).
End WalkSample.

Example authorized_ap_leads : resolveGraphRoot WalkSample.store WalkSample.catalog (WalkSample.request "" 10) = "ap:1".
Proof. vm_compute. reflexivity. Qed.

(** The walk from a device two steps away shows its component, root first. *)
Example walk_sample : WalkSample.rows (WalkSample.request "device:3" 10) "device:3"
  = (["device:3"; "device:2"; "ap:1"; "device:1"], 4, 1).
Proof. vm_compute. reflexivity. Qed.

Lemma hierarchy_component_witness :
  let f := WalkSample.request "device:3" 3 in
  exists rows, fetchGraphHierarchyNodes WalkSample.store 0 f "device:3" = (rows, 4, 1) /\
    row_node_id <$> rows = ["device:3"; "device:2"; "ap:1"] /\
    exists selected, length selected = 4%nat /\ rtc (associated WalkSample.store 0 f "device:3") "device:3" "ap:1" /\ "ap:1" ∈ selected.
Proof.
  cbv zeta. set (f := WalkSample.request "device:3" 3).
  assert (Hid : NoDup (row_node_id <$> graphNodesTable WalkSample.store f)) by (apply (bool_decide_eq_true_1 (NoDup _)); vm_compute; reflexivity).
  assert (Hr : "device:3" ∈ row_node_id <$> graphNodesTable WalkSample.store f) by (apply (bool_decide_eq_true_1 (_ ∈ _)); vm_compute; reflexivity).
  destruct (fetchGraphHierarchyNodes WalkSample.store 0 f "device:3") as [[rows total] missing] eqn:E.
  assert (Et : total = 4 /\ missing = 1 /\ row_node_id <$> rows = ["device:3"; "device:2"; "ap:1"]).
  { assert (H : WalkSample.rows f "device:3" = (["device:3"; "device:2"; "ap:1"], 4, 1)) by (vm_compute; reflexivity).
    unfold WalkSample.rows in H. rewrite E in H. injection H as -> -> ->. repeat split. }
  destruct Et as (-> & -> & Er). exists rows. split; [reflexivity|]. split; [exact Er|].
  destruct (hierarchy_component WalkSample.store 0 f "device:3" rows 4 1 Hid Hr ltac:(reflexivity) E)
    as (_ & _ & _ & selected & _ & Hlen & Hsel & Hin & _).
  exists selected. assert (Ha : "ap:1" ∈ selected) by (apply Hin; rewrite Er; right; right; left). split; [lia|]. split; [|exact Ha].
  apply Hsel in Ha as [Ha|[Ha _]]; [exact Ha|discriminate Ha].
Defined.

