(* ===== verification/GoFlag.v ===== *)
(** * Command-line flags (package flag)

    The flag set of a command, strconv.ParseInt in base 0 and the loop of
    [flag.Parse], which ends the process on a bad argument. *)

From S2P Require Import Prelude GoStrings GoStrconv GoDuration.

(** ** strconv.ParseInt(s, 0, 64) *)

Definition lower_digit (c : ascii) : Z :=
  if is_digit c then code c - 48
  else if is_letter c then code (lower_ascii c) - 97 + 10
  else 255.

(** Digits of a base, with underscores between them. *)
Fixpoint based_digits (base acc : Z) (l : list ascii) : option Z :=
  match l with
  | [] => Some acc
  | c :: l =>
      if Ascii.eqb c "_" then based_digits base acc l
      else if lower_digit c <? base then based_digits base (acc * base + lower_digit c) l
      else None
  end.

(** Every underscore stands between digits; [digit] says that one (or the
    prefix of a base) precedes. *)
Fixpoint underscoreOK (digit : bool) (l : list ascii) : bool :=
  match l with
  | [] => true
  | c :: l =>
      if Ascii.eqb c "_"
      then digit && match l with [] => false | _ => underscoreOK false l end
      else underscoreOK true l
  end.

(** The base a literal names, what follows its prefix, and whether it has one. *)
Definition base_of (l : list ascii) : Z * list ascii * bool :=
  match l with
  | z :: b :: rest =>
      if Ascii.eqb z "0" then
        let b := lower_ascii b in
        let prefixed base := match rest with [] => (8, l, false) | _ => (base, rest, true) end in
        if Ascii.eqb b "b" then prefixed 2
        else if Ascii.eqb b "o" then prefixed 8
        else if Ascii.eqb b "x" then prefixed 16
        else (8, l, false)
      else (10, l, false)
  | _ => (10, l, false)
  end.

Definition ParseInt0 (s : string) : option Z :=
  let '(neg, l) := match bytes s with
                   | c :: l => if Ascii.eqb c "-" then (true, l) else if Ascii.eqb c "+" then (false, l) else (false, c :: l)
                   | [] => (false, [])
                   end in
  match l with
  | [] => None
  | _ =>
      let '(base, digits, prefix) := base_of l in
      match based_digits base 0 digits with
      | None => None
      | Some n =>
          let n := if (neg : bool) then - n else n in
          if underscoreOK prefix digits && (- 2 ^ 63 <=? n) && (n <? 2 ^ 63) then Some n else None
      end
  end.

(** ** Flags *)

Inductive flag_value := TextFlag (s : string) | IntFlag (n : Z) | BoolFlag (b : bool).

Definition flag_set : Type := gmap string flag_value.

Definition text_flag (fs : flag_set) (name : string) : string := match fs !! name with Some (TextFlag s) => s | _ => "" end.
Definition int_flag (fs : flag_set) (name : string) : Z := match fs !! name with Some (IntFlag n) => n | _ => 0 end.
Definition bool_flag (fs : flag_set) (name : string) : bool := match fs !! name with Some (BoolFlag b) => b | _ => false end.

(** Value.Set *)
Definition set_flag (v : flag_value) (value : string) : option flag_value :=
  match v with
  | TextFlag _ => Some (TextFlag value)
  | IntFlag _ => IntFlag <$> ParseInt0 value
  | BoolFlag _ => BoolFlag <$> ParseBool value
  end.

Definition is_bool (v : flag_value) : bool := match v with BoolFlag _ => true | _ => false end.

(** The name of an argument that is a flag, without its dashes: [None] where
    the flags end, and an error for a name that cannot be one. *)
Definition flag_name (arg : string) : option (string + unit) :=
  match arg with
  | String d (String c rest) =>
      if negb (Ascii.eqb d "-") then None
      else
        let name := if Ascii.eqb c "-" then rest else String c rest in
        if Ascii.eqb c "-" && is_empty rest then None
        else match name with
             | EmptyString => Some (inr tt)
             | String e _ => if Ascii.eqb e "-" || Ascii.eqb e "=" then Some (inr tt) else Some (inl name)
             end
  | _ => None
  end.

(** flag.Parse: the flags, or the code with which the process exits. *)
Fixpoint flag_Parse (args : list string) (fs : flag_set) : flag_set + Z :=
  match args with
  | [] => inl fs
  | arg :: args =>
      match flag_name arg with
      | None => inl fs
      | Some (inr _) => inr 2
      | Some (inl text) =>
          let '(name, value, has_value) := Cut text "=" in
          match fs !! name with
          | None => inr (if String.eqb name "help" || String.eqb name "h" then 0 else 2)
          | Some v =>
              if has_value || is_bool v then
                match set_flag v (if (has_value : bool) then value else "true") with
                | Some v => flag_Parse args (<[name := v]> fs)
                | None => inr 2
                end
              else
                match args with
                | [] => inr 2
                | value :: args =>
                    match set_flag v value with
                    | Some v => flag_Parse args (<[name := v]> fs)
                    | None => inr 2
                    end
                end
          end
      end
  end.

(** ** What parsing keeps *)

Definition same_kind (v w : flag_value) : Prop :=
  match v, w with TextFlag _, TextFlag _ | IntFlag _, IntFlag _ | BoolFlag _, BoolFlag _ => True | _, _ => False end.

Lemma set_flag_kind v value w : set_flag v value = Some w -> same_kind v w.
Proof.
  destruct v; cbn; [by intros [= <-]| |]; [destruct (ParseInt0 value)|destruct (ParseBool value)]; by intros [= <-].
Qed.

Lemma same_kind_trans u v w : same_kind u v -> same_kind v w -> same_kind u w.
Proof. by destruct u, v, w. Qed.

(** Every flag that was declared keeps its kind, and there are no others. *)
Definition same_flags (fs fs' : flag_set) : Prop :=
  forall name, option_relation same_kind (fun _ => False) (fun _ => False) (fs !! name) (fs' !! name).

Lemma same_flags_insert fs fs' name v w :
  fs !! name = Some v -> same_kind v w -> same_flags (<[name := w]> fs) fs' -> same_flags fs fs'.
Proof.
  intros Hv Hk H n. specialize (H n). destruct (decide (name = n)) as [<-|Hn].
  - assert (E : <[name := w]> fs !! name = Some w) by apply lookup_insert_eq. rewrite E in H. rewrite Hv.
    destruct (fs' !! name) as [u|]; [|done]. cbn in *. by eapply same_kind_trans.
  - assert (E : <[name := w]> fs !! n = fs !! n) by (by apply lookup_insert_ne). by rewrite E in H.
Qed.

Lemma flag_Parse_kinds_length k args fs fs' :
  (length args <= k)%nat -> flag_Parse args fs = inl fs' -> same_flags fs fs'.
Proof.
  revert args fs. induction k as [|k IH]; intros args fs Hk.
  { destruct args; [|cbn in Hk; lia]. intros [= <-] n. by destruct (fs !! n) as [[]|]. }
  destruct args as [|arg args]; cbn [flag_Parse length] in *.
  { intros [= <-] n. by destruct (fs !! n) as [[]|]. }
  destruct (flag_name arg) as [[text|]|]; [|done|intros [= <-] n; by destruct (fs !! n) as [[]|]].
  destruct (Cut text "=") as [[name value] has]. destruct (fs !! name) as [v|] eqn:Ev; [|done].
  destruct (has || is_bool v).
  - destruct (set_flag v _) as [w|] eqn:Ew; [|done]. intros H. eapply same_flags_insert; [exact Ev|by eapply set_flag_kind|].
    apply (IH args); [lia|exact H].
  - destruct args as [|val args]; [done|]. cbn [length] in Hk. destruct (set_flag v val) as [w|] eqn:Ew; [|done].
    intros H. eapply same_flags_insert; [exact Ev|by eapply set_flag_kind|]. apply (IH args); [lia|exact H].
Qed.

(** A command line never changes which flags there are, nor what kind of value
    one holds. *)
Lemma flag_Parse_kinds args fs fs' : flag_Parse args fs = inl fs' -> same_flags fs fs'.
Proof. by apply (flag_Parse_kinds_length (length args)). Qed.

Example parse_int0 : ParseInt0 <$> ["0x_1F"; "-0b101"; "0_7"; "1__0"; "08"; "9223372036854775808"; "-9223372036854775808"; "0"; "0x"]
  = [Some 31; Some (-5); Some 7; None; None; None; Some (- 2 ^ 63); Some 0; None].
Proof. vm_compute. reflexivity. Qed.
