(* ===== verification/PgPool.v ===== *)
(** * Opening the pool of connections (internal/db/pool.go)

    The checks [NewPool] makes before it hands out a pool: the DSN, the TLS
    settings with the files they name, and the session of the database that
    answers.  The pgx driver and crypto/x509 are the class [PostgresDriver]. *)

From S2P Require Import Prelude GoErrors GoStrings GoNet Readiness.

Record Options := {
  DSN : string;
  TLSCAFile : string;
  TLSCertFile : string;
  TLSKeyFile : string;
  TLSServerName : string;
  SchemaManifestSHA256 : string;
  MaxOpenConns : Z;
  MaxIdleConns : Z;
  ConnMaxLifetime : duration;
  ConnMaxIdleTime : duration;
}.

(** tls.Config; the roots are the PEM text they were read from, and a client
    certificate its two texts. *)
Record tls_config := {
  MinVersion : Z;
  RootCAs : string;
  ServerName : string;
  Certificates : list (string * string);
}.

Definition VersionTLS12 : Z := 771.

(** What stdlib.OpenDB and the setters of sql.DB are given; without a TLS
    configuration the driver keeps the one of the DSN. *)
Record opened := {
  o_config : ConnConfig;
  o_tls : option tls_config;
  o_search_path : string;
  o_timezone : string;
  o_application_name : string;
  o_open : Z;
  o_idle : Z;
  o_lifetime : duration;
  o_idle_time : duration;
  o_manifest : string;
}.

(** pgx.ParseConfig, the certificates of a PEM text, whether a certificate and
    a key belong together, and the database behind a pool. *)
Class PostgresDriver := {
  ParseConfig : string -> ConnConfig + error;
  AppendCertsFromPEM : string -> bool;
  X509KeyPair : string -> string -> option error;
  ping : opened -> option error;
  session : opened -> Session + error;
}.

Section pool.
Context {Driver : PostgresDriver} (readFile : string -> string + error).

(** tls.LoadX509KeyPair *)
Definition LoadX509KeyPair (certFile keyFile : string) : (string * string) + error :=
  match readFile certFile with
  | inr err => inr err
  | inl cert =>
      match readFile keyFile with
      | inr err => inr err
      | inl key => match X509KeyPair cert key with Some err => inr err | None => inl (cert, key) end
      end
  end.

Definition configureTLS (opts : Options) : option tls_config + error :=
  if is_empty (TrimSpace (TLSCAFile opts)) then
    if negb (is_empty (TLSCertFile opts)) || negb (is_empty (TLSKeyFile opts)) || negb (is_empty (TLSServerName opts))
    then inr (Opaque "postgres TLS CA file is required when TLS settings are configured")
    else inl None
  else
    match readFile (TLSCAFile opts) with
    | inr err => inr (Wrapf ("read Postgres CA certificate: " +:+ Error err) err)
    | inl caPEM =>
        if negb (AppendCertsFromPEM caPEM) then inr (Opaque "postgres CA file contains no valid certificates")
        else
          let cfg certificates := {| MinVersion := VersionTLS12; RootCAs := caPEM;
                                     ServerName := TrimSpace (TLSServerName opts); Certificates := certificates |} in
          if is_empty (TrimSpace (TLSServerName opts)) then inr (Opaque "postgres TLS server name is required")
          else if negb (is_empty (TLSCertFile opts)) || negb (is_empty (TLSKeyFile opts)) then
            if is_empty (TLSCertFile opts) || is_empty (TLSKeyFile opts)
            then inr (Opaque "postgres client certificate and key must be configured together")
            else
              match LoadX509KeyPair (TLSCertFile opts) (TLSKeyFile opts) with
              | inr err => inr (Wrapf ("load Postgres client certificate: " +:+ Error err) err)
              | inl certificate => inl (Some (cfg [certificate]))
              end
          else inl (Some (cfg []))
    end.

Definition NewPool (opts : Options) : opened + error :=
  match ParseConfig (DSN opts) with
  | inr err => inr (Wrapf ("parse Postgres DSN: " +:+ Error err) err)
  | inl driverConfig =>
      match validateDriverConfig driverConfig with
      | Some err => inr err
      | None =>
          match configureTLS opts with
          | inr err => inr err
          | inl tls =>
              let pool := {| o_config := driverConfig; o_tls := tls; o_search_path := expectedSchema; o_timezone := "UTC";
                             o_application_name := "atheros-search"; o_open := MaxOpenConns opts;
                             o_idle := MaxIdleConns opts; o_lifetime := ConnMaxLifetime opts;
                             o_idle_time := ConnMaxIdleTime opts;
                             o_manifest := expected_manifest (SchemaManifestSHA256 opts) |} in
              match Health true (ping pool) (session pool) with Some err => inr err | None => inl pool end
          end
      end
  end.
End pool.

(** ** What an open pool has passed *)

(** The host is neither this machine nor unspecified, the role is not a
    superuser's, and there is a password for the database of the service. *)
Definition dedicated (cfg : ConnConfig) : Prop :=
  let host := Trim (ToLower (Host cfg)) "[]" in
  host <> "" /\ host <> "localhost" /\
  (forall ip, ParseIP host = Some ip -> IsLoopback ip = false /\ IsUnspecified ip = false) /\
  TrimSpace (User cfg) <> "" /\ EqualFold (User cfg) "postgres" = false /\ EqualFold (User cfg) "root" = false /\
  Password cfg <> "" /\ Database cfg = expectedDatabase.

Lemma validateDriverConfig_spec cfg : validateDriverConfig cfg = None <-> dedicated cfg.
Proof.
  unfold validateDriverConfig, dedicated. set (host := Trim _ _). cbv zeta. unfold is_empty.
  destruct (String.eqb_spec host "") as [Eh|Eh]; [by split; [|intros []]|].
  destruct (String.eqb_spec host "localhost") as [El|El]; [split; [done|tauto]|]. cbn [orb].
  assert (Hip : (match ParseIP host with Some ip => IsLoopback ip || IsUnspecified ip | None => false end) = false
    <-> forall ip, ParseIP host = Some ip -> IsLoopback ip = false /\ IsUnspecified ip = false).
  { destruct (ParseIP host) as [ip|]; [|done]. rewrite orb_false_iff. split; [by intros H ip' [= <-]|auto]. }
  destruct (match ParseIP host with Some ip => _ | None => false end).
  { split; [done|]. intros (_ & _ & H & _). by apply Hip in H. }
  destruct (String.eqb_spec (TrimSpace (User cfg)) ""); [split; [done|tauto]|].
  destruct (EqualFold (User cfg) "postgres"); [split; [done|intros (_ & _ & _ & _ & H & _); done]|].
  destruct (EqualFold (User cfg) "root"); [split; [done|intros (_ & _ & _ & _ & _ & H & _); done]|]. cbn [orb].
  destruct (String.eqb_spec (Password cfg) ""); [split; [done|tauto]|].
  destruct (String.eqb_spec (Database cfg) expectedDatabase); cbn [negb]; [|split; [done|tauto]].
  split; [|done]. intros _. split_and!; try done. by apply Hip.
Qed.

(** A pool is handed out only over a dedicated role and an external host; with
    a CA file the server is verified by name against its roots by TLS 1.2 or
    newer; and the session is in the schema of the service, in UTC, on version
    16 or newer. *)
Lemma NewPool_spec {Driver : PostgresDriver} readFile opts pool :
  NewPool readFile opts = inl pool ->
  ParseConfig (DSN opts) = inl (o_config pool) /\ dedicated (o_config pool) /\ o_search_path pool = expectedSchema /\
  (TrimSpace (TLSCAFile opts) <> "" -> exists tls pem, o_tls pool = Some tls /\ VersionTLS12 <= MinVersion tls /\
     readFile (TLSCAFile opts) = inl pem /\ RootCAs tls = pem /\ AppendCertsFromPEM pem = true /\ ServerName tls <> "") /\
  (TrimSpace (TLSCAFile opts) = "" -> o_tls pool = None) /\
  ping pool = None /\ exists s, session pool = inl s /\ s_database s = expectedDatabase /\ s_schema s = expectedSchema /\
    160000 <= s_version s.
Proof.
  unfold NewPool. destruct (ParseConfig (DSN opts)) as [cfg|]; [|done].
  destruct (validateDriverConfig cfg) eqn:Ev; [done|]. apply validateDriverConfig_spec in Ev.
  destruct (configureTLS readFile opts) as [tls|] eqn:Et; [|done]. set (p := {| o_config := cfg |}).
  destruct (Health true (ping p) (session p)) eqn:Eh; [done|]. intros [= <-]. split; [done|]. split; [done|]. split; [done|].
  unfold configureTLS in Et. unfold is_empty in Et. split; [|split].
  - intros Hca. apply String.eqb_neq in Hca. rewrite Hca in Et. destruct (readFile (TLSCAFile opts)) as [pem|]; [|done].
    destruct (AppendCertsFromPEM pem) eqn:Ep; [|done]. cbn [negb] in Et.
    destruct (String.eqb_spec (TrimSpace (TLSServerName opts)) ""); [done|].
    destruct (_ || _); [destruct (_ || _); [done|]; destruct (LoadX509KeyPair _ _ _); [|done]|];
      injection Et as <-; do 2 eexists; (split; [reflexivity|]); cbn; auto with lia.
  - intros Hca. rewrite Hca in Et. cbn in Et. destruct (_ || _); [done|]. by injection Et as <-.
  - unfold Health in Eh. cbn [negb] in Eh. destruct (ping p); [done|]. split; [done|]. destruct (session p) as [s|]; [|done].
    exists s. destruct (String.eqb_spec (s_database s) expectedDatabase); [|done]. cbn [negb] in Eh.
    destruct (String.eqb_spec (s_schema s) expectedSchema); [|done]. cbn [negb] in Eh. destruct (_ && _); [done|].
    unfold validatePostgresVersion in Eh. destruct (Z.ltb_spec (s_version s) 160000); [done|]. by split_and!.
Qed.
