(* ===== verification/RepairCommand.v ===== *)
(** * The repair command (cmd/embedding-job-repair, app/repair/repair.go)

    The flags with their defaults from the environment, the gate on the schema
    and the dispatch of [Run] over the statements of [Repair], the reports of
    the read-only actions, and what [main] makes of the outcome.  A statement
    can fail, and the rows of a query can end early with an error. *)

From S2P Require Import Prelude GoErrors GoStrings GoStrconv GoTime GoSort GoFlag LeaseQueue Repair Readiness PgPool SqlGroup.

Definition envOr (getenv : string -> string) (key fallback : string) : string :=
  if is_empty (getenv key) then fallback else getenv key.

(** The flags [Run] declares. *)
Definition declared_flags (getenv : string -> string) : flag_set := list_to_map [
  ("dsn", TextFlag (envOr getenv "ATHSEARCH_POSTGRES_DSN" ""));
  ("tls-ca", TextFlag (envOr getenv "ATHSEARCH_POSTGRES_TLS_CA_FILE" ""));
  ("tls-cert", TextFlag (envOr getenv "ATHSEARCH_POSTGRES_TLS_CERT_FILE" ""));
  ("tls-key", TextFlag (envOr getenv "ATHSEARCH_POSTGRES_TLS_KEY_FILE" ""));
  ("tls-server", TextFlag (envOr getenv "ATHSEARCH_POSTGRES_TLS_SERVER_NAME" ""));
  ("schema-manifest-sha256", TextFlag (envOr getenv "ATHSEARCH_SCHEMA_MANIFEST_SHA256" ""));
  ("action", TextFlag "status");
  ("stale-minutes", IntFlag 60);
  ("limit", IntFlag 5000);
  ("dry-run", BoolFlag false);
  ("source-kinds", TextFlag "");
  ("model", TextFlag "");
  ("input-revision", TextFlag "");
  ("after-job-id", TextFlag "");
  ("apply", BoolFlag false);
  ("campaign-id", TextFlag "");
  ("created-before", TextFlag "");
  ("reviewed-failed-job", TextFlag "");
  ("reviewed-at", TextFlag "");
  ("queue-reserve", IntFlag 0)].

(** ** The tables and the statements *)

(** The tables of a repair, the rows of worker_heartbeat, and the row of
    schema_readiness: the checksum applied and the flag. *)
Record command_db := { tables : repair_db; heartbeats : Z; readiness : option (string * bool) }.

Definition set_tables (d : command_db) (s : repair_db) : command_db :=
  {| tables := s; heartbeats := heartbeats d; readiness := readiness d |}.

Inductive statement := StatusCounts | JobTotal | HeartbeatTotal | KindCounts | VectorCounts | Backlog | Gate | Action.

(** A statement is answered, fails, or its rows end with an error. *)
Inductive answer := Answered | Fails (err : error) | EndsAfter (rows : nat) (err : error).

(** What the command writes to its log. *)
Inductive line :=
| Titled (msg : string)
| StatusCount (st : job_status) (count : Z)
| TotalCount (total : Z)
| HeartbeatRows (n : Z)
| KindCount (kind : string) (st : job_status) (count : Z)
| VectorCount (kind : string) (vectors : Z)
| KindBacklog (kind : string) (pending total : Z)
| RepairPage (page : Page)
| Affected (action : string) (n : Z).

Definition status_text (st : job_status) : string :=
  match st with
  | Pending => "pending" | Leased => "leased" | Completed => "completed" | Failed => "failed" | Cancelled => "cancelled"
  end.

Section command.
Context {Env : RepairEnv} {Driver : PostgresDriver} (created_at : string -> time).
Context (getenv : string -> string) (readFile : string -> string + error).
Context (answers : statement -> answer).
Context (client_now now clock : time) (locked : gset string) (snapshot : db) (others : string -> db -> db).

(** [rows.Next] and [Scan]: the rows that arrive, and [rows.Err]. *)
Definition read_rows {A} (q : statement) (rows : list A) : (list A * option error) + error :=
  match answers q with
  | Answered => inl (rows, None)
  | Fails err => inr err
  | EndsAfter n err => inl (take n rows, Some err)
  end.

(** QueryRow and Scan. *)
Definition read_row {A} (q : statement) (row : A) : A + error :=
  match answers q with Answered => inl row | Fails err | EndsAfter _ err => inr err end.

Definition rows_of (d : db) : list job_row := snd <$> map_to_list (jobs d).

(** GROUP BY with COUNT over the rows, in the order of the key. *)
Definition group_counts {A K} `{EqDecision K} (key : A -> K) (less : K -> K -> bool) (rows : list A) : list (K * list A) :=
  (fun k => (k, members key rows k)) <$> sort_by less (group_keys key rows).

Definition status_less : job_status -> job_status -> bool := less_on status_text str_ltb.

Definition kind_status_less (a b : string * job_status) : bool :=
  str_ltb (fst a) (fst b) || String.eqb (fst a) (fst b) && status_less (snd a) (snd b).

Definition count {A} (rows : list A) : Z := Z.of_nat (length rows).

Definition status_counts (d : db) : list line :=
  (fun g => StatusCount (fst g) (count (snd g))) <$> group_counts status status_less (rows_of d).

Definition kind_counts (d : db) : list line :=
  (fun g => KindCount (fst (fst g)) (snd (fst g)) (count (snd g))) <$>
    group_counts (fun r => (r_embedding_kind r, status r)) kind_status_less (rows_of d).

(** The kind is part of the key of an embedding. *)
Definition kind_of_vector (e : (string * string * string * string) * vector_row) : string := snd (fst (fst (fst e))).

Definition vector_counts (d : db) : list line :=
  (fun g => VectorCount (fst g) (count (snd g))) <$> group_counts kind_of_vector str_ltb (map_to_list (embeddings d)).

Definition backlog (d : db) : list line :=
  (fun g => KindBacklog (fst g) (count (List.filter open_job (snd g))) (count (snd g))) <$>
    group_counts r_embedding_kind str_ltb (rows_of d).

(** The lines written so far, and the error with which the report ends.  The
    iteration error of the kinds is the only one that is looked at. *)
Definition showKindCoverage (d : db) : list line * option error :=
  match read_rows KindCounts (kind_counts d) with
  | inr err => ([], Some err)
  | inl (kinds, Some err) => (Titled "=== Embedding Jobs by Kind and Status ===" :: kinds, Some err)
  | inl (kinds, None) =>
      let written := Titled "=== Embedding Jobs by Kind and Status ===" :: kinds in
      match read_rows VectorCounts (vector_counts d) with
      | inr err => (written, Some err)
      | inl (vectors, _) =>
          let written := written ++ Titled "=== Embedded Vectors by Kind ===" :: vectors in
          match read_rows Backlog (backlog d) with
          | inr err => (written, Some err)
          | inl (pending, _) => (written ++ Titled "=== Per-Kind Backlog ===" :: pending, None)
          end
      end
  end.

Definition showStatus (d : db) (heartbeats : Z) : list line * option error :=
  match read_rows StatusCounts (status_counts d) with
  | inr err => ([], Some err)
  | inl (statuses, _) =>
      let written := Titled "=== Embedding Job Status ===" :: statuses in
      match read_row JobTotal (count (rows_of d)) with
      | inr err => (written, Some err)
      | inl total =>
          let written := written ++ [TotalCount total] in
          match read_row HeartbeatTotal heartbeats with
          | inr err => (written, Some err)
          | inl rows =>
              let '(kinds, err) := showKindCoverage d in
              (written ++ HeartbeatRows rows :: kinds, err)
          end
      end
  end.

Definition verifySchemaGate (row : option (string * bool)) (expectedSHA256 : string) : option error :=
  match read_row Gate row with
  | inr err => Some (Wrapf ("schema readiness query: " +:+ Error err) err)
  | inl None => Some (Wrapf ("schema readiness query: " +:+ Error (Sentinel ErrNoRows)) (Sentinel ErrNoRows))
  | inl (Some (checksum, ready)) =>
      let manifestSHA256 := ToLower checksum in
      if negb (String.eqb manifestSHA256 expectedSHA256)
      then Some (Opaque ("schema manifest mismatch: got " +:+ manifestSHA256 +:+ ", expected " +:+ expectedSHA256))
      else if negb ready then Some (Opaque "schema not ready: ready=false")
      else None
  end.

(** ** Run *)

Definition is_proxy_action (action : string) : bool :=
  String.eqb action "proxy-status" || String.eqb action "proxy-reconcile".

Definition pool_options (fs : flag_set) : Options := {|
  DSN := text_flag fs "dsn"; TLSCAFile := text_flag fs "tls-ca"; TLSCertFile := text_flag fs "tls-cert";
  TLSKeyFile := text_flag fs "tls-key"; TLSServerName := text_flag fs "tls-server"; PgPool.SchemaManifestSHA256 := "";
  MaxOpenConns := 4; MaxIdleConns := 1; ConnMaxLifetime := 5 * Minute; ConnMaxIdleTime := Minute |}.

Definition manifest_flag (fs : flag_set) : string := ToLower (TrimSpace (text_flag fs "schema-manifest-sha256")).

Definition sha256_hex (s : string) : bool := (len s =? 64) && bool_decide (is_Some (hex_decode (bytes s))).

(** The scope that the flags give, or the error of a timestamp. *)
Definition scope_of (fs : flag_set) : Scope + error :=
  match ParseRFC3339 (text_flag fs "created-before") with
  | None => inr (Opaque "created-before must be a frozen RFC3339 timestamp")
  | Some cutoff =>
      let scope job at_ reserve := {|
        CampaignID := text_flag fs "campaign-id"; CreatedBefore := cutoff;
        Kinds := Split (text_flag fs "source-kinds") ","; Model := text_flag fs "model";
        ScInputRevision := text_flag fs "input-revision"; AfterJobID := text_flag fs "after-job-id";
        Limit := Z.min (int_flag fs "limit") 1000; ReviewedJobID := job; ReviewedAt := at_; QueueReserve := reserve |} in
      if negb (is_empty (text_flag fs "reviewed-failed-job")) then
        match ParseRFC3339 (text_flag fs "reviewed-at") with
        | None => inr (Opaque "reviewed-at must be the exact RFC3339 job update timestamp")
        | Some reviewed => inl (scope (text_flag fs "reviewed-failed-job") reviewed (int_flag fs "queue-reserve"))
        end
      else if negb (is_empty (text_flag fs "reviewed-at")) || negb (int_flag fs "queue-reserve" =? 0)
      then inr (Opaque "reviewed-at and queue-reserve require reviewed-failed-job")
      else inl (scope "" 0 0)
  end.

(** The text a failing statement of a legacy action is wrapped with. *)
Definition failure_text (action : string) (dryRun : bool) : string :=
  if String.eqb action "reset-stale" then "reset stale jobs: "
  else if String.eqb action "retry-failed" then "retry failed jobs: "
  else if String.eqb action "cancel-superseded"
  then if dryRun then "count non-active embedding jobs: " else "cancel non-active embedding jobs: "
  else if dryRun then "count orphaned embedding jobs: " else "cancel orphaned embedding jobs: ".

Definition action_failed (action : string) (err : error) : error :=
  Wrapf ("action " +:+ action +:+ " failed: " +:+ Error err) err.

(** The switch on the action. *)
Definition dispatch (fs : flag_set) (d : command_db) : option error * list line * command_db :=
  let action := text_flag fs "action" in
  let dryRun := bool_flag fs "dry-run" in
  if is_proxy_action action then
    match scope_of fs with
    | inr err => (Some err, [], d)
    | inl scope =>
        let apply := String.eqb action "proxy-reconcile" && bool_flag fs "apply" && negb dryRun in
        match repairProxyPage created_at now clock others (tables d) scope apply, read_row Action tt with
        | inr err, _ | inl _, inr err => (Some (action_failed action err), [], d)
        | inl (s, page), inl _ => (None, [RepairPage page], set_tables d s)
        end
    end
  else if String.eqb action "status" then
    let '(lines, err) := showStatus (queue (tables d)) (heartbeats d) in (action_failed action <$> err, lines, d)
  else
    match Run_action client_now now locked snapshot (queue (tables d)) action (int_flag fs "stale-minutes")
            (int_flag fs "limit") dryRun, read_row Action tt with
    | None, _ => (Some (Opaque ("unknown action " +:+ Quote action)), [], d)
    | Some (inr err), _ => (Some err, [], d)
    | Some (inl _), inr err =>
        (Some (action_failed action (Wrapf (failure_text action dryRun +:+ Error err) err)), [], d)
    | Some (inl (q, n)), inl _ => (None, [Affected action n], set_tables d (set_queue (tables d) q (receipts (tables d))))
    end.

(** Run after flag.Parse. *)
Definition run_flags (fs : flag_set) (d : command_db) : option error * list line * command_db :=
  let manifestSHA256 := manifest_flag fs in
  if (negb (is_empty (text_flag fs "reviewed-failed-job")) || negb (is_empty (text_flag fs "reviewed-at"))
      || negb (int_flag fs "queue-reserve" =? 0)) && negb (is_proxy_action (text_flag fs "action"))
  then (Some (Opaque "reviewed failure options require proxy-status or proxy-reconcile"), [], d)
  else if is_empty (text_flag fs "dsn") then (Some (Opaque "ATHSEARCH_POSTGRES_DSN is required"), [], d)
  else if negb (sha256_hex manifestSHA256)
  then (Some (Opaque "ATHSEARCH_SCHEMA_MANIFEST_SHA256 must be a 64-character hex SHA-256 digest"), [], d)
  else
    match NewPool readFile (pool_options fs) with
    | inr err => (Some (Wrapf ("connect to postgres: " +:+ Error err) err), [], d)
    | inl _ =>
        match verifySchemaGate (readiness d) manifestSHA256 with
        | Some err => (Some (Wrapf ("schema readiness verification failed: " +:+ Error err) err), [], d)
        | None => dispatch fs d
        end
    end.

(** The exit code of the process, its log and the tables it leaves. *)
Definition repair_main (args : list string) (d : command_db) : Z * list line * command_db :=
  match flag_Parse args (declared_flags getenv) with
  | inr exit_code => (exit_code, [], d)
  | inl fs => let '(err, lines, d) := run_flags fs d in (match err with Some _ => 1 | None => 0 end, lines, d)
  end.
End command.

(** ** Only a guarded action writes *)

Definition legacy_actions : list string := ["reset-stale"; "retry-failed"; "cancel-superseded"; "cancel-orphaned"].

(** At most [limit] rows of the queue differ, and nothing else. *)
Definition changes_at_most (limit : Z) (d d' : db) : Prop :=
  documents d' = documents d /\ embeddings d' = embeddings d /\ vectors d' = vectors d /\
  exists ids, NoDup ids /\ Z.of_nat (length ids) <= limit /\ forall id, id ∉ ids -> jobs d' !! id = jobs d !! id.

Lemma changes_none limit d : 0 <= limit -> changes_at_most limit d d.
Proof. intros H. split_and!; try done. exists []. split_and!; [apply NoDup_nil_2|cbn; lia|done]. Qed.

Lemma changes_selected order `{!WeakOrder order} locked limit p d f :
  0 <= limit -> changes_at_most limit d (set_jobs d (update_rows f (select_rows order locked limit p (jobs d)) (jobs d))).
Proof.
  intros Hl. destruct (select_rows_spec order locked limit p (jobs d)) as (_ & H2 & H3 & _). split_and!; try done.
  eexists. split_and!; [exact H2|rewrite length_fmap; lia|]. intros id Hn. by apply update_rows_out.
Qed.

Lemma changes_cancelled target msg now snapshot d limit dryRun :
  0 <= limit -> changes_at_most limit d (fst (cancel_jobs target msg now snapshot d limit dryRun)).
Proof.
  intros Hl. unfold cancel_jobs. destruct dryRun; [by apply changes_none|].
  destruct (select_rows_spec id_order ∅ limit (target snapshot) (jobs snapshot)) as (_ & H2 & H3 & _). split_and!; try done.
  eexists. split_and!; [exact H2|rewrite length_fmap; lia|]. intros id Hn. cbn [fst jobs set_jobs].
  rewrite update_ids_lookup by done. by rewrite decide_False.
Qed.

Lemma answered_fst {A B} (x : A * B) a b : Some (inl x : (A * B) + error) = Some (inl (a, b)) -> fst x = a.
Proof. by intros [= ->]. Qed.

(** An action on the queue that succeeds is one of the four, has a positive
    limit and changes no more rows; a dry run of a cancellation changes none. *)
Lemma Run_action_guarded `{RepairEnv} created_at client_now now locked snapshot d action minutes limit dryRun q n :
  Run_action client_now now locked snapshot d action minutes limit dryRun = Some (inl (q, n)) ->
  action ∈ legacy_actions /\ 0 < limit /\ changes_at_most limit d q /\ repair_step created_at d q /\
  (dryRun = true -> action = "cancel-superseded" \/ action = "cancel-orphaned" -> q = d).
Proof.
  unfold Run_action. cbv zeta. destruct (String.eqb_spec action "reset-stale") as [->|_].
  { destruct (Z.leb_spec minutes 0); [done|]. destruct (Z.leb_spec limit 0); [done|]. cbn [orb]. intros <-%answered_fst.
    split_and!; [by left|done|apply changes_selected; [apply _|lia]|apply rs_reset|by intros _ [?|?]]. }
  destruct (Z.leb_spec limit 0) as [|Hl]; [by repeat (destruct (String.eqb _ _); [done|])|].
  destruct (String.eqb_spec action "retry-failed") as [->|_].
  { intros <-%answered_fst.
    split_and!; [by right; left|done|apply changes_selected; [apply _|lia]|apply rs_retry|by intros _ [?|?]]. }
  destruct (String.eqb_spec action "cancel-superseded") as [->|_]; [|destruct (String.eqb_spec action "cancel-orphaned") as [->|_]; [|done]].
  - intros <-%answered_fst.
    split_and!; [by do 2 right; left|done|apply changes_cancelled; lia|apply rs_superseded|by intros -> _].
  - intros <-%answered_fst.
    split_and!; [by do 3 right; left|done|apply changes_cancelled; lia|apply rs_orphaned|by intros -> _].
Qed.

Section guarded.
Context {Env : RepairEnv} {Driver : PostgresDriver} (created_at : string -> time).
Context (getenv : string -> string) (readFile : string -> string + error) (answers : statement -> answer).
Context (client_now now clock : time) (locked : gset string) (snapshot : db) (others : string -> db -> db).

Notation main := (repair_main created_at getenv readFile answers client_now now clock locked snapshot others).
Notation run := (run_flags created_at readFile answers client_now now clock locked snapshot others).
Notation act := (dispatch created_at answers client_now now clock locked snapshot others).

(** What had to hold for the tables to change. *)
Record write_guarded (fs : flag_set) (d d' : command_db) : Prop := {
  guard_pool : exists pool, NewPool readFile (pool_options fs) = inl pool /\ dedicated (o_config pool) /\
    o_search_path pool = expectedSchema;
  guard_schema : exists checksum, readiness d = Some (checksum, true) /\ ToLower checksum = manifest_flag fs /\
    sha256_hex (ToLower checksum) = true;
  guard_frame : heartbeats d' = heartbeats d /\ readiness d' = readiness d;
  guard_action :
    (text_flag fs "action" ∈ legacy_actions /\ 0 < int_flag fs "limit" /\
     (bool_flag fs "dry-run" = true -> text_flag fs "action" = "reset-stale" \/ text_flag fs "action" = "retry-failed") /\
     changes_at_most (int_flag fs "limit") (queue (tables d)) (queue (tables d')) /\
     repair_step created_at (queue (tables d)) (queue (tables d')) /\
     progress (tables d') = progress (tables d) /\ receipts (tables d') = receipts (tables d) /\ policy (tables d') = policy (tables d)) \/
    (text_flag fs "action" = "proxy-reconcile" /\ bool_flag fs "apply" = true /\ bool_flag fs "dry-run" = false /\
     exists scope page, scope_of fs = inl scope /\ 1 <= Limit scope <= 1000 /\
       repairProxyPage created_at now clock others (tables d) scope true = inl (tables d', page));
}.

Lemma set_tables_same d : set_tables d (tables d) = d.
Proof. by destruct d. Qed.

Lemma set_queue_same s : set_queue s (queue s) (receipts s) = s.
Proof. by destruct s. Qed.

Lemma scope_limit fs sc : scope_of fs = inl sc -> Limit sc <= 1000.
Proof.
  unfold scope_of. destruct (ParseRFC3339 _); [|done]. destruct (negb (is_empty (text_flag fs "reviewed-failed-job"))).
  - destruct (ParseRFC3339 _); [|done]. intros [= <-]. cbn [Limit]. lia.
  - destruct (_ || _); [done|]. intros [= <-]. cbn [Limit]. lia.
Qed.

(** A page that is not applied writes nothing. *)
Lemma repairProxyPage_read s sc s' page : repairProxyPage created_at now clock others s sc false = inl (s', page) -> s' = s.
Proof.
  unfold repairProxyPage. destruct (validate sc); [done|]. cbn [andb]. repeat (match goal with |- context [cursor_of ?a] => destruct (cursor_of a) end); try done.
  by intros [= <- <-].
Qed.

Lemma dispatch_guarded fs d err lines d' : act fs d = (err, lines, d') ->
  d' = d \/ (err = None /\ heartbeats d' = heartbeats d /\ readiness d' = readiness d /\
    ((text_flag fs "action" ∈ legacy_actions /\ 0 < int_flag fs "limit" /\
      (bool_flag fs "dry-run" = true -> text_flag fs "action" = "reset-stale" \/ text_flag fs "action" = "retry-failed") /\
      changes_at_most (int_flag fs "limit") (queue (tables d)) (queue (tables d')) /\
      repair_step created_at (queue (tables d)) (queue (tables d')) /\
      progress (tables d') = progress (tables d) /\ receipts (tables d') = receipts (tables d) /\ policy (tables d') = policy (tables d)) \/
     (text_flag fs "action" = "proxy-reconcile" /\ bool_flag fs "apply" = true /\ bool_flag fs "dry-run" = false /\
      exists scope page, scope_of fs = inl scope /\ 1 <= Limit scope <= 1000 /\
        repairProxyPage created_at now clock others (tables d) scope true = inl (tables d', page)))).
Proof.
  unfold dispatch. cbv zeta. set (action := text_flag fs "action"). set (dry := bool_flag fs "dry-run").
  destruct (is_proxy_action action) eqn:Ep.
  { destruct (scope_of fs) as [scope|e] eqn:Es; [|by intros [= <- <- <-]; left].
    set (apply := String.eqb action "proxy-reconcile" && bool_flag fs "apply" && negb dry).
    destruct (repairProxyPage created_at now clock others (tables d) scope apply) as [[s page]|e] eqn:Er; [|by intros [= <- <- <-]; left].
    destruct (read_row answers Action tt); [|by intros [= <- <- <-]; left]. intros [= <- <- <-].
    destruct apply eqn:Ea; [|apply repairProxyPage_read in Er as ->; left; apply set_tables_same]. right. split_and!; try done. right.
    unfold apply in Ea. rewrite !andb_true_iff, negb_true_iff in Ea. destruct Ea as [[Ea1%String.eqb_eq Ea2] Ea3].
    split_and!; try done. exists scope, page. split; [done|]. split; [|done].
    split; [by eapply repairProxyPage_limit|by apply (scope_limit fs)]. }
  destruct (String.eqb action "status").
  { destruct (showStatus answers _ _) as [ls e]. intros [= <- <- <-]. by left. }
  destruct (Run_action client_now now locked snapshot (queue (tables d)) action (int_flag fs "stale-minutes") (int_flag fs "limit") dry)
    as [[[q n]|e]|] eqn:Er; [|by intros [= <- <- <-]; left|by intros [= <- <- <-]; left].
  destruct (read_row answers Action tt); [|by intros [= <- <- <-]; left]. intros [= <- <- <-].
  apply (Run_action_guarded created_at) in Er as (Ha & Hl & Hc & Hs & Hd).
  destruct (decide (dry = true /\ (action = "cancel-superseded" \/ action = "cancel-orphaned"))) as [[Hdry Hcan]|Hnot].
  { left. rewrite (Hd Hdry Hcan). by rewrite set_queue_same, set_tables_same. }
  right. split_and!; try done. left. split_and!; try done. intros Hdry. unfold legacy_actions in Ha.
  rewrite !elem_of_cons in Ha. destruct Ha as [?|[?|[?|[?|Ha]]]]; [by left|by right|destruct Hnot; by auto..|by apply elem_of_nil in Ha].
Qed.

Lemma run_guarded fs d err lines d' : run fs d = (err, lines, d') -> d' = d \/ (err = None /\ write_guarded fs d d').
Proof.
  unfold run_flags. cbv zeta. destruct (_ && _); [by intros [= <- <- <-]; left|].
  destruct (is_empty _); [by intros [= <- <- <-]; left|].
  destruct (sha256_hex (manifest_flag fs)) eqn:Eh; [|by intros [= <- <- <-]; left]. cbn [negb].
  destruct (NewPool readFile (pool_options fs)) as [pool|e] eqn:Epool; [|by intros [= <- <- <-]; left].
  destruct (verifySchemaGate answers (readiness d) (manifest_flag fs)) eqn:Eg; [by intros [= <- <- <-]; left|].
  intros [->|(Herr & Hb & Hr & Ha)]%dispatch_guarded; [by left|]. right. split; [done|]. split; try done.
  - exists pool. split; [done|]. by apply NewPool_spec in Epool as (_ & ? & ? & _).
  - unfold verifySchemaGate, read_row in Eg. destruct (answers Gate); [|done..].
    destruct (readiness d) as [[checksum ready]|]; [|done]. destruct (String.eqb_spec (ToLower checksum) (manifest_flag fs)) as [E|]; [|done].
    cbn [negb] in Eg. destruct ready; [|done]. exists checksum. by rewrite E.
Qed.

(** C14. Whatever its arguments and environment, a run of the command leaves every
    table as it was unless it exits with 0 and all of its guards held: a pool
    over a dedicated role and an external host in the schema of the service, a
    schema that is ready with exactly the manifest that was asked for, and an
    action that writes.  That is one of the four on the queue, with a positive
    limit that bounds the rows it changes and, for a cancellation, not as a dry
    run; or a page of a campaign that is applied explicitly, not as a dry run,
    of between 1 and 1000 rows. *)
Theorem repair_guarded args d code lines d' :
  main args d = (code, lines, d') ->
  d' = d \/ (code = 0 /\ exists fs, flag_Parse args (declared_flags getenv) = inl fs /\ write_guarded fs d d').
Proof.
  unfold repair_main. destruct (flag_Parse args (declared_flags getenv)) as [fs|c]; [|by intros [= <- <- <-]; left].
  destruct (run fs d) as [[err ls] d1] eqn:E. intros [= <- <- <-]. apply run_guarded in E as [->|[-> Hg]]; [by left|].
  right. split; [done|]. by exists fs.
Qed.
End guarded.

(** ** The report *)

Lemma group_counts_elem {A K} `{EqDecision K} (key : A -> K) less rows k ms :
  (k, ms) ∈ group_counts key less rows <-> ms = members key rows k /\ ms <> [].
Proof.
  unfold group_counts. rewrite list_elem_of_fmap. split.
  - intros (k' & [= <- ->] & Hk). split; [done|]. apply members_nonempty. by apply (sort_by_elem less).
  - intros [-> Hne]. exists k. split; [done|]. apply sort_by_elem, group_keys_elem.
    destruct (members key rows k) as [|r l] eqn:E; [done|]. exists r. apply (members_elem key). rewrite E. left.
Qed.

Lemma group_counts_NoDup {A K} `{EqDecision K} (key : A -> K) less rows : NoDup (fst <$> group_counts key less rows).
Proof.
  unfold group_counts. rewrite <-list_fmap_compose. cbn. rewrite list_fmap_id.
  rewrite (sort_by_perm less). apply group_keys_NoDup.
Qed.

(** The groups together have every row once. *)
Lemma group_counts_sum {A K} `{EqDecision K} (key : A -> K) less rows :
  sum_of ((fun g => count (snd g)) <$> group_counts key less rows) = count rows.
Proof.
  unfold group_counts. rewrite <-list_fmap_compose.
  assert (Hc : forall l : list A, count l = sum_of ((fun _ => 1) <$> l)).
  { intros l. unfold count. induction l as [|a l IH]; [done|]. rewrite fmap_cons, sum_of_cons, <-IH. cbn [length]. lia. }
  rewrite Hc, <-(sum_over_groups key (fun _ => 1) (sort_by less (group_keys key rows)) rows).
  - f_equal. apply list_fmap_ext. intros i k _. apply Hc.
  - rewrite (sort_by_perm less). apply group_keys_NoDup.
  - intros r Hr. apply sort_by_elem, group_keys_elem. by exists r.
Qed.

Definition count_of (l : line) : Z :=
  match l with StatusCount _ n | KindCount _ _ n | VectorCount _ n | KindBacklog _ _ n => n | _ => 0 end.

Definition total_of (ls : list line) : Z := sum_of (count_of <$> ls).

(** A list of grouped lines is what its groups are: each once, with all its
    rows, and together every row. *)
Lemma grouped_lines {A K} `{EqDecision K} (key : A -> K) less (rows : list A) (show : K * list A -> line) :
  (forall g, count_of (show g) = count (snd g)) ->
  total_of (show <$> group_counts key less rows) = count rows.
Proof.
  intros Hs. unfold total_of. rewrite <-list_fmap_compose, <-(group_counts_sum key less rows). f_equal. apply list_fmap_ext. intros i g _. apply Hs.
Qed.

Definition jobs_where (P : job_row -> bool) (d : db) : Z := rows_matching P (jobs d).

Lemma jobs_where_rows P d : jobs_where P d = count (List.filter P (rows_of d)).
Proof.
  unfold jobs_where, rows_matching, rows_of, count. f_equal. induction (map_to_list (jobs d)) as [|c l IH]; [done|].
  cbn. destruct (P (snd c)); cbn; by rewrite IH.
Qed.

Lemma members_where {K} `{EqDecision K} (key : job_row -> K) d k :
  count (members key (rows_of d) k) = jobs_where (fun r => bool_decide (key r = k)) d.
Proof. by rewrite jobs_where_rows. Qed.

Lemma filter_filter {A} (P Q : A -> bool) l : List.filter P (List.filter Q l) = List.filter (fun x => Q x && P x) l.
Proof. induction l as [|x l IH]; [done|]. cbn. destruct (Q x); cbn; [destruct (P x); by rewrite IH|done]. Qed.

Lemma group_line {K} `{EqDecision K} (key : job_row -> K) less d k n :
  (exists ms, (k, ms) ∈ group_counts key less (rows_of d) /\ n = count ms) <->
  n = jobs_where (fun r => bool_decide (key r = k)) d /\ 0 < n.
Proof.
  split.
  - intros (ms & Hg & ->). apply group_counts_elem in Hg as [-> Hne]. rewrite members_where. split; [done|].
    rewrite <-members_where. unfold count. destruct (members key (rows_of d) k); [done|]. cbn [length]. lia.
  - intros [-> Hn]. exists (members key (rows_of d) k). rewrite members_where. split; [|done]. apply group_counts_elem. split; [done|].
    intros E. rewrite <-members_where, E in Hn. unfold count in Hn. cbn [length] in Hn. lia.
Qed.

Lemma all_jobs d : count (rows_of d) = jobs_where (fun _ => true) d.
Proof. rewrite jobs_where_rows. f_equal. symmetry. induction (rows_of d) as [|r l IH]; [done|]. cbn. by rewrite IH. Qed.

Lemma lines_NoDup {K A} (show : K * list A -> line) (l : list (K * list A)) :
  (forall g g', show g = show g' -> fst g = fst g') -> NoDup (fst <$> l) -> NoDup (show <$> l).
Proof.
  intros Hs. induction l as [|g l IH]; [by constructor|]. rewrite !fmap_cons, !NoDup_cons. intros [Hn Hl]. split; [|by apply IH].
  intros (g' & E & Hg)%list_elem_of_fmap. apply Hn. rewrite (Hs _ _ E). by apply list_elem_of_fmap_2.
Qed.

(** One of the lists over the jobs: [show] prints a group. *)
Lemma job_lines {K} `{EqDecision K} (key : job_row -> K) less (show : K * list job_row -> line) d :
  (forall g, count_of (show g) = count (snd g)) -> (forall g g', show g = show g' -> fst g = fst g') ->
  let lines := show <$> group_counts key less (rows_of d) in
  NoDup lines /\ total_of lines = jobs_where (fun _ => true) d /\
  forall l, l ∈ lines <-> exists k, l = show (k, members key (rows_of d) k) /\ 0 < jobs_where (fun r => bool_decide (key r = k)) d.
Proof.
  intros Hc Hs lines. split_and!.
  - apply lines_NoDup; [done|apply group_counts_NoDup].
  - unfold lines. by rewrite grouped_lines, all_jobs.
  - intros l. unfold lines. rewrite list_elem_of_fmap. split.
    + intros ([k ms] & -> & Hg). exists k. destruct (group_line key less d k (count ms)) as [[E Hp] _]; [by exists ms|].
      rewrite <-E. split; [|done]. by apply group_counts_elem in Hg as [-> _].
    + intros (k & -> & Hp). destruct (group_line key less d k (jobs_where (fun r => bool_decide (key r = k)) d)) as [_ (ms & Hg & _)]; [done|].
      exists (k, ms). split; [|done]. by apply group_counts_elem in Hg as [-> _].
Qed.

Section report.
Context {Env : RepairEnv} (created_at : string -> time) (answers : statement -> answer).
Context (client_now now clock : time) (locked : gset string) (snapshot : db) (others : string -> db -> db).

Definition tolerated (q : statement) : Prop := forall err, answers q <> Fails err.

Lemma status_lines q : let statuses := status_counts q in
  NoDup statuses /\ total_of statuses = jobs_where (fun _ => true) q /\
  (forall l, l ∈ statuses <-> exists st n, l = StatusCount st n /\ n = jobs_where (fun r => bool_decide (status r = st)) q /\ 0 < n).
Proof.
  destruct (job_lines status status_less (fun g => StatusCount (fst g) (count (snd g))) q) as (H1 & H2 & H3); [done|by intros ?? [= ? _]|].
  split_and!; [done..|]. intros l. rewrite H3. cbn. setoid_rewrite members_where. split; [intros (k & -> & ?); by do 2 eexists|].
  intros (st & n & -> & -> & ?). by exists st.
Qed.

Lemma kind_lines q : let kinds := kind_counts q in
  NoDup kinds /\ total_of kinds = jobs_where (fun _ => true) q /\
  (forall l, l ∈ kinds <-> exists kind st n, l = KindCount kind st n /\
     n = jobs_where (fun r => bool_decide ((r_embedding_kind r, status r) = (kind, st))) q /\ 0 < n).
Proof.
  destruct (job_lines (fun r => (r_embedding_kind r, status r)) kind_status_less
    (fun g => KindCount (fst (fst g)) (snd (fst g)) (count (snd g))) q) as (H1 & H2 & H3); [done|by intros [[]] [[]] [= -> -> _]|].
  split_and!; [done..|]. intros l. rewrite H3. cbn. setoid_rewrite members_where. split.
  - intros ([kind st] & -> & ?). by do 3 eexists.
  - intros (kind & st & n & -> & -> & ?). by exists (kind, st).
Qed.

Lemma backlog_lines q : let pending := backlog q in
  NoDup pending /\ total_of pending = jobs_where (fun _ => true) q /\
  (forall l, l ∈ pending <-> exists kind n, l = KindBacklog kind
     (jobs_where (fun r => bool_decide (r_embedding_kind r = kind) && open_job r) q) n /\
     n = jobs_where (fun r => bool_decide (r_embedding_kind r = kind)) q /\ 0 < n).
Proof.
  destruct (job_lines r_embedding_kind str_ltb (fun g => KindBacklog (fst g) (count (List.filter open_job (snd g))) (count (snd g))) q)
    as (H1 & H2 & H3); [done|by intros ?? [= ? _ _]|].
  assert (Ho : forall kind, count (List.filter open_job (members r_embedding_kind (rows_of q) kind))
    = jobs_where (fun r => bool_decide (r_embedding_kind r = kind) && open_job r) q).
  { intros kind. unfold members. by rewrite filter_filter, jobs_where_rows. }
  split_and!; [done..|]. intros l. rewrite H3. cbn. setoid_rewrite members_where. setoid_rewrite Ho.
  split; [intros (k & -> & ?); by do 2 eexists|]. intros (kind & n & -> & -> & ?). by exists kind.
Qed.

Lemma vector_total q : total_of (vector_counts q) = Z.of_nat (size (embeddings q)).
Proof. unfold vector_counts. rewrite grouped_lines by done. unfold count. by rewrite length_map_to_list. Qed.

Lemma read_answered {A} s (rows : list A) : answers s = Answered -> read_rows answers s rows = inl (rows, None).
Proof. unfold read_rows. by intros ->. Qed.

Lemma read_row_answered {A} s (row : A) : answers s = Answered -> read_row answers s row = inl row.
Proof. unfold read_row. by intros ->. Qed.

Lemma showStatus_answered q rows : (forall s, answers s = Answered) ->
  showStatus answers q rows = (Titled "=== Embedding Job Status ===" :: status_counts q ++ [TotalCount (jobs_where (fun _ => true) q)] ++
    [HeartbeatRows rows; Titled "=== Embedding Jobs by Kind and Status ==="] ++ kind_counts q ++
    [Titled "=== Embedded Vectors by Kind ==="] ++ vector_counts q ++ [Titled "=== Per-Kind Backlog ==="] ++ backlog q, None).
Proof.
  intros H. unfold showStatus, showKindCoverage. rewrite !read_answered, !read_row_answered by done. rewrite all_jobs.
  cbn [app]. by rewrite <-!app_assoc.
Qed.

Lemma showStatus_error q rows :
  snd (showStatus answers q rows) = None <-> answers JobTotal = Answered /\ answers HeartbeatTotal = Answered /\
    answers KindCounts = Answered /\ tolerated StatusCounts /\ tolerated VectorCounts /\ tolerated Backlog.
Proof.
  unfold showStatus, showKindCoverage, read_rows, read_row, tolerated.
  destruct (answers StatusCounts), (answers JobTotal), (answers HeartbeatTotal), (answers KindCounts), (answers VectorCounts), (answers Backlog);
    cbn; naive_solver.
Qed.

(** C40. The report of the statuses writes nothing.  With every statement answered
    it names each status that a job has once, with the number of these jobs,
    then all jobs; each pair of kind and status with its jobs, and each kind
    with its open jobs and all of them; each of the three lists adds up to all
    jobs.  It fails exactly when a statement fails or the rows by kind and
    status end early: when those of another list do, part of it is reported and
    the command succeeds. *)
Theorem status_report fs d err lines d' :
  text_flag fs "action" = "status" ->
  dispatch created_at answers client_now now clock locked snapshot others fs d = (err, lines, d') ->
  let q := queue (tables d) in
  d' = d /\
  ((forall s, answers s = Answered) -> exists statuses kinds vectors pending,
     lines = Titled "=== Embedding Job Status ===" :: statuses ++ [TotalCount (jobs_where (fun _ => true) q)] ++
       [HeartbeatRows (heartbeats d); Titled "=== Embedding Jobs by Kind and Status ==="] ++ kinds ++
       [Titled "=== Embedded Vectors by Kind ==="] ++ vectors ++ [Titled "=== Per-Kind Backlog ==="] ++ pending /\
     NoDup statuses /\ total_of statuses = jobs_where (fun _ => true) q /\
     (forall l, l ∈ statuses <-> exists st n, l = StatusCount st n /\ n = jobs_where (fun r => bool_decide (status r = st)) q /\ 0 < n) /\
     NoDup kinds /\ total_of kinds = jobs_where (fun _ => true) q /\
     (forall l, l ∈ kinds <-> exists kind st n, l = KindCount kind st n /\
        n = jobs_where (fun r => bool_decide ((r_embedding_kind r, status r) = (kind, st))) q /\ 0 < n) /\
     NoDup pending /\ total_of pending = jobs_where (fun _ => true) q /\
     (forall l, l ∈ pending <-> exists kind n, l = KindBacklog kind
        (jobs_where (fun r => bool_decide (r_embedding_kind r = kind) && open_job r) q) n /\
        n = jobs_where (fun r => bool_decide (r_embedding_kind r = kind)) q /\ 0 < n) /\
     total_of vectors = Z.of_nat (size (embeddings q))) /\
  (err = None <-> answers JobTotal = Answered /\ answers HeartbeatTotal = Answered /\ answers KindCounts = Answered /\
     tolerated StatusCounts /\ tolerated VectorCounts /\ tolerated Backlog).
Proof.
  intros Ha. unfold dispatch. rewrite Ha. cbn [is_proxy_action String.eqb]. destruct (showStatus answers _ _) as [ls e] eqn:E.
  cbn. intros [= <- <- <-]. cbv zeta. split; [done|]. split.
  - intros Hall. rewrite showStatus_answered in E by done. injection E as <- <-. do 4 eexists. split; [done|].
    destruct (status_lines (queue (tables d))) as (H1 & H2 & H3). destruct (kind_lines (queue (tables d))) as (H4 & H5 & H6).
    destruct (backlog_lines (queue (tables d))) as (H7 & H8 & H9). split_and!; try done. apply vector_total.
  - rewrite <-(showStatus_error (queue (tables d)) (heartbeats d)), E. cbn. by destruct e.
Qed.
End report.

(** ** Witnesses *)

Module CommandSample.
Definition driver : PostgresDriver := {|
  ParseConfig := fun _ => inl {| Host := "db.example.net"; User := "worker"; Password := "secret"; Database := "sync" |};
  AppendCertsFromPEM := fun _ => true;
  X509KeyPair := fun _ _ => None;
  ping := fun _ => None;
  session := fun _ => inl {| s_database := "sync"; s_schema := "atheros_search"; s_timezone := "UTC"; s_version := 160004 |} |}.

Definition manifest : string := "0123456789abcdef0123456789abcdef0123456789abcdef0123456789abcdef".

Definition getenv (key : string) : string :=
  if String.eqb key "ATHSEARCH_POSTGRES_DSN" then "postgres://db.example.net/sync"
  else if String.eqb key "ATHSEARCH_SCHEMA_MANIFEST_SHA256" then manifest
  else "".

Definition readFile (path : string) : string + error := inr (Opaque "no such file").

(** One pending job whose document is gone. *)
Definition orphans : db := {| jobs := {["j1" := sample_row]}; documents := ∅; embeddings := ∅; vectors := ∅ |}.

Definition before : command_db := {|
  tables := {| queue := orphans; progress := ∅; receipts := []; policy := None |};
  heartbeats := 2; readiness := Some (manifest, true) |}.

Definition main (answers : statement -> answer) (args : list string) : Z * list line * command_db :=
  repair_main (Env := sample_env) (Driver := driver) (fun _ => 1) getenv readFile answers 7 7 7 ∅ orphans (fun _ d => d) args before.

Definition healthy (s : statement) : answer := Answered.

(** The rows of the statuses end before the first one. *)
Definition cut_short (s : statement) : answer := match s with StatusCounts => EndsAfter 0 (Opaque "connection reset") | _ => Answered end.

Definition code_of (r : Z * list line * command_db) : Z := fst (fst r).
Definition lines_of (r : Z * list line * command_db) : list line := snd (fst r).
Definition status_of (r : Z * list line * command_db) : option job_status := status <$> (jobs (queue (tables (snd r))) !! "j1").
End CommandSample.

Example dry_run_writes_nothing :
  CommandSample.status_of (CommandSample.main CommandSample.healthy ["-dry-run"; "-action"; "cancel-orphaned"]) = Some Pending.
Proof. vm_compute. reflexivity. Qed.

Example no_manifest_no_write :
  let r := CommandSample.main CommandSample.healthy ["-schema-manifest-sha256=abc"; "-action=cancel-orphaned"] in
  CommandSample.code_of r = 1 /\ CommandSample.status_of r = Some Pending.
Proof. vm_compute. done. Qed.

Example bad_flag_exits : CommandSample.code_of (CommandSample.main CommandSample.healthy ["-limit=ten"; "-action=cancel-orphaned"]) = 2.
Proof. vm_compute. reflexivity. Qed.

(** The statuses that did not arrive are missing from a report that succeeds. *)
Example report_cut_short :
  let r := CommandSample.main CommandSample.cut_short [] in
  CommandSample.code_of r = 0 /\
  take 2 (CommandSample.lines_of r) = [Titled "=== Embedding Job Status ==="; TotalCount 1].
Proof. vm_compute. done. Qed.

Lemma repair_guarded_witness :
  exists d', CommandSample.main CommandSample.healthy ["--action=cancel-orphaned"; "-limit"; "0x10"]
    = (0, [Affected "cancel-orphaned" 1], d') /\ jobs (queue (tables d')) !! "j1" <> Some sample_row /\
  exists fs, int_flag fs "limit" = 16 /\ write_guarded (Env := sample_env) (Driver := CommandSample.driver) (fun _ => 1) CommandSample.readFile 7 7 (fun _ d => d) fs CommandSample.before d'.
Proof.
  set (args := ["--action=cancel-orphaned"; "-limit"; "0x10"]).
  assert (H1 : CommandSample.code_of (CommandSample.main CommandSample.healthy args) = 0) by (vm_compute; reflexivity).
  assert (H2 : CommandSample.lines_of (CommandSample.main CommandSample.healthy args) = [Affected "cancel-orphaned" 1]) by (vm_compute; reflexivity).
  assert (Hj : CommandSample.status_of (CommandSample.main CommandSample.healthy args) = Some Cancelled) by (vm_compute; reflexivity).
  destruct (CommandSample.main CommandSample.healthy args) as [[code lines] d'] eqn:E. cbn in H1, H2. subst code lines.
  change (status <$> (jobs (queue (tables d')) !! "j1") = Some Cancelled) in Hj. exists d'. split; [reflexivity|].
  split; [intros Ej; rewrite Ej in Hj; vm_compute in Hj; discriminate Hj|].
  destruct (repair_guarded (Env := sample_env) (Driver := CommandSample.driver) (fun _ => 1) CommandSample.getenv CommandSample.readFile CommandSample.healthy
    7 7 7 ∅ CommandSample.orphans (fun _ d => d) _ _ _ _ _ E) as [->|[_ (fs & Ef & Hg)]].
  - exfalso. vm_compute in Hj. discriminate Hj.
  - exists fs. split; [|exact Hg].
    assert (Hl : match flag_Parse args (declared_flags CommandSample.getenv) with
      | inl g => int_flag g "limit" | inr _ => 0 end = 16) by (vm_compute; reflexivity).
    rewrite Ef in Hl. exact Hl.
Defined.

Lemma status_report_witness :
  exists fs, text_flag fs "action" = "status" /\
    fst (fst (dispatch (Env := sample_env) (fun _ => 1) CommandSample.healthy 7 7 7 ∅ CommandSample.orphans (fun _ d => d) fs CommandSample.before)) = None.
Proof.
  exists (declared_flags CommandSample.getenv). split; [vm_compute; reflexivity|].
  destruct (dispatch (Env := sample_env) (fun _ => 1) CommandSample.healthy 7 7 7 ∅ CommandSample.orphans (fun _ d => d)
    (declared_flags CommandSample.getenv) CommandSample.before) as [[err lines] d'] eqn:E.
  destruct (status_report (Env := sample_env) (fun _ => 1) CommandSample.healthy 7 7 7 ∅ CommandSample.orphans (fun _ d => d)
    (declared_flags CommandSample.getenv) CommandSample.before err lines d' ltac:(vm_compute; reflexivity) E) as (_ & _ & H).
  apply H. repeat split; intros e; discriminate.
Defined.
