(* ===== verification/Retrieval.v ===== *)
(** * Retrieval from the search tables (internal/search: sparse.go, dense.go, result_scan.go)

    The three retrieval statements and the coverage count over the rows of
    search_documents and embeddings, as an instance of the interface that
    [SearchService] searches through.  Text search and vector operators of
    PostgreSQL are the class [SearchEngine]; an index answers exactly. *)

From S2P Require Import Prelude GoErrors GoStrings GoSort GoFloats GoCrypto QueryScope SearchResults EmbedClient LeaseQueue SqlGroup SearchService.
From Stdlib Require Import SpecFloat.

(** A row of search_documents: what the workers read of it, its scoped columns,
    and the columns that are only shown. *)
Record search_row := {
  row_source_id : string;
  row_source_table : string;
  row_document : doc_row;
  row_scope : document;
  row_search_vector : string;
  row_detail_json : option string;
  row_window_start : option time;
  row_window_end : option time;
}.

(** search_documents by document_id, embeddings by document, kind, model and
    revision, and the display names of devices. *)
Record search_db := {
  search_documents : gmap string search_row;
  search_embeddings : gmap (string * string * string * string) vector_row;
  device_names : string -> option string;
}.

(** tsvector @@ websearch_to_tsquery('simple', query), ts_rank_cd, the vector
    operators <=> and v <#> v < 0, and json.Valid. *)
Class SearchEngine := {
  ts_matches : string -> string -> bool;
  ts_rank_cd : string -> string -> float32;
  cosine_distance : list float32 -> list float32 -> float64;
  nonzero : list float32 -> bool;
  json_valid : string -> bool;
}.

Section retrieval.
Context {Engine : SearchEngine} (s : search_db).

Definition normalizeJSONObject (value : string) : string :=
  let value := TrimSpace value in
  if is_empty value || String.eqb value "null" || negb (json_valid value) then "{}" else value.

(** scanResult: the columns of a row and its two scores. *)
Definition scanResult (d : search_row) (cosine keyword : float32) : RawResult :=
  let c := row_scope d in {|
  SourceKey := row_source_id d; SourceTable := row_source_table d; SourceKind := source_kind (row_document d);
  SourceMAC := coalesce (c_source_mac c); LocationID := coalesce (c_location_id c); SensorID := coalesce (c_sensor_id c);
  ObservedAt := c_observed_at c; BSSID := coalesce (c_bssid c); SSID := coalesce (c_ssid c);
  FrameSubtype := coalesce (c_frame_subtype c); CosineSimilarity := cosine; KeywordRank := keyword;
  Score := f_zero; ThreatBoost := f_zero; SequenceLogProb := f_zero; BoostReasons := [];
  ResultTags := TagsFromJSON (c_tags c); DetailJSON := normalizeJSONObject (default "{}" (row_detail_json d));
  ResultHost := coalesce (c_host c); ResultBlocked := c_blocked c; ProxyEventType := coalesce (c_proxy_event_type c);
  ProxyDeviceID := coalesce (c_proxy_device_id c); WindowStart := row_window_start d; WindowEnd := row_window_end d;
  Classification := coalesce (c_classification c); securityFlags := default 0 (c_security_flags c);
  handshakeCaptured := default false (c_handshake_captured c) |}.

(** DocumentScopeSQL as a condition: without filters there is none. *)
Definition in_scope (filters : option SearchFilters) (d : search_row) : bool :=
  match filters with None => true | Some f => in_document_scope (device_names s) f (row_scope d) end.

(** d.source_kind = kind AND d.status = 'active' *)
Definition active_of (kind : string) (d : search_row) : bool :=
  String.eqb (source_kind (row_document d)) kind && String.eqb (d_status (row_document d)) "active".

Definition all_documents : list (string * search_row) := map_to_list (search_documents s).

Definition recency_order : search_row -> search_row -> bool :=
  nulls_first (fun d => c_observed_at (row_scope d)) (less_on row_source_id str_ltb).

(** ts_rank_cd DESC, d.observed_at DESC, d.source_id *)
Definition rank_first (query : string) (a b : search_row) : bool :=
  let rank d := ts_rank_cd (row_search_vector d) query in
  if f_eqb (rank a) (rank b) then recency_order a b else f_gtb (rank a) (rank b).

(** The statement of sparseKind. *)
Definition keyword_documents (query kind : string) (filters : option SearchFilters) : list search_row :=
  List.filter (fun d => ts_matches (row_search_vector d) query && active_of kind d && in_scope filters d) (snd <$> all_documents).

Definition keyword_result (query : string) (d : search_row) : RawResult :=
  scanResult d f_zero (ts_rank_cd (row_search_vector d) query).

Definition sparse_statement (query kind : string) (filters : option SearchFilters) (limit : Z) : list RawResult :=
  keyword_result query <$> ordered (rank_first query) limit (keyword_documents query kind filters).

(** sparseWildcard *)
Definition wildcard_result (d : search_row) : RawResult :=
  scanResult d f_zero (f32_of_f64 (f64_div (f64_of_Z 1) (f64_of_Z 10))).

Definition sparseWildcard (kind : string) (filters : option SearchFilters) (limit : Z) : list RawResult :=
  wildcard_result <$> ordered recency_order limit
    (List.filter (fun d => active_of kind d && in_scope filters d) (snd <$> all_documents)).

(** *** The dense statement *)

(** The vector of a document that describes its present text. *)
Definition current_vector (model kind revision : string) (id : string) (d : search_row) : option (list float32) :=
  match search_embeddings s !! (id, embeddingKindForSourceKind kind, model, revision) with
  | None => None
  | Some v =>
      let doc := row_document d in
      if active_of kind d && String.eqb (v_content_sha256 v) (normalized_sha256 doc)
         && String.eqb revision (d_input_revision doc)
         && String.eqb (normalized_sha256 doc) (sha256Hex (normalized_text doc)) && nonzero (v_embedding v)
      then Some (v_embedding v) else None
  end.

(** A candidate of the inner statement: its document and its distance. *)
Definition candidates (qvec : list float32) (model kind revision : string) (filters : option SearchFilters)
    : list (search_row * float64) :=
  omap (fun c => match current_vector model kind revision (fst c) (snd c) with
                 | Some v => if in_scope filters (snd c) then Some (snd c, cosine_distance v qvec) else None
                 | None => None
                 end) all_documents.

Definition nearer (a b : search_row * float64) : bool := f_ltb (snd a) (snd b).

Definition nearest_first (a b : search_row * float64) : bool :=
  if f_eqb (snd a) (snd b) then str_ltb (row_source_id (fst a)) (row_source_id (fst b)) else nearer a b.

(** denseKindQuery: the nearest within the limit, then in the order of their keys. *)
Definition denseKindQuery (qvec : list float32) (model kind revision : string) (filters : option SearchFilters) (limit : Z)
    : list RawResult :=
  (fun c => scanResult (fst c) (f32_of_f64 (f64_sub (f64_of_Z 1) (snd c))) f_zero) <$>
    sort_by nearest_first (ordered nearer limit (candidates qvec model kind revision filters)).

(** The count of noEmbeddingCoverageReason. *)
Definition count_embeddings (kind : string) : Z :=
  Z.of_nat (length (List.filter (fun e => String.eqb (snd (fst (fst (fst e)))) kind) (map_to_list (search_embeddings s)))).

#[export] Instance retrieval_tables : Retrieval := {|
  dense_rows q model k rev f n := inl (denseKindQuery q model k rev f n);
  sparse_rows q k f n := inl (sparse_statement q k f n);
  wildcard_rows k f n := inl (sparseWildcard k f n);
  embedding_count k := inl (count_embeddings k) |}.
End retrieval.

(** ** The best of a list *)

(** [sel] keeps the best [k] of [all] by a rank: what it leaves out is outranked
    or equalled by [k] of it. *)
Section best.
Context {A : Type} (below : A -> A -> bool).

Definition at_least (y : A) (l : list A) : list A := List.filter (fun x => negb (below x y)) l.

Definition best (k : nat) (sel all : list A) : Prop :=
  forall y, y ∈ all -> y ∈ sel \/ (k <= length (at_least y sel))%nat.

Lemma at_least_app y l1 l2 : at_least y (l1 ++ l2) = at_least y l1 ++ at_least y l2.
Proof. apply List.filter_app. Qed.

Lemma at_least_length y l : (length (at_least y l) <= length l)%nat.
Proof. apply List.filter_length_le. Qed.

Lemma at_least_all y l : (forall x, x ∈ l -> below x y = false) -> at_least y l = l.
Proof. intros H. apply List.forallb_filter_id, List.forallb_forall. intros x Hx%list_elem_of_In. by rewrite H. Qed.

Lemma at_least_none y l : (forall x, x ∈ l -> below x y = true) -> at_least y l = [].
Proof.
  intros H. unfold at_least. induction l as [|x l IH]; [done|]. cbn. rewrite (H x) by left. apply IH. intros z Hz. apply H. by right.
Qed.

Lemma at_least_full y l : (length l <= length (at_least y l))%nat -> forall x, x ∈ l -> below x y = false.
Proof.
  unfold at_least. induction l as [|z l IH]; intros Hl x Hx; [by apply elem_of_nil in Hx|]. cbn in Hl.
  pose proof (at_least_length y l) as Hle. unfold at_least in Hle. destruct (below z y) eqn:E; cbn in Hl; [lia|].
  apply elem_of_cons in Hx as [->|Hx]; [done|]. apply IH; [lia|done].
Qed.

Lemma at_least_perm y l1 l2 : l1 ≡ₚ l2 -> length (at_least y l1) = length (at_least y l2).
Proof. unfold at_least. induction 1 as [|x l1 l2 _ IH|x z l|]; cbn; [done|..|congruence]; repeat case_match; cbn; congruence. Qed.

Lemma best_app k s1 a1 s2 a2 : best k s1 a1 -> best k s2 a2 -> best k (s1 ++ s2) (a1 ++ a2).
Proof.
  intros H1 H2 y [Hy|Hy]%elem_of_app; [destruct (H1 y Hy) as [?|?]|destruct (H2 y Hy) as [?|?]];
    rewrite elem_of_app, at_least_app, length_app; (tauto || (right; lia)).
Qed.

Lemma best_refl k l : best k l l.
Proof. intros y Hy. by left. Qed.

Context (less : A -> A -> bool) {Hless : WeakOrder less} {Hbelow : WeakOrder below}.
(** A prefix of the sorted list, no shorter than [k], keeps the best. *)
Lemma best_take k m sel all : (forall x y, x ∈ sel -> y ∈ sel -> below x y = true -> less y x = true) ->
  (k <= m)%nat -> best k sel all -> best k (take m (sort_by less sel)) all.
Proof.
  intros Hrank Hm Hb y Hy. set (l := sort_by less sel). assert (Hp : l ≡ₚ sel) by apply sort_by_perm.
  assert (Hcut : forall a b, a ∈ take m l -> b ∈ drop m l -> below a b = false).
  { intros a b Ha Hbm. pose proof (sort_by_take_before less sel m a b Ha Hbm) as Hbef. unfold before in Hbef.
    destruct (below a b) eqn:E; [|done]. apply Hrank in E; [congruence|..]; rewrite <-Hp, <-(take_drop m l), elem_of_app; tauto. }
  destruct (decide (length l <= m)%nat) as [Hle|Hgt].
  { rewrite take_ge by done. destruct (Hb y Hy) as [?|Hk]; [left; by rewrite Hp|right; by rewrite (at_least_perm y _ _ Hp)]. }
  destruct (existsb (fun x => below x y) (take m l)) eqn:Hex.
  2:{ right. rewrite at_least_all; [rewrite length_take; lia|]. intros x Hx. destruct (below x y) eqn:E; [|done].
      rewrite <-Hex. symmetry. apply existsb_exists. exists x. by rewrite <-list_elem_of_In. }
  apply existsb_exists in Hex as (x & Hx%list_elem_of_In & Hxy). assert (Hdrop : forall z, z ∈ drop m l -> below z y = true).
  { intros z Hz. destruct (below z y) eqn:E; [done|]. specialize (Hcut x z Hx Hz).
    rewrite (ngt_trans _ _ _ E Hcut) in Hxy. done. }
  destruct (Hb y Hy) as [Hs|Hk].
  - left. rewrite <-Hp, <-(take_drop m l) in Hs. apply elem_of_app in Hs as [?|Hs]; [done|].
    apply Hdrop in Hs. by rewrite less_irrefl in Hs.
  - right. rewrite <-(at_least_perm y _ _ Hp), <-(take_drop m l) in Hk. rewrite at_least_app, (at_least_none y (drop m l) Hdrop), app_nil_r in Hk. done.
Qed.
End best.

(** ** What a search over the tables returns *)

Section tables.
Context {Engine : SearchEngine} (s : search_db).

Lemma scanned_scan d c k : scanned (row_scope d) (scanResult d c k).
Proof. by split. Qed.

Lemma document_elem id d : (id, d) ∈ all_documents s <-> search_documents s !! id = Some d.
Proof. apply elem_of_map_to_list. Qed.








End tables.

Section contract.
Context {Engine : SearchEngine} (s : search_db) (cfg : SearchConfig) (embed : list string -> string -> list (list float32) + error).
Context (iterate : gmap string RawResult -> list RawResult) (ctx : search_call -> option error).

Notation search := (Search (R := retrieval_tables s) ctx cfg embed iterate).

End contract.

(** ** What a keyword search leaves out *)

Lemma scan_loop_take keep score cap n rows :
  (forall r, r ∈ rows -> keep r = true) -> n < cap ->
  scan_loop keep score cap n rows
  = take (Z.to_nat (cap - n)) ((fun r => with_scores r (CosineSimilarity r) (KeywordRank r) (score r)) <$> rows).
Proof.
  revert n. induction rows as [|r rows IH]; intros n Hk Hn; cbn [scan_loop]; [by rewrite fmap_nil, take_nil|].
  rewrite (Hk r) by left. cbn [negb]. destruct (Z.leb_spec cap (n + 1)).
  - replace (Z.to_nat (cap - n)) with 1%nat by lia. by rewrite fmap_cons; cbn; rewrite take_0.
  - rewrite IH; [|intros r' Hr'; apply Hk; by right|lia]. replace (Z.to_nat (cap - n)) with (S (Z.to_nat (cap - (n + 1)))) by lia. done.
Qed.

Lemma filter_loop_take f limit n rows :
  (forall r, r ∈ rows -> resultMatchesFilters r f = true) -> 0 <= n < limit ->
  filter_loop rows f limit n = take (Z.to_nat (limit - n)) rows.
Proof.
  revert n. induction rows as [|r rows IH]; intros n Hk Hn; cbn [filter_loop]; [by rewrite take_nil|].
  rewrite (Hk r) by left. cbn [negb]. rewrite (proj2 (Z.ltb_lt 0 limit)) by lia. cbn [andb]. destruct (Z.leb_spec limit (n + 1)).
  - replace (Z.to_nat (limit - n)) with 1%nat by lia. cbn. by rewrite take_0.
  - rewrite IH; [|intros r' Hr'; apply Hk; by right|lia]. by replace (Z.to_nat (limit - n)) with (S (Z.to_nat (limit - (n + 1)))) by lia.
Qed.

Lemma per_kind_all f g kinds : (forall k, k ∈ kinds -> f k = inl (g k)) -> per_kind f kinds = inl (kinds ≫= g).
Proof.
  induction kinds as [|k kinds IH]; intros H; [done|]. cbn [per_kind]. rewrite (H k) by left. rewrite IH; [done|]. intros k' Hk'. apply H. by right.
Qed.

Lemma best_bind {A B} (below : B -> B -> bool) n (f g : A -> list B) kinds :
  (forall k, k ∈ kinds -> best below n (f k) (g k)) -> best below n (kinds ≫= f) (kinds ≫= g).
Proof.
  induction kinds as [|k kinds IH]; intros H; [by apply best_refl|]. cbn. apply best_app; [apply H; left|].
  apply IH. intros k' Hk'. apply H. by right.
Qed.

Lemma best_fmap {A B} (below : A -> A -> bool) (below' : B -> B -> bool) (f : A -> B) n sel all :
  (forall x y, below' (f x) (f y) = below x y) -> best below n sel all -> best below' n (f <$> sel) (f <$> all).
Proof.
  intros Hf H y (x & -> & Hx)%list_elem_of_fmap. destruct (H x Hx) as [Hs|Hk]; [left; by apply list_elem_of_fmap_2|right].
  assert (E : at_least below' (f x) (f <$> sel) = f <$> at_least below x sel); [|by rewrite E, length_fmap].
  unfold at_least. clear -Hf. induction sel as [|z sel IH]; [done|]. cbn. rewrite Hf. destruct (below z x); cbn; by rewrite <-IH.
Qed.

Section keywords.
Context {Engine : SearchEngine} (s : search_db).
Context (Hrank : forall v q, is_nan (ts_rank_cd v q) = false).
Context (Hstored : forall id d, search_documents s !! id = Some d -> stored_normally (row_scope d)).
Context (filters : option SearchFilters) (Hplain : forall f, filters = Some f -> plain_filters f).

Definition rank_of (query : string) (d : search_row) : float32 := ts_rank_cd (row_search_vector d) query.

(** A keyword result as it is scored. *)
Definition keyword_hit (query : string) (d : search_row) : RawResult :=
  with_scores (keyword_result query d) f_zero (rank_of query d) (rank_of query d).

(** What passes the one scope is not lost to the other. *)
Lemma scope_kept d c k : (exists id, search_documents s !! id = Some d) -> in_scope s filters d = true ->
  resultMatchesFilters (scanResult d c k) filters = true.
Proof.
  intros [id Hid] Hin. unfold in_scope in Hin. destruct filters as [f|]; [|done].
  rewrite <-(scopes_agree (device_names s) (row_scope d)); [done|apply scanned_scan|by eapply Hstored|by apply Hplain].
Qed.

Lemma keyword_documents_elem query kind d : d ∈ keyword_documents s query kind filters <->
  (exists id, search_documents s !! id = Some d) /\ active_of kind d = true /\ in_scope s filters d = true /\
  ts_matches (row_search_vector d) query = true.
Proof.
  unfold keyword_documents. rewrite filter_elem, list_elem_of_fmap, !andb_true_iff. split.
  - intros [([id d'] & -> & Hin) [[? ?] ?]]. split; [exists id; by apply document_elem|done].
  - intros ([id Hid] & ? & ? & ?). split; [|done]. exists (id, d). split; [done|]. by apply document_elem.
Qed.

(** The orders of the statement and of the service, on numeric ranks. *)
Definition rank_below (query : string) (a b : search_row) : bool := sf_less (rank_of query a) (rank_of query b).
Definition score_below (a b : RawResult) : bool := sf_less (Score a) (Score b).

#[export] Instance rank_below_order query : WeakOrder (rank_below query).
Proof. exact (less_on_order (rank_of query) sf_less sf_less_order). Qed.

#[export] Instance score_below_order : WeakOrder score_below.
Proof. exact (less_on_order Score sf_less sf_less_order). Qed.

Definition rank_order (query : string) : search_row -> search_row -> bool :=
  less_then (rank_of query) (flip_less sf_less) id recency_order.

Definition keyword_order : RawResult -> RawResult -> bool :=
  less_then KeywordRank (flip_less sf_less) id (latest_first ObservedAt (less_on SourceKey str_ltb)).

#[export] Instance rank_order_order query : WeakOrder (rank_order query).
Proof. unfold rank_order, recency_order. apply _. Qed.

#[export] Instance keyword_order_order : WeakOrder keyword_order.
Proof. unfold keyword_order. apply _. Qed.

Lemma rank_then {A} (k : A -> float32) less x y : is_nan (k x) = false -> is_nan (k y) = false ->
  (if f_eqb (k x) (k y) then less x y else f_gtb (k x) (k y)) = less_then k (flip_less sf_less) id less x y.
Proof.
  intros Hx Hy. rewrite f_eqb_ties by done. unfold less_then, flip_less, f_gtb, id.
  fold (f_ltb (k y) (k x)). rewrite !f_ltb_less by done.
  destruct (sf_less (k y) (k x)) eqn:E; [by rewrite andb_false_r|]. by destruct (sf_less (k x) (k y)).
Qed.

Lemma rank_first_order query l : sort_by (rank_first query) l = sort_by (rank_order query) l.
Proof. apply sort_by_ext. intros x y _ _. exact (rank_then (rank_of query) recency_order x y (Hrank _ _) (Hrank _ _)). Qed.

Lemma keyword_less_order l : (forall r, r ∈ l -> is_nan (KeywordRank r) = false) ->
  sort_by keyword_less l = sort_by keyword_order l.
Proof.
  intros Hn. apply sort_by_ext. intros x y Hx Hy. unfold keyword_order. rewrite <-rank_then by auto. unfold keyword_less.
  destruct (f_eqb _ _); [|done]. unfold latest_first, equalTime, timeAfter, less_on.
  destruct (ObservedAt x) as [t|], (ObservedAt y) as [u|]; try done. destruct (Z.eqb_spec t u) as [->|Hne].
  - by rewrite bool_decide_eq_true_2.
  - rewrite bool_decide_eq_false_2 by congruence. done.
Qed.

(** *** One kind *)

Context (o : Options) (Hfilters : Filters o = filters) (HtopK : 1 <= TopK o <= 100).

Lemma sparse_overfetch_enough : TopK o * 4 <= sparse_overfetch o.
Proof. unfold sparse_overfetch. cbv zeta. repeat case_match; reflect_Z; lia. Qed.

Definition kind_hits (query kind : string) : list search_row :=
  take (Z.to_nat (TopK o * 4)) (sort_by (rank_order query) (keyword_documents s query kind filters)).

Lemma sparseKind_hits query kind : supported kind = true -> isWildcardAllSearch query = false ->
  sparseKind (R := retrieval_tables s) open_ctx query kind o = inl (keyword_hit query <$> kind_hits query kind).
Proof.
  intros Hk Hw. unfold sparseKind. rewrite Hk, Hw. cbn [negb sparse_rows retrieval_tables]. rewrite Hfilters. f_equal.
  unfold sparse_statement, ordered. rewrite rank_first_order. rewrite scan_loop_take.
  - rewrite Z.sub_0_r, <-list_fmap_compose. rewrite <-fmap_take, take_take. unfold kind_hits.
    rewrite Nat.min_l by (pose proof sparse_overfetch_enough; lia). apply list_fmap_ext. by intros i d _.
  - intros r (d & -> & Hd)%list_elem_of_fmap. eapply subseteq_take in Hd. apply sort_by_elem, keyword_documents_elem in Hd as (Hid & _ & Hs & _).
    by apply scope_kept.
  - lia.
Qed.

Lemma kind_hits_best query kind k : (k <= Z.to_nat (TopK o * 4))%nat ->
  best (rank_below query) k (kind_hits query kind) (keyword_documents s query kind filters).
Proof.
  intros Hk. apply best_take; [apply _..| |done|apply best_refl].
  intros x y _ _ H. unfold rank_below in H. unfold rank_order, less_then, flip_less. by rewrite H.
Qed.

Lemma hit_below query x y : score_below (keyword_hit query x) (keyword_hit query y) = rank_below query x y.
Proof. done. Qed.

(** *** All kinds *)

Lemma Sparse_hits query : TrimSpace query <> "" -> isWildcardAllSearch (TrimSpace query) = false ->
  (forall k, k ∈ Kinds o -> supported k = true) ->
  exists out, Sparse (R := retrieval_tables s) open_ctx query o = inl out /\
    out = take (Z.to_nat (TopK o * 4)) (sort_by keyword_order (Kinds o ≫= fun k => keyword_hit (TrimSpace query) <$> kind_hits (TrimSpace query) k)).
Proof.
  intros Hq Hw Hk. unfold Sparse. destruct (is_empty (TrimSpace query)) eqn:E; [by apply is_empty_true in E|].
  rewrite (per_kind_all _ (fun k => keyword_hit (TrimSpace query) <$> kind_hits (TrimSpace query) k)).
  2:{ intros k Hin. apply sparseKind_hits; [by apply Hk|done]. }
  eexists. split; [done|]. set (rows := Kinds o ≫= _).
  assert (Hrows : forall r, r ∈ rows -> exists d, r = keyword_hit (TrimSpace query) d /\ (exists id, search_documents s !! id = Some d) /\
    in_scope s filters d = true).
  { intros r (k & Hr & _)%list_elem_of_bind. apply list_elem_of_fmap in Hr as (d & -> & Hd). exists d. split; [done|].
    eapply subseteq_take in Hd. apply sort_by_elem, keyword_documents_elem in Hd. tauto. }
  assert (Hnum : forall r, r ∈ rows -> is_nan (KeywordRank r) = false) by (intros r Hr; apply Hrows in Hr as (d & -> & _); apply Hrank).
  unfold filterResults. rewrite (keyword_less_order rows Hnum), filter_loop_take.
  - by rewrite Z.sub_0_r.
  - intros r Hr. apply sort_by_elem, Hrows in Hr as (d & -> & Hid & Hs). rewrite Hfilters. by apply (scope_kept d f_zero).
  - lia.
Qed.
End keywords.

Lemma truncate_take {A} limit (l : list A) : truncate limit l = take (Z.to_nat limit) l.
Proof. unfold truncate. destruct (Z.ltb_spec limit (Z.of_nat (length l))); [done|]. by rewrite take_ge by lia. Qed.

Section best_keywords.
Context {Engine : SearchEngine} (s : search_db) (cfg : SearchConfig) (embed : list string -> string -> list (list float32) + error).
Context (iterate : gmap string RawResult -> list RawResult) (ctx : search_call -> option error).

Notation search := (Search (R := retrieval_tables s) ctx cfg embed iterate).

(** C12. A keyword search shows the best.  Over the tables, when text rank
    yields numbers, every stored document keeps its text the way the writers
    store it ([stored_normally]), the filters name no blank list entry, no blank
    BSSID and no entity query ([plain_filters]), and the deadline outlasts the
    statements, a keyword search with meaningful terms answers; what it shows are matching documents in scope,
    scored by their rank; and a matching document in scope, of a kind that was
    asked for, is left out only if the answer is full and everything in it ranks
    at least as high. *)
Theorem keyword_search_best req kinds :
  (forall v q, is_nan (ts_rank_cd v q) = false) ->
  (forall id d, search_documents s !! id = Some d -> stored_normally (row_scope d)) ->
  (forall f, ReqFilters req = Some f -> plain_filters f) ->
  requestKinds (Kind req) = inl kinds -> (forall k, k ∈ kinds -> ctx (SparseCall k) = None) ->
  normalizeMode (Mode req) = MODE_SPARSE ->
  hasMeaningfulSearchTerms (Query req) = true -> isWildcardAllSearch (Query req) = false -> TrimSpace (Query req) <> "" ->
  let query := TrimSpace (Query req) in
  exists resp, search (Some req) = inl resp /\ ModeUsed resp = MODE_SPARSE /\
    Z.of_nat (length (Results resp)) <= ClampTopK (ReqTopK req) /\
    (forall r, r ∈ Results resp -> exists k d, k ∈ kinds /\ d ∈ keyword_documents s query k (ReqFilters req) /\ r = keyword_hit query d) /\
    (forall k d, k ∈ kinds -> d ∈ keyword_documents s query k (ReqFilters req) ->
       keyword_hit query d ∈ Results resp \/
       (Z.of_nat (length (Results resp)) = ClampTopK (ReqTopK req) /\
        forall r, r ∈ Results resp -> sf_less (Score r) (rank_of query d) = false)).
Proof.
  intros Hrank Hstored Hplain Hkinds Htime Hmode Hmean Hwild Hq query.
  assert (HtopK : 1 <= ClampTopK (ReqTopK req) <= 100) by apply ClampTopK_range. set (K := ClampTopK (ReqTopK req)) in *.
  set (o := search_options cfg req kinds). assert (Hwild' : isWildcardAllSearch query = false).
  { unfold isWildcardAllSearch, query in *. by rewrite TrimSpace_idem. }
  destruct (Sparse_hits s Hrank Hstored (ReqFilters req) Hplain o eq_refl HtopK (Query req) Hq Hwild' (requestKinds_supported _ _ Hkinds))
    as (out & Hout & Eout). fold query in Eout.
  set (hits := fun k => keyword_hit query <$> kind_hits s (ReqFilters req) o query k) in Eout. change (Kinds o) with kinds in Eout.
  assert (Hhit : forall r, r ∈ out -> exists k d, k ∈ kinds /\ d ∈ keyword_documents s query k (ReqFilters req) /\ r = keyword_hit query d).
  { intros r Hr. rewrite Eout in Hr. eapply subseteq_take in Hr. apply sort_by_elem, list_elem_of_bind in Hr as (k & Hr & Hk).
    apply list_elem_of_fmap in Hr as (d & -> & Hd). eapply subseteq_take in Hd. apply sort_by_elem in Hd. by exists k, d. }
  eexists. split.
  { unfold Search. rewrite Hwild, Hmean, Hmode, Hkinds. cbn [negb andb]. cbv zeta. unfold dense_leg. rewrite bool_decide_eq_false_2 by naive_solver.
    cbn [negb leg_mode no_leg]. rewrite bool_decide_eq_true_2 by tauto. fold K. change {| InputRevision := _ |} with o.
    rewrite Sparse_in_time by exact Htime. rewrite Hout. reflexivity. }
  cbn [ModeUsed Results leg_mode no_leg]. rewrite truncate_take. rewrite sort_scored.
  2:{ apply Forall_forall. intros r Hr. apply Hhit in Hr as (k & d & _ & _ & ->). apply Hrank. }
  set (shown := take (Z.to_nat K) (sort_by score_order out)).
  assert (Hlen : (length shown <= Z.to_nat K)%nat) by (unfold shown; rewrite length_take; lia).
  split_and!; [done|lia| |].
  { intros r Hr. unfold shown in Hr. eapply subseteq_take in Hr. apply sort_by_elem in Hr. by apply Hhit. }
  assert (Hbest : best score_below (Z.to_nat K) shown (kinds ≫= fun k => keyword_hit query <$> keyword_documents s query k (ReqFilters req))).
  { unfold shown. apply best_take; [apply _..| |done|].
    - intros x y _ _ H. unfold score_below in H. unfold score_order, less_then, flip_less. by rewrite H.
    - rewrite Eout. change (TopK o) with K. apply best_take; [apply _..| |lia|].
      + intros x y (k & Hx & _)%list_elem_of_bind (k' & Hy & _)%list_elem_of_bind H. apply list_elem_of_fmap in Hx as (dx & -> & _).
        apply list_elem_of_fmap in Hy as (dy & -> & _). unfold keyword_order, less_then, flip_less. cbn [KeywordRank keyword_hit with_scores].
        unfold score_below in H. cbn [Score keyword_hit with_scores] in H. by rewrite H.
      + apply best_bind. intros k _. apply (best_fmap (rank_below query)); [done|]. apply kind_hits_best; [done..|].
        change (TopK o) with K. lia. }
  intros k d Hk Hd. destruct (Hbest (keyword_hit query d)) as [?|Hfull]; [|by left|right].
  { apply list_elem_of_bind. exists k. split; [|done]. by apply list_elem_of_fmap_2. }
  pose proof (at_least_length score_below (keyword_hit query d) shown) as Hle. split; [lia|].
  intros r Hr. apply (at_least_full score_below (keyword_hit query d) shown); [lia|done].
Qed.
End best_keywords.

(** ** Witnesses *)

Module TableSample.
Definition engine : SearchEngine := {|
  ts_matches := fun v q => Contains v q;
  ts_rank_cd := fun v q => if Contains v "twice" then f32_of_Z 2 else f32_of_Z 1;
  cosine_distance := fun _ _ => f_zero;
  nonzero := fun v => negb (bool_decide (v = []));
  json_valid := fun _ => true |}.

Definition doc (text : string) : doc_row := {|
  normalized_text := text; d_status := "active"; normalized_sha256 := sha256Hex text; d_input_revision := "legacy_unknown";
  source_kind := "event" |}.

Definition row (source text : string) : search_row := {|
  row_source_id := source; row_source_table := "events"; row_document := doc text; row_scope := sample_document;
  row_search_vector := text; row_detail_json := None; row_window_start := None; row_window_end := None |}.

(** Without a time of observation. *)
Definition undated (source : string) : search_row := {|
  row_source_id := source; row_source_table := "events"; row_document := doc source;
  row_scope := {|
    c_location_id := None; c_sensor_id := None; c_source_mac := None; c_bssid := None; c_ssid := None; c_host := None;
    c_frame_subtype := None; c_proxy_event_type := None; c_proxy_device_id := None; c_classification := None;
    c_blocked := None; c_observed_at := None; c_security_flags := None; c_handshake_captured := None; c_tags := [] |};
  row_search_vector := source; row_detail_json := None; row_window_start := None; row_window_end := None |}.

Definition tables : search_db := {|
  search_documents := {["d1" := row "a" "rogue"; "d2" := row "b" "rogue twice"]};
  search_embeddings := {[("d1", "event", "model", "legacy_unknown") :=
    {| v_content_sha256 := sha256Hex "rogue"; v_embedding := [f32_of_Z 1]; embedded_at := 0 |}]};
  device_names := fun _ => None |}.

Definition mixed (n : nat) : search_db := {|
  search_documents := list_to_map (("dated", row "dated" "") :: ((fun i => (Itoa i, undated ("u" +:+ Itoa i))) <$> seqZ 0 (Z.of_nat n)));
  search_embeddings := ∅; device_names := fun _ => None |}.

Definition request (query : string) (mode : SearchMode) : SearchRequest := {|
  Query := query; Kind := KIND_EVENT; Mode := mode; ReqTopK := 1; ReqMinSimilarity := f_zero; ReqFilters := None |}.

Definition search (s : search_db) (query : string) (mode : SearchMode) : SearchResponse + app_error :=
  Search (R := retrieval_tables (Engine := engine) s) open_ctx demo_config demo_embed map_values (Some (request query mode)).

Definition keys (r : SearchResponse + app_error) : list string :=
  match r with inl resp => SourceKey <$> Results resp | inr _ => [] end.
End TableSample.

(** NULL leads a descending order, so records without a time fill the budget of
    a recency search: with fewer of them than the budget the dated record is
    shown first, with one more it is not found at all. *)
Example undated_crowd_out :
  TableSample.keys (TableSample.search (TableSample.mixed 3) "*" MODE_HYBRID) = ["dated"] /\
  TableSample.keys (TableSample.search (TableSample.mixed 4) "*" MODE_HYBRID) = ["u0"].
Proof. vm_compute. done. Qed.

Lemma keyword_search_best_witness :
  TableSample.keys (TableSample.search TableSample.tables "rogue" MODE_SPARSE) = ["b"] /\
  exists resp, TableSample.search TableSample.tables "rogue" MODE_SPARSE = inl resp /\
    forall r, r ∈ Results resp -> sf_less (Score r) (f32_of_Z 1) = false.
Proof.
  split; [vm_compute; reflexivity|].
  destruct (keyword_search_best (Engine := TableSample.engine) TableSample.tables demo_config demo_embed map_values open_ctx
    (TableSample.request "rogue" MODE_SPARSE) ["event"]) as (resp & E & _ & _ & _ & H).
  - intros v q. cbn. destruct (Contains v "twice"); reflexivity.
  - intros id d Hd. cbn in Hd. rewrite !lookup_insert_Some, lookup_singleton_Some in Hd.
    destruct Hd as [[_ <-]|[_ [_ <-]]]; exact sample_stored.
  - intros f [=].
  - reflexivity.
  - intros k _. reflexivity.
  - reflexivity.
  - vm_compute. reflexivity.
  - vm_compute. reflexivity.
  - vm_compute. discriminate.
  - exists resp. split; [exact E|]. destruct (H "event" (TableSample.row "a" "rogue")) as [Hin|[_ Hall]].
    + left.
    + apply (keyword_documents_elem (Engine := TableSample.engine)). split; [exists "d1"; reflexivity|]. vm_compute. done.
    + assert (Hk : TableSample.keys (TableSample.search TableSample.tables "rogue" MODE_SPARSE) = ["b"]) by (vm_compute; reflexivity).
      unfold TableSample.search in Hk. rewrite E in Hk. cbn in Hk. apply (list_elem_of_fmap_2 SourceKey) in Hin.
      rewrite Hk in Hin. apply list_elem_of_singleton in Hin. discriminate Hin.
    + exact Hall.
Defined.

