(* ===== verification/TextBuilder.v ===== *)
(** * Embedding text (internal/search/text_builder.go)

    The text that describes a record to the embedding model: one line per field
    that has a value, clamped to a number of words.  Times are in UTC. *)

From S2P Require Import Prelude GoStrings GoTime.

Definition newline_char : ascii := ascii_of_nat 10.
Definition line_end : string := String newline_char "".

Record AuditEntry := {
  FrameType : string; FrameSubtype : string; AppProtocol : string; TransportProtocol : string; SecurityFlags : string;
  DNSQueryName : string; MDNSName : string; DHCPHostname : string; WPSDeviceName : string; WPSManufacturer : string;
  WPSModelName : string; SSID : string; DeviceFingerprint : string; HandshakeCaptured : string; Protected : string;
  ChannelNumber : string; SignalDBM : string; Retry : string; MoreData : string; PowerSave : string;
  ObservedAt : option time;
}.

Record BehaviourSnapshot := {
  EventCount : Z; ProtocolMix : string; FrameTypeDistribution : string; SignalMinDBM : string; SignalMaxDBM : string;
  SignalAvgDBM : string; RetryCount : Z; ProtectedCount : Z; UnprotectedCount : Z; UniqueBSSIDCount : Z;
  MacRotationIndicators : string;
}.

Record FrameSequence := { SequenceTokens : string; SemanticTokens : string; FrameCount : Z }.

Record Device := {
  MACID : string; DisplayName : string; Username : string; Hostname : string; OSHint : string; MACHint : string;
  FirstSeen : option time; LastSeen : option time; ClusterSize : Z;
}.

(** ** Lines *)

(** The line of a field, if it has a value. *)
Definition appendValue (lines : list string) (name value : string) : list string :=
  let value := TrimSpace value in
  if is_empty value || EqualFold value "null" then lines else lines ++ [name +:+ ": " +:+ value].

Definition append_values (lines : list string) (fields : list (string * string)) : list string :=
  fold_left (fun lines f => appendValue lines (fst f) (snd f)) fields lines.

Definition normalizeWPSName (value : string) : string :=
  Join (Fields (ReplaceAll (TrimSpace value) "_" " ")) " ".

(** Time.Hour, and Time.Weekday with 0 for Sunday: the first day is a Monday. *)
Definition Hour_of (t : time) : Z := t mod Day / Hour.
Definition Weekday (t : time) : Z := (t / Day + 1) mod 7.

Definition weekday_name (d : Z) : string :=
  nth (Z.to_nat d) ["sunday"; "monday"; "tuesday"; "wednesday"; "thursday"; "friday"; "saturday"] "".

Definition temporalLines (t : time) : list string := [
  "hour_of_day: " +:+ of_bytes (fixed_digits 2 (Hour_of t));
  "day_of_week: " +:+ weekday_name (Weekday t);
  if (Weekday t =? 6) || (Weekday t =? 0) then "is_weekend: true" else "is_weekend: false";
  if (9 <=? Hour_of t) && (Hour_of t <? 17) then "is_business_hours: true" else "is_business_hours: false"].

(** ** Clamping *)

Definition laterLinesHaveWords (lines : list string) : bool := existsb (fun l => negb (bool_decide (Fields l = []))) lines.

(** [out[len(out)-1] += ...] *)
Definition dot_last (out : list string) : list string :=
  match last out with Some l => removelast out ++ [l +:+ "..."] | None => out end.

Fixpoint clamp_loop (out lines : list string) (remaining : Z) : string :=
  match lines with
  | [] => Join out line_end
  | line :: rest =>
      let words := Fields line in
      let n := Z.of_nat (length words) in
      if n =? 0 then clamp_loop (out ++ [line]) rest remaining
      else if remaining <? n then
        if 0 <? remaining then Join (out ++ [Join (take (Z.to_nat remaining) words) " " +:+ "..."]) line_end
        else match out with [] => Join ["..."] line_end | _ => Join (dot_last out) line_end end
      else
        let out := out ++ [line] in
        if (remaining - n =? 0) && laterLinesHaveWords rest then Join (dot_last out) line_end
        else clamp_loop out rest (remaining - n)
  end.

Definition clampWords (text : string) (maxWords : Z) : string :=
  if maxWords <=? 0 then if is_empty (TrimSpace text) then text else "..."
  else clamp_loop [] (Split text newline_char) maxWords.

(** ** The builders *)

Definition BuildEventText (entry : AuditEntry) : string :=
  let lines := append_values ["kind: event"] [
    ("frame_type", FrameType entry); ("frame_subtype", FrameSubtype entry); ("app_protocol", AppProtocol entry);
    ("transport_protocol", TransportProtocol entry); ("security_flags", SecurityFlags entry);
    ("dns_query_name", DNSQueryName entry); ("mdns_name", MDNSName entry); ("dhcp_hostname", DHCPHostname entry);
    ("wps_device_name", normalizeWPSName (WPSDeviceName entry)); ("wps_manufacturer", WPSManufacturer entry);
    ("wps_model_name", WPSModelName entry); ("ssid", SSID entry); ("device_fingerprint", DeviceFingerprint entry);
    ("handshake_captured", HandshakeCaptured entry); ("protected", Protected entry);
    ("channel_number", ChannelNumber entry); ("signal_dbm", SignalDBM entry); ("retry", Retry entry);
    ("more_data", MoreData entry); ("power_save", PowerSave entry)] in
  let lines := match ObservedAt entry with Some t => lines ++ temporalLines t | None => lines end in
  clampWords (Join lines line_end) 128.

Definition BuildBehaviourText (s : BehaviourSnapshot) : string :=
  clampWords (Join (append_values ["kind: behaviour_window"] [
    ("event_count", Itoa (EventCount s)); ("protocol_mix", ProtocolMix s);
    ("frame_type_distribution", FrameTypeDistribution s); ("signal_min_dbm", SignalMinDBM s);
    ("signal_max_dbm", SignalMaxDBM s); ("signal_avg_dbm", SignalAvgDBM s); ("retry_count", Itoa (RetryCount s));
    ("protected_count", Itoa (ProtectedCount s)); ("unprotected_count", Itoa (UnprotectedCount s));
    ("unique_bssid_count", Itoa (UniqueBSSIDCount s)); ("mac_rotation_indicators", MacRotationIndicators s)]) line_end) 128.

Definition BuildSequenceText (q : FrameSequence) : string :=
  clampWords (Join (append_values ["kind: frame_sequence"] [
    ("sequence_tokens", SequenceTokens q); ("semantic_tokens", SemanticTokens q); ("frame_count", Itoa (FrameCount q))]) line_end) 128.

Definition BuildDeviceText (d : Device) : string :=
  let seen name at_ := match at_ with Some t => [(name, FormatRFC3339 t)] | None => [] end in
  clampWords (Join (append_values ["kind: device"] ([
    ("mac_id", MACID d); ("display_name", DisplayName d); ("username", Username d); ("hostname", Hostname d);
    ("os_hint", OSHint d); ("mac_hint", MACHint d)] ++ seen "first_seen" (FirstSeen d) ++ seen "last_seen" (LastSeen d)
    ++ [("cluster_size", Itoa (ClusterSize d))])) line_end) 128.

(** ** Words *)

Lemma fields_aux_space s c t cur : is_space c = true -> fields_aux (s +:+ String c t) cur = fields_aux s cur ++ fields_aux t "".
Proof.
  intros Hc. revert cur. induction s as [|d s IH]; intros cur; simpl.
  - rewrite Hc. by destruct (decide (cur = "")).
  - destruct (is_space d); [|apply IH]. destruct (decide (cur = "")); by rewrite IH.
Qed.

Lemma Fields_line_end s t : Fields (s +:+ line_end +:+ t) = Fields s ++ Fields t.
Proof. exact (fields_aux_space s newline_char t "" eq_refl). Qed.

Lemma Fields_Join lines : Fields (Join lines line_end) = lines ≫= Fields.
Proof.
  induction lines as [|l [|m lines] IH]; [done|cbn; by rewrite app_nil_r|].
  cbn [Join]. rewrite Fields_line_end. cbn [Join] in IH. rewrite IH. done.
Qed.

Definition word (w : string) : Prop := w <> "" /\ forallb (fun c => negb (is_space c)) (bytes w) = true.

Lemma fields_aux_word w cur : forallb (fun c => negb (is_space c)) (bytes w) = true -> cur +:+ w <> "" -> fields_aux w cur = [cur +:+ w].
Proof.
  revert cur. induction w as [|c w IH]; intros cur Hw Hn; cbn [fields_aux].
  - rewrite append_nil_r in *. by rewrite decide_False.
  - cbn in Hw. apply andb_true_iff in Hw as [Hc Hw]. apply negb_true_iff in Hc. rewrite Hc.
    assert (E : cur +:+ String c w = (cur +:+ String c "") +:+ w) by (by rewrite <-append_assoc). rewrite E in *. by apply IH.
Qed.

Lemma fields_aux_words s cur : forallb (fun c => negb (is_space c)) (bytes cur) = true -> Forall word (fields_aux s cur).
Proof.
  revert cur. induction s as [|c s IH]; intros cur Hcur; cbn [fields_aux].
  - destruct (decide (cur = "")); [done|]. repeat constructor; done.
  - destruct (is_space c) eqn:Ec.
    + destruct (decide (cur = "")); [by apply IH|]. constructor; [done|by apply IH].
    + apply IH. rewrite bytes_append, forallb_app, Hcur. cbn. by rewrite Ec.
Qed.

Lemma Fields_spaced words : Forall word words -> Fields (Join words " ") = words.
Proof.
  induction 1 as [|w words [Hne Hw] Hall IH]; [done|]. destruct words as [|v words]; [by apply (fields_aux_word w "")|].
  change (Join (w :: v :: words) " ") with (w +:+ String " " (Join (v :: words) " ")). unfold Fields.
  rewrite fields_aux_space by done. fold (Fields (Join (v :: words) " ")). rewrite IH. by rewrite (fields_aux_word w "").
Qed.

(** ** What clamping keeps *)

Lemma Join_Split s : Join (Split s newline_char) line_end = s.
Proof.
  induction s as [|c s IH]; [done|]. cbn [Split]. destruct (Ascii.eqb_spec newline_char c) as [<-|Hc].
  - destruct (Split s newline_char) as [|l ls] eqn:E; [by destruct s; cbn in E; repeat case_match|].
    change (Join ("" :: l :: ls) line_end) with ("" +:+ line_end +:+ Join (l :: ls) line_end). by rewrite IH.
  - destruct (Split s newline_char) as [|l ls]; [cbn in *; by rewrite <-IH|]. destruct ls as [|m ls]; cbn [Join] in *; by rewrite <-IH.
Qed.

Lemma Join_last out x y : Join (out ++ [x +:+ y]) line_end = Join (out ++ [x]) line_end +:+ y.
Proof.
  induction out as [|l out IH]; [done|]. rewrite <-!app_comm_cons.
  destruct (out ++ [x +:+ y]) as [|a ls] eqn:E1; [by destruct out|]. destruct (out ++ [x]) as [|b ms] eqn:E2; [by destruct out|].
  change (Join (l :: a :: ls) line_end) with (l +:+ line_end +:+ Join (a :: ls) line_end).
  change (Join (l :: b :: ms) line_end) with (l +:+ line_end +:+ Join (b :: ms) line_end). by rewrite IH, !append_assoc.
Qed.

Lemma dot_last_snoc out l : dot_last (out ++ [l]) = out ++ [l +:+ "..."].
Proof. unfold dot_last. by rewrite last_snoc, removelast_last. Qed.

Lemma laterLinesHaveWords_false lines : laterLinesHaveWords lines = false <-> lines ≫= Fields = [].
Proof.
  induction lines as [|l lines IH]; [done|]. cbn. rewrite orb_false_iff, negb_false_iff, bool_decide_eq_true.
  unfold laterLinesHaveWords in IH. rewrite IH. split; [by intros [-> ->]|]. intros H. by apply app_eq_nil in H.
Qed.

Lemma clamp_loop_spec lines out remaining :
  0 <= remaining -> (remaining = 0 -> lines ≫= Fields = []) ->
  let todo := lines ≫= Fields in
  (Z.of_nat (length todo) <= remaining -> clamp_loop out lines remaining = Join (out ++ lines) line_end) /\
  (remaining < Z.of_nat (length todo) -> exists body, clamp_loop out lines remaining = body +:+ "..." /\
     Fields body = (out ≫= Fields) ++ take (Z.to_nat remaining) todo).
Proof.
  revert out remaining. induction lines as [|line rest IH]; intros out remaining Hr Hz todo.
  { cbn. rewrite app_nil_r. split; [done|]. cbn. lia. }
  assert (Etodo : todo = Fields line ++ (rest ≫= Fields)) by done. clearbody todo. subst todo. cbn [clamp_loop]. cbv zeta.
  set (words := Fields line). rewrite length_app. assert (Hout : forall l, (out ++ [l]) ≫= Fields = (out ≫= Fields) ++ Fields l).
  { intros l. rewrite bind_app. cbn. by rewrite app_nil_r. }
  destruct (Z.eqb_spec (Z.of_nat (length words)) 0) as [En|En].
  { assert (Ew : words = []) by (by apply nil_length_inv; lia). destruct (IH (out ++ [line]) remaining Hr) as [IH1 IH2].
    { intros H. specialize (Hz H). change (words ++ (rest ≫= Fields) = []) in Hz. by rewrite Ew in Hz. }
    rewrite Ew. cbn [length app Nat.add]. rewrite <-app_assoc in IH1. split; [exact IH1|]. intros H. destruct (IH2 H) as (body & E & Eb).
    exists body. split; [done|]. rewrite Eb, Hout. fold words. by rewrite Ew, app_nil_r. }
  assert (Hpos : 0 < remaining).
  { destruct (decide (remaining = 0)) as [E|]; [|lia]. specialize (Hz E). change (words ++ (rest ≫= Fields) = []) in Hz.
    apply app_eq_nil in Hz as [Hz _]. by rewrite Hz in En. }
  destruct (Z.ltb_spec remaining (Z.of_nat (length words))) as [Hlt|Hge].
  { rewrite (proj2 (Z.ltb_lt 0 remaining)) by done. split; [lia|]. intros _. eexists. split; [apply Join_last|].
    rewrite Fields_Join, Hout, take_app_le by lia. f_equal. apply Fields_spaced, Forall_take, fields_aux_words. done. }
  destruct ((remaining - Z.of_nat (length words) =? 0) && laterLinesHaveWords rest) eqn:Eb.
  { apply andb_true_iff in Eb as [E0%Z.eqb_eq El]. assert (Hne : (rest ≫= Fields) <> []).
    { intros H. apply laterLinesHaveWords_false in H. congruence. }
    split; [intros H; destruct (rest ≫= Fields); [done|cbn in H; lia]|]. intros _. rewrite dot_last_snoc, Join_last. eexists. split; [done|].
    rewrite Fields_Join, Hout, take_app_length' by lia. done. }
  destruct (IH (out ++ [line]) (remaining - Z.of_nat (length words))) as [IH1 IH2]; [lia| |].
  { intros H. rewrite (proj2 (Z.eqb_eq _ _) H) in Eb. by apply laterLinesHaveWords_false. }
  rewrite <-app_assoc in IH1. split; [intros H; apply IH1; lia|]. intros H. destruct IH2 as (body & E & Ebody); [lia|].
  exists body. split; [done|]. rewrite Ebody, Hout, take_app_ge by lia. rewrite <-app_assoc. f_equal. f_equal. f_equal. lia.
Qed.

(** C39. A text within the number of words is kept as it is; a longer one becomes a
    text with exactly that many of its first words, marked with three dots. *)
Theorem clamp_keeps_first_words text maxWords : 0 < maxWords ->
  let words := Fields text in
  (Z.of_nat (length words) <= maxWords -> clampWords text maxWords = text) /\
  (maxWords < Z.of_nat (length words) -> exists body, clampWords text maxWords = body +:+ "..." /\
     Fields body = take (Z.to_nat maxWords) words).
Proof.
  intros Hm words. unfold clampWords. rewrite (proj2 (Z.leb_gt maxWords 0)) by done.
  assert (Ew : words = Split text newline_char ≫= Fields) by (unfold words; by rewrite <-Fields_Join, Join_Split). rewrite Ew.
  destruct (clamp_loop_spec (Split text newline_char) [] maxWords) as [H1 H2]; [lia|lia|]. split; [|exact H2].
  intros H. rewrite (H1 H). apply Join_Split.
Qed.

Example event_text : BuildSequenceText {| SequenceTokens := " beacon  probe "; SemanticTokens := "NULL"; FrameCount := 3 |}
  = "kind: frame_sequence" +:+ line_end +:+ "sequence_tokens: beacon  probe" +:+ line_end +:+ "frame_count: 3".
Proof. vm_compute. reflexivity. Qed.

Example weekend : temporalLines (719164 * Day + 9 * Hour)
  = ["hour_of_day: 09"; "day_of_week: saturday"; "is_weekend: true"; "is_business_hours: true"].
Proof. vm_compute. reflexivity. Qed.

Lemma clamp_keeps_first_words_witness :
  exists body, clampWords ("a b" +:+ line_end +:+ "c d") 3 = body +:+ "..." /\ Fields body = ["a"; "b"; "c"].
Proof.
  exact (proj2 (clamp_keeps_first_words ("a b" +:+ line_end +:+ "c d") 3 ltac:(reflexivity)) ltac:(vm_compute; reflexivity)).
Defined.
